(* ===== verification/_CoqProject ===== *)
-Q . S2P
Prelude.v
Buffer.v
Bencode.v
Codec.v
Text.v
Uint128.v
IPRange.v
IPPacket.v
TrafficPolicy.v
Queue.v
Crypto.v
Iwp.v
IwpSession.v
IwpProofs.v
Decaying.v
Path.v
PathProofs.v
PathContext.v
PathBuild.v
PathBuildProofs.v
LinkMessages.v
LinkMessageProofs.v
Dht.v
DhtTx.v
DhtContext.v
DhtProofs.v
Contact.v
ContactProofs.v
ContactItem.v
Dns.v
DnsProofs.v
DnsNames.v
DhtMessages.v
RcLookup.v
Outbound.v
OutboundProofs.v
Profiling.v
SessionMaker.v
SessionMakerProofs.v
Sending.v
Ini.v
ConfigDef.v
ConfigProofs.v
Reachability.v
Gossip.v
Service.v
ServiceProofs.v
Convo.v
ConvoProofs.v
