(* ===== verification/Prelude.v ===== *)
(** * A verification library for Belnet

    Belnet is an onion router: clients build paths through relays and exchange
    IP packets over them.  This library models the parts of it that can be stated
    without its event loop, sockets and databases, from byte buffers up to the
    building of a path through several routers, and proves what makes them
    correct.  Every definition keeps the name of the function or type it
    translates; paths below are relative to [src/llarp].

    ** Conventions

    Stateful code is a function from a state record to a state record; objects
    shared by pointers live in a store and are named by handles.  Callbacks,
    posted jobs and messages handed to other components are recorded, in order,
    in a list of events, and are executed by running the function they name.
    Integers are [Z] with their wrap-around written out ([wrap], [u8] to [u64]);
    bytes are [Z] below 256; sizes and offsets are [nat]; times are milliseconds.
    [outcome] is the result of code that can leave its memory: [Done], [Fault] for
    an access outside an array, a failed assertion or an exception that leaves the
    modelled code, [Timeout] for a loop that ran out of fuel.  Theorems that say
    code returns say [Done].

    Code outside the repository is a class with its documented laws: libsodium
    ([Sodium], [SodiumSpec], [SodiumStream], [SodiumHonest], [SodiumSign]), oxenc
    ([Buffer.Oxenc], [Contact.Oxenc], [OxencSwap], [OxencBt], [OxencDict],
    [OxencHex]), the C library's address text ([Inet], [InetText]), the heaps and the
    orders of hash maps of the C++ library ([PriorityQueue], [RetestQueue],
    [HashOrder]).  Parts of the repository that are not modelled enter the same way
    where a modelled part calls them: the key encapsulation of [crypto/libntrup]
    ([Kem]), routing messages ([Routing]), the router above a link session
    ([LinkParent], [LinkRouter]), the types of options ([OptionType]).  [DHTMessages]
    and [ContactCodec] are interfaces between modelled parts: [DhtMessages] and
    [ContactItem] implement them.  Each class has a concrete instance, on which the
    witnesses of the theorems run.

    ** Files

    - [Prelude]: outcomes, machine integers, byte strings, the hint database.
    - [Buffer]: [util/buffer.hpp], [util/buffer.cpp].  Reads and writes stay in
      their region; integers round-trip.
    - [Bencode]: [util/bencode.cpp], [util/bencode.hpp].  Readers with sinks as
      state-passing functions, writers, typed entries through the class [BItem].
      Scalars and lists of items round-trip; [bencode_discard] ends on any input
      and skips exactly one value.  Fuel is the size of the buffer plus two:
      every round of a reader consumes a byte.
    - [Uint128]: [net/uint128.hpp], [util/bits.hpp], [net/net_bits.hpp] and the
      address conversions of [net/ip.hpp].  Every operator refines arithmetic
      modulo [2^128].
    - [IPRange]: [net/ip_range.hpp], [net/ip_range_map.hpp], the bogon tests.
      Membership, intersection and containment of ranges as sets of addresses;
      the range map; the choice of a private range.
    - [IPPacket]: [net/ip_packet.cpp].  Rewriting addresses keeps checksums valid;
      built packets read back; the ICMP reply.  The walk over extension headers
      has the packet's size as fuel.
    - [TrafficPolicy]: [net/traffic_policy.cpp] and the text of ranges.  Policies
      survive the wire and decide what they say.
    - [Queue]: [util/thread/queue_manager.cpp], [queue.hpp].  Each operation is a
      machine of atomic steps.  Alone it refines a bounded FIFO queue across every
      wrap-around; interleaved by any number of threads it keeps one owner per
      cell and loses and repeats nothing.
    - [Crypto]: [crypto/crypto_libsodium.cpp], [encrypted.hpp],
      [encrypted_frame.cpp].  Key agreement, onion frames, their authenticity.
    - [Iwp]: [iwp/message_buffer.cpp].  Fragmentation, acknowledgement and
      reassembly in any order; retransmission completes.
    - [IwpSession], [IwpProofs]: [iwp/session.cpp].  The whole session as one
      record; the handshake agrees on key and token; no sequence of calls leaves
      the session's memory; what is delivered was sent.
    - [Decaying]: [util/decaying_hashset.hpp], [decaying_hashtable.hpp].  The set
      as a rate limiter.
    - [Path], [PathProofs]: [path/path.cpp], [path/transit_hop.cpp],
      [path/ihophandler.cpp].  Client paths and transit hops; layers put on are
      the layers taken off, in both directions; silent paths die.
    - [PathContext]: [path/path_context.cpp].  The tables of paths over a store of
      shared hops, and their invariant.
    - [PathBuild], [PathBuildProofs]: [messages/relay_commit.cpp],
      [messages/relay_status.cpp], [path/pathbuilder.cpp], [Path::HandleLRSM].  A
      client, relays and the messages between them: builds succeed end to end,
      failures are blamed on the right router.  The fuel of a router's job queue is
      16: no message makes it run more than eight jobs.
    - [Codec]: lemmas on dictionaries read key by key, shared by the codecs below.
    - [Text]: [util/str.cpp].  Splitting returns and inverts joining.
    - [LinkMessages], [LinkMessageProofs]: [messages/].  The codecs of link messages
      and the parser with its one object of each kind; every message is read back
      whatever an earlier one left in the parser.
    - [Dht]: [dht/kademlia.hpp], [bucket.hpp], [nodedb.cpp].  Buckets refine maps; the
      closest routers are found.
    - [DhtTx], [DhtContext], [DhtProofs]: [dht/].  Transactions, jobs and message
      handlers.  The handlers of results are events that run after their transaction
      was removed.  Transactions are answered once; lookups end; stored introduction
      sets are found; answers are checked.
    - [Contact], [ContactProofs], [ContactItem]: [router_contact.cpp],
      [net/address_info.cpp], [router_version.cpp], [dns/srv_data.cpp].  Contacts of
      both versions; a signed contact is read back and accepted; it implements the
      item interfaces of the messages.
    - [DhtMessages]: [dht/messages/].  Every DHT message is read back.
    - [RcLookup]: [router/rc_lookup_handler.cpp] run together with the DHT context.
      Every request for a contact is answered once.
    - [Dns], [DnsProofs], [DnsNames]: [dns/].  The parser ends on every packet;
      messages and replies round-trip; reverse names.
    - [Outbound], [OutboundProofs]: [router/outbound_message_handler.cpp].  Every
      callback is accounted for; pumps empty the queues.
    - [Profiling]: [profiling.cpp].  Marks of bad routers decay.
    - [SessionMaker], [SessionMakerProofs]: [router/outbound_session_maker.cpp].
      Requests for sessions are answered.
    - [Sending]: the two components above run together.  Their callbacks do not call
      them again before they return.
    - [Ini], [ConfigDef], [ConfigProofs]: [config/].  Generated configurations are read
      back.  The definitions of the options ([initializeConfig]) are an argument.
    - [Reachability]: [consensus/reachability_testing.cpp].  Failing routers are tested
      again.
    - [Gossip]: [router/rc_gossiper.cpp].  Our contact is passed on again in time.
    - [Service], [ServiceProofs]: [service/intro.cpp], [info.cpp], [identity.cpp],
      [protocol.cpp].  Frames of hidden services are read back, verified and decrypted.
    - [Convo], [ConvoProofs]: [service/endpoint.cpp], [session.cpp], [sendcontext.cpp],
      [async_key_exchange.cpp].  A first frame gives both endpoints one key; what is
      sent on a conversation arrives.

    Decoders have the size of their buffer plus two as fuel; the loops over paths,
    names and lists have the size of what they visit.  Times are not bounded above.

    ** What is not modelled

    The event loop ([ev/]), sockets, tunnel devices and platform code ([vpn/], [linux/],
    [win32/], [apple/], [android/]), RPC, databases ([peerstats/]) and the daemon are
    input and output.  QUIC tunnels ([quic/]) are driven by ngtcp2.  The routing and exit
    messages and exit sessions ([routing/], [exit/]), introduction sets and their lookups
    in [service/], the choice of hops and path sets in [path/], the link manager
    ([link/]), the handlers of packets ([handlers/]), the resolver ([dns/server.cpp])
    and the rest of [router/router.cpp] put the modelled parts together with these.
    Events for tooling, logging, status reports and printing are left out throughout.
    The manifest lists every part of the system with what is left out of it. *)

From Stdlib Require Export ZArith Lia.
From stdpp Require Export base tactics numbers option sets gmap sorting list.

(** ** Outcomes

    Code that dereferences raw pointers or loops on external progress returns
    an [outcome]: [Done] for a normal return, [Fault] for an access outside the
    memory the code owns or an exception that leaves the modelled code, [Timeout]
    when the fuel of a loop ran out.  *)

Inductive outcome (A : Type) : Type :=
| Done (a : A)
| Fault
| Timeout.
Arguments Done {A} a.
Arguments Fault {A}.
Arguments Timeout {A}.

Definition obind {A B} (m : outcome A) (k : A -> outcome B) : outcome B :=
  match m with
  | Done a => k a
  | Fault => Fault
  | Timeout => Timeout
  end.

Declare Scope belnet_scope.
Delimit Scope belnet_scope with belnet.
Open Scope belnet_scope.

Notation "'let!' x := m 'in' k" := (obind m (fun x => k))
  (at level 10, x pattern, k at level 200) : belnet_scope.

(** ** Machine integers *)

Definition wrap (w : Z) (z : Z) : Z := (z mod 2 ^ w)%Z.
Definition in_width (w : Z) (z : Z) : Prop := (0 <= z < 2 ^ w)%Z.
Abbreviation u8 := (wrap 8).
Abbreviation u16 := (wrap 16).
Abbreviation u32 := (wrap 32).
Abbreviation u64 := (wrap 64).
(** Times are signed. *)
Definition s64 (z : Z) : Z := (z + 2 ^ 63) mod 2 ^ 64 - 2 ^ 63.
(** [llarp::constants::proto_version] *)
Definition proto_version : Z := 0.

Definition is_byte (z : Z) : Prop := (0 <= z < 256)%Z.
Abbreviation bytes_ok := (Forall is_byte).

#[export] Instance is_byte_dec z : Decision (is_byte z).
Proof. unfold is_byte. apply _. Defined.
#[export] Instance in_width_dec w z : Decision (in_width w z).
Proof. unfold in_width. apply _. Defined.

Lemma wrap_range w z : (0 <= w)%Z -> in_width w (wrap w z).
Proof. intros. apply Z.mod_pos_bound, Z.pow_pos_nonneg; lia. Qed.

Lemma wrap_small w z : in_width w z -> wrap w z = z.
Proof. intros. by apply Z.mod_small. Qed.

(** ** Big-endian byte strings *)

Fixpoint be_bytes (n : nat) (v : Z) : list Z :=
  match n with
  | 0 => []
  | S m => ((v / 256 ^ Z.of_nat m) mod 256)%Z :: be_bytes m v
  end.

Definition be_value (l : list Z) : Z := fold_left (fun acc b => acc * 256 + b)%Z l 0%Z.

Lemma pow256_pos n : (0 < 256 ^ Z.of_nat n)%Z.
Proof. apply Z.pow_pos_nonneg; lia. Qed.

Lemma pow256_S n : (256 ^ Z.of_nat (S n) = 256 * 256 ^ Z.of_nat n)%Z.
Proof. rewrite Nat2Z.inj_succ, Z.pow_succ_r; lia. Qed.

Lemma length_be_bytes n v : length (be_bytes n v) = n.
Proof. induction n; simpl; congruence. Qed.

Lemma be_bytes_ok n v : bytes_ok (be_bytes n v).
Proof.
  induction n; simpl; constructor; auto.
  apply Z.mod_pos_bound; lia.
Qed.

Lemma be_value_acc l acc :
  (fold_left (fun acc b => acc * 256 + b) l acc
   = acc * 256 ^ Z.of_nat (length l) + be_value l)%Z.
Proof.
  unfold be_value. revert acc. induction l as [|x l IH]; intros acc; cbn [fold_left length].
  - simpl. lia.
  - rewrite IH, (IH (0 * 256 + x)%Z), pow256_S. lia.
Qed.

Lemma be_value_cons x l : (be_value (x :: l) = x * 256 ^ Z.of_nat (length l) + be_value l)%Z.
Proof. unfold be_value at 1. cbn [fold_left]. rewrite be_value_acc. lia. Qed.

Lemma be_value_app l1 l2 :
  (be_value (l1 ++ l2) = be_value l1 * 256 ^ Z.of_nat (length l2) + be_value l2)%Z.
Proof. unfold be_value at 1. rewrite fold_left_app, be_value_acc. done. Qed.

Lemma be_value_range l : bytes_ok l -> (0 <= be_value l < 256 ^ Z.of_nat (length l))%Z.
Proof.
  induction 1 as [|x l Hx _ IH]; [done|].
  rewrite be_value_cons. cbn [length]. rewrite pow256_S. unfold is_byte in Hx. nia.
Qed.

Lemma be_value_be_bytes_mod n v : be_value (be_bytes n v) = (v mod 256 ^ Z.of_nat n)%Z.
Proof.
  induction n as [|n IH]; [by rewrite Z.mod_1_r|].
  cbn [be_bytes]. rewrite be_value_cons, length_be_bytes, IH, pow256_S.
  pose proof (pow256_pos n). rewrite (Z.mul_comm 256), Z.rem_mul_r; lia.
Qed.

Lemma be_value_be_bytes n v :
  (0 <= v < 256 ^ Z.of_nat n)%Z -> be_value (be_bytes n v) = v.
Proof. intros. by rewrite be_value_be_bytes_mod, Z.mod_small. Qed.

Lemma be_bytes_mod n v w :
  (v mod 256 ^ Z.of_nat n = w mod 256 ^ Z.of_nat n)%Z -> be_bytes n v = be_bytes n w.
Proof.
  induction n as [|n IH]; [done|]. cbn [be_bytes]. rewrite pow256_S.
  pose proof (pow256_pos n). rewrite (Z.mul_comm 256), !Z.rem_mul_r by lia.
  pose proof (Z.mod_pos_bound v (256 ^ Z.of_nat n)).
  pose proof (Z.mod_pos_bound w (256 ^ Z.of_nat n)).
  intros E. assert ((v / 256 ^ Z.of_nat n) mod 256 = (w / 256 ^ Z.of_nat n) mod 256)%Z by nia.
  f_equal; [done|]. apply IH. nia.
Qed.

Lemma be_bytes_be_value l : bytes_ok l -> be_bytes (length l) (be_value l) = l.
Proof.
  induction 1 as [|x l Hx Hl IH]; [done|].
  cbn [length be_bytes]. pose proof (be_value_range l Hl). pose proof (pow256_pos (length l)).
  rewrite be_value_cons. f_equal.
  - rewrite Z.add_comm, Z.div_add, Z.div_small, Z.add_0_l by lia. by apply Z.mod_small.
  - etransitivity; [apply be_bytes_mod|exact IH].
    by rewrite Z.add_comm, Z.mod_add by lia.
Qed.

(** ** Hints and tactics *)

Create HintDb belnet.
#[export] Hint Resolve wrap_range wrap_small : belnet.

(** Case analysis on every test of the goal. *)
Ltac case_tests :=
  repeat match goal with
  | |- context [if ?b then _ else _] => destruct b eqn:?
  | |- context [match ?o with Some _ => _ | None => _ end] => destruct o eqn:?
  end.

(** Filtering keeps a projection free of duplicates. *)
Lemma NoDup_fmap_filter {A B} (f : A -> B) (P : A -> Prop) `{forall x, Decision (P x)} l : NoDup (f <$> l) -> NoDup (f <$> base.filter P l).
Proof.
  induction l as [|x l IH]; intros Hn; [constructor|]. inversion Hn as [|? ? Hx Hn']; subst. rewrite filter_cons.
  destruct (decide (P x)); [|by apply IH]. rewrite fmap_cons. constructor; [|by apply IH].
  intros (y&Ey&[_ Hy]%list_elem_of_filter)%list_elem_of_fmap. apply Hx. rewrite Ey. by apply list_elem_of_fmap_2.
Qed.
