(* ===== verification/Buffer.v ===== *)
(** * Byte buffers ([llarp/util/buffer.hpp], [llarp/util/buffer.cpp])

    A [llarp_buffer_t] is a base pointer, a stream position and a size.  The
    model keeps the bytes of the region and the position as an offset from the
    base; an access outside the region is a [Fault]. *)

From S2P Require Import Prelude.

(** The byte-order routines come from the oxenc submodule; their documented
    behaviour is that the most significant byte is stored first. *)
Class Oxenc := {
  write_host_as_big : nat -> Z -> list Z;
  load_big_to_host : nat -> list Z -> Z }.

Class OxencSpec `{Oxenc} : Prop := {
  write_host_as_big_spec n v : write_host_as_big n v = be_bytes n v;
  load_big_to_host_spec n l : length l = n -> load_big_to_host n l = be_value l }.

Record llarp_buffer_t := Buf { base : list Z; cur : nat }.

Definition sz (b : llarp_buffer_t) : nat := length (base b).

Definition set_cur (b : llarp_buffer_t) (c : nat) : llarp_buffer_t := Buf (base b) c.

(** [buf.cur += n]. *)
Definition advance (n : nat) (b : llarp_buffer_t) : llarp_buffer_t :=
  set_cur b (cur b + n).

(** [*buf.cur]. *)
Definition deref (b : llarp_buffer_t) : outcome Z :=
  match base b !! cur b with
  | Some x => Done x
  | None => Fault
  end.

Definition size_left (b : llarp_buffer_t) : nat :=
  let diff := cur b in
  if bool_decide (sz b < diff) then 0 else sz b - diff.

Definition view_all (b : llarp_buffer_t) : list Z := base b.

Definition view_remaining (b : llarp_buffer_t) : list Z :=
  take (size_left b) (drop (cur b) (base b)).

Definition startswith (b : llarp_buffer_t) (prefix : list Z) : bool :=
  bool_decide (take (length prefix) (view_remaining b) = prefix).

(** Overwrite the region from offset [p] on with [bs] (callers check the room). *)
Definition store (l : list Z) (p : nat) (bs : list Z) : list Z :=
  take p l ++ bs ++ drop (p + length bs) l.

(** Loads and stores of byte strings at an offset of a region. *)
Definition load (p : list Z) (off n : nat) : outcome (list Z) :=
  if bool_decide (off + n <= length p) then Done (take n (drop off p)) else Fault.

Definition save (p : list Z) (off : nat) (bs : list Z) : outcome (list Z) :=
  if bool_decide (off + length bs <= length p) then Done (store p off bs) else Fault.

Definition read_into (b : llarp_buffer_t) (dist : nat)
  : option (list Z) * llarp_buffer_t :=
  if bool_decide (dist <= size_left b)
  then (Some (take dist (drop (cur b) (base b))), advance dist b)
  else (None, b).

Definition write (b : llarp_buffer_t) (src : list Z) : bool * llarp_buffer_t :=
  let dist := length src in
  if bool_decide (dist <= size_left b)
  then (true, Buf (store (base b) (cur b) src) (cur b + dist))
  else (false, b).

(** [vsnprintf(cur, n, ...)] for a format that expands to [text]: at most
    [n - 1] characters of it are stored, followed by a terminating zero; the
    result is the length of the whole expansion. *)
Definition vsnprintf (l : list Z) (p n : nat) (text : list Z) : list Z * nat :=
  match n with
  | 0 => (l, length text)
  | S m => (store l p (take m text ++ [0%Z]), length text)
  end.

Definition writef (b : llarp_buffer_t) (text : list Z) : bool * llarp_buffer_t :=
  let toWrite := size_left b in
  let '(l, written) := vsnprintf (base b) (cur b) toWrite text in
  let b := Buf l (cur b) in
  if bool_decide (written <= 0) then (false, b)
  else if bool_decide (toWrite < written) then (false, b)
  else (true, advance written b).

Section Integers.
Context `{Oxenc}.

Definition put (sizeof : nat) (b : llarp_buffer_t) (i : Z) : bool * llarp_buffer_t :=
  if bool_decide (size_left b < sizeof) then (false, b)
  else (true, Buf (store (base b) (cur b) (write_host_as_big sizeof i)) (cur b + sizeof)).

Definition read (sizeof : nat) (b : llarp_buffer_t) : option Z * llarp_buffer_t :=
  if bool_decide (size_left b < sizeof) then (None, b)
  else (Some (load_big_to_host sizeof (take sizeof (drop (cur b) (base b)))),
        advance sizeof b).

Definition put_uint16 := put 2.
Definition put_uint32 := put 4.
Definition put_uint64 := put 8.
Definition read_uint16 := read 2.
Definition read_uint32 := read 4.
Definition read_uint64 := read 8.
End Integers.

(** The copying loop of [read_until]: [rest] are the bytes from the position
    to the end of the region. *)
Fixpoint read_until_loop (delim : Z) (rest : list Z) (resultsize : nat) : list Z :=
  match rest, resultsize with
  | x :: rest', S r =>
      if (x =? delim)%Z then [] else x :: read_until_loop delim rest' r
  | _, _ => []
  end.

(** The bytes stored in [result], the returned count and the new position.
    The loop stops at [base + sz], so a position past the end never stops
    there: the first [*cur] is already outside the region. *)
Definition read_until (delim : Z) (resultsize : nat) (b : llarp_buffer_t)
  : outcome (list Z * nat * llarp_buffer_t) :=
  if bool_decide (sz b < cur b) then Fault
  else
    let out := read_until_loop delim (drop (cur b) (base b)) resultsize in
    let b' := advance (length out) b in
    Done (out, if bool_decide (size_left b' = 0) then 0 else length out, b').

Definition copy (b : llarp_buffer_t) : list Z := base b.

(** [OwnedBuffer::copy_from] and [OwnedBuffer::copy_used] *)
Definition copy_from (b : llarp_buffer_t) : llarp_buffer_t := Buf (base b) 0.
Definition copy_used (b : llarp_buffer_t) : outcome llarp_buffer_t :=
  if bool_decide (sz b < cur b) then Fault else Done (Buf (take (cur b) (base b)) 0).

(** ** Lemmas *)

Definition wf (b : llarp_buffer_t) : Prop := cur b <= sz b.

#[export] Instance wf_dec b : Decision (wf b).
Proof. unfold wf. apply _. Defined.

Lemma size_left_wf b : wf b -> size_left b = sz b - cur b.
Proof. unfold wf, size_left. intros. case_bool_decide; lia. Qed.

Lemma length_store l p bs : p + length bs <= length l -> length (store l p bs) = length l.
Proof. intros. unfold store. rewrite !length_app, length_take, length_drop. lia. Qed.

Lemma take_store l p bs : p <= length l -> take p (store l p bs) = take p l.
Proof. intros. unfold store. rewrite take_app_le by (rewrite length_take; lia). by rewrite take_take, Nat.min_id. Qed.

Lemma drop_store l p bs : p <= length l -> drop p (store l p bs) = bs ++ drop (p + length bs) l.
Proof. intros. unfold store. by rewrite drop_app_length' by (rewrite length_take; lia). Qed.

Lemma load_done p off n : (off + n <= length p) -> load p off n = Done (take n (drop off p)).
Proof. intros. unfold load. by rewrite bool_decide_true. Qed.

Lemma save_done p off bs : (off + length bs <= length p) -> save p off bs = Done (store p off bs).
Proof. intros. unfold save. by rewrite bool_decide_true. Qed.

Lemma load_mid a m c off n : off = length a -> n = length m -> load (a ++ m ++ c) off n = Done m.
Proof.
  intros -> ->. rewrite load_done by (rewrite !length_app; lia). by rewrite drop_app_length, take_app_length.
Qed.

Lemma save_mid a m c off m' : off = length a -> length m' = length m ->
  save (a ++ m ++ c) off m' = Done (a ++ m' ++ c).
Proof.
  intros -> E. rewrite save_done by (rewrite !length_app; lia). unfold store.
  by rewrite take_app_length, E, <- drop_drop, drop_app_length, drop_app_length.
Qed.

(** The parts of a region, for [load_mid] and [save_mid]. *)
Lemma split_at {A} n (l : list A) : n <= length l -> exists a b, l = a ++ b /\ length a = n /\ length b = length l - n.
Proof.
  intros Hn. exists (take n l), (drop n l). rewrite take_drop, length_take, length_drop. split_and!; [done|lia|lia].
Qed.

(** What every writing operation promises: the region keeps its size, the
    bytes before the old position are untouched, and the position moves
    forward inside the region. *)
Definition write_frame (b b' : llarp_buffer_t) : Prop :=
  sz b' = sz b /\ take (cur b) (base b') = take (cur b) (base b)
  /\ cur b <= cur b' /\ wf b'.

Lemma write_frame_refl b : wf b -> write_frame b b.
Proof. by repeat split. Qed.

Lemma write_frame_trans b1 b2 b3 : write_frame b1 b2 -> write_frame b2 b3 -> write_frame b1 b3.
Proof.
  intros (Hs & Ht & Hc & _) (Hs' & Ht' & Hc' & Hw'). repeat split; [congruence| |lia|done].
  apply (f_equal (take (cur b1))) in Ht'. rewrite !take_take, !Nat.min_l in Ht' by lia. congruence.
Qed.

Lemma store_frame b bs n : wf b -> cur b + length bs <= sz b -> n <= length bs ->
  write_frame b (Buf (store (base b) (cur b) bs) (cur b + n)).
Proof.
  unfold wf. intros Hw Hl Hn. unfold write_frame, wf, sz in *. cbn.
  rewrite length_store, take_store by lia. repeat split; lia.
Qed.

Lemma write_ok b src : wf b -> length src <= size_left b ->
  write b src = (true, Buf (store (base b) (cur b) src) (cur b + length src)).
Proof. intros. unfold write. by rewrite bool_decide_eq_true_2. Qed.

Lemma write_write_frame b src ok b' : wf b -> write b src = (ok, b') -> write_frame b b'.
Proof.
  intros Hw. unfold write. rewrite (size_left_wf b Hw). case_bool_decide; intros [= <- <-].
  - apply store_frame; [done|unfold wf in Hw; lia|lia].
  - by apply write_frame_refl.
Qed.

Lemma vsnprintf_frame b text l n :
  wf b -> vsnprintf (base b) (cur b) (size_left b) text = (l, n) ->
  n = length text /\ write_frame b (Buf l (cur b))
  /\ (n < size_left b -> l = store (base b) (cur b) (text ++ [0%Z])).
Proof.
  intros Hw. pose proof (size_left_wf b Hw) as Hs. unfold wf in Hw.
  unfold vsnprintf. destruct (size_left b) as [|m] eqn:E; intros [= <- <-].
  - split_and!; [done|by destruct b; apply write_frame_refl|lia].
  - split_and!; [done| |].
    + rewrite <- (Nat.add_0_r (cur b)) at 2. apply store_frame; [done| |lia].
      rewrite length_app, length_take. simpl. lia.
    + intros. by rewrite take_ge by lia.
Qed.

Lemma writef_write_frame b text ok b' : wf b -> writef b text = (ok, b') -> write_frame b b'.
Proof.
  intros Hw. unfold writef. destruct (vsnprintf _ _ _ _) as [l n] eqn:E.
  apply vsnprintf_frame in E as (-> & Hf & _); [|done].
  repeat case_bool_decide; intros [= <- <-]; try done.
  destruct Hf as (Hs & Ht & _ & Hw'). unfold write_frame, advance, set_cur, wf, sz in *. cbn in *.
  rewrite (size_left_wf b Hw) in *. unfold sz in *. repeat split; auto; lia.
Qed.

(** With room for the text and its terminator, [writef] stores both and moves
    past the text. *)
Lemma writef_ok b text : wf b -> 0 < length text < size_left b ->
  writef b text
  = (true, Buf (store (base b) (cur b) (text ++ [0%Z])) (cur b + length text)).
Proof.
  intros Hw Hl. unfold writef. destruct (vsnprintf _ _ _ _) as [l n] eqn:E.
  apply vsnprintf_frame in E as (-> & _ & Hl'); [|done].
  rewrite !bool_decide_eq_false_2 by lia. unfold advance, set_cur. cbn. by rewrite Hl' by lia.
Qed.

Section Integers.
Context `{OxencSpec}.

Lemma length_write_host n v : length (write_host_as_big n v) = n.
Proof. by rewrite write_host_as_big_spec, length_be_bytes. Qed.

Lemma put_write_frame n b i ok b' : wf b -> put n b i = (ok, b') -> write_frame b b'.
Proof.
  intros Hw. unfold put. rewrite (size_left_wf b Hw). case_bool_decide; intros [= <- <-].
  - by apply write_frame_refl.
  - apply store_frame; rewrite ?length_write_host; [done|unfold wf in Hw; lia|lia].
Qed.
End Integers.

#[export] Hint Resolve write_frame_refl write_frame_trans write_write_frame writef_write_frame
  put_write_frame : belnet.

(** ** Reading up to a delimiter *)

Lemma read_until_loop_stop delim pre c rest n :
  delim ∉ pre -> length pre <= n -> c = delim \/ length pre = n ->
  read_until_loop delim (pre ++ c :: rest) n = pre.
Proof.
  revert n. induction pre as [|x pre IH]; intros n Hd Hn Hc; cbn.
  - destruct n; [done|]. destruct Hc as [->|]; [by rewrite Z.eqb_refl|done].
  - apply not_elem_of_cons in Hd as [Hx Hd]. cbn in Hn. destruct n; [lia|].
    rewrite (proj2 (Z.eqb_neq x delim)) by done. f_equal. apply IH; [done|lia|].
    destruct Hc; [by left|right; cbn in *; lia].
Qed.

Lemma length_read_until_loop delim rest n :
  length (read_until_loop delim rest n) <= length rest
  /\ length (read_until_loop delim rest n) <= n.
Proof.
  revert n. induction rest as [|x rest IH]; intros [|n]; cbn; try lia.
  case_match; cbn; [lia|]. destruct (IH n). lia.
Qed.

Lemma read_until_done delim n b : wf b ->
  exists out k, read_until delim n b = Done (out, k, advance (length out) b)
    /\ out = read_until_loop delim (drop (cur b) (base b)) n
    /\ wf (advance (length out) b) /\ (k = length out \/ k = 0)
    /\ (k ≠ 0 -> cur b + length out < sz b).
Proof.
  intros Hw. unfold read_until. unfold wf in Hw.
  rewrite bool_decide_eq_false_2 by lia. do 2 eexists. split; [done|].
  destruct (length_read_until_loop delim (drop (cur b) (base b)) n) as [Hl _].
  rewrite length_drop in Hl. set (out := read_until_loop _ _ _) in *.
  assert (wf (advance (length out) b)) as Hw' by (unfold wf, sz in *; cbn; lia).
  rewrite (size_left_wf _ Hw'). unfold wf, sz in *. cbn in *.
  split_and!; [done|lia| |]; case_bool_decide; auto; try lia.
Qed.

(** ** What is left to read *)

Definition rem (b : llarp_buffer_t) : list Z := drop (cur b) (base b).

Lemma length_rem b : length (rem b) = sz b - cur b.
Proof. apply length_drop. Qed.

Lemma size_left_rem b : wf b -> size_left b = length (rem b).
Proof. intros. by rewrite size_left_wf, length_rem. Qed.

Lemma rem_advance b n : rem (advance n b) = drop n (rem b).
Proof. unfold rem. cbn. by rewrite drop_drop. Qed.

Lemma rem_app b l r : rem b = l ++ r -> rem (advance (length l) b) = r.
Proof. intros E. by rewrite rem_advance, E, drop_app_length. Qed.

Lemma advance_wf b n : wf b -> n <= length (rem b) -> wf (advance n b).
Proof. rewrite length_rem. unfold wf. cbn. unfold sz. cbn. lia. Qed.

Lemma rem_wf b c l : rem b = c :: l -> wf b.
Proof. intros E. apply (f_equal length) in E. rewrite length_rem in E. unfold wf. cbn in E. lia. Qed.

Lemma deref_rem b c l : rem b = c :: l -> deref b = Done c.
Proof.
  unfold rem, deref. intros E.
  rewrite <- (take_drop (cur b) (base b)), E.
  assert (cur b <= length (base b)) by (eapply (rem_wf b); exact E).
  rewrite lookup_app_r by (rewrite length_take; lia).
  by rewrite length_take, Nat.min_l, Nat.sub_diag by lia.
Qed.

Lemma advance_0 b : advance 0 b = b.
Proof. destruct b. unfold advance, set_cur. cbn. by rewrite Nat.add_0_r. Qed.

Lemma advance_advance b n m : advance n (advance m b) = advance (m + n) b.
Proof. unfold advance, set_cur. cbn. by rewrite Nat.add_assoc. Qed.

Lemma base_advance b n : base (advance n b) = base b.
Proof. done. Qed.

#[export] Hint Resolve advance_wf rem_wf : belnet.

(** ** Appending

    [appends b l b'] : [b'] is [b] with the bytes [l] written at the position;
    what lies beyond the new position is not specified. *)
Definition appends (b : llarp_buffer_t) (l : list Z) (b' : llarp_buffer_t) : Prop :=
  sz b' = sz b /\ cur b' = cur b + length l
  /\ take (cur b') (base b') = take (cur b) (base b) ++ l /\ wf b'.

Lemma appends_app b1 l1 b2 l2 b3 :
  appends b1 l1 b2 -> appends b2 l2 b3 -> appends b1 (l1 ++ l2) b3.
Proof.
  intros (? & ? & E1 & ?) (? & ? & E2 & ?). repeat split; [congruence| | |done].
  - rewrite length_app. lia.
  - by rewrite E2, E1, <- app_assoc.
Qed.

Lemma appends_nil b : wf b -> appends b [] b.
Proof. intros. repeat split; cbn; auto with lia. by rewrite app_nil_r. Qed.

Lemma appends_rem b l b' : wf b -> appends b l b' ->
  rem (set_cur b' (cur b)) = l ++ rem b'.
Proof.
  unfold wf. intros Hw (Hs & Hc & E & _). unfold rem, sz in *. cbn.
  rewrite <- (take_drop (cur b') (base b')) at 1.
  rewrite E, <- app_assoc, drop_app_length' by (rewrite length_take; lia). done.
Qed.

Lemma appends_advance b l b' : appends b l b' -> advance (length l) (set_cur b' (cur b)) = b'.
Proof. intros (_ & Hc & _). destruct b'. unfold advance, set_cur. cbn in *. by rewrite Hc. Qed.

Lemma appends_size_left b l b' : wf b -> appends b l b' -> size_left b' = size_left b - length l.
Proof. intros Hw (Hs & Hc & _ & Hw'). rewrite !size_left_wf by done. lia. Qed.

Lemma appends_write_frame b l b' : wf b -> appends b l b' -> write_frame b b'.
Proof.
  unfold wf. intros Hw (Hs & Hc & E & Hw'). repeat split; [done| |lia|done].
  apply (f_equal (take (cur b))) in E. rewrite take_take, Nat.min_l in E by lia.
  rewrite E, take_app_length'; [done|]. rewrite length_take. unfold sz in *. lia.
Qed.

Lemma store_appends b bs n : wf b -> cur b + length bs <= sz b -> n <= length bs ->
  appends b (take n bs) (Buf (store (base b) (cur b) bs) (cur b + n)).
Proof.
  unfold wf. intros Hw Hl Hn. unfold appends, wf, sz in *. cbn.
  rewrite length_store, length_take by lia. repeat split; [lia| |lia].
  unfold store.
  rewrite take_app_ge by (rewrite length_take; lia).
  rewrite length_take, Nat.min_l by lia. f_equal.
  rewrite take_app_le by lia. f_equal. lia.
Qed.

Lemma write_appends b l : wf b -> length l <= size_left b ->
  exists b', write b l = (true, b') /\ appends b l b'.
Proof.
  intros Hw Hl. rewrite write_ok by done. eexists. split; [done|].
  rewrite size_left_wf in Hl by done.
  pose proof (store_appends b l (length l) Hw) as Ha. rewrite take_ge in Ha by lia.
  apply Ha; unfold wf in *; lia.
Qed.

Lemma writef_appends b l : wf b -> 0 < length l < size_left b ->
  exists b', writef b l = (true, b') /\ appends b l b'.
Proof.
  intros Hw Hl. rewrite writef_ok by done. eexists. split; [done|].
  rewrite size_left_wf in Hl by done.
  pose proof (store_appends b (l ++ [0%Z]) (length l) Hw) as Ha.
  rewrite take_app_length in Ha. rewrite length_app in Ha. cbn [length] in Ha.
  apply Ha; unfold wf in *; lia.
Qed.

#[export] Hint Resolve appends_app appends_nil appends_write_frame : belnet.

(** ** Properties *)

(** The byte order oxenc documents, as a concrete instance. *)
#[local] Instance be_oxenc : Oxenc := {|
  write_host_as_big := be_bytes;
  load_big_to_host _ l := be_value l |}.

#[local] Instance be_oxenc_spec : OxencSpec.
Proof. by split. Qed.

(** Every integer that fits its [sizeof] bytes survives [put] followed by
    [read] at the same position: [put] succeeds when there is room, and [read]
    returns the integer and the position after it. *)
Theorem put_read_roundtrip `{OxencSpec} n b i :
  wf b -> n <= size_left b -> (0 <= i < 256 ^ Z.of_nat n)%Z ->
  exists b', put n b i = (true, b') /\ appends b (be_bytes n i) b'
    /\ read n (set_cur b' (cur b)) = (Some i, b').
Proof.
  intros Hw Hn Hi. rewrite size_left_wf in Hn by done. unfold put.
  rewrite bool_decide_eq_false_2 by (rewrite size_left_wf by done; lia).
  rewrite write_host_as_big_spec. set (b' := Buf _ _).
  assert (appends b (be_bytes n i) b') as Ha.
  { pose proof (store_appends b (be_bytes n i) n Hw) as Ha.
    rewrite take_ge, length_be_bytes in Ha by (rewrite length_be_bytes; lia).
    apply Ha; unfold wf in Hw; lia. }
  exists b'. split_and!; [done..|]. pose proof (appends_rem _ _ _ Hw Ha) as Hr.
  pose proof (appends_advance _ _ _ Ha) as Hadv. rewrite length_be_bytes in Hadv.
  unfold read. rewrite Hadv, size_left_rem.
  2: { unfold wf, sz in *. cbn. destruct Ha as (Hs & _). unfold sz in Hs. cbn in Hs. lia. }
  rewrite Hr, length_app, length_be_bytes, bool_decide_eq_false_2 by lia.
  unfold rem in Hr. rewrite Hr, take_app_length' by (by rewrite length_be_bytes).
  by rewrite load_big_to_host_spec, be_value_be_bytes by (try done; apply length_be_bytes).
Qed.

Lemma put_read_roundtrip_witness :
  exists b', put 2 (Buf [0;0;0]%Z 1) 513 = (true, b')
    /\ appends (Buf [0;0;0]%Z 1) (be_bytes 2 513) b'
    /\ read 2 (set_cur b' 1) = (Some 513%Z, b').
Proof.
  apply (put_read_roundtrip 2 (Buf [0;0;0]%Z 1) 513).
  - unfold wf. cbn. lia.
  - vm_compute. lia.
  - cbn. lia.
Defined.

(** No writing operation leaves the buffer: on a well-formed buffer,
    [write], [writef] and [put] (successful or not) keep the size of the
    region, leave every byte before the old position alone, and end with a
    position between the old one and the end. *)
Theorem writes_stay_in_bounds `{OxencSpec} b : wf b ->
  (forall src, write_frame b (write b src).2)
  /\ (forall text, write_frame b (writef b text).2)
  /\ (forall n i, write_frame b (put n b i).2).
Proof.
  intros Hw. split_and!; intros.
  - destruct (write b src) eqn:E. eauto with belnet.
  - destruct (writef b text) eqn:E. eauto with belnet.
  - destruct (put n b i) eqn:E. eauto with belnet.
Qed.

Lemma writes_stay_in_bounds_witness :
  (forall src, write_frame (Buf [1;2;3]%Z 1) (write (Buf [1;2;3]%Z 1) src).2)
  /\ (forall text, write_frame (Buf [1;2;3]%Z 1) (writef (Buf [1;2;3]%Z 1) text).2)
  /\ (forall n i, write_frame (Buf [1;2;3]%Z 1) (put n (Buf [1;2;3]%Z 1) i).2).
Proof. apply (writes_stay_in_bounds (Buf [1;2;3]%Z 1)). unfold wf. cbn. lia. Defined.

(** A text that fills the rest of the buffer exactly is reported as
    written although its last character is not stored: the terminator of
    [vsnprintf] takes its place. *)
Theorem writef_exact_fit b text : wf b -> text ≠ [] -> length text = size_left b ->
  exists b', writef b text = (true, b')
    /\ appends b (take (length text - 1) text ++ [0%Z]) b'.
Proof.
  intros Hw Hne Hl. destruct text as [|c text]; [done|]. clear Hne. unfold writef.
  rewrite <- Hl. cbn [vsnprintf length] in *. rewrite !bool_decide_eq_false_2 by lia.
  eexists. split; [done|].
  replace (S (length text) - 1) with (length text) by lia. set (bs := take _ _ ++ [0%Z]).
  assert (length bs = S (length text)) as Hb
    by (unfold bs; rewrite length_app, length_take; cbn; lia).
  pose proof (store_appends b bs (S (length text)) Hw) as Ha.
  rewrite take_ge in Ha by lia. rewrite size_left_wf in Hl by done.
  apply Ha; unfold wf in Hw; lia.
Qed.

Lemma writef_exact_fit_witness :
  exists b', writef (Buf [7;7]%Z 0) [48;58]%Z = (true, b')
    /\ appends (Buf [7;7]%Z 0) [48;0]%Z b'.
Proof.
  apply (writef_exact_fit (Buf [7;7]%Z 0) [48;58]%Z).
  - unfold wf. cbn. lia.
  - discriminate.
  - reflexivity.
Defined.
