(* ===== verification/Bencode.v ===== *)
(** * Bencode reader and writer ([llarp/util/bencode.cpp], [llarp/util/bencode.hpp]) *)

From S2P Require Import Prelude Buffer.

(** ** C library number conversions *)

Definition ch_d : Z := 100.
Definition ch_e : Z := 101.
Definition ch_i : Z := 105.
Definition ch_l : Z := 108.
Definition ch_colon : Z := 58.

Definition isdigit (c : Z) : bool := ((48 <=? c) && (c <=? 57))%Z.
Definition isspace (c : Z) : bool := ((c =? 32) || ((9 <=? c) && (c <=? 13)))%Z.

Fixpoint skip_spaces (s : list Z) : list Z :=
  match s with
  | c :: s' => if isspace c then skip_spaces s' else s
  | [] => []
  end.

Fixpoint take_digits (s : list Z) : list Z :=
  match s with
  | c :: s' => if isdigit c then c :: take_digits s' else []
  | [] => []
  end.

Definition digits_value (ds : list Z) : Z :=
  fold_left (fun acc c => acc * 10 + (c - 48))%Z ds 0%Z.

(** The subject sequence of [strtol]/[strtoull] in base 10: an optional sign
    and the digits that follow it. *)
Definition strto_subject (s : list Z) : bool * list Z :=
  match skip_spaces s with
  | c :: s' =>
      if (c =? 45)%Z then (true, take_digits s')
      else if (c =? 43)%Z then (false, take_digits s')
      else (false, take_digits (c :: s'))
  | [] => (false, [])
  end.

Definition strtoull (s : list Z) : Z :=
  let '(neg, ds) := strto_subject s in
  let v := digits_value ds in
  if (2 ^ 64 <=? v)%Z then (2 ^ 64 - 1)%Z
  else if neg then wrap 64 (- v) else v.

(** [atoi] on the at most nine characters [bencode_read_string] gives it,
    where the value always fits an [int] ([atoi_range]). *)
Definition atoi (s : list Z) : Z :=
  let '(neg, ds) := strto_subject s in
  if neg then (- digits_value ds)%Z else digits_value ds.

(** ["%zu"] and [PRIu64]. *)
Fixpoint dec_rev (fuel : nat) (v : Z) : list Z :=
  match fuel with
  | 0 => []
  | S f => (48 + v mod 10)%Z :: (if (v / 10 =? 0)%Z then [] else dec_rev f (v / 10))
  end.
Definition dec (v : Z) : list Z := rev (dec_rev 20 v).
Arguments dec v : simpl never.

(** ** Reading *)

Definition bencode_read_integer (b : llarp_buffer_t) : outcome (option Z * llarp_buffer_t) :=
  let! c := deref b in
  if negb (c =? ch_i)%Z then Done (None, b)
  else
    let b := advance 1 b in
    let! (numbuf, len, b) := read_until ch_e 31 b in
    if bool_decide (len = 0) then Done (None, b)
    else
      let b := advance 1 b in
      Done (Some (strtoull numbuf), b).

Definition bencode_read_string (b : llarp_buffer_t)
  : outcome (option llarp_buffer_t * llarp_buffer_t) :=
  let! (numbuf, len, b) := read_until ch_colon 9 b in
  if bool_decide (len = 0) then Done (None, b)
  else
    let num := atoi numbuf in
    if (num <? 0)%Z then Done (None, b)
    else
      let slen := Z.to_nat num in
      let b := advance 1 b in
      if bool_decide (size_left b < slen) then Done (None, b)
      else Done (Some (Buf (take slen (drop (cur b) (base b))) 0), advance slen b).

(** The sink of [bencode_read_dict] gets the buffer and the key, [None] for
    the null pointer that marks the end; it may change its captured state. *)
Definition dict_sink (S : Type) : Type :=
  S -> llarp_buffer_t -> option llarp_buffer_t -> outcome (bool * llarp_buffer_t * S).

(** [true] when the loop condition fails, [false] for a [return false]. *)
Fixpoint read_dict_loop {S} (fuel : nat) (sink : dict_sink S) (s : S) (b : llarp_buffer_t)
  : outcome (bool * llarp_buffer_t * S) :=
  match fuel with
  | 0 => Timeout
  | Datatypes.S f =>
      if bool_decide (size_left b = 0) then Done (true, b, s)
      else
        let! c := deref b in
        if (c =? ch_e)%Z then Done (true, b, s)
        else
          let! (str, b) := bencode_read_string b in
          match str with
          | None => Done (false, b, s)
          | Some strbuf =>
              let! (ok, b, s) := sink s b (Some strbuf) in
              if negb ok then Done (false, b, s) else read_dict_loop f sink s b
          end
  end.

Definition bencode_read_dict {S} (fuel : nat) (sink : dict_sink S) (s : S) (b : llarp_buffer_t)
  : outcome (bool * llarp_buffer_t * S) :=
  if bool_decide (size_left b < 2) then Done (false, b, s)
  else
    let! c := deref b in
    if negb (c =? ch_d)%Z then Done (false, b, s)
    else
      let! (go, b, s) := read_dict_loop fuel sink s (advance 1 b) in
      if negb go then Done (false, b, s)
      else
        let! c := deref b in
        if negb (c =? ch_e)%Z then Done (false, b, s)
        else sink s (advance 1 b) None.

(** The sink of [bencode_read_list] gets [true] for an element, [false] at the end. *)
Definition list_sink (S : Type) : Type :=
  S -> llarp_buffer_t -> bool -> outcome (bool * llarp_buffer_t * S).

Fixpoint read_list_loop {S} (fuel : nat) (sink : list_sink S) (s : S) (b : llarp_buffer_t)
  : outcome (bool * llarp_buffer_t * S) :=
  match fuel with
  | 0 => Timeout
  | Datatypes.S f =>
      if bool_decide (size_left b = 0) then Done (true, b, s)
      else
        let! c := deref b in
        if (c =? ch_e)%Z then Done (true, b, s)
        else
          let! (ok, b, s) := sink s b true in
          if negb ok then Done (false, b, s) else read_list_loop f sink s b
  end.

Definition bencode_read_list {S} (fuel : nat) (sink : list_sink S) (s : S) (b : llarp_buffer_t)
  : outcome (bool * llarp_buffer_t * S) :=
  if bool_decide (size_left b < 2) then Done (false, b, s)
  else
    let! c := deref b in
    if negb (c =? ch_l)%Z then Done (false, b, s)
    else
      let! (go, b, s) := read_list_loop fuel sink s (advance 1 b) in
      if negb go then Done (false, b, s)
      else
        let! c := deref b in
        if negb (c =? ch_e)%Z then Done (false, b, s)
        else sink s (advance 1 b) false.

(** The lambdas of [bencode_discard]. *)
Definition discard_list_sink (discard : llarp_buffer_t -> outcome (bool * llarp_buffer_t))
  : list_sink unit := fun s b more =>
  if more then let! (ok, b) := discard b in Done (ok, b, s) else Done (true, b, s).

Definition discard_dict_sink (discard : llarp_buffer_t -> outcome (bool * llarp_buffer_t))
  : dict_sink unit := fun s b key =>
  match key with
  | Some _ => let! (ok, b) := discard b in Done (ok, b, s)
  | None => Done (true, b, s)
  end.

Fixpoint bencode_discard (fuel : nat) (b : llarp_buffer_t) : outcome (bool * llarp_buffer_t) :=
  match fuel with
  | 0 => Timeout
  | S f =>
      if bool_decide (size_left b = 0) then Done (true, b)
      else
        let! c := deref b in
        if (c =? ch_l)%Z then
          let! (ok, b, _) := bencode_read_list f (discard_list_sink (bencode_discard f)) tt b in
          Done (ok, b)
        else if (c =? ch_i)%Z then
          let! (r, b) := bencode_read_integer b in
          Done (bool_decide (is_Some r), b)
        else if (c =? ch_d)%Z then
          let! (ok, b, _) := bencode_read_dict f (discard_dict_sink (bencode_discard f)) tt b in
          Done (ok, b)
        else if isdigit c then
          let! (r, b) := bencode_read_string b in
          Done (bool_decide (is_Some r), b)
        else Done (false, b)
  end.

(** ** Writing *)

(** [a && b] on operations that write to the buffer. *)
Definition and_then (r : bool * llarp_buffer_t)
    (k : llarp_buffer_t -> bool * llarp_buffer_t) : bool * llarp_buffer_t :=
  let '(ok, b) := r in if ok then k b else (false, b).

Definition bencode_write_bytestring (b : llarp_buffer_t) (data : list Z) : bool * llarp_buffer_t :=
  and_then (writef b (dec (Z.of_nat (length data)) ++ [ch_colon])) (fun b => write b data).

Definition bencode_write_uint64 (b : llarp_buffer_t) (i : Z) : bool * llarp_buffer_t :=
  and_then (writef b (ch_i :: dec i)) (fun b => write b [ch_e]).

Definition bencode_write_uint64_entry (b : llarp_buffer_t) (name : list Z) (i : Z)
  : bool * llarp_buffer_t :=
  and_then (bencode_write_bytestring b name) (fun b => bencode_write_uint64 b i).

Definition bencode_start_list (b : llarp_buffer_t) := write b [ch_l].
Definition bencode_start_dict (b : llarp_buffer_t) := write b [ch_d].
Definition bencode_end (b : llarp_buffer_t) := write b [ch_e].

(** ** Typed entries

    [BEncode] and [BDecode] are the methods of the item type. *)

Class BItem (T : Type) := {
  BEncode : T -> llarp_buffer_t -> bool * llarp_buffer_t;
  BDecode : llarp_buffer_t -> outcome (option T * llarp_buffer_t) }.

Definition BEncodeWriteDictMsgType (b : llarp_buffer_t) (k t : list Z) : bool * llarp_buffer_t :=
  and_then (bencode_write_bytestring b (take 1 k))
    (fun b => bencode_write_bytestring b (take 1 t)).

Definition BEncodeWriteDictString (k : list Z) (str : list Z) (b : llarp_buffer_t)
  : bool * llarp_buffer_t :=
  and_then (bencode_write_bytestring b (take 1 k)) (fun b => bencode_write_bytestring b str).

Definition BEncodeWriteDictInt (k : list Z) (i : Z) (b : llarp_buffer_t)
  : bool * llarp_buffer_t :=
  and_then (bencode_write_bytestring b (take 1 k)) (fun b => bencode_write_uint64 b i).

(** [static_cast<Int_t>] to a [w]-bit unsigned type; the result is the return
    value, the new [i], the new [read] flag and the buffer. *)
Definition BEncodeMaybeReadDictInt (w : Z) (k : list Z) (i : Z) (read : bool)
    (key b : llarp_buffer_t) : outcome (bool * Z * bool * llarp_buffer_t) :=
  if startswith key k then
    let! (r, b) := bencode_read_integer b in
    match r with
    | None => Done (false, i, read, b)
    | Some read_i => Done (true, wrap w read_i, true, b)
    end
  else Done (true, i, read, b).

Definition BEncodeMaybeVerifyVersion (k : list Z) (item expect : Z) (read : bool)
    (key b : llarp_buffer_t) : outcome (bool * Z * bool * llarp_buffer_t) :=
  if startswith key k then
    let! (r, b) := bencode_read_integer b in
    match r with
    | None => Done (false, item, read, b)
    | Some v => Done (true, v, (v =? expect)%Z, b)
    end
  else Done (true, item, read, b).

Section Items.
Context {T : Type} `{BItem T}.

Definition BEncodeWriteDictEntry (k : list Z) (o : T) (b : llarp_buffer_t)
  : bool * llarp_buffer_t :=
  and_then (bencode_write_bytestring b (take 1 k)) (BEncode o).

Definition BEncodeMaybeReadDictEntry (k : list Z) (item : T) (read : bool)
    (key b : llarp_buffer_t) : outcome (bool * T * bool * llarp_buffer_t) :=
  if startswith key k then
    let! (r, b) := BDecode b in
    match r with
    | None => Done (false, item, read, b)
    | Some item => Done (true, item, true, b)
    end
  else Done (true, item, read, b).

Fixpoint write_items (l : list T) (b : llarp_buffer_t) : bool * llarp_buffer_t :=
  match l with
  | [] => (true, b)
  | item :: l => and_then (BEncode item b) (write_items l)
  end.

Definition BEncodeWriteList (l : list T) (b : llarp_buffer_t) : bool * llarp_buffer_t :=
  and_then (bencode_start_list b) (fun b => and_then (write_items l b) bencode_end).

(** [BEncodeWriteDictArray], [BEncodeWriteDictBEncodeList] *)
Definition BEncodeWriteDictArray (k : list Z) (array : list T) (b : llarp_buffer_t)
  : bool * llarp_buffer_t :=
  and_then (bencode_write_bytestring b (take 1 k)) (fun b =>
  and_then (bencode_start_list b) (fun b => and_then (write_items array b) bencode_end)).

Definition BEncodeWriteDictList (k : list Z) (l : list T) (b : llarp_buffer_t)
  : bool * llarp_buffer_t :=
  and_then (bencode_write_bytestring b (take 1 k)) (BEncodeWriteList l).

Definition BEncodeWriteSet (set : list T) (b : llarp_buffer_t) : bool * llarp_buffer_t :=
  and_then (bencode_start_list b) (fun b => and_then (write_items set b) bencode_end).

Definition BEncodeReadArray (fuel : nat) (array : list T) (b : llarp_buffer_t)
  : outcome (bool * llarp_buffer_t * (list T * nat)) :=
  bencode_read_list fuel
    (fun '(array, idx) b has =>
       if negb has then Done (true, b, (array, idx))
       else if bool_decide (length array <= idx) then Done (false, b, (array, idx))
       else
         let! (r, b) := BDecode b in
         match r with
         | None => Done (false, b, (array, S idx))
         | Some item => Done (true, b, (<[idx := item]> array, S idx))
         end) (array, 0) b.

Definition BEncodeReadList (fuel : nat) (result : list T) (b : llarp_buffer_t)
  : outcome (bool * llarp_buffer_t * list T) :=
  bencode_read_list fuel
    (fun result b has =>
       if negb has then Done (true, b, result)
       else
         let! (r, b) := BDecode b in
         match r with
         | None => Done (false, b, result)
         | Some item => Done (true, b, result ++ [item])
         end) result b.

(** A [std::set] with comparison [lt], as the list of its elements in order;
    [emplace] reports whether the element was new. *)
Fixpoint set_emplace (lt : T -> T -> bool) (x : T) (s : list T) : bool * list T :=
  match s with
  | [] => (true, [x])
  | y :: t =>
      if lt x y then (true, x :: s)
      else if lt y x then let '(fresh, t) := set_emplace lt x t in (fresh, y :: t)
      else (false, s)
  end.

Definition read_set_sink (lt : T -> T -> bool) : list_sink (list T) := fun set b more =>
  if more then
    let! (r, b) := BDecode b in
    match r with
    | None => Done (false, b, set)
    | Some item => let '(fresh, set) := set_emplace lt item set in Done (fresh, b, set)
    end
  else Done (true, b, set).

Definition BEncodeReadSet (lt : T -> T -> bool) (fuel : nat) (set : list T) (b : llarp_buffer_t)
  : outcome (bool * llarp_buffer_t * list T) :=
  bencode_read_list fuel (read_set_sink lt) set b.
End Items.

Definition BEncodeMaybeReadDictList {T} `{BItem T} (fuel : nat) (k : list Z) (item : list T)
    (read : bool) (key b : llarp_buffer_t) : outcome (bool * list T * bool * llarp_buffer_t) :=
  if startswith key k then
    let! (ok, b, item) := BEncodeReadList fuel item b in
    if negb ok then Done (false, item, read, b) else Done (true, item, true, b)
  else Done (true, item, read, b).

(** A sink with a [DecodeKey] method, which reports whether the key was consumed. *)
Definition bencode_decode_dict {S} (fuel : nat)
    (DecodeKey : S -> llarp_buffer_t -> llarp_buffer_t -> outcome (bool * llarp_buffer_t * S))
    (s : S) (b : llarp_buffer_t) : outcome (bool * llarp_buffer_t * S) :=
  bencode_read_dict fuel
    (fun s b key =>
       match key with
       | None => Done (true, b, s)
       | Some key => DecodeKey s key b
       end) s b.

Definition BEncodeSeekDictVersion (fuel : nat) (v : Z) (b : llarp_buffer_t) (k : Z)
  : outcome (bool * llarp_buffer_t * Z) :=
  let! (ret, b, v) := bencode_read_dict fuel
    (fun v b key =>
       match key with
       | None => Done (true, b, v)
       | Some key =>
           if bool_decide (sz key = 1 /\ base key = [k]) then
             let! (r, b) := bencode_read_integer b in
             match r with
             | Some v => Done (true, b, v)
             | None => Done (false, b, v)
             end
           else let! (ok, b) := bencode_discard fuel b in Done (ok, b, v)
       end) v b in
  Done (ret, set_cur b 0, v).

(** ** Decimal numbers *)

Lemma digits_value_snoc ds c :
  digits_value (ds ++ [c]) = (digits_value ds * 10 + (c - 48))%Z.
Proof. unfold digits_value. by rewrite fold_left_app. Qed.

Lemma dec_rev_value fuel v : (0 <= v < 10 ^ Z.of_nat fuel)%Z ->
  digits_value (rev (dec_rev fuel v)) = v.
Proof.
  revert v. induction fuel as [|f IH]; intros v Hv; [cbn in *; lia|].
  cbn [dec_rev rev]. rewrite digits_value_snoc.
  rewrite Nat2Z.inj_succ, Z.pow_succ_r in Hv by lia.
  pose proof (Z.div_mod v 10 ltac:(lia)).
  destruct (Z.eqb_spec (v / 10) 0) as [E|E]; [cbn; lia|].
  rewrite IH; [lia|]. split; [apply Z.div_pos; lia|apply Z.div_lt_upper_bound; lia].
Qed.

Lemma dec_rev_digits fuel v : Forall (fun c => isdigit c = true) (dec_rev fuel v).
Proof.
  revert v. induction fuel as [|f IH]; intros v; cbn; constructor.
  - pose proof (Z.mod_pos_bound v 10 ltac:(lia)). unfold isdigit. lia.
  - by case_match.
Qed.

Lemma length_dec_rev fuel v k : (0 <= v < 10 ^ Z.of_nat (S k))%Z -> length (dec_rev fuel v) <= S k.
Proof.
  revert v k. induction fuel as [|f IH]; intros v k Hv; [cbn; lia|].
  cbn [dec_rev length]. destruct (Z.eqb_spec (v / 10) 0) as [E|E]; [cbn; lia|].
  destruct k as [|k].
  - rewrite Z.div_small in E by (cbn in Hv; lia). done.
  - apply le_n_S, IH. rewrite (Nat2Z.inj_succ (S k)), Z.pow_succ_r in Hv by lia.
    split; [apply Z.div_pos; lia|apply Z.div_lt_upper_bound; lia].
Qed.

Lemma dec_digits v : Forall (fun c => isdigit c = true) (dec v).
Proof. apply Forall_rev, dec_rev_digits. Qed.

Lemma dec_value v : (0 <= v < 10 ^ 20)%Z -> digits_value (dec v) = v.
Proof. intros. by apply dec_rev_value. Qed.

Lemma length_dec v k : (0 <= v < 10 ^ Z.of_nat (S k))%Z -> 0 < length (dec v) <= S k.
Proof.
  intros Hv. unfold dec. rewrite length_rev. split; [cbn; lia|]. by apply length_dec_rev.
Qed.

Lemma digit_not_elem c ds :
  Forall (fun c => isdigit c = true) ds -> isdigit c = false -> c ∉ ds.
Proof. rewrite Forall_forall. intros H1 H2 Hin. specialize (H1 _ Hin). congruence. Qed.

Lemma take_digits_all ds : Forall (fun c => isdigit c = true) ds -> take_digits ds = ds.
Proof. induction 1 as [|c ds Hc _ IH]; cbn; [done|]. by rewrite Hc, IH. Qed.

Lemma strto_subject_dec v : strto_subject (dec v) = (false, dec v).
Proof.
  pose proof (dec_digits v) as Hd. destruct (dec v) as [|c ds]; [done|].
  pose proof (Forall_inv Hd) as Hc. cbn beta in Hc.
  unfold strto_subject. cbn [skip_spaces].
  assert (isspace c = false) as -> by (unfold isdigit, isspace in *; lia).
  rewrite !(proj2 (Z.eqb_neq c _)) by (unfold isdigit in Hc; lia).
  by rewrite take_digits_all.
Qed.

Lemma strtoull_dec v : in_width 64 v -> strtoull (dec v) = v.
Proof.
  intros Hv. unfold strtoull. rewrite strto_subject_dec, dec_value by (unfold in_width in *; lia).
  rewrite (proj2 (Z.leb_gt _ _)) by apply Hv. done.
Qed.

Lemma atoi_dec v : (0 <= v < 10 ^ 20)%Z -> atoi (dec v) = v.
Proof. intros Hv. unfold atoi. by rewrite strto_subject_dec, dec_value. Qed.

Lemma digits_value_range ds : Forall (fun c => isdigit c = true) ds ->
  (0 <= digits_value ds < 10 ^ Z.of_nat (length ds))%Z.
Proof.
  induction ds as [|c ds IH] using rev_ind; intros Hd; [done|].
  apply Forall_app in Hd as [Hd Hc]. apply Forall_inv in Hc. specialize (IH Hd).
  rewrite digits_value_snoc, length_app. cbn [length].
  rewrite Nat.add_1_r, Nat2Z.inj_succ, Z.pow_succ_r by lia. unfold isdigit in Hc. lia.
Qed.

Lemma take_digits_spec s :
  Forall (fun c => isdigit c = true) (take_digits s) /\ length (take_digits s) <= length s.
Proof.
  induction s as [|c s [IH1 IH2]]; cbn; [split; [constructor|lia]|].
  case_match; cbn; split; try lia; by constructor.
Qed.

Lemma length_skip_spaces s : length (skip_spaces s) <= length s.
Proof. induction s; cbn; [lia|]. case_match; cbn; lia. Qed.

Lemma strto_subject_range s neg ds : strto_subject s = (neg, ds) ->
  (0 <= digits_value ds < 10 ^ Z.of_nat (length s))%Z.
Proof.
  unfold strto_subject. pose proof (length_skip_spaces s) as Hs.
  destruct (skip_spaces s) as [|c s']; [intros [= <- <-]; cbn in *; split; [done|]; apply Z.pow_pos_nonneg; lia|].
  intros E. assert (exists l, ds = take_digits l /\ length l <= length s) as (l & -> & Hl).
  { cbn in Hs. repeat case_match; simplify_eq; eexists; split; try done; cbn; lia. }
  destruct (take_digits_spec l) as [Hd Hll]. pose proof (digits_value_range _ Hd).
  pose proof (Z.pow_le_mono_r 10 (Z.of_nat (length (take_digits l))) (Z.of_nat (length s))). lia.
Qed.

(** The conversion in [bencode_read_string] never leaves the range of [int]. *)
Lemma atoi_range s : length s <= 9 -> (- 2 ^ 31 <= atoi s < 2 ^ 31)%Z.
Proof.
  intros Hl. unfold atoi. destruct (strto_subject s) as [neg ds] eqn:E.
  apply strto_subject_range in E.
  pose proof (Z.pow_le_mono_r 10 (Z.of_nat (length s)) 9). case_match; lia.
Qed.

(** ** What the readers and writers do on well-formed text *)

Definition enc_int (v : Z) : list Z := ch_i :: dec v ++ [ch_e].
Definition enc_str (s : list Z) : list Z := dec (Z.of_nat (length s)) ++ ch_colon :: s.

Lemma read_until_at delim n b pre c rest :
  rem b = pre ++ c :: rest -> delim ∉ pre -> length pre <= n -> c = delim \/ length pre = n ->
  read_until delim n b = Done (pre, length pre, advance (length pre) b).
Proof.
  intros E Hd Hn Hc. unfold read_until.
  pose proof (f_equal length E) as Hl. rewrite length_rem, length_app in Hl. cbn in Hl.
  rewrite bool_decide_eq_false_2 by lia.
  unfold rem in E. rewrite E, (read_until_loop_stop delim pre c rest n) by done.
  assert (wf (advance (length pre) b)) as Hw by (unfold wf; unfold sz in *; cbn; lia).
  rewrite size_left_wf, bool_decide_eq_false_2 by (try done; unfold sz in *; cbn; lia). done.
Qed.

Lemma bencode_read_integer_spec b v rest :
  rem b = enc_int v ++ rest -> in_width 64 v ->
  bencode_read_integer b = Done (Some v, advance (length (enc_int v)) b).
Proof.
  intros E Hv. unfold bencode_read_integer.
  assert (rem b = ch_i :: (dec v ++ ch_e :: rest)) as E0.
  { rewrite E. unfold enc_int. by rewrite <- app_comm_cons, <- app_assoc. }
  rewrite (deref_rem _ _ _ E0). cbn [obind]. rewrite Z.eqb_refl. cbn [negb].
  pose proof (length_dec v 19) as Hl. unfold in_width in Hv.
  assert (0 < length (dec v) <= 20) by (apply Hl; lia).
  rewrite (read_until_at ch_e 31 (advance 1 b) (dec v) ch_e rest).
  - cbn [obind]. rewrite bool_decide_eq_false_2 by lia.
    rewrite strtoull_dec, !advance_advance by done. do 3 f_equal.
    unfold enc_int. cbn. rewrite length_app. cbn. lia.
  - by rewrite rem_advance, E0.
  - apply digit_not_elem; [apply dec_digits|done].
  - lia.
  - by left.
Qed.

Lemma bencode_read_string_spec b s rest :
  rem b = enc_str s ++ rest -> (Z.of_nat (length s) < 10 ^ 9)%Z ->
  bencode_read_string b = Done (Some (Buf s 0), advance (length (enc_str s)) b).
Proof.
  intros E Hs. unfold bencode_read_string. set (n := Z.of_nat (length s)) in *.
  assert (rem b = dec n ++ ch_colon :: (s ++ rest)) as E0.
  { rewrite E. unfold enc_str. by rewrite <- app_assoc, <- app_comm_cons. }
  pose proof (length_dec n 8) as Hl. assert (0 < length (dec n) <= 9) by (apply Hl; lia).
  rewrite (read_until_at ch_colon 9 b (dec n) ch_colon (s ++ rest) E0).
  2: { apply digit_not_elem; [apply dec_digits|done]. }
  2: lia.
  2: by left.
  cbn [obind]. rewrite bool_decide_eq_false_2, atoi_dec by lia.
  rewrite (proj2 (Z.ltb_ge n 0)), advance_advance by lia.
  set (b1 := advance (length (dec n) + 1) b).
  assert (rem b1 = s ++ rest) as E1.
  { unfold b1. rewrite rem_advance, E0, drop_app_ge by lia.
    by replace (length (dec n) + 1 - length (dec n)) with 1 by lia. }
  assert (wf b1) as Hw.
  { assert (wf b) as Hb. { destruct (dec n) as [|c0 l0]; [cbn in *; lia|]. by eapply (rem_wf b c0). }
    apply advance_wf; [done|]. rewrite E0, length_app. cbn. lia. }
  rewrite (size_left_rem b1 Hw), E1, length_app.
  replace (Z.to_nat n) with (length s) by lia. rewrite bool_decide_eq_false_2 by lia.
  unfold rem in E1. rewrite E1, take_app_length. do 2 f_equal.
  unfold b1, enc_str. rewrite advance_advance, length_app. cbn. f_equal. fold n. lia.
Qed.

Lemma bencode_write_uint64_spec b v :
  wf b -> in_width 64 v -> length (enc_int v) <= size_left b ->
  exists b', bencode_write_uint64 b v = (true, b') /\ appends b (enc_int v) b'.
Proof.
  intros Hw Hv Hl. unfold enc_int in *. unfold bencode_write_uint64.
  rewrite app_comm_cons in *. rewrite length_app in Hl. cbn in Hl.
  destruct (writef_appends b (ch_i :: dec v)) as (b1 & -> & H1); [done|cbn; lia|].
  pose proof (appends_size_left _ _ _ Hw H1) as Hs. cbn in Hs. cbn [and_then].
  destruct (write_appends b1 [ch_e]) as (b2 & -> & H2); [apply H1|cbn; lia|].
  eauto with belnet.
Qed.

(** One byte more than the text is needed for the terminator [writef] stores
    after the length, unless the string itself takes its place. *)
Lemma bencode_write_bytestring_spec b s :
  wf b -> (Z.of_nat (length s) < 10 ^ 20)%Z -> s ≠ [] \/ length (enc_str s) < size_left b ->
  length (enc_str s) <= size_left b ->
  exists b', bencode_write_bytestring b s = (true, b') /\ appends b (enc_str s) b'.
Proof.
  intros Hw Hv Hne Hl. unfold enc_str in *. unfold bencode_write_bytestring.
  set (n := Z.of_nat (length s)) in *.
  replace (dec n ++ ch_colon :: s) with ((dec n ++ [ch_colon]) ++ s) in * by (by rewrite <- app_assoc).
  rewrite !length_app in Hl, Hne. cbn in Hl, Hne.
  destruct (writef_appends b (dec n ++ [ch_colon])) as (b1 & -> & H1); [done| |].
  { rewrite length_app. cbn. destruct s; [|cbn in *; lia]. destruct Hne; [done|cbn in *; lia]. }
  pose proof (appends_size_left _ _ _ Hw H1) as Hs. rewrite length_app in Hs. cbn in Hs.
  cbn [and_then].
  destruct (write_appends b1 s) as (b2 & -> & H2); [apply H1|lia|]. eauto with belnet.
Qed.

(** ** Lists and dictionaries of items with a known encoding *)

Lemma enc_int_head v : exists t, enc_int v = ch_i :: t.
Proof. eexists. reflexivity. Qed.

Lemma enc_str_head s : exists c t, enc_str s = c :: t /\ isdigit c = true.
Proof.
  unfold enc_str. set (n := Z.of_nat (length s)). pose proof (dec_digits n) as Hd.
  destruct (dec n) as [|c ds] eqn:E; [by destruct (dec_rev 19 n); unfold dec in E; cbn in E; destruct (rev _)|].
  apply Forall_inv in Hd. eexists _, _. split; [reflexivity|done].
Qed.

Section Loops.
Context {S X : Type} (enc : X -> list Z) (step : S -> X -> S).

Lemma flat_map_cons (x : X) l : flat_map enc (x :: l) = enc x ++ flat_map enc l.
Proof. reflexivity. Qed.

(** [sink] consumes the encoding of [x] and updates its state by [step]. *)
Definition list_sink_reads (sink : list_sink S) (x : X) : Prop :=
  (exists c t, enc x = c :: t /\ c ≠ ch_e)
  /\ forall s b rest, rem b = enc x ++ rest ->
       sink s b true = Done (true, advance (length (enc x)) b, step s x).

Lemma read_list_loop_spec (sink : list_sink S) l : forall fuel s b rest,
  Forall (list_sink_reads sink) l ->
  rem b = flat_map enc l ++ rest -> length l < fuel -> wf b ->
  (rest = [] \/ exists t, rest = ch_e :: t) ->
  read_list_loop fuel sink s b
  = Done (true, advance (length (flat_map enc l)) b, fold_left step l s).
Proof.
  induction l as [|x l IH]; intros fuel s b rest Hl E Hf Hw Hr.
  - destruct fuel; [cbn in *; lia|]. cbn in *. rewrite size_left_rem by done.
    rewrite E, advance_0. case_bool_decide; [done|].
    destruct Hr as [->|[t ->]]; [done|]. by rewrite (deref_rem _ _ _ E).
  - apply Forall_cons in Hl as [[(c & t & Ex & Hc) Hx] Hl].
    destruct fuel; [cbn in *; lia|]. rewrite flat_map_cons in *. rewrite <- app_assoc in E.
    pose proof E as E0. rewrite Ex in E0. cbn in E0.
    cbn [read_list_loop]. rewrite size_left_rem by done.
    rewrite bool_decide_eq_false_2 by (rewrite E0; done).
    rewrite (deref_rem _ _ _ E0). cbn [obind]. rewrite (proj2 (Z.eqb_neq c ch_e)) by done.
    rewrite (Hx _ _ _ E). cbn [obind negb fold_left].
    rewrite (IH fuel _ _ rest Hl); [| |cbn in *; lia| |done].
    + by rewrite advance_advance, length_app.
    + by apply rem_app.
    + apply advance_wf; [done|]. rewrite E, length_app. lia.
Qed.

Lemma read_list_spec (sink : list_sink S) l fuel s b rest :
  Forall (list_sink_reads sink) l ->
  rem b = ch_l :: flat_map enc l ++ ch_e :: rest -> length l < fuel ->
  bencode_read_list fuel sink s b
  = sink (fold_left step l s) (advance (length (flat_map enc l) + 2) b) false.
Proof.
  intros Hl E Hf. pose proof (rem_wf _ _ _ E) as Hw. unfold bencode_read_list.
  rewrite size_left_rem by done. rewrite E.
  rewrite bool_decide_eq_false_2 by (cbn; rewrite length_app; cbn; lia).
  rewrite (deref_rem _ _ _ E). cbn [obind]. rewrite Z.eqb_refl. cbn [negb].
  assert (rem (advance 1 b) = flat_map enc l ++ ch_e :: rest) as E1 by (by rewrite rem_advance, E).
  assert (wf (advance 1 b)) by (apply advance_wf; [done|rewrite E; cbn; lia]).
  rewrite (read_list_loop_spec sink l fuel s _ (ch_e :: rest)) by eauto.
  cbn [obind negb]. apply rem_app in E1. rewrite (deref_rem _ _ _ E1).
  cbn [obind]. rewrite Z.eqb_refl. cbn [negb]. rewrite !advance_advance. do 2 f_equal. lia.
Qed.

(** A list text that stops at the end of the buffer without its [e] makes the
    reader look one byte past the end. *)
Lemma read_list_truncated (sink : list_sink S) l fuel s b :
  Forall (list_sink_reads sink) l -> l ≠ [] ->
  rem b = ch_l :: flat_map enc l -> length l < fuel ->
  bencode_read_list fuel sink s b = Fault.
Proof.
  intros Hl Hne E Hf. pose proof (rem_wf _ _ _ E) as Hw. unfold bencode_read_list.
  rewrite size_left_rem by done. rewrite E.
  rewrite bool_decide_eq_false_2.
  2: { destruct l as [|x l]; [done|]. apply Forall_cons in Hl as [[(c & t & Ec & _) _] _].
       cbn. rewrite Ec. cbn. lia. }
  rewrite (deref_rem _ _ _ E). cbn [obind]. rewrite Z.eqb_refl. cbn [negb].
  assert (rem (advance 1 b) = flat_map enc l ++ []) as E1 by (by rewrite rem_advance, E, app_nil_r).
  assert (wf (advance 1 b)) by (apply advance_wf; [done|rewrite E; cbn; lia]).
  rewrite (read_list_loop_spec sink l fuel s _ []) by eauto.
  cbn [obind negb]. apply rem_app in E1. unfold deref.
  apply (f_equal length) in E1. rewrite length_rem in E1. cbn [length] in E1.
  rewrite lookup_ge_None_2 by (unfold sz in E1; lia). done.
Qed.

(** The same for dictionaries, with the key of each item. *)
Context (key : X -> list Z).
Definition enc_entry (x : X) : list Z := enc_str (key x) ++ enc x.

Definition dict_sink_reads (sink : dict_sink S) (x : X) : Prop :=
  (Z.of_nat (length (key x)) < 10 ^ 9)%Z
  /\ forall s b rest, rem b = enc x ++ rest ->
       sink s b (Some (Buf (key x) 0)) = Done (true, advance (length (enc x)) b, step s x).

Lemma read_dict_loop_spec (sink : dict_sink S) l : forall fuel s b rest,
  Forall (dict_sink_reads sink) l ->
  rem b = flat_map enc_entry l ++ rest -> length l < fuel -> wf b ->
  (rest = [] \/ exists t, rest = ch_e :: t) ->
  read_dict_loop fuel sink s b
  = Done (true, advance (length (flat_map enc_entry l)) b, fold_left step l s).
Proof.
  induction l as [|x l IH]; intros fuel s b rest Hl E Hf Hw Hr.
  - destruct fuel; [cbn in *; lia|]. cbn in *. rewrite size_left_rem by done.
    rewrite E, advance_0. case_bool_decide; [done|].
    destruct Hr as [->|[t ->]]; [done|]. by rewrite (deref_rem _ _ _ E).
  - apply Forall_cons in Hl as [[Hk Hx] Hl].
    destruct fuel; [cbn in *; lia|]. cbn [flat_map] in *. unfold enc_entry in E at 1.
    rewrite <- !app_assoc in E. destruct (enc_str_head (key x)) as (c & t & Ex & Hc).
    pose proof E as E0. rewrite Ex in E0. cbn in E0.
    cbn [read_dict_loop]. rewrite size_left_rem by done.
    rewrite bool_decide_eq_false_2 by (rewrite E0; done).
    rewrite (deref_rem _ _ _ E0). cbn [obind].
    rewrite (proj2 (Z.eqb_neq c ch_e)) by (intros ->; done).
    rewrite (bencode_read_string_spec _ _ _ E Hk). cbn [obind].
    pose proof (rem_app _ _ _ E) as E1. rewrite (Hx _ _ _ E1). cbn [obind negb fold_left].
    rewrite (IH fuel _ _ rest Hl); [| |cbn in *; lia| |done].
    + rewrite !advance_advance, (length_app (enc_entry x)).
      assert (length (enc_entry x) = length (enc_str (key x)) + length (enc x)) as ->
        by apply length_app.
      do 4 f_equal. lia.
    + by apply rem_app.
    + apply advance_wf; [apply advance_wf; [done|rewrite E, length_app; lia]|].
      rewrite E1, length_app. lia.
Qed.

Lemma read_dict_spec (sink : dict_sink S) l fuel s b rest :
  Forall (dict_sink_reads sink) l ->
  rem b = ch_d :: flat_map enc_entry l ++ ch_e :: rest -> length l < fuel ->
  bencode_read_dict fuel sink s b
  = sink (fold_left step l s) (advance (length (flat_map enc_entry l) + 2) b) None.
Proof.
  intros Hl E Hf. pose proof (rem_wf _ _ _ E) as Hw. unfold bencode_read_dict.
  rewrite size_left_rem by done. rewrite E.
  rewrite bool_decide_eq_false_2 by (cbn; rewrite length_app; cbn; lia).
  rewrite (deref_rem _ _ _ E). cbn [obind]. rewrite Z.eqb_refl. cbn [negb].
  assert (rem (advance 1 b) = flat_map enc_entry l ++ ch_e :: rest) as E1 by (by rewrite rem_advance, E).
  assert (wf (advance 1 b)) by (apply advance_wf; [done|rewrite E; cbn; lia]).
  rewrite (read_dict_loop_spec sink l fuel s _ (ch_e :: rest)) by eauto.
  cbn [obind negb]. apply rem_app in E1. rewrite (deref_rem _ _ _ E1).
  cbn [obind]. rewrite Z.eqb_refl. cbn [negb]. rewrite !advance_advance. do 2 f_equal. lia.
Qed.
End Loops.

(** ** The promise of an item codec

    [item_enc x] is the text of [x] for the items [item_ok] admits: [BDecode]
    reads it back, and [BEncode] writes it when there is room for one byte
    more. *)
Class BItemSpec (T : Type) `{BItem T} := {
  item_ok : T -> Prop;
  item_enc : T -> list Z;
  item_enc_head x : exists c t, item_enc x = c :: t /\ c ≠ ch_e;
  item_decode x b rest : item_ok x -> rem b = item_enc x ++ rest ->
    BDecode b = Done (Some x, advance (length (item_enc x)) b);
  item_encode x b : item_ok x -> wf b -> length (item_enc x) < size_left b ->
    exists b', BEncode x b = (true, b') /\ appends b (item_enc x) b' }.

Section ItemLists.
Context {T : Type} {HB : BItem T} {HS : BItemSpec T}.

Definition enc_list (l : list T) : list Z := ch_l :: flat_map item_enc l ++ [ch_e].

Lemma write_items_spec l : forall b, Forall item_ok l -> wf b ->
  length (flat_map item_enc l) < size_left b ->
  exists b', write_items l b = (true, b') /\ appends b (flat_map item_enc l) b'.
Proof.
  induction l as [|x l IH]; intros b Hl Hw Hs; cbn in *; [eauto with belnet|].
  apply Forall_cons in Hl as [Hx Hl]. rewrite length_app in Hs.
  destruct (item_encode x b) as (b1 & -> & H1); [done..|lia|].
  pose proof (appends_size_left _ _ _ Hw H1).
  destruct (IH b1) as (b2 & E2 & H2); [done|apply H1|lia|].
  cbn. eauto with belnet.
Qed.

Lemma BEncodeWriteList_spec l b : Forall item_ok l -> wf b ->
  length (enc_list l) <= size_left b ->
  exists b', BEncodeWriteList l b = (true, b') /\ appends b (enc_list l) b'.
Proof.
  intros Hl Hw Hs. unfold enc_list in *. cbn in Hs. rewrite length_app in Hs. cbn in Hs.
  unfold BEncodeWriteList, bencode_start_list, bencode_end.
  destruct (write_appends b [ch_l]) as (b1 & -> & H1); [done|cbn; lia|].
  pose proof (appends_size_left _ _ _ Hw H1) as S1. cbn in S1. cbn [and_then].
  destruct (write_items_spec l b1) as (b2 & -> & H2); [done|apply H1|lia|].
  pose proof (appends_size_left b1 _ _ ltac:(apply H1) H2) as S2. cbn [and_then].
  destruct (write_appends b2 [ch_e]) as (b3 & -> & H3); [apply H2|cbn; lia|].
  eexists. split; [done|]. change (ch_l :: ?x) with ([ch_l] ++ x). eauto with belnet.
Qed.

Lemma BEncodeReadList_spec l b rest fuel acc : Forall item_ok l ->
  rem b = enc_list l ++ rest -> length l < fuel ->
  BEncodeReadList fuel acc b = Done (true, advance (length (enc_list l)) b, acc ++ l).
Proof.
  intros Hl E Hf. unfold enc_list in E. cbn in E. rewrite <- app_assoc in E. cbn in E.
  unfold BEncodeReadList.
  rewrite (read_list_spec item_enc (fun acc x => acc ++ [x]) _ l fuel acc b rest); [|..|done|done].
  - cbn [negb]. do 3 f_equal.
    + f_equal. unfold enc_list. cbn. rewrite length_app. cbn. lia.
    + clear. revert acc. induction l as [|x l IH]; intros acc; cbn; [by rewrite app_nil_r|].
      by rewrite IH, <- app_assoc.
  - eapply Forall_impl; [exact Hl|]. intros x Hx. split; [apply item_enc_head|].
    intros s b' rest' E'. cbn [negb]. by rewrite (item_decode x b' rest').
Qed.

(** Reading a sorted list into an empty set gives the list. *)
Definition lt_asym (lt : T -> T -> bool) : Prop := forall x y, lt x y = true -> lt y x = false.

Lemma set_emplace_last lt s x : lt_asym lt -> Forall (fun y => lt y x = true) s ->
  set_emplace lt x s = (true, s ++ [x]).
Proof.
  intros Ha. induction 1 as [|y s Hy _ IH]; [done|]. cbn. by rewrite (Ha y x Hy), Hy, IH.
Qed.

Lemma read_set_loop lt l : lt_asym lt -> Forall item_ok l ->
  forall fuel acc b rest, StronglySorted (fun x y => lt x y = true) (acc ++ l) ->
  rem b = flat_map item_enc l ++ ch_e :: rest -> length l < fuel -> wf b ->
  read_list_loop fuel (read_set_sink lt) acc b = Done (true, advance (length (flat_map item_enc l)) b, acc ++ l).
Proof.
  intros Ha. induction 1 as [|x l Hx Hl IH]; intros fuel acc b rest Hs E Hf Hw.
  - destruct fuel; [cbn in *; lia|]. cbn in *. rewrite size_left_rem by done.
    rewrite E, advance_0, app_nil_r. case_bool_decide; [done|]. by rewrite (deref_rem _ _ _ E).
  - destruct fuel; [cbn in *; lia|]. cbn [flat_map] in *. rewrite <- app_assoc in E.
    destruct (item_enc_head x) as (c&t&Ec&Hc). pose proof E as E0. rewrite Ec in E0. cbn in E0.
    cbn [read_list_loop negb]. rewrite size_left_rem by done.
    rewrite bool_decide_eq_false_2 by (rewrite E0; done).
    rewrite (deref_rem _ _ _ E0). cbn [obind]. rewrite (proj2 (Z.eqb_neq c ch_e)) by done.
    unfold read_set_sink at 1. rewrite (item_decode x b _ Hx E). cbn [obind].
    rewrite set_emplace_last; [|done|].
    + cbn [obind negb]. rewrite (IH fuel (acc ++ [x]) _ rest).
      * by rewrite advance_advance, length_app, <- app_assoc.
      * by rewrite <- app_assoc.
      * by apply rem_app.
      * cbn in *; lia.
      * apply advance_wf; [done|]. rewrite E, length_app. lia.
    + apply Forall_forall. intros y Hy. eapply (StronglySorted_app_1_elem_of _ _ _ _ _ Hs); [done|constructor].
Qed.

Lemma BEncodeReadSet_spec lt l b rest fuel : lt_asym lt -> Forall item_ok l ->
  StronglySorted (fun x y => lt x y = true) l ->
  rem b = enc_list l ++ rest -> length l < fuel ->
  BEncodeReadSet lt fuel [] b = Done (true, advance (length (enc_list l)) b, l).
Proof.
  intros Ha Hl Hs E Hf. unfold enc_list in E. cbn in E. rewrite <- app_assoc in E. cbn in E.
  pose proof (rem_wf _ _ _ E) as Hw. unfold BEncodeReadSet, bencode_read_list.
  rewrite size_left_rem by done. rewrite E.
  rewrite bool_decide_eq_false_2 by (cbn; rewrite length_app; cbn; lia).
  rewrite (deref_rem _ _ _ E). cbn [obind]. rewrite Z.eqb_refl. cbn [negb].
  assert (rem (advance 1 b) = flat_map item_enc l ++ ch_e :: rest) as E1 by (by rewrite rem_advance, E).
  assert (wf (advance 1 b)) by (apply advance_wf; [done|rewrite E; cbn; lia]).
  rewrite (read_set_loop lt l Ha Hl fuel [] _ rest) by done.
  cbn [obind negb]. apply rem_app in E1. rewrite (deref_rem _ _ _ E1).
  cbn [obind]. rewrite Z.eqb_refl. cbn [negb read_set_sink app]. rewrite !advance_advance. do 3 f_equal.
  f_equal. unfold enc_list. cbn. rewrite length_app. cbn. lia.
Qed.
End ItemLists.

(** ** Writers and dictionaries step by step

    [writes w txt] : the writer appends [txt] when there is room for it and one
    byte more. *)

Definition writes (w : llarp_buffer_t -> bool * llarp_buffer_t) (txt : list Z) : Prop :=
  forall b, wf b -> length txt < size_left b -> exists b', w b = (true, b') /\ appends b txt b'.

Lemma writes_then w1 w2 t1 t2 : writes w1 t1 -> writes w2 t2 ->
  writes (fun b => and_then (w1 b) w2) (t1 ++ t2).
Proof.
  intros H1 H2 b Hw Hs. rewrite length_app in Hs.
  destruct (H1 b) as (b1 & -> & A1); [done|lia|]. pose proof (appends_size_left _ _ _ Hw A1).
  destruct (H2 b1) as (b2 & E2 & A2); [apply A1|lia|]. cbn. eauto with belnet.
Qed.

Lemma writes_nil : writes (fun b => (true, b)) [].
Proof. intros b Hw Hs. eauto with belnet. Qed.

Lemma writes_byte c : writes (fun b => write b [c]) [c].
Proof. intros b Hw Hs. apply write_appends; [done|cbn in *; lia]. Qed.

Lemma writes_uint64 v : in_width 64 v -> writes (fun b => bencode_write_uint64 b v) (enc_int v).
Proof. intros Hv b Hw Hs. apply bencode_write_uint64_spec; [done|done|lia]. Qed.

Lemma writes_bytestring s : (Z.of_nat (length s) < 10 ^ 20)%Z ->
  writes (fun b => bencode_write_bytestring b s) (enc_str s).
Proof. intros Hl b Hw Hs. apply bencode_write_bytestring_spec; [done|done|by right|lia]. Qed.

Lemma writes_items {T} `{BItemSpec T} (l : list T) : Forall item_ok l ->
  writes (write_items l) (flat_map item_enc l).
Proof. intros Hl b Hw Hs. by apply write_items_spec. Qed.

Lemma writes_item {T} `{BItemSpec T} (x : T) : item_ok x -> writes (BEncode x) (item_enc x).
Proof. intros Hx b Hw Hs. by apply item_encode. Qed.
#[export] Hint Resolve writes_then writes_nil writes_byte writes_uint64 writes_bytestring
  writes_items writes_item : belnet.

(** Keys of one byte. *)
Lemma startswith_one k c : startswith (Buf [k] 0) [c] = (k =? c)%Z.
Proof.
  unfold startswith. change (view_remaining (Buf [k] 0)) with [k]. cbn [length take]. destruct (Z.eqb_spec k c) as [->|Hn].
  - by rewrite bool_decide_true.
  - rewrite bool_decide_false; [done|congruence].
Qed.

Section DictSteps.
Context {S : Type} (sink : dict_sink S).

Lemma dict_loop_step f s s' b b' k rest : rem b = enc_str k ++ rest ->
  (Z.of_nat (length k) < 10 ^ 9)%Z ->
  sink s (advance (length (enc_str k)) b) (Some (Buf k 0)) = Done (true, b', s') ->
  read_dict_loop (Datatypes.S f) sink s b = read_dict_loop f sink s' b'.
Proof.
  intros E Hk Hs. destruct (enc_str_head k) as (c & t & Ex & Hc).
  pose proof E as E0. rewrite Ex in E0. cbn in E0. pose proof (rem_wf _ _ _ E0) as Hw.
  cbn [read_dict_loop]. rewrite size_left_rem by done.
  rewrite bool_decide_eq_false_2 by (rewrite E0; done).
  rewrite (deref_rem _ _ _ E0). cbn [obind].
  rewrite (proj2 (Z.eqb_neq c ch_e)) by (intros ->; discriminate Hc).
  rewrite (bencode_read_string_spec _ _ _ E Hk). cbn [obind]. rewrite Hs. done.
Qed.

Lemma dict_loop_end f s b rest : rem b = ch_e :: rest ->
  read_dict_loop (Datatypes.S f) sink s b = Done (true, b, s).
Proof.
  intros E. pose proof (rem_wf _ _ _ E) as Hw. cbn [read_dict_loop]. rewrite size_left_rem by done.
  rewrite bool_decide_eq_false_2 by (rewrite E; done). by rewrite (deref_rem _ _ _ E).
Qed.

Lemma read_dict_run f s s' b b' t rest : rem b = ch_d :: t -> t <> [] ->
  read_dict_loop f sink s (advance 1 b) = Done (true, b', s') -> rem b' = ch_e :: rest ->
  bencode_read_dict f sink s b = sink s' (advance 1 b') None.
Proof.
  intros E Ht Hl E'. pose proof (rem_wf _ _ _ E) as Hw. unfold bencode_read_dict.
  rewrite size_left_rem, E by done. rewrite bool_decide_eq_false_2 by (destruct t; cbn in *; [done|lia]).
  rewrite (deref_rem _ _ _ E). cbn [obind]. rewrite Z.eqb_refl. cbn [negb]. rewrite Hl. cbn [obind negb].
  rewrite (deref_rem _ _ _ E'). cbn [obind]. by rewrite Z.eqb_refl.
Qed.

(** Reading entries one after the other, each in the state the one before left. *)
Definition reads_one (k t : list Z) (s s' : S) : Prop :=
  (Z.of_nat (length k) < 10 ^ 9)%Z
  /\ forall b rest, rem b = t ++ rest -> sink s b (Some (Buf k 0)) = Done (true, advance (length t) b, s').
Fixpoint reads_all (l : list (list Z * list Z)) (s s' : S) : Prop :=
  match l with
  | [] => s' = s
  | (k, t) :: l => exists s1, reads_one k t s s1 /\ reads_all l s1 s'
  end.
Lemma reads_all_app l1 l2 : forall s s1 s', reads_all l1 s s1 -> reads_all l2 s1 s' -> reads_all (l1 ++ l2) s s'.
Proof.
  induction l1 as [|[k t] l1 IH]; intros s s1 s' H1 H2; cbn [reads_all app] in *; [by subst|].
  destruct H1 as (s2&Hk&H1). exists s2. split; [done|]. by apply (IH s2 s1).
Qed.
Definition pair_text (x : list Z * list Z) : list Z := enc_str x.1 ++ x.2.

Lemma read_chain l : forall f s s' b rest, reads_all l s s' -> length l < f -> rem b = flat_map pair_text l ++ ch_e :: rest ->
  read_dict_loop f sink s b = Done (true, advance (length (flat_map pair_text l)) b, s').
Proof.
  induction l as [|[k t] l IH]; intros [|f] s s' b rest Hl Hf E; cbn [length] in Hf; try lia.
  - cbn [reads_all] in Hl. subst. cbn [flat_map length]. rewrite advance_0. by apply (dict_loop_end f s b rest).
  - destruct Hl as (s1&[Hk H1]&Hl). cbn [flat_map] in *. unfold pair_text in E at 1. cbn [fst snd] in E. rewrite <- !app_assoc in E.
    pose proof (rem_app _ _ _ E) as E1. rewrite (dict_loop_step f s s1 b _ k _ E Hk (H1 _ _ E1)). rewrite (IH f s1 s' _ rest Hl) by (lia || by apply rem_app).
    rewrite !advance_advance, length_app. unfold pair_text at 2. cbn [fst snd]. rewrite length_app. do 4 f_equal. lia.
Qed.

Lemma read_dict_chain l f s s' b rest : reads_all l s s' -> length l < f -> rem b = ch_d :: flat_map pair_text l ++ ch_e :: rest ->
  bencode_read_dict f sink s b = sink s' (advance (length (flat_map pair_text l) + 2) b) None.
Proof.
  intros Hl Hf E. pose proof (rem_app b [ch_d] _ E) as E1. cbn [length] in E1.
  pose proof (read_chain l f s s' _ rest Hl Hf E1) as Hr.
  rewrite (read_dict_run f s s' b (advance (length (flat_map pair_text l)) (advance 1 b)) _ rest E); [|by destruct (flat_map pair_text l)|done|by apply rem_app].
  rewrite !advance_advance. do 2 f_equal. lia.
Qed.
End DictSteps.

(** ** Byte arrays and dictionaries as entries *)

(** [AlignedBuffer<n>] as an item ([llarp/util/aligned.hpp]) *)
Definition aligned_BEncode (x : list Z) (b : llarp_buffer_t) : bool * llarp_buffer_t := bencode_write_bytestring b x.
Definition aligned_BDecode (n : nat) (b : llarp_buffer_t) : outcome (option (list Z) * llarp_buffer_t) :=
  let! (strbuf, b) := bencode_read_string b in
  match strbuf with
  | None => Done (None, b)
  | Some strbuf => if bool_decide (sz strbuf = n) then Done (Some (base strbuf), b) else Done (None, b)
  end.
Definition aligned (n : nat) : BItem (list Z) := {| BEncode := aligned_BEncode; BDecode := aligned_BDecode n |}.

Definition aligned_spec (n : nat) : (Z.of_nat n < 10 ^ 9)%Z -> @BItemSpec (list Z) (aligned n).
Proof.
  intros Hn. refine (@Build_BItemSpec _ (aligned n) (fun x => length x = n) enc_str _ _ _).
  - intros x. destruct (enc_str_head x) as (c&t&->&Hc). exists c, t. split; [done|]. intros ->. discriminate Hc.
  - intros x b rest Hx E. cbn [BDecode aligned]. unfold aligned_BDecode.
    rewrite (bencode_read_string_spec _ _ _ E) by (by rewrite Hx). cbn [obind]. by rewrite bool_decide_true by done.
  - intros x b Hx Hw Hs. cbn [BEncode aligned]. unfold aligned_BEncode.
    apply bencode_write_bytestring_spec; [done|rewrite Hx; lia|by right|lia].
Defined.

(** An entry is a key, the text of its value, and what reading it does. *)

Section Entries.
Context {R : Type}.

Definition entry : Type := list Z * list Z * (R -> R).
Definition rkey (x : entry) : list Z := x.1.1.
Definition rtext (x : entry) : list Z := x.1.2.
Definition rstep (r : R) (x : entry) : R := x.2 r.
Definition dict_enc (l : list entry) : list Z := ch_d :: flat_map (enc_entry rtext rkey) l ++ [ch_e].
Definition reads (sink : dict_sink R) (x : entry) : Prop := dict_sink_reads rtext rstep rkey sink x.

Lemma entries_length l : length l <= length (flat_map (enc_entry rtext rkey) l).
Proof.
  induction l as [|x l IH]; [done|]. cbn [flat_map length]. rewrite length_app. unfold enc_entry at 1.
  destruct (enc_str_head (rkey x)) as (c&t&->&_). cbn [app length]. lia.
Qed.

Lemma read_entries sink l b rest r : Forall (reads sink) l -> rem b = dict_enc l ++ rest ->
  bencode_read_dict (S (S (sz b))) sink r b = sink (fold_left rstep l r) (advance (length (flat_map (enc_entry rtext rkey) l) + 2) b) None.
Proof.
  intros Hl E. unfold dict_enc in E. apply (read_dict_spec rtext rstep rkey sink l _ r b rest Hl).
  - rewrite E. cbn [app]. by rewrite <- app_assoc.
  - pose proof (length_rem b) as Hb. rewrite E, length_app in Hb. cbn [length] in Hb. rewrite length_app in Hb.
    pose proof (entries_length l). lia.
Qed.
End Entries.
Arguments entry R : clear implicits.

Lemma writes_entry {T} `{BItemSpec T} k (x : T) : item_ok x -> writes (BEncodeWriteDictEntry [k] x) (enc_str [k] ++ item_enc x).
Proof. intros Hx. unfold BEncodeWriteDictEntry. apply writes_then; [by apply (writes_bytestring [k])|by apply writes_item]. Qed.

Lemma writes_aligned n k x : (Z.of_nat n < 10 ^ 9)%Z -> length x = n ->
  writes (@BEncodeWriteDictEntry _ (aligned n) [k] x) (enc_str [k] ++ enc_str x).
Proof. intros Hn Hx. exact (@writes_entry _ (aligned n) (aligned_spec n Hn) k x Hx). Qed.

Lemma writes_int k v : in_width 64 v -> writes (BEncodeWriteDictInt [k] v) (enc_str [k] ++ enc_int v).
Proof. intros Hv. unfold BEncodeWriteDictInt. apply writes_then; [by apply (writes_bytestring [k])|by apply writes_uint64]. Qed.

(** ** Bencoded values *)

Inductive bvalue :=
| BInt (v : Z)
| BStr (s : list Z)
| BList (l : list bvalue)
| BDict (l : list (list Z * bvalue)).

Fixpoint enc_value (v : bvalue) : list Z :=
  match v with
  | BInt n => enc_int n
  | BStr s => enc_str s
  | BList l => ch_l :: flat_map enc_value l ++ [ch_e]
  | BDict l => ch_d :: flat_map (fun kv => enc_str kv.1 ++ enc_value kv.2) l ++ [ch_e]
  end.

(** Integers of 64 bits and strings whose length has at most nine digits. *)
Fixpoint value_ok (v : bvalue) : bool :=
  match v with
  | BInt n => bool_decide (in_width 64 n)
  | BStr s => (Z.of_nat (length s) <? 10 ^ 9)%Z
  | BList l => forallb value_ok l
  | BDict l => forallb (fun kv => (Z.of_nat (length kv.1) <? 10 ^ 9)%Z && value_ok kv.2) l
  end.

Lemma enc_value_head v :
  exists c t, enc_value v = c :: t /\ t ≠ [] /\ (c = ch_i \/ c = ch_l \/ c = ch_d \/ isdigit c = true).
Proof.
  destruct v as [n|s|l|l]; cbn [enc_value].
  - eexists _, _. split; [reflexivity|]. split; [by destruct (dec n)|auto].
  - unfold enc_str. destruct (enc_str_head s) as (c & t & E & Hd). unfold enc_str in E.
    rewrite E. eexists _, _. split; [reflexivity|]. split; [|auto].
    destruct t; [|done]. apply (f_equal length) in E. rewrite length_app in E. cbn in E.
    pose proof (length_dec (Z.of_nat (length s)) 0).
    destruct (dec (Z.of_nat (length s))) eqn:Ed; [by apply (f_equal length) in Ed; unfold dec in Ed; rewrite length_rev in Ed|cbn in E; lia].
  - eexists _, _. split; [reflexivity|]. split; [by destruct (flat_map _ _)|auto].
  - eexists _, _. split; [reflexivity|]. split; [by destruct (flat_map _ _)|auto].
Qed.

Lemma length_flat_map_le {X} (enc : X -> list Z) l :
  Forall (fun x => 1 <= length (enc x)) l ->
  length l <= length (flat_map enc l) /\ Forall (fun x => length (enc x) <= length (flat_map enc l)) l.
Proof.
  induction 1 as [|x l Hx _ [IH1 IH2]]; cbn; [by split; [lia|constructor]|].
  rewrite length_app. split; [lia|]. constructor; [lia|].
  eapply Forall_impl; [exact IH2|]. cbn. lia.
Qed.

Lemma fold_left_const {S X} (l : list X) (s : S) : fold_left (fun s _ => s) l s = s.
Proof. by induction l. Qed.

Lemma enc_value_pos v : 1 <= length (enc_value v).
Proof. destruct (enc_value_head v) as (? & ? & -> & _). cbn. lia. Qed.

(** [bencode_discard] with fuel [f] skips the encoding of [v]. *)
Definition discards (f : nat) (v : bvalue) : Prop := forall b rest,
  rem b = enc_value v ++ rest ->
  bencode_discard f b = Done (true, advance (length (enc_value v)) b).

Lemma discard_start b c t : rem b = c :: t ->
  deref b = Done c /\ bool_decide (size_left b = 0) = false.
Proof.
  intros E. split; [by eapply deref_rem|]. apply bool_decide_eq_false_2.
  rewrite size_left_rem by (by eapply rem_wf). by rewrite E.
Qed.

Lemma discard_list f l : Forall (discards f) l -> length l < f -> discards (S f) (BList l).
Proof.
  intros Hl Hf b rest E. cbn in E. rewrite <- app_assoc in E. cbn in E.
  destruct (discard_start _ _ _ E) as [Hd Hs]. cbn [bencode_discard]. rewrite Hs, Hd.
  cbn [obind]. rewrite Z.eqb_refl.
  rewrite (read_list_spec enc_value (fun s _ => s) _ l f tt b rest); [| |done|done].
  - cbn [obind discard_list_sink]. do 3 f_equal. cbn. rewrite length_app. cbn. lia.
  - eapply Forall_impl; [exact Hl|]. intros x Hx.
    destruct (enc_value_head x) as (c' & t & Ec & _ & Hc). split.
    + exists c', t. split; [done|]. intros ->. by destruct Hc as [|[|[]]].
    + intros s b' rest' E'. unfold discard_list_sink. by rewrite (Hx b' rest').
Qed.

Lemma discard_dict f l :
  Forall (fun kv => (Z.of_nat (length kv.1) < 10 ^ 9)%Z /\ discards f kv.2) l ->
  length l < f -> discards (S f) (BDict l).
Proof.
  intros Hl Hf b rest E. cbn in E. rewrite <- app_assoc in E. cbn in E.
  destruct (discard_start _ _ _ E) as [Hd Hs]. cbn [bencode_discard]. rewrite Hs, Hd.
  cbn [obind]. change (ch_d =? ch_l)%Z with false. change (ch_d =? ch_i)%Z with false.
  rewrite Z.eqb_refl. cbv iota.
  rewrite (read_dict_spec (fun kv => enc_value kv.2) (fun s _ => s) fst _ l f tt b rest);
    [| |done|done].
  - cbn [obind discard_dict_sink]. do 3 f_equal. cbn. rewrite length_app. cbn.
    change (enc_entry (fun kv : list Z * bvalue => enc_value kv.2) fst)
      with (fun kv : list Z * bvalue => enc_str kv.1 ++ enc_value kv.2). lia.
  - eapply Forall_impl; [exact Hl|]. intros x [Hk Hx]. split; [done|].
    intros s b' rest' E'. unfold discard_dict_sink. by rewrite (Hx b' rest').
Qed.

Lemma discard_value fuel : forall v,
  value_ok v = true -> length (enc_value v) <= fuel -> discards fuel v.
Proof.
  induction fuel as [|f IH]; intros v Hv Hf; [pose proof (enc_value_pos v); lia|].
  destruct v as [n|s|l|l]; cbn [enc_value value_ok] in Hv, Hf.
  - intros b rest E. destruct (enc_int_head n) as [t Et]. cbn [enc_value] in E.
    assert (rem b = ch_i :: (t ++ rest)) as E0 by (by rewrite E, Et).
    destruct (discard_start _ _ _ E0) as [Hd Hs]. cbn [bencode_discard].
    rewrite Hs, Hd. cbn [obind]. change (ch_i =? ch_l)%Z with false. rewrite Z.eqb_refl. cbv iota.
    apply bool_decide_eq_true_1 in Hv. by rewrite (bencode_read_integer_spec b n rest).
  - intros b rest E. destruct (enc_str_head s) as (c & t & Et & Hc). cbn [enc_value] in E.
    assert (rem b = c :: (t ++ rest)) as E0 by (by rewrite E, Et).
    destruct (discard_start _ _ _ E0) as [Hd Hs]. cbn [bencode_discard].
    rewrite Hs, Hd. cbn [obind]. rewrite !(proj2 (Z.eqb_neq c _)), Hc by (intros ->; done).
    by rewrite (bencode_read_string_spec b s rest) by (try done; lia).
  - cbn in Hf. rewrite length_app in Hf. cbn in Hf.
    destruct (length_flat_map_le enc_value l) as [Hl1 Hl2].
    { apply Forall_true, enc_value_pos. }
    apply discard_list; [|lia]. rewrite forallb_forall in Hv. rewrite Forall_forall in *.
    intros x Hx. specialize (Hl2 x Hx). rewrite list_elem_of_In in Hx. apply IH; auto. lia.
  - cbn in Hf. rewrite length_app in Hf. cbn in Hf.
    set (entry := fun kv : list Z * bvalue => enc_str kv.1 ++ enc_value kv.2) in *.
    destruct (length_flat_map_le entry l) as [Hl1 Hl2].
    { apply Forall_true. intros x. unfold entry. rewrite length_app.
      pose proof (enc_value_pos x.2). lia. }
    apply discard_dict; [|lia]. rewrite forallb_forall in Hv. rewrite Forall_forall in *.
    intros x Hx. specialize (Hl2 x Hx). rewrite list_elem_of_In in Hx.
    specialize (Hv x Hx). apply andb_prop in Hv as [Hk Hv]. split; [lia|].
    assert (length (entry x) = length (enc_str x.1) + length (enc_value x.2)) by apply length_app.
    apply IH; [done|lia].
Qed.

(** ** Arbitrary input

    [moved b b'] : the position moved forward inside the same region. [sound]
    results do not run out of fuel and, when they succeed on a non-empty rest,
    consume at least one byte. *)
Definition moved (b b' : llarp_buffer_t) : Prop :=
  base b' = base b /\ cur b <= cur b' /\ wf b'.

Definition sound {S} (b : llarp_buffer_t) (m : outcome (bool * llarp_buffer_t * S)) : Prop :=
  match m with
  | Timeout => False
  | Fault => True
  | Done (ok, b', _) => moved b b' /\ (ok = true -> 0 < length (rem b) -> cur b < cur b')
  end.

Lemma moved_refl b : wf b -> moved b b.
Proof. by repeat split. Qed.

Lemma moved_trans b1 b2 b3 : moved b1 b2 -> moved b2 b3 -> moved b1 b3.
Proof. intros (? & ? & ?) (? & ? & ?). repeat split; [congruence|lia|done]. Qed.

Lemma moved_advance b n : wf b -> n <= length (rem b) -> moved b (advance n b).
Proof. intros. repeat split; [cbn; lia|by apply advance_wf]. Qed.

Lemma moved_rem b b' : moved b b' -> length (rem b') = length (rem b) - (cur b' - cur b).
Proof. intros (E & ? & Hw). rewrite !length_rem. unfold wf, sz in *. rewrite E in *. lia. Qed.

Lemma deref_inv b c : wf b -> deref b = Done c -> exists t, rem b = c :: t.
Proof.
  unfold deref, rem. intros Hw E. destruct (base b !! cur b) eqn:El; simplify_eq.
  exists (drop (S (cur b)) (base b)). by apply drop_S.
Qed.

Lemma deref_sound b c : wf b -> deref b = Done c -> moved b (advance 1 b) /\ 0 < length (rem b).
Proof.
  intros Hw E. destruct (deref_inv b c Hw E) as [t Et]. rewrite Et.
  split; [apply moved_advance; [done|rewrite Et; cbn; lia]|cbn; lia].
Qed.

Lemma read_string_sound b : wf b -> exists r b', bencode_read_string b = Done (r, b')
  /\ moved b b' /\ (is_Some r -> cur b < cur b').
Proof.
  intros Hw. unfold bencode_read_string.
  destruct (read_until_done ch_colon 9 b Hw) as (out & k & -> & _ & Hw' & Hk & Hlt).
  cbn [obind]. assert (moved b (advance (length out) b)) as Hm.
  { repeat split; [cbn; lia|done]. }
  case_bool_decide as Hz; [by eexists _, _; split_and!; [done..|intros []]|].
  case_match; [by eexists _, _; split_and!; [done..|intros []]|].
  rewrite advance_advance. specialize (Hlt Hz).
  assert (moved b (advance (length out + 1) b)) as Hm1.
  { repeat split; [cbn; lia|]. unfold wf, sz in *. cbn in *. lia. }
  rewrite size_left_rem by apply Hm1. rewrite length_rem.
  case_bool_decide; eexists _, _; (split; [done|]).
  - split; [done|intros []; done].
  - split; [|cbn; lia]. eapply moved_trans; [exact Hm1|].
    apply moved_advance; [apply Hm1|rewrite length_rem; lia].
Qed.

Lemma read_integer_sound b : wf b ->
  match bencode_read_integer b with
  | Timeout => False
  | Fault => rem b = []
  | Done (r, b') => moved b b' /\ (is_Some r -> cur b < cur b')
  end.
Proof.
  intros Hw. unfold bencode_read_integer. destruct (deref b) as [c| |] eqn:Ed; cbn [obind].
  - destruct (deref_sound b c Hw Ed) as [Hm1 Hl].
    destruct (negb _); [split; [by apply moved_refl|intros []; done]|].
    destruct (read_until_done ch_e 31 (advance 1 b)) as (out & k & -> & _ & Hw' & Hk & Hlt);
      [apply Hm1|]. cbn [obind]. rewrite !advance_advance in *.
    assert (moved b (advance (1 + length out) b)) by (repeat split; [cbn; lia|done]).
    case_bool_decide as Hz; [split; [done|intros []; done]|]. split; [|cbn; lia].
    specialize (Hlt Hz). repeat split; [cbn; lia|]. unfold wf, sz in *. cbn in *. lia.
  - unfold deref in Ed. destruct (base b !! cur b) eqn:El; simplify_eq.
    apply lookup_ge_None in El. by apply drop_ge.
  - unfold deref in Ed. by destruct (base b !! cur b).
Qed.

Section SoundLoops.
Context {S : Type}.

Lemma read_list_loop_sound (sink : list_sink S) n :
  (forall s b, wf b -> length (rem b) < n -> sound b (sink s b true)) ->
  forall fuel s b, wf b -> length (rem b) < n -> length (rem b) < fuel ->
  match read_list_loop fuel sink s b with
  | Timeout => False | Fault => True | Done (_, b', _) => moved b b'
  end.
Proof.
  intros Hsink. induction fuel as [|f IH]; intros s b Hw Hn Hf; [lia|].
  cbn [read_list_loop]. case_bool_decide as Hz; [by apply moved_refl|].
  destruct (deref b) as [c| |] eqn:Ed; cbn [obind]; [|done|by unfold deref in Ed; case_match].
  destruct (deref_sound b c Hw Ed) as [_ Hl]. destruct (c =? ch_e)%Z; [by apply moved_refl|].
  specialize (Hsink s b Hw Hn). destruct (sink s b true) as [[[ok b'] s']| |]; cbn in *; [|done..].
  destruct Hsink as [Hm Hp]. destruct ok; cbn [negb]; [|done].
  specialize (Hp eq_refl Hl). pose proof (moved_rem _ _ Hm).
  specialize (IH s' b' ltac:(apply Hm) ltac:(lia) ltac:(lia)).
  destruct (read_list_loop f sink s' b') as [[[ok b''] s'']| |]; [|done..].
  by eapply moved_trans.
Qed.

Lemma read_dict_loop_sound (sink : dict_sink S) n :
  (forall s b k, wf b -> length (rem b) < n -> sound b (sink s b (Some k))) ->
  forall fuel s b, wf b -> length (rem b) < n -> length (rem b) < fuel ->
  match read_dict_loop fuel sink s b with
  | Timeout => False | Fault => True | Done (_, b', _) => moved b b'
  end.
Proof.
  intros Hsink. induction fuel as [|f IH]; intros s b Hw Hn Hf; [lia|].
  cbn [read_dict_loop]. case_bool_decide as Hz; [by apply moved_refl|].
  destruct (deref b) as [c| |] eqn:Ed; cbn [obind]; [|done|by unfold deref in Ed; case_match].
  destruct (deref_sound b c Hw Ed) as [_ Hl]. destruct (c =? ch_e)%Z; [by apply moved_refl|].
  destruct (read_string_sound b Hw) as (r & b1 & -> & Hm1 & Hp1). cbn [obind].
  destruct r as [k|]; [|done]. specialize (Hp1 ltac:(eauto)). pose proof (moved_rem _ _ Hm1).
  specialize (Hsink s b1 k ltac:(apply Hm1) ltac:(lia)).
  destruct (sink s b1 (Some k)) as [[[ok b'] s']| |]; cbn in *; [|done..].
  destruct Hsink as [Hm _]. destruct ok; cbn [negb]; [|by eapply moved_trans].
  pose proof (moved_rem _ _ Hm). specialize (IH s' b' ltac:(apply Hm) ltac:(lia) ltac:(lia)).
  destruct (read_dict_loop f sink s' b') as [[[ok b''] s'']| |]; [|done..].
  eauto using moved_trans.
Qed.
End SoundLoops.

Lemma sound_end {S} (b b1 b2 : llarp_buffer_t) (s : S) c :
  moved b b1 -> moved b1 b2 -> cur b < cur b1 -> deref b2 = Done c ->
  sound b (Done (true, advance 1 b2, s)).
Proof.
  intros H1 H2 Hlt Hd. destruct (deref_sound b2 c ltac:(apply H2) Hd) as [H3 _].
  split; [eauto using moved_trans|]. intros _ _. destruct H2 as (_ & ? & _). cbn. lia.
Qed.

(** With a sink that ends the value silently, a whole list or dictionary read
    is sound when its loop fuel exceeds the bytes left. *)
Lemma read_list_sound {S} (sink : list_sink S) fuel s b :
  (forall s b, sink s b false = Done (true, b, s)) ->
  (forall s b, wf b -> length (rem b) < fuel -> sound b (sink s b true)) ->
  wf b -> length (rem b) <= fuel -> sound b (bencode_read_list fuel sink s b).
Proof.
  intros Hend Hsink Hw Hf. unfold bencode_read_list.
  case_bool_decide as Hz; [split; [by apply moved_refl|done]|].
  destruct (deref b) as [c| |] eqn:Ed; cbn [obind]; [|done|by unfold deref in Ed; case_match].
  destruct (deref_sound b c Hw Ed) as [Hm Hl].
  destruct (negb _); [split; [by apply moved_refl|done]|].
  pose proof (moved_rem _ _ Hm) as Hr. cbn [cur advance set_cur] in Hr.
  pose proof (read_list_loop_sound sink fuel Hsink fuel s (advance 1 b) ltac:(apply Hm)
                ltac:(lia) ltac:(lia)) as Hloop.
  destruct (read_list_loop _ _ _ _) as [[[go b2] s2]| |]; cbn [obind]; [|done..].
  destruct go; cbn [negb]; [|split; [by eapply moved_trans|done]].
  destruct (deref b2) as [c2| |] eqn:Ed2; cbn [obind]; [|done|by unfold deref in Ed2; case_match].
  destruct (negb _); [split; [by eapply moved_trans|done]|].
  rewrite Hend. eapply sound_end; eauto. cbn. lia.
Qed.

Lemma read_dict_sound {S} (sink : dict_sink S) fuel s b :
  (forall s b, sink s b None = Done (true, b, s)) ->
  (forall s b k, wf b -> length (rem b) < fuel -> sound b (sink s b (Some k))) ->
  wf b -> length (rem b) <= fuel -> sound b (bencode_read_dict fuel sink s b).
Proof.
  intros Hend Hsink Hw Hf. unfold bencode_read_dict.
  case_bool_decide as Hz; [split; [by apply moved_refl|done]|].
  destruct (deref b) as [c| |] eqn:Ed; cbn [obind]; [|done|by unfold deref in Ed; case_match].
  destruct (deref_sound b c Hw Ed) as [Hm Hl].
  destruct (negb _); [split; [by apply moved_refl|done]|].
  pose proof (moved_rem _ _ Hm) as Hr. cbn [cur advance set_cur] in Hr.
  pose proof (read_dict_loop_sound sink fuel Hsink fuel s (advance 1 b) ltac:(apply Hm)
                ltac:(lia) ltac:(lia)) as Hloop.
  destruct (read_dict_loop _ _ _ _) as [[[go b2] s2]| |]; cbn [obind]; [|done..].
  destruct go; cbn [negb]; [|split; [by eapply moved_trans|done]].
  destruct (deref b2) as [c2| |] eqn:Ed2; cbn [obind]; [|done|by unfold deref in Ed2; case_match].
  destruct (negb _); [split; [by eapply moved_trans|done]|].
  rewrite Hend. eapply sound_end; eauto. cbn. lia.
Qed.

Definition with_unit (m : outcome (bool * llarp_buffer_t)) : outcome (bool * llarp_buffer_t * unit) :=
  let! (ok, b) := m in Done (ok, b, tt).

Lemma discard_sound fuel : forall b, wf b -> length (rem b) < fuel ->
  sound b (with_unit (bencode_discard fuel b)).
Proof.
  induction fuel as [|f IH]; intros b Hw Hf; [lia|]. cbn [bencode_discard].
  case_bool_decide as Hz.
  { split; [by apply moved_refl|]. rewrite size_left_rem in Hz by done. lia. }
  destruct (deref b) as [c| |] eqn:Ed; cbn [obind]; [|done|by unfold deref in Ed; case_match].
  assert (forall s b', wf b' -> length (rem b') < f ->
    sound b' (let! (ok, b) := bencode_discard f b' in Done (ok, b, s : unit))) as Hsink.
  { intros [] b' Hw' Hf'. exact (IH b' Hw' Hf'). }
  destruct (c =? ch_l)%Z; [|destruct (c =? ch_i)%Z; [|destruct (c =? ch_d)%Z; [|destruct (isdigit c)]]].
  - pose proof (read_list_sound (discard_list_sink (bencode_discard f)) f tt b
      ltac:(done) Hsink Hw ltac:(lia)) as Hs.
    by destruct (bencode_read_list _ _ _ _) as [[[ok b'] []]| |].
  - pose proof (read_integer_sound b Hw) as Hs.
    destruct (bencode_read_integer b) as [[r b']| |]; cbn in *; [|done..].
    destruct Hs as [Hm Hp]. split; [done|]. intros ?%bool_decide_eq_true_1 _. auto.
  - pose proof (read_dict_sound (discard_dict_sink (bencode_discard f)) f tt b
      ltac:(done) (fun s b' _ => Hsink s b') Hw ltac:(lia)) as Hs.
    by destruct (bencode_read_dict _ _ _ _) as [[[ok b'] []]| |].
  - destruct (read_string_sound b Hw) as (r & b' & -> & Hm & Hp). cbn.
    split; [done|]. intros ?%bool_decide_eq_true_1 _. auto.
  - split; [by apply moved_refl|done].
Qed.

(** ** Properties *)

(** Every 64-bit integer and every string whose length has at most nine
    digits reads back as itself: the writer appends its text when there is
    room, and the reader, started where the writer started, returns the value
    and stops where the writer stopped. *)
Theorem scalar_roundtrip b : wf b ->
  (forall v, in_width 64 v -> length (enc_int v) <= size_left b ->
     exists b', bencode_write_uint64 b v = (true, b') /\ appends b (enc_int v) b'
       /\ bencode_read_integer (set_cur b' (cur b)) = Done (Some v, b'))
  /\ (forall s, (Z.of_nat (length s) < 10 ^ 9)%Z -> length (enc_str s) < size_left b ->
     exists b', bencode_write_bytestring b s = (true, b') /\ appends b (enc_str s) b'
       /\ bencode_read_string (set_cur b' (cur b)) = Done (Some (Buf s 0), b')).
Proof.
  intros Hw. split.
  - intros v Hv Hl. destruct (bencode_write_uint64_spec b v) as (b' & E & Ha); [done..|].
    exists b'. split_and!; [done..|]. pose proof (appends_rem _ _ _ Hw Ha) as Hr.
    by rewrite (bencode_read_integer_spec _ _ _ Hr Hv), (appends_advance _ _ _ Ha).
  - intros s Hs Hl. destruct (bencode_write_bytestring_spec b s) as (b' & E & Ha);
      [done|lia|by right|lia|].
    exists b'. split_and!; [done..|]. pose proof (appends_rem _ _ _ Hw Ha) as Hr.
    by rewrite (bencode_read_string_spec _ _ _ Hr Hs), (appends_advance _ _ _ Ha).
Qed.

Lemma scalar_roundtrip_witness :
  (exists b', bencode_write_uint64 (Buf (replicate 10 7%Z) 1) 420 = (true, b')
     /\ appends (Buf (replicate 10 7%Z) 1) (enc_int 420) b'
     /\ bencode_read_integer (set_cur b' 1) = Done (Some 420%Z, b'))
  /\ (exists b', bencode_write_bytestring (Buf (replicate 10 7%Z) 1) [104;105]%Z = (true, b')
     /\ appends (Buf (replicate 10 7%Z) 1) (enc_str [104;105]%Z) b'
     /\ bencode_read_string (set_cur b' 1) = Done (Some (Buf [104;105]%Z 0), b')).
Proof.
  destruct (scalar_roundtrip (Buf (replicate 10 7%Z) 1)) as [Hi Hs].
  - unfold wf. cbn. lia.
  - split.
    + apply (Hi 420%Z); [unfold in_width; lia|vm_compute; lia].
    + apply (Hs [104;105]%Z); [cbn; lia|vm_compute; lia].
Defined.

(** [bencode_discard] skips exactly one value: on the text of any nested
    value whose integers and strings the readers accept, with as much fuel as
    the text is long, it succeeds and stops right after the text. *)
Theorem discard_skips_value v b rest fuel :
  value_ok v = true -> rem b = enc_value v ++ rest -> length (enc_value v) <= fuel ->
  bencode_discard fuel b = Done (true, advance (length (enc_value v)) b).
Proof. intros Hv E Hf. by apply (discard_value fuel v Hv Hf b rest). Qed.

Definition sample_value : bvalue :=
  BDict [([97]%Z, BList [BInt 7; BStr [120;121]%Z]); ([98]%Z, BDict [])].

Lemma discard_skips_value_witness :
  bencode_discard 40 (Buf (enc_value sample_value ++ [1;2]%Z) 0)
  = Done (true, advance (length (enc_value sample_value)) (Buf (enc_value sample_value ++ [1;2]%Z) 0)).
Proof.
  apply (discard_skips_value sample_value _ [1;2]%Z).
  - reflexivity.
  - reflexivity.
  - vm_compute. lia.
Defined.

(** On any bytes at all, [bencode_discard] terminates within as many steps
    as there are bytes left (plus one), only moves the position forward inside
    the region, and consumes at least one byte whenever it succeeds on a
    non-empty rest; the one way it goes wrong is the read at the end of a list
    or dictionary that is cut off. *)
Theorem discard_total b fuel : wf b -> length (rem b) < fuel ->
  bencode_discard fuel b = Fault
  \/ exists ok b', bencode_discard fuel b = Done (ok, b') /\ moved b b'
       /\ (ok = true -> 0 < length (rem b) -> cur b < cur b').
Proof.
  intros Hw Hf. pose proof (discard_sound fuel b Hw Hf) as Hs.
  destruct (bencode_discard fuel b) as [[ok b']| |]; cbn in Hs; [right|by left|done].
  exists ok, b'. tauto.
Qed.

Lemma discard_total_witness :
  bencode_discard 6 (Buf [108;105;49;101;101]%Z 0) = Fault
  \/ exists ok b', bencode_discard 6 (Buf [108;105;49;101;101]%Z 0) = Done (ok, b')
       /\ moved (Buf [108;105;49;101;101]%Z 0) b'
       /\ (ok = true -> 0 < length (rem (Buf [108;105;49;101;101]%Z 0)) -> 0 < cur b').
Proof.
  apply (discard_total (Buf [108;105;49;101;101]%Z 0) 6).
  - unfold wf. cbn. lia.
  - cbn. lia.
Defined.

(** Lists of items round-trip through any item codec that keeps its
    promise: [BEncodeWriteList] appends the list text when there is room, and
    [BEncodeReadList] on that text returns the same items in the same order
    and stops where the writer stopped. *)
Theorem item_list_roundtrip {T} {HB : BItem T} {HS : BItemSpec T} (l : list T) b fuel :
  Forall item_ok l -> wf b -> length (enc_list l) <= size_left b -> length l < fuel ->
  exists b', BEncodeWriteList l b = (true, b') /\ appends b (enc_list l) b'
    /\ BEncodeReadList fuel [] (set_cur b' (cur b)) = Done (true, b', l).
Proof.
  intros Hl Hw Hs Hf. destruct (BEncodeWriteList_spec l b) as (b' & E & Ha); [done..|].
  exists b'. split_and!; [done..|]. pose proof (appends_rem _ _ _ Hw Ha) as Hr.
  by rewrite (BEncodeReadList_spec l _ _ fuel [] Hl Hr Hf), (appends_advance _ _ _ Ha).
Qed.

(** Byte strings of fewer than [10^9] bytes are such items. *)
#[local] Instance string_item : BItem (list Z) := {|
  BEncode s b := bencode_write_bytestring b s;
  BDecode b := let! (r, b) := bencode_read_string b in Done (base <$> r, b) |}.

#[local, refine] Instance string_item_spec : BItemSpec (list Z) := {|
  item_ok s := (Z.of_nat (length s) < 10 ^ 9)%Z;
  item_enc := enc_str |}.
Proof.
  - intros s. destruct (enc_str_head s) as (c & t & E & Hc). exists c, t. split; [done|].
    by intros ->.
  - intros s b rest Hs E. cbn. by rewrite (bencode_read_string_spec b s rest).
  - intros s b Hs Hw Hl. apply bencode_write_bytestring_spec; [done|lia|by right|lia].
Defined.

Lemma item_list_roundtrip_witness :
  exists b', BEncodeWriteList [[104;105]; [106]]%Z (Buf (replicate 12 7%Z) 1) = (true, b')
    /\ appends (Buf (replicate 12 7%Z) 1) (enc_list [[104;105]; [106]]%Z) b'
    /\ BEncodeReadList 3 [] (set_cur b' 1) = Done (true, b', [[104;105]; [106]]%Z).
Proof.
  apply (item_list_roundtrip [[104;105]; [106]]%Z (Buf (replicate 12 7%Z) 1) 3).
  - repeat constructor; cbn; lia.
  - unfold wf. cbn. lia.
  - vm_compute. lia.
  - cbn. lia.
Defined.

(** ** Deviations from the format *)

(** A list that the buffer cuts off before its closing [e] makes
    [bencode_discard] dereference the position one past the end. *)
Theorem truncated_list_reads_past_end l b fuel :
  forallb value_ok l = true -> l ≠ [] -> rem b = ch_l :: flat_map enc_value l ->
  length (rem b) <= fuel -> bencode_discard fuel b = Fault.
Proof.
  intros Hv Hne E Hf. destruct fuel as [|f]; [rewrite E in Hf; cbn in Hf; lia|].
  rewrite E in Hf. cbn in Hf. destruct (length_flat_map_le enc_value l) as [Hl1 Hl2].
  { apply Forall_true, enc_value_pos. }
  destruct (discard_start _ _ _ E) as [Hd Hs]. cbn [bencode_discard]. rewrite Hs, Hd.
  cbn [obind]. rewrite Z.eqb_refl.
  destruct (decide (f = length l)) as [->|Hlt].
  - exfalso. destruct l as [|x l]; [done|]. cbn in Hf. rewrite length_app in Hf.
    cbn in Hl2. apply Forall_cons in Hl2 as [Hx _].
    destruct (enc_value_head x) as (c & t & Ex & Ht & _). rewrite Ex in Hf. cbn in Hf.
    destruct t; [done|]. cbn in Hf.
    destruct (length_flat_map_le enc_value l) as [? _]; [apply Forall_true, enc_value_pos|]. lia.
  - rewrite (read_list_truncated enc_value (fun s _ => s) _ l f tt b); [done| |done..|lia].
    rewrite forallb_forall in Hv. rewrite Forall_forall in *. intros x Hx. specialize (Hl2 x Hx).
    rewrite list_elem_of_In in Hx. destruct (enc_value_head x) as (c & t & Ec & _ & Hc). split.
    + exists c, t. split; [done|]. intros ->. by destruct Hc as [|[|[]]].
    + intros s b' rest' E'. unfold discard_list_sink.
      rewrite (discard_value f x (Hv x Hx) ltac:(lia) b' rest'); done.
Qed.

Lemma truncated_list_reads_past_end_witness :
  bencode_discard 9 (Buf [108;105;49;101]%Z 0) = Fault.
Proof.
  apply (truncated_list_reads_past_end [BInt 1]).
  - reflexivity.
  - discriminate.
  - reflexivity.
  - cbn. lia.
Defined.

(** A nine-character length prefix is accepted with any byte in place of the
    colon, and a 31-character integer with any byte in place of the [e]. *)
Lemma length_prefix_without_colon b s c rest :
  length s = 9 -> Forall (fun x => isdigit x = true) s -> rem b = s ++ c :: rest ->
  Z.to_nat (digits_value s) <= length rest ->
  exists str, bencode_read_string b
    = Done (Some (Buf str 0), advance (10 + Z.to_nat (digits_value s)) b).
Proof.
  intros Hl Hd E Hr. unfold bencode_read_string.
  rewrite (read_until_at ch_colon 9 b s c rest E) by (auto using digit_not_elem with lia).
  cbn [obind]. rewrite Hl, bool_decide_eq_false_2 by lia.
  assert (atoi s = digits_value s) as ->.
  { unfold atoi, strto_subject. destruct s as [|d s]; [done|]. pose proof (Forall_inv Hd) as Hc.
    cbn beta in Hc. cbn [skip_spaces].
    assert (isspace d = false) as -> by (unfold isdigit, isspace in *; lia).
    rewrite !(proj2 (Z.eqb_neq d _)) by (unfold isdigit in Hc; lia). by rewrite take_digits_all. }
  pose proof (digits_value_range s Hd). rewrite (proj2 (Z.ltb_ge _ 0)), advance_advance by lia.
  assert (wf b) as Hw by (destruct s; [done|by eapply rem_wf]).
  assert (wf (advance (9 + 1) b)) as Hw1
    by (apply advance_wf; [done|rewrite E, length_app, Hl; cbn; lia]).
  rewrite size_left_rem by done.
  rewrite rem_advance, E, drop_app_ge by lia. rewrite Hl. change (9 + 1 - 9) with 1. cbn [drop]. rewrite drop_0.
  rewrite bool_decide_eq_false_2 by lia. eexists. by rewrite advance_advance.
Qed.
