(* ===== verification/Codec.v ===== *)
(** * Dictionaries as codecs use them

    Lemmas on [BEncodeMaybeReadDictEntry], [BEncodeMaybeReadDictInt] and on the texts
    of dictionaries, for the objects that are read key by key. *)

From S2P Require Import Prelude Buffer Bencode.
Open Scope Z_scope.

(** A dictionary as keys and the texts of their values. *)
Definition dict_text (l : list (list Z * list Z)) : list Z := ch_d :: flat_map pair_text l ++ [ch_e].

Lemma dict_text_cons l rest b : rem b = dict_text l ++ rest -> rem b = ch_d :: flat_map pair_text l ++ ch_e :: rest.
Proof. intros ->. unfold dict_text. cbn [app]. by rewrite <- app_assoc. Qed.
Lemma dict_text_length l : length (dict_text l) = (length (flat_map pair_text l) + 2)%nat.
Proof. unfold dict_text. cbn [length]. rewrite length_app. cbn. lia. Qed.
Lemma pairs_length l : (length l <= length (flat_map pair_text l))%nat.
Proof.
  induction l as [|x l IH]; [done|]. cbn [flat_map length]. rewrite length_app. unfold pair_text at 1.
  destruct (enc_str_head x.1) as (c&t&->&_). cbn [app length]. lia.
Qed.
Lemma dict_fuel l rest b : rem b = dict_text l ++ rest -> (length l < S (S (sz b)))%nat.
Proof.
  intros E. pose proof (length_rem b) as Hb. rewrite E, length_app, dict_text_length in Hb. pose proof (pairs_length l). lia.
Qed.

Ltac one_key := rewrite ?startswith_one; cbn [Z.eqb Pos.eqb].
Lemma miss_entry n c k x read b : (k =? c) = false ->
  @BEncodeMaybeReadDictEntry _ (aligned n) [c] x read (Buf [k] 0) b = Done (true, x, read, b).
Proof. intros E. unfold BEncodeMaybeReadDictEntry. by rewrite startswith_one, E. Qed.
Lemma hit_entry n c x old read b rest : Z.of_nat n < 10 ^ 9 -> length x = n -> rem b = enc_str x ++ rest ->
  @BEncodeMaybeReadDictEntry _ (aligned n) [c] old read (Buf [c] 0) b = Done (true, x, true, advance (length (enc_str x)) b).
Proof.
  intros Hn Hx E. unfold BEncodeMaybeReadDictEntry. rewrite startswith_one, Z.eqb_refl.
  by rewrite (@item_decode _ _ (aligned_spec n Hn) x b rest Hx E).
Qed.
Lemma miss_int w c k x read b : (k =? c) = false -> BEncodeMaybeReadDictInt w [c] x read (Buf [k] 0) b = Done (true, x, read, b).
Proof. intros E. unfold BEncodeMaybeReadDictInt. by rewrite startswith_one, E. Qed.
Lemma hit_int c v old read b rest : in_width 64 v -> rem b = enc_int v ++ rest ->
  BEncodeMaybeReadDictInt 64 [c] old read (Buf [c] 0) b = Done (true, v, true, advance (length (enc_int v)) b).
Proof.
  intros Hv E. unfold BEncodeMaybeReadDictInt. rewrite startswith_one, Z.eqb_refl, (bencode_read_integer_spec _ _ _ E Hv). cbn [obind].
  unfold wrap. by rewrite Z.mod_small by done.
Qed.

Lemma miss_version c k x e read b : (k =? c) = false -> BEncodeMaybeVerifyVersion [c] x e read (Buf [k] 0) b = Done (true, x, read, b).
Proof. intros E. unfold BEncodeMaybeVerifyVersion. by rewrite startswith_one, E. Qed.
Lemma hit_version c v old read b rest : in_width 64 v -> rem b = enc_int v ++ rest ->
  BEncodeMaybeVerifyVersion [c] old v read (Buf [c] 0) b = Done (true, v, true, advance (length (enc_int v)) b).
Proof.
  intros Hv E. unfold BEncodeMaybeVerifyVersion. rewrite startswith_one, Z.eqb_refl, (bencode_read_integer_spec _ _ _ E Hv). cbn [obind]. by rewrite Z.eqb_refl.
Qed.
Lemma miss_list {T} `{BItem T} f c k (l : list T) read b : (k =? c) = false ->
  BEncodeMaybeReadDictList f [c] l read (Buf [k] 0) b = Done (true, l, read, b).
Proof. intros E. unfold BEncodeMaybeReadDictList. by rewrite startswith_one, E. Qed.
Lemma hit_list {T} `{BItemSpec T} f c (l old : list T) read b rest : Forall item_ok l -> rem b = enc_list l ++ rest -> (length l < f)%nat ->
  BEncodeMaybeReadDictList f [c] old read (Buf [c] 0) b = Done (true, old ++ l, true, advance (length (enc_list l)) b).
Proof.
  intros Hl E Hf. unfold BEncodeMaybeReadDictList. rewrite startswith_one, Z.eqb_refl, (BEncodeReadList_spec l b rest f old Hl E Hf). done.
Qed.

(** Passes the entries of other keys. *)
Ltac pass := repeat first [rewrite miss_entry by done | rewrite miss_list by done | rewrite miss_int by done | progress cbn [obind negb]].
Ltac next_key := split; [split; [done|]; intros b rest E|].

Lemma writes_dict w t : writes w t -> writes (fun b => and_then (bencode_start_dict b) w) (ch_d :: t).
Proof. intros Hw. change (ch_d :: t) with ([ch_d] ++ t). apply writes_then; [apply writes_byte|done]. Qed.

(** ** Lists whose items are read in the state the one before left *)

Section ListChain.
Context {S : Type} (sink : list_sink S).

Definition reads_item (t : list Z) (s s' : S) : Prop :=
  (exists c t', t = c :: t' /\ c <> ch_e) /\ forall b rest, rem b = t ++ rest -> sink s b true = Done (true, advance (length t) b, s').
Fixpoint reads_items (l : list (list Z)) (s s' : S) : Prop :=
  match l with
  | [] => s' = s
  | t :: l => exists s1, reads_item t s s1 /\ reads_items l s1 s'
  end.

Lemma list_chain l : forall f s s' b rest, reads_items l s s' -> (length l < f)%nat -> rem b = concat l ++ ch_e :: rest ->
  read_list_loop f sink s b = Done (true, advance (length (concat l)) b, s').
Proof.
  induction l as [|t l IH]; intros [|f] s s' b rest Hl Hf E; cbn [length] in Hf; try lia; cbn [concat] in E; pose proof (rem_wf b) as Hw.
  - cbn [reads_items] in Hl. subst s'. cbn [app] in E. specialize (Hw _ _ E). cbn [read_list_loop concat length]. rewrite size_left_rem, E by done.
    cbn [length]. rewrite bool_decide_false by lia. rewrite (deref_rem _ _ _ E). cbn [obind]. rewrite Z.eqb_refl, advance_0. done.
  - destruct Hl as (s1&[(c&t'&Et&Hc) Hr]&Hl). rewrite <- app_assoc in E. pose proof E as E0. rewrite Et in E0. cbn [app] in E0. specialize (Hw _ _ E0).
    cbn [read_list_loop]. rewrite size_left_rem, E0 by done. cbn [length]. rewrite bool_decide_false by lia. rewrite (deref_rem _ _ _ E0). cbn [obind].
    rewrite (proj2 (Z.eqb_neq c ch_e)) by done. rewrite (Hr _ _ E). cbn [obind negb]. rewrite (IH f s1 s' _ rest Hl) by (lia || by apply rem_app).
    cbn [concat]. by rewrite advance_advance, length_app.
Qed.
Lemma read_list_chain l f s s' b rest : reads_items l s s' -> (length l < f)%nat -> rem b = ch_l :: concat l ++ ch_e :: rest ->
  bencode_read_list f sink s b = sink s' (advance (length (concat l) + 2) b) false.
Proof.
  intros Hl Hf E. pose proof (rem_wf _ _ _ E) as Hw. unfold bencode_read_list. rewrite size_left_rem, E by done.
  rewrite bool_decide_false by (cbn [length]; rewrite length_app; cbn; lia). rewrite (deref_rem _ _ _ E). cbn [obind]. rewrite Z.eqb_refl. cbn [negb].
  pose proof (rem_app b [ch_l] _ E) as E1. cbn [length] in E1. rewrite (list_chain l f s s' _ rest Hl Hf E1). cbn [obind negb].
  apply rem_app in E1. rewrite (deref_rem _ _ _ E1). cbn [obind]. rewrite Z.eqb_refl. cbn [negb]. rewrite !advance_advance. do 2 f_equal. lia.
Qed.
End ListChain.
