(* ===== verification/Text.v ===== *)
(** * Strings ([llarp/util/str.cpp], [str.hpp])

    Strings and string views are lists of bytes.  The searches of [std::string] that
    the sources use are written out; [None] is [npos]. *)

From S2P Require Import Prelude.
Open Scope Z_scope.

(** ** Searches of the standard library *)

Definition starts_with (s p : list Z) : bool := bool_decide (take (length p) s = p).
Definition ends_with (s p : list Z) : bool := bool_decide (length p <= length s)%nat && bool_decide (drop (length s - length p) s = p).
(** [s.find(t)] and [s.rfind(t)] *)
Fixpoint str_find (s t : list Z) : option nat :=
  if starts_with s t then Some 0%nat else match s with [] => None | _ :: s => S <$> str_find s t end.
Fixpoint str_rfind (s t : list Z) : option nat :=
  match s with
  | [] => if starts_with [] t then Some 0%nat else None
  | c :: r => match str_rfind r t with Some n => Some (S n) | None => if starts_with s t then Some 0%nat else None end
  end.
(** [s.rfind(t, pos)] *)
Definition str_rfind_at (s t : list Z) (pos : nat) : option nat := str_rfind (take (pos + length t) s) t.
(** [s.find(t, pos)] *)
Definition str_find_at (s t : list Z) (pos : nat) : option nat :=
  if bool_decide (length s < pos)%nat then None else (fun n => pos + n)%nat <$> str_find (drop pos s) t.
(** [s.find_first_of(l)], [s.find_first_not_of(l)] and [s.find_last_not_of(l)] *)
Definition find_first_of (s l : list Z) : option nat := fst <$> list_find (fun c => c ∈ l) s.
Definition find_first_not_of (s l : list Z) : option nat := fst <$> list_find (fun c => c ∉ l) s.
Definition find_last_not_of (s l : list Z) : option nat := (fun x => length s - S x.1)%nat <$> list_find (fun c => c ∉ l) (reverse s).

(** ** Trimming and cases *)

Definition whitespace : list Z := [32; 9; 10; 13; 12; 11].
Definition TrimWhitespace (str : list Z) : list Z :=
  match find_first_not_of str whitespace with
  | None => []
  | Some begin =>
      let str := drop begin str in
      match find_last_not_of str whitespace with
      | Some last => take (S last) str
      | None => str
      end
  end.
Definition trim (s : list Z) : list Z :=
  let simple_whitespace := [32; 9; 13; 10] in
  match find_first_not_of s simple_whitespace with
  | None => []
  | Some pos =>
      let s := drop pos s in
      match find_last_not_of s simple_whitespace with Some pos => take (S pos) s | None => s end
  end.
(** [std::tolower] of the C locale *)
Definition tolower (c : Z) : Z := if (65 <=? c) && (c <=? 90) then c + 32 else c.
Definition lowercase_ascii_string (src : list Z) : list Z := tolower <$> src.
Fixpoint CaselessLessThan (lhs rhs : list Z) : bool :=
  match lhs, rhs with
  | l :: lhs, r :: rhs => if tolower l <? tolower r then true else if tolower r <? tolower l then false else CaselessLessThan lhs rhs
  | [], [] => false
  | [], _ :: _ => true
  | _ :: _, [] => false
  end.
Definition same_caseless (a b : list Z) : bool := negb (CaselessLessThan a b) && negb (CaselessLessThan b a).
(** no, false, 0, off; yes, true, 1, on *)
Definition IsFalseValue (str : list Z) : bool := existsb (same_caseless str) [[110; 111]; [102; 97; 108; 115; 101]; [48]; [111; 102; 102]].
Definition IsTrueValue (str : list Z) : bool := existsb (same_caseless str) [[121; 101; 115]; [116; 114; 117; 101]; [49]; [111; 110]].

(** ** Splitting *)

(** The pieces at the end that are empty go. *)
Fixpoint drop_empty (l : list (list Z)) : list (list Z) := match l with [] :: l => drop_empty l | _ => l end.
Fixpoint split_loop (fuel : nat) (str delim : list Z) (trim : bool) (results : list (list Z)) : outcome (list (list Z)) :=
  match fuel with
  | O => Timeout
  | S fuel =>
      match str_find str delim with
      | Some pos =>
          let results := if negb trim || negb (bool_decide (results = [])) || bool_decide (0 < pos)%nat then results ++ [take pos str] else results in
          split_loop fuel (drop (pos + length delim) str) delim trim results
      | None => Done (if negb trim || negb (bool_decide (str = [])) then results ++ [str] else reverse (drop_empty (reverse results)))
      end
  end.
Definition split (str delim : list Z) (trim : bool) : outcome (list (list Z)) :=
  if bool_decide (delim = []) then Done ((fun c => [c]) <$> str) else split_loop (S (length str)) str delim trim [].
Fixpoint split_any_loop (fuel : nat) (str delims : list Z) (trim : bool) (results : list (list Z)) : outcome (list (list Z)) :=
  match fuel with
  | O => Timeout
  | S fuel =>
      match find_first_of str delims with
      | Some pos =>
          let results := if negb trim || negb (bool_decide (results = [])) || bool_decide (0 < pos)%nat then results ++ [take pos str] else results in
          let str := match find_first_not_of (drop (S pos) str) delims with None => [] | Some until => drop (S pos + until) str end in
          split_any_loop fuel str delims trim results
      | None => Done (if negb trim || negb (bool_decide (str = [])) then results ++ [str] else reverse (drop_empty (reverse results)))
      end
  end.
Definition split_any (str delims : list Z) (trim : bool) : outcome (list (list Z)) :=
  if bool_decide (delims = []) then split str delims trim else split_any_loop (S (length str)) str delims trim [].

(** ** Numbers *)

Definition digit_of (c : Z) : option Z := if (48 <=? c) && (c <=? 57) then Some (c - 48) else None.
Fixpoint digits_of (s : list Z) : list Z * list Z :=
  match s with
  | c :: r => match digit_of c with Some d => let '(ds, r) := digits_of r in (d :: ds, r) | None => ([], s) end
  | [] => ([], [])
  end.
Definition decimal (ds : list Z) : Z := foldl (fun v d => 10 * v + d) 0 ds.
(** [parse_int] of an unsigned type of [w] bits: [std::from_chars] takes the longest run
    of digits and fails when there is none or the number does not fit. *)
Definition parse_uint (w : Z) (str : list Z) : option Z :=
  let '(ds, rest) := digits_of str in
  if bool_decide (ds = []) then None
  else if 2 ^ w <=? decimal ds then None
  else if bool_decide (rest = []) then Some (decimal ds) else None.

(** ** Splitting at a character *)

Fixpoint join (c : Z) (l : list (list Z)) : list Z :=
  match l with
  | [] => []
  | [x] => x
  | x :: l => x ++ c :: join c l
  end.
Lemma join_cons c x l : l <> [] -> join c (x :: l) = x ++ c :: join c l.
Proof. by destruct l. Qed.
Lemma starts_with_char c d s : starts_with (d :: s) [c] = bool_decide (d = c).
Proof. unfold starts_with. cbn. apply bool_decide_ext. split; [by intros [=]|by intros ->]. Qed.
Lemma str_find_char c a b : c ∉ a -> str_find (a ++ c :: b) [c] = Some (length a).
Proof.
  induction a as [|d a IH]; intros N; cbn [app str_find]; rewrite starts_with_char.
  - by rewrite bool_decide_eq_true_2.
  - rewrite bool_decide_eq_false_2, IH by set_solver. done.
Qed.
Lemma str_find_char_None c s : c ∉ s -> str_find s [c] = None.
Proof.
  induction s as [|d s IH]; intros N; cbn [str_find]; [done|]. rewrite starts_with_char, bool_decide_eq_false_2, IH by set_solver. done.
Qed.
Lemma split_loop_join c fuel l res : l <> [] -> Forall (fun x => c ∉ x) l -> (length (join c l) < fuel)%nat ->
  split_loop fuel (join c l) [c] false res = Done (res ++ l).
Proof.
  revert l res. induction fuel as [|fuel IH]; intros l res Nl F Hf; [lia|]. destruct l as [|x l]; [done|]. apply Forall_cons in F as [Fx F].
  cbn [split_loop]. destruct (decide (l = [])) as [->|N].
  - cbn [join]. by rewrite str_find_char_None.
  - rewrite join_cons in * by done. rewrite str_find_char by done. cbn [negb orb].
    rewrite take_app_length, drop_app_ge by lia. replace (length x + length [c] - length x)%nat with 1%nat by (cbn; lia). cbn [drop].
    rewrite drop_0, IH; [by rewrite <- app_assoc|done|done|]. rewrite length_app in Hf. cbn in Hf. lia.
Qed.
Lemma split_char c l : l <> [] -> Forall (fun x => c ∉ x) l -> split (join c l) [c] false = Done l.
Proof. intros N F. unfold split. rewrite bool_decide_eq_false_2 by done. apply (split_loop_join c _ l []); [done|done|lia]. Qed.
(** Every string is the join of pieces without the character. *)
Lemma pieces c s : exists l, l <> [] /\ Forall (fun x => c ∉ x) l /\ s = join c l.
Proof.
  induction s as [|d s (l & N & F & ->)]; [exists [[]]; split; [done|]; split; [|done]; constructor; [set_solver|constructor]|].
  destruct l as [|x l]; [done|]. apply Forall_cons in F as [Fx F]. destruct (decide (d = c)) as [->|Nd].
  - exists ([] :: x :: l). split; [done|]. split; [|done]. repeat constructor; [set_solver|done|done].
  - exists ((d :: x) :: l). split; [done|]. split; [constructor; [set_solver|done]|]. by destruct l.
Qed.

(** Splitting at a character is the inverse of joining: [split] always returns, its
    pieces are without the character, and they are the only such pieces that make up
    the string. *)
Theorem split_inverts_join c s l :
  split s [c] false = Done l <-> l <> [] /\ Forall (fun x => c ∉ x) l /\ s = join c l.
Proof.
  split.
  - intros E. destruct (pieces c s) as (l' & N & F & ->). rewrite split_char in E by done. by injection E as <-.
  - intros (N & F & ->). by apply split_char.
Qed.
