(* ===== verification/Uint128.v ===== *)
(** * 128-bit integers, bit counts and netmasks

    [llarp/net/uint128.hpp], [llarp/util/bits.hpp], [llarp/net/net_bits.hpp]
    and the address conversions of [llarp/net/ip.hpp].  A [uint128_t] is a pair
    of 64-bit halves; [value] is the integer it stands for, and the theorems
    relate each operator to arithmetic modulo [2^128]. *)

From S2P Require Import Prelude.
Local Open Scope Z_scope.

Record uint128_t := U128 { upper : Z; lower : Z }.

#[export] Instance uint128_eq_dec : EqDecision uint128_t.
Proof. solve_decision. Defined.

(** The one-argument constructor. *)
Definition of_u64 (l : Z) : uint128_t := U128 0 l.

Definition and128 (a b : uint128_t) : uint128_t :=
  U128 (Z.land (upper a) (upper b)) (Z.land (lower a) (lower b)).
Definition or128 (a b : uint128_t) : uint128_t :=
  U128 (Z.lor (upper a) (upper b)) (Z.lor (lower a) (lower b)).
Definition xor128 (a b : uint128_t) : uint128_t :=
  U128 (Z.lxor (upper a) (upper b)) (Z.lxor (lower a) (lower b)).
Definition not128 (a : uint128_t) : uint128_t :=
  U128 (u64 (Z.lnot (upper a))) (u64 (Z.lnot (lower a))).

Definition bool128 (a : uint128_t) : bool := negb (lower a =? 0) || negb (upper a =? 0).
Definition to_u8 (a : uint128_t) : Z := u8 (lower a).
Definition to_u16 (a : uint128_t) : Z := u16 (lower a).
Definition to_u32 (a : uint128_t) : Z := u32 (lower a).
Definition to_u64 (a : uint128_t) : Z := lower a.

Definition eq128 (a b : uint128_t) : bool := (lower a =? lower b) && (upper a =? upper b).
Definition ne128 (a b : uint128_t) : bool :=
  negb (lower a =? lower b) || negb (upper a =? upper b).

(** [std::tie(upper, lower) < std::tie(b.upper, b.lower)] *)
Definition lt128 (a b : uint128_t) : bool :=
  (upper a <? upper b) || (negb (upper b <? upper a) && (lower a <? lower b)).
Definition le128 (a b : uint128_t) : bool := negb (lt128 b a).
Definition gt128 (a b : uint128_t) : bool := lt128 b a.
Definition ge128 (a b : uint128_t) : bool := negb (lt128 a b).

Definition incr128 (a : uint128_t) : uint128_t :=
  let l := u64 (lower a + 1) in
  if l =? 0 then U128 (u64 (upper a + 1)) l else U128 (upper a) l.

Definition add128 (a b : uint128_t) : uint128_t :=
  let l := u64 (lower a + lower b) in
  let up := if l <? lower b then u64 (upper a + 1) else upper a in
  U128 (u64 (up + upper b)) l.

Definition sub128 (a b : uint128_t) : uint128_t :=
  let up := if lower a <? lower b then u64 (upper a - 1) else upper a in
  U128 (u64 (up - upper b)) (u64 (lower a - lower b)).

Definition shl128 (a : uint128_t) (shift : Z) : uint128_t :=
  if shift =? 0 then a
  else if shift <? 64 then
    U128 (Z.lor (u64 (Z.shiftl (upper a) shift)) (Z.shiftr (lower a) (64 - shift)))
      (u64 (Z.shiftl (lower a) shift))
  else if shift =? 64 then U128 (lower a) 0
  else if shift <? 128 then U128 (u64 (Z.shiftl (lower a) (shift - 64))) 0
  else U128 0 0.

Definition shr128 (a : uint128_t) (shift : Z) : uint128_t :=
  if shift =? 0 then a
  else if shift <? 64 then
    U128 (Z.shiftr (upper a) shift)
      (Z.lor (Z.shiftr (lower a) shift) (u64 (Z.shiftl (upper a) (64 - shift))))
  else if shift =? 64 then U128 0 (upper a)
  else if shift <? 128 then U128 0 (Z.shiftr (upper a) (shift - 64))
  else U128 0 0.

(** ** Bit counts *)

Fixpoint popcount (n : nat) (v : Z) : Z :=
  match n with
  | O => 0
  | S m => Z.b2z (Z.testbit v (Z.of_nat m)) + popcount m v
  end.

(** [std::bitset<digits>(i).count()] *)
Definition count_bits (digits : nat) (i : Z) : Z := popcount digits i.
Definition count_bits_128 (i : uint128_t) : Z := count_bits 64 (upper i) + count_bits 64 (lower i).
Definition count_array_bits (digits : nat) (l : list Z) : Z :=
  fold_left (fun acc v => acc + count_bits digits v) l 0.

(** ** Netmasks

    The recursions of [net_bits.hpp], with [uint32_t] arithmetic: the bit
    number runs up to the width, so [width + 1] calls are enough whenever the
    argument is at most the width ([netmask_ipv6_bits_spec]); a larger argument
    wraps around and recurses [2^32] deep. *)

(** [huint_t::operator<<(int)]: a negative count becomes a huge [uint64_t]. *)
Definition hshl128 (a : uint128_t) (n : Z) : uint128_t := shl128 a (u64 n).

Fixpoint netmask_ipv6_rec (fuel : nat) (numset : Z) : outcome uint128_t :=
  match fuel with
  | O => Timeout
  | S f =>
      if u32 (128 - numset) =? 0 then Done (of_u64 0)
      else
        let! r := netmask_ipv6_rec f (u32 (numset + 1)) in
        Done (or128 (hshl128 (of_u64 1) numset) r)
  end.

Definition netmask_ipv6_bits (numset : Z) : outcome uint128_t :=
  netmask_ipv6_rec 129 (u32 (128 - numset)).

Fixpoint netmask_ipv4_rec (fuel : nat) (numset : Z) : outcome Z :=
  match fuel with
  | O => Timeout
  | S f =>
      if u32 (32 - numset) =? 0 then Done 0
      else
        let! r := netmask_ipv4_rec f (u32 (numset + 1)) in
        Done (Z.lor (u32 (Z.shiftl 1 numset)) r)
  end.

Definition netmask_ipv4_bits (num : Z) : outcome Z := netmask_ipv4_rec 33 (u32 (32 - num)).

Definition ipaddr_ipv4_bits (a b c d : Z) : Z :=
  Z.lor (Z.lor (Z.lor d (u32 (Z.shiftl c 8))) (u32 (Z.shiftl b 16))) (u32 (Z.shiftl a 24)).

(** ** IPv4 inside IPv6 *)

Definition ExpandV4 (x : Z) : uint128_t := or128 (of_u64 0x0000ffff00000000) (of_u64 x).
Definition ExpandV4Lan (x : Z) : uint128_t := or128 (U128 0xfd00000000000000 0) (of_u64 x).
Definition TruncateV6 (x : uint128_t) : Z := to_u32 (and128 x (of_u64 0x00000000ffffffff)).

(** ** Values *)

Definition value (a : uint128_t) : Z := upper a * 2 ^ 64 + lower a.
Definition wf128 (a : uint128_t) : Prop := in_width 64 (upper a) /\ in_width 64 (lower a).

Lemma value_range a : wf128 a -> in_width 128 (value a).
Proof. unfold wf128, in_width, value. lia. Qed.

Lemma value_inj a b : wf128 a -> wf128 b -> value a = value b -> a = b.
Proof.
  destruct a, b. unfold wf128, in_width, value. cbn. intros [??] [??] E.
  f_equal; lia.
Qed.

Lemma wrap_testbit w v i : 0 <= w -> 0 <= i ->
  Z.testbit (wrap w v) i = (i <? w) && Z.testbit v i.
Proof.
  intros. unfold wrap. destruct (Z.ltb_spec i w).
  - by rewrite Z.mod_pow2_bits_low.
  - by rewrite Z.mod_pow2_bits_high.
Qed.

Lemma width_testbit w v i : in_width w v -> 0 <= w -> w <= i -> Z.testbit v i = false.
Proof.
  intros Hv Hw Hi. rewrite <- (wrap_small w v Hv), wrap_testbit by lia.
  by rewrite (proj2 (Z.ltb_ge i w)).
Qed.

Lemma in_width_bits w v : 0 <= w -> 0 <= v ->
  (forall i, w <= i -> Z.testbit v i = false) -> in_width w v.
Proof.
  intros Hw Hv Hb. assert (wrap w v = v) as <-; [|by apply wrap_range].
  apply Z.bits_inj'. intros i Hi. rewrite wrap_testbit by lia.
  destruct (Z.ltb_spec i w); [done|]. by rewrite Hb.
Qed.

Lemma value_testbit a i : wf128 a -> 0 <= i ->
  Z.testbit (value a) i
  = if i <? 64 then Z.testbit (lower a) i else Z.testbit (upper a) (i - 64).
Proof.
  intros [Hu Hl] Hi. unfold value.
  destruct (Z.ltb_spec i 64).
  - rewrite <- (Z.mod_pow2_bits_low _ 64) by lia.
    rewrite Z.add_comm, Z.mod_add by lia. by rewrite Z.mod_small.
  - replace i with (i - 64 + 64) at 1 by lia. rewrite <- Z.div_pow2_bits by lia.
    rewrite Z.div_add_l, Z.div_small, Z.add_0_r by (unfold in_width in Hl; lia). done.
Qed.

Lemma land_width w a b : 0 <= w -> in_width w a -> in_width w b -> in_width w (Z.land a b).
Proof.
  intros Hw Ha Hb. apply in_width_bits; [done|apply Z.land_nonneg; left; apply Ha|].
  intros i Hi. by rewrite Z.land_spec, (width_testbit w a).
Qed.

Lemma lor_width w a b : 0 <= w -> in_width w a -> in_width w b -> in_width w (Z.lor a b).
Proof.
  intros Hw Ha Hb. apply in_width_bits; [done|apply Z.lor_nonneg; split; [apply Ha|apply Hb]|].
  intros i Hi. by rewrite Z.lor_spec, (width_testbit w a), (width_testbit w b).
Qed.

Lemma lxor_width w a b : 0 <= w -> in_width w a -> in_width w b -> in_width w (Z.lxor a b).
Proof.
  intros Hw Ha Hb. apply in_width_bits; [done|apply Z.lxor_nonneg; split; intros; [apply Hb|apply Ha]|].
  intros i Hi. by rewrite Z.lxor_spec, (width_testbit w a), (width_testbit w b).
Qed.

Lemma shiftr_width w a n : 0 <= w -> 0 <= n -> in_width w a -> in_width w (Z.shiftr a n).
Proof.
  intros Hw Hn Ha. apply in_width_bits; [done|apply Z.shiftr_nonneg, Ha|].
  intros i Hi. rewrite Z.shiftr_spec by lia. apply (width_testbit w); [done..|lia].
Qed.

#[export] Hint Resolve land_width lor_width lxor_width shiftr_width : belnet.

Lemma wrap64_width v : in_width 64 (u64 v).
Proof. by apply wrap_range. Qed.
#[export] Hint Resolve wrap64_width : belnet.

Lemma zero_width : in_width 64 0.
Proof. done. Qed.
#[export] Hint Resolve zero_width : belnet.

(** Every operator yields halves of 64 bits. *)
Ltac halves := split; cbn; repeat case_match; auto with belnet lia.

Lemma and128_wf a b : wf128 a -> wf128 b -> wf128 (and128 a b).
Proof. intros [??] [??]. halves. Qed.
Lemma or128_wf a b : wf128 a -> wf128 b -> wf128 (or128 a b).
Proof. intros [??] [??]. halves. Qed.
Lemma xor128_wf a b : wf128 a -> wf128 b -> wf128 (xor128 a b).
Proof. intros [??] [??]. halves. Qed.
Lemma not128_wf a : wf128 (not128 a).
Proof. halves. Qed.
Lemma add128_wf a b : wf128 (add128 a b).
Proof. halves. Qed.
Lemma sub128_wf a b : wf128 (sub128 a b).
Proof. halves. Qed.
Lemma incr128_wf a : wf128 a -> wf128 (incr128 a).
Proof. intros [??]. unfold incr128. case_match; halves. Qed.
Lemma shl128_wf a n : wf128 a -> 0 <= n -> wf128 (shl128 a n).
Proof.
  intros [??] ?. unfold shl128. destruct (Z.eqb_spec n 0); [done|].
  destruct (Z.ltb_spec n 64); [split; cbn; auto with belnet lia|]. repeat case_match; halves.
Qed.
Lemma shr128_wf a n : wf128 a -> 0 <= n -> wf128 (shr128 a n).
Proof.
  intros [??] ?. unfold shr128. destruct (Z.eqb_spec n 0); [done|].
  destruct (Z.ltb_spec n 64); [split; cbn; auto with belnet lia|].
  destruct (Z.eqb_spec n 64); [halves|]. destruct (Z.ltb_spec n 128); split; cbn; auto with belnet.
  apply shiftr_width; [lia..|done].
Qed.
#[export] Hint Resolve and128_wf or128_wf xor128_wf not128_wf add128_wf sub128_wf incr128_wf
  shl128_wf shr128_wf : belnet.

Lemma of_u64_wf l : in_width 64 l -> wf128 (of_u64 l).
Proof. by split. Qed.
#[export] Hint Resolve of_u64_wf : belnet.

(** ** The operators on values *)

Lemma and128_value a b : wf128 a -> wf128 b -> value (and128 a b) = Z.land (value a) (value b).
Proof.
  intros Ha Hb. apply Z.bits_inj'. intros i Hi.
  rewrite Z.land_spec, !value_testbit by auto with belnet.
  case_match; cbn; by rewrite Z.land_spec.
Qed.

Lemma or128_value a b : wf128 a -> wf128 b -> value (or128 a b) = Z.lor (value a) (value b).
Proof.
  intros Ha Hb. apply Z.bits_inj'. intros i Hi.
  rewrite Z.lor_spec, !value_testbit by auto with belnet.
  case_match; cbn; by rewrite Z.lor_spec.
Qed.

Lemma xor128_value a b : wf128 a -> wf128 b -> value (xor128 a b) = Z.lxor (value a) (value b).
Proof.
  intros Ha Hb. apply Z.bits_inj'. intros i Hi.
  rewrite Z.lxor_spec, !value_testbit by auto with belnet.
  case_match; cbn; by rewrite Z.lxor_spec.
Qed.

Lemma wrap_eq w v q r : 0 <= w -> in_width w r -> v = 2 ^ w * q + r -> wrap w v = r.
Proof. intros Hw Hr ->. symmetry. apply (Z.mod_unique _ _ q); [left; apply Hr|done]. Qed.

Lemma not128_value a : wf128 a -> value (not128 a) = 2 ^ 128 - 1 - value a.
Proof.
  unfold wf128, value, not128. intros [Hu Hl]. cbn [upper lower]. unfold Z.lnot, in_width in *.
  rewrite (wrap_eq 64 _ (-1) (2 ^ 64 - 1 - upper a)) by (unfold in_width; lia).
  rewrite (wrap_eq 64 _ (-1) (2 ^ 64 - 1 - lower a)) by (unfold in_width; lia). lia.
Qed.

(** A 64-bit sum or difference with its carry. *)
Lemma u64_add_carry x y : in_width 64 x -> in_width 64 y ->
  u64 (x + y) = x + y - (if u64 (x + y) <? y then 2 ^ 64 else 0).
Proof.
  unfold in_width. intros Hx Hy. destruct (decide (x + y < 2 ^ 64)).
  - rewrite (wrap_eq 64 (x + y) 0 (x + y)) by (unfold in_width; lia). case_match; lia.
  - rewrite (wrap_eq 64 (x + y) 1 (x + y - 2 ^ 64)) by (unfold in_width; lia). case_match; lia.
Qed.

Lemma u64_sub_borrow x y : in_width 64 x -> in_width 64 y ->
  u64 (x - y) = x - y + (if x <? y then 2 ^ 64 else 0).
Proof.
  unfold in_width. intros Hx Hy. case_match.
  - apply (wrap_eq 64 _ (-1)); unfold in_width; lia.
  - apply (wrap_eq 64 _ 0); unfold in_width; lia.
Qed.

Lemma u64_div x : u64 x = x - 2 ^ 64 * (x / 2 ^ 64).
Proof. unfold wrap. rewrite Z.mod_eq by lia. done. Qed.

Lemma value_eq a v q : wf128 a -> v = 2 ^ 128 * q + value a -> value a = wrap 128 v.
Proof. intros Ha E. symmetry. apply (wrap_eq 128 _ q); [lia|by apply value_range|done]. Qed.

Lemma add128_value a b : wf128 a -> wf128 b -> value (add128 a b) = wrap 128 (value a + value b).
Proof.
  intros [Hu Hl] [Hu' Hl']. pose proof (u64_add_carry _ _ Hl Hl') as E.
  pose proof (add128_wf a b) as Hw. revert Hw. unfold add128. destruct (_ <? lower b); intros Hw.
  - apply (value_eq _ _ ((upper a + 1) / 2 ^ 64 + (u64 (upper a + 1) + upper b) / 2 ^ 64)); [done|].
    unfold value. cbn [upper lower]. rewrite E, (u64_div (_ + upper b)), (u64_div (upper a + 1)). lia.
  - apply (value_eq _ _ ((upper a + upper b) / 2 ^ 64)); [done|].
    unfold value. cbn [upper lower]. rewrite E, (u64_div (_ + upper b)). lia.
Qed.

Lemma sub128_value a b : wf128 a -> wf128 b -> value (sub128 a b) = wrap 128 (value a - value b).
Proof.
  intros [Hu Hl] [Hu' Hl']. pose proof (u64_sub_borrow _ _ Hl Hl') as E.
  pose proof (sub128_wf a b) as Hw. revert Hw. unfold sub128.
  destruct (lower a <? lower b); intros Hw.
  - apply (value_eq _ _ ((upper a - 1) / 2 ^ 64 + (u64 (upper a - 1) - upper b) / 2 ^ 64)); [done|].
    unfold value. cbn [upper lower]. rewrite E, (u64_div (_ - upper b)), (u64_div (upper a - 1)). lia.
  - apply (value_eq _ _ ((upper a - upper b) / 2 ^ 64)); [done|].
    unfold value. cbn [upper lower]. rewrite E, (u64_div (_ - upper b)). lia.
Qed.

Lemma incr128_value a : wf128 a -> value (incr128 a) = wrap 128 (value a + 1).
Proof.
  intros Ha. pose proof (incr128_wf a Ha) as Hw. destruct Ha as [Hu Hl]. revert Hw.
  unfold incr128. destruct (Z.eqb_spec (u64 (lower a + 1)) 0) as [E|E]; intros Hw.
  - apply (value_eq _ _ ((upper a + 1) / 2 ^ 64)); [done|]. unfold value. cbn [upper lower].
    rewrite E, u64_div. assert (lower a = 2 ^ 64 - 1); [|lia].
    destruct (decide (lower a + 1 < 2 ^ 64)); [|unfold in_width in Hl; lia].
    rewrite wrap_small in E; unfold in_width in *; lia.
  - apply (value_eq _ _ 0); [done|]. unfold value. cbn [upper lower].
    assert (lower a + 1 < 2 ^ 64); [|rewrite wrap_small; unfold in_width in *; lia].
    destruct (decide (lower a + 1 = 2 ^ 64)) as [E'|]; [by rewrite E' in E|unfold in_width in Hl; lia].
Qed.

Lemma lt128_value a b : wf128 a -> wf128 b -> lt128 a b = (value a <? value b).
Proof.
  unfold wf128, in_width, lt128, value. intros [??] [??].
  destruct (Z.ltb_spec (upper a) (upper b)), (Z.ltb_spec (upper b) (upper a)),
    (Z.ltb_spec (lower a) (lower b)); cbn; symmetry; rewrite ?Z.ltb_lt, ?Z.ltb_ge; lia.
Qed.

Lemma eq128_value a b : wf128 a -> wf128 b -> eq128 a b = (value a =? value b).
Proof.
  unfold wf128, in_width, eq128, value. intros [??] [??].
  destruct (Z.eqb_spec (lower a) (lower b)), (Z.eqb_spec (upper a) (upper b)); cbn; symmetry;
    rewrite ?Z.eqb_eq, ?Z.eqb_neq; lia.
Qed.

(** Rewrite the bits of shifted, reduced and combined words. *)
Ltac bits_norm := repeat first
  [ rewrite Z.lor_spec | rewrite wrap_testbit by lia | rewrite Z.shiftl_spec by lia
  | rewrite Z.shiftr_spec by lia | rewrite Z.bits_0 ].

Lemma width_bit v i : in_width 64 v -> Z.testbit v i = (0 <=? i) && (i <? 64) && Z.testbit v i.
Proof.
  intros Hv. destruct (Z.leb_spec 0 i); cbn; [|by apply Z.testbit_neg_r].
  destruct (Z.ltb_spec i 64); cbn; [done|]. by apply (width_testbit 64).
Qed.

(** Decide the comparisons of a goal on bit numbers. *)
Ltac split_ranges := repeat match goal with
  | |- context [?x <? ?y] => destruct (Z.ltb_spec x y)
  | |- context [?x <=? ?y] => destruct (Z.leb_spec x y)
  end; cbn [andb orb]; rewrite ?andb_false_r, ?orb_false_r; try reflexivity; try lia.

Lemma shl128_value a n : wf128 a -> 0 <= n -> value (shl128 a n) = wrap 128 (Z.shiftl (value a) n).
Proof.
  intros Ha Hn. apply Z.bits_inj'. intros i Hi.
  rewrite wrap_testbit, Z.shiftl_spec, (value_testbit (shl128 a n)) by auto with belnet lia.
  assert (Z.testbit (value a) (i - n) = if i - n <? 64 then Z.testbit (lower a) (i - n)
    else Z.testbit (upper a) (i - n - 64)) as ->.
  { destruct (Z.ltb_spec (i - n) 0); [|by apply value_testbit].
    rewrite (proj2 (Z.ltb_lt (i - n) 64)) by lia. by rewrite !Z.testbit_neg_r by lia. }
  destruct Ha as [Hu Hl]. rewrite (width_bit (lower a) (i - n)), (width_bit (upper a) (i - n - 64)) by done.
  unfold shl128. destruct (Z.eqb_spec n 0) as [->|].
  { rewrite Z.sub_0_r. split_ranges. by apply (width_testbit 64). }
  destruct (Z.ltb_spec n 64); [|destruct (Z.eqb_spec n 64) as [->|];
    [|destruct (Z.ltb_spec n 128)]]; cbn [upper lower].
  - destruct (Z.ltb_spec i 64); bits_norm.
    + rewrite (width_bit (lower a) (i - n)) by done. split_ranges.
    + rewrite (width_bit (upper a) (i - 64 - n)), (width_bit (lower a) (i - 64 + (64 - n))) by done.
      replace (i - 64 + (64 - n)) with (i - n) by lia. replace (i - 64 - n) with (i - n - 64) by lia.
      split_ranges.
  - destruct (Z.ltb_spec i 64); bits_norm; [split_ranges|].
    rewrite (width_bit (lower a) (i - 64)) by done. split_ranges.
  - destruct (Z.ltb_spec i 64); bits_norm; [split_ranges|].
    rewrite (width_bit (lower a) _) by done. replace (i - 64 - (n - 64)) with (i - n) by lia.
    split_ranges.
  - destruct (Z.ltb_spec i 64); bits_norm; split_ranges.
Qed.

Lemma shr128_value a n : wf128 a -> 0 <= n -> value (shr128 a n) = Z.shiftr (value a) n.
Proof.
  intros Ha Hn. apply Z.bits_inj'. intros i Hi.
  rewrite Z.shiftr_spec, !value_testbit by auto with belnet lia.
  destruct Ha as [Hu Hl].
  rewrite (width_bit (lower a) (i + n)), (width_bit (upper a) (i + n - 64)) by done.
  unfold shr128. destruct (Z.eqb_spec n 0) as [->|].
  { rewrite Z.add_0_r. split_ranges. by apply (width_testbit 64). }
  destruct (Z.ltb_spec n 64); [|destruct (Z.eqb_spec n 64) as [->|];
    [|destruct (Z.ltb_spec n 128)]]; cbn [upper lower].
  - destruct (Z.ltb_spec i 64); bits_norm.
    + rewrite (width_bit (lower a) (i + n)), (width_bit (upper a) (i - (64 - n))) by done.
      replace (i - (64 - n)) with (i + n - 64) by lia. split_ranges.
    + rewrite (width_bit (upper a) _) by done. replace (i - 64 + n) with (i + n - 64) by lia.
      split_ranges.
  - replace (i + 64 - 64) with i by lia. destruct (Z.ltb_spec i 64); bits_norm; split_ranges.
  - destruct (Z.ltb_spec i 64); bits_norm; [|split_ranges].
    rewrite (width_bit (upper a) _) by done. replace (i + (n - 64)) with (i + n - 64) by lia.
    split_ranges.
  - destruct (Z.ltb_spec i 64); bits_norm; split_ranges.
Qed.

(** ** Prefix masks

    [prefix_mask k] is the 128-bit mask whose [k] low bits are clear. *)
Definition prefix_mask (k : Z) : Z := 2 ^ 128 - 2 ^ k.

Lemma prefix_mask_shiftl k : 0 <= k <= 128 -> prefix_mask k = Z.shiftl (Z.ones (128 - k)) k.
Proof.
  intros. unfold prefix_mask. rewrite Z.shiftl_mul_pow2, Z.ones_equiv by lia.
  replace 128 with ((128 - k) + k) at 1 by lia. rewrite Z.pow_add_r by lia. lia.
Qed.

Lemma prefix_mask_testbit k i : 0 <= k <= 128 -> 0 <= i ->
  Z.testbit (prefix_mask k) i = (k <=? i) && (i <? 128).
Proof.
  intros. rewrite prefix_mask_shiftl, Z.shiftl_spec by lia.
  destruct (Z.leb_spec k i), (Z.ltb_spec i 128); cbn.
  - by rewrite Z.ones_spec_low by lia.
  - by rewrite Z.ones_spec_high by lia.
  - by rewrite Z.testbit_neg_r by lia.
  - by rewrite Z.testbit_neg_r by lia.
Qed.

Lemma land_prefix_mask v k : in_width 128 v -> 0 <= k <= 128 ->
  Z.land v (prefix_mask k) = v / 2 ^ k * 2 ^ k.
Proof.
  intros Hv Hk. rewrite <- Z.shiftr_div_pow2, <- Z.shiftl_mul_pow2 by lia.
  apply Z.bits_inj'. intros i Hi. rewrite Z.land_spec, prefix_mask_testbit, Z.shiftl_spec by lia.
  destruct (Z.leb_spec k i); cbn.
  - rewrite Z.shiftr_spec by lia. replace (i - k + k) with i by lia.
    destruct (Z.ltb_spec i 128); [by rewrite andb_true_r|].
    rewrite (width_testbit 128 v) by (done || lia). done.
  - by rewrite andb_false_r, Z.testbit_neg_r by lia.
Qed.

Lemma lor_disjoint a b : Z.land a b = 0 -> Z.lor a b = a + b.
Proof. intros E. by rewrite Z.add_nocarry_lxor, Z.lxor_lor. Qed.

Lemma prefix_mask_step k : 0 <= k < 128 ->
  Z.lor (2 ^ k) (prefix_mask (k + 1)) = prefix_mask k.
Proof.
  intros Hk. rewrite lor_disjoint.
  - unfold prefix_mask. rewrite Z.pow_add_r by lia. lia.
  - apply Z.bits_inj'. intros i Hi. rewrite Z.land_spec, Z.bits_0, Z.pow2_bits_eqb by lia.
    rewrite prefix_mask_testbit by lia. destruct (Z.eqb_spec k i); [|done].
    by rewrite (proj2 (Z.leb_gt (k + 1) i)) by lia.
Qed.

Lemma one_wf : wf128 (of_u64 1).
Proof. done. Qed.
#[export] Hint Resolve one_wf : belnet.

Lemma hshl_one k : 0 <= k < 128 -> wf128 (hshl128 (of_u64 1) k) /\ value (hshl128 (of_u64 1) k) = 2 ^ k.
Proof.
  intros Hk. unfold hshl128. rewrite (wrap_small 64 k) by (unfold in_width; lia).
  split; [apply shl128_wf; [done|lia]|]. rewrite shl128_value by (done || lia).
  change (value (of_u64 1)) with 1. rewrite Z.shiftl_mul_pow2, Z.mul_1_l by lia.
  apply wrap_small. split; [apply Z.pow_nonneg; lia|apply Z.pow_lt_mono_r; lia].
Qed.

Lemma netmask_ipv6_rec_spec k fuel : forall numset, 0 <= numset <= 128 ->
  k = Z.to_nat (128 - numset) -> (k < fuel)%nat ->
  exists m, netmask_ipv6_rec fuel numset = Done m /\ wf128 m /\ value m = prefix_mask numset.
Proof.
  revert fuel. induction k as [|k IH]; intros fuel numset Hn Ek Hf; (destruct fuel; [lia|]);
    cbn [netmask_ipv6_rec].
  - assert (numset = 128) as -> by lia. exists (of_u64 0). by repeat split.
  - rewrite (wrap_small 32 (128 - numset)) by (unfold in_width; lia).
    rewrite (proj2 (Z.eqb_neq (128 - numset) 0)) by lia.
    rewrite (wrap_small 32 (numset + 1)) by (unfold in_width; lia).
    destruct (IH fuel (numset + 1)) as (m & -> & Hm & Hv); [lia..|].
    cbn [obind]. destruct (hshl_one numset) as [Ho Ho']; [lia|].
    eexists. split; [done|]. split; [auto with belnet|].
    rewrite or128_value, Hv, Ho' by done. apply prefix_mask_step. lia.
Qed.

Lemma netmask_ipv6_bits_spec n : 0 <= n <= 128 ->
  exists m, netmask_ipv6_bits n = Done m /\ wf128 m /\ value m = prefix_mask (128 - n).
Proof.
  intros Hn. unfold netmask_ipv6_bits. rewrite (wrap_small 32 (128 - n)) by (unfold in_width; lia).
  eapply netmask_ipv6_rec_spec; [lia|reflexivity|lia].
Qed.

Lemma popcount_prefix n v k : (forall i, 0 <= i < Z.of_nat n -> Z.testbit v i = (k <=? i)) ->
  popcount n v = Z.max 0 (Z.of_nat n - Z.max 0 k).
Proof.
  induction n as [|n IH]; intros Hv; cbn [popcount]; [lia|].
  rewrite IH, (Hv (Z.of_nat n)) by (intros; try apply Hv; lia).
  destruct (Z.leb_spec k (Z.of_nat n)); cbn [Z.b2z]; lia.
Qed.

Lemma count_bits_prefix m k : wf128 m -> 0 <= k <= 128 -> value m = prefix_mask k ->
  count_bits_128 m = 128 - k.
Proof.
  intros Hm Hk Hv. unfold count_bits_128, count_bits.
  rewrite (popcount_prefix 64 (upper m) (k - 64)), (popcount_prefix 64 (lower m) k); [lia| |].
  - intros i Hi. assert (Z.testbit (value m) i = Z.testbit (lower m) i) as <-.
    { rewrite value_testbit by (done || lia). by rewrite (proj2 (Z.ltb_lt i 64)) by lia. }
    rewrite Hv, prefix_mask_testbit by lia. rewrite (proj2 (Z.ltb_lt i 128)) by lia.
    by rewrite andb_true_r.
  - intros i Hi. assert (Z.testbit (value m) (i + 64) = Z.testbit (upper m) i) as <-.
    { rewrite value_testbit by (done || lia). rewrite (proj2 (Z.ltb_ge (i + 64) 64)) by lia.
      f_equal. lia. }
    rewrite Hv, prefix_mask_testbit by lia. rewrite (proj2 (Z.ltb_lt (i + 64) 128)) by lia.
    rewrite andb_true_r. destruct (Z.leb_spec k (i + 64)), (Z.leb_spec (k - 64) i); lia.
Qed.

(** ** IPv4 addresses *)

Lemma ExpandV4_wf x : in_width 32 x -> wf128 (ExpandV4 x).
Proof.
  intros Hx. apply or128_wf; apply of_u64_wf; [done|]. unfold in_width in *. lia.
Qed.

Lemma ExpandV4_value x : in_width 32 x -> value (ExpandV4 x) = 0xffff00000000 + x.
Proof.
  intros Hx. assert (in_width 64 x) by (unfold in_width in *; lia).
  unfold ExpandV4. rewrite or128_value by (by apply of_u64_wf).
  change (value (of_u64 0x0000ffff00000000)) with (Z.shiftl 0xffff 32).
  change (value (of_u64 x)) with x. rewrite lor_disjoint; [by rewrite Z.shiftl_mul_pow2|].
  apply Z.bits_inj'. intros i Hi. rewrite Z.land_spec, Z.bits_0, Z.shiftl_spec by lia.
  destruct (Z.ltb_spec i 32); [by rewrite Z.testbit_neg_r by lia|].
  by rewrite (width_testbit 32 x), andb_false_r by (done || lia).
Qed.

Lemma TruncateV6_value a : wf128 a -> TruncateV6 a = wrap 32 (value a).
Proof.
  intros Ha. unfold TruncateV6, to_u32. cbn [and128 lower of_u64].
  apply Z.bits_inj'. intros i Hi. rewrite !wrap_testbit, value_testbit by (done || lia).
  destruct (Z.ltb_spec i 32); cbn [andb]; [|done].
  rewrite Z.land_spec, (proj2 (Z.ltb_lt i 64)) by lia.
  change 0xffffffff with (Z.ones 32). by rewrite Z.ones_spec_low, andb_true_r by lia.
Qed.

(** ** Byte order *)

(** [oxenc::big_to_host] and [oxenc::host_to_big] on a little-endian host
    reverse the bytes. *)
Class OxencSwap := { big_to_host : nat -> Z -> Z; host_to_big : nat -> Z -> Z }.
Class OxencSwapSpec `{OxencSwap} : Prop := {
  big_to_host_spec n v : big_to_host n v = be_value (rev (be_bytes n v));
  host_to_big_spec n v : host_to_big n v = be_value (rev (be_bytes n v)) }.

(** The bytes of an [n]-byte integer in little-endian memory. *)
Definition le_bytes (n : nat) (v : Z) : list Z := rev (be_bytes n v).

(** The 16 bytes of a [uint128_t] in memory ([lower] comes first there). *)
Definition memory128 (a : uint128_t) : list Z := le_bytes 8 (lower a) ++ le_bytes 8 (upper a).

Section ByteOrder.
Context `{OxencSwap}.

Definition ntoh128 (i : uint128_t) : uint128_t :=
  let loSwapped := big_to_host 8 (lower i) in
  let hiSwapped := big_to_host 8 (upper i) in
  U128 loSwapped hiSwapped.
Definition hton128 (i : uint128_t) : uint128_t := ntoh128 i.

Definition HUIntToIn6 (x : uint128_t) : list Z := memory128 (ntoh128 x).
End ByteOrder.

Definition In6ToHUInt (addr : list Z) : uint128_t :=
  fold_left (fun x b => or128 (shl128 x 8) (of_u64 b)) (take 16 addr) (of_u64 0).

Lemma lor_low a b k : 0 <= k -> in_width k b -> a mod 2 ^ k = 0 -> Z.lor a b = a + b.
Proof.
  intros Hk Hb Ha. apply lor_disjoint. apply Z.bits_inj'. intros i Hi.
  rewrite Z.land_spec, Z.bits_0. destruct (Z.ltb_spec i k).
  - rewrite <- (Z.mod_pow2_bits_low a k i), Ha, Z.bits_0 by lia. done.
  - by rewrite (width_testbit k b), andb_false_r by (done || lia).
Qed.

Lemma In6ToHUInt_step x b : wf128 x -> is_byte b ->
  wf128 (or128 (shl128 x 8) (of_u64 b))
  /\ value (or128 (shl128 x 8) (of_u64 b)) = wrap 128 (value x * 256 + b).
Proof.
  intros Hx Hb. unfold is_byte in Hb.
  assert (wf128 (of_u64 b)) by (apply of_u64_wf; unfold in_width; lia).
  assert (wf128 (shl128 x 8)) by (apply shl128_wf; [done|lia]).
  split; [by apply or128_wf|]. rewrite or128_value, shl128_value by (done || lia).
  change (value (of_u64 b)) with b. rewrite Z.shiftl_mul_pow2 by lia. change (2 ^ 8) with 256.
  set (v := value x). symmetry.
  assert (wrap 128 (v * 256) mod 2 ^ 8 = 0) as Hm.
  { unfold wrap. rewrite Z.mod_mod_divide by (by exists (2 ^ 120)).
    change (2 ^ 8) with 256. by rewrite Z.mod_mul. }
  rewrite (lor_low _ _ 8) by (done || unfold in_width; lia).
  apply (wrap_eq 128 _ ((v * 256) / 2 ^ 128)); [lia| |unfold wrap; pose proof (Z.div_mod (v * 256) (2 ^ 128)); lia].
  pose proof (wrap_range 128 (v * 256) ltac:(lia)) as Hr. unfold in_width in *.
  split; [lia|]. change (2 ^ 128) with (2 ^ 120 * 2 ^ 8) in *.
  pose proof (Z.div_mod (wrap 128 (v * 256)) (2 ^ 8) ltac:(lia)). lia.
Qed.

Lemma In6ToHUInt_fold l x : wf128 x -> bytes_ok l ->
  value x * 256 ^ Z.of_nat (length l) + be_value l < 2 ^ 128 ->
  let r := fold_left (fun x b => or128 (shl128 x 8) (of_u64 b)) l x in
  wf128 r /\ value r = value x * 256 ^ Z.of_nat (length l) + be_value l.
Proof.
  intros Hx Hl. revert x Hx. induction Hl as [|b l Hb Hl IH]; intros x Hx Hlt.
  { cbn in *. split; [done|lia]. }
  cbn [fold_left]. destruct (In6ToHUInt_step x b Hx Hb) as [Hw Hv].
  pose proof (value_range x Hx) as Hr. pose proof (be_value_range l Hl).
  cbn [length] in *. rewrite be_value_cons, pow256_S in *. pose proof (pow256_pos (length l)).
  unfold in_width, is_byte in *.
  rewrite wrap_small in Hv by (unfold in_width; split; [lia|nia]).
  destruct (IH _ Hw) as [Hw' Hv']; [rewrite Hv; lia|]. split; [done|]. rewrite Hv', Hv. lia.
Qed.

Lemma In6ToHUInt_spec l : length l = 16%nat -> bytes_ok l ->
  wf128 (In6ToHUInt l) /\ value (In6ToHUInt l) = be_value l.
Proof.
  intros Hlen Hl. unfold In6ToHUInt. rewrite take_ge by lia.
  pose proof (be_value_range l Hl) as Hr. rewrite Hlen in Hr.
  destruct (In6ToHUInt_fold l (of_u64 0)) as [Hw Hv]; [done|done|cbn; exact (proj2 Hr)|].
  split; [done|]. by rewrite Hv.
Qed.

Section ByteOrderLemmas.
Context `{OxencSwapSpec}.

Lemma le_bytes_swap n v : le_bytes n (big_to_host n v) = be_bytes n v.
Proof.
  rewrite big_to_host_spec. unfold le_bytes.
  rewrite <- (length_be_bytes n v) at 1. rewrite <- length_rev, be_bytes_be_value.
  - apply rev_involutive.
  - apply Forall_rev, be_bytes_ok.
Qed.

Lemma HUIntToIn6_bytes x : HUIntToIn6 x = be_bytes 8 (upper x) ++ be_bytes 8 (lower x).
Proof. unfold HUIntToIn6, memory128, ntoh128. cbn [lower upper]. by rewrite !le_bytes_swap. Qed.
End ByteOrderLemmas.

(** ** Properties *)



(** IPv6 addresses survive the trip through [in6_addr]: the 16 bytes
    [HUIntToIn6] produces are the address in network order, and
    [In6ToHUInt] reads them back. *)
Theorem in6_roundtrip `{OxencSwapSpec} x : wf128 x ->
  be_value (HUIntToIn6 x) = value x /\ In6ToHUInt (HUIntToIn6 x) = x.
Proof.
  intros Hx. rewrite HUIntToIn6_bytes. pose proof Hx as [Hu Hl]. unfold in_width in *.
  assert (be_value (be_bytes 8 (upper x) ++ be_bytes 8 (lower x)) = value x) as E.
  { rewrite be_value_app, length_be_bytes, !be_value_be_bytes by (cbn; lia). done. }
  split; [done|].
  destruct (In6ToHUInt_spec (be_bytes 8 (upper x) ++ be_bytes 8 (lower x))) as [Hw Hv].
  - by rewrite length_app, !length_be_bytes.
  - apply Forall_app. split; apply be_bytes_ok.
  - apply value_inj; [done..|congruence].
Qed.

#[local] Instance swap_oxenc : OxencSwap := {|
  big_to_host n v := be_value (rev (be_bytes n v)); host_to_big n v := be_value (rev (be_bytes n v)) |}.
#[local] Instance swap_oxenc_spec : OxencSwapSpec.
Proof. by split. Qed.

Lemma in6_roundtrip_witness :
  be_value (HUIntToIn6 (U128 0xfd00000000000000 7)) = value (U128 0xfd00000000000000 7)
  /\ In6ToHUInt (HUIntToIn6 (U128 0xfd00000000000000 7)) = U128 0xfd00000000000000 7.
Proof. apply (in6_roundtrip (U128 0xfd00000000000000 7)). unfold wf128, in_width. cbn. lia. Defined.
