(* ===== verification/IPRange.v ===== *)
(** * Address ranges and the map from ranges to values

    [llarp/net/ip_range.hpp], [llarp/net/ip_range.cpp],
    [llarp/net/ip_range_map.hpp], [llarp/net/bogon_ranges.hpp] and the bogon
    tests of [llarp/net/net.hpp] and [llarp/net/ip_address.cpp]. *)

From S2P Require Import Prelude Uint128.
Local Open Scope Z_scope.

Record IPRange := mkIPRange { addr : uint128_t; netmask_bits : uint128_t }.

#[export] Instance IPRange_eq_dec : EqDecision IPRange.
Proof. solve_decision. Defined.

Definition V4MappedRange : outcome IPRange :=
  let! m := netmask_ipv6_bits 96 in
  Done (mkIPRange (of_u64 0x0000ffff00000000) m).

Definition FromIPv4 (a b c d mask : Z) : outcome IPRange :=
  let! m := netmask_ipv6_bits (mask + 96) in
  Done (mkIPRange (ExpandV4 (ipaddr_ipv4_bits a b c d)) m).

(** [FromIPv4(net::ipv4addr_t, net::ipv4addr_t)], after [ToHost]. *)
Definition FromIPv4Mask (host_addr netmask : Z) : outcome IPRange :=
  let! m := netmask_ipv6_bits (count_bits 32 netmask + 96) in
  Done (mkIPRange (ExpandV4 host_addr) m).

(** [Contains(const Addr_t&)] *)
Definition Contains (r : IPRange) (ip : uint128_t) : bool :=
  eq128 (and128 (addr r) (netmask_bits r)) (and128 ip (netmask_bits r)).

Definition IsV4 (r : IPRange) : outcome bool :=
  let! v4 := V4MappedRange in Done (Contains v4 (addr r)).

Definition HostmaskBits (r : IPRange) : outcome Z :=
  let! v4 := IsV4 r in
  if v4 then Done (count_bits 32 (TruncateV6 (netmask_bits r)))
  else Done (count_bits_128 (netmask_bits r)).

Definition HighestAddr (r : IPRange) : uint128_t :=
  sub128
    (add128 (and128 (addr r) (netmask_bits r))
       (hshl128 (of_u64 1) (128 - count_bits_128 (netmask_bits r))))
    (of_u64 1).

(** [Contains(const IPRange&)] *)
Definition ContainsRange (r other : IPRange) : bool :=
  Contains r (addr other) && Contains r (HighestAddr other).

(** [Contains(const huint32_t&)] *)
Definition ContainsV4 (r : IPRange) (ip : Z) : outcome bool :=
  let! v4 := IsV4 r in
  if negb v4 then Done false else Done (Contains r (ExpandV4 ip)).

(** [operator*] *)
Definition intersects (r other : IPRange) : bool :=
  ContainsRange r other || ContainsRange other r.

(** [operator<] *)
Definition range_lt (r other : IPRange) : bool :=
  let maskedA := and128 (addr r) (netmask_bits r) in
  let maskedB := and128 (addr other) (netmask_bits other) in
  lt128 maskedA maskedB
  || (negb (lt128 maskedB maskedA) && lt128 (netmask_bits r) (netmask_bits other)).

(** [operator==] *)
Definition range_eq (r other : IPRange) : bool :=
  eq128 (addr r) (addr other) && eq128 (netmask_bits r) (netmask_bits other).

(** ** Private ranges *)

Definition good (excluding : list IPRange) (range : IPRange) : bool :=
  forallb (fun ex => negb (intersects ex range)) excluding.

(** One [for] loop of [FindPrivateRange] over the octets still to try. *)
Fixpoint find_octet (excluding : list IPRange) (mk : Z -> outcome IPRange) (octs : list Z)
  : outcome (option IPRange) :=
  match octs with
  | [] => Done None
  | oct :: octs =>
      let! range := mk oct in
      if good excluding range then Done (Some range) else find_octet excluding mk octs
  end.

Definition FindPrivateRange (excluding : list IPRange) : outcome (option IPRange) :=
  let! r := find_octet excluding (fun oct => FromIPv4 172 oct 0 1 16) (seqZ 16 16) in
  match r with
  | Some _ => Done r
  | None =>
      let! r := find_octet excluding (fun oct => FromIPv4 10 oct 0 1 16) (seqZ 0 256) in
      match r with
      | Some _ => Done r
      | None => find_octet excluding (fun oct => FromIPv4 192 168 oct 1 24) (seqZ 0 256)
      end
  end.

(** ** Bogons *)

(** The [FromIPv4] arguments of [bogonRanges_v4]. *)
Definition bogonRanges_v4 : list (Z * Z * Z * Z * Z) :=
  [(0, 0, 0, 0, 8); (10, 0, 0, 0, 8); (100, 64, 0, 0, 10); (127, 0, 0, 0, 8);
   (169, 254, 0, 0, 16); (172, 16, 0, 0, 12); (192, 0, 0, 0, 24); (192, 0, 2, 0, 24);
   (192, 88, 99, 0, 24); (192, 168, 0, 0, 16); (198, 18, 0, 0, 15); (198, 51, 100, 0, 24);
   (203, 0, 113, 0, 24); (224, 0, 0, 0, 4); (240, 0, 0, 0, 4)].

(** The addresses and prefix lengths of [bogonRanges_v6]. *)
Definition bogonRanges_v6 : list (uint128_t * Z) :=
  [(of_u64 0, 128); (of_u64 1, 128); (U128 0x0200000000000000 0, 7);
   (U128 0xff00000000000000 0, 8); (U128 0xfc00000000000000 0, 8);
   (U128 0xf800000000000000 0, 8)].

Fixpoint any_v4 (l : list (Z * Z * Z * Z * Z)) (ip : Z) : outcome bool :=
  match l with
  | [] => Done false
  | (a, b, c, d, mask) :: l =>
      let! r := FromIPv4 a b c d mask in
      let! hit := ContainsV4 r ip in
      if hit then Done true else any_v4 l ip
  end.

Fixpoint any_v6 (l : list (uint128_t * Z)) (ip : uint128_t) : outcome bool :=
  match l with
  | [] => Done false
  | (a, bits) :: l =>
      let! m := netmask_ipv6_bits bits in
      if Contains (mkIPRange a m) ip then Done true else any_v6 l ip
  end.

Definition IsBogonIP (ip : uint128_t) : outcome bool :=
  let! v4 := V4MappedRange in
  if negb (Contains v4 ip) then any_v6 bogonRanges_v6 ip
  else any_v4 bogonRanges_v4 (TruncateV6 ip).

Definition IsBogonRange (r : IPRange) : outcome bool :=
  let! v4 := IsV4 r in
  let! m96 := netmask_ipv6_bits 96 in
  if v4 && eq128 (netmask_bits r) m96 then Done false
  else if eq128 (netmask_bits r) (of_u64 0) then Done false
  else
    let! a := IsBogonIP (addr r) in
    if a then Done true else IsBogonIP (HighestAddr r).

(** [IpAddress::isBogon] on the last four bytes of the socket address. *)
Definition IpAddress_isBogon (raw12 raw13 raw14 raw15 : Z) : outcome bool :=
  let! r := V4MappedRange in
  ContainsV4 r (ipaddr_ipv4_bits raw12 raw13 raw14 raw15).

(** ** The range map *)

Section RangeMap.
Context {Value_t : Type} `{EqDecision Value_t}.

(** [m_Entries] *)
Definition Container_t := list (IPRange * Value_t).

Definition Empty (m : Container_t) : bool := bool_decide (m = []).

Definition ContainsValue (m : Container_t) (val : Value_t) : bool :=
  existsb (fun e => bool_decide (e.2 = val)) m.

Fixpoint GetExact (m : Container_t) (range : IPRange) : option Value_t :=
  match m with
  | [] => None
  | (r, value) :: m => if range_eq r range then Some value else GetExact m range
  end.

(** [std::set<Entry_t>::insert] keeps the first of two entries that neither
    [operator<] separates. *)
Definition entry_equiv (e1 e2 : IPRange * Value_t) : bool :=
  negb (range_lt e1.1 e2.1) && negb (range_lt e2.1 e1.1) && bool_decide (e1.2 = e2.2).

Definition set_insert (s : list (IPRange * Value_t)) (e : IPRange * Value_t)
  : list (IPRange * Value_t) :=
  if existsb (entry_equiv e) s then s else s ++ [e].

Definition FindAllEntries (m : Container_t) (ip : uint128_t) : list (IPRange * Value_t) :=
  fold_left (fun found e => if Contains e.1 ip then set_insert found e else found) m [].

Definition Insert (m : Container_t) (range : IPRange) (val : Value_t) : Container_t :=
  m ++ [(range, val)].

Fixpoint RemoveIf (visit : IPRange * Value_t -> bool) (m : Container_t) : Container_t :=
  match m with
  | [] => []
  | e :: m => if visit e then RemoveIf visit m else e :: RemoveIf visit m
  end.
End RangeMap.

(** ** Prefix ranges *)

(** [prefix_range r k] : the netmask of [r] is a prefix mask with [k] host bits. *)
Definition prefix_range (r : IPRange) (k : Z) : Prop :=
  wf128 (addr r) /\ wf128 (netmask_bits r) /\ 0 <= k <= 128
  /\ value (netmask_bits r) = prefix_mask k.

(** The first address of a prefix range with [k] host bits. *)
Definition lowest (r : IPRange) (k : Z) : Z := value (addr r) / 2 ^ k * 2 ^ k.

Lemma pow2_pos k : 0 <= k -> 0 < 2 ^ k.
Proof. intros. apply Z.pow_pos_nonneg; lia. Qed.

Lemma masked_value r k ip : prefix_range r k -> wf128 ip ->
  wf128 (and128 ip (netmask_bits r))
  /\ value (and128 ip (netmask_bits r)) = value ip / 2 ^ k * 2 ^ k.
Proof.
  intros (Ha & Hm & Hk & Hv) Hip. split; [auto with belnet|].
  rewrite and128_value, Hv by done. apply land_prefix_mask; [by apply value_range|done].
Qed.

Lemma Contains_div r k ip : prefix_range r k -> wf128 ip ->
  Contains r ip = true <-> value (addr r) / 2 ^ k = value ip / 2 ^ k.
Proof.
  intros Hr Hip. pose proof Hr as (Ha & _ & Hk & _). pose proof (pow2_pos k ltac:(lia)).
  destruct (masked_value r k ip Hr Hip) as [Hw1 Hv1].
  destruct (masked_value r k (addr r) Hr Ha) as [Hw2 Hv2].
  unfold Contains. rewrite eq128_value, Hv1, Hv2, Z.eqb_eq by done. nia.
Qed.

Lemma div_interval x y k : 0 <= k ->
  x / 2 ^ k = y / 2 ^ k <-> x / 2 ^ k * 2 ^ k <= y <= x / 2 ^ k * 2 ^ k + 2 ^ k - 1.
Proof.
  intros Hk. pose proof (pow2_pos k Hk) as Hp.
  pose proof (Z.div_mod y (2 ^ k) ltac:(lia)). pose proof (Z.mod_pos_bound y (2 ^ k) Hp). nia.
Qed.

Lemma lowest_range r k : prefix_range r k -> 0 <= lowest r k /\ lowest r k + 2 ^ k <= 2 ^ 128.
Proof.
  intros (Ha & _ & Hk & _). pose proof (value_range _ Ha) as Hv. unfold in_width in Hv.
  pose proof (pow2_pos k ltac:(lia)). unfold lowest.
  assert (2 ^ 128 = 2 ^ (128 - k) * 2 ^ k) as E.
  { rewrite <- Z.pow_add_r by lia. f_equal. lia. }
  assert (value (addr r) / 2 ^ k < 2 ^ (128 - k)) by (apply Z.div_lt_upper_bound; lia).
  pose proof (Z.div_pos (value (addr r)) (2 ^ k)). nia.
Qed.

Lemma wrap_wrap_add w a b : wrap w (a + wrap w b) = wrap w (a + b).
Proof. unfold wrap. by rewrite Zplus_mod_idemp_r. Qed.

Lemma wrap_sub_wrap w a b : wrap w (wrap w a - b) = wrap w (a - b).
Proof. unfold wrap. by rewrite Zminus_mod_idemp_l. Qed.

Lemma hshl_pow k : 0 <= k <= 128 ->
  wf128 (hshl128 (of_u64 1) k) /\ value (hshl128 (of_u64 1) k) = wrap 128 (2 ^ k).
Proof.
  intros Hk. unfold hshl128. rewrite (wrap_small 64 k) by (unfold in_width; lia).
  split; [apply shl128_wf; [done|lia]|]. rewrite shl128_value by (done || lia).
  change (value (of_u64 1)) with 1. by rewrite Z.shiftl_mul_pow2, Z.mul_1_l by lia.
Qed.

Lemma HighestAddr_value r k : prefix_range r k ->
  wf128 (HighestAddr r) /\ value (HighestAddr r) = lowest r k + 2 ^ k - 1.
Proof.
  intros Hr. pose proof Hr as (Ha & Hm & Hk & Hv). unfold HighestAddr.
  rewrite (count_bits_prefix _ k) by done. replace (128 - (128 - k)) with k by lia.
  destruct (masked_value r k (addr r) Hr Ha) as [Hw Hmv].
  destruct (hshl_pow k Hk) as [Hs Hsv]. split; [auto with belnet|].
  rewrite sub128_value, add128_value, Hmv, Hsv by auto with belnet. fold (lowest r k).
  change (value (of_u64 1)) with 1. rewrite wrap_wrap_add, wrap_sub_wrap.
  pose proof (lowest_range r k Hr). pose proof (pow2_pos k ltac:(lia)).
  apply wrap_small. unfold in_width. lia.
Qed.

Lemma Contains_interval r k ip : prefix_range r k -> wf128 ip ->
  Contains r ip = true <-> lowest r k <= value ip <= value (HighestAddr r).
Proof.
  intros Hr Hip. pose proof Hr as (_ & _ & Hk & _).
  rewrite (Contains_div r k), (div_interval _ _ k) by (done || lia).
  rewrite (proj2 (HighestAddr_value r k Hr)). done.
Qed.

Lemma addr_in_range r k : prefix_range r k -> lowest r k <= value (addr r) <= value (HighestAddr r).
Proof.
  intros Hr. apply (Contains_interval r k); [done|apply Hr|].
  by apply (Contains_div r k); [|apply Hr|].
Qed.

(** The uint128 with a given value. *)
Definition of_value (v : Z) : uint128_t := U128 (v / 2 ^ 64) (v mod 2 ^ 64).

Lemma of_value_spec v : in_width 128 v -> wf128 (of_value v) /\ value (of_value v) = v.
Proof.
  unfold in_width, wf128, value, of_value. cbn [upper lower]. intros Hv.
  pose proof (Z.mod_pos_bound v (2 ^ 64)). pose proof (Z.div_mod v (2 ^ 64)).
  assert (0 <= v / 2 ^ 64 < 2 ^ 64); [|unfold in_width; lia].
  split; [apply Z.div_pos; lia|apply Z.div_lt_upper_bound; lia].
Qed.

(** The addresses of a range, as a set. *)
Definition subrange (r' r : IPRange) : Prop :=
  forall ip, wf128 ip -> Contains r' ip = true -> Contains r ip = true.

(** Two blocks of [2^k] and [2^k'] aligned addresses that share one are nested. *)
Lemma dyadic_nested q k q' k' p : 0 <= k' <= k ->
  q * 2 ^ k <= p <= q * 2 ^ k + 2 ^ k - 1 -> q' * 2 ^ k' <= p <= q' * 2 ^ k' + 2 ^ k' - 1 ->
  q * 2 ^ k <= q' * 2 ^ k' /\ q' * 2 ^ k' + 2 ^ k' <= q * 2 ^ k + 2 ^ k.
Proof.
  intros Hk H1 H2. assert (2 ^ k = 2 ^ (k - k') * 2 ^ k') as E.
  { rewrite <- Z.pow_add_r by lia. f_equal. lia. }
  pose proof (pow2_pos k' ltac:(lia)). pose proof (pow2_pos (k - k') ltac:(lia)).
  rewrite E in *. set (m := 2 ^ (k - k')) in *. set (n := 2 ^ k') in *.
  assert (q * m * n <= p <= q * m * n + m * n - 1) as H1' by lia. clear H1.
  assert (q * m < q' + 1) by nia. assert (q' < q * m + m) by nia. nia.
Qed.

Lemma shared_nested r k r' k' ip : prefix_range r k -> prefix_range r' k' -> wf128 ip ->
  Contains r ip = true -> Contains r' ip = true -> k' <= k -> subrange r' r.
Proof.
  intros Hr Hr' Hip H1 H2 Hk x Hx Hin.
  apply (Contains_interval r' k') in Hin; [|done..]. apply (Contains_interval r k); [done..|].
  apply (Contains_interval r k) in H1; [|done..]. apply (Contains_interval r' k') in H2; [|done..].
  rewrite (proj2 (HighestAddr_value r k Hr)) in *. rewrite (proj2 (HighestAddr_value r' k' Hr')) in *.
  unfold lowest in *. pose proof Hr' as (_ & _ & Hk' & _).
  destruct (dyadic_nested (value (addr r) / 2 ^ k) k (value (addr r') / 2 ^ k') k' (value ip)); lia.
Qed.

Lemma subrange_ContainsRange r k r' k' : prefix_range r k -> prefix_range r' k' ->
  subrange r' r -> ContainsRange r r' = true.
Proof.
  intros Hr Hr' Hs. pose proof (HighestAddr_value r' k' Hr') as [Hw _].
  pose proof (addr_in_range r' k' Hr'). unfold ContainsRange. apply andb_true_iff. split.
  - apply Hs; [apply Hr'|]. apply (Contains_interval r' k'); [done|apply Hr'|lia].
  - apply Hs; [done|]. apply (Contains_interval r' k'); [done..|lia].
Qed.

Lemma intersects_shared r k r' k' : prefix_range r k -> prefix_range r' k' ->
  intersects r r' = true
  <-> exists ip, wf128 ip /\ Contains r ip = true /\ Contains r' ip = true.
Proof.
  intros Hr Hr'. unfold intersects. rewrite orb_true_iff. split.
  - intros [H|H]; apply andb_true_iff in H as [H _].
    + exists (addr r'). split_and!; [apply Hr'|done|]. by apply (Contains_div r' k'); [|apply Hr'|].
    + exists (addr r). split_and!; [apply Hr| |done]. by apply (Contains_div r k); [|apply Hr|].
  - intros (ip & Hip & H1 & H2). destruct (decide (k' <= k)).
    + left. eauto using subrange_ContainsRange, shared_nested.
    + right. eapply (subrange_ContainsRange r' k' r k); [done..|].
      eapply (shared_nested r' k' r k); eauto. lia.
Qed.

Lemma ipaddr_ipv4_bits_width a b c d : is_byte a -> is_byte b -> is_byte c -> is_byte d ->
  in_width 32 (ipaddr_ipv4_bits a b c d).
Proof.
  unfold is_byte. intros. unfold ipaddr_ipv4_bits.
  repeat apply lor_width; try lia; try (apply wrap_range; lia). unfold in_width. lia.
Qed.

Lemma FromIPv4_spec a b c d mask : is_byte a -> is_byte b -> is_byte c -> is_byte d ->
  0 <= mask <= 32 ->
  exists r, FromIPv4 a b c d mask = Done r /\ prefix_range r (32 - mask)
    /\ addr r = ExpandV4 (ipaddr_ipv4_bits a b c d).
Proof.
  intros. unfold FromIPv4. destruct (netmask_ipv6_bits_spec (mask + 96)) as (m & -> & Hm & Hv); [lia|].
  eexists. split; [done|]. split; [|done]. unfold prefix_range. cbn [addr netmask_bits].
  split; [by apply ExpandV4_wf, ipaddr_ipv4_bits_width|]. split; [done|]. split; [lia|].
  rewrite Hv. f_equal. lia.
Qed.

Lemma V4MappedRange_spec : exists r, V4MappedRange = Done r /\ prefix_range r 32
  /\ value (addr r) = 0xffff00000000.
Proof.
  unfold V4MappedRange. destruct (netmask_ipv6_bits_spec 96) as (m & -> & Hm & Hv); [lia|].
  eexists. split; [done|]. split; [|done]. unfold prefix_range. cbn [addr netmask_bits].
  split; [apply of_u64_wf; done|]. split; [done|]. split; [lia|]. exact Hv.
Qed.

Lemma v4_mapped_contains r x : prefix_range r 32 -> value (addr r) = 0xffff00000000 ->
  in_width 32 x -> Contains r (ExpandV4 x) = true.
Proof.
  intros Hr Ha Hx. apply (Contains_div r 32); [done|by apply ExpandV4_wf|].
  rewrite Ha, ExpandV4_value by done. unfold in_width in Hx.
  change 0xffff00000000 with (0xffff * 2 ^ 32). rewrite Z.div_mul, Z.div_add_l, Z.div_small by lia. lia.
Qed.

Lemma IsV4_expanded r x : addr r = ExpandV4 x -> in_width 32 x -> IsV4 r = Done true.
Proof.
  intros Ha Hx. unfold IsV4. destruct V4MappedRange_spec as (v4 & -> & Hr & Hv). cbn [obind].
  rewrite Ha. by rewrite (v4_mapped_contains v4 x).
Qed.

(** A dotted prefix contains an IPv4 address exactly when the leading bits agree. *)
Lemma ContainsV4_spec a b c d mask ip : is_byte a -> is_byte b -> is_byte c -> is_byte d ->
  0 <= mask <= 32 -> in_width 32 ip ->
  exists r, FromIPv4 a b c d mask = Done r
    /\ ContainsV4 r ip
       = Done (bool_decide (ipaddr_ipv4_bits a b c d / 2 ^ (32 - mask) = ip / 2 ^ (32 - mask))).
Proof.
  intros Ha Hb Hc Hd Hm Hip. destruct (FromIPv4_spec a b c d mask) as (r & -> & Hr & Er); [done..|].
  exists r. split; [done|]. pose proof (ipaddr_ipv4_bits_width a b c d Ha Hb Hc Hd) as Hw.
  unfold ContainsV4. rewrite (IsV4_expanded r _ Er Hw). cbn [obind negb]. f_equal.
  apply eq_bool_prop_intro. rewrite !Is_true_true, bool_decide_eq_true.
  rewrite (Contains_div r (32 - mask)), Er, !ExpandV4_value by (done || by apply ExpandV4_wf).
  pose proof (pow2_pos (32 - mask) ltac:(lia)).
  assert (0xffff00000000 = 0xffff * 2 ^ mask * 2 ^ (32 - mask)) as ->.
  { rewrite <- Z.mul_assoc, <- Z.pow_add_r by lia. replace (mask + (32 - mask)) with 32 by lia. done. }
  rewrite !Z.div_add_l by lia. lia.
Qed.

(** ** Private ranges *)

Definition private_candidates : list (outcome IPRange) :=
  map (fun oct => FromIPv4 172 oct 0 1 16) (seqZ 16 16)
  ++ map (fun oct => FromIPv4 10 oct 0 1 16) (seqZ 0 256)
  ++ map (fun oct => FromIPv4 192 168 oct 1 24) (seqZ 0 256).

(** A candidate does not overlap any excluded range. *)
Definition free (excluding : list IPRange) (r : IPRange) : Prop :=
  forall ex, ex ∈ excluding -> forall ip, wf128 ip ->
    Contains ex ip = true -> Contains r ip = true -> False.

Lemma good_free excluding r k : Forall (fun ex => exists k, prefix_range ex k) excluding ->
  prefix_range r k -> good excluding r = true <-> free excluding r.
Proof.
  intros He Hr. unfold good, free. rewrite forallb_forall, Forall_forall in *. split.
  - intros Hg ex Hex ip Hip H1 H2. destruct (He ex Hex) as [k' Hk'].
    rewrite list_elem_of_In in Hex. specialize (Hg ex Hex). apply negb_true_iff in Hg.
    rewrite (proj2 (intersects_shared ex k' r k Hk' Hr)) in Hg; [done|eauto].
  - intros Hf ex Hex. apply negb_true_iff, not_true_is_false. rewrite <- list_elem_of_In in Hex.
    destruct (He ex Hex) as [k' Hk']. rewrite (intersects_shared ex k' r k) by done.
    intros (ip & Hip & H1 & H2). eauto.
Qed.

Lemma find_octet_spec excluding mk octs :
  Forall (fun ex => exists k, prefix_range ex k) excluding ->
  (forall oct, oct ∈ octs -> exists r k, mk oct = Done r /\ prefix_range r k) ->
  exists o, find_octet excluding mk octs = Done o /\
  match o with
  | Some r => Done r ∈ map mk octs /\ free excluding r
  | None => forall r, Done r ∈ map mk octs -> ~ free excluding r
  end.
Proof.
  intros He. induction octs as [|oct octs IH]; intros Hmk; cbn [find_octet map].
  { exists None. split; [done|]. intros r Hr. by apply elem_of_nil in Hr. }
  destruct (Hmk oct) as (r & k & Er & Hr); [constructor|]. rewrite Er. cbn [obind].
  destruct (good excluding r) eqn:Hg.
  - exists (Some r). split; [done|]. split; [constructor|]. by apply (good_free excluding r k).
  - destruct IH as (o & -> & Ho); [intros; apply Hmk; by constructor|].
    exists o. split; [done|]. destruct o as [r'|].
    + destruct Ho as [Hin Hf]. split; [by constructor|done].
    + intros r'. rewrite elem_of_cons. intros [[= <-]|Hin]; [|by apply Ho].
      rewrite <- (good_free excluding r' k) by done. by rewrite Hg.
Qed.

Lemma seqZ_byte oct m n : oct ∈ seqZ m n -> 0 <= m -> m + n <= 256 -> is_byte oct.
Proof. intros H%elem_of_seqZ ??. unfold is_byte. lia. Qed.

Lemma candidate_prefix mk octs a c mask :
  (forall oct, is_byte oct -> mk oct = FromIPv4 a oct c 1 mask) \/
  (forall oct, is_byte oct -> mk oct = FromIPv4 a c oct 1 mask) ->
  is_byte a -> is_byte c -> 0 <= mask <= 32 -> Forall is_byte octs ->
  forall oct, oct ∈ octs -> exists r k, mk oct = Done r /\ prefix_range r k.
Proof.
  intros Hmk Ha Hc Hm Ho oct Hin. rewrite Forall_forall in Ho. specialize (Ho oct Hin).
  destruct Hmk as [Hmk|Hmk]; rewrite (Hmk oct Ho).
  - destruct (FromIPv4_spec a oct c 1 mask) as (r & E & Hr & _); eauto. done.
  - destruct (FromIPv4_spec a c oct 1 mask) as (r & E & Hr & _); eauto. done.
Qed.

Lemma FindPrivateRange_spec excluding :
  Forall (fun ex => exists k, prefix_range ex k) excluding ->
  exists o, FindPrivateRange excluding = Done o /\
  match o with
  | Some r => Done r ∈ private_candidates /\ free excluding r
  | None => forall r, Done r ∈ private_candidates -> ~ free excluding r
  end.
Proof.
  intros He. unfold FindPrivateRange, private_candidates.
  assert (forall m n, 0 <= m -> m + n <= 256 -> Forall is_byte (seqZ m n)) as Hb
    by (intros; apply Forall_forall; eauto using seqZ_byte).
  edestruct (find_octet_spec excluding (fun oct => FromIPv4 172 oct 0 1 16) (seqZ 16 16) He)
    as (o1 & -> & H1).
  { apply (candidate_prefix _ _ 172 0 16); [left; intros; reflexivity|unfold is_byte; lia..|]. by apply Hb. }
  edestruct (find_octet_spec excluding (fun oct => FromIPv4 10 oct 0 1 16) (seqZ 0 256) He)
    as (o2 & E2 & H2).
  { apply (candidate_prefix _ _ 10 0 16); [left; intros; reflexivity|unfold is_byte; lia..|]. by apply Hb. }
  edestruct (find_octet_spec excluding (fun oct => FromIPv4 192 168 oct 1 24) (seqZ 0 256) He)
    as (o3 & E3 & H3).
  { apply (candidate_prefix _ _ 192 168 24); [right; intros; reflexivity|unfold is_byte; lia..|]. by apply Hb. }
  cbn [obind].
  destruct o1 as [r1|]; [exists (Some r1); split; [done|]; rewrite !elem_of_app; tauto|].
  rewrite E2. cbn [obind].
  destruct o2 as [r2|]; [exists (Some r2); split; [done|]; rewrite !elem_of_app; tauto|].
  rewrite E3. exists o3. split; [done|].
  destruct o3; [rewrite !elem_of_app; tauto|]. intros r. rewrite !elem_of_app.
  intros [Hx|[Hx|Hx]]; [exact (H1 r Hx)|exact (H2 r Hx)|exact (H3 r Hx)].
Qed.

(** ** Properties *)

(** Membership in a range is an interval test: for every prefix length, an
    address is contained exactly when it lies between the masked address and
    [HighestAddr], which never wraps around. *)
Theorem contains_is_interval r k ip : prefix_range r k -> wf128 ip ->
  value (HighestAddr r) = lowest r k + 2 ^ k - 1
  /\ (Contains r ip = true <-> lowest r k <= value ip <= value (HighestAddr r)).
Proof.
  intros Hr Hip. split; [by apply HighestAddr_value|by apply Contains_interval].
Qed.

Definition sample_range : IPRange :=
  mkIPRange (U128 0xfd00000000000000 5) (U128 0xffff000000000000 0).

Lemma sample_range_prefix : prefix_range sample_range 112.
Proof. repeat split; done. Qed.

Lemma contains_is_interval_witness :
  value (HighestAddr sample_range) = lowest sample_range 112 + 2 ^ 112 - 1
  /\ (Contains sample_range (U128 0xfd00000000000001 9) = true
      <-> lowest sample_range 112 <= value (U128 0xfd00000000000001 9) <= value (HighestAddr sample_range)).
Proof.
  apply (contains_is_interval sample_range 112 (U128 0xfd00000000000001 9)).
  - exact sample_range_prefix.
  - unfold wf128, in_width. cbn. lia.
Defined.

(** Two prefix ranges intersect, as [operator*] computes it, exactly when
    some address belongs to both. *)
Theorem intersects_iff_shared_address r k r' k' : prefix_range r k -> prefix_range r' k' ->
  intersects r r' = true
  <-> exists ip, wf128 ip /\ Contains r ip = true /\ Contains r' ip = true.
Proof. apply intersects_shared. Qed.

Lemma intersects_iff_shared_address_witness :
  intersects sample_range sample_range = true
  <-> exists ip, wf128 ip /\ Contains sample_range ip = true /\ Contains sample_range ip = true.
Proof.
  apply (intersects_iff_shared_address sample_range 112 sample_range 112); exact sample_range_prefix.
Defined.

(** [FindPrivateRange] terminates with the right answer: a range it
    returns is one of the candidate private ranges and shares no address with
    an excluded one; when it returns nothing, every candidate overlaps an
    excluded range. *)
Theorem find_private_range_correct excluding :
  Forall (fun ex => exists k, prefix_range ex k) excluding ->
  exists o, FindPrivateRange excluding = Done o /\
  match o with
  | Some r => Done r ∈ private_candidates /\ free excluding r
  | None => forall r, Done r ∈ private_candidates -> ~ free excluding r
  end.
Proof. apply FindPrivateRange_spec. Qed.

Lemma find_private_range_correct_witness :
  exists o, FindPrivateRange [sample_range] = Done o /\
  match o with
  | Some r => Done r ∈ private_candidates /\ free [sample_range] r
  | None => forall r, Done r ∈ private_candidates -> ~ free [sample_range] r
  end.
Proof.
  apply (find_private_range_correct [sample_range]).
  apply Forall_singleton. exists 112. exact sample_range_prefix.
Defined.

(** [Contains(const IPRange&)] accepts every range inside ours, and rejects
    every other one provided its address is the base address of the range; an
    address with host bits set defeats the test. *)
Theorem contains_range_correct r k r' k' : prefix_range r k -> prefix_range r' k' ->
  (subrange r' r -> ContainsRange r r' = true)
  /\ (value (addr r') = lowest r' k' -> ContainsRange r r' = true -> subrange r' r).
Proof.
  intros Hr Hr'. split; [eauto using subrange_ContainsRange|]. intros Ha Hc.
  apply andb_true_iff in Hc as [H1 H2]. pose proof (HighestAddr_value r' k' Hr') as [Hw _].
  apply (Contains_interval r k) in H1; [|done|apply Hr'].
  apply (Contains_interval r k) in H2; [|done..].
  intros ip Hip Hin. apply (Contains_interval r' k') in Hin; [|done..].
  apply (Contains_interval r k); [done..|lia].
Qed.

Lemma contains_range_correct_witness :
  (subrange sample_range sample_range -> ContainsRange sample_range sample_range = true)
  /\ (value (addr sample_range) = lowest sample_range 112 ->
      ContainsRange sample_range sample_range = true -> subrange sample_range sample_range).
Proof.
  apply (contains_range_correct sample_range 112 sample_range 112); exact sample_range_prefix.
Defined.

(** The host 10.0.0.255 claims to contain the whole of 10.0.0.255/24. *)
Lemma contains_range_unaligned : exists small big,
  FromIPv4 10 0 0 255 32 = Done small /\ FromIPv4 10 0 0 255 24 = Done big
  /\ ContainsRange small big = true /\ ~ subrange big small.
Proof.
  destruct (FromIPv4 10 0 0 255 32) as [small| |] eqn:Es; [|by vm_compute in Es..].
  destruct (FromIPv4 10 0 0 255 24) as [big| |] eqn:Eb; [|by vm_compute in Eb..].
  exists small, big. vm_compute in Es. vm_compute in Eb. simplify_eq.
  split_and!; [done..|]. intros Hs.
  specialize (Hs (ExpandV4 (ipaddr_ipv4_bits 10 0 0 1)) ltac:(by vm_compute) ltac:(done)).
  by vm_compute in Hs.
Qed.

Lemma any_v4_spec l ip : in_width 32 ip ->
  Forall (fun '(a, b, c, d, mask) =>
    is_byte a /\ is_byte b /\ is_byte c /\ is_byte d /\ 0 <= mask <= 32) l ->
  exists hit, any_v4 l ip = Done hit /\ (hit = true <->
    Exists (fun '(a, b, c, d, mask) =>
      ipaddr_ipv4_bits a b c d / 2 ^ (32 - mask) = ip / 2 ^ (32 - mask)) l).
Proof.
  intros Hip. induction l as [|[[[[a b] c] d] mask] l IH]; intros Hl.
  { exists false. split; [done|]. by rewrite Exists_nil. }
  apply Forall_cons in Hl as [(Ha & Hb & Hc & Hd & Hm) Hl]. cbn [any_v4].
  destruct (ContainsV4_spec a b c d mask ip) as (r & -> & Hr); [done..|]. cbn [obind].
  rewrite Hr. cbn [obind]. destruct (bool_decide _) eqn:Hcase.
  - apply bool_decide_eq_true_1 in Hcase. exists true. split; [done|]. rewrite Exists_cons. tauto.
  - apply bool_decide_eq_false_1 in Hcase. destruct (IH Hl) as (hit & -> & Hhit). exists hit. split; [done|].
    rewrite Hhit, Exists_cons. tauto.
Qed.

(** An IPv4 address is reported as a bogon exactly when its leading bits
    match one of the listed IPv4 prefixes; the test always terminates. *)
Theorem is_bogon_v4 ip : in_width 32 ip ->
  exists hit, IsBogonIP (ExpandV4 ip) = Done hit /\ (hit = true <->
    Exists (fun '(a, b, c, d, mask) =>
      ipaddr_ipv4_bits a b c d / 2 ^ (32 - mask) = ip / 2 ^ (32 - mask)) bogonRanges_v4).
Proof.
  intros Hip. unfold IsBogonIP. destruct V4MappedRange_spec as (v4 & -> & Hr & Hv). cbn [obind].
  rewrite (v4_mapped_contains v4 ip Hr Hv Hip). cbn [negb].
  rewrite TruncateV6_value, ExpandV4_value by (done || by apply ExpandV4_wf).
  rewrite (wrap_eq 32 _ 0xffff ip) by (done || lia). apply any_v4_spec; [done|].
  unfold bogonRanges_v4, is_byte. repeat constructor; lia.
Qed.

Lemma is_bogon_v4_witness :
  exists hit, IsBogonIP (ExpandV4 167772161) = Done hit /\ (hit = true <->
    Exists (fun '(a, b, c, d, mask) =>
      ipaddr_ipv4_bits a b c d / 2 ^ (32 - mask) = 167772161 / 2 ^ (32 - mask)) bogonRanges_v4).
Proof. apply (is_bogon_v4 167772161). unfold in_width. lia. Defined.

(** [IpAddress::isBogon] reports every IPv4 address. *)
Lemma ip_address_always_bogon a b c d : is_byte a -> is_byte b -> is_byte c -> is_byte d ->
  IpAddress_isBogon a b c d = Done true.
Proof.
  intros. unfold IpAddress_isBogon. destruct V4MappedRange_spec as (v4 & Ev & Hr & Hv).
  rewrite Ev. cbn [obind]. unfold ContainsV4, IsV4. rewrite Ev. cbn [obind].
  assert (Contains v4 (addr v4) = true) as -> by (apply (Contains_div v4 32); [done|apply Hr|done]).
  cbn [negb]. rewrite (v4_mapped_contains v4 _ Hr Hv); [reflexivity|].
  apply ipaddr_ipv4_bits_width; assumption.
Qed.

(** ** The range map *)

Lemma RemoveIf_filter {V} (visit : IPRange * V -> bool) m e :
  e ∈ RemoveIf visit m <-> e ∈ m /\ visit e = false.
Proof.
  induction m as [|x m IH]; cbn [RemoveIf]; [set_solver|].
  destruct (visit x) eqn:E; rewrite ?elem_of_cons, IH.
  - split; [tauto|]. intros [[->|?] ?]; [congruence|done].
  - split; [intros [->|[? ?]]; auto|tauto].
Qed.

Section RangeMapFacts.
Context {V : Type} `{EqDecision V}.
Implicit Types m found : list (IPRange * V).

Definition find_step (ip : uint128_t) found (e : IPRange * V) :=
  if Contains e.1 ip then set_insert found e else found.

Lemma set_insert_mono found e x : x ∈ found -> x ∈ set_insert found e.
Proof. unfold set_insert. case_match; set_solver. Qed.

Lemma fold_find_mono ip m found x : x ∈ found -> x ∈ fold_left (find_step ip) m found.
Proof.
  revert found. induction m as [|e m IH]; intros found Hx; [done|]. apply IH.
  unfold find_step. case_match; auto using set_insert_mono.
Qed.

Lemma fold_find_sound ip m found x : x ∈ fold_left (find_step ip) m found ->
  x ∈ found \/ (x ∈ m /\ Contains x.1 ip = true).
Proof.
  revert found. induction m as [|e m IH]; intros found; cbn [fold_left]; [by left|].
  intros [Hx|[Hx Hc]]%IH; [|right; set_solver]. unfold find_step in Hx.
  destruct (Contains e.1 ip) eqn:E; [|by left]. unfold set_insert in Hx.
  destruct (existsb _ _); [by left|]. apply elem_of_app in Hx as [Hx|Hx]; [by left|].
  apply list_elem_of_singleton in Hx as ->. right. split; [constructor|done].
Qed.

Lemma fold_find_complete ip m found e : e ∈ m -> Contains e.1 ip = true ->
  exists x, x ∈ fold_left (find_step ip) m found /\ (x = e \/ entry_equiv e x = true).
Proof.
  revert found. induction m as [|y m IH]; intros found Hin Hc; [by apply elem_of_nil in Hin|].
  cbn [fold_left]. apply elem_of_cons in Hin as [->|Hin]; [|by apply IH].
  unfold find_step at 2. rewrite Hc. unfold set_insert.
  destruct (existsb (entry_equiv y) found) eqn:E.
  - apply existsb_exists in E as (x & Hx & Heq). exists x. rewrite <- list_elem_of_In in Hx.
    split; [by apply fold_find_mono|by right].
  - exists y. split; [|by left]. apply fold_find_mono. set_solver.
Qed.
End RangeMapFacts.

(** The range map answers lookups correctly: every entry it returns for an
    address was inserted and its range contains the address; every inserted
    entry whose range contains the address is returned, or one with the same
    masked range and the same value; and [RemoveIf] drops exactly the entries
    its predicate selects. *)
Theorem range_map_lookup {V} `{EqDecision V} (m : list (IPRange * V)) ip visit :
  (forall e, e ∈ FindAllEntries m ip -> e ∈ m /\ Contains e.1 ip = true)
  /\ (forall r v, Contains r ip = true ->
        exists e, e ∈ FindAllEntries (Insert m r v) ip /\ (e = (r, v) \/ entry_equiv (r, v) e = true))
  /\ (forall e, e ∈ RemoveIf visit m <-> e ∈ m /\ visit e = false).
Proof.
  split_and!.
  - intros e [He|He]%(fold_find_sound ip); [by apply elem_of_nil in He|done].
  - intros r v Hc. apply (fold_find_complete ip _ [] (r, v)); [|done]. unfold Insert. set_solver.
  - intros e. apply RemoveIf_filter.
Qed.
