(* ===== verification/IPPacket.v ===== *)
(** * IP packets ([llarp/net/ip_packet.hpp], [llarp/net/ip_packet.cpp])

    A packet is the byte vector [_buf] of an [IPPacket].  The header structs are
    views of that memory: a field is a load or store of little endian bytes at
    its offset, as on the little endian hosts the [_le] structs are chosen for.
    A load or store outside the vector is a [Fault]. *)

From S2P Require Import Prelude Buffer Uint128.
Open Scope Z_scope.
Open Scope nat_scope.

(** ** Memory *)

Definition le_value (l : list Z) : Z := be_value (rev l).

(** An unsigned integer of [n] bytes in host memory. *)
Definition get (n : nat) (p : list Z) (off : nat) : outcome Z :=
  let! bs := load p off n in Done (le_value bs).

Definition set (n : nat) (p : list Z) (off : nat) (v : Z) : outcome (list Z) :=
  save p off (le_bytes n v).

(** [htons]/[ntohs] and [htonl]/[ntohl] of a little endian host. *)
Definition bswap (n : nat) (v : Z) : Z := be_value (le_bytes n v).
Definition htons := bswap 2.
Definition htonl := bswap 4.

(** ** Header fields *)

Module Hdr.
Definition ihl (p : list Z) : outcome nat :=
  let! b := get 1 p 0 in Done (Z.to_nat (Z.land b 15)).
Definition version (p : list Z) : outcome Z :=
  let! b := get 1 p 0 in Done (Z.shiftr b 4).
Definition set_version (p : list Z) (v : Z) : outcome (list Z) :=
  let! b := get 1 p 0 in set 1 p 0 (Z.lor (Z.land b 15) (Z.shiftl (Z.land v 15) 4)).
Definition set_ihl (p : list Z) (v : Z) : outcome (list Z) :=
  let! b := get 1 p 0 in set 1 p 0 (Z.lor (Z.land b 240) (Z.land v 15)).
Definition tos := 1.
Definition tot_len := 2.
Definition frag_off := 6.
Definition ttl := 8.
Definition protocol := 9.
Definition check := 10.
Definition saddr := 12.
Definition daddr := 16.
(** of [ipv6_header] *)
Definition v6_protocol := 6.
Definition v6_srcaddr := 8.
Definition v6_dstaddr := 24.
End Hdr.

Definition MinSize := 20.

Definition IPPacket_view (view : list Z) : list Z :=
  if bool_decide (length view < MinSize) then [] else view.

(** [None]: the constructor throws. *)
Definition IPPacket_size (sz : nat) : option (list Z) :=
  if bool_decide (sz <> 0 /\ sz < MinSize) then None else Some (replicate sz 0%Z).

Definition IPPacket_stolen (stolen : list Z) : list Z :=
  if bool_decide (length stolen < MinSize) then [] else stolen.

Definition IPPacket_Load (buf : llarp_buffer_t) : bool * list Z :=
  let p := copy buf in
  if bool_decide (MinSize <= length p) then (true, p) else (false, []).

(** [steal]: the bytes handed out and the packet left behind. *)
Definition steal (p : list Z) : list Z * list Z := (p, []).

Definition IsV4 (p : list Z) : outcome bool :=
  let! v := Hdr.version p in Done (v =? 4)%Z.
Definition IsV6 (p : list Z) : outcome bool :=
  let! v := Hdr.version p in Done (v =? 6)%Z.

Definition packet_protocol (p : list Z) : outcome Z :=
  let! v4 := IsV4 p in
  if v4 then get 1 p Hdr.protocol else get 1 p Hdr.v6_protocol.

Inductive ProtocolType := TrafficV4 | TrafficV6 | Control.

Definition ServiceProtocol (p : list Z) : outcome ProtocolType :=
  let! v4 := IsV4 p in
  if v4 then Done TrafficV4
  else
    let! v6 := IsV6 p in
    Done (if v6 then TrafficV6 else Control).

Definition srcv4 (p : list Z) : outcome Z := let! a := get 4 p Hdr.saddr in Done (htonl a).
Definition dstv4 (p : list Z) : outcome Z := let! a := get 4 p Hdr.daddr in Done (htonl a).
Definition src4to6 (p : list Z) : outcome uint128_t := let! a := srcv4 p in Done (ExpandV4 a).
Definition dst4to6 (p : list Z) : outcome uint128_t := let! a := dstv4 p in Done (ExpandV4 a).
Definition src4to6Lan (p : list Z) : outcome uint128_t := let! a := srcv4 p in Done (ExpandV4Lan a).
Definition dst4to6Lan (p : list Z) : outcome uint128_t := let! a := dstv4 p in Done (ExpandV4Lan a).

Definition srcv6 (p : list Z) : outcome uint128_t :=
  let! v6 := IsV6 p in
  if v6 then let! a := load p Hdr.v6_srcaddr 16 in Done (In6ToHUInt a) else src4to6 p.
Definition dstv6 (p : list Z) : outcome uint128_t :=
  let! v6 := IsV6 p in
  if v6 then let! a := load p Hdr.v6_dstaddr 16 in Done (In6ToHUInt a) else dst4to6 p.

Definition IPProtocol_TCP : Z := 0x06.
Definition IPProtocol_UDP : Z := 0x11.

(** [nuint16_t]s: the value is the two bytes as they lie in memory. *)
Definition DstPort (p : list Z) : outcome (option Z) :=
  let! proto := get 1 p Hdr.protocol in
  if bool_decide (proto = IPProtocol_TCP \/ proto = IPProtocol_UDP) then
    let! ihl := Hdr.ihl p in
    let! port := get 2 p (ihl * 4 + 2) in Done (Some port)
  else Done None.

Definition SrcPort (p : list Z) : outcome (option Z) :=
  let! proto := get 1 p Hdr.protocol in
  if bool_decide (proto = IPProtocol_TCP \/ proto = IPProtocol_UDP) then
    let! ihl := Hdr.ihl p in
    let! port := get 2 p (ihl * 4) in Done (Some port)
  else Done None.

(** The pointer as an offset into the packet, and the number of bytes. *)
Definition L4Data (p : list Z) : outcome (option (nat * nat)) :=
  let! proto := get 1 p Hdr.protocol in
  if negb (proto =? 0x11)%Z then Done None
  else
    let l4_HeaderSize := 8 in
    let! ihl := Hdr.ihl p in
    if bool_decide (length p < ihl * 4 + l4_HeaderSize) then Done None
    else
      let ptr := ihl * 4 + l4_HeaderSize in
      Done (Some (ptr, length p - ptr)).

(** ** Checksums *)

(** The summing loop of [ipchksum]; the last odd byte is the first byte of a
    zeroed 16-bit variable. *)
Fixpoint ipchksum_loop (buf : list Z) (sum : Z) : Z :=
  match buf with
  | a :: b :: rest => ipchksum_loop rest (u32 (sum + le_value [a; b]))
  | [a] => u32 (sum + le_value [a; 0%Z])
  | [] => sum
  end.

(** [sum = (sum & 0xFFff) + (sum >> 16); sum += sum >> 16;] *)
Definition fold32 (sum : Z) : Z :=
  let sum := u32 (Z.land sum 0xffff + Z.shiftr sum 16) in
  u32 (sum + Z.shiftr sum 16).

Definition ipchksum (buf : list Z) (sum : Z) : Z :=
  let sum := fold32 (ipchksum_loop buf sum) in
  u16 (Z.land (u32 (Z.lnot sum)) 0xffff).

Definition ADD32CS (x : Z) : Z := u32 (Z.land x 0xffff + Z.shiftr x 16).
Definition SUB32CS (x : Z) : Z :=
  u32 (Z.land (u32 (Z.lnot x)) 0xffff + Z.shiftr (u32 (Z.lnot x)) 16).

Definition deltaIPv4Checksum (old_sum old_src_ip old_dst_ip new_src_ip new_dst_ip : Z) : Z :=
  let sum := u32 (old_sum + ADD32CS old_src_ip + ADD32CS old_dst_ip
                  + SUB32CS new_src_ip + SUB32CS new_dst_ip) in
  u16 (Z.land (fold32 sum) 0xffff).

(** The four 32-bit integers of an [in6_addr] ([in6_uint32_ptr]). *)
Definition in6_uint32 (addr : list Z) : list Z :=
  map (fun i => le_value (take 4 (drop (4 * i) addr))) [0; 1; 2; 3].

Definition ADDN128CS (x : list Z) : Z := fold_right (fun w s => u32 (ADD32CS w + s)) 0%Z x.
Definition SUBN128CS (x : list Z) : Z := fold_right (fun w s => u32 (SUB32CS w + s)) 0%Z x.

Definition deltaIPv6Checksum (old_sum : Z) (old_src_ip old_dst_ip new_src_ip new_dst_ip : list Z) : Z :=
  let sum := u32 (old_sum + ADDN128CS old_src_ip + ADDN128CS old_dst_ip
                  + SUBN128CS new_src_ip + SUBN128CS new_dst_ip) in
  u16 (Z.land (fold32 sum) 0xffff).

(** [delta] is the partial application of [deltaIPv4Checksum] or
    [deltaIPv6Checksum] to the addresses; [pld] is an offset into [p]. *)
Definition deltaChecksumTCP (delta : Z -> Z) (p : list Z) (pld psz fragoff chksumoff : nat)
  : outcome (list Z) :=
  if bool_decide (chksumoff < fragoff \/ psz < chksumoff - fragoff + 2) then Done p
  else
    let at_ := pld + chksumoff - fragoff in
    let! check := get 2 p at_ in
    let! p := set 2 p at_ (delta check) in
    let! check := get 2 p at_ in
    if (check =? 0xffff)%Z then set 2 p at_ 0 else Done p.

Definition deltaChecksumUDP (delta : Z -> Z) (p : list Z) (pld psz fragoff : nat)
  : outcome (list Z) :=
  if bool_decide (6 < fragoff \/ psz < 6 + 2) then Done p
  else
    let at_ := pld + 6 in
    let! check := get 2 p at_ in
    if (check =? 0)%Z then Done p else set 2 p at_ (delta check).

Definition deltaChecksumIPv4TCP p pld psz fragoff chksumoff oSrcIP oDstIP nSrcIP nDstIP :=
  deltaChecksumTCP (fun c => deltaIPv4Checksum c oSrcIP oDstIP nSrcIP nDstIP)
    p pld psz fragoff chksumoff.
Definition deltaChecksumIPv6TCP p pld psz fragoff chksumoff oSrcIP oDstIP nSrcIP nDstIP :=
  deltaChecksumTCP (fun c => deltaIPv6Checksum c oSrcIP oDstIP nSrcIP nDstIP)
    p pld psz fragoff chksumoff.
Definition deltaChecksumIPv4UDP p pld psz fragoff oSrcIP oDstIP nSrcIP nDstIP :=
  deltaChecksumUDP (fun c => deltaIPv4Checksum c oSrcIP oDstIP nSrcIP nDstIP) p pld psz fragoff.
Definition deltaChecksumIPv6UDP p pld psz fragoff oSrcIP oDstIP nSrcIP nDstIP :=
  deltaChecksumUDP (fun c => deltaIPv6Checksum c oSrcIP oDstIP nSrcIP nDstIP) p pld psz fragoff.

Definition UpdateIPv4Address (p : list Z) (nSrcIP nDstIP : Z) : outcome (list Z) :=
  let! oSrcIP := get 4 p Hdr.saddr in
  let! oDstIP := get 4 p Hdr.daddr in
  let sz := length p in
  let! ihl := Hdr.ihl p in
  let ihs := ihl * 4 in
  let! p :=
    if bool_decide (ihs <= sz) then
      let pld := ihs in
      let psz := sz - ihs in
      let! frag_off := get 2 p Hdr.frag_off in
      let fragoff := Z.to_nat (Z.land (htons frag_off) 0x1fff * 8) in
      let! proto := get 1 p Hdr.protocol in
      if (proto =? 6)%Z then
        deltaChecksumIPv4TCP p pld psz fragoff 16 oSrcIP oDstIP nSrcIP nDstIP
      else if (proto =? 17)%Z || (proto =? 136)%Z then
        deltaChecksumIPv4UDP p pld psz fragoff oSrcIP oDstIP nSrcIP nDstIP
      else if (proto =? 33)%Z then
        deltaChecksumIPv4TCP p pld psz fragoff 6 oSrcIP oDstIP nSrcIP nDstIP
      else Done p
    else Done p in
  let! v4chk := get 2 p Hdr.check in
  let! p := set 2 p Hdr.check (deltaIPv4Checksum v4chk oSrcIP oDstIP nSrcIP nDstIP) in
  let! p := set 4 p Hdr.saddr nSrcIP in
  set 4 p Hdr.daddr nDstIP.

Definition ipv6_flowlabel_mask : Z := 0xfffff.

(** [ipv6_header::FlowLabel()] and [FlowLabel(label)] *)
Definition FlowLabel (p : list Z) : outcome Z :=
  let! flowlabel := get 4 p 0 in Done (Z.land flowlabel (htonl ipv6_flowlabel_mask)).
Definition set_FlowLabel (p : list Z) (label : Z) : outcome (list Z) :=
  let! flowlabel := get 4 p 0 in
  set 4 p 0 (Z.lor (Z.land (htonl ipv6_flowlabel_mask) label)
                   (Z.land flowlabel (htonl (u32 (Z.lnot ipv6_flowlabel_mask))))).

(** The walk over the IPv6 extension headers.  [None]: the function returns;
    otherwise the protocol, offset, size and fragment offset at [endprotohdrs]. *)
Fixpoint ext_headers (fuel : nat) (p : list Z) (nextproto : Z) (pld psz : nat)
  : outcome (option (Z * nat * nat * nat)) :=
  match fuel with
  | 0 => Timeout
  | S fuel =>
      if (nextproto =? 0)%Z || (nextproto =? 43)%Z || (nextproto =? 60)%Z then
        let! nextproto := get 1 p pld in
        let! len := get 1 p (pld + 1) in
        let addlen := (Z.to_nat len + 1) * 8 in
        if bool_decide (psz < addlen) then Done None
        else ext_headers fuel p nextproto (pld + addlen) (psz - addlen)
      else if (nextproto =? 44)%Z then
        let! nextproto := get 1 p pld in
        let! hi := get 1 p (pld + 2) in
        let! lo := get 1 p (pld + 3) in
        let fragoff := Z.to_nat (Z.lor (Z.shiftl hi 8) (Z.land lo 0xfc)) in
        if bool_decide (psz < 8) then Done None
        else if bool_decide (fragoff <> 0)
        then Done (Some (nextproto, pld + 8, psz - 8, fragoff))
        else ext_headers fuel p nextproto (pld + 8) (psz - 8)
      else Done (Some (nextproto, pld, psz, 0))
  end.

Section Packets.
Context `{Oxenc} `{OxencSwap}.

Definition UpdateIPv6Address (p : list Z) (src dst : uint128_t) (flowlabel : option Z)
  : outcome (list Z) :=
  let ihs := 4 + 4 + 16 + 16 in
  let sz := length p in
  if bool_decide (sz <= ihs) then Done p
  else
    let! p := match flowlabel with Some label => set_FlowLabel p label | None => Done p end in
    let! oldSrcIP := load p Hdr.v6_srcaddr 16 in
    let! oldDstIP := load p Hdr.v6_dstaddr 16 in
    let! p := save p Hdr.v6_srcaddr (HUIntToIn6 src) in
    let! p := save p Hdr.v6_dstaddr (HUIntToIn6 dst) in
    let! newSrcIP := load p Hdr.v6_srcaddr 16 in
    let! newDstIP := load p Hdr.v6_dstaddr 16 in
    let oSrcIP := in6_uint32 oldSrcIP in
    let oDstIP := in6_uint32 oldDstIP in
    let nSrcIP := in6_uint32 newSrcIP in
    let nDstIP := in6_uint32 newDstIP in
    let! protocol := get 1 p Hdr.v6_protocol in
    let! hdrs := ext_headers (S sz) p protocol ihs (sz - ihs) in
    match hdrs with
    | None => Done p
    | Some (nextproto, pld, psz, fragoff) =>
        if (nextproto =? 6)%Z then
          deltaChecksumIPv6TCP p pld psz fragoff 16 oSrcIP oDstIP nSrcIP nDstIP
        else if (nextproto =? 17)%Z || (nextproto =? 136)%Z then
          deltaChecksumIPv6UDP p pld psz fragoff oSrcIP oDstIP nSrcIP nDstIP
        else if (nextproto =? 33)%Z then
          deltaChecksumIPv6TCP p pld psz fragoff 6 oSrcIP oDstIP nSrcIP nDstIP
        else Done p
    end.

Definition ZeroAddresses (p : list Z) (flowlabel : option Z) : outcome (list Z) :=
  let! v4 := IsV4 p in
  if v4 then UpdateIPv4Address p 0 0
  else
    let! v6 := IsV6 p in
    if v6 then UpdateIPv6Address p (of_u64 0) (of_u64 0) flowlabel else Done p.

Definition ZeroSourceAddress (p : list Z) (flowlabel : option Z) : outcome (list Z) :=
  let! v4 := IsV4 p in
  if v4 then
    let! dst := dstv4 p in UpdateIPv4Address p 0 (htonl dst)
  else
    let! v6 := IsV6 p in
    if v6 then
      let! dst := dstv6 p in UpdateIPv6Address p (of_u64 0) dst flowlabel
    else Done p.

Inductive icmp_result :=
| IcmpThrows
| IcmpNone
| IcmpReply (pkt : list Z).

Definition MakeICMPUnreachable (p : list Z) : outcome icmp_result :=
  let! v4 := IsV4 p in
  if negb v4 then Done IcmpNone
  else
    let icmp_Header_size := 8 in
    let! ihl := Hdr.ihl p in
    let ip_Header_size := ihl * 4 in
    let pkt_size := (icmp_Header_size + ip_Header_size) * 2 in
    match IPPacket_size pkt_size with
    | None => Done IcmpThrows
    | Some pkt =>
        let! pkt := Hdr.set_version pkt 4 in
        let! pkt := Hdr.set_ihl pkt 0x05 in
        let! pkt := set 1 pkt Hdr.tos 0 in
        let! pkt := set 2 pkt Hdr.check 0 in
        let! pkt := set 2 pkt Hdr.tot_len (htons (u16 (Z.of_nat pkt_size))) in
        let! daddr := get 4 p Hdr.daddr in
        let! pkt := set 4 pkt Hdr.saddr daddr in
        let! saddr := get 4 p Hdr.saddr in
        let! pkt := set 4 pkt Hdr.daddr saddr in
        let! pkt := set 1 pkt Hdr.protocol 1 in
        let! ttl := get 1 p Hdr.ttl in
        let! pkt := set 1 pkt Hdr.ttl ttl in
        let! pkt := set 2 pkt Hdr.frag_off (htons 0x4000) in
        let icmp_begin := ip_Header_size in
        let! pkt := set 1 pkt icmp_begin 3 in
        let! pkt := set 1 pkt (icmp_begin + 1) 7 in
        let checksum := icmp_begin + 2 in
        let! pkt := save pkt (icmp_begin + 2) (write_host_as_big 4 0) in
        let! pkt := save pkt (icmp_begin + 6) (write_host_as_big 2 1500) in
        let! quoted := load p 0 (ip_Header_size + icmp_Header_size) in
        let! pkt := save pkt (icmp_begin + 8) quoted in
        let itr := icmp_begin + 8 + (ip_Header_size + icmp_Header_size) in
        let! header := load pkt 0 ip_Header_size in
        let! pkt := set 2 pkt Hdr.check (ipchksum header 0) in
        let! icmp := load pkt icmp_begin (itr - icmp_begin) in
        let! pkt := set 2 pkt checksum (ipchksum icmp 0) in
        Done (IcmpReply pkt)
    end.

Definition udp_header_bytes := 8.
Definition ip_header_min_bytes := 20.

(** The constructor does not throw here: the size is at least the overhead. *)
Definition make_ip4_udp (srcaddr srcport dstaddr dstport : Z) (udp_data : list Z)
  : outcome (list Z) :=
  let pkt_overhead := udp_header_bytes + ip_header_min_bytes in
  let pkt := default [] (IPPacket_size (length udp_data + pkt_overhead)) in
  let! pkt := set 1 pkt 1 0 in
  let! pkt := Hdr.set_version pkt 4 in
  let! pkt := Hdr.set_ihl pkt 5 in
  let! pkt := set 2 pkt Hdr.tot_len (htons (u16 (Z.of_nat (pkt_overhead + length udp_data)))) in
  let! pkt := set 1 pkt Hdr.protocol 0x11 in
  let! pkt := set 1 pkt Hdr.ttl 64 in
  let! pkt := set 2 pkt Hdr.frag_off (htons 0x4000) in
  let! pkt := set 4 pkt Hdr.saddr srcaddr in
  let! pkt := set 4 pkt Hdr.daddr dstaddr in
  let ptr := ip_header_min_bytes in
  let! pkt := set 2 pkt ptr srcport in
  let! pkt := set 2 pkt (ptr + 2) dstport in
  let! pkt := save pkt (ptr + 4)
    (write_host_as_big 2 (u16 (Z.of_nat (length udp_data + udp_header_bytes)))) in
  let! pkt := save pkt (ptr + 6) (write_host_as_big 2 0) in
  let! pkt := save pkt (ptr + 8) udp_data in
  let! pkt := set 2 pkt Hdr.check 0 in
  let! header := load pkt 0 20 in
  set 2 pkt Hdr.check (ipchksum header 0).

Inductive ipaddr_t :=
| ipv4addr_t (n : Z)
| ipv6addr_t (n : uint128_t).

Definition make_udp (srcaddr : ipaddr_t) (srcport : Z) (dstaddr : ipaddr_t) (dstport : Z)
  (udp_data : list Z) : outcome (list Z) :=
  match srcaddr, dstaddr with
  | ipv4addr_t s, ipv4addr_t d => make_ip4_udp s srcport d dstport udp_data
  | _, _ => Done []
  end.

(** [IPPacket::UDP] *)
Definition UDP (srcaddr srcport dstaddr dstport : Z) (data : llarp_buffer_t)
  : outcome (list Z) :=
  make_udp (ipv4addr_t srcaddr) srcport (ipv4addr_t dstaddr) dstport (copy data).
End Packets.

(** ** Loads and stores *)

Open Scope Z_scope.

Lemma le_value_bytes n v : le_value (le_bytes n v) = v mod 256 ^ Z.of_nat n.
Proof. unfold le_value, le_bytes. by rewrite rev_involutive, be_value_be_bytes_mod. Qed.

Lemma le_value_cons a l : le_value (a :: l) = a + 256 * le_value l.
Proof.
  unfold le_value. cbn [rev]. rewrite be_value_app, be_value_cons.
  cbn [length]. change (256 ^ Z.of_nat 1) with 256. change (256 ^ Z.of_nat 0) with 1.
  change (be_value []) with 0. lia.
Qed.

Lemma le_value_range l : bytes_ok l -> 0 <= le_value l < 256 ^ Z.of_nat (length l).
Proof.
  intros. unfold le_value. rewrite <- length_rev. apply be_value_range. by apply Forall_rev.
Qed.

Lemma length_le_bytes n v : length (le_bytes n v) = n.
Proof. unfold le_bytes. by rewrite length_rev, length_be_bytes. Qed.

Lemma le_bytes_ok n v : bytes_ok (le_bytes n v).
Proof. apply Forall_rev, be_bytes_ok. Qed.

Lemma le_bytes_value l : bytes_ok l -> le_bytes (length l) (le_value l) = l.
Proof.
  intros. unfold le_bytes, le_value. rewrite <- length_rev.
  rewrite be_bytes_be_value by (by apply Forall_rev). apply rev_involutive.
Qed.

Lemma get_done n p off : (off + n <= length p)%nat ->
  get n p off = Done (le_value (take n (drop off p))).
Proof. intros. unfold get. by rewrite load_done. Qed.

Lemma set_done n p off v : (off + n <= length p)%nat ->
  set n p off v = Done (store p off (le_bytes n v)).
Proof. intros. unfold set. rewrite save_done; [done|by rewrite length_le_bytes]. Qed.

Lemma length_set n p off v : (off + n <= length p)%nat -> length (store p off (le_bytes n v)) = length p.
Proof. intros. apply length_store. by rewrite length_le_bytes. Qed.

Lemma store_ok p off bs : bytes_ok p -> bytes_ok bs -> bytes_ok (store p off bs).
Proof.
  intros. unfold store. rewrite !Forall_app. split_and!; [by apply Forall_take|done|by apply Forall_drop].
Qed.

(** A store seen through [take] and [drop]. *)
Lemma take_store_before p off bs n : (n <= off)%nat -> (off + length bs <= length p)%nat ->
  take n (store p off bs) = take n p.
Proof.
  intros. unfold store. rewrite take_app_le by (rewrite length_take; lia).
  rewrite take_take. by rewrite Nat.min_l.
Qed.

Lemma drop_store_after p off bs n : (off + length bs <= n)%nat -> (off + length bs <= length p)%nat ->
  drop n (store p off bs) = drop n p.
Proof.
  intros. unfold store. rewrite app_assoc, drop_app_ge by (rewrite length_app, length_take; lia).
  rewrite length_app, length_take, drop_drop. f_equal. lia.
Qed.

Lemma take_store_within p off bs n : (off + length bs <= n)%nat -> (off + length bs <= length p)%nat ->
  take n (store p off bs) = store (take n p) off bs.
Proof.
  intros. unfold store. rewrite app_assoc, take_app_ge by (rewrite length_app, length_take; lia).
  rewrite length_app, length_take, <- app_assoc, take_take, Nat.min_l by lia.
  rewrite Nat.min_l by lia. rewrite take_drop_commute. do 4 f_equal. lia.
Qed.

Lemma drop_store_within p off bs n : (n <= off)%nat -> (off + length bs <= length p)%nat ->
  drop n (store p off bs) = store (drop n p) (off - n) bs.
Proof.
  intros. unfold store. rewrite drop_app_le by (rewrite length_take; lia).
  rewrite drop_drop, skipn_firstn_comm. do 2 f_equal. f_equal. lia.
Qed.

Lemma read_store p off bs : (off + length bs <= length p)%nat ->
  take (length bs) (drop off (store p off bs)) = bs.
Proof.
  intros. rewrite drop_store_within, Nat.sub_diag by lia. unfold store.
  by rewrite take_0, app_nil_l, take_app_length.
Qed.

Lemma read_set n p off v : (off + n <= length p)%nat ->
  take n (drop off (store p off (le_bytes n v))) = le_bytes n v.
Proof.
  intros. pose proof (read_store p off (le_bytes n v)) as E. rewrite length_le_bytes in E. by apply E.
Qed.

Lemma lookup_store p off bs i : (off + length bs <= length p)%nat -> (i < off \/ off + length bs <= i)%nat ->
  store p off bs !! i = p !! i.
Proof.
  intros ? [Hi|Hi].
  - rewrite <- (lookup_take_lt _ off i) by lia. rewrite take_store_before by lia.
    by rewrite lookup_take_lt by lia.
  - replace i with (off + length bs + (i - (off + length bs)))%nat by lia.
    rewrite <- !lookup_drop. by rewrite drop_store_after by lia.
Qed.

(** ** One's complement sums *)

(** The 16-bit words of a byte string in host memory, an odd last byte padded. *)
Fixpoint word_sum (l : list Z) : Z :=
  match l with
  | a :: b :: t => a + 256 * b + word_sum t
  | [a] => a
  | [] => 0
  end.

Lemma pair_ind (P : list Z -> Prop) :
  P [] -> (forall a, P [a]) -> (forall a b l, P l -> P (a :: b :: l)) -> forall l, P l.
Proof.
  intros H0 H1 H2. fix IH 1. intros [|a [|b l]]; [exact H0|exact (H1 a)|exact (H2 a b l (IH l))].
Qed.

Lemma word_sum_app l1 l2 : Nat.Even (length l1) -> word_sum (l1 ++ l2) = word_sum l1 + word_sum l2.
Proof.
  induction l1 as [|a|a b l IH] using pair_ind; intros He; [done|by destruct He as [k ?]; cbn in *; lia|].
  cbn [app word_sum]. rewrite IH; [lia|]. destruct He as [k Hk]. exists (k - 1)%nat. cbn in Hk. lia.
Qed.

Lemma word_sum_range l : bytes_ok l -> 0 <= word_sum l <= 65535 * Z.of_nat (length l).
Proof.
  induction l as [|a|a b l IH] using pair_ind; intros Hok; cbn [word_sum length]; [lia|..];
    rewrite ?Forall_cons in Hok; unfold is_byte in Hok; [lia|].
  specialize (IH ltac:(tauto)). lia.
Qed.

Lemma word_sum_head a l : bytes_ok (a :: l) -> a <= word_sum (a :: l).
Proof.
  intros Hok. destruct l as [|b l]; [done|]. rewrite !Forall_cons in Hok. destruct Hok as (?&Hb&Hl).
  pose proof (word_sum_range l Hl). cbn [word_sum]. unfold is_byte in *. lia.
Qed.

Lemma word_sum_store p off bs : Nat.Even off -> Nat.Even (length bs) ->
  (off + length bs <= length p)%nat ->
  word_sum (store p off bs) = word_sum p - word_sum (take (length bs) (drop off p)) + word_sum bs.
Proof.
  intros Ho Hb Hl. unfold store.
  rewrite <- (take_drop off p) at 3. rewrite <- (take_drop (length bs) (drop off p)) at 1.
  rewrite drop_drop. rewrite !word_sum_app; [lia|..];
    rewrite ?length_take, ?length_drop, ?Nat.min_l; done || lia.
Qed.

(** Adding 16-bit words with end-around carry: a positive sum is represented in
    [1..0xffff], zero only by itself. *)
Definition oc_fold (s : Z) : Z := if s =? 0 then 0 else (s - 1) mod 65535 + 1.

Lemma oc_fold_range s : 0 <= oc_fold s < 65536.
Proof. unfold oc_fold. destruct (s =? 0); [lia|]. pose proof (Z.mod_pos_bound (s - 1) 65535). lia. Qed.

Lemma oc_fold_mod s : oc_fold s mod 65535 = s mod 65535.
Proof.
  unfold oc_fold. destruct (Z.eqb_spec s 0) as [->|]; [done|].
  rewrite Z.add_mod_idemp_l by lia. f_equal. lia.
Qed.

Lemma oc_fold_pos s : 0 < s -> 0 < oc_fold s.
Proof.
  intros. unfold oc_fold. destruct (Z.eqb_spec s 0); [lia|].
  pose proof (Z.mod_pos_bound (s - 1) 65535). lia.
Qed.

Lemma oc_fold_full s : 0 < s -> s mod 65535 = 0 -> oc_fold s = 65535.
Proof.
  intros Hs Hm. unfold oc_fold. destruct (Z.eqb_spec s 0); [lia|].
  assert ((s - 1) mod 65535 = 65534); [|lia].
  apply Z.mod_divide in Hm as [k ->]; [|lia].
  replace (k * 65535 - 1) with (65534 + (k - 1) * 65535) by lia. by rewrite Z.mod_add.
Qed.

Lemma land_ffff v : 0 <= v -> Z.land v 0xffff = v mod 65536.
Proof. intros. change 0xffff with (Z.ones 16). rewrite Z.land_ones; done. Qed.

Lemma fold32_spec s : in_width 32 s -> Z.land (fold32 s) 0xffff = oc_fold s.
Proof.
  unfold in_width. change (2 ^ 32) with 4294967296. intros Hs. unfold fold32, wrap.
  rewrite (land_ffff s), !Z.shiftr_div_pow2 by lia. change (2 ^ 16) with 65536. change (2 ^ 32) with 4294967296.
  set (h := s / 65536). set (l := s mod 65536). pose proof (Z.div_mod s 65536 ltac:(lia)) as E.
  fold h l in E. assert (0 <= l < 65536) by (apply Z.mod_pos_bound; lia).
  assert (0 <= h < 65536) by lia. rewrite (Z.mod_small (l + h)) by lia.
  assert (0 <= (l + h) / 65536 <= 1) as Hq by
    (split; [apply Z.div_pos; lia|apply Z.lt_succ_r, Z.div_lt_upper_bound; lia]).
  rewrite Z.mod_small by lia. rewrite land_ffff by lia.
  unfold oc_fold. destruct (Z.eqb_spec s 0) as [->|]; [done|].
  destruct (Z_lt_le_dec (l + h) 65536).
  - rewrite (Z.div_small (l + h)), Z.mod_small by lia.
    replace (s - 1) with ((l + h - 1) + h * 65535) by lia. rewrite Z.mod_add, Z.mod_small; lia.
  - replace ((l + h) / 65536) with 1 by (apply (Z.div_unique _ _ _ (l + h - 65536)); lia).
    replace (l + h + 1) with ((l + h - 65535) + 1 * 65536) by lia.
    rewrite Z.mod_add, Z.mod_small by lia.
    replace (s - 1) with ((l + h - 65535 - 1) + (h + 1) * 65535) by lia. rewrite Z.mod_add, Z.mod_small; lia.
Qed.

Lemma ipchksum_loop_spec l s : bytes_ok l -> 0 <= s -> s + word_sum l < 2 ^ 32 ->
  ipchksum_loop l s = s + word_sum l.
Proof.
  revert s. induction l as [|a|a b l IH] using pair_ind; intros s Hok Hs Hl;
    cbn [ipchksum_loop word_sum] in *; rewrite ?Forall_cons in Hok; unfold is_byte in Hok; [lia|..];
    rewrite !le_value_cons; change (le_value []) with 0.
  - rewrite wrap_small; [lia|]. unfold in_width. lia.
  - destruct Hok as (?&?&Hok). pose proof (word_sum_range l Hok).
    rewrite wrap_small by (unfold in_width; lia). rewrite IH; [lia|done|lia..].
Qed.

(** At most 65536 bytes: the sum fits in 32 bits. *)
Lemma word_sum_small l : bytes_ok l -> Z.of_nat (length l) <= 65536 -> in_width 32 (word_sum l).
Proof. intros Hok Hl. pose proof (word_sum_range l Hok). unfold in_width. lia. Qed.

Lemma lnot_ffff s : 0 <= s -> Z.land (u32 (Z.lnot s)) 0xffff = 65535 - Z.land s 0xffff.
Proof.
  intros Hs. rewrite !land_ffff by (done || apply wrap_range; lia).
  unfold wrap. change (2 ^ 32) with (65536 * 65536). rewrite Z.rem_mul_r by lia.
  rewrite Z.mul_comm, Z.mod_add, Z.mod_mod by lia. unfold Z.lnot.
  pose proof (Z.div_mod s 65536 ltac:(lia)). pose proof (Z.mod_pos_bound s 65536 ltac:(lia)).
  replace (Z.pred (- s)) with ((65535 - s mod 65536) + (- (s / 65536) - 1) * 65536) by lia.
  rewrite Z.mod_add, Z.mod_small; lia.
Qed.

Lemma ipchksum_spec l : bytes_ok l -> Z.of_nat (length l) <= 65536 ->
  ipchksum l 0 = 65535 - oc_fold (word_sum l).
Proof.
  intros Hok Hl. pose proof (word_sum_small l Hok Hl) as Hw. unfold ipchksum.
  rewrite ipchksum_loop_spec by (done || unfold in_width in Hw; lia). rewrite Z.add_0_l.
  pose proof (oc_fold_range (word_sum l)).
  rewrite lnot_ffff by (unfold fold32; apply (wrap_range 32); lia). rewrite fold32_spec by done.
  rewrite wrap_small; [done|]. unfold in_width. lia.
Qed.

(** A checksummed region verifies when its words sum to a multiple of 0xffff. *)
Lemma ipchksum_verifies l : bytes_ok l -> Z.of_nat (length l) <= 65536 ->
  ipchksum l 0 = 0 <-> 0 < word_sum l /\ word_sum l mod 65535 = 0.
Proof.
  intros Hok Hl. rewrite ipchksum_spec by done. pose proof (word_sum_range l Hok).
  pose proof (oc_fold_mod (word_sum l)) as Hm. split.
  - intros Hz. assert (oc_fold (word_sum l) = 65535) as E by lia. rewrite E in Hm. split; [|by rewrite <- Hm].
    destruct (Z.eq_dec (word_sum l) 0) as [E0|]; [|lia]. by rewrite E0 in E.
  - intros [Hp Hz]. rewrite oc_fold_full by done. lia.
Qed.

Lemma word_sum_le2 c : word_sum (le_bytes 2 c) = c mod 65536.
Proof.
  rewrite <- (le_value_bytes 2 c : _ = c mod 65536).
  pose proof (length_le_bytes 2 c) as Hl. destruct (le_bytes 2 c) as [|a [|b [|]]]; try done.
  rewrite !le_value_cons. cbn. change (le_value []) with 0. lia.
Qed.

(** Storing the checksum of a region with a zeroed field at an even offset makes
    the region verify. *)
Lemma checksum_store l off : bytes_ok l -> Z.of_nat (length l) <= 65536 -> Nat.Even off ->
  (off + 2 <= length l)%nat -> take 2 (drop off l) = [0; 0] ->
  ipchksum (store l off (le_bytes 2 (ipchksum l 0))) 0 = 0.
Proof.
  intros Hok Hl He Ho Hz. pose proof (length_le_bytes 2 (ipchksum l 0)) as Hlen.
  assert (Nat.Even 2) as H2 by (by exists 1%nat).
  apply ipchksum_verifies.
  - apply store_ok; [done|apply le_bytes_ok].
  - rewrite length_store; lia.
  - rewrite word_sum_store, word_sum_le2 by (done || rewrite Hlen; done || lia).
    rewrite Hlen, Hz, ipchksum_spec by done. cbn [word_sum].
    pose proof (oc_fold_range (word_sum l)) as Hr. pose proof (word_sum_range l Hok).
    rewrite (Z.mod_small (65535 - _)) by lia. split.
    + destruct (Z.eq_dec (word_sum l) 0) as [E|]; [rewrite E; done|lia].
    + replace (word_sum l - (0 + 256 * 0 + 0) + (65535 - oc_fold (word_sum l)))
        with (word_sum l - oc_fold (word_sum l) + 1 * 65535) by lia.
      rewrite Z.mod_add, Zminus_mod, oc_fold_mod, Z.sub_diag by lia. done.
Qed.

(** ** Incremental checksum updates *)

Lemma le_value4 l : bytes_ok l -> length l = 4%nat -> exists lo hi,
  0 <= lo < 65536 /\ 0 <= hi < 65536 /\ le_value l = hi * 65536 + lo /\ word_sum l = lo + hi.
Proof.
  intros Hok Hl. destruct l as [|a [|b [|c [|d [|]]]]]; try done.
  rewrite !Forall_cons in Hok. unfold is_byte in Hok. exists (a + 256 * b), (c + 256 * d).
  rewrite !le_value_cons. change (le_value []) with 0. cbn [word_sum]. lia.
Qed.

Lemma half_words lo hi : 0 <= lo < 65536 -> 0 <= hi < 65536 ->
  u32 (Z.land (hi * 65536 + lo) 0xffff + Z.shiftr (hi * 65536 + lo) 16) = lo + hi.
Proof.
  intros. rewrite land_ffff, Z.shiftr_div_pow2 by lia. change (2 ^ 16) with 65536.
  rewrite Z.div_add_l, (Z.div_small lo), Z.add_0_r by lia.
  rewrite (Z.add_comm (hi * 65536)), Z.mod_add, Z.mod_small by lia. rewrite wrap_small; unfold in_width; lia.
Qed.

Lemma ADD32CS_spec l : bytes_ok l -> length l = 4%nat -> ADD32CS (le_value l) = word_sum l.
Proof.
  intros Hok Hl. destruct (le_value4 l Hok Hl) as (lo&hi&?&?&->&->). by apply half_words.
Qed.

Lemma SUB32CS_spec l : bytes_ok l -> length l = 4%nat -> SUB32CS (le_value l) = 131070 - word_sum l.
Proof.
  intros Hok Hl. destruct (le_value4 l Hok Hl) as (lo&hi&?&?&->&->). unfold SUB32CS, Z.lnot.
  assert (u32 (Z.pred (- (hi * 65536 + lo))) = (65535 - hi) * 65536 + (65535 - lo)) as ->.
  - apply (wrap_eq 32 _ (-1)); unfold in_width; lia.
  - rewrite half_words; lia.
Qed.

(** What both delta functions compute: the old checksum plus the old words minus
    the new ones, in one's complement. *)
Definition delta_spec (delta : Z -> Z) (old new : Z) : Prop :=
  exists k, 0 <= k /\ 0 <= k * 65535 - new /\
  forall c, in_width 16 c -> delta c = oc_fold (c + old + k * 65535 - new).

Lemma fold16 s : in_width 32 s -> u16 (Z.land (fold32 s) 0xffff) = oc_fold s.
Proof.
  intros. rewrite fold32_spec by done. pose proof (oc_fold_range s). apply wrap_small.
  unfold in_width. lia.
Qed.

Lemma words4 l : bytes_ok l -> length l = 4%nat -> 0 <= word_sum l <= 131070.
Proof. intros Hok Hl. destruct (le_value4 l Hok Hl) as (lo&hi&?&?&_&->). lia. Qed.

Lemma deltaIPv4_spec os od ns nd :
  Forall (fun l => bytes_ok l /\ length l = 4%nat) [os; od; ns; nd] ->
  delta_spec (fun c => deltaIPv4Checksum c (le_value os) (le_value od) (le_value ns) (le_value nd))
    (word_sum os + word_sum od) (word_sum ns + word_sum nd).
Proof.
  rewrite !Forall_cons. intros ([? ?]&[? ?]&[? ?]&[? ?]&_).
  pose proof (words4 os ltac:(done) ltac:(done)). pose proof (words4 od ltac:(done) ltac:(done)). pose proof (words4 ns ltac:(done) ltac:(done)). pose proof (words4 nd ltac:(done) ltac:(done)).
  exists 4. split_and!; [lia|lia|]. unfold in_width. intros c Hc. unfold deltaIPv4Checksum.
  rewrite !ADD32CS_spec, !SUB32CS_spec, (wrap_small 32), fold16 by (done || unfold in_width; lia).
  f_equal. lia.
Qed.

Lemma in6_words l : bytes_ok l -> length l = 16%nat -> exists a b c d,
  in6_uint32 l = map le_value [a; b; c; d]
  /\ Forall (fun l => bytes_ok l /\ length l = 4%nat) [a; b; c; d]
  /\ word_sum l = word_sum a + word_sum b + word_sum c + word_sum d.
Proof.
  intros Hok Hl. do 16 (destruct l as [|? l]; [done|]). destruct l; [|done].
  do 4 eexists. split; [reflexivity|]. rewrite !Forall_cons in Hok.
  cbn [take drop Nat.mul Nat.add word_sum]. split; [|lia].
  rewrite !Forall_cons. split_and!; tauto || constructor.
Qed.

Lemma N128CS_spec a b c d :
  Forall (fun l => bytes_ok l /\ length l = 4%nat) [a; b; c; d] ->
  let s := word_sum a + word_sum b + word_sum c + word_sum d in
  0 <= s <= 524280 /\
  ADDN128CS (map le_value [a; b; c; d]) = s /\ SUBN128CS (map le_value [a; b; c; d]) = 524280 - s.
Proof.
  rewrite !Forall_cons. intros ([? ?]&[? ?]&[? ?]&[? ?]&_).
  pose proof (words4 a ltac:(done) ltac:(done)). pose proof (words4 b ltac:(done) ltac:(done)). pose proof (words4 c ltac:(done) ltac:(done)). pose proof (words4 d ltac:(done) ltac:(done)).
  unfold ADDN128CS, SUBN128CS. cbn [map fold_right].
  rewrite !ADD32CS_spec, !SUB32CS_spec by done.
  unfold wrap. rewrite !(Z.mod_small (_ + 0)) by lia. rewrite !(Z.mod_small (_ + (_ + 0))) by lia.
  rewrite !(Z.mod_small (_ + (_ + (_ + 0)))) by lia. rewrite !Z.mod_small by lia. lia.
Qed.

Lemma deltaIPv6_spec os od ns nd :
  Forall (fun l => bytes_ok l /\ length l = 16%nat) [os; od; ns; nd] ->
  delta_spec (fun c => deltaIPv6Checksum c (in6_uint32 os) (in6_uint32 od) (in6_uint32 ns) (in6_uint32 nd))
    (word_sum os + word_sum od) (word_sum ns + word_sum nd).
Proof.
  rewrite !Forall_cons. intros ([O1 L1]&[O2 L2]&[O3 L3]&[O4 L4]&_).
  destruct (in6_words os O1 L1) as (?&?&?&?&->&F1&->). destruct (in6_words od O2 L2) as (?&?&?&?&->&F2&->).
  destruct (in6_words ns O3 L3) as (?&?&?&?&->&F3&->). destruct (in6_words nd O4 L4) as (?&?&?&?&->&F4&->).
  destruct (N128CS_spec _ _ _ _ F1) as (?&E1&_). destruct (N128CS_spec _ _ _ _ F2) as (?&E2&_).
  destruct (N128CS_spec _ _ _ _ F3) as (?&_&E3). destruct (N128CS_spec _ _ _ _ F4) as (?&_&E4).
  exists 16. split_and!; [lia|lia|]. unfold in_width. intros c Hc. unfold deltaIPv6Checksum.
  rewrite E1, E2, E3, E4, (wrap_small 32), fold16 by (unfold in_width; lia). f_equal. lia.
Qed.

(** ** Address rewriting *)

(** Where the packet carries the checksum field of its transport header: none
    for other protocols, when the field is in another fragment or cut off, or
    when UDP says it has none. *)
Definition tcp_field (pld psz fragoff off : nat) : option nat :=
  if bool_decide (fragoff <= off /\ off - fragoff + 2 <= psz)%nat
  then Some (pld + off - fragoff)%nat else None.

Definition udp_field (p : list Z) (pld psz fragoff : nat) : option nat :=
  if bool_decide (fragoff <= 6 /\ 8 <= psz /\ le_value (take 2 (drop (pld + 6) p)) <> 0%Z)%nat
  then Some (pld + 6)%nat else None.

Definition l4_field (proto : Z) (p : list Z) (pld psz fragoff : nat) : option nat :=
  if proto =? 6 then tcp_field pld psz fragoff 16
  else if (proto =? 17) || (proto =? 136) then udp_field p pld psz fragoff
  else if proto =? 33 then tcp_field pld psz fragoff 6
  else None.

(** The field holds the new checksum, up to the two representations of zero. *)
Definition adjusted (delta : Z -> Z) (p : list Z) (field : option nat) (p' : list Z) : Prop :=
  match field with
  | None => p' = p
  | Some off => exists c', in_width 16 c'
      /\ c' mod 65535 = delta (le_value (take 2 (drop off p))) mod 65535
      /\ p' = store p off (le_bytes 2 c')
  end.

Lemma store_store p off bs bs' : length bs = length bs' -> (off + length bs <= length p)%nat ->
  store (store p off bs) off bs' = store p off bs'.
Proof.
  intros El Hl. unfold store at 1. rewrite take_store_before, <- El, drop_store_after by lia.
  unfold store. by rewrite El.
Qed.

Lemma field_width p off : bytes_ok p -> in_width 16 (le_value (take 2 (drop off p))).
Proof.
  intros Hok. assert (bytes_ok (take 2 (drop off p))) as Hb by (by apply Forall_take, Forall_drop).
  pose proof (le_value_range _ Hb) as Hr. assert (length (take 2 (drop off p)) <= 2)%nat by (rewrite length_take; lia).
  assert (256 ^ Z.of_nat (length (take 2 (drop off p))) <= 256 ^ 2) by (apply Z.pow_le_mono_r; lia).
  unfold in_width. lia.
Qed.

Lemma delta_width delta old new c : delta_spec delta old new -> in_width 16 c -> in_width 16 (delta c).
Proof. intros (k&_&_&E) Hc. rewrite E by done. apply oc_fold_range. Qed.

Lemma deltaTCP_adjusted delta old new p pld psz fragoff off : bytes_ok p ->
  delta_spec delta old new -> (pld + psz <= length p)%nat ->
  exists p', deltaChecksumTCP delta p pld psz fragoff off = Done p'
    /\ adjusted delta p (tcp_field pld psz fragoff off) p'.
Proof.
  intros Hok Hd Hl. unfold deltaChecksumTCP, tcp_field.
  destruct (bool_decide (off < fragoff \/ _)%nat) eqn:E.
  { apply bool_decide_eq_true_1 in E. rewrite bool_decide_false by lia. by eexists. }
  apply bool_decide_eq_false_1 in E. rewrite bool_decide_true by lia.
  set (at_ := (pld + off - fragoff)%nat). assert (at_ + 2 <= length p)%nat by (unfold at_; lia).
  pose proof (field_width p at_ Hok) as Hc. pose proof (delta_width _ _ _ _ Hd Hc) as Hw.
  rewrite get_done by done. cbn [obind]. set (c := le_value _) in *. rewrite set_done by done. cbn [obind].
  rewrite get_done by (rewrite length_set; lia). cbn [obind].
  rewrite read_set, le_value_bytes, (Z.mod_small (delta c)) by (done || exact Hw).
  destruct (Z.eqb_spec (delta c) 0xffff) as [Ed|Ed].
  - rewrite set_done by (rewrite length_set; lia). eexists. split; [done|].
    cbn. fold c. exists 0. split; [done|]. rewrite Ed. split; [done|].
    by rewrite store_store by (rewrite ?length_le_bytes; done).
  - eexists. split; [done|]. cbn. fold c. by exists (delta c).
Qed.

Lemma deltaUDP_adjusted delta old new p pld psz fragoff : bytes_ok p ->
  delta_spec delta old new -> (pld + psz <= length p)%nat ->
  exists p', deltaChecksumUDP delta p pld psz fragoff = Done p'
    /\ adjusted delta p (udp_field p pld psz fragoff) p'.
Proof.
  intros Hok Hd Hl. unfold deltaChecksumUDP, udp_field.
  destruct (bool_decide (6 < fragoff \/ _)%nat) eqn:E.
  { apply bool_decide_eq_true_1 in E. rewrite bool_decide_false by lia. by eexists. }
  apply bool_decide_eq_false_1 in E. assert (pld + 6 + 2 <= length p)%nat by lia.
  rewrite get_done by done. cbn [obind].
  pose proof (field_width p (pld + 6) Hok) as Hc. pose proof (delta_width _ _ _ _ Hd Hc) as Hw.
  destruct (Z.eqb_spec (le_value (take 2 (drop (pld + 6) p))) 0) as [Ez|Ez].
  - rewrite bool_decide_false by tauto. by eexists.
  - rewrite bool_decide_true by (split_and!; [lia|lia|done]). rewrite set_done by done.
    eexists. split; [done|]. cbn. by eexists.
Qed.

Lemma l4_switch delta old new proto p pld psz fragoff : bytes_ok p ->
  delta_spec delta old new -> (pld + psz <= length p)%nat ->
  exists p',
    (if proto =? 6 then deltaChecksumTCP delta p pld psz fragoff 16
     else if (proto =? 17) || (proto =? 136) then deltaChecksumUDP delta p pld psz fragoff
     else if proto =? 33 then deltaChecksumTCP delta p pld psz fragoff 6
     else Done p) = Done p'
    /\ adjusted delta p (l4_field proto p pld psz fragoff) p'.
Proof.
  intros Hok Hd Hl. unfold l4_field. case_tests.
  - by eapply deltaTCP_adjusted.
  - by eapply deltaUDP_adjusted.
  - by eapply deltaTCP_adjusted.
  - by eexists.
Qed.

Lemma l4_field_bounds proto p pld psz fragoff off :
  l4_field proto p pld psz fragoff = Some off -> Nat.Even pld -> Nat.Even fragoff ->
  Nat.Even off /\ (pld <= off)%nat /\ (off + 2 <= pld + psz)%nat.
Proof.
  intros Hf [a ->] [b ->]. unfold l4_field, tcp_field, udp_field in Hf.
  destruct (proto =? 6); [|destruct (_ || _); [|destruct (proto =? 33); [|done]]];
    (destruct (bool_decide _) eqn:E in Hf; [apply bool_decide_eq_true_1 in E|done]); simplify_eq.
  - split; [exists (a + 8 - b)%nat|]; lia.
  - split; [exists (a + 3)%nat|]; lia.
  - split; [exists (a + 3 - b)%nat|]; lia.
Qed.

Lemma even2 : Nat.Even 2.
Proof. by exists 1%nat. Qed.

Lemma even_sub a b : Nat.Even a -> Nat.Even b -> Nat.Even (a - b).
Proof. intros [x ->] [y ->]. exists (x - y)%nat. lia. Qed.

Lemma even_double k : Nat.Even (2 * k).
Proof. by exists k. Qed.
#[local] Hint Resolve even2 even_sub even_double : belnet.

(** The words from an even offset on after a store into a 16-bit field. *)
Lemma word_sum_field p k off c : bytes_ok p -> Nat.Even k -> Nat.Even off -> (k <= off)%nat ->
  (off + 2 <= length p)%nat -> in_width 16 c ->
  word_sum (drop k (store p off (le_bytes 2 c)))
  = word_sum (drop k p) - le_value (take 2 (drop off p)) + c.
Proof.
  intros Hok Hk Ho Hle Hl Hc. pose proof (length_le_bytes 2 c) as Hn.
  rewrite drop_store_within by (rewrite ?Hn; lia).
  rewrite word_sum_store by (rewrite ?Hn, ?length_drop; auto with belnet; lia).
  rewrite word_sum_le2, (Z.mod_small c), Hn, drop_drop by exact Hc.
  replace (k + (off - k))%nat with off by lia. do 2 f_equal.
  assert (bytes_ok (take 2 (drop off p))) as Hb by (by apply Forall_take, Forall_drop).
  assert (length (take 2 (drop off p)) = 2%nat) as El by (rewrite length_take, length_drop; lia).
  rewrite <- (le_bytes_value _ Hb) at 1. rewrite El, word_sum_le2. apply Z.mod_small.
  by apply field_width.
Qed.

Lemma adjusted_sum delta old new p p' off k : delta_spec delta old new -> bytes_ok p ->
  adjusted delta p (Some off) p' -> Nat.Even k -> Nat.Even off -> (k <= off)%nat ->
  (off + 2 <= length p)%nat ->
  word_sum (drop k p') mod 65535 = (word_sum (drop k p) + old - new) mod 65535.
Proof.
  intros (m&?&?&Hd) Hok (c&Hc&Ec&->) Hk Ho Hle Hl. rewrite word_sum_field by done.
  rewrite Hd, oc_fold_mod in Ec by (by apply field_width). set (f := le_value _) in *.
  rewrite <- Zplus_mod_idemp_r, Ec, Zplus_mod_idemp_r.
  replace (word_sum (drop k p) - f + (f + old + m * 65535 - new))
    with (word_sum (drop k p) + old - new + m * 65535) by lia.
  by rewrite Z.mod_add.
Qed.

Lemma adjusted_length delta p field p' : adjusted delta p field p' ->
  (forall off, field = Some off -> (off + 2 <= length p)%nat) -> length p' = length p.
Proof.
  destruct field as [off|]; [intros (c&_&_&->) Hl; by apply length_set, Hl|by intros ->].
Qed.

Lemma adjusted_lookup delta p field p' i : adjusted delta p field p' ->
  (forall off, field = Some off -> (off + 2 <= length p /\ (i < off \/ off + 2 <= i))%nat) ->
  p' !! i = p !! i.
Proof.
  destruct field as [off|]; [|by intros ->]. intros (c&_&_&->) Hl. destruct (Hl off eq_refl).
  apply lookup_store; by rewrite length_le_bytes.
Qed.

Lemma adjusted_ok delta p field p' : adjusted delta p field p' -> bytes_ok p -> bytes_ok p'.
Proof.
  destruct field; [intros (c&_&_&->) Hok|by intros ->]. apply store_ok; [done|apply le_bytes_ok].
Qed.

Lemma adjusted_take delta p field p' k : adjusted delta p field p' ->
  (forall off, field = Some off -> (k <= off /\ off + 2 <= length p)%nat) -> take k p' = take k p.
Proof.
  destruct field as [off|]; [|by intros ->]. intros (c&_&_&->) Hl. destruct (Hl off eq_refl).
  apply take_store_before; rewrite ?length_le_bytes; lia.
Qed.

(** The last three stores of [UpdateIPv4Address]. *)
Definition readdress (p : list Z) (chk src dst : Z) : list Z :=
  store (store (store p 10 (le_bytes 2 chk)) 12 (le_bytes 4 src)) 16 (le_bytes 4 dst).

Ltac len := rewrite ?length_set by (rewrite ?length_set; lia); rewrite ?length_le_bytes; lia.

Section Readdress.
Context (p : list Z) (chk src dst : Z).
Context (Hlen : (20 <= length p)%nat).

Lemma length_readdress : length (readdress p chk src dst) = length p.
Proof. unfold readdress. by rewrite !length_set by len. Qed.

Lemma drop_readdress k : (20 <= k)%nat -> drop k (readdress p chk src dst) = drop k p.
Proof. intros. unfold readdress. by rewrite !drop_store_after by len. Qed.

Lemma lookup_readdress i : (i < 10 \/ 20 <= i)%nat -> readdress p chk src dst !! i = p !! i.
Proof. intros. unfold readdress. by rewrite !lookup_store by len. Qed.

Lemma take_readdress k : (20 <= k)%nat ->
  take k (readdress p chk src dst) = readdress (take k p) chk src dst.
Proof. intros. unfold readdress. by rewrite !take_store_within by len. Qed.

Lemma saddr_readdress : take 4 (drop 12 (readdress p chk src dst)) = le_bytes 4 src.
Proof.
  unfold readdress. rewrite drop_store_within, take_store_before; [by apply read_set; len|..].
  all: rewrite ?length_drop; len.
Qed.

Lemma daddr_readdress : take 4 (drop 16 (readdress p chk src dst)) = le_bytes 4 dst.
Proof. unfold readdress. apply read_set. len. Qed.

Lemma word_sum_readdress : bytes_ok p -> in_width 16 chk ->
  word_sum (readdress p chk src dst)
  = word_sum p - le_value (take 2 (drop 10 p)) - word_sum (take 4 (drop 12 p))
    - word_sum (take 4 (drop 16 p)) + chk + word_sum (le_bytes 4 src) + word_sum (le_bytes 4 dst).
Proof.
  intros Hok Hc. unfold readdress.
  assert (Nat.Even 4) by (by exists 2%nat). assert (Nat.Even 12) by (by exists 6%nat).
  assert (Nat.Even 16) by (by exists 8%nat). assert (Nat.Even 10) by (by exists 5%nat).
  rewrite word_sum_store; rewrite ?length_le_bytes; [|done|done|len].
  rewrite word_sum_store; rewrite ?length_le_bytes; [|done|done|len].
  rewrite !drop_store_after by len.
  pose proof (word_sum_field p 0 10 chk Hok (ex_intro _ 0%nat eq_refl)) as E. rewrite !drop_0 in E.
  rewrite E by (done || lia). lia.
Qed.
End Readdress.

(** Sum over the transport pseudo header and segment of an IPv4 packet: the
    addresses, the protocol, the length and the bytes after the header. *)
Definition l4_sum (ihs : nat) (p : list Z) : Z :=
  word_sum (take 4 (drop 12 p)) + word_sum (take 4 (drop 16 p))
  + 256 * le_value (take 1 (drop 9 p)) + htons (Z.of_nat (length p - ihs)) + word_sum (drop ihs p).

Definition v4_fragoff (p : list Z) : nat :=
  Z.to_nat (Z.land (htons (le_value (take 2 (drop 6 p)))) 0x1fff * 8).

Lemma v4_fragoff_even p : Nat.Even (v4_fragoff p).
Proof.
  unfold v4_fragoff. set (z := Z.land _ _). exists (Z.to_nat (z * 4)). lia.
Qed.

Lemma take_drop_lookup (p q : list Z) off n : (forall i, (off <= i < off + n)%nat -> p !! i = q !! i) ->
  take n (drop off p) = take n (drop off q).
Proof.
  intros Hi. apply list_eq. intros i. destruct (decide (i < n)%nat).
  - rewrite !lookup_take_lt, !lookup_drop by done. apply Hi. lia.
  - rewrite !lookup_take_ge by lia. done.
Qed.

Definition v4_l4_field (p : list Z) (ihs : nat) : option nat :=
  l4_field (le_value (take 1 (drop 9 p))) p ihs (length p - ihs) (v4_fragoff p).

Lemma subbytes p off n : bytes_ok p -> bytes_ok (take n (drop off p)).
Proof. intros. by apply Forall_take, Forall_drop. Qed.

Lemma subbytes_length (p : list Z) off n : (off + n <= length p)%nat -> length (take n (drop off p)) = n.
Proof. intros. rewrite length_take, length_drop. lia. Qed.

Lemma UpdateIPv4Address_spec p ihl src dst : bytes_ok p -> Hdr.ihl p = Done ihl -> (5 <= ihl)%nat ->
  (ihl * 4 <= length p)%nat -> in_width 32 src -> in_width 32 dst ->
  exists delta p1,
    delta_spec delta (word_sum (take 4 (drop 12 p)) + word_sum (take 4 (drop 16 p)))
      (word_sum (le_bytes 4 src) + word_sum (le_bytes 4 dst))
    /\ adjusted delta p (v4_l4_field p (ihl * 4)) p1
    /\ UpdateIPv4Address p src dst
       = Done (readdress p1 (delta (le_value (take 2 (drop 10 p1)))) src dst).
Proof.
  intros Hok Hihl H5 Hl Hs Hd. unfold UpdateIPv4Address.
  rewrite !(get_done 4) by (cbv [Hdr.saddr Hdr.daddr]; lia). cbn [obind]. rewrite Hihl. cbn [obind].
  rewrite bool_decide_true by done. rewrite !get_done by (cbv [Hdr.frag_off Hdr.protocol]; lia). cbn [obind].
  set (os := take 4 (drop 12 p)). set (od := take 4 (drop 16 p)).
  pose proof (deltaIPv4_spec os od (le_bytes 4 src) (le_bytes 4 dst)) as Hdelta.
  rewrite !le_value_bytes, (Z.mod_small src), (Z.mod_small dst) in Hdelta by (apply Hs || apply Hd).
  ospecialize* Hdelta.
  { rewrite !Forall_cons. unfold os, od.
    split_and!; try apply Forall_nil_2; try apply subbytes; try apply le_bytes_ok; try done;
      rewrite ?length_le_bytes, ?subbytes_length; done || lia. }
  set (delta := fun c => _) in Hdelta. exists delta.
  destruct (l4_switch delta _ _ (le_value (take 1 (drop 9 p))) p (ihl * 4) (length p - ihl * 4)
    (v4_fragoff p) Hok Hdelta ltac:(lia)) as (p1 & E1 & Ha).
  exists p1. split; [done|]. split; [done|].
  assert (length p1 = length p) as El.
  { eapply adjusted_length; [done|]. intros off Hf.
    destruct (l4_field_bounds _ _ _ _ _ _ Hf) as (_&_&?); [by exists (ihl * 2)%nat; lia|apply v4_fragoff_even|lia]. }
  unfold deltaChecksumIPv4TCP, deltaChecksumIPv4UDP.
  change (Hdr.frag_off) with 6%nat. change Hdr.protocol with 9%nat. change Hdr.check with 10%nat.
  change Hdr.saddr with 12%nat. change Hdr.daddr with 16%nat. fold os od. fold (v4_fragoff p).
  change (fun c => deltaIPv4Checksum c (le_value os) (le_value od) src dst) with delta.
  rewrite E1. cbn [obind]. rewrite get_done by lia. cbn [obind].
  rewrite set_done by lia. cbn [obind]. rewrite set_done by len. cbn [obind].
  by rewrite set_done by len.
Qed.

Lemma v4_field_bounds p ihs off : v4_l4_field p ihs = Some off -> Nat.Even ihs -> (ihs <= length p)%nat ->
  Nat.Even off /\ (ihs <= off)%nat /\ (off + 2 <= length p)%nat.
Proof.
  intros Hf He Hl. destruct (l4_field_bounds _ _ _ _ _ _ Hf He (v4_fragoff_even p)) as (?&?&?).
  split_and!; [done|done|lia].
Qed.

Lemma even_header ihl : Nat.Even (ihl * 4).
Proof. exists (ihl * 2)%nat. lia. Qed.
#[local] Hint Resolve even_header : belnet.

(** The header sum keeps its residue. *)
Lemma readdress_header delta q src dst : bytes_ok q -> (20 <= length q)%nat ->
  delta_spec delta (word_sum (take 4 (drop 12 q)) + word_sum (take 4 (drop 16 q)))
      (word_sum (le_bytes 4 src) + word_sum (le_bytes 4 dst)) ->
  word_sum (readdress q (delta (le_value (take 2 (drop 10 q)))) src dst) mod 65535
  = word_sum q mod 65535.
Proof.
  intros Hok Hl Hd. pose proof (field_width q 10 Hok) as Hc.
  rewrite word_sum_readdress by (done || by eapply delta_width).
  destruct Hd as (m&?&?&Hd). rewrite Hd by done. set (f := le_value _) in *.
  set (o := word_sum (take 4 (drop 12 q)) + word_sum (take 4 (drop 16 q))) in *.
  set (n := word_sum (le_bytes 4 src) + _) in *.
  match goal with |- ?x mod _ = _ => replace x
    with (word_sum q - f - o + n + oc_fold (f + o + m * 65535 - n)) by (unfold o, n; lia) end.
  rewrite <- Zplus_mod_idemp_r, oc_fold_mod, Zplus_mod_idemp_r.
  replace (word_sum q - f - o + n + (f + o + m * 65535 - n)) with (word_sum q + m * 65535) by lia.
  by rewrite Z.mod_add.
Qed.

Lemma readdress_ok p chk src dst : bytes_ok p -> bytes_ok (readdress p chk src dst).
Proof. intros. unfold readdress. repeat apply store_ok; auto using le_bytes_ok. Qed.

Lemma ihl_pos p ihl : Hdr.ihl p = Done ihl -> (5 <= ihl)%nat -> bytes_ok p ->
  exists b t, p = b :: t /\ 0 < b /\ (ihl <= 15)%nat.
Proof.
  unfold Hdr.ihl, get, load. destruct (bool_decide _) eqn:Eb; [|done]. cbn [obind].
  intros E H5 Hok. destruct p as [|b t]; [done|]. exists b, t. split; [done|].
  inversion Hok as [|? ? Hb]; subst.
  change (Done (Z.to_nat (Z.land (le_value [b]) 15)) = Done ihl) in E.
  rewrite le_value_cons in E. change (le_value []) with 0 in E.
  replace (b + 256 * 0) with b in E by lia. injection E as <-. unfold is_byte in Hb.
  change 15 with (Z.ones 4) in *. rewrite Z.land_ones in * by lia.
  pose proof (Z.mod_pos_bound b (2 ^ 4)). change (Z.ones 4) with 15. split; [|lia].
  destruct (Z.eq_dec b 0) as [->|]; [|lia]. rewrite Z.mod_0_l in H5; lia.
Qed.

(** The header checksum stays valid. *)
Lemma readdress_verifies delta p ihl p1 src dst : bytes_ok p -> Hdr.ihl p = Done ihl ->
  (5 <= ihl)%nat -> (ihl * 4 <= length p)%nat ->
  delta_spec delta (word_sum (take 4 (drop 12 p)) + word_sum (take 4 (drop 16 p)))
      (word_sum (le_bytes 4 src) + word_sum (le_bytes 4 dst)) ->
  take (ihl * 4) p1 = take (ihl * 4) p -> length p1 = length p -> bytes_ok p1 ->
  ipchksum (take (ihl * 4) p) 0 = 0 ->
  ipchksum (take (ihl * 4) (readdress p1 (delta (le_value (take 2 (drop 10 p1)))) src dst)) 0 = 0.
Proof.
  intros Hok Hi H5 Hl Hd Et El Hok1. rewrite take_readdress, Et by lia.
  destruct (ihl_pos p ihl Hi H5 Hok) as (b&t&Ep&Hb&H15).
  set (q := take (ihl * 4) p). assert (length q = (ihl * 4)%nat) as Elq by (unfold q; rewrite length_take; lia).
  assert (bytes_ok q) as Hq by (by apply Forall_take).
  assert (forall off n, (off + n <= ihl * 4)%nat -> take n (drop off p) = take n (drop off q)) as Esub.
  { intros off n Hn. apply take_drop_lookup. intros i Hin. unfold q. by rewrite lookup_take_lt by lia. }
  assert (take 2 (drop 10 p1) = take 2 (drop 10 q)) as ->.
  { unfold q. rewrite <- Et. apply take_drop_lookup. intros i Hin. by rewrite lookup_take_lt by lia. }
  rewrite (Esub 12%nat 4%nat), (Esub 16%nat 4%nat) in Hd by lia.
  rewrite !ipchksum_verifies; rewrite ?length_readdress by lia; try (done || lia).
  2: by apply readdress_ok.
  rewrite readdress_header by (done || lia). intros [_ ?]. split; [|done].
  assert (readdress q (delta (le_value (take 2 (drop 10 q)))) src dst !! 0%nat = Some b) as E0.
  { rewrite lookup_readdress by lia. unfold q. rewrite lookup_take_lt by lia. by rewrite Ep. }
  pose proof (readdress_ok q (delta (le_value (take 2 (drop 10 q)))) src dst Hq) as Hr.
  destruct (readdress q _ src dst) as [|b' t']; [done|]. injection E0 as ->.
  pose proof (word_sum_head b t' Hr). lia.
Qed.

(** C40: rewriting the addresses of an IPv4 packet whose header is complete
    never leaves the packet, stores the new addresses, keeps a valid header
    checksum valid, keeps the residue of the transport checksum sum (pseudo
    header and segment) wherever the packet carries the checksum field, and
    changes no byte besides the header checksum, the addresses and that field. *)
Theorem update_ipv4_address p ihl src dst : bytes_ok p -> Hdr.ihl p = Done ihl -> (5 <= ihl)%nat ->
  (ihl * 4 <= length p)%nat -> in_width 32 src -> in_width 32 dst ->
  exists p', UpdateIPv4Address p src dst = Done p' /\ length p' = length p
    /\ get 4 p' Hdr.saddr = Done src /\ get 4 p' Hdr.daddr = Done dst
    /\ (ipchksum (take (ihl * 4) p) 0 = 0 -> ipchksum (take (ihl * 4) p') 0 = 0)
    /\ (v4_l4_field p (ihl * 4) <> None ->
        l4_sum (ihl * 4) p' mod 65535 = l4_sum (ihl * 4) p mod 65535)
    /\ forall i, (i < 10 \/ 20 <= i)%nat ->
         (forall off, v4_l4_field p (ihl * 4) = Some off -> (i < off \/ off + 2 <= i)%nat) ->
         p' !! i = p !! i.
Proof.
  intros Hok Hi H5 Hl Hs Hd.
  destruct (UpdateIPv4Address_spec p ihl src dst Hok Hi H5 Hl Hs Hd) as (delta&p1&Hds&Ha&->).
  assert (forall off, v4_l4_field p (ihl * 4) = Some off ->
    Nat.Even off /\ (ihl * 4 <= off)%nat /\ (off + 2 <= length p)%nat) as Hf.
  { intros off Hf. apply v4_field_bounds; auto with belnet. }
  assert (length p1 = length p) as El by (eapply adjusted_length; [done|]; intros; by apply Hf).
  assert (take (ihl * 4) p1 = take (ihl * 4) p) as Et.
  { eapply adjusted_take; [done|]. intros off E. destruct (Hf off E). lia. }
  assert (bytes_ok p1) as Hok1 by (by eapply adjusted_ok).
  eexists. split; [done|]. split; [by rewrite length_readdress by lia|].
  change Hdr.saddr with 12%nat. change Hdr.daddr with 16%nat.
  rewrite !get_done by (rewrite length_readdress; lia).
  split; [by rewrite saddr_readdress, le_value_bytes, Z.mod_small by (lia || apply Hs)|].
  split; [by rewrite daddr_readdress, le_value_bytes, Z.mod_small by (lia || apply Hd)|].
  split; [by eapply readdress_verifies|]. split.
  - intros Hn. destruct (v4_l4_field p (ihl * 4)) as [off|] eqn:Ef; [|done].
    destruct (Hf off eq_refl) as (?&?&?). unfold l4_sum.
    assert (take 1 (drop 9 (readdress p1 (delta (le_value (take 2 (drop 10 p1)))) src dst))
      = take 1 (drop 9 p)) as ->.
    { apply take_drop_lookup. intros i Hin. rewrite lookup_readdress by lia.
      rewrite <- (lookup_take_lt p1 (ihl * 4)), Et by lia. by rewrite lookup_take_lt by lia. }
    rewrite saddr_readdress, daddr_readdress, drop_readdress, length_readdress, El by lia.
    rewrite <- Zplus_mod_idemp_r.
    rewrite (adjusted_sum delta _ _ p p1 off (ihl * 4) Hds Hok Ha) by auto with belnet.
    rewrite Zplus_mod_idemp_r. f_equal. lia.
  - intros i Hi' Ho. rewrite lookup_readdress by lia. eapply adjusted_lookup; [done|].
    intros off E. destruct (Hf off E) as (_&_&?). split; [done|by apply Ho].
Qed.

(** A UDP packet from 10.0.0.1:1000 to 10.0.0.2:53 with two bytes of data and
    both checksums. *)
Definition sample_packet : list Z :=
  [69; 0; 0; 30; 0; 0; 64; 0; 64; 17; 38; 205; 10; 0; 0; 1; 10; 0; 0; 2;
   3; 232; 0; 53; 0; 10; 127; 81; 104; 105].

Lemma update_ipv4_address_witness : exists p',
  UpdateIPv4Address sample_packet 0x0100a8c0 0x0200a8c0 = Done p' /\ ipchksum (take 20 p') 0 = 0
  /\ l4_sum 20 p' mod 65535 = 0.
Proof.
  destruct (update_ipv4_address sample_packet 5 0x0100a8c0 0x0200a8c0) as (p'&E&_&_&_&Hc&Hl&_);
    [by vm_compute; repeat constructor|done|lia|by vm_compute; lia|done|done|].
  exists p'. split; [done|]. split; [apply Hc; by vm_compute|].
  change (5 * 4)%nat with 20%nat in Hl. rewrite Hl; by vm_compute.
Defined.

(** ** IPv6 addresses *)

Lemma get_ext n p q off : length p = length q ->
  (forall i, (off <= i < off + n)%nat -> p !! i = q !! i) -> get n p off = get n q off.
Proof.
  intros El Hi. unfold get, load. rewrite El. by rewrite (take_drop_lookup p q off n Hi).
Qed.

Lemma ext_headers_ext fuel p q : length p = length q ->
  (forall i, (40 <= i)%nat -> p !! i = q !! i) -> forall proto pld psz, (40 <= pld)%nat ->
  ext_headers fuel p proto pld psz = ext_headers fuel q proto pld psz.
Proof.
  intros El Hi. assert (forall off, (40 <= off)%nat -> get 1 p off = get 1 q off) as Hg.
  { intros off Ho. apply get_ext; [done|]. intros. apply Hi. lia. }
  induction fuel as [|fuel IH]; intros proto pld psz Hp; [done|]. cbn [ext_headers].
  rewrite !Hg by lia. destruct (_ || _ || _).
  - destruct (get 1 q pld) as [np| |]; cbn [obind]; [|done..].
    destruct (get 1 q (pld + 1)) as [len| |]; cbn [obind]; [|done..].
    destruct (bool_decide _); [done|]. apply IH. lia.
  - destruct (proto =? 44); [|done].
    destruct (get 1 q pld) as [np| |]; cbn [obind]; [|done..].
    destruct (get 1 q (pld + 2)) as [hi| |]; cbn [obind]; [|done..].
    destruct (get 1 q (pld + 3)) as [lo| |]; cbn [obind]; [|done..].
    destruct (bool_decide _); [done|]. destruct (bool_decide _); [done|]. apply IH. lia.
Qed.

Lemma even_to_nat z : Z.testbit z 0 = false -> Nat.Even (Z.to_nat z).
Proof.
  intros Hb. rewrite Z.bit0_odd in Hb. assert (Z.even z = true) as He
    by (rewrite <- Z.negb_odd, Hb; done).
  apply Z.even_spec in He as [k ->]. exists (Z.to_nat k). lia.
Qed.

Lemma fragoff_even hi lo : Nat.Even (Z.to_nat (Z.lor (Z.shiftl hi 8) (Z.land lo 0xfc))).
Proof.
  apply even_to_nat. rewrite Z.lor_spec, Z.land_spec, Z.shiftl_spec_low by lia.
  change (Z.testbit 0xfc 0) with false. by rewrite andb_false_r.
Qed.

(** The walk over the extension headers ends: each header has a positive length. *)
Lemma ext_headers_total fuel p : forall proto pld psz, (psz < fuel)%nat ->
  ext_headers fuel p proto pld psz <> Timeout.
Proof.
  assert (forall off, get 1 p off <> Timeout) as Hg.
  { intros off. unfold get, load. by destruct (bool_decide _). }
  induction fuel as [|fuel IH]; intros proto pld psz Hf; [lia|]. cbn [ext_headers].
  destruct (_ || _ || _).
  - pose proof (Hg pld). destruct (get 1 p pld) as [np| |]; cbn [obind]; [|done..].
    pose proof (Hg (pld + 1)%nat). destruct (get 1 p (pld + 1)) as [len| |]; cbn [obind]; [|done..].
    destruct (bool_decide _) eqn:E; [done|]. apply bool_decide_eq_false_1 in E. apply IH. lia.
  - destruct (proto =? 44); [|done].
    pose proof (Hg pld). destruct (get 1 p pld) as [np| |]; cbn [obind]; [|done..].
    pose proof (Hg (pld + 2)%nat). destruct (get 1 p (pld + 2)) as [hi| |]; cbn [obind]; [|done..].
    pose proof (Hg (pld + 3)%nat). destruct (get 1 p (pld + 3)) as [lo| |]; cbn [obind]; [|done..].
    destruct (bool_decide (psz < 8)%nat) eqn:E; [done|]. apply bool_decide_eq_false_1 in E.
    destruct (bool_decide _); [done|]. apply IH. lia.
Qed.

Lemma ext_headers_spec fuel p : forall proto pld psz np pld' psz' frag, Nat.Even pld ->
  ext_headers fuel p proto pld psz = Done (Some (np, pld', psz', frag)) ->
  Nat.Even pld' /\ Nat.Even frag /\ (pld <= pld' /\ pld' + psz' = pld + psz)%nat.
Proof.
  induction fuel as [|fuel IH]; intros proto pld psz np pld' psz' frag He Hr; [done|].
  cbn [ext_headers] in Hr. destruct (_ || _ || _).
  - destruct (get 1 p pld) as [np'| |]; cbn [obind] in Hr; [|done..].
    destruct (get 1 p (pld + 1)) as [len| |]; cbn [obind] in Hr; [|done..].
    destruct (bool_decide _) eqn:E; [done|]. apply bool_decide_eq_false_1 in E.
    apply IH in Hr as (?&?&?&?); [split_and!; done || lia|].
    destruct He as [k ->]. exists (k + (Z.to_nat len + 1) * 4)%nat. lia.
  - assert (Nat.Even (pld + 8)) by (destruct He as [k ->]; exists (k + 4)%nat; lia).
    destruct (proto =? 44); [|simplify_eq; split_and!; try done; by exists 0%nat].
    destruct (get 1 p pld) as [np'| |]; cbn [obind] in Hr; [|done..].
    destruct (get 1 p (pld + 2)) as [hi| |]; cbn [obind] in Hr; [|done..].
    destruct (get 1 p (pld + 3)) as [lo| |]; cbn [obind] in Hr; [|done..].
    destruct (bool_decide (psz < 8)%nat) eqn:E; [done|]. apply bool_decide_eq_false_1 in E.
    destruct (bool_decide _).
    + simplify_eq. split_and!; [done|apply fragoff_even|lia|lia].
    + apply IH in Hr as (?&?&?&?); [split_and!; done || lia|done].
Qed.

Section V6.
Context `{OxencSwap}.

Lemma in6_length x : length (HUIntToIn6 x) = 16%nat.
Proof. unfold HUIntToIn6, memory128. by rewrite length_app, !length_le_bytes. Qed.

Lemma in6_ok x : bytes_ok (HUIntToIn6 x).
Proof. unfold HUIntToIn6, memory128. apply Forall_app. split; apply le_bytes_ok. Qed.

(** The two address stores. *)
Definition readdress6 (p s d : list Z) : list Z := store (store p 8 s) 24 d.

Lemma readdress6_ok p s d : bytes_ok p -> bytes_ok s -> bytes_ok d -> bytes_ok (readdress6 p s d).
Proof. intros. by repeat apply store_ok. Qed.

Section Readdress6.
Context (p s d : list Z) (Hs : length s = 16%nat) (Hd : length d = 16%nat) (Hl : (40 < length p)%nat).

Lemma length_readdress6 : length (readdress6 p s d) = length p.
Proof. unfold readdress6. rewrite !length_store; rewrite ?length_store; lia. Qed.

Lemma drop_readdress6 k : (40 <= k)%nat -> drop k (readdress6 p s d) = drop k p.
Proof.
  intros. unfold readdress6. rewrite !drop_store_after; rewrite ?length_store; done || lia.
Qed.

Lemma lookup_readdress6 i : (i < 8 \/ 40 <= i)%nat -> readdress6 p s d !! i = p !! i.
Proof. intros. unfold readdress6. rewrite !lookup_store; rewrite ?length_store; done || lia. Qed.

Lemma src_readdress6 : take 16 (drop 8 (readdress6 p s d)) = s.
Proof.
  unfold readdress6. rewrite drop_store_within, take_store_before; rewrite ?length_drop, ?length_store; try lia.
  rewrite <- Hs. apply read_store. lia.
Qed.

Lemma dst_readdress6 : take 16 (drop 24 (readdress6 p s d)) = d.
Proof. unfold readdress6. rewrite <- Hd. apply read_store. rewrite length_store; lia. Qed.
End Readdress6.

Definition flow_set (p : list Z) (flowlabel : option Z) (p0 : list Z) : Prop :=
  match flowlabel with
  | None => p0 = p
  | Some label => exists v, FlowLabel p0 = Done (Z.land label (htonl ipv6_flowlabel_mask))
      /\ p0 = store p 0 (le_bytes 4 v)
  end.

Lemma set_FlowLabel_spec p label : bytes_ok p -> (4 <= length p)%nat -> in_width 32 label ->
  exists p0, set_FlowLabel p label = Done p0 /\ flow_set p (Some label) p0.
Proof.
  intros Hok Hl Hw. unfold set_FlowLabel. rewrite get_done by lia. cbn [obind].
  rewrite set_done by lia. eexists. split; [done|]. eexists. split; [|done].
  unfold FlowLabel. rewrite get_done by (rewrite length_set; lia). cbn [obind].
  rewrite read_set, le_value_bytes by lia. f_equal.
  set (f := le_value _). assert (in_width 32 f) as Hf.
  { unfold f. pose proof (le_value_range _ (subbytes p 0 4 Hok)) as Hr.
    by rewrite subbytes_length in Hr by lia. }
  set (m := htonl ipv6_flowlabel_mask). set (m' := htonl _).
  rewrite (Z.mod_small (Z.lor _ _)).
  - rewrite Z.land_lor_distr_l, <- (Z.land_assoc f).
    change (Z.land m' m) with 0. rewrite Z.land_0_r, Z.lor_0_r, (Z.land_comm m), <- Z.land_assoc.
    by rewrite Z.land_diag.
  - change (256 ^ Z.of_nat 4) with (2 ^ 32). apply lor_width; [done|apply land_width; done|apply land_width; done].
Qed.

Lemma flow_set_frame p flow p0 : flow_set p flow p0 -> (4 <= length p)%nat -> bytes_ok p ->
  length p0 = length p /\ bytes_ok p0 /\ (forall i, (4 <= i)%nat -> p0 !! i = p !! i).
Proof.
  intros Hf Hl Hok. destruct flow as [label|]; [|by simplify_eq/=].
  destruct Hf as (v&_&->). split; [by apply length_set|].
  split; [apply store_ok; [done|apply le_bytes_ok]|].
  intros i Hi. apply lookup_store; rewrite length_le_bytes; lia.
Qed.
End V6.

(** The address words and the words from [pld] on, as the IPv6 transport
    checksum sums them. *)
Definition l4_sum6 (pld : nat) (p : list Z) : Z :=
  word_sum (take 16 (drop 8 p)) + word_sum (take 16 (drop 24 p)) + word_sum (drop pld p).

(** The checksum field found by a header walk. *)
Definition v6_field (p : list Z) (r : option (Z * nat * nat * nat)) : option nat :=
  match r with
  | Some (np, pld, psz, frag) => l4_field np p pld psz frag
  | None => None
  end.
Definition v6_pld (r : option (Z * nat * nat * nat)) : nat :=
  match r with Some (_, pld, _, _) => pld | None => 40%nat end.

Lemma l4_field_ext proto p q pld psz frag : (40 <= pld)%nat ->
  (forall i, (40 <= i)%nat -> p !! i = q !! i) ->
  l4_field proto p pld psz frag = l4_field proto q pld psz frag.
Proof.
  intros Hp Hi. unfold l4_field, udp_field.
  by rewrite (take_drop_lookup p q (pld + 6) 2) by (intros; apply Hi; lia).
Qed.

Section UpdateV6.
Context `{OxencSwap}.

Lemma UpdateIPv6Address_spec p src dst flow r : bytes_ok p -> (40 < length p)%nat ->
  (forall label, flow = Some label -> in_width 32 label) ->
  ext_headers (S (length p)) p (le_value (take 1 (drop 6 p))) 40 (length p - 40) = Done r ->
  exists delta p0 p',
    delta_spec delta (word_sum (take 16 (drop 8 p)) + word_sum (take 16 (drop 24 p)))
      (word_sum (HUIntToIn6 src) + word_sum (HUIntToIn6 dst))
    /\ flow_set p flow p0
    /\ adjusted delta (readdress6 p0 (HUIntToIn6 src) (HUIntToIn6 dst)) (v6_field p r) p'
    /\ UpdateIPv6Address p src dst flow = Done p'.
Proof.
  intros Hok Hl Hw Hr. unfold UpdateIPv6Address. change (4 + 4 + 16 + 16)%nat with 40%nat. rewrite bool_decide_false by lia.
  assert (exists p0, match flow with Some label => set_FlowLabel p label | None => Done p end = Done p0
    /\ flow_set p flow p0) as (p0&->&Hf).
  { destruct flow as [label|]; [apply set_FlowLabel_spec; auto; lia|by eexists]. }
  destruct (flow_set_frame p flow p0 Hf ltac:(lia) Hok) as (El&Hok0&H4). cbn [obind].
  change Hdr.v6_srcaddr with 8%nat. change Hdr.v6_dstaddr with 24%nat. change Hdr.v6_protocol with 6%nat.
  rewrite !(load_done p0) by lia. cbn [obind].
  rewrite !(take_drop_lookup p0 p) by (intros; apply H4; lia).
  set (s := HUIntToIn6 src). set (d := HUIntToIn6 dst).
  pose proof (in6_length src : length s = _) as Els. pose proof (in6_length dst : length d = _) as Eld.
  rewrite save_done by lia. cbn [obind]. rewrite save_done by (rewrite length_store; lia). cbn [obind].
  fold (readdress6 p0 s d). set (p2 := readdress6 p0 s d).
  assert (length p2 = length p) as El2 by (unfold p2; rewrite length_readdress6; lia).
  rewrite !load_done by lia. cbn [obind].
  rewrite (src_readdress6 p0 s d Els Eld ltac:(lia) : take 16 (drop 8 p2) = s).
  rewrite (dst_readdress6 p0 s d Els Eld ltac:(lia) : take 16 (drop 24 p2) = d).
  assert (forall i, (40 <= i)%nat -> p2 !! i = p !! i) as Hp2.
  { intros i Hi. unfold p2. rewrite lookup_readdress6, H4 by lia. done. }
  rewrite get_done by lia. cbn [obind].
  rewrite (take_drop_lookup p2 p 6) by
    (intros; unfold p2; rewrite lookup_readdress6, H4 by lia; done).
  rewrite (ext_headers_ext _ p2 p El2 Hp2), Hr by lia. cbn [obind].
  set (delta := fun c => deltaIPv6Checksum c (in6_uint32 (take 16 (drop 8 p)))
    (in6_uint32 (take 16 (drop 24 p))) (in6_uint32 s) (in6_uint32 d)).
  assert (delta_spec delta (word_sum (take 16 (drop 8 p)) + word_sum (take 16 (drop 24 p)))
    (word_sum s + word_sum d)) as Hd.
  { apply deltaIPv6_spec. rewrite !Forall_cons. split_and!; try apply Forall_nil_2;
      try apply subbytes; try apply in6_ok; rewrite ?subbytes_length; done || lia. }
  exists delta, p0. destruct r as [[[[np pld] psz] frag]|]; [|by exists p2].
  destruct (ext_headers_spec _ _ _ _ _ _ _ _ _ (ex_intro _ 20%nat eq_refl) Hr) as (?&?&?&?).
  assert (bytes_ok p2) as Hok2 by (exact (readdress6_ok _ _ _ Hok0 (in6_ok src) (in6_ok dst))).
  destruct (l4_switch delta _ _ np p2 pld psz frag Hok2 Hd ltac:(lia)) as (p'&E&Ha).
  exists p'. unfold v6_field. rewrite (l4_field_ext np p p2) by (done || by intros; symmetry; apply Hp2).
  split_and!; done.
Qed.
End UpdateV6.

(** The walk over the IPv6 extension headers always ends, and when it stays
    inside the packet, rewriting the addresses stores both addresses and the flow
    label, keeps the residue of the transport checksum sum when the packet carries
    the checksum field, and changes nothing else after the fixed header. *)
Theorem update_ipv6_address `{OxencSwap} p src dst flow : bytes_ok p -> (40 < length p)%nat ->
  (forall label, flow = Some label -> in_width 32 label) ->
  let walk := ext_headers (S (length p)) p (le_value (take 1 (drop 6 p))) 40 (length p - 40) in
  walk <> Timeout /\ forall r, walk = Done r ->
  exists p', UpdateIPv6Address p src dst flow = Done p' /\ length p' = length p
    /\ load p' Hdr.v6_srcaddr 16 = Done (HUIntToIn6 src)
    /\ load p' Hdr.v6_dstaddr 16 = Done (HUIntToIn6 dst)
    /\ (forall label, flow = Some label -> FlowLabel p' = Done (Z.land label (htonl ipv6_flowlabel_mask)))
    /\ (v6_field p r <> None -> l4_sum6 (v6_pld r) p' mod 65535 = l4_sum6 (v6_pld r) p mod 65535)
    /\ forall i, (40 <= i)%nat ->
         (forall off, v6_field p r = Some off -> (i < off \/ off + 2 <= i)%nat) -> p' !! i = p !! i.
Proof.
  intros Hok Hl Hw walk. split; [apply ext_headers_total; lia|]. intros r Hr.
  destruct (UpdateIPv6Address_spec p src dst flow r Hok Hl Hw Hr) as (delta&p0&p'&Hd&Hf&Ha&->).
  destruct (flow_set_frame p flow p0 Hf ltac:(lia) Hok) as (El&Hok0&H4).
  set (s := HUIntToIn6 src) in *. set (d := HUIntToIn6 dst) in *.
  pose proof (in6_length src : length s = _) as Els. pose proof (in6_length dst : length d = _) as Eld.
  pose proof (length_readdress6 p0 s d Els Eld ltac:(lia)) as El2.
  set (p2 := readdress6 p0 s d) in *.
  assert (forall off, v6_field p r = Some off ->
    Nat.Even (v6_pld r) /\ Nat.Even off /\ (v6_pld r <= off /\ 40 <= v6_pld r)%nat /\ (off + 2 <= length p2)%nat) as Hb.
  { intros off E. destruct r as [[[[np pld] psz] frag]|]; [|done].
    destruct (ext_headers_spec _ _ _ _ _ _ _ _ _ (ex_intro _ 20%nat eq_refl) Hr) as (He&Hfe&?&?).
    destruct (l4_field_bounds _ _ _ _ _ _ E He Hfe) as (?&?&?). cbn. split_and!; done || lia. }
  assert (length p' = length p2) as El' by (eapply adjusted_length; [done|]; intros off E; by apply Hb).
  assert (take 40 p' = take 40 p2) as Et.
  { eapply adjusted_take; [done|]. intros off E. destruct (Hb off E) as (_&_&?&?). lia. }
  assert (forall off n, (off + n <= 40)%nat -> take n (drop off p') = take n (drop off p2)) as Ht.
  { intros off n Hn. apply take_drop_lookup. intros i Hi.
    rewrite <- (lookup_take_lt p' 40), Et by lia. by rewrite lookup_take_lt by lia. }
  pose proof (src_readdress6 p0 s d Els Eld ltac:(lia) : take 16 (drop 8 p2) = s) as Esrc.
  pose proof (dst_readdress6 p0 s d Els Eld ltac:(lia) : take 16 (drop 24 p2) = d) as Edst.
  exists p'. split; [done|]. split; [congruence|].
  change Hdr.v6_srcaddr with 8%nat. change Hdr.v6_dstaddr with 24%nat.
  rewrite !load_done, !Ht, Esrc, Edst by lia. split_and!; [done|done|..].
  - intros label ->. destruct Hf as (v&Ev&E0). rewrite <- Ev. unfold FlowLabel.
    rewrite !get_done, Ht by lia. unfold p2.
    by rewrite (take_drop_lookup (readdress6 p0 s d) p0) by (intros; apply lookup_readdress6; lia).
  - intros Hn. destruct (v6_field p r) as [off|] eqn:Ef; [|done].
    destruct (Hb off eq_refl) as (?&?&[? ?]&?). unfold l4_sum6.
    rewrite (Ht 8%nat), (Ht 24%nat), Esrc, Edst by lia.
    assert (bytes_ok p2) as Hok2 by (exact (readdress6_ok _ _ _ Hok0 (in6_ok src) (in6_ok dst))).
    rewrite <- Zplus_mod_idemp_r, (adjusted_sum delta _ _ p2 p' off _ Hd Hok2 Ha) by done.
    rewrite Zplus_mod_idemp_r. unfold p2. rewrite drop_readdress6 by lia.
    assert (drop (v6_pld r) p0 = drop (v6_pld r) p) as ->.
    { apply list_eq. intros i. rewrite !lookup_drop. apply H4. lia. }
    f_equal. lia.
  - intros i Hi Ho. etransitivity; [eapply (adjusted_lookup delta p2)|].
    + done.
    + intros off E. destruct (Hb off E) as (_&_&_&?). split; [done|by apply Ho].
    + unfold p2. rewrite lookup_readdress6, H4 by lia. done.
Qed.

#[local] Instance swap_instance : OxencSwap := {|
  big_to_host n v := be_value (rev (be_bytes n v)); host_to_big n v := be_value (rev (be_bytes n v)) |}.

(** An IPv6 packet with a destination options header in front of UDP. *)
Definition sample_packet6 : list Z :=
  [96; 0; 0; 0; 0; 18; 60; 64] ++ be_bytes 16 1 ++ be_bytes 16 2
  ++ [17; 0; 1; 4; 0; 0; 0; 0] ++ [3; 232; 0; 53; 0; 10; 127; 81; 104; 105].

Lemma update_ipv6_address_witness : exists p',
  UpdateIPv6Address sample_packet6 (U128 7 8) (U128 9 10) (Some 0xff) = Done p'
  /\ l4_sum6 48 p' mod 65535 = l4_sum6 48 sample_packet6 mod 65535.
Proof.
  destruct (update_ipv6_address sample_packet6 (U128 7 8) (U128 9 10) (Some 0xff)) as [_ Hu];
    [vm_compute; repeat constructor; discriminate|vm_compute; lia|intros ? [= <-]; done|].
  destruct (Hu (Some (17, 48%nat, 10%nat, 0%nat))) as (p'&E&_&_&_&_&Hs&_); [by vm_compute|].
  exists p'. split; [done|]. apply Hs. by vm_compute.
Defined.

(** A packet that ends inside an extension header is read past its end. *)
Lemma ext_header_reads_past_end : UpdateIPv6Address
  ([96; 0; 0; 0; 0; 1; 60; 64] ++ be_bytes 16 1 ++ be_bytes 16 2 ++ [17]) (U128 7 8) (U128 9 10) None = Fault.
Proof. by vm_compute. Qed.

(** ** Packets the node builds *)

Lemma le_bytes_htons v : le_bytes 2 (htons v) = be_bytes 2 v.
Proof.
  unfold htons, bswap, le_bytes. rewrite <- (length_rev (be_bytes 2 v)) at 1.
  rewrite length_rev, length_be_bytes.
  transitivity (rev (rev (be_bytes 2 v))); [|apply rev_involutive]. f_equal.
  rewrite <- (be_bytes_be_value (rev (be_bytes 2 v))) at 2 by apply Forall_rev, be_bytes_ok.
  by rewrite length_rev, length_be_bytes.
Qed.

(** The first 28 bytes of a UDP packet with checksum [ck]. *)
Definition udp_front (total ck src dst sport dport udplen : list Z) : list Z :=
  [69; 0] ++ total ++ [0; 0; 64; 0; 64; 17] ++ ck ++ src ++ dst ++ sport ++ dport ++ udplen ++ [0; 0].

Lemma explicit2 (l : list Z) : length l = 2%nat -> exists a b, l = [a; b].
Proof. destruct l as [|a [|b [|]]]; try done. by exists a, b. Qed.
Lemma explicit4 (l : list Z) : length l = 4%nat -> exists a b c d, l = [a; b; c; d].
Proof. destruct l as [|a [|b [|c [|d [|]]]]]; try done. by exists a, b, c, d. Qed.

(** Executes the next store of a builder on an explicit packet. *)
Ltac step_store E :=
  first [rewrite set_done by (cbn [length]; lia)
        |rewrite save_done by (rewrite E; cbn [length]; lia)];
  rewrite E; unfold store; cbn [obind take drop app length Nat.add]; rewrite ?drop_0.

Lemma version_front l : Hdr.set_version (0 :: l) 4 = Done (64 :: l).
Proof.
  unfold Hdr.set_version. rewrite get_done by (cbn [length]; lia). cbn [obind].
  rewrite set_done by (cbn [length]; lia). unfold store. by rewrite length_le_bytes.
Qed.

Lemma ihl_front l : Hdr.set_ihl (64 :: l) 5 = Done (69 :: l).
Proof.
  unfold Hdr.set_ihl. rewrite get_done by (cbn [length]; lia). cbn [obind].
  rewrite set_done by (cbn [length]; lia). unfold store. by rewrite length_le_bytes.
Qed.

Lemma make_ip4_udp_layout `{OxencSpec} src sport dst dport data :
  let front ck := udp_front (be_bytes 2 (u16 (Z.of_nat (28 + length data)))) ck (le_bytes 4 src)
    (le_bytes 4 dst) (le_bytes 2 sport) (le_bytes 2 dport) (be_bytes 2 (u16 (Z.of_nat (length data + 8)))) in
  make_ip4_udp src sport dst dport data
  = Done (front (le_bytes 2 (ipchksum (take 20 (front [0; 0])) 0)) ++ data).
Proof.
  intros front. unfold make_ip4_udp, IPPacket_size, udp_header_bytes, ip_header_min_bytes.
  rewrite bool_decide_false by (unfold MinSize; lia). cbn [default from_option].
  rewrite !write_host_as_big_spec. change (8 + 20)%nat with 28%nat.
  rewrite (Nat.add_comm (length data) 28), replicate_add. unfold front, udp_front.
  set (total := u16 (Z.of_nat (28 + length data))). set (udplen := u16 (Z.of_nat (length data + 8))).
  destruct (explicit4 _ (length_le_bytes 4 src)) as (s0&s1&s2&s3&Es).
  destruct (explicit4 _ (length_le_bytes 4 dst)) as (d0&d1&d2&d3&Ed).
  destruct (explicit2 _ (length_le_bytes 2 sport)) as (sp0&sp1&Esp).
  destruct (explicit2 _ (length_le_bytes 2 dport)) as (dp0&dp1&Edp).
  destruct (explicit2 _ (length_be_bytes 2 total)) as (t0&t1&Et).
  destruct (explicit2 _ (length_be_bytes 2 udplen)) as (l0&l1&El).
  assert (le_bytes 1 0 = [0]) as E0 by done. assert (le_bytes 1 17 = [17]) as E17 by done.
  assert (le_bytes 1 64 = [64]) as E64 by done. assert (le_bytes 2 (htons 16384) = [64; 0]) as Ef by done.
  assert (be_bytes 2 0 = [0; 0]) as Ez by done. assert (le_bytes 2 0 = [0; 0]) as Ez' by done.
  cbv [Hdr.tot_len Hdr.protocol Hdr.ttl Hdr.frag_off Hdr.saddr Hdr.daddr Hdr.check].
  unfold id. rewrite <- le_bytes_htons in Et.
  pose proof (length_replicate (length data) 0) as Hr. set (tl := replicate (length data) 0) in *. clearbody tl.
  cbn [replicate app Nat.add].
  step_store E0. rewrite version_front. cbn [obind]. rewrite ihl_front. cbn [obind].
  step_store Et. step_store E17. step_store E64. step_store Ef. step_store Es. step_store Ed.
  step_store Esp. step_store Edp. step_store El. step_store Ez.
  rewrite save_done by (cbn [length]; lia). unfold store.
  cbn [obind take drop app length Nat.add]. rewrite drop_ge, app_nil_r by lia.
  step_store Ez'. rewrite load_done by (cbn [length]; lia). cbn [obind take drop].
  rewrite set_done by (cbn [length]; lia). rewrite <- le_bytes_htons, ?Et.
  unfold store. cbn [app take]. set (ck := ipchksum _ _).
  destruct (explicit2 _ (length_le_bytes 2 ck)) as (c0&c1&Ec). by rewrite Ec.
Qed.

Lemma udp_front_ok total ck src dst sport dport udplen :
  Forall bytes_ok [total; ck; src; dst; sport; dport; udplen] ->
  bytes_ok (udp_front total ck src dst sport dport udplen).
Proof.
  rewrite !Forall_cons. intros Hf. unfold udp_front.
  rewrite !Forall_app. unfold is_byte. split_and!; try tauto; repeat constructor; lia.
Qed.

Lemma udp_front_checksum total src dst sport dport udplen :
  Forall bytes_ok [total; src; dst; sport; dport; udplen] ->
  Forall (fun l => length l = 2%nat) [total; sport; dport; udplen] ->
  length src = 4%nat -> length dst = 4%nat ->
  let front ck := udp_front total ck src dst sport dport udplen in
  ipchksum (take 20 (front (le_bytes 2 (ipchksum (take 20 (front [0; 0])) 0)))) 0 = 0.
Proof.
  rewrite !Forall_cons. intros Hok (Ht&Hsp&Hdp&Hl&_) Hs Hd front.
  set (q := take 20 (front [0; 0])). set (ck := ipchksum q 0).
  assert (bytes_ok q) as Hq.
  { apply Forall_take, udp_front_ok. rewrite !Forall_cons. unfold is_byte.
    split_and!; try tauto; repeat constructor; lia. }
  destruct (explicit2 _ Ht) as (?&?&->). destruct (explicit2 _ Hsp) as (?&?&->).
  destruct (explicit2 _ Hdp) as (?&?&->). destruct (explicit2 _ Hl) as (?&?&->).
  destruct (explicit4 _ Hs) as (?&?&?&?&->). destruct (explicit4 _ Hd) as (?&?&?&?&->).
  assert (take 20 (front (le_bytes 2 ck)) = store q 10 (le_bytes 2 ck)) as ->.
  { unfold front, udp_front, q. destruct (explicit2 _ (length_le_bytes 2 ck)) as (?&?&->). done. }
  apply checksum_store; [done|by cbn|by exists 5%nat|by cbn; lia|done].
Qed.

(** The UDP packets built for plaintext traffic have a valid IPv4 header
    checksum, carry the payload after the 28 header bytes, and the packet
    accessors read back the addresses and ports they were built from. *)
Theorem make_udp_correct `{OxencSpec} src sport dst dport data :
  in_width 32 src -> in_width 16 sport -> in_width 32 dst -> in_width 16 dport ->
  exists p, make_udp (ipv4addr_t src) sport (ipv4addr_t dst) dport data = Done p
    /\ length p = (28 + length data)%nat /\ drop 28 p = data
    /\ ServiceProtocol p = Done TrafficV4
    /\ srcv4 p = Done (htonl src) /\ dstv4 p = Done (htonl dst)
    /\ SrcPort p = Done (Some sport) /\ DstPort p = Done (Some dport)
    /\ L4Data p = Done (Some (28, length data)%nat)
    /\ take 2 (drop 2 p) = be_bytes 2 (u16 (Z.of_nat (28 + length data)))
    /\ ipchksum (take 20 p) 0 = 0.
Proof.
  intros Hs Hsp Hd Hdp. cbn [make_udp]. rewrite make_ip4_udp_layout.
  set (total := be_bytes 2 (u16 (Z.of_nat (28 + length data)))).
  set (udplen := be_bytes 2 (u16 (Z.of_nat (length data + 8)))).
  pose proof (udp_front_checksum total (le_bytes 4 src) (le_bytes 4 dst) (le_bytes 2 sport)
    (le_bytes 2 dport) udplen) as Hck.
  ospecialize* Hck; [rewrite !Forall_cons; split_and!; apply le_bytes_ok || apply be_bytes_ok || constructor
    |rewrite !Forall_cons; unfold total, udplen; rewrite !length_le_bytes, !length_be_bytes; by repeat split
    |apply length_le_bytes|apply length_le_bytes|]. cbv beta zeta in Hck |- *.
  set (ck := ipchksum (take 20 (udp_front total [0; 0] _ _ _ _ _)) 0) in *. clearbody ck.
  destruct (explicit4 _ (length_le_bytes 4 src)) as (s0&s1&s2&s3&Es).
  destruct (explicit4 _ (length_le_bytes 4 dst)) as (d0&d1&d2&d3&Ed).
  destruct (explicit2 _ (length_le_bytes 2 sport)) as (sp0&sp1&Esp).
  destruct (explicit2 _ (length_le_bytes 2 dport)) as (dp0&dp1&Edp).
  destruct (explicit2 total (length_be_bytes 2 _)) as (t0&t1&Et).
  destruct (explicit2 udplen (length_be_bytes 2 _)) as (l0&l1&El).
  destruct (explicit2 _ (length_le_bytes 2 ck)) as (c0&c1&Ec).
  pose proof (le_value_bytes 4 src) as Vs. pose proof (le_value_bytes 4 dst) as Vd.
  pose proof (le_value_bytes 2 sport) as Vsp. pose proof (le_value_bytes 2 dport) as Vdp.
  rewrite Z.mod_small in Vs, Vd, Vsp, Vdp by (apply Hs || apply Hd || apply Hsp || apply Hdp).
  rewrite Es in Vs. rewrite Ed in Vd. rewrite Esp in Vsp. rewrite Edp in Vdp.
  rewrite Es, Ed, Esp, Edp, Et, El, Ec in Hck |- *. unfold udp_front in *. cbn [app] in *.
  eexists. split; [done|]. split; [done|]. split; [by cbn [drop]; rewrite drop_0|].
  unfold ServiceProtocol, IsV4, srcv4, dstv4, SrcPort, DstPort, L4Data, Hdr.version, Hdr.ihl.
  cbv [Hdr.saddr Hdr.daddr Hdr.protocol].
  rewrite !get_done by (cbn [length]; lia). cbn [take drop obind].
  change (Z.to_nat (Z.land (le_value [69]) 15)) with 5%nat. change (5 * 4)%nat with 20%nat.
  change (bool_decide (le_value [17] = IPProtocol_TCP \/ le_value [17] = IPProtocol_UDP)) with true.
  rewrite !get_done by (cbn [length]; lia). cbn [take drop obind Nat.add].
  rewrite Vs, Vd, Vsp, Vdp. rewrite bool_decide_false by (cbn [length]; lia).
  split_and!; try done. do 3 f_equal. cbn [length]. lia.
Qed.

#[local] Instance oxenc_instance : Oxenc :=
  {| write_host_as_big := be_bytes; load_big_to_host := fun _ l => be_value l |}.
#[local] Instance oxenc_instance_spec : OxencSpec.
Proof. by split. Qed.

Lemma make_udp_correct_witness : exists p,
  make_udp (ipv4addr_t 0x0100000a) 0xe803 (ipv4addr_t 0x0200000a) 0x3500 [104; 105] = Done p
  /\ ipchksum (take 20 p) 0 = 0 /\ srcv4 p = Done 0x0a000001.
Proof.
  destruct (make_udp_correct 0x0100000a 0xe803 0x0200000a 0x3500 [104; 105])
    as (p&E&_&_&_&Hs&_&_&_&_&_&Hc); [done..|].
  by exists p.
Defined.

(** The first 28 bytes of an ICMP reply, checksums [ck] and [ick]. *)
Definition icmp_front (ttl ck src dst ick : list Z) : list Z :=
  [69; 0; 0; 56; 0; 0; 64; 0] ++ ttl ++ [1] ++ ck ++ src ++ dst ++ [3; 7] ++ ick ++ [0; 0; 5; 220].

Lemma explicit1 (l : list Z) : length l = 1%nat -> exists a, l = [a].
Proof. destruct l as [|a [|]]; try done. by exists a. Qed.

Lemma MakeICMPUnreachable_layout `{OxencSpec} p : bytes_ok p -> IsV4 p = Done true ->
  Hdr.ihl p = Done 5%nat -> (28 <= length p)%nat ->
  let front ck ick := icmp_front (take 1 (drop 8 p)) ck (take 4 (drop 16 p)) (take 4 (drop 12 p)) ick in
  let ck := le_bytes 2 (ipchksum (take 20 (front [0; 0] [0; 0])) 0) in
  let ick := le_bytes 2 (ipchksum (drop 20 (front ck [0; 0]) ++ take 28 p) 0) in
  MakeICMPUnreachable p = Done (IcmpReply (front ck ick ++ take 28 p)).
Proof.
  intros Hok Hv Hi Hl front ck ick. unfold MakeICMPUnreachable. rewrite Hv. cbn [obind negb].
  rewrite Hi. cbn [obind]. unfold IPPacket_size. rewrite bool_decide_false by (unfold MinSize; lia).
  rewrite !write_host_as_big_spec.
  change ((8 + 5 * 4) * 2)%nat with 56%nat. change (5 * 4)%nat with 20%nat. change (20 + 8)%nat with 28%nat.
  cbv [Hdr.tot_len Hdr.protocol Hdr.ttl Hdr.frag_off Hdr.saddr Hdr.daddr Hdr.check Hdr.tos].
  change (replicate 56 0) with (replicate 28 0 ++ replicate 28 0).
  pose proof (length_replicate 28 0) as Hr. set (tl := replicate 28 0) in |- * at 2. 
  assert (length tl = 28%nat) as Ht by done. clearbody tl. clear Hr.
  cbn [replicate app]. rewrite version_front. cbn [obind]. rewrite ihl_front. cbn [obind].
  assert (forall off n, (off + n <= length p)%nat ->
    le_bytes n (le_value (take n (drop off p))) = take n (drop off p)) as Hb.
  { intros off n Hn. rewrite <- (subbytes_length p off n Hn) at 1. by apply le_bytes_value, subbytes. }
  pose proof (Hb 16%nat 4%nat ltac:(lia)) as ED. pose proof (Hb 12%nat 4%nat ltac:(lia)) as ES.
  pose proof (Hb 8%nat 1%nat ltac:(lia)) as ET.
  unfold front, icmp_front in *. rewrite !get_done by lia.
  destruct (explicit4 _ (subbytes_length p 16 4 ltac:(lia))) as (d0&d1&d2&d3&Ed).
  destruct (explicit4 _ (subbytes_length p 12 4 ltac:(lia))) as (s0&s1&s2&s3&Es).
  destruct (explicit1 _ (subbytes_length p 8 1 ltac:(lia))) as (t&Et).
  rewrite Ed in ED. rewrite Es in ES. rewrite Et in ET. unfold ick, ck. rewrite Ed, Es, Et. clear ck ick.
  assert (le_bytes 1 0 = [0] /\ le_bytes 1 1 = [1] /\ le_bytes 1 3 = [3] /\ le_bytes 1 7 = [7]
    /\ le_bytes 2 0 = [0; 0] /\ le_bytes 2 (htons (u16 (Z.of_nat 56))) = [0; 56]
    /\ le_bytes 2 (htons 16384) = [64; 0] /\ be_bytes 4 0 = [0; 0; 0; 0] /\ be_bytes 2 1500 = [5; 220])
    as (E0&E1&E3&E7&Ez&Ep&Ef&Ez4&Emtu) by done.
  assert (length (take 28 p) = 28%nat) as Hq by (rewrite length_take; lia).
  step_store E0. step_store Ez. step_store Ep. step_store ED. step_store ES. step_store E1. step_store ET.
  step_store Ef. step_store E3. step_store E7. step_store Ez4. step_store Emtu.
  rewrite load_done, drop_0 by lia. cbn [obind]. set (quoted := take 28 p) in *. clearbody quoted.
  rewrite save_done by (cbn [length]; lia). unfold store. rewrite Hq. cbn [obind take drop app Nat.add].
  rewrite drop_ge, app_nil_r, take_0, app_nil_l by lia.
  rewrite load_done by (cbn [length]; lia). cbn [obind take drop app].
  set (c := ipchksum _ 0). destruct (explicit2 _ (length_le_bytes 2 c)) as (c0&c1&Ec). step_store Ec.
  rewrite load_done by (cbn [length]; lia). cbn [obind take drop app Nat.sub].
  rewrite take_ge by lia. set (i := ipchksum _ 0).
  destruct (explicit2 _ (length_le_bytes 2 i)) as (i0&i1&Ei). step_store Ei. done.
Qed.

Lemma icmp_front_ok ttl ck src dst ick : bytes_ok ttl -> bytes_ok ck -> bytes_ok src ->
  bytes_ok dst -> bytes_ok ick -> bytes_ok (icmp_front ttl ck src dst ick).
Proof.
  intros. unfold icmp_front.
  rewrite !Forall_app. unfold is_byte. split_and!; try tauto; repeat constructor; lia.
Qed.

Lemma icmp_front_checksums ttl src dst quoted :
  Forall bytes_ok [ttl; src; dst; quoted] -> length ttl = 1%nat -> length src = 4%nat ->
  length dst = 4%nat -> length quoted = 28%nat ->
  let front ck ick := icmp_front ttl ck src dst ick in
  let ck := le_bytes 2 (ipchksum (take 20 (front [0; 0] [0; 0])) 0) in
  let ick := le_bytes 2 (ipchksum (drop 20 (front ck [0; 0]) ++ quoted) 0) in
  ipchksum (take 20 (front ck ick ++ quoted)) 0 = 0
  /\ ipchksum (drop 20 (front ck ick ++ quoted)) 0 = 0.
Proof.
  rewrite !Forall_cons. intros Hok Ht Hs Hd Hq front ck ick.
  set (h := take 20 (front [0; 0] [0; 0])) in *. set (b := drop 20 (front ck [0; 0]) ++ quoted) in *.
  assert (bytes_ok [0; 0]) as Hz by (by repeat constructor).
  assert (bytes_ok ck) as Hck by apply le_bytes_ok.
  assert (bytes_ok h) as Hh by (apply Forall_take, icmp_front_ok; tauto).
  assert (bytes_ok b) as Hb.
  { apply Forall_app. split; [apply Forall_drop, icmp_front_ok; tauto|tauto]. }
  destruct (explicit1 _ Ht) as (?&->). destruct (explicit4 _ Hs) as (?&?&?&?&->).
  destruct (explicit4 _ Hd) as (?&?&?&?&->). destruct (explicit2 ck (length_le_bytes 2 _)) as (c0&c1&Ec).
  destruct (explicit2 ick (length_le_bytes 2 _)) as (i0&i1&Ei). split.
  - assert (take 20 (front ck ick ++ quoted) = store h 10 ck) as ->.
    { unfold front, icmp_front, h. by rewrite Ec, Ei. }
    apply checksum_store; [done|by cbn|by exists 5%nat|by cbn; lia|done].
  - assert (drop 20 (front ck ick ++ quoted) = store b 2 ick) as ->.
    { unfold front, icmp_front, b. by rewrite Ec, Ei. }
    assert (length b = 36%nat) as Hlb by (unfold b, front, icmp_front; rewrite Ec; cbn [drop app length]; lia).
    apply checksum_store; [done|lia|by exists 1%nat|lia|].
    unfold b, front, icmp_front. by rewrite Ec.
Qed.

(** For an IPv4 packet without header options that carries at least eight
    bytes after its header, the unreachable reply is addressed back to the
    sender, quotes the header and first eight bytes, and both the header and
    the ICMP checksum are valid. *)
Theorem icmp_unreachable_correct `{OxencSpec} p : bytes_ok p -> IsV4 p = Done true ->
  Hdr.ihl p = Done 5%nat -> (28 <= length p)%nat ->
  exists r, MakeICMPUnreachable p = Done (IcmpReply r) /\ length r = 56%nat
    /\ srcv4 r = dstv4 p /\ dstv4 r = srcv4 p /\ packet_protocol r = Done 1
    /\ get 1 r Hdr.ttl = get 1 p Hdr.ttl
    /\ take 2 (drop 20 r) = [3; 7] /\ drop 28 r = take 28 p
    /\ ipchksum (take 20 r) 0 = 0 /\ ipchksum (drop 20 r) 0 = 0.
Proof.
  intros Hok Hv Hi Hl. rewrite (MakeICMPUnreachable_layout p Hok Hv Hi Hl).
  pose proof (icmp_front_checksums (take 1 (drop 8 p)) (take 4 (drop 16 p)) (take 4 (drop 12 p)) (take 28 p)) as Hc.
  ospecialize* Hc; [rewrite !Forall_cons; split_and!; try apply Forall_nil_2; by repeat first [apply subbytes|apply Forall_take]
    |apply subbytes_length; lia|apply subbytes_length; lia|apply subbytes_length; lia|rewrite length_take; lia|].
  cbv beta zeta in Hc |- *. set (ick := ipchksum (drop 20 _ ++ _) 0) in *. clearbody ick.
  set (ck := ipchksum (take 20 (icmp_front _ _ _ _ _)) 0) in *. clearbody ck.
  unfold srcv4, dstv4, packet_protocol, IsV4, Hdr.version.
  cbv [Hdr.saddr Hdr.daddr Hdr.protocol Hdr.ttl]. rewrite !(get_done _ p) by lia. cbn [obind].
  destruct (explicit4 _ (subbytes_length p 16 4 ltac:(lia))) as (d0&d1&d2&d3&Ed).
  destruct (explicit4 _ (subbytes_length p 12 4 ltac:(lia))) as (s0&s1&s2&s3&Es).
  destruct (explicit1 _ (subbytes_length p 8 1 ltac:(lia))) as (t&Et).
  destruct (explicit2 _ (length_le_bytes 2 ck)) as (c0&c1&Ec).
  destruct (explicit2 _ (length_le_bytes 2 ick)) as (i0&i1&Ei).
  rewrite Ed, Es, Et, Ec, Ei in Hc |- *.
  assert (length (take 28 p) = 28%nat) as Hq by (rewrite length_take; lia).
  unfold icmp_front in *. cbn [app] in *. set (quoted := take 28 p) in *. clearbody quoted.
  eexists. split; [done|]. rewrite !get_done by (cbn [length]; lia). cbn [obind take drop].
  rewrite drop_0. split_and!; try done; try apply Hc. cbn [length]. lia.
Qed.

Lemma icmp_unreachable_correct_witness : exists r,
  MakeICMPUnreachable sample_packet = Done (IcmpReply r) /\ ipchksum (drop 20 r) 0 = 0.
Proof.
  destruct (icmp_unreachable_correct sample_packet) as (r&E&_&_&_&_&_&_&_&_&Hc);
    [by vm_compute; repeat constructor|done|done|by vm_compute; lia|].
  by exists r.
Defined.

(** With header options the reply still announces a header of 20 bytes, but its
    ICMP part starts after a header of the original length. *)
Lemma icmp_options_misplaced : exists r,
  MakeICMPUnreachable (70 :: replicate 35 1) = Done (IcmpReply r)
  /\ Hdr.ihl r = Done 5%nat /\ take 2 (drop 20 r) = [0; 0] /\ take 2 (drop 24 r) = [3; 7].
Proof. eexists. split; [by vm_compute|]. by vm_compute. Qed.

(** A packet with less than eight bytes after its header is read past its end. *)
Lemma icmp_reads_past_end : MakeICMPUnreachable (69 :: replicate 20 0) = Fault.
Proof. by vm_compute. Qed.

(** The port accessors do not test the packet size. *)
Lemma port_reads_past_end : DstPort (take 20 sample_packet) = Fault.
Proof. by vm_compute. Qed.
