(* ===== verification/TrafficPolicy.v ===== *)
(** * Exit traffic policies ([llarp/net/traffic_policy.cpp])

    The protocol and range sets of an exit policy, their bencoding, the textual
    form of ranges ([llarp/net/ip_range.cpp], [llarp/net/net_int.cpp]) and the
    test of a packet against a policy.  A [std::set] is the list of its elements
    in order.  Uncaught exceptions are [Fault]s. *)

From S2P Require Import Prelude Buffer Bencode Uint128 IPRange IPPacket.
Open Scope Z_scope.

(** [inet_ntop] and [inet_pton] on the bytes of an address in network order:
    the documented presentation forms. *)
Class InetText := {
  inet_ntop4 : list Z -> list Z;
  inet_pton4 : list Z -> option (list Z);
  inet_ntop6 : list Z -> list Z;
  inet_pton6 : list Z -> option (list Z) }.

Definition ch_slash : Z := 47.
Definition ch_dot : Z := 46.

Class InetTextSpec `{InetText} : Prop := {
  pton4_ntop4 l : length l = 4%nat -> bytes_ok l -> inet_pton4 (inet_ntop4 l) = Some l;
  pton6_ntop6 l : length l = 16%nat -> bytes_ok l -> inet_pton6 (inet_ntop6 l) = Some l;
  ntop4_chars l c : c ∈ inet_ntop4 l -> isdigit c = true \/ c = ch_dot;
  ntop6_colon l : ch_colon ∈ inet_ntop6 l;
  ntop6_slash l : ch_slash ∉ inet_ntop6 l;
  ntop4_length l : (length (inet_ntop4 l) < 16)%nat;
  ntop6_length l : (length (inet_ntop6 l) < 64)%nat }.

(** [oxenc::bt_serialize] and [bt_deserialize] of a string; [None] is a throw. *)
Class OxencBt := {
  bt_serialize : list Z -> list Z;
  bt_deserialize : list Z -> option (list Z) }.
Class OxencBtSpec `{OxencBt} : Prop := {
  bt_serialize_spec s : bt_serialize s = enc_str s;
  bt_deserialize_spec s : bt_deserialize (enc_str s) = Some s }.

(** [std::stoi]; [None] is a throw. *)
Definition stoi (s : list Z) : option Z :=
  let '(neg, ds) := strto_subject s in
  match ds with
  | [] => None
  | _ =>
      let v := if neg then - digits_value ds else digits_value ds in
      if (- 2 ^ 31 <=? v) && (v <? 2 ^ 31) then Some v else None
  end.

(** [atoi] where the value fits an [int]; it is undefined elsewhere. *)
Definition atoi_int (s : list Z) : outcome Z :=
  let v := atoi s in
  if (- 2 ^ 31 <=? v) && (v <? 2 ^ 31) then Done v else Fault.

(** The text before and after the first [c] ([find] and [substr]). *)
Fixpoint split_first (c : Z) (s : list Z) : option (list Z * list Z) :=
  match s with
  | [] => None
  | x :: s =>
      if x =? c then Some ([], s)
      else match split_first c s with
           | Some (pre, post) => Some (x :: pre, post)
           | None => None
           end
  end.

Section RangeText.
Context `{InetText} `{OxencSwap} `{OxencBt}.

(** [huint32_t] and [huint128_t]: [ToString] and [FromString] *)
Definition huint32_ToString (h : Z) : list Z := inet_ntop4 (le_bytes 4 (htonl h)).
Definition huint32_FromString (str : list Z) : option Z :=
  match inet_pton4 str with
  | Some n => Some (htonl (le_value n))
  | None => None
  end.
Definition huint128_ToString (h : uint128_t) : list Z := inet_ntop6 (memory128 (ntoh128 h)).
Definition huint128_FromString (str : list Z) : option uint128_t :=
  match inet_pton6 str with
  | Some i => Some (ntoh128 (U128 (le_value (drop 8 i)) (le_value (take 8 i))))
  | None => None
  end.

Definition BaseAddressString (r : IPRange) : outcome (list Z) :=
  let! v4 := IPRange.IsV4 r in
  Done (if v4 then huint32_ToString (TruncateV6 (addr r)) else huint128_ToString (addr r)).

Definition NetmaskString (r : IPRange) : outcome (list Z) :=
  let! v4 := IPRange.IsV4 r in
  Done (if v4 then huint32_ToString (TruncateV6 (netmask_bits r)) else huint128_ToString (netmask_bits r)).

Definition range_ToString (r : IPRange) : outcome (list Z) :=
  let! base := BaseAddressString r in
  let! bits := HostmaskBits r in
  Done (base ++ [ch_slash] ++ dec bits).

Definition range_FromString (str : list Z) : outcome (option IPRange) :=
  let colin := bool_decide (ch_colon ∈ str) in
  let '(str, bitsstr) := default (str, []) (split_first ch_slash str) in
  if negb colin then
    match huint32_FromString str with
    | None => Done None
    | Some ip =>
        let addr := ExpandV4 ip in
        match bitsstr with
        | [] => let! m := netmask_ipv6_bits 128 in Done (Some (mkIPRange addr m))
        | _ =>
            match stoi bitsstr with
            | None => Fault
            | Some bits =>
                if (bits <? 0) || (32 <? bits) then Done None
                else let! m := netmask_ipv6_bits (96 + bits) in Done (Some (mkIPRange addr m))
            end
        end
    end
  else
    match huint128_FromString str with
    | None => Done None
    | Some addr =>
        match bitsstr with
        | [] => let! m := netmask_ipv6_bits 128 in Done (Some (mkIPRange addr m))
        | _ =>
            let! bits := atoi_int bitsstr in
            if (bits <? 0) || (128 <? bits) then Done None
            else let! m := netmask_ipv6_bits bits in Done (Some (mkIPRange addr m))
        end
    end.

(** [ToString] ends ([netmask_ipv6_bits] has a constant argument there), so the
    encoder only fails for lack of room. *)
Definition range_BEncode (r : IPRange) (buf : llarp_buffer_t) : bool * llarp_buffer_t :=
  match range_ToString r with
  | Done str => write buf (bt_serialize str)
  | _ => (false, buf)
  end.

Definition range_BDecode (buf : llarp_buffer_t) : outcome (option IPRange * llarp_buffer_t) :=
  let start := cur buf in
  let! (ok, buf) := bencode_discard (S (S (sz buf))) buf in
  if negb ok then Done (None, buf)
  else
    let data := take (cur buf - start) (drop start (base buf)) in
    match bt_deserialize data with
    | None => Done (None, buf)
    | Some str => let! r := range_FromString str in Done (r, buf)
    end.

#[export] Instance range_item : BItem IPRange := {| BEncode := range_BEncode; BDecode := range_BDecode |}.
End RangeText.

(** ** Protocols *)

Record ProtocolInfo := mkProtocolInfo { protocol : Z; port : option Z }.

#[export] Instance ProtocolInfo_eq_dec : EqDecision ProtocolInfo.
Proof. solve_decision. Defined.

(** [operator<]: the tuple of protocol and port, a missing port first *)
Definition protocol_lt (a b : ProtocolInfo) : bool :=
  (protocol a <? protocol b)
  || ((protocol a =? protocol b)
      && match port a, port b with
         | None, Some _ => true
         | Some x, Some y => x <? y
         | _, None => false
         end).

Section Protocol.
Context `{OxencSwap}.

(** [ToHost] and [ToNet] of a port *)
Definition port_ToHost (n : Z) : Z := big_to_host 2 n.
Definition port_ToNet (h : Z) : Z := host_to_big 2 h.

Definition protocol_BEncode (p : ProtocolInfo) (buf : llarp_buffer_t) : bool * llarp_buffer_t :=
  and_then (bencode_start_list buf) (fun buf =>
  and_then (bencode_write_uint64 buf (protocol p)) (fun buf =>
  and_then (match port p with
            | Some n => bencode_write_uint64 buf (port_ToHost n)
            | None => (true, buf)
            end) bencode_end)).

Definition vals_sink : list_sink (list Z) := fun vals buf more =>
  if more then
    let! (r, buf) := bencode_read_integer buf in
    match r with
    | None => Done (false, buf, vals)
    | Some intval => Done (true, buf, vals ++ [intval])
    end
  else Done (true, buf, vals).

Definition protocol_BDecode (buf : llarp_buffer_t) : outcome (option ProtocolInfo * llarp_buffer_t) :=
  let! (ok, buf, vals) := bencode_read_list (S (sz buf)) vals_sink [] buf in
  if negb ok then Done (None, buf)
  else
    match vals with
    | [] => Done (None, buf)
    | proto :: rest =>
        if 255 <? proto then Done (None, buf)
        else
          match rest with
          | [] => Done (Some (mkProtocolInfo proto None), buf)
          | val :: _ =>
              if 65536 <? val then Done (None, buf)
              else Done (Some (mkProtocolInfo proto (Some (port_ToNet (u16 val)))), buf)
          end
    end.

#[export] Instance protocol_item : BItem ProtocolInfo :=
  {| BEncode := protocol_BEncode; BDecode := protocol_BDecode |}.
End Protocol.

Definition MatchesPacket (p : ProtocolInfo) (pkt : list Z) : outcome bool :=
  let! proto := get 1 pkt Hdr.protocol in
  if negb (proto =? protocol p) then Done false
  else
    match port p with
    | None => Done true
    | Some n =>
        let! maybe := DstPort pkt in
        match maybe with
        | Some m => Done (n =? m)
        | None => Done true
        end
    end.

(** ** Policies *)

Record TrafficPolicy := mkTrafficPolicy { ranges : list IPRange; protocols : list ProtocolInfo }.

Fixpoint any_protocol (l : list ProtocolInfo) (pkt : list Z) : outcome bool :=
  match l with
  | [] => Done false
  | proto :: l => let! m := MatchesPacket proto pkt in if m then Done true else any_protocol l pkt
  end.

Fixpoint any_range (l : list IPRange) (pkt : list Z) : outcome bool :=
  match l with
  | [] => Done false
  | range :: l =>
      let! v6 := IsV6 pkt in
      if v6 then
        let! dst := dstv6 pkt in if Contains range dst then Done true else any_range l pkt
      else
        let! v4 := IPPacket.IsV4 pkt in
        if v4 then
          let! dst := dst4to6 pkt in if Contains range dst then Done true else any_range l pkt
        else Done false
  end.

Definition AllowsTraffic (pol : TrafficPolicy) (pkt : list Z) : outcome bool :=
  match protocols pol, ranges pol with
  | [], [] => Done true
  | _, _ =>
      let! m := any_protocol (protocols pol) pkt in
      if m then Done true else any_range (ranges pol) pkt
  end.

Section Policy.
Context `{InetText} `{OxencSwap} `{OxencBt}.

Definition policy_BEncode (pol : TrafficPolicy) (buf : llarp_buffer_t) : bool * llarp_buffer_t :=
  and_then (bencode_start_dict buf) (fun buf =>
  and_then (bencode_write_bytestring buf [112]) (fun buf =>
  and_then (bencode_start_list buf) (fun buf =>
  and_then (write_items (protocols pol) buf) (fun buf =>
  and_then (bencode_end buf) (fun buf =>
  and_then (bencode_write_bytestring buf [114]) (fun buf =>
  and_then (bencode_start_list buf) (fun buf =>
  and_then (write_items (ranges pol) buf) (fun buf =>
  and_then (bencode_end buf) bencode_end)))))))).

Definition policy_sink (fuel : nat) : dict_sink TrafficPolicy := fun pol buf key =>
  match key with
  | None => Done (true, buf, pol)
  | Some key =>
      if startswith key [112] then
        let! (ok, buf, l) := BEncodeReadSet protocol_lt fuel (protocols pol) buf in
        Done (ok, buf, mkTrafficPolicy (ranges pol) l)
      else if startswith key [114] then
        let! (ok, buf, l) := BEncodeReadSet range_lt fuel (ranges pol) buf in
        Done (ok, buf, mkTrafficPolicy l (protocols pol))
      else
        let! (ok, buf) := bencode_discard fuel buf in Done (ok, buf, pol)
  end.

(** The policy that is decoded into may already have entries. *)
Definition policy_BDecode (pol : TrafficPolicy) (buf : llarp_buffer_t)
  : outcome (bool * llarp_buffer_t * TrafficPolicy) :=
  bencode_read_dict (S (S (sz buf))) (policy_sink (S (S (sz buf)))) pol buf.
End Policy.

(** ** The protocol codec *)

Lemma le_bytes_bswap n v : le_bytes n (bswap n v) = be_bytes n v.
Proof.
  unfold bswap, le_bytes.
  pose proof (be_bytes_be_value (rev (be_bytes n v)) (Forall_rev (be_bytes_ok n v))) as E.
  rewrite length_rev, length_be_bytes in E. rewrite E. apply rev_involutive.
Qed.

Lemma bswap_bswap n v : 0 <= v < 256 ^ Z.of_nat n -> bswap n (bswap n v) = v.
Proof. intros. unfold bswap at 1. by rewrite le_bytes_bswap, be_value_be_bytes. Qed.

Lemma bswap_range n v : 0 <= bswap n v < 256 ^ Z.of_nat n.
Proof.
  pose proof (be_value_range _ (le_bytes_ok n v)) as Hr. by rewrite length_le_bytes in Hr.
Qed.

Section ProtocolCodec.
Context `{OxencSwapSpec}.

Lemma port_ToHost_bswap n : port_ToHost n = bswap 2 n.
Proof. apply big_to_host_spec. Qed.

Lemma port_ToNet_bswap n : port_ToNet n = bswap 2 n.
Proof. apply host_to_big_spec. Qed.

Definition protocol_vals (p : ProtocolInfo) : list Z :=
  protocol p :: match port p with Some n => [port_ToHost n] | None => [] end.

Definition protocol_ok (p : ProtocolInfo) : Prop :=
  is_byte (protocol p) /\ forall n, port p = Some n -> in_width 16 n.

Definition protocol_enc (p : ProtocolInfo) : list Z :=
  ch_l :: flat_map enc_int (protocol_vals p) ++ [ch_e].

Lemma protocol_vals_width p : protocol_ok p -> Forall (in_width 64) (protocol_vals p).
Proof.
  intros [Hp Hn]. unfold protocol_vals, is_byte in *. constructor; [unfold in_width; lia|].
  destruct (port p) as [n|]; [|constructor]. constructor; [|constructor].
  rewrite port_ToHost_bswap. pose proof (bswap_range 2 n : 0 <= bswap 2 n < 256 ^ 2). unfold in_width. lia.
Qed.

Lemma vals_sink_reads v : in_width 64 v ->
  list_sink_reads enc_int (fun acc x => acc ++ [x]) vals_sink v.
Proof.
  intros Hv. split.
  - destruct (enc_int_head v) as [t E]. exists ch_i, t. by rewrite E.
  - intros s b rest E. cbn [vals_sink]. by rewrite (bencode_read_integer_spec b v rest).
Qed.

Lemma fold_snoc {A} (l acc : list A) : fold_left (fun acc x => acc ++ [x]) l acc = acc ++ l.
Proof.
  revert acc. induction l as [|x l IH]; intros acc; cbn; [by rewrite app_nil_r|].
  by rewrite IH, <- app_assoc.
Qed.

Lemma protocol_decode p b rest : protocol_ok p -> rem b = protocol_enc p ++ rest ->
  protocol_BDecode b = Done (Some p, advance (length (protocol_enc p)) b).
Proof.
  intros Hp E. unfold protocol_BDecode. unfold protocol_enc in E. cbn [app] in E.
  rewrite <- app_assoc in E. cbn [app] in E.
  rewrite (read_list_spec enc_int (fun acc x => acc ++ [x]) vals_sink (protocol_vals p) _ _ b rest); [| |exact E|].
  2: { eapply Forall_impl; [by apply protocol_vals_width|]. apply vals_sink_reads. }
  2: { pose proof (length_rem b) as Hl. rewrite E in Hl. cbn [length] in Hl. rewrite length_app in Hl.
       pose proof (length_flat_map_le enc_int (protocol_vals p)) as Hf.
       unfold protocol_vals in *. destruct (port p); cbn in *; lia. }
  rewrite fold_snoc. cbn [vals_sink obind negb app].
  assert (advance (length (flat_map enc_int (protocol_vals p)) + 2) b
    = advance (length (protocol_enc p)) b) as ->.
  { f_equal. unfold protocol_enc. cbn [length]. rewrite length_app. cbn [length]. lia. }
  destruct Hp as [Hb Hn]. unfold is_byte in Hb. unfold protocol_vals. destruct p as [pr po]. cbn [protocol port] in *.
  rewrite (proj2 (Z.ltb_ge 255 pr)) by lia. destruct po as [n|]; [|done].
  specialize (Hn n eq_refl). pose proof (bswap_range 2 n : 0 <= bswap 2 n < 65536).
  rewrite port_ToHost_bswap. rewrite (proj2 (Z.ltb_ge 65536 (bswap 2 n))) by lia.
  rewrite wrap_small by (unfold in_width; lia). rewrite port_ToNet_bswap.
  by rewrite bswap_bswap by exact Hn.
Qed.

Lemma protocol_encode p b : protocol_ok p -> wf b -> (length (protocol_enc p) < size_left b)%nat ->
  exists b', protocol_BEncode p b = (true, b') /\ appends b (protocol_enc p) b'.
Proof.
  intros Hp Hw Hs. pose proof (protocol_vals_width p Hp) as Hv. unfold protocol_enc in *.
  cbn [length] in Hs. rewrite length_app in Hs. cbn [length] in Hs.
  unfold protocol_BEncode, bencode_start_list, bencode_end. unfold protocol_vals in *.
  destruct (write_appends b [ch_l]) as (b1 & -> & H1); [done|cbn; lia|]. cbn [and_then].
  pose proof (appends_size_left _ _ _ Hw H1) as S1. cbn in S1. cbn [flat_map] in *.
  rewrite length_app in Hs. apply Forall_cons in Hv as [Hv1 Hv].
  destruct (bencode_write_uint64_spec b1 (protocol p)) as (b2&->&H2); [apply H1|done|lia|]. cbn [and_then].
  assert (wf b2) as Hw2 by apply H2. pose proof (appends_size_left b1 _ _ ltac:(apply H1) H2) as S2.
  destruct (port p) as [n|]; cbn [flat_map] in *.
  - apply Forall_cons in Hv as [Hv2 _]. rewrite app_nil_r in *.
    destruct (bencode_write_uint64_spec b2 (port_ToHost n)) as (b3&->&H3); [done|done|lia|]. cbn [and_then].
    pose proof (appends_size_left b2 _ _ Hw2 H3) as S3.
    destruct (write_appends b3 [ch_e]) as (b4 & -> & H4); [apply H3|cbn; lia|].
    eexists. split; [done|]. change (ch_l :: ?x) with ([ch_l] ++ x). rewrite <- app_assoc. eauto with belnet.
  - cbn [and_then]. destruct (write_appends b2 [ch_e]) as (b4 & -> & H4); [apply H2|cbn in *; lia|].
    eexists. split; [done|]. change (ch_l :: ?x) with ([ch_l] ++ x). rewrite app_nil_r. eauto with belnet.
Qed.

#[export, refine] Instance protocol_item_spec : BItemSpec ProtocolInfo := {|
  item_ok := protocol_ok; item_enc := protocol_enc |}.
Proof.
  - intros p. eexists _, _. split; [reflexivity|done].
  - apply protocol_decode.
  - apply protocol_encode.
Defined.
End ProtocolCodec.

(** ** The range codec *)

(** A range as the code builds them: a prefix mask, with at least 96 bits when
    the address is a mapped IPv4 address. *)
Definition range_bits (r : IPRange) (n : Z) : Prop :=
  0 <= n <= 128 /\ wf128 (addr r) /\ netmask_ipv6_bits n = Done (netmask_bits r)
  /\ (IPRange.IsV4 r = Done true -> 96 <= n).

Definition range_ok (r : IPRange) : Prop := exists n, range_bits r n.

Lemma split_first_spec c pre post : c ∉ pre -> split_first c (pre ++ c :: post) = Some (pre, post).
Proof.
  induction pre as [|x pre IH]; intros Hn; cbn; [by rewrite Z.eqb_refl|].
  rewrite not_elem_of_cons in Hn. rewrite (proj2 (Z.eqb_neq x c)) by (destruct Hn; congruence).
  by rewrite IH by tauto.
Qed.

Lemma stoi_dec v : 0 <= v < 2 ^ 31 -> stoi (dec v) = Some v.
Proof.
  intros Hv. unfold stoi. rewrite strto_subject_dec.
  pose proof (length_dec v 9 ltac:(lia)). destruct (dec v) as [|c ds] eqn:E; [cbn in *; lia|].
  rewrite <- E, dec_value by lia.
  by rewrite (proj2 (Z.leb_le _ v)), (proj2 (Z.ltb_lt v _)) by lia.
Qed.

Lemma atoi_int_dec v : 0 <= v < 2 ^ 31 -> atoi_int (dec v) = Done v.
Proof.
  intros Hv. unfold atoi_int. rewrite atoi_dec by lia.
  by rewrite (proj2 (Z.leb_le _ v)), (proj2 (Z.ltb_lt v _)) by lia.
Qed.

Lemma IsV4_total r : wf128 (addr r) -> exists v4, IPRange.IsV4 r = Done v4
  /\ (v4 = true -> value (addr r) / 2 ^ 32 = 0xffff).
Proof.
  intros Hw. unfold IPRange.IsV4. destruct V4MappedRange_spec as (m&->&Hm&Hv). cbn [obind].
  eexists. split; [done|]. intros Hc. apply (Contains_div m 32) in Hc; [|done..].
  rewrite <- Hc, Hv. done.
Qed.

Lemma v4_mask_bits m n : 96 <= n <= 128 -> netmask_ipv6_bits n = Done m ->
  count_bits 32 (TruncateV6 m) = n - 96.
Proof.
  intros Hn Em. destruct (netmask_ipv6_bits_spec n ltac:(lia)) as (m'&E&Hw&Hv).
  rewrite Em in E. injection E as ->. rewrite TruncateV6_value by done. unfold count_bits.
  rewrite (popcount_prefix 32 _ (128 - n)); [lia|].
  intros i Hi. rewrite wrap_testbit, Hv, prefix_mask_testbit by lia.
  rewrite (proj2 (Z.ltb_lt i 32)), (proj2 (Z.ltb_lt i 128)) by lia. by rewrite andb_true_r.
Qed.

Lemma HostmaskBits_spec r n v4 : range_bits r n -> IPRange.IsV4 r = Done v4 ->
  HostmaskBits r = Done (if v4 then n - 96 else n).
Proof.
  intros (Hn&Hw&Em&H96) E4. unfold HostmaskBits. rewrite E4. cbn [obind].
  destruct v4; f_equal; [apply v4_mask_bits; [auto with lia|done]|].
  destruct (netmask_ipv6_bits_spec n Hn) as (m'&E&Hw'&Hv). rewrite Em in E. injection E as E.
  rewrite E. rewrite (count_bits_prefix m' (128 - n) Hw'); [lia|lia|exact Hv].
Qed.

Lemma ExpandV4_truncate a : wf128 a -> value a / 2 ^ 32 = 0xffff -> ExpandV4 (TruncateV6 a) = a.
Proof.
  intros Hw Hd. pose proof (wrap_range 32 (value a) ltac:(lia)) as Hr.
  apply value_inj; [apply ExpandV4_wf; by rewrite TruncateV6_value|done|].
  rewrite TruncateV6_value, ExpandV4_value by done. unfold wrap.
  pose proof (Z.div_mod (value a) (2 ^ 32) ltac:(lia)). lia.
Qed.

Section RangeTextLemmas.
Context `{InetTextSpec} `{OxencSwapSpec}.

Lemma big_to_host_bswap n v : big_to_host n v = bswap n v.
Proof. apply big_to_host_spec. Qed.

Lemma huint32_text h : in_width 32 h -> huint32_FromString (huint32_ToString h) = Some h.
Proof.
  intros Hh. unfold huint32_FromString, huint32_ToString.
  rewrite pton4_ntop4 by (apply length_le_bytes || apply le_bytes_ok).
  rewrite le_value_bytes, Z.mod_small by apply bswap_range. by rewrite (bswap_bswap 4).
Qed.

Lemma huint128_text h : wf128 h -> huint128_FromString (huint128_ToString h) = Some h.
Proof.
  intros [Hu Hl]. unfold huint128_FromString, huint128_ToString, memory128.
  rewrite pton6_ntop6 by (rewrite ?length_app, ?length_le_bytes; done || (apply Forall_app; split; apply le_bytes_ok)).
  rewrite take_app_length', drop_app_length' by (symmetry; apply length_le_bytes).
  rewrite !le_value_bytes. unfold ntoh128. cbn [upper lower].
  assert (forall v, in_width 64 v -> big_to_host 8 (big_to_host 8 v mod 256 ^ Z.of_nat 8) = v) as Hs.
  { intros v Hv. rewrite !big_to_host_bswap, Z.mod_small by apply bswap_range.
    apply bswap_bswap. exact Hv. }
  rewrite !Hs by done. by destruct h.
Qed.

Definition range_text (r : IPRange) : list Z :=
  match range_ToString r with Done s => s | _ => [] end.

Lemma range_ToString_spec r n : range_bits r n -> exists v4, IPRange.IsV4 r = Done v4
  /\ range_ToString r = Done ((if v4 then huint32_ToString (TruncateV6 (addr r)) else huint128_ToString (addr r))
       ++ ch_slash :: dec (if v4 then n - 96 else n)).
Proof.
  intros Hr. destruct (IsV4_total r) as (v4&E4&_); [apply Hr|]. exists v4. split; [done|].
  unfold range_ToString, BaseAddressString. rewrite E4. cbn [obind].
  by rewrite (HostmaskBits_spec r n v4 Hr E4).
Qed.

Lemma range_text_roundtrip r n : range_bits r n -> range_FromString (range_text r) = Done (Some r).
Proof.
  intros Hr. unfold range_text. destruct (range_ToString_spec r n Hr) as (v4&E4&->).
  pose proof Hr as (Hn&Hw&Em&H96). destruct (IsV4_total r Hw) as (v4'&E4'&Hd).
  rewrite E4 in E4'. injection E4' as <-. unfold range_FromString.
  assert (forall c, isdigit c = false -> c ∉ dec (if v4 then n - 96 else n)) as Hdg.
  { intros c Hc. apply digit_not_elem; [apply dec_digits|done]. }
  assert (dec (if v4 then n - 96 else n) <> []) as Hne.
  { intros E. pose proof (length_dec (if v4 then n - 96 else n) 9) as Hl. rewrite E in Hl. cbn in Hl.
    specialize (H96). destruct v4; [specialize (H96 E4)|]; lia. }
  destruct v4.
  - specialize (H96 E4). specialize (Hd eq_refl).
    assert (forall c, isdigit c = false -> c <> ch_dot -> c ∉ huint32_ToString (TruncateV6 (addr r))) as Hc.
    { intros c Hc1 Hc2 Hin. apply ntop4_chars in Hin as [?|?]; congruence. }
    rewrite bool_decide_false.
    2: { rewrite elem_of_app, elem_of_cons. intros [?|[?|?]]; [by eapply (Hc ch_colon)|done|by eapply (Hdg ch_colon)]. }
    rewrite split_first_spec by (by apply Hc). cbn [default from_option id negb].
    rewrite huint32_text by (rewrite TruncateV6_value by done; by apply wrap_range).
    rewrite ExpandV4_truncate by done. destruct (dec (n - 96)) as [|c0 ds] eqn:Ed; [destruct (Hne eq_refl)|].
    rewrite <- Ed, stoi_dec by lia.
    rewrite (proj2 (Z.ltb_ge (n - 96) 0)), (proj2 (Z.ltb_ge 32 (n - 96))) by lia. cbn [orb].
    replace (96 + (n - 96)) with n by lia. rewrite Em. cbn [obind]. destruct r; reflexivity.
  - rewrite bool_decide_true by (rewrite elem_of_app; left; apply ntop6_colon).
    rewrite split_first_spec by apply ntop6_slash. cbn [default from_option id negb].
    rewrite huint128_text by done. destruct (dec n) as [|c0 ds] eqn:Ed; [destruct (Hne eq_refl)|].
    rewrite <- Ed, atoi_int_dec by lia. cbn [obind].
    rewrite (proj2 (Z.ltb_ge n 0)), (proj2 (Z.ltb_ge 128 n)) by lia. cbn [orb].
    rewrite Em. cbn [obind]. destruct r; reflexivity.
Qed.
End RangeTextLemmas.

Section RangeCodec.
Context `{InetTextSpec} `{OxencSwapSpec} `{OxencBtSpec}.

Lemma range_text_length r : range_ok r -> (length (range_text r) < 100)%nat.
Proof.
  intros [n Hr]. unfold range_text. destruct (range_ToString_spec r n Hr) as (v4&_&->).
  rewrite length_app. cbn [length].
  assert (length (if v4 then huint32_ToString (TruncateV6 (addr r)) else huint128_ToString (addr r)) < 64)%nat.
  { destruct v4; [pose proof (ntop4_length (le_bytes 4 (htonl (TruncateV6 (addr r)))))
                 |pose proof (ntop6_length (memory128 (ntoh128 (addr r))))];
      unfold huint32_ToString, huint128_ToString; lia. }
  assert (length (dec (if v4 then (n - 96) else n)) <= 20)%nat; [|lia].
  unfold dec. rewrite length_rev.
  assert (forall f v, length (dec_rev f v) <= f)%nat as Hd; [|apply Hd].
  induction f as [|f IH]; intros v; cbn; [lia|]. destruct (_ =? _); cbn; [lia|]. specialize (IH (v / 10)). lia.
Qed.

Lemma range_decode r b rest : range_ok r -> rem b = enc_str (range_text r) ++ rest ->
  range_BDecode b = Done (Some r, advance (length (enc_str (range_text r))) b).
Proof.
  intros Hr E. pose proof (range_text_length r Hr) as Hl. unfold range_BDecode.
  set (s := range_text r) in *. set (fuel := S (S (sz b))).
  assert (length (enc_str s) <= sz b)%nat as Hs.
  { pose proof (length_rem b) as Hb. rewrite E, length_app in Hb. lia. }
  rewrite (discard_value fuel (BStr s)) with (rest := rest); [|cbn; lia|cbn [enc_value]; unfold fuel; lia|exact E].
  cbn [obind negb enc_value advance set_cur cur base].
  replace (cur b + length (enc_str s) - cur b)%nat with (length (enc_str s)) by lia.
  unfold rem in E. rewrite E, take_app_length, bt_deserialize_spec.
  destruct Hr as [n Hr]. unfold s. by rewrite (range_text_roundtrip r n Hr).
Qed.

Lemma range_encode r b : range_ok r -> wf b -> (length (enc_str (range_text r)) < size_left b)%nat ->
  exists b', range_BEncode r b = (true, b') /\ appends b (enc_str (range_text r)) b'.
Proof.
  intros [n Hr] Hw Hs. unfold range_BEncode, range_text in *.
  destruct (range_ToString_spec r n Hr) as (v4&_&E). rewrite E in *. rewrite bt_serialize_spec.
  apply write_appends; [done|lia].
Qed.

#[export, refine] Instance range_item_spec : BItemSpec IPRange := {|
  item_ok := range_ok; item_enc := fun r => enc_str (range_text r) |}.
Proof.
  - intros r. destruct (enc_str_head (range_text r)) as (c&t&E&Hc). exists c, t.
    split; [exact E|]. intros ->. discriminate Hc.
  - apply range_decode.
  - apply range_encode.
Defined.
End RangeCodec.

(** ** The policy codec *)

Lemma protocol_lt_asym : lt_asym protocol_lt.
Proof.
  intros a b. unfold protocol_lt. destruct (port a) as [x|], (port b) as [y|]; intros E;
    repeat match goal with
    | |- context [?u <? ?v] => destruct (Z.ltb_spec u v)
    | |- context [?u =? ?v] => destruct (Z.eqb_spec u v)
    | H : context [?u <? ?v] |- _ => destruct (Z.ltb_spec u v)
    | H : context [?u =? ?v] |- _ => destruct (Z.eqb_spec u v)
    end; cbn in *; try done; lia.
Qed.

Lemma lt128_asym a b : lt128 a b = true -> lt128 b a = false.
Proof.
  unfold lt128. destruct (Z.ltb_spec (upper a) (upper b)), (Z.ltb_spec (upper b) (upper a)),
    (Z.ltb_spec (lower a) (lower b)), (Z.ltb_spec (lower b) (lower a)); cbn; try done; lia.
Qed.

Lemma range_lt_asym : lt_asym range_lt.
Proof.
  intros a b. unfold range_lt. set (x := and128 (addr a) _). set (y := and128 (addr b) _).
  pose proof (lt128_asym x y). pose proof (lt128_asym (netmask_bits a) (netmask_bits b)).
  destruct (lt128 x y), (lt128 y x), (lt128 (netmask_bits a) _), (lt128 (netmask_bits b) _);
    cbn; intros E; try discriminate E; try reflexivity; auto.
Qed.

Definition policy_ok `{InetText} `{OxencSwap} `{OxencBt} (pol : TrafficPolicy) : Prop :=
  Forall protocol_ok (protocols pol) /\ StronglySorted (fun x y => protocol_lt x y = true) (protocols pol)
  /\ Forall range_ok (ranges pol) /\ StronglySorted (fun x y => range_lt x y = true) (ranges pol).

Section PolicyCodec.
Context `{InetTextSpec} `{OxencSwapSpec} `{OxencBtSpec}.

Definition policy_enc (pol : TrafficPolicy) : list Z :=
  [ch_d] ++ enc_str [112] ++ enc_list (protocols pol) ++ enc_str [114] ++ enc_list (ranges pol) ++ [ch_e].

Lemma policy_writes pol : policy_ok pol -> writes (policy_BEncode pol) (policy_enc pol).
Proof.
  intros (Hp&_&Hr&_). unfold policy_enc, enc_list, policy_BEncode.
  assert (forall txt : list Z, [ch_l] ++ txt = ch_l :: txt) as _ by done.
  replace ([ch_d] ++ _) with ([ch_d] ++ enc_str [112] ++ [ch_l] ++ flat_map item_enc (protocols pol)
    ++ [ch_e] ++ enc_str [114] ++ [ch_l] ++ flat_map item_enc (ranges pol) ++ [ch_e] ++ [ch_e]).
  - apply writes_then; [apply writes_byte|]. apply writes_then; [by apply writes_bytestring|].
    apply writes_then; [apply writes_byte|]. apply writes_then; [by apply writes_items|].
    apply writes_then; [apply writes_byte|]. apply writes_then; [by apply writes_bytestring|].
    apply writes_then; [apply writes_byte|]. apply writes_then; [by apply writes_items|].
    apply writes_then; apply writes_byte.
  - cbn [app]. by rewrite <- !app_assoc.
Qed.

Lemma sink_protocols fuel pol b rest : Forall protocol_ok (protocols pol) ->
  StronglySorted (fun x y => protocol_lt x y = true) (protocols pol) ->
  rem b = enc_list (protocols pol) ++ rest -> (length (protocols pol) < fuel)%nat ->
  policy_sink fuel (mkTrafficPolicy [] []) b (Some (Buf [112] 0))
  = Done (true, advance (length (enc_list (protocols pol))) b, mkTrafficPolicy [] (protocols pol)).
Proof.
  intros Hp Hs E Hf. unfold policy_sink. rewrite startswith_one. cbn [Z.eqb ranges protocols].
  by rewrite (BEncodeReadSet_spec (HS := protocol_item_spec) protocol_lt _ _ _ _ protocol_lt_asym Hp Hs E Hf).
Qed.

Lemma sink_ranges fuel pol b rest : Forall range_ok (ranges pol) ->
  StronglySorted (fun x y => range_lt x y = true) (ranges pol) ->
  rem b = enc_list (ranges pol) ++ rest -> (length (ranges pol) < fuel)%nat ->
  policy_sink fuel (mkTrafficPolicy [] (protocols pol)) b (Some (Buf [114] 0))
  = Done (true, advance (length (enc_list (ranges pol))) b, pol).
Proof.
  intros Hp Hs E Hf. unfold policy_sink. rewrite !startswith_one. cbn [Z.eqb Pos.eqb ranges protocols].
  rewrite (BEncodeReadSet_spec (HS := range_item_spec) range_lt _ _ _ _ range_lt_asym Hp Hs E Hf). cbn [obind]. by destruct pol.
Qed.

Lemma enc_list_length {T} `{BItemSpec T} (l : list T) : (length l < length (enc_list l))%nat.
Proof.
  unfold enc_list. cbn [length]. rewrite length_app. cbn [length].
  assert (length l <= length (flat_map item_enc l))%nat; [|lia].
  induction l as [|x l IH]; cbn [flat_map length]; [lia|]. rewrite length_app.
  destruct (item_enc_head x) as (c&t&->&_). cbn [length]. lia.
Qed.

Lemma policy_decode pol b rest : policy_ok pol -> rem b = policy_enc pol ++ rest ->
  policy_BDecode (mkTrafficPolicy [] []) b = Done (true, advance (length (policy_enc pol)) b, pol).
Proof.
  intros (Hp&Hps&Hr&Hrs) E. unfold policy_BDecode. set (fuel := S (S (sz b))).
  set (P := enc_list (protocols pol)) in *. set (R := enc_list (ranges pol)) in *.
  assert (length (policy_enc pol) <= sz b)%nat as Hl.
  { pose proof (length_rem b) as Hb. rewrite E, length_app in Hb. lia. }
  assert (length (policy_enc pol) = 2 + length (enc_str [112%Z]) + length P + length (enc_str [114%Z]) + length R)%nat
    as El by (unfold policy_enc; fold P R; rewrite !length_app; cbn [length]; lia).
  pose proof (enc_list_length (protocols pol) : _ < length P)%nat.
  pose proof (enc_list_length (ranges pol) : _ < length R)%nat.
  unfold policy_enc in E. fold P R in E. rewrite <- !app_assoc in E. cbn [app] in E.
  assert (rem (advance 1 b) = enc_str [112] ++ P ++ enc_str [114] ++ R ++ ch_e :: rest) as E1
    by (by rewrite rem_advance, E).
  pose proof (rem_app _ _ _ E1) as E2. pose proof (rem_app _ _ _ E2) as E3.
  pose proof (rem_app _ _ _ E3) as E4. pose proof (rem_app _ _ _ E4) as E5.
  rewrite (read_dict_run (policy_sink fuel) fuel _ pol b
    (advance (length R) (advance (length (enc_str [114])) (advance (length P)
      (advance (length (enc_str [112])) (advance 1 b))))) _ rest E); [|done| |exact E5].
  - cbn [policy_sink]. rewrite !advance_advance. do 3 f_equal. f_equal. lia.
  - transitivity (read_dict_loop (S (S (sz b))) (policy_sink fuel) (mkTrafficPolicy [] []) (advance 1 b));
      [done|].
    etransitivity; [eapply dict_loop_step; [exact E1|done|]; eapply sink_protocols;
      [done|done|exact E2|unfold fuel; lia]|].
    etransitivity; [eapply dict_loop_step; [exact E3|done|]; eapply sink_ranges;
      [done|done|exact E4|unfold fuel; lia]|].
    destruct (sz b) as [|n] eqn:Es; [cbn in *; lia|]. by apply (dict_loop_end _ n _ _ rest).
Qed.
End PolicyCodec.

(** An exit policy survives the wire: what [BEncode] writes, [BDecode] reads
    back into an empty policy as the same protocols, ports and ranges, and stops
    where the writer stopped. *)
Theorem policy_roundtrip `{InetTextSpec} `{OxencSwapSpec} `{OxencBtSpec} pol b :
  policy_ok pol -> wf b -> (length (policy_enc pol) < size_left b)%nat ->
  exists b', policy_BEncode pol b = (true, b')
    /\ policy_BDecode (mkTrafficPolicy [] []) (set_cur b' (cur b)) = Done (true, b', pol).
Proof.
  intros Hp Hw Hs. destruct (policy_writes pol Hp b Hw Hs) as (b'&E&Ha). exists b'. split; [done|].
  pose proof (appends_rem _ _ _ Hw Ha) as Hr.
  by rewrite (policy_decode pol _ _ Hp Hr), (appends_advance _ _ _ Ha).
Qed.

(** A presentation format for the witnesses: three digits per byte. *)
Definition text3 (l : list Z) : list Z :=
  flat_map (fun b => [48 + b mod 256 / 100; 48 + b mod 256 / 10 mod 10; 48 + b mod 256 mod 10]) l.
Fixpoint parse3 (s : list Z) : list Z :=
  match s with
  | a :: b :: c :: t => 100 * (a - 48) + 10 * (b - 48) + (c - 48) :: parse3 t
  | _ => []
  end.

Lemma parse3_text3 l : bytes_ok l -> parse3 (text3 l) = l.
Proof.
  induction 1 as [|b l Hb _ IH]; [done|]. unfold text3 in *. cbn [flat_map app parse3]. rewrite IH.
  f_equal. unfold is_byte in Hb. rewrite (Z.mod_small b 256) by lia.
  pose proof (Z.div_mod b 10 ltac:(lia)). pose proof (Z.div_mod (b / 10) 10 ltac:(lia)).
  rewrite Z.div_div in * by lia. change (10 * 10) with 100 in *. lia.
Qed.

Lemma text3_digits l c : c ∈ text3 l -> isdigit c = true.
Proof.
  unfold text3. rewrite list_elem_of_In, in_flat_map. intros (b&_&Hc).
  pose proof (Z.mod_pos_bound b 256 ltac:(lia)). set (v := b mod 256) in *.
  pose proof (Z.mod_pos_bound v 10 ltac:(lia)). pose proof (Z.mod_pos_bound (v / 10) 10 ltac:(lia)).
  assert (0 <= v / 100 <= 2) by
    (split; [apply Z.div_pos; lia|apply Z.lt_succ_r, Z.div_lt_upper_bound; lia]).
  unfold isdigit. cbn in Hc. apply andb_true_iff. rewrite !Z.leb_le.
  destruct Hc as [<-|[<-|[<-|[]]]]; lia.
Qed.

Lemma text3_length l : length (text3 l) = (3 * length l)%nat.
Proof. unfold text3. induction l as [|b l IH]; [done|]. cbn [flat_map length app]. rewrite IH. lia. Qed.

#[local] Instance text3_inet : InetText := {|
  inet_ntop4 l := text3 (take 4 l); inet_pton4 s := Some (parse3 s);
  inet_ntop6 l := ch_colon :: text3 (take 16 l); inet_pton6 s := Some (parse3 (tail s)) |}.
#[local] Instance text3_inet_spec : InetTextSpec.
Proof.
  split; cbn [inet_ntop4 inet_pton4 inet_ntop6 inet_pton6 text3_inet].
  - intros l Hl Hok. rewrite take_ge by lia. by rewrite parse3_text3.
  - intros l Hl Hok. cbn [tail]. rewrite take_ge by lia. by rewrite parse3_text3.
  - intros l c Hc. left. by eapply text3_digits.
  - intros l. constructor.
  - intros l. rewrite elem_of_cons. intros [?|Hc]; [done|]. by apply text3_digits in Hc.
  - intros l. rewrite text3_length, length_take. lia.
  - intros l. cbn [length]. rewrite text3_length, length_take. lia.
Qed.
#[local] Instance swap_le : OxencSwap := {|
  big_to_host n v := be_value (rev (be_bytes n v)); host_to_big n v := be_value (rev (be_bytes n v)) |}.
#[local] Instance swap_le_spec : OxencSwapSpec.
Proof. by split. Qed.
#[local] Instance bt_plain : OxencBt := {|
  bt_serialize := enc_str;
  bt_deserialize s := match split_first ch_colon s with Some (_, t) => Some t | None => None end |}.
#[local] Instance bt_plain_spec : OxencBtSpec.
Proof.
  split; [done|]. intros s. cbn [bt_deserialize bt_plain]. unfold enc_str.
  rewrite split_first_spec; [done|]. apply digit_not_elem; [apply dec_digits|done].
Qed.

Definition sample_range : IPRange := mkIPRange (ExpandV4 0x0a000000) (U128 (2 ^ 64 - 1) (2 ^ 64 - 2 ^ 24)).
Definition sample_policy : TrafficPolicy :=
  mkTrafficPolicy [sample_range] [mkProtocolInfo 6 (Some 0x5000); mkProtocolInfo 17 None].

Lemma policy_roundtrip_witness : exists b',
  policy_BEncode sample_policy (Buf (replicate 80 0) 3) = (true, b')
  /\ policy_BDecode (mkTrafficPolicy [] []) (set_cur b' 3) = Done (true, b', sample_policy).
Proof.
  apply (policy_roundtrip sample_policy (Buf (replicate 80 0) 3)).
  - split_and!.
    + do 2 (apply Forall_cons_2; [split; [by vm_compute|intros n Hn; by simplify_eq/=]|]). apply Forall_nil_2.
    + do 2 (constructor; [|by repeat constructor]). constructor.
    + apply Forall_cons_2; [|apply Forall_nil_2]. exists 104. split_and!; [lia|lia|done|by vm_compute|lia].
    + constructor; [constructor|apply Forall_nil_2].
  - unfold wf. cbn. lia.
  - vm_compute. lia.
Defined.

(** ** Testing packets *)

Definition protocol_matches (proto : Z) (dport : option Z) (p : ProtocolInfo) : Prop :=
  protocol p = proto /\ (port p = None \/ dport = None \/ port p = dport).

Definition destination (pkt : list Z) (dst : uint128_t) : Prop :=
  (IsV6 pkt = Done true /\ dstv6 pkt = Done dst)
  \/ (IsV6 pkt = Done false /\ IPPacket.IsV4 pkt = Done true /\ dst4to6 pkt = Done dst).

Lemma any_protocol_spec l pkt proto dport : get 1 pkt Hdr.protocol = Done proto ->
  DstPort pkt = Done dport ->
  exists b, any_protocol l pkt = Done b /\ (b = true <-> Exists (protocol_matches proto dport) l).
Proof.
  intros Hp Hd. induction l as [|p l (b&E&IH)]; cbn [any_protocol].
  { exists false. by rewrite Exists_nil. }
  assert (exists m, MatchesPacket p pkt = Done m /\ (m = true <-> protocol_matches proto dport p)) as (m&->&Hm).
  { unfold MatchesPacket, protocol_matches. rewrite Hp, Hd. cbn [obind].
    destruct (Z.eqb_spec proto (protocol p)) as [<-|Hn]; cbn [negb]; [|exists false; split; [done|]; split; [done|intros [? ?]; congruence]].
    destruct (port p) as [n|]; [|exists true; intuition]. destruct dport as [m|]; [|exists true; intuition].
    eexists. split; [done|]. rewrite Z.eqb_eq. split; [intros ->; auto|intros [_ [?|[?|?]]]; congruence]. }
  exists (m || b). split; [cbn [obind]; destruct m; [done|exact E]|].
  by rewrite Exists_cons, orb_true_iff, Hm, IH.
Qed.

Lemma any_range_spec l pkt dst : destination pkt dst ->
  exists b, any_range l pkt = Done b /\ (b = true <-> Exists (fun r => Contains r dst = true) l).
Proof.
  intros Hdst. induction l as [|r l (b&E&IH)]; cbn [any_range].
  { exists false. by rewrite Exists_nil. }
  exists (Contains r dst || b). split.
  - destruct Hdst as [[-> ->]|(->&->&->)]; cbn [obind]; destruct (Contains r dst); done.
  - by rewrite Exists_cons, orb_true_iff, IH.
Qed.

(** A policy allows a packet exactly when it lists nothing, one of its
    protocols has the packet's protocol and no different port, or one of its
    ranges contains the destination. *)
Theorem allows_traffic_correct pol pkt proto dport dst : get 1 pkt Hdr.protocol = Done proto ->
  DstPort pkt = Done dport -> destination pkt dst ->
  exists b, AllowsTraffic pol pkt = Done b /\ (b = true <->
    (protocols pol = [] /\ ranges pol = []) \/ Exists (protocol_matches proto dport) (protocols pol)
    \/ Exists (fun r => Contains r dst = true) (ranges pol)).
Proof.
  intros Hp Hd Hdst. destruct pol as [rs ps]. unfold AllowsTraffic. cbn [protocols ranges].
  destruct (any_protocol_spec ps pkt proto dport Hp Hd) as (b1&E1&H1).
  destruct (any_range_spec rs pkt dst Hdst) as (b2&E2&H2).
  assert (exists b, (let! m := any_protocol ps pkt in if m then Done true else any_range rs pkt) = Done b
    /\ (b = true <-> Exists (protocol_matches proto dport) ps \/ Exists (fun r => Contains r dst = true) rs))
    as (b&Eb&Hb).
  { exists (b1 || b2). rewrite E1. cbn [obind]. split; [by destruct b1|]. by rewrite orb_true_iff, H1, H2. }
  destruct ps as [|p ps], rs as [|r rs]; [exists true; split; [done|]; intuition|..];
    (exists b; split; [exact Eb|]; rewrite Hb; split; [tauto|intros [[? ?]|?]; [discriminate|tauto]]).
Qed.

Lemma allows_traffic_correct_witness : exists b, AllowsTraffic sample_policy sample_packet = Done b
  /\ b = true.
Proof.
  destruct (allows_traffic_correct sample_policy sample_packet 17 (Some 0x3500) (ExpandV4 0x0a000002)) as (b&E&Hb).
  - by vm_compute.
  - by vm_compute.
  - right. by vm_compute.
  - exists b. split; [exact E|]. apply Hb. right. left. right. left. split; [done|by left].
Defined.

(** ** Deviations *)

(** A port of 65536 on the wire is accepted and becomes port 0. *)
Lemma port_65536_accepted : exists b,
  protocol_BDecode (Buf (ch_l :: enc_int 6 ++ enc_int 65536 ++ [ch_e]) 0)
  = Done (Some (mkProtocolInfo 6 (Some 0)), b).
Proof. eexists. by vm_compute. Qed.

(** A range text with a malformed prefix length makes [stoi] throw out of [BDecode]. *)
Lemma malformed_prefix_throws : range_BDecode (Buf (enc_str (text3 [1; 2; 3; 4] ++ [ch_slash; 120])) 0) = Fault.
Proof. by vm_compute. Qed.

(** The protocol of an IPv6 packet is looked up in its source address. *)
Lemma v6_protocol_misread : packet_protocol sample_packet6 = Done 60
  /\ get 1 sample_packet6 Hdr.protocol = Done 0
  /\ MatchesPacket (mkProtocolInfo 60 None) sample_packet6 = Done false.
Proof. by vm_compute. Qed.
