(* ===== verification/Queue.v ===== *)
(** * The lock-free queue ([llarp/util/thread/queue_manager.cpp], [queue.hpp])

    A bounded queue shared by many threads.  Every cell has a state word, a
    generation and one of [Empty], [Writing], [Full], [Reading]; the push and
    pop indexes combine a generation and a cell.  Each operation is a small
    state machine whose steps are the atomic accesses of the code (one load,
    store or compare-exchange each, or work on a cell the thread owns).  The
    machines are run alone for the sequential behaviour and interleaved step by
    step for the concurrent one. *)

From S2P Require Import Prelude.
Open Scope Z_scope.

Inductive ElementState := Empty | Writing | Full | Reading.
Inductive QueueReturn := Success | QueueDisabled | QueueEmpty | QueueFull.

#[export] Instance ElementState_eq_dec : EqDecision ElementState.
Proof. solve_decision. Defined.

Definition to_underlying (e : ElementState) : Z :=
  match e with Empty => 0 | Writing => 1 | Full => 2 | Reading => 3 end.

Definition GENERATION_COUNT_SHIFT : Z := 2.
Definition NUM_ELEMENT_GENERATIONS : Z := 2 ^ 30.
Definition ELEMENT_STATE_MASK : Z := 3.
Definition DISABLED_STATE_MASK : Z := 2 ^ 31.
Definition NUM_COMBINED_INDEXES : Z := DISABLED_STATE_MASK.

Definition isDisabledFlagSet (encodedIndex : Z) : bool :=
  negb (Z.land encodedIndex DISABLED_STATE_MASK =? 0).
Definition discardDisabledFlag (encodedIndex : Z) : Z :=
  Z.land encodedIndex (u32 (Z.lnot DISABLED_STATE_MASK)).
Definition encodeElement (generation : Z) (state : ElementState) : Z :=
  Z.lor (u32 (Z.shiftl generation GENERATION_COUNT_SHIFT)) (to_underlying state).
Definition decodeGenerationFromElementState (state : Z) : Z := Z.shiftr state GENERATION_COUNT_SHIFT.
Definition decodeStateFromElementState (state : Z) : ElementState :=
  match Z.land state ELEMENT_STATE_MASK with
  | 0 => Empty | 1 => Writing | 2 => Full | _ => Reading
  end.

(** [static_cast<int32_t>] *)
Definition s32 (v : Z) : Z := let w := u32 v in if w <? 2 ^ 31 then w else w - 2 ^ 32.

(** The members of [Queue] and its [QueueManager]; a semaphore is its count. *)
Record shared (T : Type) := mkShared {
  pushIndex : Z;
  popIndex : Z;
  states : list Z;
  data : list (option T);
  waitingPoppers : Z;
  popSemaphore : Z;
  waitingPushers : Z;
  pushSemaphore : Z }.
Arguments mkShared {T}.
Arguments pushIndex {T}.
Arguments popIndex {T}.
Arguments states {T}.
Arguments data {T}.
Arguments waitingPoppers {T}.
Arguments popSemaphore {T}.
Arguments waitingPushers {T}.
Arguments pushSemaphore {T}.

Section Updates.
Context {T : Type}.
Implicit Types s : shared T.
Definition set_pushIndex (v : Z) s :=
  mkShared v (popIndex s) (states s) (data s) (waitingPoppers s) (popSemaphore s) (waitingPushers s) (pushSemaphore s).
Definition set_popIndex (v : Z) s :=
  mkShared (pushIndex s) v (states s) (data s) (waitingPoppers s) (popSemaphore s) (waitingPushers s) (pushSemaphore s).
Definition set_state (i : Z) (v : Z) s :=
  mkShared (pushIndex s) (popIndex s) (<[Z.to_nat i := v]> (states s)) (data s)
    (waitingPoppers s) (popSemaphore s) (waitingPushers s) (pushSemaphore s).
Definition set_data (i : Z) (v : option T) s :=
  mkShared (pushIndex s) (popIndex s) (states s) (<[Z.to_nat i := v]> (data s))
    (waitingPoppers s) (popSemaphore s) (waitingPushers s) (pushSemaphore s).
Definition notify_popper s :=
  mkShared (pushIndex s) (popIndex s) (states s) (data s)
    (waitingPoppers s) (popSemaphore s + 1) (waitingPushers s) (pushSemaphore s).
Definition notify_pusher s :=
  mkShared (pushIndex s) (popIndex s) (states s) (data s)
    (waitingPoppers s) (popSemaphore s) (waitingPushers s) (pushSemaphore s + 1).
Definition state_at (i : Z) s : Z := default 0 (states s !! Z.to_nat i).
Definition data_at (i : Z) s : option T := default None (data s !! Z.to_nat i).

(** What an update leaves alone. *)
Lemma data_at_set_state i j v s : data_at j (set_state i v s) = data_at j s.
Proof. done. Qed.
Lemma data_at_set_push j v s : data_at j (set_pushIndex v s) = data_at j s.
Proof. done. Qed.
Lemma data_at_set_pop j v s : data_at j (set_popIndex v s) = data_at j s.
Proof. done. Qed.
Lemma state_at_set_data i j v s : state_at j (set_data i v s) = state_at j s.
Proof. done. Qed.
Lemma state_at_set_push j v s : state_at j (set_pushIndex v s) = state_at j s.
Proof. done. Qed.
Lemma state_at_set_pop j v s : state_at j (set_popIndex v s) = state_at j s.
Proof. done. Qed.
End Updates.
Create Rewrite HintDb queue_frame.
#[export] Hint Rewrite @data_at_set_state @data_at_set_push @data_at_set_pop
  @state_at_set_data @state_at_set_push @state_at_set_pop : queue_frame.

(** The machine of [tryPushBack] with [reservePushIndex] and [commitPushIndex]
    in it; each constructor is the point before one access. *)
Inductive push_pc (T : Type) :=
| PushLoad (v : T) (saved : Z)
| PushTry (v : T) (loaded saved : Z)
| PushHelp (v : T) (combined saved : Z)
| PushAdvance (v : T) (gen idx combined : Z)
| PushConstruct (v : T) (gen idx : Z)
| PushCommit (gen idx : Z)
| PushNotify
| PushRet (r : QueueReturn).
Arguments PushLoad {T}.
Arguments PushTry {T}.
Arguments PushHelp {T}.
Arguments PushAdvance {T}.
Arguments PushConstruct {T}.
Arguments PushCommit {T}.
Arguments PushNotify {T}.
Arguments PushRet {T}.

(** The machine of [tryPopFront] with [reservePopIndex] and [commitPopIndex]. *)
Inductive pop_pc (T : Type) :=
| PopLoad (saved : Z)
| PopTry (loaded saved : Z)
| PopHelp (loaded saved : Z)
| PopAdvance (gen idx loaded : Z)
| PopTake (gen idx : Z)
| PopCommit (r : option T) (gen idx : Z)
| PopNotify (r : option T)
| PopRet (r : option T).
Arguments PopLoad {T}.
Arguments PopTry {T}.
Arguments PopHelp {T}.
Arguments PopAdvance {T}.
Arguments PopTake {T}.
Arguments PopCommit {T}.
Arguments PopNotify {T}.
Arguments PopRet {T}.

Section Manager.
Context (m_capacity : Z).

Definition numGenerations : Z := u32 (Z.min (NUM_COMBINED_INDEXES / m_capacity) NUM_ELEMENT_GENERATIONS).
Definition m_maxGeneration : Z := u32 (numGenerations - 1).
Definition m_maxCombinedIndex : Z := u32 (u32 (numGenerations * u32 m_capacity) - 1).

Definition nextCombinedIndex (index : Z) : Z :=
  if m_maxCombinedIndex =? index then 0 else u32 (index + 1).
Definition nextGeneration (generation : Z) : Z :=
  if m_maxGeneration =? generation then 0 else u32 (generation + 1).

(** [QueueManager(capacity)] and [Queue(capacity)] *)
Definition new_queue {T} : shared T :=
  mkShared 0 0 (replicate (Z.to_nat m_capacity) 0) (replicate (Z.to_nat m_capacity) None) 0 0 0 0.

(** [difference == 1 || difference == -m_maxGeneration] *)
Definition previous_generation (difference : Z) : bool :=
  (difference =? 1) || (difference =? - s32 m_maxGeneration).

Context {T : Type}.
Implicit Types s : shared T.

Definition push_step (s : shared T) (pc : push_pc T) : shared T * push_pc T :=
  match pc with
  | PushLoad v saved => (s, PushTry v (pushIndex s) saved)
  | PushTry v loaded saved =>
      if isDisabledFlagSet loaded then (s, PushRet QueueDisabled)
      else
        let combined := discardDisabledFlag loaded in
        let currGen := u32 (combined / m_capacity) in
        let currIdx := u32 (combined mod m_capacity) in
        let compare := state_at currIdx s in
        if compare =? encodeElement currGen Empty
        then (set_state currIdx (encodeElement currGen Writing) s, PushAdvance v currGen currIdx combined)
        else
          let elemGen := decodeGenerationFromElementState compare in
          let difference := s32 (currGen - elemGen) in
          if previous_generation difference then
            if bool_decide (decodeStateFromElementState compare = Reading) then (s, PushLoad v saved)
            else if negb (saved =? loaded) then (s, PushLoad v loaded)
            else (s, PushRet QueueFull)
          else (s, PushHelp v combined saved)
  | PushHelp v combined saved =>
      if pushIndex s =? combined
      then (set_pushIndex (nextCombinedIndex combined) s, PushTry v combined saved)
      else (s, PushTry v (pushIndex s) saved)
  | PushAdvance v gen idx combined =>
      (if pushIndex s =? combined then set_pushIndex (nextCombinedIndex combined) s else s,
       PushConstruct v gen idx)
  | PushConstruct v gen idx => (set_data idx (Some v) s, PushCommit gen idx)
  | PushCommit gen idx => (set_state idx (encodeElement gen Full) s, PushNotify)
  | PushNotify => (if 0 <? waitingPoppers s then notify_popper s else s, PushRet Success)
  | PushRet r => (s, PushRet r)
  end.

Definition pop_step (s : shared T) (pc : pop_pc T) : shared T * pop_pc T :=
  match pc with
  | PopLoad saved => (s, PopTry (popIndex s) saved)
  | PopTry loaded saved =>
      let currGen := u32 (loaded / m_capacity) in
      let currIdx := u32 (loaded mod m_capacity) in
      let compare := state_at currIdx s in
      if compare =? encodeElement currGen Full
      then (set_state currIdx (encodeElement currGen Reading) s, PopAdvance currGen currIdx loaded)
      else
        let elemGen := decodeGenerationFromElementState compare in
        let state := decodeStateFromElementState compare in
        let difference := s32 (currGen - elemGen) in
        if previous_generation difference then (s, PopRet None)
        else if (difference =? 0) && bool_decide (state = Empty) then
          if negb (saved =? loaded) then (s, PopLoad loaded) else (s, PopRet None)
        else if negb (difference =? 0) || bool_decide (state = Writing) then (s, PopLoad saved)
        else (s, PopHelp loaded saved)
  | PopHelp loaded saved =>
      if popIndex s =? loaded
      then (set_popIndex (nextCombinedIndex loaded) s, PopTry loaded saved)
      else (s, PopTry (popIndex s) saved)
  | PopAdvance gen idx loaded =>
      (if popIndex s =? loaded then set_popIndex (nextCombinedIndex loaded) s else s, PopTake gen idx)
  | PopTake gen idx => (set_data idx None s, PopCommit (data_at idx s) gen idx)
  | PopCommit r gen idx => (set_state idx (encodeElement (nextGeneration gen) Empty) s, PopNotify r)
  | PopNotify r => (if 0 <? waitingPushers s then notify_pusher s else s, PopRet r)
  | PopRet r => (s, PopRet r)
  end.

(** ** Running one operation alone *)

Fixpoint run_push (fuel : nat) (s : shared T) (pc : push_pc T) : outcome (QueueReturn * shared T) :=
  match pc, fuel with
  | PushRet r, _ => Done (r, s)
  | _, O => Timeout
  | _, S fuel => let '(s, pc) := push_step s pc in run_push fuel s pc
  end.

Fixpoint run_pop (fuel : nat) (s : shared T) (pc : pop_pc T) : outcome (option T * shared T) :=
  match pc, fuel with
  | PopRet r, _ => Done (r, s)
  | _, O => Timeout
  | _, S fuel => let '(s, pc) := pop_step s pc in run_pop fuel s pc
  end.

(** The body of the loop of [removeAll]: reserve, destroy and commit; [false] when
    nothing could be reserved. *)
Fixpoint run_remove (fuel : nat) (s : shared T) (pc : pop_pc T) : outcome (bool * shared T) :=
  match pc, fuel with
  | PopNotify _, _ => Done (true, s)
  | PopRet _, _ => Done (false, s)
  | _, O => Timeout
  | _, S fuel => let '(s, pc) := pop_step s pc in run_remove fuel s pc
  end.

(** [savedPushIndex = -1] *)
Definition no_index : Z := u32 (-1).

Definition tryPushBack (v : T) (s : shared T) : outcome (QueueReturn * shared T) :=
  run_push 8 s (PushLoad v no_index).
Definition tryPopFront (s : shared T) : outcome (option T * shared T) :=
  run_pop 8 s (PopLoad no_index).

(** [disable] and [enable] of the manager: alone, the first exchange succeeds. *)
Definition manager_disable (s : shared T) : shared T :=
  if isDisabledFlagSet (pushIndex s) then s
  else set_pushIndex (Z.lor (pushIndex s) DISABLED_STATE_MASK) s.
Definition manager_enable (s : shared T) : shared T :=
  if negb (isDisabledFlagSet (pushIndex s)) then s
  else set_pushIndex (Z.land (pushIndex s) (u32 (Z.lnot DISABLED_STATE_MASK))) s.

Definition enabled (s : shared T) : bool := negb (isDisabledFlagSet (pushIndex s)).

Definition size (s : shared T) : Z :=
  let combinedPushIndex := discardDisabledFlag (pushIndex s) in
  let combinedPopIndex := popIndex s in
  let difference := s32 (combinedPushIndex - combinedPopIndex) in
  if 0 <=? difference then
    if s32 m_capacity <? difference then 0 else difference
  else if difference <? - s32 (m_maxCombinedIndex / 2) then
    let difference := s32 (u32 (difference + u32 (m_maxCombinedIndex + 1))) in
    Z.min (wrap 64 difference) m_capacity
  else 0.

(** The loop of [removeAll] with [count] elements to go; the result counts the
    evaluations of [poppedItems++]. *)
Fixpoint remove_loop (count : nat) (popped : Z) (s : shared T) : outcome (Z * shared T) :=
  match count with
  | O => Done (popped + 1, s)
  | S count =>
      let! (ok, s) := run_remove 8 s (PopLoad no_index) in
      if ok then remove_loop count (popped + 1) s else Done (popped + 1, s)
  end.

Definition removeAll (s : shared T) : outcome (shared T) :=
  let! (poppedItems, s) := remove_loop (Z.to_nat (size s)) 0 s in
  let wakeups := Z.min (u32 poppedItems) (waitingPushers s) in
  Done (mkShared (pushIndex s) (popIndex s) (states s) (data s) (waitingPoppers s) (popSemaphore s)
    (waitingPushers s) (pushSemaphore s + wakeups)).

(** [Queue::disable]: one notification per waiting pusher *)
Definition disable (s : shared T) : shared T :=
  let s := manager_disable s in
  mkShared (pushIndex s) (popIndex s) (states s) (data s) (waitingPoppers s) (popSemaphore s)
    (waitingPushers s) (pushSemaphore s + waitingPushers s).
Definition enable (s : shared T) : shared T := manager_enable s.
Definition full (s : shared T) : bool := m_capacity <=? size s.
Definition empty (s : shared T) : bool := size s <=? 0.
End Manager.

(** ** Words and indexes *)

Lemma encodeElement_value g st : 0 <= g < 2 ^ 30 -> encodeElement g st = 4 * g + to_underlying st.
Proof.
  intros Hg. unfold encodeElement, GENERATION_COUNT_SHIFT. rewrite Z.shiftl_mul_pow2 by lia.
  change (2 ^ 2) with 4. rewrite wrap_small by (unfold in_width; lia).
  assert (0 <= to_underlying st < 4) by (destruct st; cbn; lia).
  rewrite Z.lor_comm. rewrite (Z.add_comm (4 * g)).
  apply Z.bits_inj'. intros i Hi. rewrite Z.lor_spec.
  replace (g * 4) with (Z.shiftl g 2) by (by rewrite Z.shiftl_mul_pow2 by lia).
  replace (4 * g) with (Z.shiftl g 2) by (rewrite Z.shiftl_mul_pow2 by lia; lia).
  rewrite (Z.add_nocarry_lxor (to_underlying st) (Z.shiftl g 2)).
  - rewrite Z.lxor_spec. destruct (Z.ltb_spec i 2).
    + by rewrite Z.shiftl_spec_low, orb_false_r, xorb_false_r by lia.
    + assert (Z.testbit (to_underlying st) i = false) as ->; [|by rewrite xorb_false_l].
      rewrite <- (Z.mod_small (to_underlying st) (2 ^ 2)) by lia. by apply Z.mod_pow2_bits_high.
  - apply Z.bits_inj'. intros j Hj. rewrite Z.land_spec, Z.bits_0. destruct (Z.ltb_spec j 2).
    + by rewrite Z.shiftl_spec_low, andb_false_r by lia.
    + rewrite <- (Z.mod_small (to_underlying st) (2 ^ 2)) by lia. by rewrite Z.mod_pow2_bits_high.
Qed.

Lemma decode_encode g st : 0 <= g < 2 ^ 30 ->
  decodeGenerationFromElementState (encodeElement g st) = g
  /\ decodeStateFromElementState (encodeElement g st) = st.
Proof.
  intros Hg. rewrite encodeElement_value by done.
  assert (0 <= to_underlying st < 4) by (destruct st; cbn; lia).
  unfold decodeGenerationFromElementState, decodeStateFromElementState, GENERATION_COUNT_SHIFT, ELEMENT_STATE_MASK.
  rewrite Z.shiftr_div_pow2 by lia. change (2 ^ 2) with 4. change 3 with (Z.ones 2).
  rewrite Z.land_ones by lia. change (2 ^ 2) with 4.
  rewrite (Z.mul_comm 4), Z.div_add_l, Z.div_small, Z.add_0_r by lia.
  rewrite Z.add_comm, Z.mod_add, Z.mod_small by lia. by destruct st.
Qed.

Lemma encode_inj g g' st st' : 0 <= g < 2 ^ 30 -> 0 <= g' < 2 ^ 30 ->
  encodeElement g st = encodeElement g' st' -> g = g' /\ st = st'.
Proof.
  intros Hg Hg' E. destruct (decode_encode g st Hg) as [E1 E2], (decode_encode g' st' Hg') as [E3 E4].
  rewrite E in E1, E2. split; congruence.
Qed.

Lemma encode_eqb g st g' st' : 0 <= g < 2 ^ 30 -> 0 <= g' < 2 ^ 30 ->
  (encodeElement g st =? encodeElement g' st') = (g =? g') && bool_decide (st = st').
Proof.
  intros Hg Hg'. destruct (Z.eqb_spec (encodeElement g st) (encodeElement g' st')) as [E|E].
  - apply encode_inj in E as [-> ->]; [|done..]. by rewrite Z.eqb_refl, bool_decide_true.
  - destruct (Z.eqb_spec g g') as [->|]; [|done]. rewrite bool_decide_false; [done|]. congruence.
Qed.

Lemma disabled_flag x (en : bool) : 0 <= x < 2 ^ 31 ->
  isDisabledFlagSet (x + if en then 0 else 2 ^ 31) = negb en
  /\ discardDisabledFlag (x + if en then 0 else 2 ^ 31) = x.
Proof.
  intros Hx. unfold isDisabledFlagSet, discardDisabledFlag, DISABLED_STATE_MASK.
  change (u32 (Z.lnot (2 ^ 31))) with (Z.ones 31). rewrite Z.land_ones by lia.
  assert ((x + if en then 0 else 2 ^ 31) mod 2 ^ 31 = x) as ->.
  { destruct en; [rewrite Z.add_0_r|rewrite <- (Z.mul_1_l (2 ^ 31)) at 1; rewrite Z.mod_add by lia]; by apply Z.mod_small. }
  split; [|done]. f_equal. apply eq_true_iff_eq. rewrite Z.eqb_eq.
  assert (Z.land (x + if en then 0 else 2 ^ 31) (2 ^ 31) = if en then 0 else 2 ^ 31) as ->; [|destruct en; done].
  apply Z.bits_inj'. intros i Hi. rewrite Z.land_spec, Z.pow2_bits_eqb by lia.
  destruct (Z.eqb_spec 31 i) as [<-|Hn].
  - rewrite andb_true_r. destruct en; [rewrite Z.add_0_r, Z.bits_0|].
    + rewrite <- (Z.mod_small x (2 ^ 31)) by lia. by apply Z.mod_pow2_bits_high.
    + rewrite Z.testbit_true by lia.
      replace ((x + 2 ^ 31) / 2 ^ 31) with 1; [done|]. symmetry.
      rewrite <- (Z.mul_1_l (2 ^ 31)) at 1. rewrite Z.div_add, Z.div_small by lia. done.
  - rewrite andb_false_r. destruct en; [by rewrite Z.bits_0|]. rewrite Z.pow2_bits_eqb by lia.
    by rewrite (proj2 (Z.eqb_neq 31 i)).
Qed.

Lemma lor_disabled x : 0 <= x < 2 ^ 31 -> Z.lor x DISABLED_STATE_MASK = x + 2 ^ 31.
Proof.
  intros Hx. unfold DISABLED_STATE_MASK. assert (Z.land x (2 ^ 31) = 0) as Hz.
  { apply Z.bits_inj'. intros i Hi. rewrite Z.land_spec, Z.bits_0, Z.pow2_bits_eqb by lia.
    destruct (Z.eqb_spec 31 i) as [<-|]; [|by rewrite andb_false_r].
    rewrite <- (Z.mod_small x (2 ^ 31)) by lia. by rewrite Z.mod_pow2_bits_high. }
  symmetry. rewrite Z.add_nocarry_lxor by done. by apply Z.lxor_lor.
Qed.

(** Disabling and enabling change the flag and nothing else of the push index. *)
Lemma disable_pushIndex {T} (s : shared T) x (en : bool) : 0 <= x < 2 ^ 31 ->
  pushIndex s = x + (if en then 0 else 2 ^ 31) ->
  pushIndex (disable s) = x + 2 ^ 31 /\ pushIndex (enable s) = x.
Proof.
  intros Hx E. unfold disable, enable, manager_disable, manager_enable. rewrite E.
  destruct (disabled_flag x en Hx) as [-> Ed]. unfold discardDisabledFlag in Ed.
  destruct en; cbn [negb pushIndex set_pushIndex].
  - rewrite E, Z.add_0_r, lor_disabled by done. lia.
  - by rewrite Ed, E.
Qed.

Lemma wrap_eq32 v : - 2 ^ 32 <= v < 0 -> u32 v = v + 2 ^ 32.
Proof.
  intros Hv. unfold wrap. rewrite <- (Z.mod_small (v + 2 ^ 32) (2 ^ 32)) by lia.
  replace (v + 2 ^ 32) with (v + 1 * 2 ^ 32) by lia. by rewrite Z.mod_add by lia.
Qed.

Lemma s32_small v : - 2 ^ 31 <= v < 2 ^ 31 -> s32 v = v.
Proof.
  intros Hv. unfold s32. destruct (Z_lt_le_dec v 0).
  - rewrite (wrap_eq32 v) by lia. destruct (Z.ltb_spec (v + 2 ^ 32) (2 ^ 31)); lia.
  - rewrite wrap_small by (unfold in_width; lia). by rewrite (proj2 (Z.ltb_lt v (2 ^ 31))) by lia.
Qed.

Section Sequential.
Context (cap : Z) (Hcap : 0 < cap <= 2 ^ 30).
Let G := numGenerations cap.
Let N := G * cap.

Lemma generations : 2 <= G <= 2 ^ 30 /\ 2 * cap <= N <= 2 ^ 31.
Proof.
  unfold N, G, numGenerations, NUM_COMBINED_INDEXES, DISABLED_STATE_MASK, NUM_ELEMENT_GENERATIONS.
  assert (2 <= 2 ^ 31 / cap) by (apply Z.div_le_lower_bound; lia).
  pose proof (Z.mul_div_le (2 ^ 31) cap ltac:(lia)).
  rewrite wrap_small by (unfold in_width; lia).
  destruct (Z.min_spec (2 ^ 31 / cap) (2 ^ 30)) as [[? ->]|[? ->]]; nia.
Qed.

Lemma max_generation : m_maxGeneration cap = G - 1.
Proof. pose proof generations. unfold m_maxGeneration. fold G. apply wrap_small. unfold in_width. lia. Qed.

Lemma max_combined : m_maxCombinedIndex cap = N - 1.
Proof.
  pose proof generations. unfold m_maxCombinedIndex. fold G. rewrite (wrap_small 32 cap) by (unfold in_width; lia).
  fold N. rewrite (wrap_small 32 N) by (unfold in_width; lia). apply wrap_small. unfold in_width. lia.
Qed.

(** Combined index of the absolute position [c]. *)
Lemma combined_split c : 0 <= c -> (c mod N) / cap = (c / cap) mod G /\ (c mod N) mod cap = c mod cap.
Proof.
  intros Hc. pose proof generations. unfold N. rewrite (Z.mul_comm G), Z.rem_mul_r by lia.
  pose proof (Z.mod_pos_bound c cap ltac:(lia)). rewrite (Z.mul_comm cap). split.
  - rewrite Z.div_add, Z.div_small by lia. lia.
  - by rewrite Z.mod_add, Z.mod_small by lia.
Qed.

Lemma combined_range c : 0 <= c mod N < 2 ^ 31.
Proof. pose proof generations. pose proof (Z.mod_pos_bound c N ltac:(lia)). lia. Qed.

Lemma generation_range c : 0 <= (c / cap) mod G < 2 ^ 30.
Proof. pose proof generations. pose proof (Z.mod_pos_bound (c / cap) G ltac:(lia)). lia. Qed.

Lemma succ_mod c m : 0 < m -> (if m - 1 =? c mod m then 0 else c mod m + 1) = (c + 1) mod m.
Proof.
  intros Hm. pose proof (Z.mod_pos_bound c m Hm). pose proof (Z.div_mod c m ltac:(lia)) as E.
  destruct (Z.eqb_spec (m - 1) (c mod m)) as [E'|].
  - replace (c + 1) with (0 + (c / m + 1) * m) by lia. by rewrite Z.mod_add by lia.
  - replace (c + 1) with ((c mod m + 1) + (c / m) * m) by lia. rewrite Z.mod_add by lia.
    symmetry. apply Z.mod_small. lia.
Qed.

Lemma next_combined c : nextCombinedIndex cap (c mod N) = (c + 1) mod N.
Proof.
  pose proof generations. pose proof (combined_range c). unfold nextCombinedIndex.
  rewrite max_combined, wrap_small by (unfold in_width; lia). apply succ_mod. lia.
Qed.

Lemma next_generation c : nextGeneration cap ((c / cap) mod G) = ((c + cap) / cap) mod G.
Proof.
  pose proof generations. pose proof (generation_range c). unfold nextGeneration.
  rewrite max_generation, wrap_small by (unfold in_width; lia). rewrite succ_mod by lia.
  replace (c + cap) with (c + 1 * cap) by lia. by rewrite Z.div_add by lia.
Qed.

Lemma window_inj p k k' : 0 <= k < cap -> 0 <= k' < cap -> (p + k) mod cap = (p + k') mod cap -> k = k'.
Proof.
  intros Hk Hk' E. pose proof (Z.div_mod (p + k) cap ltac:(lia)). pose proof (Z.div_mod (p + k') cap ltac:(lia)).
  set (a := (p + k) / cap) in *. set (b := (p + k') / cap) in *.
  assert (k - k' = cap * (a - b)) by lia. assert (a - b = 0) by nia. lia.
Qed.

(** The generation before: seen from position [c + cap], the cell of [c]. *)
Lemma previous_gen c : 0 <= c ->
  previous_generation cap (s32 (((c + cap) / cap) mod G - (c / cap) mod G)) = true.
Proof.
  intros Hc. pose proof generations. pose proof (generation_range c). unfold previous_generation.
  rewrite max_generation, !s32_small by (pose proof (generation_range (c + cap)); lia).
  rewrite <- next_generation. unfold nextGeneration. rewrite max_generation, wrap_small by (unfold in_width; lia).
  destruct (Z.eqb_spec (G - 1) ((c / cap) mod G)) as [<-|]; rewrite orb_true_iff, !Z.eqb_eq; lia.
Qed.

Lemma same_gen_not_previous g : previous_generation cap (s32 (g - g)) = false.
Proof.
  pose proof generations. unfold previous_generation. rewrite Z.sub_diag, max_generation, !s32_small by lia.
  destruct (Z.eqb_spec 0 (- (G - 1))); [lia|done].
Qed.

Context {T : Type}.
Implicit Types (s : shared T) (l : list T).

(** [s] holds the values [l] in order: the cells of the positions [p .. p + cap)
    are full up to the length of [l] and empty, for their generation, after. *)
Definition rep (p : Z) (s : shared T) (en : bool) (l : list T) : Prop :=
  0 <= p /\ Z.of_nat (length l) <= cap
  /\ length (states s) = Z.to_nat cap /\ length (data s) = Z.to_nat cap
  /\ pushIndex s = (p + Z.of_nat (length l)) mod N + (if en then 0 else 2 ^ 31)
  /\ popIndex s = p mod N
  /\ forall k, 0 <= k < cap ->
       state_at ((p + k) mod cap) s
       = encodeElement (((p + k) / cap) mod G) (if k <? Z.of_nat (length l) then Full else Empty)
       /\ data_at ((p + k) mod cap) s = l !! Z.to_nat k.

Lemma state_at_set i j v s : length (states s) = Z.to_nat cap -> 0 <= i < cap -> 0 <= j < cap ->
  state_at j (set_state i v s) = if i =? j then v else state_at j s.
Proof.
  intros Hl Hi Hj. unfold state_at, set_state. cbn [states]. destruct (Z.eqb_spec i j) as [->|Hn].
  - by rewrite list_lookup_insert_eq by lia.
  - by rewrite list_lookup_insert_ne by lia.
Qed.

Lemma data_at_set i j v s : length (data s) = Z.to_nat cap -> 0 <= i < cap -> 0 <= j < cap ->
  data_at j (set_data i v s) = if i =? j then v else data_at j s.
Proof.
  intros Hl Hi Hj. unfold data_at, set_data. cbn [data]. destruct (Z.eqb_spec i j) as [->|Hn].
  - by rewrite list_lookup_insert_eq by lia.
  - by rewrite list_lookup_insert_ne by lia.
Qed.

Lemma cell_range c : 0 <= c mod cap < cap.
Proof. apply Z.mod_pos_bound. lia. Qed.

(** What an attempt sees at the absolute position [c]. *)
Lemma try_at c : 0 <= c ->
  u32 (c mod N / cap) = (c / cap) mod G /\ u32 ((c mod N) mod cap) = c mod cap.
Proof.
  intros Hc. destruct (combined_split c Hc) as [-> ->]. pose proof (generation_range c).
  pose proof (cell_range c). split; apply wrap_small; unfold in_width; lia.
Qed.

(** Pushing at position [q = p + length l]. *)
Lemma push_rep p s en l v : rep p s en l -> Z.of_nat (length l) < cap ->
  let q := p + Z.of_nat (length l) in
  rep p (set_state (q mod cap) (encodeElement ((q / cap) mod G) Full)
          (set_data (q mod cap) (Some v)
            (set_pushIndex ((q + 1) mod N + (if en then 0 else 2 ^ 31))
              (set_state (q mod cap) (encodeElement ((q / cap) mod G) Writing) s)))) en (l ++ [v]).
Proof.
  intros (Hp&Hl&Hs&Hd&Epu&Epo&Hk) Hlt q. pose proof (cell_range q) as Hq. unfold rep.
  rewrite length_app. cbn [length].
  split_and!; [done|lia|cbn; by rewrite !length_insert|cbn; by rewrite length_insert|..].
  - cbn [pushIndex set_state set_data set_pushIndex]. unfold q. do 2 f_equal. lia.
  - done.
  - intros k Hkr. pose proof (cell_range (p + k)) as Hc. destruct (Hk k Hkr) as [Es Ed].
    rewrite state_at_set by (cbn; rewrite ?length_insert; lia).
    autorewrite with queue_frame. rewrite data_at_set by (cbn; lia). autorewrite with queue_frame.
    destruct (Z.eqb_spec (q mod cap) ((p + k) mod cap)) as [E|Hn].
    + apply window_inj in E; [|lia..]. subst k. rewrite (proj2 (Z.ltb_lt _ _)) by lia. split; [done|].
      rewrite Nat2Z.id, lookup_app_r, Nat.sub_diag by lia. done.
    + assert (k <> Z.of_nat (length l)) by (intros ->; by apply Hn).
      rewrite state_at_set by (done || lia).
      rewrite (proj2 (Z.eqb_neq (q mod cap) ((p + k) mod cap))) by done. rewrite Es.
      split; [destruct (Z.ltb_spec k (Z.of_nat (length l))), (Z.ltb_spec k (Z.of_nat (length l + 1))); done || lia|].
      etransitivity; [exact Ed|]. destruct (Z.ltb_spec k (Z.of_nat (length l))).
      * by rewrite lookup_app_l by lia.
      * rewrite !lookup_ge_None_2; [done|rewrite length_app; cbn; lia|lia].
Qed.

(** Popping at position [p]. *)
Lemma pop_rep p s en x l : rep p s en (x :: l) ->
  rep (p + 1)
    (set_state (p mod cap) (encodeElement (((p + cap) / cap) mod G) Empty)
      (set_data (p mod cap) None
        (set_popIndex ((p + 1) mod N)
          (set_state (p mod cap) (encodeElement ((p / cap) mod G) Reading) s)))) en l.
Proof.
  intros (Hp&Hl&Hs&Hd&Epu&Epo&Hk). pose proof (cell_range p) as Hq. cbn [length] in *. unfold rep.
  split_and!; [lia|lia|cbn; by rewrite !length_insert|cbn; by rewrite length_insert|..].
  - cbn [pushIndex set_state set_data set_popIndex]. rewrite Epu. do 2 f_equal. lia.
  - done.
  - intros k Hkr. pose proof (cell_range (p + 1 + k)) as Hc.
    rewrite state_at_set by (cbn; rewrite ?length_insert; lia).
    autorewrite with queue_frame. rewrite data_at_set by (cbn; lia). autorewrite with queue_frame.
    destruct (Z.eq_dec k (cap - 1)) as [->|Hn].
    + replace (p + 1 + (cap - 1)) with (p + cap) by lia.
      assert ((p + cap) mod cap = p mod cap) as -> by (replace (p + cap) with (p + 1 * cap) by lia; apply Z.mod_add; lia).
      rewrite Z.eqb_refl, (proj2 (Z.ltb_ge (cap - 1) _)) by lia. split; [done|].
      symmetry. apply lookup_ge_None_2. lia.
    + destruct (Hk (1 + k) ltac:(lia)) as [Es Ed]. replace (p + (1 + k)) with (p + 1 + k) in * by lia.
      destruct (Z.eqb_spec (p mod cap) ((p + 1 + k) mod cap)) as [E|_].
      { exfalso. rewrite <- (Z.add_0_r p) in E at 1. rewrite <- Z.add_assoc in E.
        apply window_inj in E; lia. }
      rewrite state_at_set by (done || lia).
      destruct (Z.eqb_spec (p mod cap) ((p + 1 + k) mod cap)) as [E|_].
      { exfalso. rewrite <- (Z.add_0_r p) in E at 1. rewrite <- Z.add_assoc in E.
        apply window_inj in E; lia. }
      rewrite Es, Ed. replace (Z.to_nat (1 + k)) with (S (Z.to_nat k)) by lia.
      split; [|done]. f_equal.
      destruct (Z.ltb_spec (1 + k) (Z.of_nat (S (length l)))), (Z.ltb_spec k (Z.of_nat (length l))); done || lia.
Qed.

(** The state after the front is removed: the position moves if there was one. *)
Definition rep_tail (p : Z) (s : shared T) (en : bool) (l : list T) : Prop :=
  match l with [] => rep p s en [] | _ :: l => rep (p + 1) s en l end.

Lemma no_index_value : no_index = 2 ^ 32 - 1.
Proof. done. Qed.

Lemma rep_notify_popper p s en l : rep p s en l -> rep p (notify_popper s) en l.
Proof. done. Qed.
Lemma rep_notify_pusher p s en l : rep p s en l -> rep p (notify_pusher s) en l.
Proof. done. Qed.

Lemma run_push_next f s pc s' pc' : push_step cap s pc = (s', pc') ->
  run_push cap (S f) s pc = run_push cap f s' pc'.
Proof. 
  intros E. destruct pc; cbn [run_push]; try (by rewrite E).
  cbn [push_step] in E. injection E as <- <-. by destruct f.
Qed.

Lemma run_pop_next f s pc s' pc' : pop_step cap s pc = (s', pc') ->
  run_pop cap (S f) s pc = run_pop cap f s' pc'.
Proof. 
  intros E. destruct pc; cbn [run_pop]; try (by rewrite E).
  cbn [pop_step] in E. injection E as <- <-. by destruct f.
Qed.

(** One attempt to reserve, by the length of the queue. *)
Lemma push_try_room p s l v saved : rep p s true l -> Z.of_nat (length l) < cap ->
  let q := p + Z.of_nat (length l) in
  push_step cap s (PushTry v (q mod N) saved)
  = (set_state (q mod cap) (encodeElement ((q / cap) mod G) Writing) s,
     PushAdvance v ((q / cap) mod G) (q mod cap) (q mod N)).
Proof.
  intros (Hp&Hl&Hs&Hd&Epu&Epo&Hk) Hlt q. cbn [push_step].
  destruct (disabled_flag (q mod N) true (combined_range q)) as [Ef Ed]. rewrite Z.add_0_r in Ef, Ed.
  rewrite Ef, Ed. destruct (try_at q ltac:(lia)) as [-> ->].
  destruct (Hk (Z.of_nat (length l)) ltac:(lia)) as [Es _]. fold q in Es.
  rewrite Z.ltb_irrefl in Es. by rewrite Es, Z.eqb_refl.
Qed.

Lemma push_try_full p s l v saved : rep p s true l -> Z.of_nat (length l) = cap ->
  push_step cap s (PushTry v ((p + cap) mod N) saved)
  = (s, if negb (saved =? (p + cap) mod N) then PushLoad v ((p + cap) mod N) else PushRet QueueFull).
Proof.
  intros (Hp&Hl&Hs&Hd&Epu&Epo&Hk) Hlen. cbn [push_step].
  destruct (disabled_flag ((p + cap) mod N) true (combined_range (p + cap))) as [Ef Ed].
  rewrite Z.add_0_r in Ef, Ed. rewrite Ef, Ed. destruct (try_at (p + cap) ltac:(lia)) as [-> ->].
  destruct (Hk 0 ltac:(lia)) as [Es _]. rewrite Z.add_0_r, (proj2 (Z.ltb_lt 0 _)) in Es by lia.
  assert ((p + cap) mod cap = p mod cap) as -> by (replace (p + cap) with (p + 1 * cap) by lia; apply Z.mod_add; lia).
  pose proof (generation_range p). pose proof (generation_range (p + cap)).
  rewrite Es, encode_eqb by done. rewrite bool_decide_false, andb_false_r by done.
  destruct (decode_encode ((p / cap) mod G) Full ltac:(done)) as [-> ->].
  rewrite previous_gen, bool_decide_false by (done || lia). by destruct (saved =? (p + cap) mod N).
Qed.

(** [tryPushBack] run alone. *)
Lemma tryPushBack_spec p s en l v : rep p s en l ->
  exists r s', tryPushBack cap v s = Done (r, s') /\
  if negb en then r = QueueDisabled /\ s' = s
  else if Z.of_nat (length l) <? cap then r = Success /\ rep p s' true (l ++ [v])
  else r = QueueFull /\ s' = s.
Proof.
  intros Hr. pose proof Hr as (Hp&Hl&Hs&Hd&Epu&Epo&Hk). set (q := p + Z.of_nat (length l)) in *.
  destruct (disabled_flag (q mod N) en (combined_range q)) as [Ef Ed].
  unfold tryPushBack. erewrite run_push_next by reflexivity. rewrite Epu.
  destruct en; cbn [negb].
  2: { erewrite run_push_next; [|cbn [push_step]; rewrite Ef; reflexivity]. by eexists _, _. }
  rewrite Z.add_0_r in *. destruct (Z.ltb_spec (Z.of_nat (length l)) cap) as [Hlt|Hge].
  - rewrite (run_push_next _ _ _ _ _ (push_try_room p s l v _ Hr Hlt)). fold q.
    erewrite run_push_next; [|cbn [push_step pushIndex set_state]; rewrite Epu, Z.eqb_refl, next_combined; reflexivity].
    do 3 erewrite run_push_next by reflexivity.
    pose proof (push_rep p s true l v Hr Hlt) as Hpush. cbv zeta in Hpush. fold q in Hpush.
    rewrite Z.add_0_r in Hpush. cbn [run_push].
    eexists _, _. split; [reflexivity|]. split; [done|]. destruct (0 <? _); exact Hpush.
  - assert (q = p + cap) as -> by lia. pose proof (combined_range (p + cap)).
    rewrite (run_push_next _ _ _ _ _ (push_try_full p s l v _ Hr ltac:(lia))).
    rewrite no_index_value, (proj2 (Z.eqb_neq _ ((p + cap) mod N))) by lia. cbn [negb].
    erewrite run_push_next by reflexivity. rewrite Epu.
    rewrite (run_push_next _ _ _ _ _ (push_try_full p s l v _ Hr ltac:(lia))), Z.eqb_refl. cbn [negb run_push].
    by eexists _, _.
Qed.

Lemma pop_try_some p s en x l saved : rep p s en (x :: l) ->
  pop_step cap s (PopTry (p mod N) saved)
  = (set_state (p mod cap) (encodeElement ((p / cap) mod G) Reading) s,
     PopAdvance ((p / cap) mod G) (p mod cap) (p mod N)).
Proof.
  intros (Hp&Hl&Hs&Hd&Epu&Epo&Hk). cbn [pop_step]. destruct (try_at p Hp) as [-> ->].
  destruct (Hk 0 ltac:(lia)) as [Es _]. rewrite Z.add_0_r, (proj2 (Z.ltb_lt 0 _)) in Es by (cbn [length]; lia).
  by rewrite Es, Z.eqb_refl.
Qed.

Lemma pop_try_empty p s en saved : rep p s en [] ->
  pop_step cap s (PopTry (p mod N) saved)
  = (s, if negb (saved =? p mod N) then PopLoad (p mod N) else PopRet None).
Proof.
  intros (Hp&Hl&Hs&Hd&Epu&Epo&Hk). cbn [pop_step]. destruct (try_at p Hp) as [-> ->].
  destruct (Hk 0 ltac:(lia)) as [Es _]. rewrite Z.add_0_r in Es. cbn [length Z.of_nat] in Es.
  rewrite Z.ltb_irrefl in Es. pose proof (generation_range p).
  rewrite Es, encode_eqb by done. rewrite bool_decide_false, andb_false_r by done.
  destruct (decode_encode ((p / cap) mod G) Empty ltac:(done)) as [-> ->].
  rewrite same_gen_not_previous, Z.sub_diag, s32_small, Z.eqb_refl, bool_decide_true by (done || lia).
  cbn [andb]. by destruct (saved =? p mod N).
Qed.

Lemma data_front p s en x l : rep p s en (x :: l) -> data_at (p mod cap) s = Some x.
Proof.
  intros (Hp&Hl&Hs&Hd&Epu&Epo&Hk). destruct (Hk 0 ltac:(lia)) as [_ Ed]. by rewrite Z.add_0_r in Ed.
Qed.

(** [tryPopFront] run alone. *)
Lemma tryPopFront_spec p s en l : rep p s en l ->
  exists s', tryPopFront cap s = Done (head l, s') /\ rep_tail p s' en l.
Proof.
  intros Hr. pose proof Hr as (Hp&_&_&_&_&Epo&_). unfold tryPopFront.
  erewrite run_pop_next by reflexivity. rewrite Epo. destruct l as [|x l]; cbn [rep_tail head].
  - pose proof (combined_range p). rewrite (run_pop_next _ _ _ _ _ (pop_try_empty p s en _ Hr)).
    rewrite no_index_value, (proj2 (Z.eqb_neq _ (p mod N))) by lia. cbn [negb].
    erewrite run_pop_next by reflexivity. rewrite Epo.
    rewrite (run_pop_next _ _ _ _ _ (pop_try_empty p s en _ Hr)), Z.eqb_refl. cbn [negb run_pop].
    by eexists.
  - rewrite (run_pop_next _ _ _ _ _ (pop_try_some p s en x l _ Hr)).
    erewrite run_pop_next; [|cbn [pop_step popIndex set_state]; rewrite Epo, Z.eqb_refl, next_combined; reflexivity].
    erewrite run_pop_next by reflexivity. autorewrite with queue_frame. rewrite (data_front p s en x l Hr).
    erewrite run_pop_next by (cbn [pop_step]; rewrite next_generation; reflexivity).
    erewrite run_pop_next by reflexivity. cbn [run_pop].
    eexists. split; [reflexivity|]. pose proof (pop_rep p s en x l Hr) as Hp'.
    destruct (0 <? _); exact Hp'.
Qed.

Lemma size_spec p s en l : rep p s en l -> size cap s = Z.of_nat (length l).
Proof.
  intros (Hp&Hl&Hs&Hd&Epu&Epo&_). unfold size. rewrite Epu, Epo. pose proof generations.
  destruct (disabled_flag ((p + Z.of_nat (length l)) mod N) en (combined_range _)) as [_ ->].
  set (n := Z.of_nat (length l)) in *. pose proof (combined_range p). pose proof (combined_range (p + n)).
  pose proof (Z.mod_pos_bound p N ltac:(lia)) as Hpm. pose proof (Z.div_mod p N ltac:(lia)) as Ep.
  rewrite max_combined, !s32_small by (try split; try apply Z.div_le_lower_bound; try apply Z.div_lt_upper_bound; lia).
  destruct (Z_lt_le_dec (p mod N + n) N) as [Hlt|Hge].
  - assert ((p + n) mod N = p mod N + n) as ->.
    { replace (p + n) with ((p mod N + n) + (p / N) * N) by lia. rewrite Z.mod_add, Z.mod_small; lia. }
    replace (p mod N + n - p mod N) with n by lia.
    rewrite (proj2 (Z.leb_le 0 n)), (proj2 (Z.ltb_ge cap n)) by lia. done.
  - assert ((p + n) mod N = p mod N + n - N) as ->.
    { replace (p + n) with ((p mod N + n - N) + (p / N + 1) * N) by lia. rewrite Z.mod_add, Z.mod_small; lia. }
    replace (p mod N + n - N - p mod N) with (n - N) by lia.
    assert (2 * ((N - 1) / 2) <= N - 1) by (apply Z.mul_div_le; lia).
    rewrite (proj2 (Z.leb_gt 0 (n - N))), (proj2 (Z.ltb_lt (n - N) _)) by lia.
    replace (N - 1 + 1) with N by lia. rewrite (wrap_small 32 N) by (unfold in_width; lia).
    replace (n - N + N) with n by lia. rewrite (wrap_small 32 n) by (unfold in_width; lia).
    rewrite (s32_small n), wrap_small by (unfold in_width; lia). lia.
Qed.

Lemma new_queue_rep : rep 0 (new_queue cap) true [].
Proof.
  pose proof generations. unfold rep, new_queue. cbn [length pushIndex popIndex states data Z.of_nat].
  rewrite !length_replicate. split_and!; try done; try lia.
  intros k Hk. unfold state_at, data_at. cbn [states data].
  rewrite Z.add_0_l, Z.mod_small, (Z.div_small k), Zmod_0_l by lia.
  rewrite !lookup_replicate_2 by lia. by rewrite (proj2 (Z.ltb_ge k (Z.of_nat 0))) by lia.
Qed.

Lemma rep_flag p s en l v : rep p s en l ->
  v = (p + Z.of_nat (length l)) mod N -> forall en' : bool,
  rep p (set_pushIndex (v + if en' then 0 else 2 ^ 31) s) en' l.
Proof. intros (Hp&Hl&Hs&Hd&Epu&Epo&Hk) -> en'. by split_and!. Qed.

Lemma disable_rep p s en l : rep p s en l -> rep p (disable s) false l.
Proof.
  intros Hr. pose proof Hr as (Hp&_&_&_&Epu&_&_). unfold disable, manager_disable. rewrite Epu.
  destruct (disabled_flag ((p + Z.of_nat (length l)) mod N) en (combined_range _)) as [-> _].
  destruct en; cbn [negb]; [|exact Hr].
  pose proof (rep_flag p s true l _ Hr eq_refl false) as Hf. rewrite Z.add_0_r.
  by rewrite lor_disabled by apply combined_range.
Qed.

Lemma enable_rep p s en l : rep p s en l -> rep p (enable s) true l.
Proof.
  intros Hr. pose proof Hr as (Hp&_&_&_&Epu&_&_). unfold enable, manager_enable. rewrite Epu.
  destruct (disabled_flag ((p + Z.of_nat (length l)) mod N) en (combined_range _)) as [-> Ed].
  unfold discardDisabledFlag in Ed. destruct en; cbn [negb]; [exact Hr|].
  rewrite Ed. pose proof (rep_flag p s false l _ Hr eq_refl true) as Hf. by rewrite Z.add_0_r in Hf.
Qed.

Lemma run_remove_next f s pc s' pc' : pop_step cap s pc = (s', pc') ->
  (forall r, pc <> PopNotify r) -> run_remove cap (S f) s pc = run_remove cap f s' pc'.
Proof.
  intros E Hn. destruct pc; cbn [run_remove]; try (by rewrite E); [by destruct (Hn r)|].
  cbn [pop_step] in E. injection E as <- <-. by destruct f.
Qed.

Lemma remove_one p s en x l : rep p s en (x :: l) ->
  exists s', run_remove cap 8 s (PopLoad no_index) = Done (true, s') /\ rep (p + 1) s' en l.
Proof.
  intros Hr. pose proof Hr as (Hp&_&_&_&_&Epo&_).
  erewrite run_remove_next by (done || reflexivity). rewrite Epo.
  rewrite (run_remove_next _ _ _ _ _ (pop_try_some p s en x l _ Hr)) by done.
  erewrite run_remove_next; [|cbn [pop_step popIndex set_state]; rewrite Epo, Z.eqb_refl, next_combined; reflexivity|done].
  erewrite run_remove_next by (done || reflexivity).
  erewrite run_remove_next; [|cbn [pop_step]; rewrite next_generation; reflexivity|done]. cbn [run_remove].
  eexists. split; [reflexivity|]. exact (pop_rep p s en x l Hr).
Qed.

Lemma remove_loop_spec l : forall p s en n, rep p s en l ->
  exists m s', remove_loop cap (length l) n s = Done (m, s') /\ rep (p + Z.of_nat (length l)) s' en [].
Proof.
  induction l as [|x l IH]; intros p s en n Hr; cbn [remove_loop length].
  - eexists _, _. split; [done|]. by rewrite Z.add_0_r.
  - destruct (remove_one p s en x l Hr) as (s1&->&H1). cbn [obind].
    destruct (IH (p + 1) s1 en (n + 1) H1) as (m&s'&->&H'). eexists _, _. split; [done|].
    by replace (p + Z.of_nat (S (length l))) with (p + 1 + Z.of_nat (length l)) by lia.
Qed.

Lemma removeAll_rep p s en l : rep p s en l ->
  exists s', removeAll cap s = Done s' /\ rep (p + Z.of_nat (length l)) s' en [].
Proof.
  intros Hr. unfold removeAll. rewrite (size_spec p s en l Hr), Nat2Z.id.
  destruct (remove_loop_spec l p s en 0 Hr) as (m&s'&->&H'). cbn [obind]. by eexists.
Qed.
End Sequential.

(** ** Refinement: a bounded first-in first-out queue *)

Inductive queue_op (T : Type) := OpPush (v : T) | OpPop | OpSize | OpDisable | OpEnable | OpRemoveAll.
Inductive queue_result (T : Type) :=
| RPush (r : QueueReturn) | RPop (r : option T) | RSize (n : Z) | RNone.
Arguments OpPush {T}.
Arguments OpPop {T}.
Arguments OpSize {T}.
Arguments OpDisable {T}.
Arguments OpEnable {T}.
Arguments OpRemoveAll {T}.
Arguments RPush {T}.
Arguments RPop {T}.
Arguments RSize {T}.
Arguments RNone {T}.

Section Refinement.
Context (cap : Z) {T : Type}.

(** The specification: an enabled flag and the values in order. *)
Definition spec_op (o : queue_op T) (q : bool * list T) : queue_result T * (bool * list T) :=
  let '(en, l) := q in
  match o with
  | OpPush v =>
      if negb en then (RPush QueueDisabled, q)
      else if Z.of_nat (length l) <? cap then (RPush Success, (en, l ++ [v]))
      else (RPush QueueFull, q)
  | OpPop => (RPop (head l), (en, tail l))
  | OpSize => (RSize (Z.of_nat (length l)), q)
  | OpDisable => (RNone, (false, l))
  | OpEnable => (RNone, (true, l))
  | OpRemoveAll => (RNone, (en, []))
  end.

Fixpoint spec_ops (os : list (queue_op T)) (q : bool * list T) : list (queue_result T) :=
  match os with
  | [] => []
  | o :: os => let '(r, q) := spec_op o q in r :: spec_ops os q
  end.

Definition exec_op (o : queue_op T) (s : shared T) : outcome (queue_result T * shared T) :=
  match o with
  | OpPush v => let! (r, s) := tryPushBack cap v s in Done (RPush r, s)
  | OpPop => let! (r, s) := tryPopFront cap s in Done (RPop r, s)
  | OpSize => Done (RSize (size cap s), s)
  | OpDisable => Done (RNone, disable s)
  | OpEnable => Done (RNone, enable s)
  | OpRemoveAll => let! s := removeAll cap s in Done (RNone, s)
  end.

Fixpoint exec_ops (os : list (queue_op T)) (s : shared T) : outcome (list (queue_result T)) :=
  match os with
  | [] => Done []
  | o :: os => let! (r, s) := exec_op o s in let! rs := exec_ops os s in Done (r :: rs)
  end.

Lemma exec_op_refines o p s en l : 0 < cap <= 2 ^ 30 -> rep cap p s en l ->
  exists p' s', exec_op o s = Done ((spec_op o (en, l)).1, s')
    /\ rep cap p' s' (spec_op o (en, l)).2.1 (spec_op o (en, l)).2.2.
Proof.
  intros Hcap Hr. destruct o; cbn [exec_op spec_op].
  - destruct (tryPushBack_spec cap Hcap p s en l v Hr) as (r&s'&->&H'). cbn [obind].
    destruct en; cbn [negb] in *; [destruct (_ <? _)|]; destruct H' as [-> H']; subst; by eexists p, _.
  - destruct (tryPopFront_spec cap Hcap p s en l Hr) as (s'&->&H'). cbn [obind].
    destruct l; by eexists _, _.
  - exists p, s. by rewrite (size_spec cap Hcap p s en l Hr).
  - exists p, (disable s). split; [done|]. by eapply disable_rep.
  - exists p, (enable s). split; [done|]. by eapply enable_rep.
  - destruct (removeAll_rep cap Hcap p s en l Hr) as (s'&->&H'). by eexists _, _.
Qed.

Lemma exec_ops_refines os : 0 < cap <= 2 ^ 30 -> forall p s en l, rep cap p s en l ->
  exec_ops os s = Done (spec_ops os (en, l)).
Proof.
  intros Hcap. induction os as [|o os IH]; intros p s en l Hr; [done|]. cbn [exec_ops spec_ops].
  destruct (exec_op_refines o p s en l Hcap Hr) as (p'&s'&->&H'). cbn [obind].
  destruct (spec_op o (en, l)) as [r [en' l']]. cbn [fst snd] in *. by rewrite (IH p' s' en' l' H').
Qed.
End Refinement.

(** C11: operated by one thread at a time, the queue is a bounded first-in
    first-out queue for every capacity it admits: whatever the sequence of
    pushes, pops, size queries, disabling, enabling and clearing, across any
    number of wrap-arounds of cells, generations and indexes, every call
    returns, with the result the specification gives. *)
Theorem queue_refines_fifo {T} cap (os : list (queue_op T)) : 0 < cap <= 2 ^ 30 ->
  exec_ops cap os (new_queue cap) = Done (spec_ops cap os (true, [])).
Proof. intros Hcap. eapply exec_ops_refines; [done|]. by apply new_queue_rep. Qed.

Lemma queue_refines_fifo_witness :
  exec_ops 2 [OpPush 7; OpPush 8; OpPush 9; OpSize; OpPop; OpPop; OpPop] (new_queue 2)
  = Done [RPush Success; RPush Success; RPush QueueFull; RSize 2; RPop (Some 7); RPop (Some 8); RPop None].
Proof.
  apply (queue_refines_fifo 2 [OpPush 7; OpPush 8; OpPush 9; OpSize; OpPop; OpPop; OpPop]). lia.
Defined.

(** ** Many threads

    Any number of threads push and pop; one step of the system is one step of
    one machine.  [inserted] and [removed] record the values constructed in and
    moved out of cells. *)

Inductive thread (T : Type) := Idle | Pushing (pc : push_pc T) | Popping (pc : pop_pc T).
Arguments Idle {T}.
Arguments Pushing {T}.
Arguments Popping {T}.

Record sys (T : Type) := mkSys {
  sh : shared T; threads : list (thread T); inserted : list T; removed : list T }.
Arguments mkSys {T}.
Arguments sh {T}.
Arguments threads {T}.
Arguments inserted {T}.
Arguments removed {T}.

Section Concurrent.
Context (cap : Z) {T : Type}.

Definition push_log (pc : push_pc T) (l : list T) : list T :=
  match pc with PushConstruct v _ _ => v :: l | _ => l end.
Definition pop_log (s : shared T) (pc : pop_pc T) (l : list T) : list T :=
  match pc with
  | PopTake _ idx => match data_at idx s with Some v => v :: l | None => l end
  | _ => l
  end.

Inductive sys_step : sys T -> sys T -> Prop :=
| StartPush s ths i r t v : ths !! t = Some Idle ->
    sys_step (mkSys s ths i r) (mkSys s (<[t := Pushing (PushLoad v no_index)]> ths) i r)
| StartPop s ths i r t : ths !! t = Some Idle ->
    sys_step (mkSys s ths i r) (mkSys s (<[t := Popping (PopLoad no_index)]> ths) i r)
| StepPush s ths i r t pc s' pc' : ths !! t = Some (Pushing pc) -> push_step cap s pc = (s', pc') ->
    sys_step (mkSys s ths i r) (mkSys s' (<[t := Pushing pc']> ths) (push_log pc i) r)
| StepPop s ths i r t pc s' pc' : ths !! t = Some (Popping pc) -> pop_step cap s pc = (s', pc') ->
    sys_step (mkSys s ths i r) (mkSys s' (<[t := Popping pc']> ths) i (pop_log s pc r))
| EndPush s ths i r t ret : ths !! t = Some (Pushing (PushRet ret)) ->
    sys_step (mkSys s ths i r) (mkSys s (<[t := Idle]> ths) i r)
| EndPop s ths i r t ret : ths !! t = Some (Popping (PopRet ret)) ->
    sys_step (mkSys s ths i r) (mkSys s (<[t := Idle]> ths) i r)
| StepDisable s ths i r : sys_step (mkSys s ths i r) (mkSys (disable s) ths i r)
| StepEnable s ths i r : sys_step (mkSys s ths i r) (mkSys (enable s) ths i r).

Definition sys_init (n : nat) : sys T := mkSys (new_queue cap) (replicate n Idle) [] [].

(** The cell a thread has reserved: its generation and index, the state it put
    the cell in, and whether the cell holds an object. *)
Definition claim (th : thread T) : option (Z * Z * ElementState * bool) :=
  match th with
  | Pushing (PushAdvance _ g i _) | Pushing (PushConstruct _ g i) => Some (g, i, Writing, false)
  | Pushing (PushCommit g i) => Some (g, i, Writing, true)
  | Popping (PopAdvance g i _) | Popping (PopTake g i) => Some (g, i, Reading, true)
  | Popping (PopCommit _ g i) => Some (g, i, Reading, false)
  | _ => None
  end.

Definition holds (o : option T) (full : bool) : Prop := if full then is_Some o else o = None.

(** Cells and claims agree, no two claims are on one cell, and unclaimed cells
    hold an object exactly when they are full. *)
Definition cells_ok (s : shared T) (cs : list (option (Z * Z * ElementState * bool))) : Prop :=
  length (states s) = Z.to_nat cap /\ length (data s) = Z.to_nat cap
  /\ (forall t g i st f, cs !! t = Some (Some (g, i, st, f)) ->
        0 <= g < 2 ^ 30 /\ 0 <= i < cap /\ (st = Writing \/ st = Reading)
        /\ state_at i s = encodeElement g st /\ holds (data_at i s) f)
  /\ (forall t t' g g' i st st' f f', cs !! t = Some (Some (g, i, st, f)) ->
        cs !! t' = Some (Some (g', i, st', f')) -> t = t')
  /\ (forall i, 0 <= i < cap ->
        (decodeStateFromElementState (state_at i s) = Empty -> data_at i s = None)
        /\ (decodeStateFromElementState (state_at i s) = Full -> is_Some (data_at i s))).

Context (Hcap : 0 < cap <= 2 ^ 30).

(** Steps that leave cells alone. *)
Lemma cells_keep s s' cs t c c' : states s' = states s -> data s' = data s ->
  cells_ok s cs -> cs !! t = Some c -> c' = c \/ c' = None -> cells_ok s' (<[t := c']> cs).
Proof.
  intros Es Ed (Hs&Hd&Hc&Hu&Hf) Ht Hcc. unfold cells_ok, state_at, data_at in *. rewrite Es, Ed.
  split_and!; [done|done| | |done].
  - intros t' g i st f Hl. apply list_lookup_insert_Some in Hl as [(<-&->&_)|[_ Hl]]; [|by eapply Hc].
    destruct Hcc as [<-|]; [by eapply Hc|done].
  - intros t1 t2 g g' i st st' f f' H1 H2.
    apply list_lookup_insert_Some in H1 as [(<-&E1&_)|[N1 H1]], H2 as [(<-&E2&_)|[N2 H2]];
      destruct Hcc as [->| ->]; simplify_eq; try done; eauto.
Qed.

(** A claim is on a cell that is neither empty nor full. *)
Lemma claimed_state s cs t g i st f : cells_ok s cs -> cs !! t = Some (Some (g, i, st, f)) ->
  decodeStateFromElementState (state_at i s) = st /\ (st = Writing \/ st = Reading).
Proof.
  intros (_&_&Hc&_&_) Hl. destruct (Hc t g i st f Hl) as (Hg&_&Hst&->&_).
  by destruct (decode_encode g st Hg) as [_ ->].
Qed.

(** Reserving a cell: [Empty] to [Writing] or [Full] to [Reading]. *)
Lemma cells_acquire s cs t g i st0 st1 f : cells_ok s cs -> cs !! t = Some None ->
  0 <= g < 2 ^ 30 -> 0 <= i < cap -> state_at i s = encodeElement g st0 ->
  (st0 = Empty /\ st1 = Writing /\ f = false) \/ (st0 = Full /\ st1 = Reading /\ f = true) ->
  cells_ok (set_state i (encodeElement g st1) s) (<[t := Some (g, i, st1, f)]> cs).
Proof.
  intros Hok Ht Hg Hi Es Hst. pose proof Hok as (Hs&Hd&Hc&Hu&Hf).
  assert (forall t' g' st' f', cs !! t' <> Some (Some (g', i, st', f'))) as Hfree.
  { intros t' g' st' f' Hl. destruct (claimed_state s cs t' g' i st' f' Hok Hl) as [E1 E2].
    rewrite Es in E1. destruct (decode_encode g st0 Hg) as [_ E3]. rewrite E3 in E1.
    destruct Hst as [(->&_)|(->&_)], E2 as [E2|E2]; congruence. }
  destruct (Hf i Hi) as [Hfe Hff]. rewrite Es in Hfe, Hff.
  destruct (decode_encode g st0 Hg) as [_ E0]. rewrite E0 in Hfe, Hff.
  split_and!; [cbn; by rewrite length_insert|done| | |].
  - intros t' g' i' st' f' Hl. apply list_lookup_insert_Some in Hl as [(<-&E&_)|[Hn Hl]].
    + simplify_eq. rewrite (state_at_set cap), Z.eqb_refl, data_at_set_state by done.
      split_and!; [lia|lia|lia|lia| |done|];
        destruct Hst as [(->&->&->)|(->&->&->)]; cbn [holds]; auto.
    + destruct (Hc t' g' i' st' f' Hl) as (?&?&?&?&?).
      assert (i <> i') by (intros ->; by eapply Hfree).
      rewrite (state_at_set cap), data_at_set_state by done. rewrite (proj2 (Z.eqb_neq i i')) by done.
      exact (Hc t' g' i' st' f' Hl).
  - intros t1 t2 g1 g2 i' st' st'' f' f'' H1 H2.
    apply list_lookup_insert_Some in H1 as [(<-&E1&_)|[N1 H1]], H2 as [(<-&E2&_)|[N2 H2]]; simplify_eq; try done.
    + by destruct (Hfree _ _ _ _ H2).
    + by destruct (Hfree _ _ _ _ H1).
    + by eapply Hu.
  - intros j Hj. rewrite (state_at_set cap), data_at_set_state by done.
    destruct (Z.eqb_spec i j) as [->|]; [|by apply Hf].
    destruct (decode_encode g st1 Hg) as [_ ->]. by destruct Hst as [(->&->&->)|(->&->&->)].
Qed.

(** The owner fills or empties its cell. *)
Lemma cells_data s cs t g i st f v fv : cells_ok s cs -> cs !! t = Some (Some (g, i, st, f)) ->
  holds v fv -> cells_ok (set_data i v s) (<[t := Some (g, i, st, fv)]> cs).
Proof.
  intros Hok Ht Hv. pose proof Hok as (Hs&Hd&Hc&Hu&Hf). destruct (Hc t g i st f Ht) as (Hg&Hi&Hst&Es&_).
  split_and!; [done|cbn; by rewrite length_insert| | |].
  - intros t' g' i' st' f' Hl. apply list_lookup_insert_Some in Hl as [(<-&E&_)|[Hn Hl]].
    + simplify_eq. rewrite (data_at_set cap), Z.eqb_refl, state_at_set_data by done.
      by split_and!; try lia.
    + destruct (Hc t' g' i' st' f' Hl) as (?&?&?&?&?).
      assert (i <> i') by (intros ->; apply Hn; by eapply Hu).
      rewrite (data_at_set cap), state_at_set_data by done. rewrite (proj2 (Z.eqb_neq i i')) by done.
      exact (Hc t' g' i' st' f' Hl).
  - intros t1 t2 g1 g2 i' st' st'' f' f'' H1 H2.
    apply list_lookup_insert_Some in H1 as [(<-&E1&_)|[N1 H1]], H2 as [(<-&E2&_)|[N2 H2]]; simplify_eq; try done; by eapply Hu.
  - intros j Hj. rewrite (data_at_set cap), state_at_set_data by done.
    destruct (Z.eqb_spec i j) as [->|]; [|by apply Hf].
    rewrite Es. destruct (decode_encode g st Hg) as [_ ->]. by destruct Hst as [->| ->].
Qed.

(** The owner releases its cell, full or empty. *)
Lemma cells_release s cs t g i st f g' st' : cells_ok s cs -> cs !! t = Some (Some (g, i, st, f)) ->
  0 <= g' < 2 ^ 30 -> (st' = Full /\ f = true) \/ (st' = Empty /\ f = false) ->
  cells_ok (set_state i (encodeElement g' st') s) (<[t := None]> cs).
Proof.
  intros Hok Ht Hg' Hst'. pose proof Hok as (Hs&Hd&Hc&Hu&Hf). destruct (Hc t g i st f Ht) as (Hg&Hi&Hst&Es&Hh).
  split_and!; [cbn; by rewrite length_insert|done| | |].
  - intros t1 g1 i1 st1 f1 Hl. apply list_lookup_insert_Some in Hl as [(<-&E&_)|[Hn Hl]]; [done|].
    destruct (Hc t1 g1 i1 st1 f1 Hl) as (?&?&?&?&?).
    assert (i <> i1) by (intros ->; apply Hn; by eapply Hu).
    rewrite (state_at_set cap), data_at_set_state by done. rewrite (proj2 (Z.eqb_neq i i1)) by done.
    exact (Hc t1 g1 i1 st1 f1 Hl).
  - intros t1 t2 g1 g2 i' st1 st2 f1 f2 H1 H2.
    apply list_lookup_insert_Some in H1 as [(<-&E1&_)|[N1 H1]], H2 as [(<-&E2&_)|[N2 H2]]; try done; by eapply Hu.
  - intros j Hj. rewrite (state_at_set cap), data_at_set_state by done.
    destruct (Z.eqb_spec i j) as [->|]; [|by apply Hf].
    destruct (decode_encode g' st' Hg') as [_ ->]. unfold holds in Hh.
    destruct Hst' as [[-> ->]|[-> ->]]; by split.
Qed.

(** *** Indexes stay in range *)

Definition index_ok (x : Z) : Prop := 0 <= x < numGenerations cap * cap.
Definition flagged_ok (y : Z) : Prop :=
  exists x (en : bool), index_ok x /\ y = x + (if en then 0 else 2 ^ 31).
Definition thread_ok (th : thread T) : Prop :=
  match th with
  | Pushing (PushTry _ loaded _) => flagged_ok loaded
  | Pushing (PushHelp _ combined _) => index_ok combined
  | Pushing (PushAdvance _ g _ combined) => index_ok combined /\ g < numGenerations cap
  | Pushing (PushConstruct _ g _) | Pushing (PushCommit g _) => g < numGenerations cap
  | Popping (PopTry loaded _) | Popping (PopHelp loaded _) => index_ok loaded
  | Popping (PopAdvance g _ loaded) => index_ok loaded /\ g < numGenerations cap
  | Popping (PopTake g _) | Popping (PopCommit _ g _) => g < numGenerations cap
  | _ => True
  end.

Lemma index_next c : index_ok c -> index_ok (nextCombinedIndex cap c).
Proof.
  intros Hc. pose proof (generations cap Hcap) as HG. unfold index_ok in *.
  rewrite <- (Z.mod_small c (numGenerations cap * cap)) by lia. rewrite next_combined by done.
  apply Z.mod_pos_bound. lia.
Qed.

Lemma index_flagged c : index_ok c -> flagged_ok c.
Proof. intros Hc. exists c, true. split; [done|]. by rewrite Z.add_0_r. Qed.

Lemma index_range c : index_ok c -> 0 <= c < 2 ^ 31.
Proof. pose proof (generations cap Hcap). unfold index_ok. lia. Qed.

Lemma flagged_discard y : flagged_ok y -> index_ok (discardDisabledFlag y).
Proof. intros (x&en&Hx&->). by rewrite (proj2 (disabled_flag x en (index_range x Hx))). Qed.

Lemma index_cell c : index_ok c ->
  0 <= u32 (c / cap) < numGenerations cap /\ 0 <= u32 (c / cap) < 2 ^ 30 /\ 0 <= u32 (c mod cap) < cap.
Proof.
  intros Hc. pose proof (generations cap Hcap) as HG. unfold index_ok in *.
  pose proof (Z.mod_pos_bound c cap ltac:(lia)).
  assert (0 <= c / cap < numGenerations cap).
  { split; [apply Z.div_pos; lia|apply Z.div_lt_upper_bound; lia]. }
  rewrite !wrap_small by (unfold in_width; lia). lia.
Qed.

Lemma generation_next g : 0 <= g < numGenerations cap -> 0 <= nextGeneration cap g < 2 ^ 30.
Proof.
  intros Hg. pose proof (generations cap Hcap) as HG. unfold nextGeneration. rewrite max_generation by done.
  destruct (Z.eqb_spec (numGenerations cap - 1) g); [lia|]. rewrite wrap_small by (unfold in_width; lia). lia.
Qed.

(** *** One step of a machine *)

Lemma push_step_indexes s pc s' pc' : push_step cap s pc = (s', pc') ->
  flagged_ok (pushIndex s) -> thread_ok (Pushing pc) ->
  flagged_ok (pushIndex s') /\ popIndex s' = popIndex s /\ thread_ok (Pushing pc').
Proof.
  intros E Hp Ht. destruct pc; cbn [push_step thread_ok] in *; repeat case_match; simplify_eq; cbn [pushIndex popIndex set_pushIndex set_state set_data notify_popper thread_ok];
    (split_and!; auto using index_flagged, index_next, flagged_discard); try (by destruct Ht).
  - apply (index_cell _ (flagged_discard _ Ht)).
  - by apply index_flagged, index_next, Ht.
Qed.

Lemma pop_step_indexes s pc s' pc' : pop_step cap s pc = (s', pc') ->
  index_ok (popIndex s) -> thread_ok (Popping pc) ->
  index_ok (popIndex s') /\ pushIndex s' = pushIndex s /\ thread_ok (Popping pc').
Proof.
  intros E Hp Ht. destruct pc; cbn [pop_step thread_ok] in *; repeat case_match; simplify_eq; cbn [pushIndex popIndex set_popIndex set_state set_data notify_pusher thread_ok];
    (split_and!; auto using index_next); try (by destruct Ht).
  - apply (index_cell _ Ht).
  - by apply index_next, Ht.
Qed.

Ltac keep_cells :=
  repeat case_match; simplify_eq; (eapply cells_keep; [done|done|done|done|by left]).

Lemma push_step_cells s cs t pc s' pc' : push_step cap s pc = (s', pc') ->
  cells_ok s cs -> cs !! t = Some (claim (Pushing pc)) -> thread_ok (Pushing pc) ->
  cells_ok s' (<[t := claim (Pushing pc')]> cs).
Proof.
  intros E Hok Ht Hth. destruct pc as [| | | |v g i|g i| |]; cbn [push_step] in E;
    try (by keep_cells).
  - cbn [thread_ok] in Hth. destruct (index_cell _ (flagged_discard _ Hth)) as (_&Hg&Hi).
    destruct (isDisabledFlagSet loaded); [by keep_cells|].
    destruct (Z.eqb_spec (state_at (u32 (discardDisabledFlag loaded mod cap)) s)
      (encodeElement (u32 (discardDisabledFlag loaded / cap)) Empty)) as [Es|_].
    + simplify_eq. by eapply cells_acquire; [| | | | |left].
    + keep_cells.
  - simplify_eq. eapply cells_data; [done|done|by eexists].
  - simplify_eq. pose proof Hok as (_&_&Hc&_). destruct (Hc _ _ _ _ _ Ht) as (Hg&_).
    eapply cells_release; [done|done|done|by left].
Qed.

Lemma pop_step_cells s cs t pc s' pc' : pop_step cap s pc = (s', pc') ->
  cells_ok s cs -> cs !! t = Some (claim (Popping pc)) -> thread_ok (Popping pc) ->
  cells_ok s' (<[t := claim (Popping pc')]> cs).
Proof.
  intros E Hok Ht Hth. destruct pc as [| | | |g i|r g i| |]; cbn [pop_step] in E;
    try (by keep_cells).
  - cbn [thread_ok] in Hth. destruct (index_cell _ Hth) as (_&Hg&Hi).
    destruct (Z.eqb_spec (state_at (u32 (loaded mod cap)) s) (encodeElement (u32 (loaded / cap)) Full)) as [Es|_].
    + simplify_eq. by eapply cells_acquire; [| | | | |right].
    + keep_cells.
  - simplify_eq. by eapply cells_data; [| |].
  - simplify_eq. pose proof Hok as (_&_&Hc&_). destruct (Hc _ _ _ _ _ Ht) as (Hg&_).
    eapply cells_release; [done|done| |by right]. apply generation_next. cbn [thread_ok] in Hth. lia.
Qed.

(** *** No value is lost or duplicated *)

Definition live (s : shared T) : list T := omap id (data s).

Lemma live_construct s i v : (Z.to_nat i < length (data s))%nat -> data_at i s = None ->
  live (set_data i (Some v) s) ≡ₚ v :: live s.
Proof.
  intros Hl E. unfold data_at, live, set_data in *. cbn [data].
  destruct (lookup_lt_is_Some_2 _ _ Hl) as [o Ho]. rewrite Ho in E. cbn in E. subst o.
  rewrite insert_take_drop by done. rewrite <- (take_drop_middle _ _ _ Ho) at 3.
  rewrite !omap_app. cbn. by rewrite Permutation_middle.
Qed.

Lemma live_take s i v : data_at i s = Some v -> live s ≡ₚ v :: live (set_data i None s).
Proof.
  intros E. unfold data_at, live, set_data in *. cbn [data].
  destruct (data s !! Z.to_nat i) as [o|] eqn:Ho; [|done]. cbn in E. subst o.
  pose proof (lookup_lt_Some _ _ _ Ho) as Hl.
  rewrite insert_take_drop by done. rewrite <- (take_drop_middle _ _ _ Ho) at 1.
  rewrite !omap_app. cbn. by rewrite Permutation_middle.
Qed.

Lemma push_step_live s cs t pc s' pc' : push_step cap s pc = (s', pc') ->
  cells_ok s cs -> cs !! t = Some (claim (Pushing pc)) ->
  forall ins rem, ins ≡ₚ rem ++ live s -> push_log pc ins ≡ₚ rem ++ live s'.
Proof.
  intros E (_&Hd&Hc&_&_) Ht ins rem Hl. destruct pc as [| | | |v g i|g i| |]; cbn [push_step push_log] in *;
    try (repeat case_match; by simplify_eq).
  destruct (Hc _ _ _ _ _ Ht) as (_&Hi&_&_&Hh). simplify_eq. rewrite live_construct by (done || lia).
  by rewrite Hl, Permutation_middle.
Qed.

Lemma pop_step_live s cs t pc s' pc' : pop_step cap s pc = (s', pc') ->
  cells_ok s cs -> cs !! t = Some (claim (Popping pc)) ->
  forall ins rem, ins ≡ₚ rem ++ live s -> ins ≡ₚ pop_log s pc rem ++ live s'.
Proof.
  intros E (_&Hd&Hc&_&_) Ht ins rem Hl. destruct pc as [| | | |g i|r g i| |]; cbn [pop_step pop_log] in *;
    try (repeat case_match; by simplify_eq).
  destruct (Hc _ _ _ _ _ Ht) as (_&Hi&_&_&[v Hv]). simplify_eq. rewrite Hv, Hl, (live_take s i v Hv).
  by rewrite <- Permutation_middle.
Qed.

(** *** The invariant of the system *)

Definition sys_ok (x : sys T) : Prop :=
  cells_ok (sh x) (claim <$> threads x)
  /\ flagged_ok (pushIndex (sh x)) /\ index_ok (popIndex (sh x))
  /\ Forall thread_ok (threads x)
  /\ inserted x ≡ₚ removed x ++ live (sh x).

Lemma sys_init_ok n : sys_ok (sys_init n).
Proof.
  pose proof (generations cap Hcap) as HG. unfold sys_ok, sys_init. cbn [sh threads inserted removed].
  assert (index_ok 0) by (unfold index_ok; lia).
  assert (forall t, (claim <$> replicate n (@Idle T)) !! t <> Some None -> (claim <$> replicate n (@Idle T)) !! t = None) as Hn.
  { intros t. rewrite fmap_replicate. destruct (replicate n _ !! t) eqn:E; [|done].
    apply lookup_replicate in E as [-> _]. done. }
  split_and!; [|by apply index_flagged|done|by apply Forall_replicate|].
  - unfold new_queue, cells_ok. cbn [states data]. rewrite !length_replicate.
    split_and!; [done|done| | |].
    + intros t g i st f E. by rewrite (Hn t) in E by (by rewrite E).
    + intros t t' g g' i st st' f f' E. by rewrite (Hn t) in E by (by rewrite E).
    + intros i Hi. unfold state_at, data_at. cbn [states data].
      rewrite !lookup_replicate_2 by lia. by split.
  - unfold live, new_queue. cbn [data]. by induction (Z.to_nat cap).
Qed.

(** A thread that starts or ends an operation. *)
Lemma sys_ok_thread s ths i r t th th' : sys_ok (mkSys s ths i r) -> ths !! t = Some th ->
  claim th = None -> claim th' = None -> thread_ok th' -> sys_ok (mkSys s (<[t := th']> ths) i r).
Proof.
  intros (Hc&Hp&Hq&Hf&Hl) Ht E E' Hth. unfold sys_ok in *. cbn [sh threads inserted removed] in *.
  split_and!; [|done|done|by apply Forall_insert|done]. rewrite list_fmap_insert, E'.
  eapply cells_keep; [done|done|done|by rewrite list_lookup_fmap, Ht|by right].
Qed.

(** A change of the push index. *)
Lemma sys_ok_index s s' ths i r : sys_ok (mkSys s ths i r) -> states s' = states s -> data s' = data s ->
  popIndex s' = popIndex s -> flagged_ok (pushIndex s') -> sys_ok (mkSys s' ths i r).
Proof.
  unfold sys_ok, cells_ok, live, state_at, data_at. cbn [sh threads inserted removed].
  intros (Hc&Hp&Hq&Hf&Hl) -> -> -> Hx. by split_and!; try apply Hc.
Qed.

Lemma flagged_disable (s : shared T) : flagged_ok (pushIndex s) ->
  flagged_ok (pushIndex (disable s)) /\ flagged_ok (pushIndex (enable s)).
Proof.
  intros (x&en&Hx&E). destruct (disable_pushIndex s x en (index_range x Hx) E) as [-> ->].
  split; [by exists x, false|by apply index_flagged].
Qed.

Lemma sys_step_ok x y : sys_step x y -> sys_ok x -> sys_ok y.
Proof.
  intros Hs Hok. destruct Hs as [s ths i r t v Ht|s ths i r t Ht|s ths i r t pc s' pc' Ht E
    |s ths i r t pc s' pc' Ht E|s ths i r t ret Ht|s ths i r t ret Ht|s ths i r|s ths i r];
    try (by eapply sys_ok_thread).
  - destruct Hok as (Hc&Hp&Hq&Hf&Hl). unfold sys_ok. cbn [sh threads inserted removed] in *.
    pose proof (Forall_lookup_1 _ _ _ _ Hf Ht) as Hth.
    destruct (push_step_indexes _ _ _ _ E Hp Hth) as (?&->&?).
    assert ((claim <$> ths) !! t = Some (claim (Pushing pc))) as Ht' by (by rewrite list_lookup_fmap, Ht).
    split_and!; [rewrite list_fmap_insert; by eapply push_step_cells|done|done|by apply Forall_insert|].
    by eapply push_step_live.
  - destruct Hok as (Hc&Hp&Hq&Hf&Hl). unfold sys_ok. cbn [sh threads inserted removed] in *.
    pose proof (Forall_lookup_1 _ _ _ _ Hf Ht) as Hth.
    destruct (pop_step_indexes _ _ _ _ E Hq Hth) as (?&->&?).
    assert ((claim <$> ths) !! t = Some (claim (Popping pc))) as Ht' by (by rewrite list_lookup_fmap, Ht).
    split_and!; [rewrite list_fmap_insert; by eapply pop_step_cells|done|done|by apply Forall_insert|].
    by eapply pop_step_live.
  - eapply sys_ok_index; [done|..|apply flagged_disable, Hok]; unfold disable, manager_disable; by case_match.
  - eapply sys_ok_index; [done|..|apply flagged_disable, Hok]; unfold enable, manager_enable; by case_match.
Qed.

Lemma reachable_ok n x : rtc sys_step (sys_init n) x -> sys_ok x.
Proof.
  intros Hr. pose proof (sys_init_ok n) as H0. revert H0.
  induction Hr as [|a b c Hab Hbc IH]; [done|]. intros H0. by eapply IH, sys_step_ok.
Qed.
End Concurrent.

(** C9: however many threads push, pop, disable and enable, and however their
    atomic accesses interleave, no two threads own one cell, no object is
    constructed over a live one, a pop always finds the object it reserved,
    the assertions of [commitPushIndex] and [commitPopIndex] hold, and the
    values put in are, with multiplicity, those taken out and those still in
    the cells. *)
Theorem queue_concurrent_safety {T} cap n (x : sys T) : 0 < cap <= 2 ^ 30 ->
  rtc (sys_step cap) (sys_init cap n) x ->
  (forall t t' th th' g g' i st st' f f', threads x !! t = Some th -> threads x !! t' = Some th' ->
     claim th = Some (g, i, st, f) -> claim th' = Some (g', i, st', f') -> t = t')
  /\ (forall t v g i, threads x !! t = Some (Pushing (PushConstruct v g i)) -> data_at i (sh x) = None)
  /\ (forall t g i, threads x !! t = Some (Popping (PopTake g i)) -> is_Some (data_at i (sh x)))
  /\ (forall t th g i st f, threads x !! t = Some th -> claim th = Some (g, i, st, f) ->
        g <= m_maxGeneration cap /\ 0 <= i < cap
        /\ decodeStateFromElementState (state_at i (sh x)) = st
        /\ decodeGenerationFromElementState (state_at i (sh x)) = g)
  /\ inserted x ≡ₚ removed x ++ omap id (data (sh x)).
Proof.
  intros Hcap Hr. apply reachable_ok in Hr as ((_&_&Hc&Hu&_)&_&_&Hth&Hl); [|done].
  assert (forall t th c, threads x !! t = Some th -> claim th = c -> (claim <$> threads x) !! t = Some c) as Hlk.
  { intros t th c Ht <-. by rewrite list_lookup_fmap, Ht. }
  split_and!; [| | | |exact Hl].
  - intros. eapply Hu; by eapply Hlk.
  - intros t v g i Ht. by destruct (Hc _ _ _ _ _ (Hlk _ _ _ Ht eq_refl)) as (_&_&_&_&?).
  - intros t g i Ht. by destruct (Hc _ _ _ _ _ (Hlk _ _ _ Ht eq_refl)) as (_&_&_&_&?).
  - intros t th g i st f Ht Ecl. destruct (Hc _ _ _ _ _ (Hlk _ _ _ Ht Ecl)) as (Hg&Hi&_&->&_).
    destruct (decode_encode g st Hg) as [-> ->]. split_and!; [|lia|lia|done|done].
    rewrite max_generation by done. pose proof (Forall_lookup_1 _ _ _ _ Hth Ht) as Hok.
    destruct th as [|[]|[]]; simplify_eq/=; lia.
Qed.

Lemma queue_concurrent_safety_witness : exists x : sys Z,
  rtc (sys_step 2) (sys_init 2 2) x
  /\ threads x !! 0%nat = Some (Pushing (PushConstruct 7 0 0))
  /\ data_at 0 (sh x) = None.
Proof.
  assert (exists x : sys Z, rtc (sys_step 2) (sys_init 2 2) x
    /\ threads x !! 0%nat = Some (Pushing (PushConstruct 7 0 0))) as (x&Hr&Ht).
  { eexists. split; [|shelve].
    eapply rtc_l; [apply (StartPush 2 _ _ _ _ 0%nat 7); reflexivity|].
    eapply rtc_l; [apply (StartPop 2 _ _ _ _ 1%nat); reflexivity|].
    eapply rtc_l; [eapply (StepPush 2 _ _ _ _ 0%nat); reflexivity|].
    eapply rtc_l; [eapply (StepPush 2 _ _ _ _ 0%nat); reflexivity|].
    eapply rtc_l; [eapply (StepPop 2 _ _ _ _ 1%nat); reflexivity|].
    eapply rtc_l; [eapply (StepPush 2 _ _ _ _ 0%nat); reflexivity|]. apply rtc_refl.
    Unshelve. reflexivity. }
  exists x. split; [exact Hr|]. split; [exact Ht|].
  destruct (queue_concurrent_safety 2 2 x ltac:(lia) Hr) as (_&H&_). exact (H 0%nat 7 0 0 Ht).
Defined.
