(* ===== verification/Crypto.v ===== *)
(** * Cryptographic wrappers and encrypted frames

    [llarp/crypto/crypto_libsodium.cpp] wraps libsodium; [llarp/crypto/encrypted.hpp]
    and [encrypted_frame.cpp] build the onion frames of path creation on it.
    libsodium is an interface with its documented laws.  Memory is byte lists;
    an access outside an array is a [Fault]. *)

From S2P Require Import Prelude Buffer Bencode.

(** ** libsodium

    [None] is a non-zero return code.  Random bytes come from a generator
    whose state is passed along. *)
Class Sodium := {
  rng : Type;
  randombytes : nat -> rng -> list Z * rng;
  generichash : nat -> list Z -> list Z -> option (list Z);
  stream_xor : list Z -> list Z -> list Z -> option (list Z);
  scalarmult : list Z -> list Z -> option (list Z);
  scalarmult_base : list Z -> list Z;
  sign_detached : list Z -> list Z -> option (list Z);
  verify_detached : list Z -> list Z -> list Z -> bool }.

(** [generichash n msg key] fills [n] bytes and accepts the lengths used here;
    [stream_xor text nonce key] is an involution that keeps the length;
    [scalarmult] is a Diffie-Hellman function. *)
Class SodiumSpec `{Sodium} : Prop := {
  randombytes_length n g : length (randombytes n g).1 = n;
  randombytes_bytes n g : bytes_ok (randombytes n g).1;
  generichash_total n m k : 16 <= n <= 64 -> length k = 0 \/ length k = 32 -> is_Some (generichash n m k);
  generichash_length n m k h : generichash n m k = Some h -> length h = n /\ bytes_ok h;
  stream_xor_total t n k : length n = 24 -> length k = 32 -> is_Some (stream_xor t n k);
  stream_xor_length t n k c : stream_xor t n k = Some c -> length c = length t;
  stream_xor_inv t n k c : stream_xor t n k = Some c -> stream_xor c n k = Some t;
  scalarmult_base_length s : length (scalarmult_base s) = 32;
  scalarmult_length s p q : scalarmult s p = Some q -> length q = 32;
  scalarmult_comm s t : length s = 32 -> length t = 32 ->
    scalarmult s (scalarmult_base t) = scalarmult t (scalarmult_base s) }.

(** [crypto_stream_xchacha20_xor] combines the text with a key stream that
    depends on nonce and key only; layers of it commute. *)
Class SodiumStream `{Sodium} := {
  keystream : nat -> list Z -> list Z -> list Z;
  keystream_length len n k : length (keystream len n k) = len;
  stream_xor_keystream t n k : length n = 24 -> length k = 32 ->
    stream_xor t n k = Some (zip_with Z.lxor t (keystream (length t) n k)) }.

Section Wrappers.
Context `{Sodium}.

Definition xchacha20 (buff k n : list Z) : option (list Z) := stream_xor buff (take 24 n) k.
Definition shorthash (buff : list Z) : option (list Z) := generichash 32 buff [].
Definition hmac (buff secret : list Z) : option (list Z) := generichash 32 buff secret.
Definition verify (pub buf sig : list Z) : bool := verify_detached sig buf pub.
Definition sign (secret buf : list Z) : option (list Z) := sign_detached buf secret.
Definition randbytes (sz : nat) (g : rng) : list Z * rng := randombytes sz g.
Definition randint (g : rng) : Z * rng := let '(i, g) := randombytes 8 g in (be_value (rev i), g).

(** [SecretKey::toPublic]: a secret key is the scalar followed by the public key. *)
Definition toPublic (sk : list Z) : list Z := take 32 (drop 32 sk).

Definition encryption_keygen (g : rng) : list Z * rng :=
  let '(d, g) := randbytes 32 g in (d ++ scalarmult_base d, g).

(** [out] is zero before the hash is written to it; the hash's return code is ignored. *)
Definition dh (client_pk server_pk themPub usSec : list Z) : option (list Z) :=
  match scalarmult (take 32 usSec) themPub with
  | None => None
  | Some shared => Some (default (replicate 32 0%Z) (generichash 32 (client_pk ++ server_pk ++ shared) []))
  end.
Definition dh_client_priv (pk sk n : list Z) : option (list Z) :=
  match dh (toPublic sk) pk pk sk with
  | Some dh_result => generichash 32 n dh_result
  | None => None
  end.
Definition dh_server_priv (pk sk n : list Z) : option (list Z) :=
  match dh pk (toPublic sk) pk sk with
  | Some dh_result => generichash 32 n dh_result
  | None => None
  end.
Definition dh_client := dh_client_priv.
Definition dh_server := dh_server_priv.
Definition transport_dh_client := dh_client_priv.
Definition transport_dh_server := dh_server_priv.
End Wrappers.

(** ** [Encrypted<bufsz>]: an array of [bufsz] bytes and the length in use *)

Record Encrypted := mkEncrypted { ebuf : list Z; esz : nat }.

(** [sizeof(_buf)]: an [AlignedBuffer] has a virtual destructor, so its object
    holds a pointer before the array and is padded to a multiple of 16. *)
Definition sizeof_AlignedBuffer (bufsz : nat) : nat := 16 * ((8 + bufsz + 15) / 16).

Section Encrypted.
Context (bufsz : nat).

Definition Encrypted_Clear (e : Encrypted) : Encrypted := mkEncrypted (ebuf e) 0.
(** [Encrypted(const byte_t* buf, size_t sz)]; the null pointer is [None] *)
Definition Encrypted_new (buf : option (list Z)) (sz : nat) : Encrypted :=
  if bool_decide (sz <= bufsz) then
    match buf with
    | Some b => mkEncrypted (store (replicate bufsz 0%Z) 0 (take sz b)) sz
    | None => mkEncrypted (replicate bufsz 0%Z) sz
    end
  else mkEncrypted (replicate bufsz 0%Z) 0.
Definition Encrypted_assign (e : Encrypted) (buf : list Z) : Encrypted :=
  if bool_decide (length buf <= bufsz) then mkEncrypted (store (ebuf e) 0 buf) (length buf) else e.
Definition Encrypted_Fill (e : Encrypted) (fill : Z) : Encrypted :=
  mkEncrypted (store (ebuf e) 0 (replicate (esz e) fill)) (esz e).
Definition Encrypted_eqb (e f : Encrypted) : bool :=
  bool_decide (esz e = esz f) && bool_decide (take (esz e) (ebuf e) = take (esz e) (ebuf f)).
Definition Encrypted_BEncode (e : Encrypted) (b : llarp_buffer_t) : bool * llarp_buffer_t :=
  bencode_write_bytestring b (take (esz e) (ebuf e)).
Definition Encrypted_BDecode (e : Encrypted) (b : llarp_buffer_t)
  : outcome (bool * Encrypted * llarp_buffer_t) :=
  let! (strbuf, b) := bencode_read_string b in
  match strbuf with
  | None => Done (false, e, b)
  | Some strbuf =>
      if bool_decide (sizeof_AlignedBuffer bufsz < sz strbuf) then Done (false, e, b)
      else
        let! buf := save (ebuf e) 0 (base strbuf) in
        Done (true, mkEncrypted buf (sz strbuf), b)
  end.

Context `{Sodium}.
Definition Encrypted_Randomize (e : Encrypted) (g : rng) : Encrypted * rng :=
  if bool_decide (esz e = 0) then (e, g)
  else let '(r, g) := randombytes (esz e) g in (mkEncrypted (store (ebuf e) 0 r) (esz e), g).
End Encrypted.

(** ** [EncryptedFrame] *)

Definition SHORTHASHSIZE := 32.
Definition TUNNONCESIZE := 32.
Definition PUBKEYSIZE := 32.
Definition EncryptedFrameOverheadSize := PUBKEYSIZE + TUNNONCESIZE + SHORTHASHSIZE.
Definition EncryptedFrameBodySize := 128 * 6.
Definition EncryptedFrameSize := EncryptedFrameOverheadSize + EncryptedFrameBodySize.

Section Frame.
Context `{Sodium}.

Definition EncryptedFrame_new (sz : nat) : Encrypted :=
  Encrypted_new EncryptedFrameSize None (Nat.min sz EncryptedFrameBodySize + EncryptedFrameOverheadSize).
Definition EncryptedFrame_Resize (f : Encrypted) (sz : nat) : Encrypted :=
  if bool_decide (sz <= EncryptedFrameSize) then mkEncrypted (ebuf f) sz else f.

(** [size() - n] is unsigned: below [n] it exceeds every array. *)
Definition tail_size (f : Encrypted) (n : nat) : outcome nat :=
  if bool_decide (n <= esz f) then Done (esz f - n) else Fault.

Definition DoEncrypt (shared : list Z) (noDH : bool) (f : Encrypted) (g : rng)
  : outcome (bool * Encrypted * rng) :=
  let! (buf, g) :=
    if noDH then
      let '(nonce, g) := randbytes TUNNONCESIZE g in
      let! buf := save (ebuf f) SHORTHASHSIZE nonce in
      let '(noise, g) := randbytes PUBKEYSIZE g in
      let! buf := save buf (SHORTHASHSIZE + TUNNONCESIZE) noise in
      Done (buf, g)
    else Done (ebuf f, g) in
  let! nonce := load buf SHORTHASHSIZE TUNNONCESIZE in
  let! n := tail_size f EncryptedFrameOverheadSize in
  let! body := load buf EncryptedFrameOverheadSize n in
  match xchacha20 body shared nonce with
  | None => Done (false, mkEncrypted buf (esz f), g)
  | Some c =>
      let! buf := save buf EncryptedFrameOverheadSize c in
      let! n := tail_size f SHORTHASHSIZE in
      let! msg := load buf SHORTHASHSIZE n in
      match hmac msg shared with
      | None => Done (false, mkEncrypted buf (esz f), g)
      | Some h => let! buf := save buf 0 h in Done (true, mkEncrypted buf (esz f), g)
      end
  end.

Definition EncryptInPlace (ourSecretKey otherPubkey : list Z) (f : Encrypted) (g : rng)
  : outcome (bool * Encrypted * rng) :=
  let! buf := save (ebuf f) (SHORTHASHSIZE + TUNNONCESIZE) (toPublic ourSecretKey) in
  let '(nonce, g) := randbytes TUNNONCESIZE g in
  let! buf := save buf SHORTHASHSIZE nonce in
  let f := mkEncrypted buf (esz f) in
  match dh_client otherPubkey ourSecretKey nonce with
  | None => Done (false, f, g)
  | Some shared => DoEncrypt shared false f g
  end.

Definition DoDecrypt (shared : list Z) (f : Encrypted) : outcome (bool * Encrypted) :=
  let! hash := load (ebuf f) 0 SHORTHASHSIZE in
  let! nonce := load (ebuf f) SHORTHASHSIZE TUNNONCESIZE in
  let! n := tail_size f SHORTHASHSIZE in
  let! msg := load (ebuf f) SHORTHASHSIZE n in
  match hmac msg shared with
  | None => Done (false, f)
  | Some digest =>
      if negb (bool_decide (digest = hash)) then Done (false, f)
      else
        let! n := tail_size f EncryptedFrameOverheadSize in
        let! body := load (ebuf f) EncryptedFrameOverheadSize n in
        match xchacha20 body shared nonce with
        | None => Done (false, f)
        | Some p =>
            let! buf := save (ebuf f) EncryptedFrameOverheadSize p in
            Done (true, mkEncrypted buf (esz f))
        end
  end.

Definition DecryptInPlace (ourSecretKey : list Z) (f : Encrypted) : outcome (bool * Encrypted) :=
  let! nonce := load (ebuf f) SHORTHASHSIZE TUNNONCESIZE in
  let! otherPubkey := load (ebuf f) (SHORTHASHSIZE + TUNNONCESIZE) PUBKEYSIZE in
  match dh_server otherPubkey ourSecretKey nonce with
  | None => Done (false, f)
  | Some shared => DoDecrypt shared f
  end.
End Frame.

(** ** Key exchange *)

Section Agreement.
Context `{SodiumSpec}.

(** A key as [encryption_keygen] makes it. *)
Definition encryption_key (sk : list Z) : Prop :=
  length sk = 64 /\ drop 32 sk = scalarmult_base (take 32 sk).

Lemma toPublic_key sk : encryption_key sk -> toPublic sk = scalarmult_base (take 32 sk) /\ length (toPublic sk) = 32.
Proof.
  intros [Hl E]. unfold toPublic. rewrite E, take_ge by (rewrite scalarmult_base_length; lia).
  by rewrite scalarmult_base_length.
Qed.

Lemma encryption_keygen_key g : encryption_key (encryption_keygen g).1.
Proof.
  unfold encryption_key, encryption_keygen, randbytes. pose proof (randombytes_length 32 g) as Hl.
  destruct (randombytes 32 g) as [d g']. cbn in *.
  rewrite length_app, scalarmult_base_length, drop_app_length', take_app_length' by lia. split; [lia|done].
Qed.

(** Client and server of an exchange derive one secret. *)
Lemma dh_agree sk sk' n : encryption_key sk -> encryption_key sk' ->
  dh_client (toPublic sk') sk n = dh_server (toPublic sk) sk' n.
Proof.
  intros Hk Hk'. unfold dh_client, dh_server, dh_client_priv, dh_server_priv, dh.
  destruct (toPublic_key sk Hk) as [E _], (toPublic_key sk' Hk') as [E' _]. destruct Hk as [Hl _], Hk' as [Hl' _].
  rewrite E, E'. by rewrite scalarmult_comm by (rewrite length_take; lia).
Qed.

Lemma dh_client_total pk sk n : is_Some (scalarmult (take 32 sk) pk) ->
  exists s, dh_client pk sk n = Some s /\ length s = 32.
Proof.
  intros [q E]. unfold dh_client, dh_client_priv, dh. rewrite E.
  destruct (generichash_total 32 (toPublic sk ++ pk ++ q) [] ltac:(lia) (or_introl eq_refl)) as [r Er].
  rewrite Er. cbn [default]. destruct (generichash_length _ _ _ _ Er) as [Hr _].
  destruct (generichash_total 32 n r ltac:(lia) (or_intror Hr)) as [s Es].
  exists s. split; [done|]. by destruct (generichash_length _ _ _ _ Es).
Qed.
End Agreement.

Section FrameLemmas.
Context `{SodiumSpec}.

(** A frame laid out as hash, nonce, public key, body and unused rest. *)
Definition frame_parts (f : Encrypted) (h n p body rest : list Z) : Prop :=
  ebuf f = h ++ n ++ p ++ body ++ rest /\ length h = 32 /\ length n = 32 /\ length p = 32
  /\ esz f = 96 + length body.

Lemma frame_parts_exist f : 96 <= esz f <= length (ebuf f) ->
  exists h n p body rest, frame_parts f h n p body rest.
Proof.
  intros Hs. destruct (split_at 32 (ebuf f)) as (h&r1&E1&Hh&H1); [lia|].
  destruct (split_at 32 r1) as (n&r2&E2&Hn&H2); [lia|]. destruct (split_at 32 r2) as (p&r3&E3&Hp&H3); [lia|].
  destruct (split_at (esz f - 96) r3) as (body&rest&E4&Hb&H4); [lia|].
  exists h, n, p, body, rest. unfold frame_parts. rewrite E1, E2, E3, E4. split_and!; [done|done|done|done|lia].
Qed.

(** Encryption of the body and the tag over everything after the hash. *)
Lemma DoEncrypt_spec shared f g h n p body rest : frame_parts f h n p body rest -> length shared = 32 ->
  exists h' c f', DoEncrypt shared false f g = Done (true, f', g)
    /\ frame_parts f' h' n p c rest /\ stream_xor body (take 24 n) shared = Some c
    /\ hmac (n ++ p ++ c) shared = Some h'.
Proof.
  intros (E&Hh&Hn&Hp&Hz) Hk. unfold DoEncrypt, tail_size, xchacha20. cbn [obind].
  unfold SHORTHASHSIZE, TUNNONCESIZE, EncryptedFrameOverheadSize, PUBKEYSIZE, SHORTHASHSIZE, TUNNONCESIZE.
  rewrite E, load_mid by lia. cbn [obind]. rewrite bool_decide_true by lia. cbn [obind].
  assert (h ++ n ++ p ++ body ++ rest = (h ++ n ++ p) ++ body ++ rest) as E' by (by rewrite <- !app_assoc).
  rewrite E', load_mid by (rewrite ?length_app; lia). cbn [obind].
  destruct (stream_xor_total body (take 24 n) shared) as [c Ec]; [rewrite length_take; lia|done|].
  pose proof (stream_xor_length _ _ _ _ Ec) as Hc. rewrite Ec, save_mid by (rewrite ?length_app; lia). cbn [obind].
  rewrite bool_decide_true by lia. cbn [obind].
  replace ((h ++ n ++ p) ++ c ++ rest) with (h ++ (n ++ p ++ c) ++ rest) by (by rewrite <- !app_assoc).
  rewrite load_mid by (rewrite ?length_app; lia). cbn [obind].
  destruct (generichash_total 32 (n ++ p ++ c) shared) as [h' Eh]; [lia|by right|]. unfold hmac. rewrite Eh.
  destruct (generichash_length _ _ _ _ Eh) as [Hh' _].
  change (h ++ (n ++ p ++ c) ++ rest) with ([] ++ h ++ (n ++ p ++ c) ++ rest).
  rewrite save_mid by (done || lia). cbn [obind app]. eexists h', c, _. split; [reflexivity|]. split_and!; [|done|done].
  unfold frame_parts. cbn [ebuf esz]. rewrite <- !app_assoc. split_and!; [done|done|done|done|lia].
Qed.

(** Decryption accepts exactly the frames whose tag is right. *)
Lemma DoDecrypt_spec shared f h n p body rest : frame_parts f h n p body rest -> length shared = 32 ->
  exists h', hmac (n ++ p ++ body) shared = Some h'
    /\ if decide (h' = h) then exists t f', DoDecrypt shared f = Done (true, f')
           /\ frame_parts f' h n p t rest /\ stream_xor body (take 24 n) shared = Some t
       else DoDecrypt shared f = Done (false, f).
Proof.
  intros (E&Hh&Hn&Hp&Hz) Hk.
  destruct (generichash_total 32 (n ++ p ++ body) shared) as [h' Eh]; [lia|by right|]. exists h'. split; [done|].
  unfold DoDecrypt, tail_size, xchacha20, hmac.
  unfold SHORTHASHSIZE, TUNNONCESIZE, EncryptedFrameOverheadSize, PUBKEYSIZE, SHORTHASHSIZE, TUNNONCESIZE.
  assert (load (ebuf f) 0 32 = Done h) as -> by (rewrite E; by apply (load_mid [] h)).
  cbn [obind]. rewrite E, load_mid by lia. cbn [obind]. rewrite bool_decide_true by lia. cbn [obind].
  replace (h ++ n ++ p ++ body ++ rest) with (h ++ (n ++ p ++ body) ++ rest) by (by rewrite <- !app_assoc).
  rewrite load_mid by (rewrite ?length_app; lia). cbn [obind]. rewrite Eh.
  destruct (decide (h' = h)) as [Eq|Hne]; [rewrite bool_decide_true by done|by rewrite bool_decide_false by done].
  cbn [negb obind]. rewrite bool_decide_true by lia. cbn [obind].
  replace (h ++ (n ++ p ++ body) ++ rest) with ((h ++ n ++ p) ++ body ++ rest) by (by rewrite <- !app_assoc).
  rewrite load_mid by (rewrite ?length_app; lia). cbn [obind].
  destruct (stream_xor_total body (take 24 n) shared) as [t Et]; [rewrite length_take; lia|done|].
  pose proof (stream_xor_length _ _ _ _ Et) as Ht. rewrite Et, save_mid by (rewrite ?length_app; lia). cbn [obind].
  eexists t, _. split; [reflexivity|]. split; [|done].
  unfold frame_parts. cbn [ebuf esz]. rewrite <- !app_assoc. split_and!; [done|done|done|done|lia].
Qed.
End FrameLemmas.

Section FrameRoundtrip.
Context `{SodiumSpec}.

(** A frame encrypted to a key made by [encryption_keygen] and opened with it. *)
Lemma frame_roundtrip sk sk' f g : encryption_key sk -> encryption_key sk' ->
  is_Some (scalarmult (take 32 sk) (toPublic sk')) -> 96 <= esz f <= length (ebuf f) ->
  exists f' g', EncryptInPlace sk (toPublic sk') f g = Done (true, f', g')
    /\ esz f' = esz f /\ length (ebuf f') = length (ebuf f) /\ take 32 (drop 64 (ebuf f')) = toPublic sk
    /\ exists f'', DecryptInPlace sk' f' = Done (true, f'')
         /\ esz f'' = esz f /\ length (ebuf f'') = length (ebuf f) /\ drop 96 (ebuf f'') = drop 96 (ebuf f).
Proof.
  intros Hk Hk' Hs Hz. destruct (frame_parts_exist f Hz) as (h&n&p&body&rest&E&Hh&Hn&Hp&Hb).
  destruct (toPublic_key sk Hk) as [_ Hpl]. unfold EncryptInPlace, SHORTHASHSIZE, TUNNONCESIZE.
  rewrite E. replace (h ++ n ++ p ++ body ++ rest) with ((h ++ n) ++ p ++ body ++ rest) by (by rewrite <- !app_assoc).
  rewrite save_mid by (rewrite ?length_app; lia). cbn [obind]. rewrite <- app_assoc.
  unfold randbytes. pose proof (randombytes_length 32 g) as Hr. destruct (randombytes 32 g) as [nonce g']. cbn [fst] in Hr.
  rewrite save_mid by lia. cbn [obind]. destruct (dh_client_total (toPublic sk') sk nonce Hs) as (shared&Ed&Hsh). rewrite Ed.
  edestruct (DoEncrypt_spec shared (mkEncrypted (h ++ nonce ++ toPublic sk ++ body ++ rest) (esz f)) g')
    as (h'&c&f'&->&Hf'&Ec&Eh); [unfold frame_parts; cbn; by split_and!|done|].
  exists f', g'. pose proof Hf' as (E'&Hh'&_&_&Hz'). pose proof (stream_xor_length _ _ _ _ Ec) as Hc.
  split; [done|]. split; [lia|]. split; [rewrite E', !length_app; lia|]. split.
  { rewrite E'. replace (h' ++ nonce ++ toPublic sk ++ c ++ rest) with ((h' ++ nonce) ++ toPublic sk ++ c ++ rest)
      by (by rewrite <- !app_assoc). by rewrite drop_app_length', take_app_length' by (rewrite ?length_app; lia). }
  unfold DecryptInPlace, SHORTHASHSIZE, TUNNONCESIZE, PUBKEYSIZE. rewrite E', load_mid by lia. cbn [obind].
  replace (h' ++ nonce ++ toPublic sk ++ c ++ rest) with ((h' ++ nonce) ++ toPublic sk ++ c ++ rest) by (by rewrite <- !app_assoc).
  rewrite load_mid by (rewrite ?length_app; lia). cbn [obind]. rewrite <- (dh_agree sk sk' nonce Hk Hk'), Ed.
  destruct (DoDecrypt_spec shared f' _ _ _ _ _ Hf' Hsh) as (h''&Eh'&HD). rewrite Eh in Eh'. simplify_eq.
  rewrite decide_True in HD by done. destruct HD as (t&f''&->&(E''&_&_&_&Hz'')&Et).
  rewrite (stream_xor_inv _ _ _ _ Ec) in Et. injection Et as <-. exists f''. split; [done|]. split; [lia|].
  split; [rewrite E'', !length_app; lia|].
  rewrite E''. rewrite !app_assoc, <- (app_assoc _ body), <- (app_assoc _ body).
  by rewrite !drop_app_length' by (rewrite !length_app; lia).
Qed.

(** The variant for a shared secret: nonce and key field are random. *)
Lemma shared_roundtrip shared f g : length shared = 32 -> 96 <= esz f <= length (ebuf f) ->
  exists f' g', DoEncrypt shared true f g = Done (true, f', g')
    /\ esz f' = esz f /\ length (ebuf f') = length (ebuf f)
    /\ exists f'', DoDecrypt shared f' = Done (true, f'')
         /\ esz f'' = esz f /\ length (ebuf f'') = length (ebuf f) /\ drop 96 (ebuf f'') = drop 96 (ebuf f).
Proof.
  intros Hk Hz. destruct (frame_parts_exist f Hz) as (h&n&p&body&rest&E&Hh&Hn&Hp&Hb).
  assert (exists nonce noise g', DoEncrypt shared true f g
    = DoEncrypt shared false (mkEncrypted (h ++ nonce ++ noise ++ body ++ rest) (esz f)) g'
    /\ length nonce = 32 /\ length noise = 32) as (nonce&noise&g'&->&Hno&Hni).
  { unfold DoEncrypt at 1, randbytes, TUNNONCESIZE, PUBKEYSIZE, SHORTHASHSIZE.
    pose proof (randombytes_length 32 g) as H1. destruct (randombytes 32 g) as [nonce g1]. cbn [fst] in H1.
    pose proof (randombytes_length 32 g1) as H2. destruct (randombytes 32 g1) as [noise g2]. cbn [fst] in H2.
    exists nonce, noise, g2. rewrite E, save_mid by lia. cbn [obind].
    replace (h ++ nonce ++ p ++ body ++ rest) with ((h ++ nonce) ++ p ++ body ++ rest) by (by rewrite <- !app_assoc).
    rewrite save_mid by (rewrite ?length_app; lia). cbn [obind]. rewrite <- app_assoc. done. }
  edestruct (DoEncrypt_spec shared (mkEncrypted (h ++ nonce ++ noise ++ body ++ rest) (esz f)) g')
    as (h'&c&f'&->&Hf'&Ec&Eh); [unfold frame_parts; cbn; by split_and!|done|].
  exists f', g'. pose proof Hf' as (E'&Hh'&_&_&Hz'). pose proof (stream_xor_length _ _ _ _ Ec) as Hc.
  split; [done|]. split; [lia|]. split; [rewrite E', E, !length_app; lia|].
  destruct (DoDecrypt_spec shared f' _ _ _ _ _ Hf' Hk) as (h''&Eh'&HD). rewrite Eh in Eh'. simplify_eq.
  rewrite decide_True in HD by done. destruct HD as (t&f''&->&(E''&_&_&_&Hz'')&Et).
  rewrite (stream_xor_inv _ _ _ _ Ec) in Et. injection Et as <-. exists f''. split; [done|]. split; [lia|].
  split; [rewrite E'', E, !length_app; lia|].
  rewrite E'', E, !app_assoc, <- !(app_assoc _ body). by rewrite !drop_app_length' by (rewrite !length_app; lia).
Qed.
End FrameRoundtrip.

(** Keys of honest parties are no points of low order: the exchange succeeds. *)
Class SodiumHonest `{Sodium} : Prop := {
  scalarmult_honest s t : length s = 32 -> length t = 32 -> is_Some (scalarmult s (scalarmult_base t)) }.

(** [crypto_sign_detached] always succeeds, and the signature is accepted for the
    public half of the key. *)
Class SodiumSign `{Sodium} : Prop := {
  sign_total m sk : length sk = 64 -> is_Some (sign_detached m sk);
  sign_verifies m sk s : length sk = 64 -> sign_detached m sk = Some s -> length s = 64 /\ verify_detached s m (take 32 (drop 32 sk)) = true }.

(** ** A concrete instance

    A generator that counts, a polynomial hash, a one-byte key stream and
    multiplication modulo 2^256. *)
Definition toy_sodium : Sodium := {|
  rng := Z;
  randombytes n g := (replicate n (g mod 256)%Z, (g + 1)%Z);
  generichash n m k := Some (be_bytes n (fold_left (fun a b => (a * 257 + b + 1) mod 2 ^ 256)%Z (k ++ m) 7%Z));
  stream_xor t n k := Some (map (fun b => Z.lxor b (Z.of_nat (length k) + fold_left Z.add n 1 mod 256)%Z) t);
  scalarmult s p := Some (be_bytes 32 (be_value s * be_value p));
  scalarmult_base s := be_bytes 32 (be_value s * 9);
  sign_detached m sk := Some (be_bytes 64 (be_value m + be_value (drop 32 sk)));
  verify_detached sig m pk := bool_decide (sig = be_bytes 64 (be_value m + be_value pk)) |}.

Lemma toy_sodium_spec : @SodiumSpec toy_sodium.
Proof.
  split; intros; cbn [rng randombytes generichash stream_xor scalarmult scalarmult_base toy_sodium fst] in *.
  - apply length_replicate.
  - apply Forall_replicate. unfold is_byte. pose proof (Z.mod_pos_bound g 256). lia.
  - by eexists.
  - simplify_eq. split; [apply length_be_bytes|apply be_bytes_ok].
  - by eexists.
  - simplify_eq. apply length_map.
  - simplify_eq. f_equal. rewrite map_map. rewrite <- (map_id t) at 2. apply map_ext. intros b.
    by rewrite Z.lxor_assoc, Z.lxor_nilpotent, Z.lxor_0_r.
  - apply length_be_bytes.
  - simplify_eq. apply length_be_bytes.
  - f_equal. apply be_bytes_mod. rewrite !be_value_be_bytes_mod.
    rewrite !Zmult_mod_idemp_r. f_equal. lia.
Qed.

Lemma toy_honest : @SodiumHonest toy_sodium.
Proof. split. intros. by eexists. Qed.

Lemma toy_sign : @SodiumSign toy_sodium.
Proof.
  split; cbn [sign_detached verify_detached toy_sodium]; intros m sk; [by eexists|]. intros s Hl Es. apply (inj Some) in Es as <-. split; [apply length_be_bytes|]. rewrite take_ge by (rewrite length_drop; lia).
  by apply bool_decide_true.
Qed.

Definition toy_stream : @SodiumStream toy_sodium.
Proof.
  refine (@Build_SodiumStream toy_sodium
    (fun len n k => replicate len (Z.of_nat (length k) + fold_left Z.add n 1 mod 256)%Z) _ _).
  - intros len n k. apply length_replicate.
  - intros t n k _ _. cbn. f_equal. set (c := (_ + _)%Z). clearbody c.
    induction t as [|b t IH]; [done|]. cbn. by rewrite IH.
Defined.

(** ** Theorems *)

(** C29: onion frames round-trip.  For keys made by [encryption_keygen], a frame
    encrypted in place to a router's public key keeps its size, carries the
    sender's public key, and is decrypted in place by that router to the same
    body; neither direction accesses memory outside the frame. *)
Theorem encrypted_frame_roundtrip `{SodiumSpec} sk sk' f g : encryption_key sk -> encryption_key sk' ->
  is_Some (scalarmult (take 32 sk) (toPublic sk')) -> 96 <= esz f <= length (ebuf f) ->
  exists f' g', EncryptInPlace sk (toPublic sk') f g = Done (true, f', g')
    /\ esz f' = esz f /\ take 32 (drop 64 (ebuf f')) = toPublic sk
    /\ exists f'', DecryptInPlace sk' f' = Done (true, f'')
         /\ esz f'' = esz f /\ drop 96 (ebuf f'') = drop 96 (ebuf f).
Proof.
  intros Hk Hk' Hs Hz. destruct (frame_roundtrip sk sk' f g Hk Hk' Hs Hz) as (f'&g'&E&Ez&_&Ep&f''&E'&Ez'&_&Eb).
  exists f', g'. split_and!; [done|done|done|]. by exists f''.
Qed.

Lemma encrypted_frame_roundtrip_witness : exists f' g',
  @EncryptInPlace toy_sodium (be_bytes 32 3 ++ be_bytes 32 27) (be_bytes 32 45) (EncryptedFrame_new 4) 0%Z
  = Done (true, f', g') /\ esz f' = 100.
Proof.
  edestruct (@encrypted_frame_roundtrip toy_sodium toy_sodium_spec (be_bytes 32 3 ++ be_bytes 32 27)
    (be_bytes 32 5 ++ be_bytes 32 45) (EncryptedFrame_new 4) 0%Z) as (f'&g'&E&Hz&_).
  - split; vm_compute; reflexivity.
  - split; vm_compute; reflexivity.
  - by eexists.
  - split; apply Nat.leb_le; vm_compute; reflexivity.
  - exists f', g'. split; [exact E|]. rewrite Hz. vm_compute. reflexivity.
Defined.

(** C30: a frame is accepted exactly when its first 32 bytes are the keyed hash
    of the rest of the frame; a frame that fails the test is left as it was. *)
Theorem frame_accepted_iff_authentic `{SodiumSpec} shared f : length shared = 32 ->
  96 <= esz f <= length (ebuf f) ->
  exists b f', DoDecrypt shared f = Done (b, f')
    /\ (b = true <-> hmac (take (esz f - 32) (drop 32 (ebuf f))) shared = Some (take 32 (ebuf f)))
    /\ (b = false -> f' = f).
Proof.
  intros Hk Hz. destruct (frame_parts_exist f Hz) as (h&n&p&body&rest&Hf). pose proof Hf as (E&Hh&Hn&Hp&Hb).
  destruct (DoDecrypt_spec shared f _ _ _ _ _ Hf Hk) as (h'&Eh&HD).
  assert (take 32 (ebuf f) = h) as -> by (rewrite E; by apply take_app_length').
  assert (take (esz f - 32) (drop 32 (ebuf f)) = n ++ p ++ body) as ->.
  { rewrite E, drop_app_length' by done. rewrite !app_assoc. apply take_app_length'. rewrite !length_app. lia. }
  rewrite Eh. destruct (decide (h' = h)) as [->|Hne].
  - destruct HD as (t&f'&->&_). by exists true, f'.
  - rewrite HD. exists false, f. split; [done|]. split; [|done]. split; [done|]. congruence.
Qed.

Lemma frame_accepted_iff_authentic_witness :
  @DoDecrypt toy_sodium (replicate 32 1%Z) (EncryptedFrame_new 4) = Done (false, EncryptedFrame_new 4).
Proof.
  destruct (@frame_accepted_iff_authentic toy_sodium toy_sodium_spec (replicate 32 1%Z) (EncryptedFrame_new 4))
    as (b&f'&E&Hb&Hf); [reflexivity|split; apply Nat.leb_le; vm_compute; reflexivity|].
  destruct b; [|by rewrite E, Hf]. pose proof (proj1 Hb eq_refl) as Eh. vm_compute in Eh. discriminate.
Defined.

Lemma blob_decodes bufsz e b s rest : length (ebuf e) = bufsz -> length s <= bufsz -> (Z.of_nat bufsz < 10 ^ 9)%Z ->
  rem b = enc_str s ++ rest ->
  Encrypted_BDecode bufsz e b = Done (true, mkEncrypted (store (ebuf e) 0 s) (length s), advance (length (enc_str s)) b).
Proof.
  intros Hl Hs Hb Hr. unfold Encrypted_BDecode. rewrite (bencode_read_string_spec b _ rest Hr) by lia. cbn [obind].
  unfold sz. cbn [base]. rewrite bool_decide_false.
  2: { unfold sizeof_AlignedBuffer. pose proof (Nat.div_mod_eq (8 + bufsz + 15) 16).
       pose proof (Nat.mod_upper_bound (8 + bufsz + 15) 16). lia. }
  by rewrite save_done by lia.
Qed.

(** An encrypted blob written by [BEncode] is read back by [BDecode] into
    any array of the same capacity, and only the bytes in use change. *)
Theorem encrypted_codec_roundtrip bufsz e e' b rest : length (ebuf e) = bufsz -> length (ebuf e') = bufsz ->
  esz e <= bufsz -> (Z.of_nat bufsz < 10 ^ 9)%Z -> rem b = enc_str (take (esz e) (ebuf e)) ++ rest ->
  exists e'', Encrypted_BDecode bufsz e' b
    = Done (true, e'', advance (length (enc_str (take (esz e) (ebuf e)))) b)
    /\ Encrypted_eqb e e'' = true /\ drop (esz e) (ebuf e'') = drop (esz e) (ebuf e')
    /\ writes (Encrypted_BEncode e) (enc_str (take (esz e) (ebuf e))).
Proof.
  intros Hl Hl' Hz Hb Hr. assert (length (take (esz e) (ebuf e)) = esz e) as Ht by (rewrite length_take; lia).
  rewrite (blob_decodes bufsz e' b (take (esz e) (ebuf e)) rest Hl') by (done || lia). eexists. split; [reflexivity|].
  unfold Encrypted_eqb, store. cbn [ebuf esz]. rewrite Ht, take_0. cbn [app].
  rewrite bool_decide_true, take_app_length', bool_decide_true by done. split_and!; [done| |].
  - by rewrite drop_app_length' by done.
  - apply writes_bytestring. rewrite Ht. lia.
Qed.

Lemma encrypted_codec_roundtrip_witness : exists e'',
  Encrypted_BDecode 8 (mkEncrypted (replicate 8 9%Z) 0) (Buf [50; 58; 1; 2]%Z 0) = Done (true, e'', Buf [50; 58; 1; 2]%Z 4)
  /\ Encrypted_eqb (mkEncrypted [1; 2; 0; 0; 0; 0; 0; 0]%Z 2) e'' = true.
Proof.
  destruct (encrypted_codec_roundtrip 8 (mkEncrypted [1; 2; 0; 0; 0; 0; 0; 0]%Z 2) (mkEncrypted (replicate 8 9%Z) 0)
    (Buf [50; 58; 1; 2]%Z 0) []) as (e''&E&Hq&_); [reflexivity|reflexivity|cbn; lia|lia|reflexivity|].
  exists e''. split; [exact E|exact Hq].
Defined.

(** The size test of [BDecode] counts the whole object, so strings a little
    longer than the array are copied past its end. *)
Lemma bdecode_writes_past_array e b s rest : length (ebuf e) = EncryptedFrameSize ->
  EncryptedFrameSize < length s <= EncryptedFrameSize + 16 -> rem b = enc_str s ++ rest ->
  Encrypted_BDecode EncryptedFrameSize e b = Fault.
Proof.
  intros Hl Hs Hr. unfold Encrypted_BDecode.
  assert (EncryptedFrameSize = Z.to_nat 864) as E864 by (vm_compute; reflexivity).
  rewrite (bencode_read_string_spec b _ rest Hr) by lia. cbn [obind]. unfold sz. cbn [base].
  assert (sizeof_AlignedBuffer EncryptedFrameSize = EncryptedFrameSize + 16) as -> by (vm_compute; reflexivity).
  rewrite bool_decide_false by lia. unfold save. by rewrite bool_decide_false by lia.
Qed.

(** A frame shorter than its hash makes the unsigned size of the hashed part
    wrap around. *)
Lemma short_frame_underflows `{Sodium} shared f : 64 <= length (ebuf f) -> esz f < 32 -> DoDecrypt shared f = Fault.
Proof.
  intros Hl Hz. unfold DoDecrypt, SHORTHASHSIZE, TUNNONCESIZE. rewrite !load_done by lia. cbn [obind].
  unfold tail_size. by rewrite bool_decide_false by lia.
Qed.
