(* ===== verification/Iwp.v ===== *)
(** * IWP messages ([llarp/iwp/message_buffer.hpp], [message_buffer.cpp])

    IWP carries messages of up to eight fragments over an unreliable datagram
    link.  This file models the packets, the outbound message with its
    acknowledged fragments and the inbound message under reassembly.  Packets
    are byte lists in plaintext; times are milliseconds. *)

From S2P Require Import Prelude Buffer Crypto.
Open Scope Z_scope.

Inductive Command := ePING | eXMIT | eDATA | eACKS | eNACK | eMACK | eCLOS.
Definition command_byte (c : Command) : Z :=
  match c with
  | ePING => 0 | eXMIT => 1 | eDATA => 2 | eACKS => 3 | eNACK => 4 | eMACK => 5 | eCLOS => 0xff
  end.

Definition FragmentSize : Z := 1024.
Definition CommandOverhead : nat := 2.
Definition HMACSIZE : nat := 32.
Definition PacketOverhead : nat := HMACSIZE + TUNNONCESIZE.
Definition MAX_LINK_MSG_SIZE : Z := 8192.

Definition DeliveryTimeout : Z := 500.
Definition ReceivalTimeout : Z := DeliveryTimeout * 8 / 5.
Definition ReplayWindow : Z := ReceivalTimeout * 3 / 2.
Definition ACKResendInterval : Z := DeliveryTimeout / 2.
Definition TXFlushInterval : Z := DeliveryTimeout / 5 * 4.

Inductive DeliveryStatus := eDeliverySuccess | eDeliveryDropped.

(** [std::bitset<MAX_LINK_MSG_SIZE / FragmentSize>]: [test] and [set] throw, and
    [operator[]] is undefined, outside the set. *)
Definition acks_size : Z := MAX_LINK_MSG_SIZE / FragmentSize.
Definition acks_test (acks i : Z) : outcome bool :=
  if i <? acks_size then Done (Z.testbit acks i) else Fault.
Definition acks_set (acks i : Z) : outcome Z :=
  if i <? acks_size then Done (Z.lor acks (Z.shiftl 1 i)) else Fault.

(** [completed] handlers are opaque values of type [H]. *)
Record OutboundMessage (H : Type) := mkOutbound {
  o_Data : list Z;
  o_MsgID : Z;
  o_Acks : Z;
  o_Completed : option H;
  o_LastFlush : Z;
  o_Digest : list Z;
  o_StartedAt : Z;
  o_ResendPriority : Z }.
Arguments mkOutbound {H}.
Arguments o_Data {H}.
Arguments o_MsgID {H}.
Arguments o_Acks {H}.
Arguments o_Completed {H}.
Arguments o_LastFlush {H}.
Arguments o_Digest {H}.
Arguments o_StartedAt {H}.
Arguments o_ResendPriority {H}.

Record InboundMessage := mkInbound {
  i_Data : list Z;
  i_Digset : list Z;
  i_MsgID : Z;
  i_LastACKSent : Z;
  i_LastActiveAt : Z;
  i_Acks : Z }.

Section Packets.
Context `{Sodium}.

(** [ShortHash] starts out zero. *)
Definition short_hash (data : list Z) : list Z := default (replicate 32 0) (shorthash data).

Definition CreatePacket (cmd : Command) (plainsize minpad variance : nat) (g : rng) : list Z * rng :=
  let '(pad, g) :=
    if bool_decide (0 < minpad)%nat then
      if bool_decide (0 < variance)%nat then
        let '(r, g) := randint g in ((minpad + Z.to_nat (r mod Z.of_nat variance))%nat, g)
      else (minpad, g)
    else (0%nat, g) in
  let '(padding, g) := if bool_decide (pad = 0%nat) then ([], g) else randbytes pad g in
  let '(nonce, g) := randbytes TUNNONCESIZE g in
  (replicate HMACSIZE 0 ++ nonce ++ [proto_version; command_byte cmd] ++ replicate plainsize 0 ++ padding, g).

(** The default padding arguments. *)
Definition CreatePacket_padded cmd plainsize := CreatePacket cmd plainsize 16 16.
End Packets.

Section Outbound.
Context `{Sodium} `{Oxenc} {Hdl : Type}.
Implicit Types m : OutboundMessage Hdl.

Definition OutboundMessage_new (msgid : Z) (msg : list Z) (now : Z) (handler : option Hdl) (priority : Z)
  : OutboundMessage Hdl :=
  mkOutbound msg msgid (Z.lor 0 (Z.shiftl 1 0)) handler now (short_hash msg) now priority.

Definition data_size (d : list Z) : Z := Z.of_nat (length d).

Definition XMIT (m : OutboundMessage Hdl) (g : rng) : outcome (list Z * rng) :=
  let extra := Nat.min (length (o_Data m)) (Z.to_nat FragmentSize) in
  let '(xmit, g) := CreatePacket eXMIT (10 + 32 + extra) 0 0 g in
  let! xmit := save xmit (CommandOverhead + PacketOverhead) (write_host_as_big 2 (u16 (data_size (o_Data m)))) in
  let! xmit := save xmit (2 + CommandOverhead + PacketOverhead) (write_host_as_big 8 (o_MsgID m)) in
  let! xmit := save xmit (10 + CommandOverhead + PacketOverhead) (o_Digest m) in
  let! xmit := save xmit (10 + CommandOverhead + PacketOverhead + 32) (take extra (o_Data m)) in
  Done (xmit, g).

(** The handler is called, if there is one, and dropped. *)
Definition Completed (m : OutboundMessage Hdl) : OutboundMessage Hdl * option (Hdl * DeliveryStatus) :=
  (mkOutbound (o_Data m) (o_MsgID m) (o_Acks m) None (o_LastFlush m) (o_Digest m) (o_StartedAt m) (o_ResendPriority m),
   h ← o_Completed m; Some (h, eDeliverySuccess)).
Definition InformTimeout (m : OutboundMessage Hdl) : OutboundMessage Hdl * option (Hdl * DeliveryStatus) :=
  (mkOutbound (o_Data m) (o_MsgID m) (o_Acks m) None (o_LastFlush m) (o_Digest m) (o_StartedAt m) (o_ResendPriority m),
   h ← o_Completed m; Some (h, eDeliveryDropped)).

Definition ShouldFlush (m : OutboundMessage Hdl) (now : Z) : bool := TXFlushInterval <=? now - o_LastFlush m.

Definition Ack (m : OutboundMessage Hdl) (bitmask : Z) : OutboundMessage Hdl :=
  mkOutbound (o_Data m) (o_MsgID m) bitmask (o_Completed m) (o_LastFlush m) (o_Digest m) (o_StartedAt m) (o_ResendPriority m).

(** The DATA packet of the fragment at [idx]. *)
Definition fragment_packet (m : OutboundMessage Hdl) (idx : Z) (g : rng) : outcome (list Z * rng) :=
  let datasz := data_size (o_Data m) in
  let fragsz := Z.to_nat (if idx + FragmentSize <? datasz then FragmentSize else datasz - idx) in
  let '(frag, g) := CreatePacket eDATA (fragsz + 10) 0 0 g in
  let! frag := save frag (2 + PacketOverhead) (write_host_as_big 2 idx) in
  let! frag := save frag (4 + PacketOverhead) (write_host_as_big 8 (o_MsgID m)) in
  let! frag := save frag (PacketOverhead + 10 + 2) (take fragsz (drop (Z.to_nat idx) (o_Data m))) in
  Done (frag, g).

(** The loop of [FlushUnAcked]; [idx] is 16 bits wide.  The result is the list of
    packets passed to [sendpkt]. *)
Fixpoint flush_loop (fuel : nat) (m : OutboundMessage Hdl) (idx : Z) (g : rng) : outcome (list (list Z) * rng) :=
  match fuel with
  | O => Timeout
  | S fuel =>
      if idx <? data_size (o_Data m) then
        let! acked := acks_test (o_Acks m) (idx / FragmentSize) in
        if acked then flush_loop fuel m (u16 (idx + FragmentSize)) g
        else
          let! (frag, g) := fragment_packet m idx g in
          let! (frags, g) := flush_loop fuel m (u16 (idx + FragmentSize)) g in
          Done (frag :: frags, g)
      else Done ([], g)
  end.
(** The ninth fragment is outside the set of acknowledgements, so nine rounds
    and the final test are all the loop can run. *)
Definition flush_fuel : nat := 10.

Definition FlushUnAcked (m : OutboundMessage Hdl) (now : Z) (g : rng)
  : outcome (list (list Z) * OutboundMessage Hdl * rng) :=
  let! (pkts, g) := flush_loop flush_fuel m 0 g in
  Done (pkts, mkOutbound (o_Data m) (o_MsgID m) (o_Acks m) (o_Completed m) now (o_Digest m) (o_StartedAt m) (o_ResendPriority m), g).

Fixpoint transmitted_loop (fuel : nat) (m : OutboundMessage Hdl) (idx : Z) : outcome bool :=
  match fuel with
  | O => Timeout
  | S fuel =>
      if idx <? data_size (o_Data m) then
        let! acked := acks_test (o_Acks m) (idx / FragmentSize) in
        if acked then transmitted_loop fuel m (u16 (idx + FragmentSize)) else Done false
      else Done true
  end.
Definition IsTransmitted (m : OutboundMessage Hdl) : outcome bool := transmitted_loop flush_fuel m 0.

Definition Outbound_IsTimedOut (m : OutboundMessage Hdl) (now : Z) : bool :=
  (o_StartedAt m <? now) && (DeliveryTimeout <? now - o_StartedAt m).

(** [operator<]: higher priority first, then the order of sending. *)
Definition Outbound_ltb (a b : OutboundMessage Hdl) : bool :=
  (- o_ResendPriority a <? - o_ResendPriority b)
  || ((- o_ResendPriority a =? - o_ResendPriority b) && (o_MsgID a <? o_MsgID b)).
End Outbound.

Section Inbound.
Context `{Sodium} `{Oxenc}.
Implicit Types m : InboundMessage.

Definition InboundMessage_new (msgid sz : Z) (h : list Z) (now : Z) : InboundMessage :=
  mkInbound (replicate (Z.to_nat sz) 0) h msgid 0 now 0.

Definition HandleData (m : InboundMessage) (idx : Z) (buf : list Z) (now : Z) : outcome InboundMessage :=
  if data_size (i_Data m) <? idx + data_size buf then Done m
  else
    let! data := save (i_Data m) (Z.to_nat idx) buf in
    let! acks := acks_set (i_Acks m) (idx / FragmentSize) in
    Done (mkInbound data (i_Digset m) (i_MsgID m) (i_LastACKSent m) now acks).

Definition AcksBitmask (m : InboundMessage) : Z := u8 (i_Acks m).

Definition ACKS (m : InboundMessage) (g : rng) : outcome (list Z * rng) :=
  let '(acks, g) := CreatePacket_padded eACKS 9 g in
  let! acks := save acks (CommandOverhead + PacketOverhead) (write_host_as_big 8 (i_MsgID m)) in
  let! acks := save acks (PacketOverhead + 10) [AcksBitmask m] in
  Done (acks, g).

Fixpoint completed_loop (fuel : nat) (m : InboundMessage) (idx : Z) : outcome bool :=
  match fuel with
  | O => Timeout
  | S fuel =>
      if idx <? data_size (i_Data m) then
        let! acked := acks_test (i_Acks m) (idx / FragmentSize) in
        if acked then completed_loop fuel m (idx + FragmentSize) else Done false
      else Done true
  end.
Definition IsCompleted (m : InboundMessage) : outcome bool := completed_loop flush_fuel m 0.

Definition ShouldSendACKS (m : InboundMessage) (now : Z) : bool := i_LastACKSent m + ACKResendInterval <? now.
Definition Inbound_IsTimedOut (m : InboundMessage) (now : Z) : bool :=
  (i_LastActiveAt m <? now) && (DeliveryTimeout <? now - i_LastActiveAt m).

Definition SendACKS (m : InboundMessage) (now : Z) (g : rng) : outcome (list Z * InboundMessage * rng) :=
  let! (acks, g) := ACKS m g in
  Done (acks, mkInbound (i_Data m) (i_Digset m) (i_MsgID m) now (i_LastActiveAt m) (i_Acks m), g).

Definition Verify (m : InboundMessage) : bool := bool_decide (short_hash (i_Data m) = i_Digset m).
End Inbound.

(** ** Fragments *)

(** Fragment [k] of a message and the number of fragments. *)
Definition frag (d : list Z) (k : nat) : list Z := take 1024 (drop (1024 * k) d).
Definition nfrags (d : list Z) : nat := (length d + 1023) / 1024.
Definition frag_idx (k : nat) : Z := 1024 * Z.of_nat k.

Lemma nfrags_lt d k : (k < nfrags d)%nat <-> (1024 * k < length d)%nat.
Proof.
  unfold nfrags. pose proof (Nat.div_mod_eq (length d + 1023) 1024).
  pose proof (Nat.mod_upper_bound (length d + 1023) 1024). lia.
Qed.

Lemma nfrags_le d k : (nfrags d <= k)%nat <-> (length d <= 1024 * k)%nat.
Proof. pose proof (nfrags_lt d k). lia. Qed.

Lemma frag_idx_div k : frag_idx k / FragmentSize = Z.of_nat k.
Proof. unfold frag_idx, FragmentSize. rewrite Z.mul_comm. by apply Z.div_mul. Qed.

Lemma length_frag d k : (k < nfrags d)%nat -> length (frag d k) = Nat.min 1024 (length d - 1024 * k).
Proof. intros Hk. unfold frag. rewrite length_take, length_drop. lia. Qed.

Lemma frag_idx_next k : (k < 8)%nat -> u16 (frag_idx k + FragmentSize) = frag_idx (S k).
Proof.
  intros Hk. unfold frag_idx, FragmentSize. rewrite wrap_small; unfold in_width; lia.
Qed.

(** A message is its fragments. *)
Lemma frag_lookup d k j : (j < 1024)%nat -> frag d k !! j = d !! (1024 * k + j)%nat.
Proof. intros Hj. unfold frag. by rewrite lookup_take_lt, lookup_drop by done. Qed.

Lemma frags_determine d d' : length d' = length d ->
  (forall k, (k < nfrags d)%nat -> frag d' k = frag d k) -> d' = d.
Proof.
  intros Hl Hf. apply list_eq. intros i.
  destruct (decide (i < length d)%nat) as [Hi|Hi]; [|by rewrite !lookup_ge_None_2 by lia].
  pose proof (Nat.div_mod_eq i 1024) as E. pose proof (Nat.mod_upper_bound i 1024 ltac:(lia)).
  rewrite E, <- !frag_lookup, Hf by (rewrite ?nfrags_lt; lia). done.
Qed.

Lemma acks_set_spec acks k : 0 <= acks -> (k < 8)%nat ->
  exists acks', acks_set acks (Z.of_nat k) = Done acks' /\ 0 <= acks'
    /\ forall j, Z.testbit acks' (Z.of_nat j) = bool_decide (j = k) || Z.testbit acks (Z.of_nat j).
Proof.
  intros Ha Hk. unfold acks_set, acks_size, MAX_LINK_MSG_SIZE, FragmentSize.
  rewrite (proj2 (Z.ltb_lt (Z.of_nat k) (8192 / 1024))) by (change (8192 / 1024) with 8; lia).
  eexists. split; [done|]. split; [apply Z.lor_nonneg; split; [done|apply Z.shiftl_nonneg; lia]|].
  intros j. rewrite Z.lor_spec, orb_comm, Z.shiftl_1_l, Z.pow2_bits_eqb by lia. f_equal.
  apply eq_true_iff_eq. rewrite Z.eqb_eq, bool_decide_eq_true. lia.
Qed.

Lemma acks_test_spec acks k : (k < 8)%nat -> acks_test acks (Z.of_nat k) = Done (Z.testbit acks (Z.of_nat k)).
Proof.
  intros Hk. unfold acks_test, acks_size, MAX_LINK_MSG_SIZE, FragmentSize.
  by rewrite (proj2 (Z.ltb_lt (Z.of_nat k) (8192 / 1024))) by (change (8192 / 1024) with 8; lia).
Qed.

(** ** Reassembly *)

Lemma lookup_store_cases l p bs i : (p + length bs <= length l)%nat ->
  store l p bs !! i = if decide (p <= i < p + length bs)%nat then bs !! (i - p)%nat else l !! i.
Proof.
  intros Hp. unfold store. destruct (decide _) as [Hi|Hi].
  - rewrite lookup_app_r, length_take by (rewrite length_take; lia). rewrite Nat.min_l by lia.
    by rewrite lookup_app_l by lia.
  - destruct (decide (i < p)%nat) as [Hlt|Hge].
    + by rewrite lookup_app_l, lookup_take_lt by (rewrite ?length_take; lia).
    + rewrite lookup_app_r, length_take by (rewrite length_take; lia). rewrite Nat.min_l by lia.
      rewrite lookup_app_r, lookup_drop by lia. f_equal. lia.
Qed.

Lemma frag_store l d k j : length l = length d -> (k = 0 \/ k < nfrags d)%nat ->
  frag (store l (1024 * k) (frag d k)) j = if decide (j = k) then frag d k else frag l j.
Proof.
  intros Hl Hk. assert (1024 * k <= length d)%nat by (rewrite nfrags_lt in Hk; lia).
  assert (length (frag d k) = Nat.min 1024 (length d - 1024 * k)) as Hf by (unfold frag; rewrite length_take, length_drop; lia).
  apply list_eq. intros i. destruct (decide (i < 1024)%nat) as [Hi|Hi].
  - rewrite frag_lookup, lookup_store_cases by lia. destruct (decide (j = k)) as [->|Hn].
    + destruct (decide _) as [Hin|Hout]; [f_equal; lia|].
      rewrite (lookup_ge_None_2 (frag d k)), lookup_ge_None_2 by lia. done.
    + rewrite decide_False by lia. by rewrite frag_lookup by lia.
  - rewrite lookup_ge_None_2 by (unfold frag; rewrite length_take; lia). symmetry. apply lookup_ge_None_2.
    destruct (decide (j = k)); unfold frag; rewrite length_take; lia.
Qed.

(** [m] is an inbound copy of the message [d]: same size, and the fragments it
    has acknowledged are those of [d]. *)
Definition copy_of (d : list Z) (m : InboundMessage) : Prop :=
  length (i_Data m) = length d /\ 0 <= i_Acks m
  /\ forall k, (k < nfrags d)%nat -> Z.testbit (i_Acks m) (Z.of_nat k) = true -> frag (i_Data m) k = frag d k.

Lemma copy_of_new d msgid h now : data_size d < 2 ^ 16 -> copy_of d (InboundMessage_new msgid (data_size d) h now).
Proof.
  intros Hd. unfold copy_of, InboundMessage_new, data_size. cbn [i_Data i_Acks]. rewrite length_replicate, Nat2Z.id.
  split_and!; [done|done|]. intros k _ Hb. by rewrite Z.bits_0 in Hb.
Qed.

Lemma HandleData_frag d m k now : data_size d <= MAX_LINK_MSG_SIZE -> copy_of d m -> (k = 0 \/ k < nfrags d)%nat ->
  exists m', HandleData m (frag_idx k) (frag d k) now = Done m' /\ copy_of d m'
    /\ i_Digset m' = i_Digset m /\ i_MsgID m' = i_MsgID m /\ i_LastActiveAt m' = now
    /\ forall j, Z.testbit (i_Acks m') (Z.of_nat j) = bool_decide (j = k) || Z.testbit (i_Acks m) (Z.of_nat j).
Proof.
  unfold data_size, MAX_LINK_MSG_SIZE. intros Hd (Hl&Ha&Hf) Hk.
  assert (1024 * k <= length d)%nat by (rewrite nfrags_lt in Hk; lia).
  assert (k < 8)%nat by (rewrite nfrags_lt in Hk; lia).
  assert (length (frag d k) = Nat.min 1024 (length d - 1024 * k)) as Hfl by (unfold frag; rewrite length_take, length_drop; lia).
  unfold HandleData, data_size. rewrite (proj2 (Z.ltb_ge _ _)) by (unfold frag_idx; lia).
  assert (Z.to_nat (frag_idx k) = 1024 * k)%nat as -> by (unfold frag_idx; lia).
  rewrite save_done by lia. cbn [obind]. rewrite frag_idx_div.
  destruct (acks_set_spec (i_Acks m) k Ha ltac:(lia)) as (acks'&->&Ha'&Hb). cbn [obind].
  eexists. split; [reflexivity|]. cbn [i_Digset i_MsgID i_LastActiveAt i_Acks]. split_and!; [|done|done|done|exact Hb].
  unfold copy_of. cbn [i_Data i_Acks]. rewrite length_store by lia. split_and!; [done|done|].
  intros j Hj Ht. rewrite frag_store by done. destruct (decide (j = k)) as [->|Hn]; [done|].
  rewrite Hb, bool_decide_false in Ht by done. by apply Hf.
Qed.

Lemma completed_loop_spec m k fuel : data_size (i_Data m) <= MAX_LINK_MSG_SIZE ->
  (k <= nfrags (i_Data m))%nat -> (nfrags (i_Data m) - k < fuel)%nat ->
  completed_loop fuel m (frag_idx k)
  = Done (forallb (fun j => Z.testbit (i_Acks m) (Z.of_nat j)) (seq k (nfrags (i_Data m) - k))).
Proof.
  unfold data_size, MAX_LINK_MSG_SIZE. intros Hd. revert k. induction fuel as [|fuel IH]; intros k Hk Hf; [lia|].
  cbn [completed_loop]. unfold data_size. destruct (Z.ltb_spec (frag_idx k) (Z.of_nat (length (i_Data m)))) as [Hlt|Hge].
  - assert (k < nfrags (i_Data m))%nat as Hkn by (apply nfrags_lt; unfold frag_idx in Hlt; lia).
    assert (k < 8)%nat by (unfold frag_idx in Hlt; lia).
    rewrite frag_idx_div, acks_test_spec by lia. cbn [obind].
    replace (nfrags (i_Data m) - k)%nat with (S (nfrags (i_Data m) - S k)) by lia. cbn [seq forallb].
    destruct (Z.testbit (i_Acks m) (Z.of_nat k)); [|done].
    replace (frag_idx k + FragmentSize) with (frag_idx (S k)) by (unfold frag_idx, FragmentSize; lia).
    rewrite IH by lia. done.
  - assert (nfrags (i_Data m) <= k)%nat by (apply nfrags_le; unfold frag_idx in Hge; lia).
    by replace (nfrags (i_Data m) - k)%nat with 0%nat by lia.
Qed.

Lemma IsCompleted_spec m : data_size (i_Data m) <= MAX_LINK_MSG_SIZE ->
  IsCompleted m = Done (forallb (fun j => Z.testbit (i_Acks m) (Z.of_nat j)) (seq 0 (nfrags (i_Data m)))).
Proof.
  intros Hd. assert (nfrags (i_Data m) <= 8)%nat as Hn.
  { apply nfrags_le. unfold data_size, MAX_LINK_MSG_SIZE in Hd. lia. }
  unfold IsCompleted. change 0 with (frag_idx 0) at 1. rewrite completed_loop_spec; [|done|lia|unfold flush_fuel; lia].
  by rewrite Nat.sub_0_r.
Qed.

(** A complete copy is the message. *)
Lemma copy_complete d m : data_size d <= MAX_LINK_MSG_SIZE -> copy_of d m -> IsCompleted m = Done true -> i_Data m = d.
Proof.
  intros Hd (Hl&_&Hf) Hc. rewrite IsCompleted_spec in Hc by (unfold data_size in *; lia).
  injection Hc as Hc. rewrite forallb_forall in Hc. apply frags_determine; [done|]. intros k Hk.
  apply Hf; [done|]. apply Hc, in_seq. unfold nfrags in *. rewrite Hl. lia.
Qed.

(** ** Packets on the wire *)

(** A plaintext packet with a given body after the command byte. *)
Definition is_packet (cmd : Command) (body p : list Z) : Prop :=
  exists nonce, length nonce = 32%nat
    /\ p = (replicate 32 0 ++ nonce ++ [proto_version; command_byte cmd]) ++ body.

Definition xmit_body (d : list Z) (msgid : Z) (digest : list Z) : list Z :=
  be_bytes 2 (data_size d) ++ be_bytes 8 msgid ++ digest ++ frag d 0.
Definition data_body (d : list Z) (msgid : Z) (k : nat) : list Z :=
  be_bytes 2 (frag_idx k) ++ be_bytes 8 msgid ++ frag d k.

Section Wire.
Context `{SodiumSpec} `{OxencSpec} {Hdl : Type}.

Lemma header_length nonce cmd : length nonce = 32%nat ->
  length (replicate 32 0 ++ nonce ++ [proto_version; command_byte cmd]) = (CommandOverhead + PacketOverhead)%nat.
Proof. intros Hn. rewrite !length_app, length_replicate, Hn. reflexivity. Qed.

Lemma CreatePacket_unpadded cmd n g : exists nonce g', length nonce = 32%nat
  /\ CreatePacket cmd n 0 0 g = ((replicate 32 0 ++ nonce ++ [proto_version; command_byte cmd]) ++ replicate n 0, g').
Proof.
  unfold CreatePacket, randbytes. rewrite bool_decide_false by lia. rewrite bool_decide_true by done.
  pose proof (randombytes_length TUNNONCESIZE g) as Hn. destruct (randombytes TUNNONCESIZE g) as [nonce g'].
  exists nonce, g'. split; [exact Hn|]. by rewrite app_nil_r, <- !app_assoc.
Qed.

Lemma CreatePacket_padding cmd n g : exists nonce pad g', length nonce = 32%nat
  /\ CreatePacket_padded cmd n g
     = ((replicate 32 0 ++ nonce ++ [proto_version; command_byte cmd]) ++ replicate n 0 ++ pad, g').
Proof.
  unfold CreatePacket_padded, CreatePacket, randbytes. rewrite !bool_decide_true by lia.
  destruct (randint g) as [r g1]. rewrite bool_decide_false by lia.
  destruct (randombytes (16 + _) g1) as [pad g2].
  pose proof (randombytes_length TUNNONCESIZE g2) as Hn. destruct (randombytes TUNNONCESIZE g2) as [nonce g'].
  exists nonce, pad, g'. split; [exact Hn|]. by rewrite <- !app_assoc.
Qed.

(** Filling the zeros of a packet from the front. *)
Lemma save_next a n m bs off : off = length a -> n = (length bs + m)%nat ->
  save (a ++ replicate n 0) off bs = Done ((a ++ bs) ++ replicate m 0).
Proof.
  intros -> ->. rewrite replicate_add, save_mid by (done || by rewrite length_replicate). by rewrite app_assoc.
Qed.

Lemma XMIT_spec (m : OutboundMessage Hdl) g : data_size (o_Data m) < 2 ^ 16 -> length (o_Digest m) = 32%nat ->
  exists p g', XMIT m g = Done (p, g') /\ is_packet eXMIT (xmit_body (o_Data m) (o_MsgID m) (o_Digest m)) p.
Proof.
  intros Hd Hg. unfold XMIT. set (extra := Nat.min (length (o_Data m)) (Z.to_nat FragmentSize)).
  destruct (CreatePacket_unpadded eXMIT (10 + 32 + extra) g) as (nonce&g'&Hn&->).
  pose proof (header_length nonce eXMIT Hn) as Hh. set (A := replicate 32 0 ++ nonce ++ _) in *. rewrite !write_host_as_big_spec.
  rewrite (save_next _ _ (40 + extra)) by (rewrite ?length_be_bytes; lia). cbn [obind].
  rewrite (save_next _ _ (32 + extra)) by (rewrite ?length_app, ?length_be_bytes; lia). cbn [obind].
  rewrite (save_next _ _ extra) by (rewrite ?length_app, ?length_be_bytes; lia). cbn [obind].
  assert (length (take extra (o_Data m)) = extra) as He by (rewrite length_take; lia).
  rewrite (save_next _ _ 0) by (rewrite ?length_app, ?length_be_bytes; lia). cbn [obind replicate].
  eexists _, g'. split; [reflexivity|]. exists nonce. split; [done|]. fold A. rewrite app_nil_r. unfold xmit_body.
  rewrite wrap_small by (unfold in_width, data_size in *; lia). rewrite <- !app_assoc. do 4 f_equal.
  unfold frag, extra. change (1024 * 0)%nat with 0%nat. rewrite drop_0. destruct (decide (length (o_Data m) <= 1024)%nat).
  - rewrite !take_ge by (unfold FragmentSize; lia). done.
  - f_equal. unfold FragmentSize. lia.
Qed.

Lemma fragment_packet_spec (m : OutboundMessage Hdl) k g : data_size (o_Data m) <= MAX_LINK_MSG_SIZE ->
  (k < nfrags (o_Data m))%nat ->
  exists p g', fragment_packet m (frag_idx k) g = Done (p, g') /\ is_packet eDATA (data_body (o_Data m) (o_MsgID m) k) p.
Proof.
  unfold data_size, MAX_LINK_MSG_SIZE. intros Hd Hk. pose proof (length_frag _ _ Hk) as Hf. apply nfrags_lt in Hk.
  unfold fragment_packet, data_size.
  set (fragsz := Z.to_nat (if frag_idx k + FragmentSize <? Z.of_nat (length (o_Data m)) then FragmentSize
    else Z.of_nat (length (o_Data m)) - frag_idx k)).
  assert (fragsz = length (frag (o_Data m) k)) as Hs.
  { rewrite Hf. unfold fragsz, FragmentSize, frag_idx. destruct (Z.ltb_spec (1024 * Z.of_nat k + 1024) (Z.of_nat (length (o_Data m)))); lia. }
  destruct (CreatePacket_unpadded eDATA (fragsz + 10) g) as (nonce&g'&Hn&->).
  pose proof (header_length nonce eDATA Hn) as Hh. set (A := replicate 32 0 ++ nonce ++ _) in *. rewrite !write_host_as_big_spec. unfold CommandOverhead in Hh.
  rewrite (save_next _ _ (fragsz + 8)) by (rewrite ?length_be_bytes; lia). cbn [obind].
  rewrite (save_next _ _ fragsz) by (rewrite ?length_app, ?length_be_bytes; lia). cbn [obind].
  replace (take fragsz (drop (Z.to_nat (frag_idx k)) (o_Data m))) with (frag (o_Data m) k).
  2: { unfold frag at 1. replace (Z.to_nat (frag_idx k)) with (1024 * k)%nat by (unfold frag_idx; lia).
       rewrite Hs, Hf. destruct (decide (1024 <= length (o_Data m) - 1024 * k)%nat).
       - by rewrite Nat.min_l by lia.
       - rewrite !take_ge by (rewrite length_drop; lia). done. }
  rewrite (save_next _ _ 0) by (rewrite ?length_app, ?length_be_bytes; lia). cbn [obind replicate].
  eexists _, g'. split; [reflexivity|]. exists nonce. split; [done|]. fold A. by rewrite app_nil_r, <- !app_assoc.
Qed.

Definition unacked (m : OutboundMessage Hdl) (k : nat) : bool := negb (Z.testbit (o_Acks m) (Z.of_nat k)).

Lemma flush_loop_spec (m : OutboundMessage Hdl) fuel : data_size (o_Data m) <= MAX_LINK_MSG_SIZE ->
  forall k g, (k <= nfrags (o_Data m))%nat -> (nfrags (o_Data m) - k < fuel)%nat ->
  exists pkts g', flush_loop fuel m (frag_idx k) g = Done (pkts, g')
    /\ Forall2 (fun j p => is_packet eDATA (data_body (o_Data m) (o_MsgID m) j) p)
         (List.filter (unacked m) (seq k (nfrags (o_Data m) - k))) pkts.
Proof.
  intros Hd. induction fuel as [|fuel IH]; intros k g Hk Hf; [lia|]. cbn [flush_loop].
  destruct (Z.ltb_spec (frag_idx k) (data_size (o_Data m))) as [Hlt|Hge].
  - assert (k < nfrags (o_Data m))%nat as Hkn by (apply nfrags_lt; unfold frag_idx, data_size in Hlt; lia).
    assert (k < 8)%nat by (unfold frag_idx, MAX_LINK_MSG_SIZE in *; lia).
    rewrite frag_idx_div, acks_test_spec, frag_idx_next by lia. cbn [obind].
    replace (nfrags (o_Data m) - k)%nat with (S (nfrags (o_Data m) - S k)) by lia. cbn [seq List.filter].
    unfold unacked at 1. destruct (Z.testbit (o_Acks m) (Z.of_nat k)); cbn [negb]; [apply IH; lia|].
    destruct (fragment_packet_spec m k g Hd Hkn) as (p&g1&->&Hp). cbn [obind].
    destruct (IH (S k) g1 ltac:(lia) ltac:(lia)) as (pkts&g2&->&Hps). cbn [obind].
    eexists _, _. split; [reflexivity|]. by constructor.
  - assert (nfrags (o_Data m) <= k)%nat by (apply nfrags_le; unfold frag_idx, data_size in Hge; lia).
    replace (nfrags (o_Data m) - k)%nat with 0%nat by lia. eexists _, _. split; [done|]. constructor.
Qed.

Lemma nfrags_bound d : data_size d <= MAX_LINK_MSG_SIZE -> (nfrags d <= 8)%nat.
Proof. intros Hd. apply nfrags_le. unfold data_size, MAX_LINK_MSG_SIZE in Hd. lia. Qed.

Lemma FlushUnAcked_spec (m : OutboundMessage Hdl) now g : data_size (o_Data m) <= MAX_LINK_MSG_SIZE ->
  exists pkts m' g', FlushUnAcked m now g = Done (pkts, m', g')
    /\ Forall2 (fun j p => is_packet eDATA (data_body (o_Data m) (o_MsgID m) j) p)
         (List.filter (unacked m) (seq 0 (nfrags (o_Data m)))) pkts
    /\ m' = mkOutbound (o_Data m) (o_MsgID m) (o_Acks m) (o_Completed m) now (o_Digest m) (o_StartedAt m) (o_ResendPriority m).
Proof.
  intros Hd. pose proof (nfrags_bound _ Hd). unfold FlushUnAcked. change 0 with (frag_idx 0).
  destruct (flush_loop_spec m flush_fuel Hd 0%nat g) as (pkts&g'&->&Hp); [lia|unfold flush_fuel; lia|].
  rewrite Nat.sub_0_r in Hp. cbn [obind]. by eexists _, _, _.
Qed.

Lemma transmitted_loop_spec (m : OutboundMessage Hdl) fuel : data_size (o_Data m) <= MAX_LINK_MSG_SIZE ->
  forall k, (k <= nfrags (o_Data m))%nat -> (nfrags (o_Data m) - k < fuel)%nat ->
  transmitted_loop fuel m (frag_idx k)
  = Done (forallb (fun j => Z.testbit (o_Acks m) (Z.of_nat j)) (seq k (nfrags (o_Data m) - k))).
Proof.
  intros Hd. induction fuel as [|fuel IH]; intros k Hk Hf; [lia|]. cbn [transmitted_loop].
  destruct (Z.ltb_spec (frag_idx k) (data_size (o_Data m))) as [Hlt|Hge].
  - assert (k < nfrags (o_Data m))%nat as Hkn by (apply nfrags_lt; unfold frag_idx, data_size in Hlt; lia).
    assert (k < 8)%nat by (unfold frag_idx, MAX_LINK_MSG_SIZE in *; lia).
    rewrite frag_idx_div, acks_test_spec, frag_idx_next by lia. cbn [obind].
    replace (nfrags (o_Data m) - k)%nat with (S (nfrags (o_Data m) - S k)) by lia. cbn [seq forallb].
    destruct (Z.testbit (o_Acks m) (Z.of_nat k)); [|done]. rewrite IH by lia. done.
  - assert (nfrags (o_Data m) <= k)%nat by (apply nfrags_le; unfold frag_idx, data_size in Hge; lia).
    by replace (nfrags (o_Data m) - k)%nat with 0%nat by lia.
Qed.

Lemma IsTransmitted_spec (m : OutboundMessage Hdl) : data_size (o_Data m) <= MAX_LINK_MSG_SIZE ->
  IsTransmitted m = Done (forallb (fun j => Z.testbit (o_Acks m) (Z.of_nat j)) (seq 0 (nfrags (o_Data m)))).
Proof.
  intros Hd. pose proof (nfrags_bound _ Hd). unfold IsTransmitted. change 0 with (frag_idx 0) at 1.
  rewrite transmitted_loop_spec; [|done|lia|unfold flush_fuel; lia]. by rewrite Nat.sub_0_r.
Qed.

(** The acknowledgement packet carries the message id and the bit mask. *)
Lemma ACKS_spec m g : exists p g' pad, ACKS m g = Done (p, g')
  /\ is_packet eACKS (be_bytes 8 (i_MsgID m) ++ [AcksBitmask m] ++ pad) p.
Proof.
  unfold ACKS. destruct (CreatePacket_padding eACKS 9 g) as (nonce&pad&g'&Hn&->).
  pose proof (header_length nonce eACKS Hn) as Hh. set (A := replicate 32 0 ++ nonce ++ _) in *.
  rewrite write_host_as_big_spec. change (replicate 9 0) with (replicate 8 0 ++ [0]). rewrite <- app_assoc.
  rewrite save_mid by (rewrite ?length_be_bytes; done). cbn [obind].
  rewrite (app_assoc A), save_mid; [|rewrite length_app, length_be_bytes, Hh; reflexivity|done]. cbn [obind].
  eexists _, g', pad. split; [reflexivity|]. exists nonce. split; [done|]. fold A. by rewrite <- !app_assoc.
Qed.
End Wire.

(** ** Theorems *)

(** Fragments of [d] arriving at given times. *)
Fixpoint receive_frags (d : list Z) (m : InboundMessage) (l : list (nat * Z)) : outcome InboundMessage :=
  match l with
  | [] => Done m
  | (k, now) :: l => let! m := HandleData m (frag_idx k) (frag d k) now in receive_frags d m l
  end.

Lemma receive_frags_spec d l : data_size d <= MAX_LINK_MSG_SIZE -> Forall (fun x => (x.1 < nfrags d)%nat) l ->
  forall m, copy_of d m -> exists m', receive_frags d m l = Done m' /\ copy_of d m'
    /\ i_Digset m' = i_Digset m /\ i_MsgID m' = i_MsgID m
    /\ forall k, Z.testbit (i_Acks m') (Z.of_nat k) = bool_decide (k ∈ l.*1) || Z.testbit (i_Acks m) (Z.of_nat k).
Proof.
  intros Hd. induction 1 as [|[k now] l Hk _ IH]; intros m Hm; cbn [receive_frags].
  - exists m. split_and!; [done|done|done|done|]. intros k. by rewrite bool_decide_false by apply not_elem_of_nil.
  - destruct (HandleData_frag d m k now Hd Hm (or_intror Hk)) as (m1&->&Hm1&E1&E2&_&Hb). cbn [obind].
    destruct (IH m1 Hm1) as (m'&->&Hm'&E3&E4&Hb'). exists m'. split_and!; [done|done|congruence|congruence|].
    intros j. rewrite Hb', Hb, fmap_cons, orb_assoc. f_equal. cbn [fst].
    apply eq_true_iff_eq. rewrite orb_true_iff, !bool_decide_eq_true, elem_of_cons. tauto.
Qed.

Lemma completed_iff d m : data_size d <= MAX_LINK_MSG_SIZE -> copy_of d m ->
  IsCompleted m = Done true <-> forall k, (k < nfrags d)%nat -> Z.testbit (i_Acks m) (Z.of_nat k) = true.
Proof.
  intros Hd (Hl&_). rewrite IsCompleted_spec by (unfold data_size in *; lia).
  assert (nfrags (i_Data m) = nfrags d) as -> by (unfold nfrags; by rewrite Hl). split.
  - intros E k Hk. injection E as E. rewrite forallb_forall in E. apply E, in_seq. lia.
  - intros Hk. f_equal. apply forallb_forall. intros k Hin. apply in_seq in Hin. apply Hk. lia.
Qed.

Lemma u8_testbit v k : (k < 8)%nat -> Z.testbit (u8 v) (Z.of_nat k) = Z.testbit v (Z.of_nat k).
Proof. intros Hk. unfold wrap. apply Z.mod_pow2_bits_low. lia. Qed.

(** C12: reassembly.  For every message that fits the link, and every sequence
    of arrivals of its fragments (any order, repetitions and losses), the
    receiver is complete exactly when every fragment has arrived, its content
    is then the message and passes the digest test, and the mask it
    acknowledges with names exactly the fragments it has. *)
Theorem reassembly_correct `{Sodium} d msgid now l : data_size d <= MAX_LINK_MSG_SIZE ->
  Forall (fun x => (x.1 < nfrags d)%nat) l ->
  exists m, receive_frags d (InboundMessage_new msgid (data_size d) (short_hash d) now) l = Done m
    /\ (IsCompleted m = Done true <-> forall k, (k < nfrags d)%nat -> k ∈ l.*1)
    /\ (IsCompleted m = Done true -> i_Data m = d /\ Verify m = true)
    /\ (forall k, (k < nfrags d)%nat -> Z.testbit (AcksBitmask m) (Z.of_nat k) = bool_decide (k ∈ l.*1)).
Proof.
  intros Hd Hl. assert (data_size d < 2 ^ 16) as Hs by (unfold MAX_LINK_MSG_SIZE in Hd; lia).
  destruct (receive_frags_spec d l Hd Hl _ (copy_of_new d msgid (short_hash d) now Hs)) as (m&Em&Hm&Eh&_&Hb).
  exists m. split; [done|].
  assert (forall k, Z.testbit (i_Acks m) (Z.of_nat k) = bool_decide (k ∈ l.*1)) as Hb'.
  { intros k. rewrite Hb. cbn. by rewrite Z.bits_0, orb_false_r. }
  split_and!.
  - rewrite (completed_iff d m Hd Hm). setoid_rewrite Hb'. by setoid_rewrite bool_decide_eq_true.
  - intros Hc. pose proof (copy_complete d m Hd Hm Hc) as E. split; [done|].
    unfold Verify. rewrite E, Eh. by apply bool_decide_true.
  - intros k Hk. unfold AcksBitmask. rewrite u8_testbit by (pose proof (nfrags_bound d Hd); lia). apply Hb'.
Qed.

Lemma reassembly_correct_witness : exists m,
  receive_frags (replicate 1030 7)
    (InboundMessage_new 5 (data_size (replicate 1030 7)) (@short_hash toy_sodium (replicate 1030 7)) 0)
    [(1%nat, 3); (0%nat, 4); (1%nat, 9)] = Done m /\ i_Data m = replicate 1030 7.
Proof.
  assert (nfrags (replicate 1030 7) = 2%nat) as En by (vm_compute; reflexivity).
  destruct (@reassembly_correct toy_sodium (replicate 1030 7) 5 0 [(1%nat, 3); (0%nat, 4); (1%nat, 9)])
    as (m&E&Hc&Hv&_).
  - apply Z.leb_le. vm_compute. reflexivity.
  - rewrite En. repeat constructor.
  - exists m. split; [exact E|]. apply Hv, Hc. rewrite En. clear. intros k Hk.
    apply list_elem_of_In. cbn. lia.
Defined.

(** C13: retransmission.  A sender that takes over the mask of an incomplete
    receiver sends, in DATA packets, exactly the fragments the receiver lacks;
    when these arrive the receiver is complete and holds the message. *)
Theorem retransmission_completes `{SodiumSpec} `{OxencSpec} {Hdl} (m : OutboundMessage Hdl) r now now' g :
  data_size (o_Data m) <= MAX_LINK_MSG_SIZE -> copy_of (o_Data m) r ->
  exists ks pkts m' g', FlushUnAcked (Ack m (AcksBitmask r)) now g = Done (pkts, m', g')
    /\ Forall2 (fun k p => is_packet eDATA (data_body (o_Data m) (o_MsgID m) k) p) ks pkts
    /\ (forall k, k ∈ ks <-> (k < nfrags (o_Data m))%nat /\ Z.testbit (i_Acks r) (Z.of_nat k) = false)
    /\ o_LastFlush m' = now
    /\ exists r', receive_frags (o_Data m) r (map (fun k => (k, now')) ks) = Done r'
         /\ IsCompleted r' = Done true /\ i_Data r' = o_Data m.
Proof.
  intros Hd Hr. destruct (FlushUnAcked_spec (Ack m (AcksBitmask r)) now g Hd) as (pkts&m'&g'&E&Hp&->).
  set (ks := List.filter (unacked (Ack m (AcksBitmask r))) (seq 0 (nfrags (o_Data m)))).
  assert (forall k, k ∈ ks <-> (k < nfrags (o_Data m))%nat /\ Z.testbit (i_Acks r) (Z.of_nat k) = false) as Hks.
  { intros k. unfold ks. rewrite list_elem_of_In, filter_In, in_seq. unfold unacked. cbn [Ack o_Acks].
    rewrite negb_true_iff. unfold AcksBitmask. pose proof (nfrags_bound _ Hd). split.
    - intros [Hk Hb]. rewrite u8_testbit in Hb by lia. split; [lia|done].
    - intros [Hk Hb]. rewrite u8_testbit by lia. split; [lia|done]. }
  exists ks, pkts. eexists _, g'. split; [exact E|]. split; [exact Hp|]. split; [exact Hks|]. split; [done|].
  destruct (receive_frags_spec (o_Data m) (map (fun k => (k, now')) ks) Hd) with (m := r) as (r'&Er&Hr'&_&_&Hb); [|done|].
  { apply Forall_forall. intros [k t] Hin. apply list_elem_of_In, in_map_iff in Hin as (k'&[= -> ->]&Hin).
    cbn. by apply Hks, list_elem_of_In. }
  exists r'. split; [exact Er|]. assert (IsCompleted r' = Done true) as Hc.
  { apply (completed_iff (o_Data m) r' Hd Hr'). intros k Hk. rewrite Hb.
    destruct (Z.testbit (i_Acks r) (Z.of_nat k)) eqn:Eb; [by rewrite orb_true_r|].
    rewrite bool_decide_true; [done|]. apply list_elem_of_In, in_map_iff. exists (k, now').
    split; [done|]. apply in_map_iff. exists k. split; [done|]. by apply list_elem_of_In, Hks. }
  split; [exact Hc|]. by apply (copy_complete (o_Data m) r').
Qed.

Lemma retransmission_completes_witness : exists ks r',
  receive_frags [1; 2; 3] (InboundMessage_new 5 3 [] 0) (map (fun k => (k, 10)) ks) = Done r' /\ i_Data r' = [1; 2; 3].
Proof.
  destruct (@retransmission_completes toy_sodium toy_sodium_spec be_oxenc be_oxenc_spec unit
    (@OutboundMessage_new toy_sodium unit 5 [1; 2; 3] 0 None 0) (InboundMessage_new 5 3 [] 0) 9 10 0) as (ks&_&_&_&_&_&_&_&r'&E&_&Hr).
  - cbn. unfold data_size, MAX_LINK_MSG_SIZE. cbn. lia.
  - apply (copy_of_new [1; 2; 3]). unfold data_size. cbn. lia.
  - exists ks, r'. split; [exact E|exact Hr].
Defined.

(** The receiver accepts any announced size of 16 bits, but its bit set has room
    for eight fragments: a fragment beyond them leaves [HandleData] by an
    exception. *)
Lemma fragment_beyond_acks_throws m idx buf now :
  MAX_LINK_MSG_SIZE <= idx -> idx + data_size buf <= data_size (i_Data m) -> HandleData m idx buf now = Fault.
Proof.
  unfold MAX_LINK_MSG_SIZE. intros Hi Hs. unfold HandleData. rewrite (proj2 (Z.ltb_ge _ _)) by lia.
  unfold data_size in *. rewrite save_done by lia. cbn [obind]. unfold acks_set.
  rewrite (proj2 (Z.ltb_ge _ _)); [done|]. unfold acks_size, MAX_LINK_MSG_SIZE, FragmentSize.
  apply Z.div_le_lower_bound; change (8192 / 1024) with 8; lia.
Qed.

(** [ReceivalTimeout] is documented as the time a message is waited for, but
    inbound messages are dropped after the shorter [DeliveryTimeout]. *)
Lemma inbound_timeout_is_delivery_timeout m now : i_LastActiveAt m = 0 -> DeliveryTimeout < now <= ReceivalTimeout ->
  Inbound_IsTimedOut m now = true.
Proof.
  unfold Inbound_IsTimedOut, ReceivalTimeout, DeliveryTimeout. intros -> Hn. change (500 * 8 / 5) with 800 in Hn.
  apply andb_true_iff. split; apply Z.ltb_lt; lia.
Qed.
