(* ===== verification/IwpSession.v ===== *)
(** * IWP sessions ([llarp/iwp/session.hpp], [session.cpp])

    A session authenticates two routers to each other and carries messages in
    both directions over datagrams.  Its state is one record, grouped as the
    class groups its members; every handler is a function on that record.  The
    calls a session makes on its parent link layer are recorded, in order, in
    the list of events.  Times are milliseconds. *)

From S2P Require Import Prelude Buffer Crypto Iwp.
Open Scope Z_scope.

(** ** Data *)

Definition PingInterval : Z := 5000.
Definition SessionAliveTimeout : Z := PingInterval * 5.
Definition DefaultLinkSessionLifetime : Z := 300000.
Definition LinkLayerConnectTimeout : Z := 5000.
Definition MaxSendQueueSize : Z := 1024 * 16.
Definition MaxACKSInMACK : nat := 1024 / 8.
Definition PlaintextQueueSize : nat := 512.

Inductive State := Initial | Introduction | LinkIntro | Ready | Closed.

#[export] Instance State_eq_dec : EqDecision State.
Proof. solve_decision. Defined.

(** What sessions read of a router contact. *)
Record RouterContact := mkRC { pubkey : list Z; has_version : bool; addrs : list (list Z) }.
Definition IsPublicRouter (rc : RouterContact) : bool :=
  if negb (has_version rc) then false else negb (bool_decide (addrs rc = [])).

(** The completion handlers: the one [GotOutboundLIM] passes to [SendOurLIM], and
    the callers'. *)
Inductive Handler := LIMSent | User (n : Z).

(** Calls on the parent link layer, the event loop and the handlers. *)
Inductive Event :=
| SendTo_LL (pkt : list Z)
| HandleMessage (data : list Z)
| HandlerCalled (n : Z) (st : DeliveryStatus)
| MapAddr (pk : list Z)
| UnmapAddr
| SessionEstablished (inbound : bool)
| SessionRenegotiate (new old : RouterContact)
| TriggerPump
| WakeupPlaintext
| QueueEncrypt (pkts : list (list Z))
| QueueDecrypt (pkts : list (list Z)).

(** The function bound to [GotLIM]. *)
Inductive LIMHandler := GotInboundLIM_fn | GotOutboundLIM_fn | GotRenegLIM_fn.

Record SessionStats := mkStats {
  currentRateRX : Z;
  currentRateTX : Z;
  totalPacketsRX : Z;
  totalAckedTX : Z;
  totalDroppedTX : Z;
  totalInFlightTX : Z }.
Definition set_currentRateRX (v : Z) (x : SessionStats) : SessionStats :=
  mkStats v (currentRateTX x) (totalPacketsRX x) (totalAckedTX x) (totalDroppedTX x) (totalInFlightTX x).
Definition set_currentRateTX (v : Z) (x : SessionStats) : SessionStats :=
  mkStats (currentRateRX x) v (totalPacketsRX x) (totalAckedTX x) (totalDroppedTX x) (totalInFlightTX x).
Definition set_totalPacketsRX (v : Z) (x : SessionStats) : SessionStats :=
  mkStats (currentRateRX x) (currentRateTX x) v (totalAckedTX x) (totalDroppedTX x) (totalInFlightTX x).
Definition set_totalAckedTX (v : Z) (x : SessionStats) : SessionStats :=
  mkStats (currentRateRX x) (currentRateTX x) (totalPacketsRX x) v (totalDroppedTX x) (totalInFlightTX x).
Definition set_totalDroppedTX (v : Z) (x : SessionStats) : SessionStats :=
  mkStats (currentRateRX x) (currentRateTX x) (totalPacketsRX x) (totalAckedTX x) v (totalInFlightTX x).
Definition set_totalInFlightTX (v : Z) (x : SessionStats) : SessionStats :=
  mkStats (currentRateRX x) (currentRateTX x) (totalPacketsRX x) (totalAckedTX x) (totalDroppedTX x) v.

(** Handshake state. *)
Record Handshake := mkHandshake {
  m_State : State;
  m_RemoteRC : RouterContact;
  m_SessionKey : list Z;
  token : list Z;
  m_ExpectedIdent : list Z;
  m_RemoteOnionKey : list Z;
  GotLIM_bound : LIMHandler;
  m_SentClosed : bool }.
Definition hs_m_State (v : State) (x : Handshake) : Handshake :=
  mkHandshake v (m_RemoteRC x) (m_SessionKey x) (token x) (m_ExpectedIdent x) (m_RemoteOnionKey x) (GotLIM_bound x) (m_SentClosed x).
Definition hs_m_RemoteRC (v : RouterContact) (x : Handshake) : Handshake :=
  mkHandshake (m_State x) v (m_SessionKey x) (token x) (m_ExpectedIdent x) (m_RemoteOnionKey x) (GotLIM_bound x) (m_SentClosed x).
Definition hs_m_SessionKey (v : list Z) (x : Handshake) : Handshake :=
  mkHandshake (m_State x) (m_RemoteRC x) v (token x) (m_ExpectedIdent x) (m_RemoteOnionKey x) (GotLIM_bound x) (m_SentClosed x).
Definition hs_token (v : list Z) (x : Handshake) : Handshake :=
  mkHandshake (m_State x) (m_RemoteRC x) (m_SessionKey x) v (m_ExpectedIdent x) (m_RemoteOnionKey x) (GotLIM_bound x) (m_SentClosed x).
Definition hs_m_ExpectedIdent (v : list Z) (x : Handshake) : Handshake :=
  mkHandshake (m_State x) (m_RemoteRC x) (m_SessionKey x) (token x) v (m_RemoteOnionKey x) (GotLIM_bound x) (m_SentClosed x).
Definition hs_m_RemoteOnionKey (v : list Z) (x : Handshake) : Handshake :=
  mkHandshake (m_State x) (m_RemoteRC x) (m_SessionKey x) (token x) (m_ExpectedIdent x) v (GotLIM_bound x) (m_SentClosed x).
Definition hs_GotLIM_bound (v : LIMHandler) (x : Handshake) : Handshake :=
  mkHandshake (m_State x) (m_RemoteRC x) (m_SessionKey x) (token x) (m_ExpectedIdent x) (m_RemoteOnionKey x) v (m_SentClosed x).
Definition hs_m_SentClosed (v : bool) (x : Handshake) : Handshake :=
  mkHandshake (m_State x) (m_RemoteRC x) (m_SessionKey x) (token x) (m_ExpectedIdent x) (m_RemoteOnionKey x) (GotLIM_bound x) v.

(** Times, rates and statistics. *)
Record Accounting := mkAccounting {
  m_Stats : SessionStats;
  m_LastTX : Z;
  m_LastRX : Z;
  m_TXRate : Z;
  m_RXRate : Z;
  m_ResetRatesAt : Z }.
Definition ac_m_Stats (v : SessionStats) (x : Accounting) : Accounting :=
  mkAccounting v (m_LastTX x) (m_LastRX x) (m_TXRate x) (m_RXRate x) (m_ResetRatesAt x).
Definition ac_m_LastTX (v : Z) (x : Accounting) : Accounting :=
  mkAccounting (m_Stats x) v (m_LastRX x) (m_TXRate x) (m_RXRate x) (m_ResetRatesAt x).
Definition ac_m_LastRX (v : Z) (x : Accounting) : Accounting :=
  mkAccounting (m_Stats x) (m_LastTX x) v (m_TXRate x) (m_RXRate x) (m_ResetRatesAt x).
Definition ac_m_TXRate (v : Z) (x : Accounting) : Accounting :=
  mkAccounting (m_Stats x) (m_LastTX x) (m_LastRX x) v (m_RXRate x) (m_ResetRatesAt x).
Definition ac_m_RXRate (v : Z) (x : Accounting) : Accounting :=
  mkAccounting (m_Stats x) (m_LastTX x) (m_LastRX x) (m_TXRate x) v (m_ResetRatesAt x).
Definition ac_m_ResetRatesAt (v : Z) (x : Accounting) : Accounting :=
  mkAccounting (m_Stats x) (m_LastTX x) (m_LastRX x) (m_TXRate x) (m_RXRate x) v.

(** Messages in transfer; [m_SendMACKs] is kept in ascending order. *)
Record Transfer := mkTransfer {
  m_TXID : Z;
  m_RXMsgs : gmap Z InboundMessage;
  m_TXMsgs : gmap Z (OutboundMessage Handler);
  m_ReplayFilter : gmap Z Z;
  m_SendMACKs : list Z }.
Definition tr_m_TXID (v : Z) (x : Transfer) : Transfer :=
  mkTransfer v (m_RXMsgs x) (m_TXMsgs x) (m_ReplayFilter x) (m_SendMACKs x).
Definition tr_m_RXMsgs (v : gmap Z InboundMessage) (x : Transfer) : Transfer :=
  mkTransfer (m_TXID x) v (m_TXMsgs x) (m_ReplayFilter x) (m_SendMACKs x).
Definition tr_m_TXMsgs (v : gmap Z (OutboundMessage Handler)) (x : Transfer) : Transfer :=
  mkTransfer (m_TXID x) (m_RXMsgs x) v (m_ReplayFilter x) (m_SendMACKs x).
Definition tr_m_ReplayFilter (v : gmap Z Z) (x : Transfer) : Transfer :=
  mkTransfer (m_TXID x) (m_RXMsgs x) (m_TXMsgs x) v (m_SendMACKs x).
Definition tr_m_SendMACKs (v : list Z) (x : Transfer) : Transfer :=
  mkTransfer (m_TXID x) (m_RXMsgs x) (m_TXMsgs x) (m_ReplayFilter x) v.

(** Packets on the way to and from the worker threads. *)
Record Queues := mkQueues {
  m_EncryptNext : list (list Z);
  m_DecryptNext : list (list Z);
  m_PlaintextEmpty : bool;
  m_PlaintextRecv : list (list (list Z)) }.
Definition qu_m_EncryptNext (v : list (list Z)) (x : Queues) : Queues :=
  mkQueues v (m_DecryptNext x) (m_PlaintextEmpty x) (m_PlaintextRecv x).
Definition qu_m_DecryptNext (v : list (list Z)) (x : Queues) : Queues :=
  mkQueues (m_EncryptNext x) v (m_PlaintextEmpty x) (m_PlaintextRecv x).
Definition qu_m_PlaintextEmpty (v : bool) (x : Queues) : Queues :=
  mkQueues (m_EncryptNext x) (m_DecryptNext x) v (m_PlaintextRecv x).
Definition qu_m_PlaintextRecv (v : list (list (list Z))) (x : Queues) : Queues :=
  mkQueues (m_EncryptNext x) (m_DecryptNext x) (m_PlaintextEmpty x) v.

(** What a session asks its parent link layer.  [encode_LIM N] is the signed link
    introduction with nonce [N], [None] when signing or encoding fails;
    [decode_LIM] is the contact of a link introduction whose signatures verify. *)
Record LinkParent := mkParent {
  our_pubkey : list Z;
  TransportSecretKey : list Z;
  RouterEncryptionSecret : list Z;
  parent_Sign : list Z -> list Z;
  encode_LIM : list Z -> option (list Z);
  decode_LIM : list Z -> option RouterContact }.

(** One call into the session: the loop time, the system clock, and whether the
    link layer already has a session to the peer ([MapAddr] then closes this one). *)
Record Env := mkEnv { Now : Z; time_now_ms : Z; too_many_sessions : bool }.

Section Session.
Context `{Sodium} `{Oxenc} (p : LinkParent).

Record Session := mkSession {
  m_Inbound : bool;
  m_CreatedAt : Z;
  m_ChosenAI : list Z;
  hs : Handshake;
  ac : Accounting;
  tr : Transfer;
  qu : Queues;
  rnd : rng;
  events : list Event }.

Definition on_hs (f : Handshake -> Handshake) (s : Session) : Session :=
  mkSession (m_Inbound s) (m_CreatedAt s) (m_ChosenAI s) (f (hs s)) (ac s) (tr s) (qu s) (rnd s) (events s).
Definition on_ac (f : Accounting -> Accounting) (s : Session) : Session :=
  mkSession (m_Inbound s) (m_CreatedAt s) (m_ChosenAI s) (hs s) (f (ac s)) (tr s) (qu s) (rnd s) (events s).
Definition on_tr (f : Transfer -> Transfer) (s : Session) : Session :=
  mkSession (m_Inbound s) (m_CreatedAt s) (m_ChosenAI s) (hs s) (ac s) (f (tr s)) (qu s) (rnd s) (events s).
Definition on_qu (f : Queues -> Queues) (s : Session) : Session :=
  mkSession (m_Inbound s) (m_CreatedAt s) (m_ChosenAI s) (hs s) (ac s) (tr s) (f (qu s)) (rnd s) (events s).
Definition set_rnd (g : rng) (s : Session) : Session :=
  mkSession (m_Inbound s) (m_CreatedAt s) (m_ChosenAI s) (hs s) (ac s) (tr s) (qu s) g (events s).
Definition emit (e : Event) (s : Session) : Session :=
  mkSession (m_Inbound s) (m_CreatedAt s) (m_ChosenAI s) (hs s) (ac s) (tr s) (qu s) (rnd s) (events s ++ [e]).
Definition on_stats (f : SessionStats -> SessionStats) : Session -> Session :=
  on_ac (fun a => ac_m_Stats (f (m_Stats a)) a).
Definition set_State (st : State) : Session -> Session := on_hs (hs_m_State st).

(** ** Encryption *)

(** One round of [EncryptWorker]; the results of the cipher and the hash are not tested. *)
Definition encrypt_packet (key pkt : list Z) : outcome (list Z) :=
  let! nonce := load pkt HMACSIZE TUNNONCESIZE in
  let! body := load pkt PacketOverhead (length pkt - PacketOverhead) in
  let! pkt := save pkt PacketOverhead (default body (xchacha20 body key nonce)) in
  let! msg := load pkt HMACSIZE (length pkt - HMACSIZE) in
  match hmac msg key with
  | Some h => save pkt 0 h
  | None => Done pkt
  end.

Definition Send_LL (e : Env) (pkt : list Z) (s : Session) : Session :=
  on_ac (fun a => ac_m_TXRate (u64 (m_TXRate a + data_size pkt)) (ac_m_LastTX (time_now_ms e) a)) (emit (SendTo_LL pkt) s).

Fixpoint EncryptWorker (e : Env) (msgs : list (list Z)) (s : Session) : outcome Session :=
  match msgs with
  | [] => Done s
  | pkt :: msgs =>
      let! pkt := encrypt_packet (m_SessionKey (hs s)) pkt in
      EncryptWorker e msgs (Send_LL e pkt s)
  end.

Definition IsEstablished (s : Session) : bool := bool_decide (m_State (hs s) = Ready).

Definition EncryptAndSend (e : Env) (data : list Z) (s : Session) : outcome Session :=
  let s := on_qu (fun q => qu_m_EncryptNext (m_EncryptNext q ++ [data]) q) s in
  let s := emit TriggerPump s in
  if negb (IsEstablished s) then
    let! s := EncryptWorker e (m_EncryptNext (qu s)) s in
    Done (on_qu (qu_m_EncryptNext []) s)
  else Done s.

Fixpoint EncryptAndSend_all (e : Env) (pkts : list (list Z)) (s : Session) : outcome Session :=
  match pkts with
  | [] => Done s
  | pkt :: pkts => let! s := EncryptAndSend e pkt s in EncryptAndSend_all e pkts s
  end.

(** [None] when the packet is rejected. *)
Definition DecryptMessageInPlace (key pkt : list Z) : outcome (option (list Z)) :=
  if bool_decide (length pkt <= PacketOverhead)%nat then Done None
  else
    let! msg := load pkt 32 (length pkt - 32) in
    match hmac msg key with
    | None => Done None
    | Some h =>
        let! expected := load pkt 0 32 in
        if negb (bool_decide (h = expected)) then Done None
        else
          let! nonce := load pkt 32 32 in
          let! body := load pkt 64 (length pkt - 64) in
          match xchacha20 body key nonce with
          | None => Done None
          | Some t => let! pkt := save pkt 64 t in Done (Some pkt)
          end
    end.

(** ** Sending *)

Definition Close (e : Env) (s : Session) : outcome Session :=
  if bool_decide (m_State (hs s) = Closed) then Done s
  else
    let '(close_msg, g) := CreatePacket eCLOS 0 16 16 (rnd s) in
    let s := set_State Closed (emit UnmapAddr (set_rnd g s)) in
    if m_SentClosed (hs s) then Done s
    else EncryptAndSend e close_msg (on_hs (hs_m_SentClosed true) s).

(** [ILinkLayer::MapAddr] of this session. *)
Definition MapAddr_call (e : Env) (s : Session) : outcome Session :=
  let s := emit (MapAddr (pubkey (m_RemoteRC (hs s)))) s in
  if too_many_sessions e then Close e s else Done s.

(** A completion handler is called with the status of the delivery. *)
Definition run_handler (e : Env) (c : option (Handler * DeliveryStatus)) (s : Session) : outcome Session :=
  match c with
  | None => Done s
  | Some (User n, st) => Done (emit (HandlerCalled n st) s)
  | Some (LIMSent, eDeliverySuccess) =>
      let! s := MapAddr_call e (set_State Ready s) in
      Done (emit (SessionEstablished false) s)
  | Some (LIMSent, eDeliveryDropped) => Done s
  end.

Definition put_TX (txid : Z) (msg : OutboundMessage Handler) : Session -> Session :=
  on_tr (fun t => tr_m_TXMsgs (<[txid := msg]> (m_TXMsgs t)) t).
Definition erase_TX (txid : Z) : Session -> Session :=
  on_tr (fun t => tr_m_TXMsgs (delete txid (m_TXMsgs t)) t).
Definition put_RX (rxid : Z) (msg : InboundMessage) : Session -> Session :=
  on_tr (fun t => tr_m_RXMsgs (<[rxid := msg]> (m_RXMsgs t)) t).
Definition erase_RX (rxid : Z) : Session -> Session :=
  on_tr (fun t => tr_m_RXMsgs (delete rxid (m_RXMsgs t)) t).

(** [m_TXMsgs.emplace] does nothing when the id is taken, which takes 2^64 messages. *)
Definition SendMessageBuffer (e : Env) (buf : list Z) (completed : option Handler) (priority : Z) (s : Session)
  : outcome (bool * Session) :=
  if MaxSendQueueSize <=? Z.of_nat (size (m_TXMsgs (tr s))) then
    let! s := run_handler e (h ← completed; Some (h, eDeliveryDropped)) s in Done (false, s)
  else
    let msgid := m_TXID (tr s) in
    let s := on_tr (fun t => tr_m_TXID (u64 (msgid + 1)) t) s in
    let msg := default (OutboundMessage_new msgid buf (Now e) completed priority) (m_TXMsgs (tr s) !! msgid) in
    let s := emit TriggerPump (put_TX msgid msg s) in
    let! (xmit, g) := XMIT msg (rnd s) in
    let! s := EncryptAndSend e xmit (set_rnd g s) in
    let! s :=
      if FragmentSize <? data_size buf then
        let! (pkts, msg, g) := FlushUnAcked msg (Now e) (rnd s) in
        EncryptAndSend_all e pkts (put_TX msgid msg (set_rnd g s))
      else Done s in
    Done (true, on_stats (fun x => set_totalInFlightTX (u64 (totalInFlightTX x + 1)) x) s).

Definition SendOurLIM (e : Env) (h : option Handler) (s : Session) : outcome Session :=
  let '(N, g) := randombytes 32 (rnd s) in
  let s := set_rnd g s in
  match encode_LIM p N with
  | None => Done s
  | Some data => let! (_, s) := SendMessageBuffer e data h 0 s in Done s
  end.

(** [std::priority_queue::emplace] on the ascending queue of ids. *)
Fixpoint mack_insert (id : Z) (l : list Z) : list Z :=
  match l with
  | [] => [id]
  | x :: l => if id <=? x then id :: x :: l else x :: mack_insert id l
  end.
Definition emplace_MACK (id : Z) : Session -> Session :=
  on_tr (fun t => tr_m_SendMACKs (mack_insert id (m_SendMACKs t)) t).

Fixpoint save_ids (ids : list Z) (pkt : list Z) (ptr : nat) : outcome (list Z) :=
  match ids with
  | [] => Done pkt
  | id :: ids => let! pkt := save pkt ptr (write_host_as_big 8 id) in save_ids ids pkt (ptr + 8)
  end.

Definition mack_packet (ids : list Z) (g : rng) : outcome (list Z * rng) :=
  let '(mack, g) := CreatePacket_padded eMACK (1 + length ids * 8) g in
  let! mack := save mack (PacketOverhead + CommandOverhead) [u8 (data_size ids)] in
  let! mack := save_ids ids mack (3 + PacketOverhead) in
  Done (mack, g).

(** Every round takes at least one id off the queue. *)
Fixpoint send_macks (fuel : nat) (e : Env) (s : Session) : outcome Session :=
  match m_SendMACKs (tr s), fuel with
  | [], _ => Done s
  | _, O => Timeout
  | ids, S fuel =>
      let numAcks := Nat.min (length ids) MaxACKSInMACK in
      let! (mack, g) := mack_packet (take numAcks ids) (rnd s) in
      let! s := EncryptAndSend e mack (on_tr (tr_m_SendMACKs (drop numAcks ids)) (set_rnd g s)) in
      send_macks fuel e s
  end.
Definition SendMACK (e : Env) (s : Session) : outcome Session := send_macks (length (m_SendMACKs (tr s))) e s.

Definition SendKeepAlive (e : Env) (s : Session) : outcome (bool * Session) :=
  if bool_decide (m_State (hs s) = Ready) then
    let '(ping, g) := CreatePacket_padded ePING 0 (rnd s) in
    let! s := EncryptAndSend e ping (set_rnd g s) in Done (true, s)
  else Done (false, s).

Definition ShouldPing (e : Env) (s : Session) : bool :=
  if bool_decide (m_State (hs s) = Ready) then PingInterval <? Now e - m_LastTX (ac s) else false.

(** ** Link introductions *)

Definition GotInboundLIM (e : Env) (rc : RouterContact) (s : Session) : outcome Session :=
  if negb (bool_decide (pubkey rc = m_ExpectedIdent (hs s))) then Done s
  else
    let s := on_hs (fun h => hs_m_RemoteRC rc (hs_GotLIM_bound GotRenegLIM_fn (hs_m_State Ready h))) s in
    let! s := MapAddr_call e s in
    Done (emit (SessionEstablished true) s).

Definition GotOutboundLIM (e : Env) (rc : RouterContact) (s : Session) : outcome Session :=
  if negb (bool_decide (pubkey rc = pubkey (m_RemoteRC (hs s)))) then Done s
  else SendOurLIM e (Some LIMSent) (on_hs (fun h => hs_GotLIM_bound GotRenegLIM_fn (hs_m_RemoteRC rc h)) s).

Definition GotRenegLIM (e : Env) (rc : RouterContact) (s : Session) : outcome Session :=
  Done (emit (SessionRenegotiate rc (m_RemoteRC (hs s))) s).

Definition GotLIM (e : Env) (rc : RouterContact) (s : Session) : outcome Session :=
  match GotLIM_bound (hs s) with
  | GotInboundLIM_fn => GotInboundLIM e rc s
  | GotOutboundLIM_fn => GotOutboundLIM e rc s
  | GotRenegLIM_fn => GotRenegLIM e rc s
  end.

Definition RenegotiateSession (e : Env) (s : Session) : outcome Session := SendOurLIM e None s.

(** [m_Parent->HandleMessage]: the link layer parses the message and hands link
    introductions back to the session. *)
Definition HandleMessage_call (e : Env) (data : list Z) (s : Session) : outcome Session :=
  let s := emit (HandleMessage data) s in
  match decode_LIM p data with
  | Some rc => GotLIM e rc s
  | None => Done s
  end.

(** ** Handshake *)

Definition IntroductionSIZE : nat := 32 + 32 + 32 + 64.

Definition new_outbound (now : Z) (rc : RouterContact) (ai : list Z) (g : rng) : Session :=
  mkSession false now ai
    (mkHandshake Initial rc (short_hash (pubkey rc)) (replicate 24 0) (replicate 32 0) (replicate 32 0) GotOutboundLIM_fn false)
    (mkAccounting (mkStats 0 0 0 0 0 0) 0 0 0 0 0) (mkTransfer 0 ∅ ∅ ∅ []) (mkQueues [] [] true []) g [].

Definition new_inbound (now : Z) (g : rng) : Session :=
  let '(tok, g) := randombytes 24 g in
  mkSession true now (replicate 32 0)
    (mkHandshake Initial (mkRC (replicate 32 0) false []) (short_hash (our_pubkey p)) tok (replicate 32 0) (replicate 32 0)
       GotInboundLIM_fn false)
    (mkAccounting (mkStats 0 0 0 0 0 0) 0 0 0 0 0) (mkTransfer 0 ∅ ∅ ∅ []) (mkQueues [] [] true []) g [].

Definition GenerateAndSendIntro (e : Env) (s : Session) : outcome Session :=
  let '(N, g) := randombytes TUNNONCESIZE (rnd s) in
  let req := replicate (IntroductionSIZE + PacketOverhead) 0 in
  let! req := save req PacketOverhead (our_pubkey p) in
  let! req := save req (PacketOverhead + 32) (toPublic (RouterEncryptionSecret p)) in
  let! req := save req (PacketOverhead + 64) N in
  let! signbuf := load req PacketOverhead (IntroductionSIZE - 64) in
  let! req := save req (PacketOverhead + (IntroductionSIZE - 64)) (parent_Sign p signbuf) in
  let '(nonce, g) := randbytes TUNNONCESIZE g in
  let! req := save req HMACSIZE nonce in
  let! s := EncryptAndSend e req (set_rnd g s) in
  let s := set_State Introduction s in
  match transport_dh_client (m_ChosenAI s) (RouterEncryptionSecret p) N with
  | None => Done s
  | Some key => Done (on_hs (hs_m_SessionKey key) s)
  end.

Definition Start (e : Env) (s : Session) : outcome Session :=
  if m_Inbound s then Done s else GenerateAndSendIntro e s.

Definition HandleGotIntro (e : Env) (pkt : list Z) (s : Session) : outcome Session :=
  if bool_decide (length pkt < IntroductionSIZE + PacketOverhead)%nat then Done s
  else
    let! ident := load pkt PacketOverhead 32 in
    let! onion := load pkt (PacketOverhead + 32) 32 in
    let! N := load pkt (PacketOverhead + 64) 32 in
    let! Z := load pkt (PacketOverhead + 96) 64 in
    let! verifybuf := load pkt PacketOverhead (IntroductionSIZE - 64) in
    let s := on_hs (fun h => hs_m_RemoteOnionKey onion (hs_m_ExpectedIdent ident h)) s in
    if negb (verify ident verifybuf Z) then Done s
    else
      match transport_dh_server onion (TransportSecretKey p) N with
      | None => Done s
      | Some key =>
          let s := on_hs (hs_m_SessionKey key) s in
          let reply := replicate (24 + PacketOverhead) 0 in
          let '(nonce, g) := randbytes TUNNONCESIZE (rnd s) in
          let! reply := save reply HMACSIZE nonce in
          let! reply := save reply PacketOverhead (token (hs s)) in
          let s := on_ac (ac_m_LastRX (Now e)) (set_rnd g s) in
          let! s := EncryptAndSend e reply s in
          Done (set_State Introduction s)
      end.

Definition HandleGotIntroAck (e : Env) (pkt : list Z) (s : Session) : outcome Session :=
  if bool_decide (length pkt < 24 + PacketOverhead)%nat then Done s
  else
    let! dec := DecryptMessageInPlace (m_SessionKey (hs s)) pkt in
    match dec with
    | None => Done s
    | Some pkt =>
        let s := on_ac (ac_m_LastRX (Now e)) s in
        let! tok := load pkt PacketOverhead 24 in
        let s := on_hs (hs_token tok) s in
        let reply := replicate (24 + PacketOverhead) 0 in
        let! reply := save reply PacketOverhead tok in
        let '(nonce, g) := randbytes TUNNONCESIZE (rnd s) in
        let! reply := save reply HMACSIZE nonce in
        let! s := EncryptAndSend e reply (set_rnd g s) in
        Done (set_State LinkIntro s)
    end.

Definition HandleCreateSessionRequest (e : Env) (pkt : list Z) (s : Session) : outcome Session :=
  let! dec := DecryptMessageInPlace (m_SessionKey (hs s)) pkt in
  match dec with
  | None => Done s
  | Some pkt =>
      if bool_decide (length pkt < 24 + PacketOverhead)%nat then Done s
      else
        let! begin := load pkt PacketOverhead 24 in
        if negb (bool_decide (begin = token (hs s))) then Done s
        else SendOurLIM e None (set_State LinkIntro (on_ac (ac_m_LastRX (Now e)) s))
  end.

(** ** Data packets *)

Definition HandleSessionData (pkt : list Z) (s : Session) : Session :=
  emit TriggerPump (on_qu (fun q => qu_m_DecryptNext (m_DecryptNext q ++ [pkt]) q) s).

Definition HandleRecvMsgCompleted (e : Env) (msg : InboundMessage) (s : Session) : outcome Session :=
  let rxid := i_MsgID msg in
  let! s :=
    match m_ReplayFilter (tr s) !! rxid with
    | Some _ => Done s
    | None =>
        let s := on_tr (fun t => tr_m_ReplayFilter (<[rxid := Now e]> (m_ReplayFilter t)) t) s in
        let! s := HandleMessage_call e (i_Data msg) s in
        let! (acks, g) := ACKS msg (rnd s) in
        EncryptAndSend e acks (set_rnd g s)
    end in
  Done (erase_RX rxid s).

Definition XMITOverhead : nat := CommandOverhead + PacketOverhead + 2 + 8 + 32.

Definition HandleXMIT (e : Env) (data : list Z) (s : Session) : outcome Session :=
  if bool_decide (length data < XMITOverhead)%nat then Done s
  else
    let! szb := load data (CommandOverhead + PacketOverhead) 2 in
    let! rxb := load data (CommandOverhead + PacketOverhead + 2) 8 in
    let! h := load data (CommandOverhead + PacketOverhead + 10) 32 in
    let sz := load_big_to_host 2 szb in
    let rxid := load_big_to_host 8 rxb in
    let s := on_ac (ac_m_LastRX (Now e)) s in
    match m_ReplayFilter (tr s) !! rxid with
    | Some _ => Done (emplace_MACK rxid s)
    | None =>
        match m_RXMsgs (tr s) !! rxid with
        | Some _ => Done s
        | None =>
            let msg := InboundMessage_new rxid sz h (Now e) in
            let s := emit TriggerPump (put_RX rxid msg s) in
            let sz := Z.min sz FragmentSize in
            if data_size data - Z.of_nat XMITOverhead =? sz then
              let! buf := load data (length data - Z.to_nat sz) (Z.to_nat sz) in
              let! msg := HandleData msg 0 buf (Now e) in
              let s := put_RX rxid msg s in
              let! completed := IsCompleted msg in
              if negb completed then Done s
              else if negb (Verify msg) then Done s
              else HandleRecvMsgCompleted e msg s
            else Done s
        end
    end.

Definition HandleDATA (e : Env) (data : list Z) (s : Session) : outcome Session :=
  if bool_decide (length data < CommandOverhead + 2 + 8 + PacketOverhead)%nat then Done s
  else
    let s := on_ac (ac_m_LastRX (Now e)) s in
    let! szb := load data (CommandOverhead + PacketOverhead) 2 in
    let! rxb := load data (CommandOverhead + 2 + PacketOverhead) 8 in
    let sz := load_big_to_host 2 szb in
    let rxid := load_big_to_host 8 rxb in
    match m_RXMsgs (tr s) !! rxid with
    | None =>
        match m_ReplayFilter (tr s) !! rxid with
        | None =>
            let '(nack, g) := CreatePacket_padded eNACK 8 (rnd s) in
            let! nack := save nack (PacketOverhead + CommandOverhead) (write_host_as_big 8 rxid) in
            EncryptAndSend e nack (set_rnd g s)
        | Some _ => Done (emplace_MACK rxid s)
        end
    | Some msg =>
        let! buf := load data (PacketOverhead + 12) (length data - (PacketOverhead + 12)) in
        let! msg := HandleData msg sz buf (Now e) in
        let s := put_RX rxid msg s in
        let! completed := IsCompleted msg in
        if completed then
          if Verify msg then HandleRecvMsgCompleted e msg s else Done s
        else Done s
    end.

Definition HandleACKS (e : Env) (data : list Z) (s : Session) : outcome Session :=
  if bool_decide (length data < 11 + PacketOverhead)%nat then Done s
  else
    let s := on_ac (ac_m_LastRX (Now e)) s in
    let! txb := load data (2 + PacketOverhead) 8 in
    let txid := load_big_to_host 8 txb in
    match m_TXMsgs (tr s) !! txid with
    | None => Done s
    | Some msg =>
        let! mask := load data (10 + PacketOverhead) 1 in
        let msg := Ack msg (be_value mask) in
        let s := put_TX txid msg s in
        let! transmitted := IsTransmitted msg in
        if transmitted then
          let '(msg, c) := Completed msg in
          let! s := run_handler e c (put_TX txid msg s) in
          Done (erase_TX txid s)
        else
          let! (pkts, msg, g) := FlushUnAcked msg (Now e) (rnd s) in
          EncryptAndSend_all e pkts (put_TX txid msg (set_rnd g s))
    end.

Fixpoint mack_loop (numAcks : nat) (e : Env) (data : list Z) (ptr : nat) (s : Session) : outcome Session :=
  match numAcks with
  | O => Done s
  | S numAcks =>
      let! b := load data ptr 8 in
      let acked := load_big_to_host 8 b in
      let! s :=
        match m_TXMsgs (tr s) !! acked with
        | Some msg =>
            let s := on_stats (fun x => set_totalInFlightTX (u64 (totalInFlightTX x - 1))
                                          (set_totalAckedTX (u64 (totalAckedTX x + 1)) x)) s in
            let '(msg, c) := Completed msg in
            let! s := run_handler e c (put_TX acked msg s) in
            Done (erase_TX acked s)
        | None => Done s
        end in
      mack_loop numAcks e data (ptr + 8) s
  end.

Definition HandleMACK (e : Env) (data : list Z) (s : Session) : outcome Session :=
  if bool_decide (length data < 3 + PacketOverhead)%nat then Done s
  else
    let! nb := load data (CommandOverhead + PacketOverhead) 1 in
    let numAcks := Z.to_nat (be_value nb) in
    if bool_decide (length data < 1 + CommandOverhead + PacketOverhead + numAcks * 8)%nat then Done s
    else mack_loop numAcks e data (CommandOverhead + PacketOverhead + 1) s.

Definition HandleNACK (e : Env) (data : list Z) (s : Session) : outcome Session :=
  if bool_decide (length data < CommandOverhead + 8 + PacketOverhead)%nat then Done s
  else
    let! b := load data (CommandOverhead + PacketOverhead) 8 in
    let txid := load_big_to_host 8 b in
    let! s :=
      match m_TXMsgs (tr s) !! txid with
      | Some msg => let! (xmit, g) := XMIT msg (rnd s) in EncryptAndSend e xmit (set_rnd g s)
      | None => Done s
      end in
    Done (on_ac (ac_m_LastRX (Now e)) s).

Definition HandleCLOS (e : Env) (s : Session) : outcome Session := Close e s.
Definition HandlePING (e : Env) (s : Session) : outcome Session := Done (on_ac (ac_m_LastRX (Now e)) s).

(** One packet of [HandlePlaintext]. *)
Definition dispatch (e : Env) (result : list Z) (s : Session) : outcome Session :=
  let! cmd := load result (PacketOverhead + 1) 1 in
  let cmd := be_value cmd in
  if cmd =? command_byte eXMIT then HandleXMIT e result s
  else if cmd =? command_byte eDATA then HandleDATA e result s
  else if cmd =? command_byte eACKS then HandleACKS e result s
  else if cmd =? command_byte ePING then HandlePING e s
  else if cmd =? command_byte eNACK then HandleNACK e result s
  else if cmd =? command_byte eCLOS then HandleCLOS e s
  else if cmd =? command_byte eMACK then HandleMACK e result s
  else Done s.

Fixpoint dispatch_all (e : Env) (results : list (list Z)) (s : Session) : outcome Session :=
  match results with
  | [] => Done s
  | r :: results => let! s := dispatch e r s in dispatch_all e results s
  end.

(** The batches in [m_PlaintextRecv], taken with [tryPopFront] until it is empty;
    handlers do not add to it. *)
Fixpoint drain_plaintext (fuel : nat) (e : Env) (s : Session) : outcome Session :=
  match m_PlaintextRecv (qu s), fuel with
  | [], _ => Done s
  | _, O => Timeout
  | batch :: rest, S fuel =>
      let! s := dispatch_all e batch (on_qu (qu_m_PlaintextRecv rest) s) in
      drain_plaintext fuel e s
  end.

Definition HandlePlaintext (e : Env) (s : Session) : outcome Session :=
  if m_PlaintextEmpty (qu s) then Done s
  else
    let s := on_qu (qu_m_PlaintextEmpty true) s in
    let! s := drain_plaintext (length (m_PlaintextRecv (qu s))) e s in
    let! s := SendMACK e s in
    Done (emit WakeupPlaintext s).

(** The packets of a batch that decrypt and have our protocol version. *)
Fixpoint decrypt_all (key : list Z) (msgs : list (list Z)) : outcome (list (list Z)) :=
  match msgs with
  | [] => Done []
  | pkt :: msgs =>
      let! dec := DecryptMessageInPlace key pkt in
      match dec with
      | None => decrypt_all key msgs
      | Some pkt =>
          let! v := load pkt PacketOverhead 1 in
          let! rest := decrypt_all key msgs in
          Done (if be_value v =? proto_version then pkt :: rest else rest)
      end
  end.

Definition DecryptWorker (msgs : list (list Z)) (s : Session) : outcome Session :=
  let! msgs := decrypt_all (m_SessionKey (hs s)) msgs in
  let recv := m_PlaintextRecv (qu s) in
  let recv := if bool_decide (length recv < PlaintextQueueSize)%nat then recv ++ [msgs] else recv in
  Done (emit WakeupPlaintext (on_qu (fun q => qu_m_PlaintextEmpty false (qu_m_PlaintextRecv recv q)) s)).

(** ** Timers *)

(** The elements of a [std::map] in iteration order. *)
Definition id_le {A} (a b : Z * A) : Prop := a.1 <= b.1.
#[local] Instance id_le_dec {A} : RelDecision (@id_le A).
Proof. unfold id_le. intros a b. apply _. Defined.
Definition by_id {A} (m : gmap Z A) : list (Z * A) := merge_sort id_le (map_to_list m).

Fixpoint pump_acks (e : Env) (l : list (Z * InboundMessage)) (s : Session) : outcome Session :=
  match l with
  | [] => Done s
  | (id, msg) :: l =>
      if ShouldSendACKS msg (Now e) then
        let! (acks, msg, g) := SendACKS msg (Now e) (rnd s) in
        let! s := EncryptAndSend e acks (put_RX id msg (set_rnd g s)) in
        pump_acks e l s
      else pump_acks e l s
  end.

(** [std::priority_queue] hands out a greatest element first. *)
Definition pops_before (a b : Z * OutboundMessage Handler) : Prop := Outbound_ltb a.2 b.2 = false.
#[local] Instance pops_before_dec : RelDecision pops_before.
Proof. unfold pops_before. intros a b. apply _. Defined.
Definition to_resend (now : Z) (m : gmap Z (OutboundMessage Handler)) : list (Z * OutboundMessage Handler) :=
  merge_sort pops_before (List.filter (fun x => ShouldFlush x.2 now) (by_id m)).

Fixpoint pump_resend (e : Env) (l : list (Z * OutboundMessage Handler)) (s : Session) : outcome Session :=
  match l with
  | [] => Done s
  | (id, msg) :: l =>
      let! (pkts, msg, g) := FlushUnAcked msg (Now e) (rnd s) in
      let! s := EncryptAndSend_all e pkts (put_TX id msg (set_rnd g s)) in
      pump_resend e l s
  end.

Definition Pump (e : Env) (s : Session) : outcome Session :=
  let! s :=
    if bool_decide (m_State (hs s) = Ready) || bool_decide (m_State (hs s) = LinkIntro) then
      let! s := if ShouldPing e s then let! (_, s) := SendKeepAlive e s in Done s else Done s in
      let! s := pump_acks e (by_id (m_RXMsgs (tr s))) s in
      pump_resend e (to_resend (Now e) (m_TXMsgs (tr s))) s
    else Done s in
  let s :=
    if bool_decide (m_EncryptNext (qu s) = []) then s
    else on_qu (qu_m_EncryptNext []) (emit (QueueEncrypt (m_EncryptNext (qu s))) s) in
  Done (if bool_decide (m_DecryptNext (qu s) = []) then s
        else on_qu (qu_m_DecryptNext []) (emit (QueueDecrypt (m_DecryptNext (qu s))) s)).

Definition ShouldResetRates (now : Z) (s : Session) : bool := m_ResetRatesAt (ac s) <=? now.
Definition ResetRates : Session -> Session :=
  on_ac (fun a => ac_m_TXRate 0 (ac_m_RXRate 0
    (ac_m_Stats (set_currentRateRX (m_RXRate a) (set_currentRateTX (m_TXRate a) (m_Stats a))) a))).

Fixpoint tick_tx (e : Env) (now : Z) (l : list (Z * OutboundMessage Handler)) (s : Session) : outcome Session :=
  match l with
  | [] => Done s
  | (id, msg) :: l =>
      if Outbound_IsTimedOut msg now then
        let s := on_stats (fun x => set_totalInFlightTX (u64 (totalInFlightTX x - 1))
                                      (set_totalDroppedTX (u64 (totalDroppedTX x + 1)) x)) s in
        let '(msg, c) := InformTimeout msg in
        let! s := run_handler e c (put_TX id msg s) in
        tick_tx e now l (erase_TX id s)
      else tick_tx e now l s
  end.

Fixpoint tick_rx (now : Z) (l : list (Z * InboundMessage)) (s : Session) : Session :=
  match l with
  | [] => s
  | (id, msg) :: l =>
      if Inbound_IsTimedOut msg now then
        let filter := m_ReplayFilter (tr s) in
        let filter := match filter !! id with Some _ => filter | None => <[id := now]> filter end in
        tick_rx now l (erase_RX id (on_tr (tr_m_ReplayFilter filter) s))
      else tick_rx now l s
  end.

Definition decay_replay (now : Z) : Session -> Session :=
  on_tr (fun t => tr_m_ReplayFilter (filter (fun x => now < x.2 + ReplayWindow) (m_ReplayFilter t)) t).

Definition Tick (e : Env) (now : Z) (s : Session) : outcome Session :=
  let s := if ShouldResetRates now s then on_ac (ac_m_ResetRatesAt (now + 1000)) (ResetRates s) else s in
  let! s := tick_tx e now (by_id (m_TXMsgs (tr s))) s in
  let s := tick_rx now (by_id (m_RXMsgs (tr s))) s in
  Done (decay_replay now s).

Definition TimedOut (now : Z) (s : Session) : bool :=
  if bool_decide (m_State (hs s) = Ready) then
    (m_LastRX (ac s) <? now)
    && ((if m_Inbound s && negb (IsPublicRouter (m_RemoteRC (hs s))) then DefaultLinkSessionLifetime
         else SessionAliveTimeout) <? now - m_LastRX (ac s))
  else LinkLayerConnectTimeout <=? now - m_CreatedAt s.

(** ** The lower layer *)

Definition Recv_LL (e : Env) (data : list Z) (s : Session) : outcome (bool * Session) :=
  let s := on_ac (fun a => ac_m_RXRate (u64 (m_RXRate a + data_size data)) a) s in
  let s := on_stats (fun x => set_totalPacketsRX (u64 (totalPacketsRX x + 1)) x) s in
  match m_State (hs s) with
  | Initial =>
      if m_Inbound s then
        let! dec := DecryptMessageInPlace (m_SessionKey (hs s)) data in
        match dec with
        | Some data => let! s := HandleGotIntro e data s in Done (true, s)
        | None => Done (false, s)
        end
      else Done (true, s)
  | Introduction =>
      let! s := if m_Inbound s then HandleCreateSessionRequest e data s else HandleGotIntroAck e data s in
      Done (true, s)
  | _ => Done (true, HandleSessionData data s)
  end.
End Session.
