(* ===== verification/IwpProofs.v ===== *)
(** * Correctness of IWP sessions

    The packet layer is an authenticated round trip, the handshake gives both
    sides one key and one token, a session never leaves its memory or throws
    on packets in a stated domain, and messages are delivered unaltered.  The
    definitions are in [IwpSession]. *)

From S2P Require Import Prelude Buffer Crypto Iwp IwpSession.
Open Scope Z_scope.

(** ** Packets *)

Section PacketCrypto.
Context `{SodiumSpec}.

Lemma encrypt_packet_spec key h n body : length key = 32%nat -> length h = 32%nat -> length n = 32%nat ->
  exists h' c, encrypt_packet key (h ++ n ++ body) = Done (h' ++ n ++ c)
    /\ length h' = 32%nat /\ length c = length body
    /\ stream_xor body (take 24 n) key = Some c /\ hmac (n ++ c) key = Some h'.
Proof.
  intros Hk Hh Hn. unfold encrypt_packet, HMACSIZE, TUNNONCESIZE, PacketOverhead, HMACSIZE, TUNNONCESIZE.
  rewrite load_mid by lia. cbn [obind].
  assert (load (h ++ n ++ body) (32 + 32) (length (h ++ n ++ body) - (32 + 32)) = Done body) as ->.
  { replace (h ++ n ++ body) with ((h ++ n) ++ body ++ []) at 1 by (by rewrite app_nil_r, <- app_assoc).
    apply load_mid; rewrite ?length_app; lia. }
  cbn [obind]. unfold xchacha20. destruct (stream_xor_total body (take 24 n) key) as [c Ec]; [rewrite length_take; lia|done|].
  pose proof (stream_xor_length _ _ _ _ Ec) as Hc. rewrite Ec. change (default body (Some c)) with c.
  replace (h ++ n ++ body) with ((h ++ n) ++ body ++ []) by (by rewrite app_nil_r, <- app_assoc).
  rewrite save_mid by (rewrite ?length_app; lia). cbn [obind]. rewrite app_nil_r, <- app_assoc.
  assert (load (h ++ n ++ c) 32 (length (h ++ n ++ c) - 32) = Done (n ++ c)) as ->.
  { replace (h ++ n ++ c) with (h ++ (n ++ c) ++ []) at 1 by (by rewrite app_nil_r).
    apply load_mid; rewrite ?length_app; lia. }
  cbn [obind]. destruct (generichash_total 32 (n ++ c) key) as [h' Eh]; [lia|by right|].
  unfold hmac. rewrite Eh. destruct (generichash_length _ _ _ _ Eh) as [Hh' _].
  exists h', c. split_and!; [|done|done|done|done]. apply (save_mid [] h (n ++ c)); [done|lia].
Qed.

Lemma DecryptMessageInPlace_spec key h n c : length key = 32%nat -> length h = 32%nat -> length n = 32%nat ->
  (0 < length c)%nat ->
  exists h', hmac (n ++ c) key = Some h'
    /\ DecryptMessageInPlace key (h ++ n ++ c)
       = Done (if decide (h' = h) then t ← stream_xor c (take 24 n) key; Some (h ++ n ++ t) else None).
Proof.
  intros Hk Hh Hn Hc. destruct (generichash_total 32 (n ++ c) key) as [h' Eh]; [lia|by right|]. exists h'. split; [done|].
  unfold DecryptMessageInPlace, PacketOverhead, HMACSIZE, TUNNONCESIZE.
  rewrite bool_decide_false by (rewrite !length_app; lia).
  assert (load (h ++ n ++ c) 32 (length (h ++ n ++ c) - 32) = Done (n ++ c)) as ->.
  { replace (h ++ n ++ c) with (h ++ (n ++ c) ++ []) at 1 by (by rewrite app_nil_r).
    apply load_mid; rewrite ?length_app; lia. }
  cbn [obind]. unfold hmac. rewrite Eh.
  assert (load (h ++ n ++ c) 0 32 = Done h) as -> by (by apply (load_mid [] h (n ++ c))).
  cbn [obind]. destruct (decide (h' = h)) as [->|Hne]; [|by rewrite bool_decide_false].
  rewrite bool_decide_true by done. cbn [negb]. rewrite load_mid by done. cbn [obind].
  assert (load (h ++ n ++ c) 64 (length (h ++ n ++ c) - 64) = Done c) as ->.
  { replace (h ++ n ++ c) with ((h ++ n) ++ c ++ []) at 1 by (by rewrite app_nil_r, <- app_assoc).
    apply load_mid; rewrite ?length_app; lia. }
  cbn [obind]. unfold xchacha20. destruct (stream_xor c (take 24 n) key) as [t|] eqn:Et; [|done].
  pose proof (stream_xor_length _ _ _ _ Et). cbn [option_bind mbind].
  replace (h ++ n ++ c) with ((h ++ n) ++ c ++ []) by (by rewrite app_nil_r, <- app_assoc).
  rewrite save_mid by (rewrite ?length_app; lia). cbn [obind]. by rewrite app_nil_r, <- app_assoc.
Qed.

Lemma short_hash_length d : length (short_hash d) = 32%nat.
Proof.
  unfold short_hash, shorthash. destruct (generichash 32 d []) as [h|] eqn:E; [|apply length_replicate].
  by destruct (generichash_length _ _ _ _ E).
Qed.

(** What one side encrypts the other decrypts, up to the tag. *)
Lemma decrypt_encrypted key h n body : length key = 32%nat -> length h = 32%nat -> length n = 32%nat ->
  (0 < length body)%nat -> exists c h', encrypt_packet key (h ++ n ++ body) = Done c
    /\ length h' = 32%nat /\ DecryptMessageInPlace key c = Done (Some (h' ++ n ++ body)).
Proof.
  intros Hk Hh Hn Hb. destruct (encrypt_packet_spec key h n body Hk Hh Hn) as (h'&c&->&Hh'&Hc&Ec&Eh).
  exists (h' ++ n ++ c), h'. split; [done|]. split; [done|].
  destruct (DecryptMessageInPlace_spec key h' n c Hk Hh' Hn) as (h''&Eh'&->); [lia|].
  rewrite Eh in Eh'. injection Eh' as <-. rewrite decide_True by done.
  by rewrite (stream_xor_inv _ _ _ _ Ec).
Qed.
End PacketCrypto.

(** ** What sending leaves alone *)

Definition pkts_ok : list (list Z) -> Prop := Forall (fun pkt => (64 <= length pkt)%nat).
Definition quiet (ev : Event) : Prop :=
  match ev with SendTo_LL _ | TriggerPump => True | _ => False end.

Section Frame.
Context `{SodiumSpec}.

Record frame (s s' : Session) : Prop := mkFrame {
  f_inbound : m_Inbound s' = m_Inbound s;
  f_created : m_CreatedAt s' = m_CreatedAt s;
  f_ai : m_ChosenAI s' = m_ChosenAI s;
  f_hs : hs s' = hs s;
  f_tr : tr s' = tr s;
  f_rnd : rnd s' = rnd s;
  f_stats : m_Stats (ac s') = m_Stats (ac s);
  f_lastrx : m_LastRX (ac s') = m_LastRX (ac s);
  f_decrypt : m_DecryptNext (qu s') = m_DecryptNext (qu s);
  f_empty : m_PlaintextEmpty (qu s') = m_PlaintextEmpty (qu s);
  f_recv : m_PlaintextRecv (qu s') = m_PlaintextRecv (qu s);
  f_encrypt : pkts_ok (m_EncryptNext (qu s'));
  f_events : exists ev, events s' = events s ++ ev /\ Forall quiet ev }.

Lemma frame_refl s : pkts_ok (m_EncryptNext (qu s)) -> frame s s.
Proof. intros Hp. split; try done. exists []. by rewrite app_nil_r. Qed.

Lemma frame_trans s1 s2 s3 : frame s1 s2 -> frame s2 s3 -> frame s1 s3.
Proof.
  intros [] []. split; try congruence. destruct f_events0 as (ev&E&Hq), f_events1 as (ev'&E'&Hq').
  exists (ev ++ ev'). rewrite E', E, app_assoc. split; [done|]. by apply Forall_app.
Qed.

Lemma encrypt_packet_total key pkt : (64 <= length pkt)%nat -> exists c, encrypt_packet key pkt = Done c.
Proof.
  intros Hl. unfold encrypt_packet, HMACSIZE, TUNNONCESIZE, PacketOverhead, HMACSIZE, TUNNONCESIZE.
  rewrite load_done by lia. cbn [obind]. rewrite load_done by lia. cbn [obind].
  set (body := take _ _). assert (length body = length pkt - 64)%nat as Hb.
  { unfold body. rewrite length_take, length_drop. lia. }
  assert (length (default body (xchacha20 body key (take 32 (drop 32 pkt)))) = length body) as Hd.
  { unfold xchacha20. destruct (stream_xor _ _ _) as [c|] eqn:Ec; [|done]. by apply stream_xor_length in Ec. }
  rewrite save_done by lia. cbn [obind]. rewrite load_done by (rewrite length_store by lia; lia). cbn [obind].
  unfold hmac. destruct (generichash _ _ _) as [h|] eqn:Eh; [|by eexists].
  destruct (generichash_length _ _ _ _ Eh) as [Hh _]. rewrite save_done by (rewrite length_store by lia; lia). by eexists.
Qed.

Lemma EncryptWorker_frame e msgs : pkts_ok msgs -> forall s, pkts_ok (m_EncryptNext (qu s)) ->
  exists s', EncryptWorker e msgs s = Done s' /\ frame s s' /\ m_EncryptNext (qu s') = m_EncryptNext (qu s).
Proof.
  induction 1 as [|pkt msgs Hp _ IH]; intros s Hs; cbn [EncryptWorker].
  - exists s. split_and!; [done|by apply frame_refl|done].
  - destruct (encrypt_packet_total (m_SessionKey (hs s)) pkt Hp) as [c ->]. cbn [obind].
    destruct (IH (Send_LL e c s) Hs) as (s'&->&Hf&Eq). exists s'. split; [done|]. split; [|exact Eq].
    eapply frame_trans; [|exact Hf]. split; try done. exists [SendTo_LL c]. split; [done|]. by repeat constructor.
Qed.

(** Packets wait in [m_EncryptNext] once the session is established. *)
Lemma EncryptAndSend_frame e pkt s : pkts_ok (m_EncryptNext (qu s)) -> (64 <= length pkt)%nat ->
  exists s', EncryptAndSend e pkt s = Done s' /\ frame s s'
    /\ m_EncryptNext (qu s') = if bool_decide (m_State (hs s) = Ready) then m_EncryptNext (qu s) ++ [pkt] else [].
Proof.
  intros Hs Hp. unfold EncryptAndSend. set (s1 := emit TriggerPump _).
  assert (pkts_ok (m_EncryptNext (qu s1))) as Hs1 by (apply Forall_app; split; [done|by constructor]).
  assert (frame s s1) as Hf1.
  { split; try done. exists [TriggerPump]. split; [done|]. by repeat constructor. }
  unfold IsEstablished. change (hs s1) with (hs s). destruct (bool_decide (m_State (hs s) = Ready)); cbn [negb].
  - by exists s1.
  - destruct (EncryptWorker_frame e _ Hs1 s1 Hs1) as (s'&->&Hf&_). cbn [obind]. eexists. split; [done|]. split; [|done].
    eapply frame_trans; [exact Hf1|]. destruct Hf. split; try done. constructor.
Qed.

Lemma EncryptAndSend_all_frame e pkts : pkts_ok pkts -> forall s, pkts_ok (m_EncryptNext (qu s)) ->
  exists s', EncryptAndSend_all e pkts s = Done s' /\ frame s s'
    /\ (m_State (hs s) = Ready -> m_EncryptNext (qu s') = m_EncryptNext (qu s) ++ pkts).
Proof.
  induction 1 as [|pkt pkts Hp _ IH]; intros s Hs; cbn [EncryptAndSend_all].
  - exists s. split_and!; [done|by apply frame_refl|]. by rewrite app_nil_r.
  - destruct (EncryptAndSend_frame e pkt s Hs Hp) as (s1&->&Hf1&E1). cbn [obind].
    destruct (IH s1 (f_encrypt _ _ Hf1)) as (s'&->&Hf&E). exists s'. split; [done|].
    split; [by eapply frame_trans|]. intros HR. rewrite E by (by rewrite (f_hs _ _ Hf1)).
    rewrite E1, bool_decide_true by done. by rewrite <- app_assoc.
Qed.
End Frame.

(** ** Runs of a session

    The calls that change a session, made by the link layer, by the router and
    by the worker threads, in any order.  A worker job is a batch the session
    queued earlier; jobs may run late or out of order. *)

Inductive Op :=
  | OpStart (e : Env) | OpRecv (e : Env) (pkt : list Z) | OpPlaintext (e : Env)
  | OpSend (e : Env) (buf : list Z) (h : option Handler) (priority : Z)
  | OpPump (e : Env) | OpTick (e : Env) (now : Z) | OpKeepAlive (e : Env) | OpRenegotiate (e : Env) | OpClose (e : Env)
  | OpEncryptJob (e : Env) (msgs : list (list Z)) | OpDecryptJob (msgs : list (list Z)).

Section Runs.
Context `{Sodium} `{Oxenc} (p : LinkParent).

Definition run (op : Op) (s : Session) : outcome Session :=
  match op with
  | OpStart e => Start p e s
  | OpRecv e pkt => let! (_, s) := Recv_LL p e pkt s in Done s
  | OpPlaintext e => HandlePlaintext p e s
  | OpSend e buf h priority => let! (_, s) := SendMessageBuffer e buf h priority s in Done s
  | OpPump e => Pump e s
  | OpTick e now => Tick e now s
  | OpKeepAlive e => let! (_, s) := SendKeepAlive e s in Done s
  | OpRenegotiate e => RenegotiateSession p e s
  | OpClose e => Close e s
  | OpEncryptJob e msgs => EncryptWorker e msgs s
  | OpDecryptJob msgs => DecryptWorker msgs s
  end.

(** When a call is made: messages fit the link layer's buffer, jobs were queued
    by the session, and a packet that authenticates under the session key is a
    packet of the peer. *)
Definition allowed (Pk : list Z -> Prop) (op : Op) (s : Session) : Prop :=
  match op with
  | OpSend _ buf _ _ => data_size buf <= MAX_LINK_MSG_SIZE
  | OpEncryptJob _ msgs => QueueEncrypt msgs ∈ events s
  | OpDecryptJob msgs => QueueDecrypt msgs ∈ events s
      /\ forall pkt data, pkt ∈ msgs -> DecryptMessageInPlace (m_SessionKey (hs s)) pkt = Done (Some data) -> Pk data
  | _ => True
  end.

Inductive reachable (Pk : list Z -> Prop) : Session -> Prop :=
  | reach_outbound now rc ai g : reachable Pk (new_outbound now rc ai g)
  | reach_inbound now g : reachable Pk (new_inbound p now g)
  | reach_step op s s' : reachable Pk s -> allowed Pk op s -> run op s = Done s' -> reachable Pk s'.
End Runs.

(** ** The invariant of a session

    Parametrised by what is known of inbound messages ([Rx]) and of the data
    handed to the router ([Dv]), so that one proof serves both an arbitrary and
    an honest peer. *)

Definition tx_ok `{Sodium} (m : gmap Z (OutboundMessage Handler)) : Prop :=
  forall id msg, m !! id = Some msg ->
    o_MsgID msg = id /\ data_size (o_Data msg) <= MAX_LINK_MSG_SIZE /\ o_Digest msg = short_hash (o_Data msg).

Section Invariant.
Context `{SodiumSpec} `{OxencSpec} (p : LinkParent) (Rx : Z -> InboundMessage -> Prop) (Dv : list Z -> Prop).
Context (Rx_acked : forall id m t, Rx id m ->
  Rx id (mkInbound (i_Data m) (i_Digset m) (i_MsgID m) t (i_LastActiveAt m) (i_Acks m))).
Context (LIM_fits : forall N d, encode_LIM p N = Some d -> data_size d <= MAX_LINK_MSG_SIZE).

Definition rx_ok (m : gmap Z InboundMessage) : Prop :=
  forall id msg, m !! id = Some msg -> i_MsgID msg = id /\ Rx id msg.

Record session_ok (s : Session) : Prop := mkOk {
  ok_encrypt : pkts_ok (m_EncryptNext (qu s));
  ok_tx : tx_ok (m_TXMsgs (tr s));
  ok_rx : rx_ok (m_RXMsgs (tr s));
  ok_token : length (token (hs s)) = 24%nat }.

Definition event_ok (ev : Event) : Prop := match ev with HandleMessage d => Dv d | QueueEncrypt msgs => pkts_ok msgs | _ => True end.

(** What every operation does: it keeps the invariant and the received batches,
    and hands only good data to the router. *)
Record good (s s' : Session) : Prop := mkGood {
  g_ok : session_ok s';
  g_recv : m_PlaintextRecv (qu s') = m_PlaintextRecv (qu s);
  g_events : exists ev, events s' = events s ++ ev /\ Forall event_ok ev }.

Lemma good_refl s : session_ok s -> good s s.
Proof. intros Hs. split; [done|done|]. exists []. by rewrite app_nil_r. Qed.

Lemma good_trans s1 s2 s3 : good s1 s2 -> good s2 s3 -> good s1 s3.
Proof.
  intros [? Hr (ev&E&He)] [? Hr' (ev'&E'&He')]. split; [done|congruence|].
  exists (ev ++ ev'). rewrite E', E, app_assoc. split; [done|]. by apply Forall_app.
Qed.

Lemma quiet_ok ev : Forall quiet ev -> Forall event_ok ev.
Proof. intros Hq. apply (Forall_impl _ _ _ Hq). by intros []. Qed.

Lemma frame_good s s' : session_ok s -> frame s s' -> good s s'.
Proof.
  intros Hs Hf. split.
  - split; [apply Hf|rewrite (f_tr _ _ Hf)|rewrite (f_tr _ _ Hf)|rewrite (f_hs _ _ Hf)]; apply Hs.
  - apply Hf.
  - destruct (f_events _ _ Hf) as (ev&E&Hq). exists ev. split; [done|]. by apply quiet_ok.
Qed.

(** Updates after a good step. *)
Lemma good_emit s0 ev s : good s0 s -> event_ok ev -> good s0 (emit ev s).
Proof.
  intros Hg He. eapply good_trans; [exact Hg|]. destruct (g_ok _ _ Hg). split; [done|done|].
  exists [ev]. split; [done|]. by repeat constructor.
Qed.
Lemma good_ac s0 f s : good s0 s -> good s0 (on_ac f s).
Proof.
  intros Hg. eapply good_trans; [exact Hg|]. destruct (g_ok _ _ Hg). split; [done|done|]. exists []. by rewrite app_nil_r.
Qed.
Lemma good_rnd s0 g s : good s0 s -> good s0 (set_rnd g s).
Proof.
  intros Hg. eapply good_trans; [exact Hg|]. destruct (g_ok _ _ Hg). split; [done|done|]. exists []. by rewrite app_nil_r.
Qed.
Lemma good_hs s0 f s : good s0 s -> length (token (f (hs s))) = 24%nat -> good s0 (on_hs f s).
Proof.
  intros Hg Ht. eapply good_trans; [exact Hg|]. destruct (g_ok _ _ Hg). split; [done|done|]. exists []. by rewrite app_nil_r.
Qed.
Lemma good_state s0 st s : good s0 s -> good s0 (set_State st s).
Proof. intros Hg. apply good_hs; [done|]. apply Hg. Qed.
Lemma good_tr s0 f s : good s0 s -> tx_ok (m_TXMsgs (f (tr s))) -> rx_ok (m_RXMsgs (f (tr s))) -> good s0 (on_tr f s).
Proof.
  intros Hg Ht Hr. eapply good_trans; [exact Hg|]. destruct (g_ok _ _ Hg). split; [done|done|]. exists []. by rewrite app_nil_r.
Qed.

Lemma good_put_TX s0 id msg s : good s0 s ->
  o_MsgID msg = id -> data_size (o_Data msg) <= MAX_LINK_MSG_SIZE -> o_Digest msg = short_hash (o_Data msg) ->
  good s0 (put_TX id msg s).
Proof.
  intros Hg E1 E2 E3. pose proof (g_ok _ _ Hg) as Hs. apply good_tr; [done| |apply Hs]. intros i m Hl. cbn in Hl.
  apply lookup_insert_Some in Hl as [[<- <-]|[_ Hl]]; [done|by eapply (ok_tx _ Hs)].
Qed.
Lemma good_erase_TX s0 id s : good s0 s -> good s0 (erase_TX id s).
Proof.
  intros Hg. pose proof (g_ok _ _ Hg) as Hs. apply good_tr; [done| |apply Hs]. intros i m Hl. cbn in Hl.
  apply lookup_delete_Some in Hl as [_ Hl]. by eapply (ok_tx _ Hs).
Qed.
Lemma good_put_RX s0 id msg s : good s0 s -> i_MsgID msg = id -> Rx id msg -> good s0 (put_RX id msg s).
Proof.
  intros Hg E1 E2. pose proof (g_ok _ _ Hg) as Hs. apply good_tr; [done|apply Hs|]. intros i m Hl. cbn in Hl.
  apply lookup_insert_Some in Hl as [[<- <-]|[_ Hl]]; [done|by eapply (ok_rx _ Hs)].
Qed.
Lemma good_erase_RX s0 id s : good s0 s -> good s0 (erase_RX id s).
Proof.
  intros Hg. pose proof (g_ok _ _ Hg) as Hs. apply good_tr; [done|apply Hs|]. intros i m Hl. cbn in Hl.
  apply lookup_delete_Some in Hl as [_ Hl]. by eapply (ok_rx _ Hs).
Qed.

(** Operations after a good step. *)
Definition safe_after (s0 : Session) (m : outcome Session) : Prop := exists s', m = Done s' /\ good s0 s'.

Lemma after_done s0 s : good s0 s -> safe_after s0 (Done s).
Proof. by exists s. Qed.

Lemma after_bind s0 m k : safe_after s0 m -> (forall s, good s0 s -> safe_after s0 (k s)) -> safe_after s0 (obind m k).
Proof. intros (s1&->&Hg) Hk. by apply Hk. Qed.

(** *** Sending *)

Lemma EncryptAndSend_safe s0 e pkt s : good s0 s -> (64 <= length pkt)%nat -> safe_after s0 (EncryptAndSend e pkt s).
Proof.
  intros Hg Hp. pose proof (g_ok _ _ Hg) as Hs.
  destruct (EncryptAndSend_frame e pkt s (ok_encrypt _ Hs) Hp) as (s'&->&Hf&_).
  apply after_done. eapply good_trans; [exact Hg|]. by apply frame_good.
Qed.

Lemma EncryptAndSend_all_safe s0 e pkts s : good s0 s -> pkts_ok pkts -> safe_after s0 (EncryptAndSend_all e pkts s).
Proof.
  intros Hg Hp. pose proof (g_ok _ _ Hg) as Hs.
  destruct (EncryptAndSend_all_frame e pkts Hp s (ok_encrypt _ Hs)) as (s'&->&Hf&_).
  apply after_done. eapply good_trans; [exact Hg|]. by apply frame_good.
Qed.

Lemma CreatePacket_length cmd n a b g : (64 <= length (CreatePacket cmd n a b g).1)%nat.
Proof.
  unfold CreatePacket, randbytes. destruct (if bool_decide (0 < a)%nat then _ else _) as [pad g1].
  destruct (if bool_decide (pad = 0)%nat then _ else _) as [padding g2].
  pose proof (randombytes_length TUNNONCESIZE g2) as Hn. destruct (randombytes TUNNONCESIZE g2) as [nonce g3]. cbn [fst] in *.
  rewrite !length_app, length_replicate. unfold HMACSIZE, TUNNONCESIZE in *. lia.
Qed.

Lemma is_packet_length cmd body pkt : is_packet cmd body pkt -> length pkt = (66 + length body)%nat.
Proof. intros (nonce&Hn&->). rewrite length_app, header_length by done. done. Qed.

Lemma Close_safe s0 e s : good s0 s -> safe_after s0 (Close e s).
Proof.
  intros Hg. unfold Close. destruct (bool_decide _); [by apply after_done|].
  pose proof (CreatePacket_length eCLOS 0 16 16 (rnd s)) as Hl.
  destruct (CreatePacket eCLOS 0 16 16 (rnd s)) as [pkt g]. cbn [fst] in Hl. cbn zeta.
  assert (good s0 (set_State Closed (emit UnmapAddr (set_rnd g s)))) as Hg' by (by apply good_state, good_emit; [apply good_rnd|]).
  destruct (m_SentClosed _); [by apply after_done|]. apply EncryptAndSend_safe; [|done]. apply good_hs; [done|apply Hg'].
Qed.

Lemma MapAddr_safe s0 e s : good s0 s -> safe_after s0 (MapAddr_call e s).
Proof.
  intros Hg. unfold MapAddr_call. assert (good s0 (emit (MapAddr (pubkey (m_RemoteRC (hs s)))) s)) by (by apply good_emit).
  destruct (too_many_sessions e); [by apply Close_safe|by apply after_done].
Qed.

Lemma run_handler_safe s0 e c s : good s0 s -> safe_after s0 (run_handler e c s).
Proof.
  intros Hg. destruct c as [[[|n] []]|]; cbn [run_handler]; try (apply after_done; by try apply good_emit).
  apply after_bind; [by apply MapAddr_safe, good_state|]. intros s2 Hg2. apply after_done. by apply good_emit.
Qed.

(** The packets of a flush. *)
Lemma FlushUnAcked_safe (msg : OutboundMessage Handler) now g : data_size (o_Data msg) <= MAX_LINK_MSG_SIZE ->
  exists pkts msg' g', FlushUnAcked msg now g = Done (pkts, msg', g') /\ pkts_ok pkts
    /\ o_Data msg' = o_Data msg /\ o_MsgID msg' = o_MsgID msg /\ o_Digest msg' = o_Digest msg.
Proof.
  intros Hd. destruct (FlushUnAcked_spec msg now g Hd) as (pkts&msg'&g'&->&Hp&->).
  eexists pkts, _, g'. split_and!; try done. clear -Hp H0 H2. induction Hp as [|k pkt ks pkts Hk _ IH]; constructor; [|done].
  rewrite (is_packet_length _ _ _ Hk). lia.
Qed.

Lemma XMIT_safe (msg : OutboundMessage Handler) g : data_size (o_Data msg) <= MAX_LINK_MSG_SIZE ->
  o_Digest msg = short_hash (o_Data msg) -> exists pkt g', XMIT msg g = Done (pkt, g') /\ (64 <= length pkt)%nat.
Proof.
  intros Hd E. destruct (XMIT_spec msg g) as (pkt&g'&->&Hp); [unfold MAX_LINK_MSG_SIZE in Hd; lia| |].
  { rewrite E. apply short_hash_length. }
  eexists pkt, g'. split; [done|]. rewrite (is_packet_length _ _ _ Hp). lia.
Qed.

Lemma SendMessageBuffer_safe s0 e buf h pr s : good s0 s -> data_size buf <= MAX_LINK_MSG_SIZE ->
  exists b s', SendMessageBuffer e buf h pr s = Done (b, s') /\ good s0 s'.
Proof.
  intros Hg Hb. unfold SendMessageBuffer. destruct (MaxSendQueueSize <=? _).
  { destruct (run_handler_safe s0 e (h ← h; Some (h, eDeliveryDropped)) s Hg) as (s'&->&Hg'). by eexists _, _. }
  set (msgid := m_TXID (tr s)). cbn zeta. set (s1 := on_tr _ s).
  assert (good s0 s1) as Hg1 by (apply good_tr; [done|apply Hg..]).
  set (msg := default _ _). assert (o_MsgID msg = msgid /\ data_size (o_Data msg) <= MAX_LINK_MSG_SIZE
    /\ o_Digest msg = short_hash (o_Data msg)) as (E1&E2&E3).
  { unfold msg. destruct (m_TXMsgs (tr s1) !! msgid) as [m|] eqn:E; [|done]. by apply (ok_tx _ (g_ok _ _ Hg)). }
  set (s2 := emit TriggerPump _). assert (good s0 s2) as Hg2 by (by apply good_emit; [apply good_put_TX|]).
  destruct (XMIT_safe msg (rnd s2) E2 E3) as (xmit&g&->&Hx). cbn [obind].
  destruct (EncryptAndSend_safe s0 e xmit (set_rnd g s2)) as (s3&->&Hg3); [by apply good_rnd|done|]. cbn [obind].
  assert (safe_after s0 (if FragmentSize <? data_size buf then
        let! (pkts, msg, g) := FlushUnAcked msg (Now e) (rnd s3) in
        EncryptAndSend_all e pkts (put_TX msgid msg (set_rnd g s3))
      else Done s3)) as (s4&->&Hg4).
  { destruct (FragmentSize <? data_size buf); [|by apply after_done].
    destruct (FlushUnAcked_safe msg (Now e) (rnd s3) E2) as (pkts&msg'&g'&->&Hp&D1&D2&D3). cbn [obind].
    apply EncryptAndSend_all_safe; [|done]. apply good_put_TX; [by apply good_rnd|congruence..]. }
  cbn [obind]. eexists _, _. split; [reflexivity|]. by apply good_ac.
Qed.
(** *** Link introductions *)

Lemma SendOurLIM_safe s0 e h s : good s0 s -> safe_after s0 (SendOurLIM p e h s).
Proof.
  intros Hg. unfold SendOurLIM. destruct (randombytes 32 (rnd s)) as [N g].
  assert (good s0 (set_rnd g s)) as Hg1 by (by apply good_rnd).
  destruct (encode_LIM p N) as [data|] eqn:E; [|by apply after_done].
  destruct (SendMessageBuffer_safe s0 e data h 0 _ Hg1 (LIM_fits _ _ E)) as (b&s'&->&Hg'). by apply after_done.
Qed.

Lemma GotLIM_safe s0 e rc s : good s0 s -> safe_after s0 (GotLIM p e rc s).
Proof.
  intros Hg. unfold GotLIM. destruct (GotLIM_bound (hs s)).
  - unfold GotInboundLIM. destruct (negb _); [by apply after_done|].
    apply after_bind; [apply MapAddr_safe, good_hs; [done|apply Hg]|]. intros s2 Hg2. apply after_done. by apply good_emit.
  - unfold GotOutboundLIM. destruct (negb _); [by apply after_done|]. apply SendOurLIM_safe, good_hs; [done|apply Hg].
  - apply after_done. by apply good_emit.
Qed.

Lemma HandleMessage_safe s0 e d s : good s0 s -> Dv d -> safe_after s0 (HandleMessage_call p e d s).
Proof.
  intros Hg Hd. unfold HandleMessage_call. assert (good s0 (emit (HandleMessage d) s)) by (by apply good_emit).
  destruct (decode_LIM p d); [by apply GotLIM_safe|by apply after_done].
Qed.

(** *** Packets of the transfer *)

Lemma ACKS_safe m g : exists pkt g', ACKS m g = Done (pkt, g') /\ (64 <= length pkt)%nat.
Proof.
  destruct (ACKS_spec m g) as (pkt&g'&pad&->&Hp). eexists _, _. split; [done|].
  rewrite (is_packet_length _ _ _ Hp). lia.
Qed.

Lemma HandleRecvMsgCompleted_safe s0 e msg s : good s0 s -> Dv (i_Data msg) ->
  safe_after s0 (HandleRecvMsgCompleted p e msg s).
Proof.
  intros Hg Hd. unfold HandleRecvMsgCompleted. apply after_bind; [|intros s1 Hg1; by apply after_done, good_erase_RX].
  destruct (m_ReplayFilter (tr s) !! i_MsgID msg); [by apply after_done|].
  apply after_bind; [apply HandleMessage_safe; [|done]; apply good_tr; [done|apply Hg..]|]. intros s1 Hg1.
  destruct (ACKS_safe msg (rnd s1)) as (acks&g&->&Hl). cbn [obind]. apply EncryptAndSend_safe; [by apply good_rnd|done].
Qed.

Lemma emplace_MACK_good s0 id s : good s0 s -> good s0 (emplace_MACK id s).
Proof. intros Hg. apply good_tr; [done|apply Hg..]. Qed.

Lemma HandleACKS_safe s0 e data s : good s0 s -> safe_after s0 (HandleACKS e data s).
Proof.
  intros Hg. unfold HandleACKS, PacketOverhead, HMACSIZE, TUNNONCESIZE.
  destruct (bool_decide _) eqn:El; [by apply after_done|]. apply bool_decide_eq_false in El. cbn zeta.
  assert (good s0 (on_ac (ac_m_LastRX (Now e)) s)) as Hg1 by (by apply good_ac). set (s1 := on_ac _ s) in *.
  rewrite load_done by lia. cbn [obind]. set (txid := load_big_to_host 8 _).
  destruct (m_TXMsgs (tr s1) !! txid) as [msg|] eqn:Et; [|by apply after_done]. rewrite load_done by lia. cbn [obind].
  destruct (ok_tx _ (g_ok _ _ Hg) _ _ Et) as (E1&E2&E3). set (msg' := Ack msg _).
  assert (good s0 (put_TX txid msg' s1)) as Hg2 by (by apply good_put_TX).
  rewrite (IsTransmitted_spec msg') by done. cbn [obind]. destruct (forallb _ _).
  - cbn [Completed]. apply after_bind; [by apply run_handler_safe, good_put_TX|].
    intros s2 Hg3. by apply after_done, good_erase_TX.
  - destruct (FlushUnAcked_safe msg' (Now e) (rnd (put_TX txid msg' s1)) E2) as (pkts&m2&g&->&Hp&D1&D2&D3). cbn [obind].
    apply EncryptAndSend_all_safe; [|done]. apply good_put_TX; [by apply good_rnd|cbn in *; congruence..].
Qed.

Lemma mack_loop_safe s0 e data n : forall ptr s, good s0 s -> (ptr + n * 8 <= length data)%nat ->
  safe_after s0 (mack_loop n e data ptr s).
Proof.
  induction n as [|n IH]; intros ptr s Hg Hl; cbn [mack_loop]; [by apply after_done|].
  rewrite load_done by lia. cbn [obind]. set (acked := load_big_to_host 8 _).
  apply after_bind; [|intros s1 Hg1; apply IH; [done|lia]].
  destruct (m_TXMsgs (tr s) !! acked) as [msg|] eqn:Et; [|by apply after_done].
  destruct (ok_tx _ (g_ok _ _ Hg) _ _ Et) as (E1&E2&E3). cbn [Completed].
  apply after_bind; [apply run_handler_safe, good_put_TX; [by apply good_ac|done..]|].
  intros s2 Hg2. by apply after_done, good_erase_TX.
Qed.

Lemma HandleMACK_safe s0 e data s : good s0 s -> safe_after s0 (HandleMACK e data s).
Proof.
  intros Hg. unfold HandleMACK, PacketOverhead, CommandOverhead, HMACSIZE, TUNNONCESIZE.
  destruct (bool_decide _) eqn:El; [by apply after_done|]. apply bool_decide_eq_false in El.
  rewrite load_done by lia. cbn [obind]. set (n := Z.to_nat _).
  destruct (bool_decide _) eqn:Em; [by apply after_done|]. apply bool_decide_eq_false in Em. apply mack_loop_safe; [done|lia].
Qed.

Lemma HandleNACK_safe s0 e data s : good s0 s -> safe_after s0 (HandleNACK e data s).
Proof.
  intros Hg. unfold HandleNACK, PacketOverhead, CommandOverhead, HMACSIZE, TUNNONCESIZE.
  destruct (bool_decide _) eqn:El; [by apply after_done|]. apply bool_decide_eq_false in El.
  rewrite load_done by lia. cbn [obind]. set (txid := load_big_to_host 8 _).
  apply after_bind; [|intros s1 Hg1; by apply after_done, good_ac].
  destruct (m_TXMsgs (tr s) !! txid) as [msg|] eqn:Et; [|by apply after_done].
  destruct (ok_tx _ (g_ok _ _ Hg) _ _ Et) as (E1&E2&E3).
  destruct (XMIT_safe msg (rnd s) E2 E3) as (xmit&g&->&Hx). cbn [obind]. apply EncryptAndSend_safe; [by apply good_rnd|done].
Qed.
(** *** Data of the peer

    [Pk] is the domain of the packets the peer sends. *)

Definition field (off n : nat) (data : list Z) : Z := load_big_to_host n (take n (drop off data)).
Definition command (data : list Z) : Z := be_value (take 1 (drop 65 data)).
(** A step of reassembly that stays in the domain. *)
Definition accepts (m : InboundMessage) (idx : Z) (buf : list Z) (now : Z) : Prop :=
  exists m', HandleData m idx buf now = Done m' /\ i_MsgID m' = i_MsgID m /\ Rx (i_MsgID m) m'.

Context (Pk : list Z -> Prop).
Context (Pk_length : forall data, Pk data -> (66 <= length data)%nat).
Context (Pk_xmit : forall data now, Pk data -> command data = 1 -> (108 <= length data)%nat ->
  let m := InboundMessage_new (field 68 8 data) (field 66 2 data) (take 32 (drop 76 data)) now in
  let sz := Z.min (field 66 2 data) 1024 in
  Rx (field 68 8 data) m /\ (data_size data - 108 = sz -> accepts m 0 (drop (length data - Z.to_nat sz) data) now)).
Context (Pk_data : forall data m now, Pk data -> command data = 2 -> (76 <= length data)%nat ->
  i_MsgID m = field 68 8 data -> Rx (field 68 8 data) m -> accepts m (field 66 2 data) (drop 76 data) now).
Context (Rx_complete : forall id m, Rx id m -> exists b, IsCompleted m = Done b).
Context (Rx_deliver : forall id m, Rx id m -> IsCompleted m = Done true -> Verify m = true -> Dv (i_Data m)).

Lemma take_all_drop {A} (l : list A) n k : (n + k = length l)%nat -> take n (drop k l) = drop k l.
Proof. intros E. apply take_ge. rewrite length_drop. lia. Qed.

Lemma HandleXMIT_safe s0 e data s : good s0 s -> Pk data -> command data = 1 ->
  safe_after s0 (HandleXMIT p e data s).
Proof.
  intros Hg HP Hc. unfold HandleXMIT, XMITOverhead, PacketOverhead, CommandOverhead, HMACSIZE, TUNNONCESIZE.
  destruct (bool_decide _) eqn:El; [by apply after_done|]. apply bool_decide_eq_false in El.
  rewrite !load_done by lia. cbn [obind]. cbn [Nat.add].
  destruct (Pk_xmit data (Now e) HP Hc ltac:(lia)) as [Hnew Hfirst].
  change (load_big_to_host 2 (take 2 (drop 66 data))) with (field 66 2 data).
  change (load_big_to_host 8 (take 8 (drop 68 data))) with (field 68 8 data).
  set (rxid := field 68 8 data) in *. set (msg := InboundMessage_new _ _ _ _) in *.
  assert (good s0 (on_ac (ac_m_LastRX (Now e)) s)) as Hg1 by (by apply good_ac).
  set (s1 := on_ac _ s) in *. cbn zeta.
  destruct (m_ReplayFilter (tr s1) !! rxid); [by apply after_done, emplace_MACK_good|].
  destruct (m_RXMsgs (tr s1) !! rxid); [by apply after_done|].
  set (s2 := emit TriggerPump _). assert (good s0 s2) as Hg2 by (by apply good_emit; [apply good_put_RX|]).
  unfold FragmentSize. destruct (Z.eqb_spec (data_size data - Z.of_nat 108) (Z.min (field 66 2 data) 1024)) as [E|];
    [|by apply after_done].
  destruct (Hfirst ltac:(lia)) as (m'&HD&Eid&HR). unfold data_size in E.
  rewrite load_done by lia. cbn [obind]. rewrite take_all_drop by lia. rewrite HD. cbn [obind].
  assert (good s0 (put_RX rxid m' s2)) as Hg3 by (by apply good_put_RX).
  destruct (Rx_complete _ _ HR) as [b Eb]. rewrite Eb. cbn [obind]. destruct b; cbn [negb]; [|by apply after_done].
  destruct (Verify m') eqn:Ev; cbn [negb]; [|by apply after_done].
  apply HandleRecvMsgCompleted_safe; [done|]. by eapply Rx_deliver.
Qed.

Lemma HandleDATA_safe s0 e data s : good s0 s -> Pk data -> command data = 2 ->
  safe_after s0 (HandleDATA p e data s).
Proof.
  intros Hg HP Hc. unfold HandleDATA, PacketOverhead, CommandOverhead, HMACSIZE, TUNNONCESIZE.
  destruct (bool_decide _) eqn:El; [by apply after_done|]. apply bool_decide_eq_false in El. cbn zeta.
  rewrite load_done by lia. cbn [obind]. rewrite load_done by lia. cbn [obind Nat.add].
  change (load_big_to_host 2 (take 2 (drop 66 data))) with (field 66 2 data).
  change (load_big_to_host 8 (take 8 (drop 68 data))) with (field 68 8 data).
  set (rxid := field 68 8 data) in *.
  assert (good s0 (on_ac (ac_m_LastRX (Now e)) s)) as Hg1 by (by apply good_ac). set (s1 := on_ac _ s) in *.
  destruct (m_RXMsgs (tr s1) !! rxid) as [msg|] eqn:Er.
  - destruct (ok_rx _ (g_ok _ _ Hg) _ _ Er) as [Eid HR]. rewrite load_done by lia. cbn [obind].
    rewrite take_all_drop by lia. destruct (Pk_data data msg (Now e) HP Hc ltac:(lia) Eid HR) as (m'&HD&Eid'&HR').
    rewrite HD. cbn [obind]. rewrite Eid in *.
    assert (good s0 (put_RX rxid m' s1)) as Hg2 by (by apply good_put_RX).
    destruct (Rx_complete _ _ HR') as [b Eb]. rewrite Eb. cbn [obind]. destruct b; [|by apply after_done].
    destruct (Verify m') eqn:Ev; [|by apply after_done].
    apply HandleRecvMsgCompleted_safe; [done|]. by eapply Rx_deliver.
  - destruct (m_ReplayFilter (tr s1) !! rxid); [by apply after_done, emplace_MACK_good|].
    destruct (CreatePacket_padding eNACK 8 (rnd s1)) as (nonce&pad&g&Hn&->). rewrite write_host_as_big_spec.
    rewrite save_mid by (rewrite ?header_length, ?length_be_bytes; done). cbn [obind].
    apply EncryptAndSend_safe; [by apply good_rnd|]. rewrite length_app, header_length by done. unfold PacketOverhead, HMACSIZE, TUNNONCESIZE, CommandOverhead. lia.
Qed.

Lemma dispatch_safe s0 e data s : good s0 s -> Pk data -> safe_after s0 (dispatch p e data s).
Proof.
  intros Hg HP. unfold dispatch. pose proof (Pk_length _ HP). rewrite load_done by (unfold PacketOverhead, HMACSIZE, TUNNONCESIZE; lia).
  cbn [obind command_byte]. change (be_value (take 1 (drop (PacketOverhead + 1) data))) with (command data).
  destruct (Z.eqb_spec (command data) 1); [by apply HandleXMIT_safe|].
  destruct (Z.eqb_spec (command data) 2); [by apply HandleDATA_safe|].
  destruct (_ =? 3); [by apply HandleACKS_safe|]. destruct (_ =? 0); [by apply after_done, good_ac|].
  destruct (_ =? 4); [by apply HandleNACK_safe|]. destruct (_ =? 255); [by apply Close_safe|].
  destruct (_ =? 5); [by apply HandleMACK_safe|by apply after_done].
Qed.

Lemma dispatch_all_safe s0 e results : Forall Pk results -> forall s, good s0 s ->
  safe_after s0 (dispatch_all p e results s).
Proof.
  induction 1 as [|r results HP _ IH]; intros s Hg; cbn [dispatch_all]; [by apply after_done|].
  apply after_bind; [by apply dispatch_safe|]. done.
Qed.

Lemma save_ids_total ids : forall pkt ptr, (ptr + length ids * 8 <= length pkt)%nat ->
  exists pkt', save_ids ids pkt ptr = Done pkt' /\ length pkt' = length pkt.
Proof.
  induction ids as [|id ids IH]; intros pkt ptr Hp; cbn [save_ids length] in *; [by eexists|].
  rewrite write_host_as_big_spec, save_done by (rewrite length_be_bytes; lia). cbn [obind].
  destruct (IH (store pkt ptr (be_bytes 8 id)) (ptr + 8)%nat) as (pkt'&->&El).
  - rewrite length_store; rewrite ?length_be_bytes; lia.
  - eexists. split; [done|]. rewrite El. rewrite length_store; [done|]. rewrite length_be_bytes; lia.
Qed.

Lemma mack_packet_safe ids g : exists pkt g', mack_packet ids g = Done (pkt, g') /\ (64 <= length pkt)%nat.
Proof.
  unfold mack_packet. destruct (CreatePacket_padding eMACK (1 + length ids * 8) g) as (nonce&pad&g'&Hn&->).
  rewrite (replicate_add 1 (length ids * 8)). rewrite <- (app_assoc (replicate 1 0)).
  rewrite save_mid by (rewrite ?header_length; done). cbn [obind].
  set (pkt := _ ++ [_] ++ _). assert (length pkt = 3 + PacketOverhead + length ids * 8 + length pad)%nat as Hl.
  { unfold pkt. rewrite length_app, header_length, !length_app, length_replicate by done. unfold CommandOverhead, PacketOverhead, HMACSIZE, TUNNONCESIZE. cbn [length]. lia. }
  destruct (save_ids_total ids pkt (3 + PacketOverhead)%nat ltac:(lia)) as (pkt'&->&El). cbn [obind].
  eexists _, _. split; [done|]. unfold PacketOverhead, HMACSIZE, TUNNONCESIZE in *. lia.
Qed.

Lemma send_macks_safe s0 e fuel : forall s, good s0 s -> (length (m_SendMACKs (tr s)) <= fuel)%nat ->
  safe_after s0 (send_macks fuel e s).
Proof.
  induction fuel as [|fuel IH]; intros s Hg Hf; destruct (m_SendMACKs (tr s)) as [|x ids] eqn:Em; cbn [length] in Hf;
    try (cbn [send_macks]; rewrite Em; by apply after_done); [lia|].
  cbn [send_macks]. rewrite Em. set (k := Nat.min _ _). set (l := x :: ids) in *.
  destruct (mack_packet_safe (take k l) (rnd s)) as (mack&g&->&Hl). cbn [obind].
  assert (good s0 (on_tr (tr_m_SendMACKs (drop k l)) (set_rnd g s))) as Hg1.
  { apply good_tr; [by apply good_rnd|apply Hg..]. }
  destruct (EncryptAndSend_frame e mack _ (ok_encrypt _ (g_ok _ _ Hg1)) Hl) as (s2&->&Hfr&_). cbn [obind].
  apply IH; [eapply good_trans; [exact Hg1|]; apply frame_good; [apply Hg1|done]|].
  rewrite (f_tr _ _ Hfr). cbn. rewrite length_drop. subst k. cbn [length l]. unfold MaxACKSInMACK. cbn [length]. lia.
Qed.

Lemma SendMACK_safe s0 e s : good s0 s -> safe_after s0 (SendMACK e s).
Proof. intros Hg. by apply send_macks_safe. Qed.
(** *** Timers *)

Lemma SendKeepAlive_safe s0 e s : good s0 s -> exists b s', SendKeepAlive e s = Done (b, s') /\ good s0 s'.
Proof.
  intros Hg. unfold SendKeepAlive. destruct (bool_decide _); [|by eexists _, _].
  pose proof (CreatePacket_length ePING 0 16 16 (rnd s)) as Hl. unfold CreatePacket_padded.
  destruct (CreatePacket ePING 0 16 16 (rnd s)) as [ping g]. cbn [fst] in Hl.
  destruct (EncryptAndSend_safe s0 e ping (set_rnd g s)) as (s'&->&Hg'); [by apply good_rnd|done|]. by eexists _, _.
Qed.

Lemma elem_by_id {A} (m : gmap Z A) id x : (id, x) ∈ by_id m <-> m !! id = Some x.
Proof. unfold by_id. by rewrite merge_sort_Permutation, elem_of_map_to_list. Qed.

Lemma pump_acks_safe s0 e l : (forall id m, (id, m) ∈ l -> i_MsgID m = id /\ Rx id m) ->
  forall s, good s0 s -> safe_after s0 (pump_acks e l s).
Proof.
  induction l as [|[id m] l IH]; intros Hl s Hg; cbn [pump_acks]; [by apply after_done|].
  assert (forall id m, (id, m) ∈ l -> i_MsgID m = id /\ Rx id m) as Hl' by (intros; apply Hl; by right).
  destruct (Hl id m) as [Eid HR]; [by left|]. destruct (ShouldSendACKS m (Now e)); [|by apply IH].
  unfold SendACKS. destruct (ACKS_safe m (rnd s)) as (acks&g&->&Ha). cbn [obind].
  apply after_bind; [|intros s1 Hg1; by apply IH]. apply EncryptAndSend_safe; [|done].
  apply good_put_RX; [by apply good_rnd|done|by apply Rx_acked].
Qed.

Lemma pump_resend_safe s0 e l : (forall id m, (id, m) ∈ l -> o_MsgID m = id
    /\ data_size (o_Data m) <= MAX_LINK_MSG_SIZE /\ o_Digest m = short_hash (o_Data m)) ->
  forall s, good s0 s -> safe_after s0 (pump_resend e l s).
Proof.
  induction l as [|[id m] l IH]; intros Hl s Hg; cbn [pump_resend]; [by apply after_done|].
  destruct (Hl id m) as (E1&E2&E3); [by left|].
  destruct (FlushUnAcked_safe m (Now e) (rnd s) E2) as (pkts&m'&g&->&Hp&D1&D2&D3). cbn [obind].
  apply after_bind; [|intros s1 Hg1; apply IH; [|done]; intros; apply Hl; by right].
  apply EncryptAndSend_all_safe; [|done]. apply good_put_TX; [by apply good_rnd|congruence..].
Qed.

Lemma elem_to_resend now m id x : (id, x) ∈ to_resend now m -> m !! id = Some x.
Proof.
  unfold to_resend. rewrite merge_sort_Permutation. intros Hin. apply elem_by_id.
  by apply list_elem_of_In, List.filter_In in Hin as [Hin%list_elem_of_In _].
Qed.

Lemma good_qu s0 f s : good s0 s -> m_PlaintextRecv (f (qu s)) = m_PlaintextRecv (qu s) ->
  pkts_ok (m_EncryptNext (f (qu s))) -> good s0 (on_qu f s).
Proof.
  intros Hg Er Hp. eapply good_trans; [exact Hg|]. destruct (g_ok _ _ Hg). split; [done|done|].
  exists []. by rewrite app_nil_r.
Qed.

Lemma Pump_safe s0 e s : good s0 s -> safe_after s0 (Pump e s).
Proof.
  intros Hg. unfold Pump. apply after_bind.
  - destruct (_ || _); [|by apply after_done].
    apply after_bind.
    { destruct (ShouldPing e s); [|by apply after_done].
      destruct (SendKeepAlive_safe s0 e s Hg) as (b&s'&->&Hg'). by apply after_done. }
    intros s1 Hg1. apply after_bind.
    { apply pump_acks_safe; [|done]. intros id m Hin%elem_by_id. by apply (ok_rx _ (g_ok _ _ Hg1)). }
    intros s2 Hg2. apply pump_resend_safe; [|done]. intros id m Hin%elem_to_resend. by apply (ok_tx _ (g_ok _ _ Hg2)).
  - clear s Hg. intros s Hg. apply after_done. pose proof (ok_encrypt _ (g_ok _ _ Hg)) as Hp.
    set (s1 := if bool_decide (m_EncryptNext (qu s) = []) then s else _). assert (good s0 s1) as Hg1.
    { unfold s1. destruct (bool_decide _); [done|]. apply good_qu; [by apply good_emit|done|constructor]. }
    clearbody s1. destruct (bool_decide (m_DecryptNext (qu s1) = [])); [done|]. apply good_qu; [by apply good_emit|done|]. apply (g_ok _ _ Hg1).
Qed.

Lemma tick_tx_safe s0 e now l : (forall id m, (id, m) ∈ l -> o_MsgID m = id
    /\ data_size (o_Data m) <= MAX_LINK_MSG_SIZE /\ o_Digest m = short_hash (o_Data m)) ->
  forall s, good s0 s -> safe_after s0 (tick_tx e now l s).
Proof.
  induction l as [|[id m] l IH]; intros Hl s Hg; cbn [tick_tx]; [by apply after_done|].
  assert (forall id m, (id, m) ∈ l -> o_MsgID m = id /\ data_size (o_Data m) <= MAX_LINK_MSG_SIZE
    /\ o_Digest m = short_hash (o_Data m)) as Hl' by (intros; apply Hl; by right).
  destruct (Hl id m) as (E1&E2&E3); [by left|]. destruct (Outbound_IsTimedOut m now); [|by apply IH].
  cbn [InformTimeout]. apply after_bind; [|intros s1 Hg1; by apply IH, good_erase_TX].
  apply run_handler_safe, good_put_TX; [by apply good_ac|done..].
Qed.

Lemma tick_rx_safe s0 now l : forall s, good s0 s -> good s0 (tick_rx now l s).
Proof.
  induction l as [|[id m] l IH]; intros s Hg; cbn [tick_rx]; [done|].
  destruct (Inbound_IsTimedOut m now); [|by apply IH]. apply IH, good_erase_RX, good_tr; [done|apply Hg..].
Qed.

Lemma Tick_safe s0 e now s : good s0 s -> safe_after s0 (Tick e now s).
Proof.
  intros Hg. unfold Tick. set (s1 := if ShouldResetRates now s then _ else s).
  assert (good s0 s1) as Hg1 by (unfold s1; destruct (ShouldResetRates now s); [by apply good_ac, good_ac|done]).
  apply after_bind.
  - apply tick_tx_safe; [|done]. intros id m Hin%elem_by_id. by apply (ok_tx _ (g_ok _ _ Hg1)).
  - intros s2 Hg2. apply after_done. apply good_tr; [by apply tick_rx_safe| |]; apply (tick_rx_safe s0); done.
Qed.
(** *** The handshake *)

Context (ident_length : length (our_pubkey p) = 32%nat).
Context (onion_length : length (toPublic (RouterEncryptionSecret p)) = 32%nat).
Context (sign_length : forall m, length (parent_Sign p m) = 64%nat).

Lemma randbytes_cases n g : exists b g', randbytes n g = (b, g') /\ length b = n.
Proof.
  unfold randbytes. pose proof (randombytes_length n g). destruct (randombytes n g) as [b g']. by exists b, g'.
Qed.

Lemma save_total b off m : (off + length m <= length b)%nat -> exists b', save b off m = Done b' /\ length b' = length b.
Proof. intros Hl. rewrite save_done by done. eexists. split; [done|]. by apply length_store. Qed.

Lemma Start_safe s0 e s : good s0 s -> safe_after s0 (Start p e s).
Proof.
  intros Hg. unfold Start. destruct (m_Inbound s); [by apply after_done|]. unfold GenerateAndSendIntro.
  destruct (randbytes_cases TUNNONCESIZE (rnd s)) as (N&g&EN&HN). unfold randbytes in EN. rewrite EN. unfold TUNNONCESIZE in HN.
  set (b0 := replicate (IntroductionSIZE + PacketOverhead) 0). assert (length b0 = 224%nat) as H0' by apply length_replicate.
  unfold PacketOverhead, IntroductionSIZE, HMACSIZE, TUNNONCESIZE. cbn [Nat.add Nat.sub].
  destruct (save_total b0 64 (our_pubkey p)) as (b1&->&L1); [lia|]. cbn [obind].
  destruct (save_total b1 96 (toPublic (RouterEncryptionSecret p))) as (b2&->&L2); [lia|]. cbn [obind].
  destruct (save_total b2 128 N) as (b3&->&L3); [lia|]. cbn [obind].
  rewrite load_done by lia. cbn [obind]. set (sg := parent_Sign p _). assert (length sg = 64%nat) by apply sign_length.
  destruct (save_total b3 160 sg) as (b4&->&L4); [lia|]. cbn [obind].
  destruct (randbytes_cases 32 g) as (nonce&g'&->&Hn).
  destruct (save_total b4 32 nonce) as (b5&->&L5); [lia|]. cbn [obind].
  apply after_bind; [apply EncryptAndSend_safe; [by apply good_rnd|lia]|]. intros s1 Hg1.
  assert (good s0 (set_State Introduction s1)) by (by apply good_state).
  destruct (transport_dh_client _ _ _); [|by apply after_done]. apply after_done. apply good_hs; [done|]. apply Hg1.
Qed.

Lemma HandleGotIntro_safe s0 e pkt s : good s0 s -> safe_after s0 (HandleGotIntro p e pkt s).
Proof.
  intros Hg. unfold HandleGotIntro. destruct (bool_decide _) eqn:El; [by apply after_done|].
  apply bool_decide_eq_false in El. unfold PacketOverhead, IntroductionSIZE, HMACSIZE, TUNNONCESIZE in *.
  rewrite !load_done by lia. cbn [obind]. set (s1 := on_hs _ s).
  assert (good s0 s1) as Hg1 by (apply good_hs; [done|apply Hg]).
  destruct (negb _); [by apply after_done|]. destruct (transport_dh_server _ _ _) as [key|]; [|by apply after_done].
  assert (good s0 (on_hs (hs_m_SessionKey key) s1)) as Hg2 by (apply good_hs; [done|apply Hg1]).
  set (s2 := on_hs (hs_m_SessionKey key) s1) in *. cbn zeta.
  destruct (randbytes_cases 32 (rnd s2)) as (nonce&g&->&Hn).
  set (b0 := replicate _ 0). assert (length b0 = 88%nat) as H0' by apply length_replicate.
  destruct (save_total b0 32 nonce) as (b1&->&L1); [lia|]. cbn [obind].
  pose proof (ok_token _ (g_ok _ _ Hg2)). destruct (save_total b1 (32 + 32) (token (hs s2))) as (b2&->&L2); [lia|]. cbn [obind].
  apply after_bind; [apply EncryptAndSend_safe; [by apply good_ac, good_rnd|lia]|].
  intros s3 Hg3. by apply after_done, good_state.
Qed.

Lemma DecryptMessageInPlace_total key pkt : exists r, DecryptMessageInPlace key pkt = Done r
  /\ match r with Some d => length d = length pkt /\ (64 < length d)%nat | None => True end.
Proof.
  unfold DecryptMessageInPlace, PacketOverhead, HMACSIZE, TUNNONCESIZE.
  destruct (bool_decide _) eqn:El; [by eexists|]. apply bool_decide_eq_false in El.
  rewrite load_done by lia. cbn [obind]. destruct (hmac _ _) as [h|]; [|by eexists].
  rewrite load_done by lia. cbn [obind]. destruct (negb _); [by eexists|].
  rewrite load_done by lia. cbn [obind]. rewrite load_done by lia. cbn [obind].
  set (body := take _ _). assert (length body = length pkt - 64)%nat as Hb.
  { unfold body. rewrite length_take, length_drop. lia. }
  unfold xchacha20. destruct (stream_xor _ _ _) as [t|] eqn:Et; [|by eexists].
  apply stream_xor_length in Et. destruct (save_total pkt 64 t) as (d&->&Ld); [lia|]. eexists. split; [done|]. cbn. lia.
Qed.

Lemma HandleGotIntroAck_safe s0 e pkt s : good s0 s -> safe_after s0 (HandleGotIntroAck e pkt s).
Proof.
  intros Hg. unfold HandleGotIntroAck. destruct (bool_decide _) eqn:El; [by apply after_done|].
  apply bool_decide_eq_false in El. destruct (DecryptMessageInPlace_total (m_SessionKey (hs s)) pkt) as ([d|]&->&Hd);
    cbn [obind]; [|by apply after_done].
  unfold PacketOverhead, HMACSIZE, TUNNONCESIZE in *. rewrite load_done by lia. cbn [obind]. set (tok := take 24 _).
  assert (length tok = 24%nat) as Ht by (unfold tok; rewrite length_take, length_drop; lia).
  set (b0 := replicate _ 0). assert (length b0 = 88%nat) as H0' by apply length_replicate.
  destruct (save_total b0 (32 + 32) tok) as (b1&->&L1); [lia|]. cbn [obind]. cbn zeta.
  set (s1 := on_hs (hs_token tok) _). assert (good s0 s1) as Hg1 by (apply good_hs; [by apply good_ac|done]).
  destruct (randbytes_cases 32 (rnd s1)) as (nonce&g&->&Hn).
  destruct (save_total b1 32 nonce) as (b2&->&L2); [lia|]. cbn [obind].
  apply after_bind; [apply EncryptAndSend_safe; [by apply good_rnd|lia]|]. intros s3 Hg3. by apply after_done, good_state.
Qed.

Lemma HandleCreateSessionRequest_safe s0 e pkt s : good s0 s -> safe_after s0 (HandleCreateSessionRequest p e pkt s).
Proof.
  intros Hg. unfold HandleCreateSessionRequest.
  destruct (DecryptMessageInPlace_total (m_SessionKey (hs s)) pkt) as ([d|]&->&Hd); cbn [obind]; [|by apply after_done].
  destruct (bool_decide _) eqn:El; [by apply after_done|]. apply bool_decide_eq_false in El.
  unfold PacketOverhead, HMACSIZE, TUNNONCESIZE in *. rewrite load_done by lia. cbn [obind].
  destruct (negb _); [by apply after_done|]. by apply SendOurLIM_safe, good_state, good_ac.
Qed.

Lemma Recv_LL_safe s0 e data s : good s0 s -> exists b s', Recv_LL p e data s = Done (b, s') /\ good s0 s'.
Proof.
  intros Hg. unfold Recv_LL. cbn zeta. set (s1 := on_stats _ _). assert (good s0 s1) as Hg1 by (by apply good_ac, good_ac).
  assert (forall d, good s0 (HandleSessionData d s1)) as HD.
  { intros d. apply good_emit; [|done]. apply good_qu; [done|done|apply Hg1]. }
  destruct (m_State (hs s1)); try (by eexists _, _).
  - destruct (m_Inbound s1); [|by eexists _, _].
    destruct (DecryptMessageInPlace_total (m_SessionKey (hs s1)) data) as ([d|]&->&Hd); cbn [obind]; [|by eexists _, _].
    destruct (HandleGotIntro_safe s0 e d s1 Hg1) as (s'&->&Hg'). by eexists _, _.
  - destruct (m_Inbound s1).
    + destruct (HandleCreateSessionRequest_safe s0 e data s1 Hg1) as (s'&->&Hg'). by eexists _, _.
    + destruct (HandleGotIntroAck_safe s0 e data s1 Hg1) as (s'&->&Hg'). by eexists _, _.
Qed.
(** *** Runs *)

Record run_ok (s : Session) : Prop := mkRun {
  run_session : session_ok s;
  run_recv : Forall (Forall Pk) (m_PlaintextRecv (qu s));
  run_events : Forall event_ok (events s) }.

Lemma good_run s0 s : run_ok s0 -> good s0 s -> run_ok s.
Proof.
  intros [H01 H02 H03] [Hs Hr (ev&E&He)]. split; [done|by rewrite Hr|]. rewrite E. by apply Forall_app.
Qed.

Lemma run_recv_change f s : run_ok s -> m_EncryptNext (f (qu s)) = m_EncryptNext (qu s) ->
  Forall (Forall Pk) (m_PlaintextRecv (f (qu s))) -> run_ok (on_qu f s).
Proof. intros [[] Hr He] E Hf. split; [split; cbn; [by rewrite E|done..]|done|done]. Qed.

Lemma drain_plaintext_safe e fuel : forall s, run_ok s -> (length (m_PlaintextRecv (qu s)) <= fuel)%nat ->
  exists s', drain_plaintext p fuel e s = Done s' /\ run_ok s'.
Proof.
  induction fuel as [|fuel IH]; intros s Hs Hf; destruct (m_PlaintextRecv (qu s)) as [|batch rest] eqn:Er; cbn [length] in Hf;
    try (cbn [drain_plaintext]; rewrite Er; by exists s); [lia|].
  cbn [drain_plaintext]. rewrite Er. pose proof (run_recv _ Hs) as Hall. rewrite Er in Hall. inversion Hall as [|? ? Hb Hrest]; subst.
  assert (run_ok (on_qu (qu_m_PlaintextRecv rest) s)) as Hs1 by (by apply run_recv_change).
  destruct (dispatch_all_safe _ e batch Hb _ (good_refl _ (run_session _ Hs1))) as (s2&->&Hg). cbn [obind].
  apply IH; [by eapply good_run|]. rewrite (g_recv _ _ Hg). cbn. lia.
Qed.

Lemma HandlePlaintext_safe e s : run_ok s -> exists s', HandlePlaintext p e s = Done s' /\ run_ok s'.
Proof.
  intros Hs. unfold HandlePlaintext. destruct (m_PlaintextEmpty (qu s)); [by exists s|].
  assert (run_ok (on_qu (qu_m_PlaintextEmpty true) s)) as Hs1 by (apply run_recv_change; [done|done|apply Hs]).
  destruct (drain_plaintext_safe e _ _ Hs1 (le_n _)) as (s2&->&Hs2). cbn [obind].
  destruct (SendMACK_safe s2 e s2 (good_refl _ (run_session _ Hs2))) as (s3&->&Hg). cbn [obind].
  eexists. split; [done|]. eapply good_run; [exact Hs2|]. by apply good_emit.
Qed.

Lemma decrypt_all_safe key msgs :
  (forall pkt data, pkt ∈ msgs -> DecryptMessageInPlace key pkt = Done (Some data) -> Pk data) ->
  exists l, decrypt_all key msgs = Done l /\ Forall Pk l.
Proof.
  induction msgs as [|pkt msgs IH]; intros HP; cbn [decrypt_all]; [by eexists|].
  destruct IH as (l&El&Hl). { intros q d Hq. apply HP. by right. }
  destruct (DecryptMessageInPlace_total key pkt) as ([d|]&Ed&Hd); rewrite Ed; cbn [obind]; [|by exists l].
  rewrite load_done by (unfold PacketOverhead, HMACSIZE, TUNNONCESIZE; lia). cbn [obind]. rewrite El. cbn [obind].
  eexists. split; [done|]. destruct (_ =? _); [|done]. constructor; [|done]. apply (HP pkt); [by left|done].
Qed.

Lemma DecryptWorker_safe msgs s : run_ok s ->
  (forall pkt data, pkt ∈ msgs -> DecryptMessageInPlace (m_SessionKey (hs s)) pkt = Done (Some data) -> Pk data) ->
  exists s', DecryptWorker msgs s = Done s' /\ run_ok s'.
Proof.
  intros Hs HP. unfold DecryptWorker. destruct (decrypt_all_safe _ _ HP) as (l&->&Hl). cbn [obind]. eexists. split; [done|].
  set (s1 := on_qu _ s). assert (run_ok s1) as Hs1.
  { apply run_recv_change; [done|done|]. cbn. destruct (bool_decide _); [|apply Hs]. apply Forall_app. split; [apply Hs|by constructor]. }
  eapply good_run; [exact Hs1|]. apply good_emit; [|done]. apply good_refl, Hs1.
Qed.

Lemma run_safe op s : run_ok s -> allowed Pk op s -> exists s', run p op s = Done s' /\ run_ok s'.
Proof.
  intros Hs Ha. pose proof (good_refl _ (run_session _ Hs)) as Hg.
  assert (forall m, safe_after s m -> exists s', m = Done s' /\ run_ok s') as Hafter.
  { intros m (s'&->&Hg'). exists s'. split; [done|]. by eapply good_run. }
  assert (forall A (m : outcome (A * Session)), (exists b s', m = Done (b, s') /\ good s s') ->
    exists s', (let! (_, s) := m in Done s) = Done s' /\ run_ok s') as Hpair.
  { intros A m (b&s'&->&Hg'). exists s'. split; [done|]. by eapply good_run. }
  destruct op; cbn [run allowed] in *.
  - by apply Hafter, Start_safe.
  - by apply Hpair, Recv_LL_safe.
  - by apply HandlePlaintext_safe.
  - by apply Hpair, SendMessageBuffer_safe.
  - by apply Hafter, Pump_safe.
  - by apply Hafter, Tick_safe.
  - by apply Hpair, SendKeepAlive_safe.
  - by apply Hafter, SendOurLIM_safe.
  - by apply Hafter, Close_safe.
  - apply Hafter. pose proof (proj1 (Forall_forall _ _) (run_events _ Hs) _ Ha) as Hm. cbn in Hm.
    destruct (EncryptWorker_frame e msgs Hm s (ok_encrypt _ (run_session _ Hs))) as (s'&->&Hf&_).
    apply after_done, frame_good; [apply Hs|done].
  - apply DecryptWorker_safe; [done|apply Ha].
Qed.

Lemma session_reachable_ok s : reachable p Pk s -> run_ok s.
Proof.
  induction 1 as [now rc ai g|now g|op s s' _ IH Ha Hr].
  - split; [split; cbn; [constructor|by intros ?..|done]|constructor|constructor].
  - unfold new_inbound. pose proof (randombytes_length 24 g) as Hl. destruct (randombytes 24 g) as [tok g'].
    split; [split; cbn; [constructor|by intros ?..|done]|constructor|constructor].
  - destruct (run_safe op s IH Ha) as (s''&E&Hs). congruence.
Qed.
End Invariant.

(** ** What sessions promise *)

(** The sizes of the keys of the link layer, and of its link introductions. *)
Record parent_ok (p : LinkParent) : Prop := mkParentOk {
  pok_ident : length (our_pubkey p) = 32%nat;
  pok_onion : length (toPublic (RouterEncryptionSecret p)) = 32%nat;
  pok_sign m : length (parent_Sign p m) = 64%nat;
  pok_LIM N d : encode_LIM p N = Some d -> data_size d <= MAX_LINK_MSG_SIZE }.

Section Promises.
Context `{SodiumSpec} `{OxencSpec}.

(** What a domain of packets must promise for a session to stay in it: the
    hypotheses of the invariant. *)
Record Domain (Rx : Z -> InboundMessage -> Prop) (Dv : list Z -> Prop) (Pk : list Z -> Prop) : Prop := mkDomain {
  dom_acked id m t : Rx id m -> Rx id (mkInbound (i_Data m) (i_Digset m) (i_MsgID m) t (i_LastActiveAt m) (i_Acks m));
  dom_length data : Pk data -> (66 <= length data)%nat;
  dom_xmit data now : Pk data -> command data = 1 -> (108 <= length data)%nat ->
    let m := InboundMessage_new (field 68 8 data) (field 66 2 data) (take 32 (drop 76 data)) now in
    let sz := Z.min (field 66 2 data) 1024 in
    Rx (field 68 8 data) m
    /\ (data_size data - 108 = sz -> accepts Rx m 0 (drop (length data - Z.to_nat sz) data) now);
  dom_data data m now : Pk data -> command data = 2 -> (76 <= length data)%nat ->
    i_MsgID m = field 68 8 data -> Rx (field 68 8 data) m -> accepts Rx m (field 66 2 data) (drop 76 data) now;
  dom_complete id m : Rx id m -> exists b, IsCompleted m = Done b;
  dom_deliver id m : Rx id m -> IsCompleted m = Done true -> Verify m = true -> Dv (i_Data m) }.

Lemma domain_reachable p Rx Dv Pk s : parent_ok p -> Domain Rx Dv Pk -> reachable p Pk s -> run_ok Rx Dv Pk s.
Proof. intros [] []. by apply session_reachable_ok. Qed.

Lemma domain_run p Rx Dv Pk op s : parent_ok p -> Domain Rx Dv Pk -> reachable p Pk s -> allowed Pk op s ->
  exists s', run p op s = Done s' /\ run_ok Rx Dv Pk s'.
Proof. intros [] [] Hr. apply run_safe; try done. by apply session_reachable_ok with (p := p). Qed.

(** Any packet with a command that does not announce a message of the greatest
    size or beyond. *)
Definition sane_packet (data : list Z) : Prop :=
  (66 <= length data)%nat /\ bytes_ok data
  /\ (command data = 1 -> (108 <= length data)%nat -> be_value (take 2 (drop 66 data)) < MAX_LINK_MSG_SIZE).
Definition sane_inbound (_ : Z) (m : InboundMessage) : Prop := data_size (i_Data m) < MAX_LINK_MSG_SIZE /\ 0 <= i_Acks m.

Lemma field_value off n data : (off + n <= length data)%nat -> field off n data = be_value (take n (drop off data)).
Proof. intros Hl. unfold field. apply load_big_to_host_spec. rewrite length_take, length_drop. lia. Qed.

Lemma field_range off n data : (off + n <= length data)%nat -> bytes_ok data ->
  0 <= field off n data < 256 ^ Z.of_nat n.
Proof.
  intros Hl Hb. rewrite field_value by done.
  pose proof (be_value_range (take n (drop off data)) ltac:(by apply Forall_take, Forall_drop)) as Hr.
  rewrite length_take, length_drop in Hr. by rewrite Nat.min_l in Hr by lia.
Qed.

Lemma field_app a m c off n : off = length a -> n = length m -> field off n (a ++ m ++ c) = be_value m.
Proof.
  intros -> ->. rewrite field_value by (rewrite !length_app; lia). by rewrite drop_app_length, take_app_length.
Qed.

Lemma sane_accepts m idx buf now : 0 <= idx -> sane_inbound (i_MsgID m) m -> accepts sane_inbound m idx buf now.
Proof.
  intros Hi [Hs Ha]. unfold accepts, HandleData. destruct (Z.ltb_spec (data_size (i_Data m)) (idx + data_size buf)) as [|Hf]; [by exists m|].
  unfold data_size, MAX_LINK_MSG_SIZE in *. rewrite save_done by lia. cbn [obind].
  pose proof (Z.div_lt_upper_bound idx 1024 8 ltac:(lia) ltac:(lia)). pose proof (Z.div_pos idx 1024 ltac:(lia) ltac:(lia)).
  destruct (acks_set_spec (i_Acks m) (Z.to_nat (idx / FragmentSize)) Ha) as (a'&Ea&Ha'&_); [unfold FragmentSize; lia|].
  rewrite Z2Nat.id in Ea by (unfold FragmentSize; lia). rewrite Ea. cbn [obind].
  eexists. split; [done|]. cbn. split; [done|]. split; [|done]. unfold data_size. cbn. rewrite length_store by lia. done.
Qed.

Lemma sane_domain : Domain sane_inbound (fun _ => True) sane_packet.
Proof.
  split.
  - by intros id m t [].
  - by intros data (?&_).
  - intros data now (Hl&Hb&Hx) Hc H108 m sz. pose proof (field_range 66 2 data ltac:(lia) Hb) as Hr.
    rewrite <- (field_value 66 2 data) in Hx by lia. specialize (Hx Hc H108).
    assert (sane_inbound (field 68 8 data) m) as Hm.
    { split; [|done]. unfold m, InboundMessage_new, data_size. cbn [i_Data]. rewrite length_replicate. lia. }
    split; [done|]. intros _. apply sane_accepts; [lia|]. exact Hm.
  - intros data m now (Hl&Hb&Hx) Hc H76 Em Hm. pose proof (field_range 66 2 data ltac:(lia) Hb) as Hr.
    apply sane_accepts; [lia|]. by rewrite Em.
  - intros id m [Hm Ha]. eexists. apply IsCompleted_spec. lia.
  - done.
Qed.

(** *** An honest peer

    [hist] are the messages the peer sends, by their ids. *)
Definition history_ok (hist : gmap Z (list Z)) : Prop :=
  forall id d, hist !! id = Some d -> 0 <= id < 2 ^ 64 /\ data_size d <= MAX_LINK_MSG_SIZE.

(** Its packets, decrypted: the tag and nonce, the version and the command, and
    what [OutboundMessage::XMIT] and [FlushUnAcked] write, in any order and any
    number of times; and any packets with other commands. *)
Inductive honest_packet (hist : gmap Z (list Z)) : list Z -> Prop :=
  | honest_xmit pre id d : length pre = 64%nat -> hist !! id = Some d ->
      honest_packet hist (pre ++ [proto_version; command_byte eXMIT] ++ xmit_body d id (short_hash d))
  | honest_data pre id d k : length pre = 64%nat -> hist !! id = Some d -> (k < nfrags d)%nat ->
      honest_packet hist (pre ++ [proto_version; command_byte eDATA] ++ data_body d id k)
  | honest_other data : (66 <= length data)%nat -> command data <> 1 -> command data <> 2 -> honest_packet hist data.

Definition honest_inbound (hist : gmap Z (list Z)) (id : Z) (m : InboundMessage) : Prop :=
  exists d, hist !! id = Some d /\ copy_of d m.

Lemma command_app pre v c body : length pre = 64%nat -> command (pre ++ [v; c] ++ body) = c.
Proof.
  intros Hl. unfold command. replace (pre ++ [v; c] ++ body) with ((pre ++ [v]) ++ c :: body) by (by rewrite <- app_assoc).
  replace 65%nat with (length (pre ++ [v])) by (rewrite length_app; cbn [length]; lia). by rewrite drop_app_length.
Qed.
Lemma xmit_fields pre v c d id h : length pre = 64%nat -> length h = 32%nat -> 0 <= id < 2 ^ 64 ->
  data_size d <= MAX_LINK_MSG_SIZE -> let data := pre ++ [v; c] ++ xmit_body d id h in
  length data = (108 + length (frag d 0))%nat /\ field 66 2 data = data_size d /\ field 68 8 data = id
  /\ drop (length data - length (frag d 0)) data = frag d 0.
Proof.
  intros Hp Hh Hid Hd data. assert (length data = (108 + length (frag d 0))%nat) as Hl.
  { unfold data, xmit_body. rewrite !length_app, !length_be_bytes, Hp, Hh. cbn [length]. lia. }
  split; [done|]. unfold data, xmit_body, data_size, MAX_LINK_MSG_SIZE in *. split_and!.
  - rewrite app_assoc, field_app by (rewrite ?length_app, ?length_be_bytes; cbn [length]; lia).
    apply be_value_be_bytes. lia.
  - rewrite !app_assoc, <- (app_assoc _ h), <- (app_assoc _ (be_bytes 8 id)).
    rewrite field_app by (rewrite ?length_app, ?length_be_bytes; cbn [length]; lia). apply be_value_be_bytes. lia.
  - rewrite Hl. rewrite !app_assoc.
    match goal with |- drop ?n (?a ++ _) = _ => replace n with (length a) end; [apply drop_app_length|].
    rewrite !length_app, !length_be_bytes, Hp, Hh. cbn [length]. lia.
Qed.

Lemma data_fields pre v c d id k : length pre = 64%nat -> 0 <= id < 2 ^ 64 ->
  data_size d <= MAX_LINK_MSG_SIZE -> (k < nfrags d)%nat -> let data := pre ++ [v; c] ++ data_body d id k in
  (76 <= length data)%nat /\ field 66 2 data = frag_idx k /\ field 68 8 data = id /\ drop 76 data = frag d k.
Proof.
  intros Hp Hid Hd Hk data. pose proof (nfrags_bound d Hd). unfold data, data_body. split_and!.
  - rewrite !length_app, !length_be_bytes, Hp. cbn [length]. lia.
  - rewrite app_assoc, field_app by (rewrite ?length_app, ?length_be_bytes; cbn [length]; lia).
    apply be_value_be_bytes. unfold frag_idx. lia.
  - rewrite !app_assoc, <- (app_assoc _ (be_bytes 8 id)).
    rewrite field_app by (rewrite ?length_app, ?length_be_bytes; cbn [length]; lia). apply be_value_be_bytes. lia.
  - rewrite !app_assoc.
    match goal with |- drop ?n (?a ++ _) = _ => replace n with (length a) end; [apply drop_app_length|].
    rewrite !length_app, !length_be_bytes, Hp. cbn [length]. lia.
Qed.

Lemma frag0_length d : length (frag d 0) = Z.to_nat (Z.min (data_size d) 1024).
Proof. unfold frag, data_size. rewrite length_take, length_drop. lia. Qed.

Lemma honest_accepts hist d m k now : history_ok hist -> hist !! i_MsgID m = Some d -> copy_of d m ->
  (k = 0 \/ k < nfrags d)%nat -> accepts (honest_inbound hist) m (frag_idx k) (frag d k) now.
Proof.
  intros Hh Hd Hm Hk. destruct (Hh _ _ Hd) as [_ Hs].
  destruct (HandleData_frag d m k now Hs Hm Hk) as (m'&E&Hc&_&Eid&_). exists m'. split; [done|]. split; [done|]. by exists d.
Qed.

Lemma honest_domain hist : history_ok hist ->
  Domain (honest_inbound hist) (fun d => exists id, hist !! id = Some d) (honest_packet hist).
Proof.
  intros Hh. split.
  - intros id m t (d&E&Hm). by exists d.
  - intros data [pre id d Hp _|pre id d k Hp _ _|]; [rewrite !length_app, Hp; cbn [length]; lia..|done].
  - intros data now [pre id d Hp Ed|pre id d k Hp _ _|data' Hl Hc1 Hc2] Hc H108; [|by rewrite command_app in Hc|done].
    destruct (Hh _ _ Ed) as [Hid Hd].
    destruct (xmit_fields pre proto_version (command_byte eXMIT) d id (short_hash d) Hp (short_hash_length d) Hid Hd) as (El&E1&E2&E3).
    rewrite E1, E2. assert (data_size d < 2 ^ 16) by (unfold MAX_LINK_MSG_SIZE in Hd; lia).
    set (m := InboundMessage_new _ _ _ _). assert (copy_of d m) as Hm by (by apply copy_of_new).
    split; [by exists d|]. intros _. rewrite <- frag0_length, E3. apply (honest_accepts hist d m 0); [done|done|done|by left].
  - intros data m now [pre id d Hp Ed|pre id d k Hp Ed Hk|data' Hl Hc1 Hc2] Hc H76 Em (d'&Ed'&Hm); [by rewrite command_app in Hc| |done].
    destruct (Hh _ _ Ed) as [Hid Hd].
    destruct (data_fields pre proto_version (command_byte eDATA) d id k Hp Hid Hd Hk) as (El&E1&E2&E3).
    rewrite E2 in Em, Ed'. rewrite E1, E3. rewrite Ed in Ed'. injection Ed' as <-.
    apply honest_accepts; [done|by rewrite Em|done|by right].
  - intros id m (d&Ed&Hm&_). destruct (Hh _ _ Ed) as [_ Hd]. eexists. apply IsCompleted_spec. unfold data_size in *. lia.
  - intros id m (d&Ed&Hm) Hc _. destruct (Hh _ _ Ed) as [_ Hd]. exists id. by rewrite (copy_complete d m Hd Hm Hc).
Qed.
End Promises.

(** ** The handshake *)

Section Handshake.
Context `{SodiumSpec} `{OxencSpec}.

(** The state after a packet was encrypted to [c] and sent at once. *)
Definition sent_now (e : Env) (pkt c : list Z) (s : Session) : Session :=
  on_qu (qu_m_EncryptNext []) (Send_LL e c (emit TriggerPump (on_qu (qu_m_EncryptNext [pkt]) s))).

Lemma EncryptAndSend_now e pkt c s : m_State (hs s) <> Ready -> m_EncryptNext (qu s) = [] ->
  encrypt_packet (m_SessionKey (hs s)) pkt = Done c -> EncryptAndSend e pkt s = Done (sent_now e pkt c s).
Proof.
  intros Hs Hq Hc. unfold EncryptAndSend, IsEstablished, sent_now, on_qu, emit, qu_m_EncryptNext.
  cbn [hs qu m_EncryptNext]. rewrite Hq, bool_decide_false by done. cbn [negb app EncryptWorker hs]. by rewrite Hc.
Qed.

(** A packet of zeros after the nonce, filled with [body]. *)
Lemma nonce_packet nonce body : length nonce = 32%nat ->
  save (replicate (length body + PacketOverhead) 0) HMACSIZE nonce
    = Done (replicate 32 0 ++ nonce ++ replicate (length body) 0)
  /\ save (replicate 32 0 ++ nonce ++ replicate (length body) 0) PacketOverhead body
    = Done (replicate 32 0 ++ nonce ++ body)
  /\ save (replicate (length body + PacketOverhead) 0) PacketOverhead body
    = Done (replicate 32 0 ++ replicate 32 0 ++ body)
  /\ save (replicate 32 0 ++ replicate 32 0 ++ body) HMACSIZE nonce
    = Done (replicate 32 0 ++ nonce ++ body).
Proof.
  intros Hn. unfold PacketOverhead, HMACSIZE, TUNNONCESIZE.
  replace (replicate (length body + (32 + 32)) 0) with (replicate 32 0 ++ replicate 32 0 ++ replicate (length body) 0)
    by (rewrite <- !replicate_add; f_equal; lia).
  split_and!.
  - apply save_mid; by rewrite length_replicate.
  - rewrite app_assoc. replace (replicate (length body) 0) with (replicate (length body) 0 ++ []) by apply app_nil_r.
    rewrite save_mid by (rewrite ?length_app, ?length_replicate; lia). by rewrite app_nil_r, <- app_assoc.
  - rewrite app_assoc. replace (replicate (length body) 0) with (replicate (length body) 0 ++ []) by apply app_nil_r.
    rewrite save_mid by (rewrite ?length_app, ?length_replicate; lia). by rewrite app_nil_r, <- app_assoc.
  - apply save_mid; by rewrite length_replicate.
Qed.

(** The introduction a client sends first. *)
Definition intro_body (p : LinkParent) (N : list Z) : list Z :=
  our_pubkey p ++ toPublic (RouterEncryptionSecret p) ++ N
  ++ parent_Sign p (our_pubkey p ++ toPublic (RouterEncryptionSecret p) ++ N).

(** What the peers know of each other: the client has the server's identity and
    transport key, and the client's signatures verify under its identity. *)
Record peers (pc ps : LinkParent) (rc : RouterContact) (ai : list Z) : Prop := mkPeers {
  peer_rc : pubkey rc = our_pubkey ps;
  peer_ai : ai = toPublic (TransportSecretKey ps);
  peer_server_key : encryption_key (TransportSecretKey ps);
  peer_client_key : encryption_key (RouterEncryptionSecret pc);
  peer_dh : is_Some (scalarmult (take 32 (RouterEncryptionSecret pc)) ai);
  peer_ident : length (our_pubkey pc) = 32%nat;
  peer_sign m : length (parent_Sign pc m) = 64%nat /\ verify (our_pubkey pc) m (parent_Sign pc m) = true }.

Lemma GenerateAndSendIntro_spec e pc ps rc ai now g : peers pc ps rc ai ->
  exists N nonce c key s, Start pc e (new_outbound now rc ai g) = Done s
    /\ length N = 32%nat /\ length nonce = 32%nat
    /\ encrypt_packet (short_hash (pubkey rc)) (replicate 32 0 ++ nonce ++ intro_body pc N) = Done c
    /\ events s = [TriggerPump; SendTo_LL c]
    /\ dh_client ai (RouterEncryptionSecret pc) N = Some key /\ length key = 32%nat
    /\ m_Inbound s = false /\ m_State (hs s) = Introduction /\ m_SessionKey (hs s) = key /\ m_EncryptNext (qu s) = [].
Proof.
  intros [Erc Eai Hsk Hck Hdh Hid Hsig]. unfold Start, new_outbound. cbn [m_Inbound]. unfold GenerateAndSendIntro. cbn [rnd].
  pose proof (randombytes_length TUNNONCESIZE g) as HN. destruct (randombytes TUNNONCESIZE g) as [N g1]. cbn [fst] in HN.
  unfold TUNNONCESIZE in *. destruct (toPublic_key _ Hck) as [_ Hpub].
  set (sg := parent_Sign pc (our_pubkey pc ++ toPublic (RouterEncryptionSecret pc) ++ N)).
  destruct (Hsig (our_pubkey pc ++ toPublic (RouterEncryptionSecret pc) ++ N)) as [Hsl _]. fold sg in Hsl.
  replace (replicate (IntroductionSIZE + PacketOverhead) 0) with (replicate 64 0 ++ replicate 160 0) by reflexivity.
  rewrite (save_next (replicate 64 0) 160 128) by (rewrite ?length_replicate; done || lia). cbn [obind].
  rewrite (save_next _ 128 96) by (rewrite ?length_app, ?length_replicate, ?Hid, ?Hpub; done). cbn [obind].
  rewrite (save_next _ 96 64) by (rewrite ?length_app, ?length_replicate, ?Hid, ?Hpub, ?HN; done). cbn [obind].
  rewrite <- !app_assoc.
  assert (load (replicate 64 0 ++ our_pubkey pc ++ toPublic (RouterEncryptionSecret pc) ++ N ++ replicate 64 0)
    PacketOverhead (IntroductionSIZE - 64) = Done (our_pubkey pc ++ toPublic (RouterEncryptionSecret pc) ++ N)) as ->.
  { replace (our_pubkey pc ++ toPublic (RouterEncryptionSecret pc) ++ N ++ replicate 64 0)
      with ((our_pubkey pc ++ toPublic (RouterEncryptionSecret pc) ++ N) ++ replicate 64 0) by (by rewrite <- !app_assoc).
    apply load_mid; rewrite ?length_app, ?length_replicate, ?Hid, ?Hpub, ?HN; reflexivity. }
  cbn [obind]. fold sg. rewrite !app_assoc.
  rewrite (save_next _ 64 0) by (rewrite ?length_app, ?length_replicate, ?Hid, ?Hpub, ?HN, ?Hsl; done).
  cbn [obind]. change (replicate 0 0) with (@nil Z). rewrite app_nil_r. unfold randbytes.
  pose proof (randombytes_length 32 g1) as Hn. destruct (randombytes 32 g1) as [nonce g2]. cbn [fst] in Hn.
  rewrite <- !app_assoc. change (replicate 64 0) with (replicate 32 0 ++ replicate 32 0). rewrite <- app_assoc.
  rewrite save_mid by (rewrite ?length_replicate; done). cbn [obind].
  destruct (encrypt_packet_spec (short_hash (pubkey rc)) (replicate 32 0) nonce (intro_body pc N)) as (h'&c&Ec&_);
    [apply short_hash_length|done|done|].
  unfold intro_body in Ec. fold sg in Ec.
  erewrite EncryptAndSend_now; [|discriminate|reflexivity|exact Ec]. cbn [obind].
  destruct (dh_client_total ai (RouterEncryptionSecret pc) N Hdh) as (key&Ek&Hkl).
  change transport_dh_client with dh_client. cbn [m_ChosenAI sent_now set_State on_hs on_qu Send_LL on_ac emit set_rnd].
  rewrite Ek. eexists N, nonce, _, key, _. split; [reflexivity|]. by split_and!.
Qed.
Lemma SendMessageBuffer_hs e buf s : m_TXMsgs (tr s) = ∅ -> m_EncryptNext (qu s) = [] -> data_size buf <= MAX_LINK_MSG_SIZE ->
  exists s', SendMessageBuffer e buf None 0 s = Done (true, s') /\ hs s' = hs s /\ m_Inbound s' = m_Inbound s.
Proof.
  intros Ht Hq Hb. unfold SendMessageBuffer. rewrite Ht, map_size_empty. change (MaxSendQueueSize <=? Z.of_nat 0) with false.
  cbn [tr on_tr m_TXMsgs tr_m_TXID]. rewrite Ht, lookup_empty. cbn zeta. cbn [default from_option]. set (msg := OutboundMessage_new _ _ _ _ _).
  set (s1 := emit TriggerPump _). destruct (XMIT_safe msg (rnd s1) Hb eq_refl) as (xmit&g&->&Hx). cbn [obind].
  assert (pkts_ok (m_EncryptNext (qu (set_rnd g s1)))) as Hp by (cbn; rewrite Hq; constructor).
  destruct (EncryptAndSend_frame e xmit (set_rnd g s1) Hp Hx) as (s2&->&Hf&_). cbn [obind].
  destruct (FragmentSize <? data_size buf).
  - destruct (FlushUnAcked_safe msg (Now e) (rnd s2) Hb) as (pkts&msg'&g'&->&Hpk&_). cbn [obind].
    destruct (EncryptAndSend_all_frame e pkts Hpk (put_TX (m_TXID (tr s)) msg' (set_rnd g' s2))) as (s3&->&Hf3&_); [apply Hf|].
    cbn [obind]. eexists. split; [done|]. cbn. rewrite (f_hs _ _ Hf3), (f_inbound _ _ Hf3). cbn. by rewrite (f_hs _ _ Hf), (f_inbound _ _ Hf).
  - eexists. split; [done|]. cbn. by rewrite (f_hs _ _ Hf), (f_inbound _ _ Hf).
Qed.

Lemma SendOurLIM_hs p e s : parent_ok p -> m_TXMsgs (tr s) = ∅ -> m_EncryptNext (qu s) = [] ->
  exists s', SendOurLIM p e None s = Done s' /\ hs s' = hs s /\ m_Inbound s' = m_Inbound s.
Proof.
  intros Hp Ht Hq. unfold SendOurLIM. destruct (randombytes 32 (rnd s)) as [N g].
  destruct (encode_LIM p N) as [d|] eqn:E; [|by eexists].
  destruct (SendMessageBuffer_hs e d (set_rnd g s) Ht Hq (pok_LIM _ Hp _ _ E)) as (s'&->&Hh). by eexists.
Qed.

(** What the receiver of a sealed packet reads. *)
Lemma open_sealed key n body c : length key = 32%nat -> length n = 32%nat -> (0 < length body)%nat ->
  encrypt_packet key (replicate 32 0 ++ n ++ body) = Done c ->
  exists h, length h = 32%nat /\ DecryptMessageInPlace key c = Done (Some (h ++ n ++ body)) /\ length c = (64 + length body)%nat.
Proof.
  intros Hk Hn Hb Ec. destruct (encrypt_packet_spec key (replicate 32 0) n body Hk ltac:(done) Hn) as (h'&c'&E&Hh'&Hc'&_).
  destruct (decrypt_encrypted key (replicate 32 0) n body Hk ltac:(done) Hn Hb) as (c0&h&E0&Hh&Ed).
  rewrite Ec in E, E0. injection E as ->. injection E0 as <-. exists h. split; [done|]. split; [done|].
  rewrite !length_app, Hh', Hn, Hc'. lia.
Qed.

Lemma load_at a m c off n : off = length a -> n = length m -> load (a ++ m ++ c) off n = Done m.
Proof. intros -> ->. by apply load_mid. Qed.

(** The server's answer to an introduction. *)
Lemma HandleGotIntro_spec e pc ps rc ai h n N key s : peers pc ps rc ai -> length h = 32%nat -> length n = 32%nat -> length N = 32%nat ->
  dh_client ai (RouterEncryptionSecret pc) N = Some key -> length key = 32%nat ->
  m_State (hs s) <> Ready -> m_EncryptNext (qu s) = [] -> length (token (hs s)) = 24%nat ->
  exists nonce c s', HandleGotIntro ps e (h ++ n ++ intro_body pc N) s = Done s'
    /\ length nonce = 32%nat /\ encrypt_packet key (replicate 32 0 ++ nonce ++ token (hs s)) = Done c
    /\ events s' = events s ++ [TriggerPump; SendTo_LL c]
    /\ m_Inbound s' = m_Inbound s /\ m_EncryptNext (qu s') = [] /\ tr s' = tr s
    /\ hs s' = mkHandshake Introduction (m_RemoteRC (hs s)) key (token (hs s)) (our_pubkey pc)
         (toPublic (RouterEncryptionSecret pc)) (GotLIM_bound (hs s)) (m_SentClosed (hs s)).
Proof.
  intros [Erc Eai Hsk Hck Hdh Hid Hsig] Hh Hn HN Ek Hk Hst Hq Htok. destruct (toPublic_key _ Hck) as [_ Hpub].
  unfold HandleGotIntro, intro_body.
  set (ident := our_pubkey pc) in *. set (onion := toPublic (RouterEncryptionSecret pc)) in *.
  destruct (Hsig (ident ++ onion ++ N)) as [Hsl Hver]. set (sg := parent_Sign pc (ident ++ onion ++ N)) in *.
  set (pkt := h ++ n ++ ident ++ onion ++ N ++ sg).
  assert (forall a m c off k, pkt = a ++ m ++ c -> off = length a -> k = length m -> load pkt off k = Done m) as Hload
    by (intros a m c off k ->; by apply load_at).
  unfold IntroductionSIZE, PacketOverhead, HMACSIZE, TUNNONCESIZE. cbn [Nat.add Nat.sub].
  rewrite bool_decide_false by (unfold pkt; rewrite !length_app; lia).
  rewrite (Hload (h ++ n) ident (onion ++ N ++ sg)) by (rewrite ?length_app, <- ?app_assoc; done || lia). cbn [obind].
  rewrite (Hload (h ++ n ++ ident) onion (N ++ sg)) by (rewrite ?length_app, <- ?app_assoc; done || lia). cbn [obind].
  rewrite (Hload (h ++ n ++ ident ++ onion) N sg) by (rewrite ?length_app, <- ?app_assoc; done || lia). cbn [obind].
  rewrite (Hload (h ++ n ++ ident ++ onion ++ N) sg []) by (rewrite ?app_nil_r, ?length_app, <- ?app_assoc; done || lia). cbn [obind].
  rewrite (Hload (h ++ n) (ident ++ onion ++ N) sg) by (rewrite ?length_app, <- ?app_assoc; done || lia). cbn [obind].
  rewrite Hver. cbn [negb]. change transport_dh_server with dh_server.
  rewrite <- (dh_agree (RouterEncryptionSecret pc)), <- Eai, Ek by done. cbn zeta.
  cbn [token hs on_hs hs_m_SessionKey hs_m_RemoteOnionKey hs_m_ExpectedIdent rnd].
  destruct (randbytes_cases 32 (rnd s)) as (nonce&g&->&Hnonce).
  destruct (nonce_packet nonce (token (hs s)) Hnonce) as (E1&E2&_). rewrite Htok in E1, E2.
  unfold PacketOverhead, HMACSIZE, TUNNONCESIZE in E1, E2. cbn [Nat.add] in E1, E2. rewrite E1. cbn [obind]. rewrite E2. cbn [obind].
  destruct (encrypt_packet_spec key (replicate 32 0) nonce (token (hs s)) Hk ltac:(done) Hnonce) as (h'&c&Ec&_).
  erewrite EncryptAndSend_now; [|exact Hst|exact Hq|exact Ec]. cbn [obind].
  exists nonce, (h' ++ nonce ++ c). eexists. split; [reflexivity|]. split_and!; try done.
  cbn. by rewrite <- app_assoc.
Qed.
(** The client's answer to the server's token. *)
Lemma HandleGotIntroAck_spec e key n tok c s : m_SessionKey (hs s) = key -> length key = 32%nat -> length n = 32%nat -> length tok = 24%nat ->
  encrypt_packet key (replicate 32 0 ++ n ++ tok) = Done c -> m_State (hs s) <> Ready -> m_EncryptNext (qu s) = [] ->
  exists nonce c' s', HandleGotIntroAck e c s = Done s'
    /\ length nonce = 32%nat /\ encrypt_packet key (replicate 32 0 ++ nonce ++ tok) = Done c'
    /\ events s' = events s ++ [TriggerPump; SendTo_LL c']
    /\ m_State (hs s') = LinkIntro /\ m_SessionKey (hs s') = key /\ token (hs s') = tok.
Proof.
  intros Ek Hk Hn Ht Ec Hst Hq. destruct (open_sealed key n tok c Hk Hn ltac:(lia) Ec) as (h&Hh&Ed&El).
  unfold HandleGotIntroAck. rewrite bool_decide_false by (rewrite El; unfold PacketOverhead, HMACSIZE, TUNNONCESIZE; lia).
  rewrite Ek, Ed. cbn [obind]. replace (h ++ n ++ tok) with ((h ++ n) ++ tok ++ []) by (by rewrite app_nil_r, <- app_assoc).
  rewrite load_at by (rewrite ?length_app; unfold PacketOverhead, HMACSIZE, TUNNONCESIZE; lia). cbn [obind]. cbn zeta.
  cbn [rnd on_hs on_ac].
  destruct (randbytes_cases TUNNONCESIZE (rnd s)) as (nonce&g&->&Hnonce).
  destruct (nonce_packet nonce tok Hnonce) as (_&_&E3&E4). rewrite Ht in E3. change (24 + PacketOverhead)%nat with (24 + PacketOverhead)%nat in E3.
  rewrite E3. cbn [obind]. rewrite E4. cbn [obind].
  destruct (encrypt_packet_spec key (replicate 32 0) nonce tok Hk ltac:(done) Hnonce) as (h'&c'&Ec'&_).
  erewrite EncryptAndSend_now; [|exact Hst|exact Hq|cbn; rewrite Ek; exact Ec']. cbn [obind].
  exists nonce, (h' ++ nonce ++ c'). eexists. split; [reflexivity|]. split_and!; try done.
  cbn. by rewrite <- app_assoc.
Qed.

Lemma HandleCreateSessionRequest_spec p e n c s : parent_ok p -> length (m_SessionKey (hs s)) = 32%nat -> length n = 32%nat ->
  length (token (hs s)) = 24%nat -> encrypt_packet (m_SessionKey (hs s)) (replicate 32 0 ++ n ++ token (hs s)) = Done c ->
  m_TXMsgs (tr s) = ∅ -> m_EncryptNext (qu s) = [] ->
  exists s', HandleCreateSessionRequest p e c s = Done s' /\ hs s' = hs_m_State LinkIntro (hs s).
Proof.
  intros Hp Hk Hn Ht Ec Htx Hq. destruct (open_sealed _ n (token (hs s)) c Hk Hn ltac:(lia) Ec) as (h&Hh&Ed&El).
  unfold HandleCreateSessionRequest. rewrite Ed. cbn [obind].
  rewrite bool_decide_false by (rewrite !length_app; unfold PacketOverhead, HMACSIZE, TUNNONCESIZE; lia).
  replace (h ++ n ++ token (hs s)) with ((h ++ n) ++ token (hs s) ++ []) by (by rewrite app_nil_r, <- app_assoc).
  rewrite load_at by (rewrite ?length_app; unfold PacketOverhead, HMACSIZE, TUNNONCESIZE; lia). cbn [obind].
  rewrite bool_decide_true by done. cbn [negb].
  destruct (SendOurLIM_hs p e (set_State LinkIntro (on_ac (ac_m_LastRX (Now e)) s)) Hp Htx Hq) as (s'&->&Eh&_).
  by eexists.
Qed.

(** The counters [Recv_LL] updates before it dispatches on the state. *)
Definition counted (data : list Z) (s : Session) : Session :=
  on_stats (fun x => set_totalPacketsRX (u64 (totalPacketsRX x + 1)) x)
    (on_ac (fun a => ac_m_RXRate (u64 (m_RXRate a + data_size data)) a) s).

Lemma Recv_LL_counted p e data s : Recv_LL p e data s =
  match m_State (hs (counted data s)) with
  | Initial =>
      if m_Inbound (counted data s) then
        let! dec := DecryptMessageInPlace (m_SessionKey (hs (counted data s))) data in
        match dec with
        | Some data' => let! s := HandleGotIntro p e data' (counted data s) in Done (true, s)
        | None => Done (false, counted data s)
        end
      else Done (true, counted data s)
  | Introduction =>
      let! s := if m_Inbound (counted data s) then HandleCreateSessionRequest p e data (counted data s)
                else HandleGotIntroAck e data (counted data s) in Done (true, s)
  | _ => Done (true, HandleSessionData data (counted data s))
  end.
Proof. reflexivity. Qed.
End Handshake.


(** ** Theorems on runs *)


(** Two routers over the libsodium stand-in. *)
Definition demo_router (k : Z) : LinkParent :=
  mkParent (be_bytes 32 k) (be_bytes 32 k ++ be_bytes 32 (k * 9)) (be_bytes 32 k ++ be_bytes 32 (k * 9))
    (fun m => be_bytes 64 (be_value m + k)) (fun _ => Some [1; 2]) (fun _ => None).
Definition demo_env (now : Z) : Env := mkEnv now now false.

Lemma demo_router_ok k : parent_ok (demo_router k).
Proof.
  split; cbn [our_pubkey RouterEncryptionSecret parent_Sign encode_LIM demo_router].
  - apply length_be_bytes.
  - unfold toPublic. rewrite length_take, length_drop, length_app, !length_be_bytes. done.
  - intros m. apply length_be_bytes.
  - intros N d [= <-]. unfold data_size, MAX_LINK_MSG_SIZE. cbn. lia.
Qed.


(** C5: messages arrive unaltered.  When the packets that authenticate are
    those a peer makes for its messages - lost, repeated and reordered at will -
    every message a session hands to the router is one the peer sent, whole. *)
Theorem honest_delivery `{SodiumSpec} `{OxencSpec} p hist s d :
  parent_ok p -> history_ok hist -> reachable p (honest_packet hist) s -> HandleMessage d ∈ events s ->
  exists id, hist !! id = Some d.
Proof.
  intros Hp Hh Hr Hd. destruct (domain_reachable p _ _ _ s Hp (honest_domain hist Hh) Hr) as [_ _ He].
  by apply (proj1 (Forall_forall _ _) He) in Hd.
Qed.

(** A run that delivers a message: handshake, packet, pump, decryption, delivery. *)
Section Demo.
#[local] Existing Instance toy_sodium.
#[local] Existing Instance toy_sodium_spec.
#[local] Existing Instance be_oxenc.
#[local] Existing Instance be_oxenc_spec.

Definition demo_start : Session := new_outbound 0 (mkRC (be_bytes 32 5) false []) (be_bytes 32 45) 0.
Definition demo_seal (key : list Z) (n : Z) (body : list Z) : list Z :=
  match encrypt_packet key (replicate 32 0 ++ replicate 32 n ++ body) with Done c => c | _ => [] end.
Definition demo_key : list Z :=
  match run (demo_router 3) (OpStart (demo_env 1)) demo_start with Done s => m_SessionKey (hs s) | _ => [] end.
Definition demo_body : list Z := [proto_version; command_byte eXMIT] ++ xmit_body [1; 2; 3] 0 (short_hash [1; 2; 3]).
Definition demo_xmit : list Z := demo_seal demo_key 8 demo_body.

Fixpoint run_all (ops : list Op) (s : Session) : outcome Session :=
  match ops with [] => Done s | op :: ops => let! s := run (demo_router 3) op s in run_all ops s end.

Lemma run_all_reachable Pk ops : Forall (fun op => match op with OpSend _ _ _ _ | OpEncryptJob _ _ | OpDecryptJob _ => False | _ => True end) ops ->
  forall s s', reachable (demo_router 3) Pk s -> run_all ops s = Done s' -> reachable (demo_router 3) Pk s'.
Proof.
  induction 1 as [|op ops Ho _ IH]; intros s s' Hr E; cbn [run_all] in E; [by injection E as <-|].
  destruct (run (demo_router 3) op s) as [s1| |] eqn:E1; try discriminate. cbn [obind] in E.
  apply (IH s1); [|done]. apply (reach_step _ _ op s); [done| |done]. by destruct op.
Qed.

Definition demo_ops : list Op :=
  [OpStart (demo_env 1); OpRecv (demo_env 2) (demo_seal demo_key 9 (replicate 24 4)); OpRecv (demo_env 3) demo_xmit;
   OpPump (demo_env 4)].
(** Checks of a run: the job was queued, it opens to [body], [d] was delivered. *)
Definition queued (xmit : list Z) (ev : Event) : bool := match ev with QueueDecrypt m => bool_decide (m = [xmit]) | _ => false end.
Definition delivered (d : list Z) (ev : Event) : bool := match ev with HandleMessage m => bool_decide (m = d) | _ => false end.
Definition opened (xmit body : list Z) (s : Session) : bool :=
  match DecryptMessageInPlace (m_SessionKey (hs s)) xmit with
  | Done (Some d) => bool_decide (drop 64 d = body) && (64 <=? length d)%nat
  | _ => false
  end.
Definition delivers (ops : list Op) (s0 : Session) (xmit body d : list Z) : bool :=
  match run_all ops s0 with
  | Done s => existsb (queued xmit) (events s) && opened xmit body s
              && match run_all [OpDecryptJob [xmit]; OpPlaintext (demo_env 5)] s with
                 | Done s' => existsb (delivered d) (events s')
                 | _ => false
                 end
  | _ => false
  end.

Lemma delivers_reachable hist ops s0 xmit d id :
  Forall (fun op => match op with OpSend _ _ _ _ | OpEncryptJob _ _ | OpDecryptJob _ => False | _ => True end) ops ->
  reachable (demo_router 3) (honest_packet hist) s0 -> hist !! id = Some d ->
  delivers ops s0 xmit ([proto_version; command_byte eXMIT] ++ xmit_body d id (short_hash d)) d = true ->
  exists s, reachable (demo_router 3) (honest_packet hist) s /\ HandleMessage d ∈ events s.
Proof.
  intros Hops Hr0 Hh Hd. unfold delivers in Hd. destruct (run_all ops s0) as [s| |] eqn:E; [|discriminate Hd..].
  apply andb_true_iff in Hd as [[Hq Ho]%andb_true_iff Hd].
  pose proof (run_all_reachable _ ops Hops s0 s Hr0 E) as Hr.
  apply existsb_exists in Hq as (ev&Hin&Hev). destruct ev; try discriminate Hev. apply bool_decide_eq_true in Hev as ->.
  cbn [run_all] in Hd. destruct (run _ (OpDecryptJob [xmit]) s) as [s1| |] eqn:E1; [|discriminate Hd..].
  cbn [obind] in Hd. destruct (run _ (OpPlaintext (demo_env 5)) s1) as [s2| |] eqn:E2; [|discriminate Hd..]. cbn [obind] in Hd.
  exists s2. split.
  - apply (reach_step _ _ (OpPlaintext (demo_env 5)) s1); [|done|done].
    apply (reach_step _ _ (OpDecryptJob [xmit]) s); [done| |done]. split; [by apply list_elem_of_In|].
    intros pkt data Hpkt%list_elem_of_singleton Edec. subst pkt. unfold opened in Ho. rewrite Edec in Ho.
    apply andb_true_iff in Ho as [Ho%bool_decide_eq_true Hl%Nat.leb_le].
    rewrite <- (take_drop 64 data), Ho. apply honest_xmit; [rewrite length_take; lia|done].
  - apply existsb_exists in Hd as (ev&Hin'&Hev). destruct ev; try discriminate Hev. apply bool_decide_eq_true in Hev as ->.
    by apply list_elem_of_In.
Qed.

Lemma demo_runs : delivers demo_ops demo_start demo_xmit demo_body [1; 2; 3] = true.
Proof. vm_compute. reflexivity. Qed.

Lemma honest_delivery_witness : exists s id, reachable (demo_router 3) (honest_packet {[0 := [1; 2; 3]]}) s
  /\ HandleMessage [1; 2; 3] ∈ events s /\ ({[0 := [1; 2; 3]]} : gmap Z (list Z)) !! id = Some [1; 2; 3].
Proof.
  destruct (delivers_reachable {[0 := [1; 2; 3]]} demo_ops demo_start demo_xmit [1; 2; 3] 0) as (s&Hr&Hd).
  { repeat constructor. } { apply reach_outbound. } { apply lookup_singleton_eq. } { exact demo_runs. }
  exists s.
  destruct (honest_delivery (demo_router 3) {[0 := [1; 2; 3]]} s [1; 2; 3]) as [id Hid]; [apply demo_router_ok| |exact Hr|exact Hd|].
  - intros id d Hl. apply lookup_singleton_Some in Hl as [<- <-]. unfold data_size, MAX_LINK_MSG_SIZE. cbn. lia.
  - exists id. split; [exact Hr|]. split; [exact Hd|exact Hid].
Defined.
End Demo.

Lemma demo_peers : @peers toy_sodium (demo_router 3) (demo_router 5) (mkRC (be_bytes 32 5) false []) (be_bytes 32 45).
Proof.
  split.
  - reflexivity.
  - vm_compute. reflexivity.
  - split; vm_compute; reflexivity.
  - split; vm_compute; reflexivity.
  - by eexists.
  - reflexivity.
  - intros m. split; [apply length_be_bytes|].
    change (bool_decide (be_bytes 64 (be_value m + 3) = be_bytes 64 (be_value m + be_value (be_bytes 32 3))) = true).
    apply bool_decide_eq_true. rewrite be_value_be_bytes by lia. reflexivity.
Qed.


(** ** Findings *)

Section Findings.
Context `{SodiumSpec} `{OxencSpec}.

(** [HandlePlaintext] reads the command byte of every packet that decrypts, but
    decryption accepts packets that end before it. *)
Lemma short_packet_reads_past_end p e data s : length data = 65%nat -> dispatch p e data s = Fault.
Proof. intros Hl. unfold dispatch, PacketOverhead, HMACSIZE, TUNNONCESIZE, load. by rewrite bool_decide_false by lia. Qed.

(** The acknowledgement of our link introduction makes a session [Ready] in
    every state, also after [Close]. *)
Lemma closed_session_revives e s : m_State (hs s) = Closed -> too_many_sessions e = false ->
  exists s', run_handler e (Some (LIMSent, eDeliverySuccess)) s = Done s' /\ m_State (hs s') = Ready.
Proof. intros _ He. cbn [run_handler]. unfold MapAddr_call. rewrite He. by eexists. Qed.

(** An inbound message that timed out counts as received: when its sender starts
    it again, the answer is the acknowledgement of a delivery that never was. *)
Lemma timed_out_message_acknowledged p e now id m data s : Inbound_IsTimedOut m now = true ->
  (108 <= length data)%nat -> field 68 8 data = id ->
  exists s', HandleXMIT p e data (tick_rx now [(id, m)] s) = Done s'
    /\ m_SendMACKs (tr s') = mack_insert id (m_SendMACKs (tr s)) /\ events s' = events s.
Proof.
  intros Ht Hl Hid. cbn [tick_rx]. rewrite Ht. unfold HandleXMIT, XMITOverhead, PacketOverhead, CommandOverhead, HMACSIZE, TUNNONCESIZE.
  rewrite bool_decide_false by lia. rewrite !load_done by lia. cbn [obind Nat.add].
  change (load_big_to_host 8 (take 8 (drop 68 data))) with (field 68 8 data). rewrite Hid. cbn zeta.
  set (f := match m_ReplayFilter (tr s) !! id with Some _ => _ | None => _ end).
  assert (is_Some (f !! id)) as [t Ef].
  { unfold f. destruct (m_ReplayFilter (tr s) !! id) eqn:E; [by rewrite E|by rewrite lookup_insert_eq]. }
  cbn [tr on_ac erase_RX on_tr tr_m_RXMsgs tr_m_ReplayFilter m_ReplayFilter]. rewrite Ef. by eexists.
Qed.
End Findings.
