(* ===== verification/Decaying.v ===== *)
(** * Decaying hash sets and tables

    [llarp/util/decaying_hashset.hpp] and [decaying_hashtable.hpp]: values that
    are forgotten an interval after they were stored.  The replay filters of
    paths, the limits on path builds and the filter of router gossip are such
    sets.  Times are milliseconds; [clock] is [time_now_ms ()]. *)

From S2P Require Import Prelude.
Open Scope Z_scope.

Module DecayingHashSet.
Record t (K : Type) `{Countable K} := mk { m_CacheInterval : Z; m_Values : gmap K Z }.
Arguments mk {K _ _} _ _.
Arguments m_CacheInterval {K _ _} _.
Arguments m_Values {K _ _} _.

Section Operations.
Context {K : Type} `{Countable K}.

Definition new (cacheInterval : Z) : t K := mk cacheInterval ∅.
Definition Size (s : t K) : nat := size (m_Values s).
Definition Contains (v : K) (s : t K) : bool := bool_decide (is_Some (m_Values s !! v)).
(** [now == 0s] asks for the system's time. *)
Definition or_clock (clock now : Z) : Z := if now =? 0 then clock else now.
Definition Insert (clock : Z) (v : K) (now : Z) (s : t K) : bool * t K :=
  match m_Values s !! v with
  | Some _ => (false, s)
  | None => (true, mk (m_CacheInterval s) (<[v := or_clock clock now]> (m_Values s)))
  end.
Definition Upsert (clock : Z) (v : K) (s : t K) : t K := mk (m_CacheInterval s) (<[v := clock]> (m_Values s)).
Definition EraseIf (pred : K * Z -> bool) (s : t K) : t K :=
  mk (m_CacheInterval s) (filter (fun item => pred item = false) (m_Values s)).
Definition Decay (clock now : Z) (s : t K) : t K :=
  EraseIf (fun item => m_CacheInterval s + item.2 <=? or_clock clock now) s.
Definition Empty (s : t K) : bool := bool_decide (m_Values s = ∅).
Definition SetDecayInterval (interval : Z) (s : t K) : t K := mk interval (m_Values s).
Definition Remove (v : K) (s : t K) : t K := mk (m_CacheInterval s) (delete v (m_Values s)).
End Operations.
End DecayingHashSet.

Module DecayingHashTable.
Record t (K V : Type) `{Countable K} := mk { m_CacheInterval : Z; m_Values : gmap K (V * Z) }.
Arguments mk {K V _ _} _ _.
Arguments m_CacheInterval {K V _ _} _.
Arguments m_Values {K V _ _} _.

Section Table.
Context {K V : Type} `{Countable K}.

Definition EraseIf (pred : K * (V * Z) -> bool) (s : t K V) : t K V :=
  mk (m_CacheInterval s) (filter (fun item => pred item = false) (m_Values s)).
Definition Decay (now : Z) (s : t K V) : t K V := EraseIf (fun item => item.2.2 + m_CacheInterval s <=? now) s.
Definition Has (k : K) (s : t K V) : bool := bool_decide (is_Some (m_Values s !! k)).
Definition Put (clock : Z) (k : K) (v : V) (now : Z) (s : t K V) : bool * t K V :=
  match m_Values s !! k with
  | Some _ => (false, s)
  | None => (true, mk (m_CacheInterval s) (<[k := (v, if now =? 0 then clock else now)]> (m_Values s)))
  end.
Definition Get (k : K) (s : t K V) : option V := fst <$> m_Values s !! k.
Definition Remove (k : K) (s : t K V) : t K V := mk (m_CacheInterval s) (delete k (m_Values s)).
End Table.
End DecayingHashTable.

(** ** Rate limiting

    The users of the sets decay them to the present and then try to insert. *)

Section Limiter.
Context {K : Type} `{Countable K}.
Implicit Types s : DecayingHashSet.t K.

Fixpoint attempts (s : DecayingHashSet.t K) (l : list (K * Z)) : list bool :=
  match l with
  | [] => []
  | (v, now) :: l =>
      let '(ok, s) := DecayingHashSet.Insert 0 v now (DecayingHashSet.Decay 0 now s) in ok :: attempts s l
  end.

(** The contract: an attempt succeeds unless an earlier attempt for the same
    value succeeded less than the interval ago. *)
Definition free (interval : Z) (hist : list (K * Z)) (v : K) (now : Z) : bool :=
  forallb (fun x => negb (bool_decide (x.1 = v)) || (x.2 + interval <=? now)) hist.
Fixpoint limited (interval : Z) (hist l : list (K * Z)) : list bool :=
  match l with
  | [] => []
  | (v, now) :: l =>
      let ok := free interval hist v now in ok :: limited interval (if ok then (v, now) :: hist else hist) l
  end.

(** The set holds the successes of the last interval. *)
Definition tracks (hist : list (K * Z)) (last : Z) s : Prop :=
  (forall v t, DecayingHashSet.m_Values s !! v = Some t -> (v, t) ∈ hist)
  /\ forall v t, (v, t) ∈ hist -> last < t + DecayingHashSet.m_CacheInterval s -> DecayingHashSet.m_Values s !! v = Some t.

Lemma Decay_lookup now s v t : now <> 0 ->
  DecayingHashSet.m_Values (DecayingHashSet.Decay 0 now s) !! v = Some t
  <-> DecayingHashSet.m_Values s !! v = Some t /\ now < t + DecayingHashSet.m_CacheInterval s.
Proof.
  intros Hn. unfold DecayingHashSet.Decay, DecayingHashSet.EraseIf, DecayingHashSet.or_clock.
  rewrite (proj2 (Z.eqb_neq now 0) Hn). cbn. rewrite map_lookup_filter_Some. cbn. rewrite Z.leb_gt. intuition lia.
Qed.

Lemma tracks_decay hist last now s : tracks hist last s -> last <= now -> now <> 0 ->
  tracks hist now (DecayingHashSet.Decay 0 now s).
Proof.
  intros [H1 H2] Hl Hn. split.
  - intros v t Hv. apply Decay_lookup in Hv as [Hv _]; [|done]. by apply H1.
  - intros v t Hin Ht. cbn in Ht. apply Decay_lookup; [done|]. split; [apply H2; [done|lia]|done].
Qed.

Lemma free_spec hist now s v : tracks hist now s ->
  (forall t, DecayingHashSet.m_Values s !! v = Some t -> now < t + DecayingHashSet.m_CacheInterval s) ->
  free (DecayingHashSet.m_CacheInterval s) hist v now = bool_decide (DecayingHashSet.m_Values s !! v = None).
Proof.
  intros [H1 H2] Hrec. unfold free. destruct (DecayingHashSet.m_Values s !! v) as [t|] eqn:E.
  - rewrite bool_decide_false by done. apply not_true_iff_false. rewrite forallb_forall. intros Hall.
    specialize (Hall (v, t) ltac:(by apply list_elem_of_In, H1)). cbn in Hall. rewrite bool_decide_true in Hall by done.
    specialize (Hrec t eq_refl). apply Z.leb_le in Hall. lia.
  - rewrite bool_decide_true by done. apply forallb_forall. intros [v' t'] Hin. cbn. apply list_elem_of_In in Hin.
    destruct (decide (v' = v)) as [->|Hne]; [|by rewrite bool_decide_false]. apply orb_true_iff. right. apply Z.leb_le.
    destruct (decide (now < t' + DecayingHashSet.m_CacheInterval s)) as [Hlt|]; [|lia]. by rewrite (H2 v t' Hin Hlt) in E.
Qed.

Lemma attempts_limited hist last l s : tracks hist last s -> 0 <= last -> 0 < DecayingHashSet.m_CacheInterval s ->
  Sorted Z.le (last :: map snd l) -> Forall (fun x => 0 < x.2) l ->
  attempts s l = limited (DecayingHashSet.m_CacheInterval s) hist l.
Proof.
  revert hist last s. induction l as [|[v now] l IH]; intros hist last s Ht H0 HI Hs Hp; [done|].
  apply Sorted_inv in Hs as [Hs Hhd]. apply HdRel_inv in Hhd. inversion Hp as [|? ? Hnow Hp']; subst. cbn in Hnow, Hhd.
  cbn [attempts limited]. set (s1 := DecayingHashSet.Decay 0 now s).
  assert (tracks hist now s1) as Ht1 by (apply (tracks_decay hist last); [done|done|lia]).
  change (DecayingHashSet.m_CacheInterval s) with (DecayingHashSet.m_CacheInterval s1) in *.
  assert (forall t, DecayingHashSet.m_Values s1 !! v = Some t -> now < t + DecayingHashSet.m_CacheInterval s1) as Hrec.
  { intros t Hv. apply Decay_lookup in Hv as [_ Hv]; [done|lia]. }
  rewrite (free_spec hist now s1 v Ht1 Hrec). unfold DecayingHashSet.Insert.
  destruct (DecayingHashSet.m_Values s1 !! v) as [t|] eqn:E.
  - rewrite bool_decide_false by done. f_equal. apply (IH hist now); [done|lia|done|done|done].
  - rewrite bool_decide_true by done. f_equal.
    eapply (IH ((v, now) :: hist) now (DecayingHashSet.mk _ (<[v := _]> _))); [|lia|exact HI|done|done].
    destruct Ht1 as [H1 H2]. unfold DecayingHashSet.or_clock. rewrite (proj2 (Z.eqb_neq now 0)) by lia. split; cbn.
    + intros v' t' [[<- <-]|[_ Hv]]%lookup_insert_Some; [by left|right; by apply H1].
    + intros v' t' [[= -> ->]|Hin]%elem_of_cons Hlt; [apply lookup_insert_eq|].
      specialize (H2 v' t' Hin Hlt). destruct (decide (v' = v)) as [->|Hne]; [congruence|].
      by rewrite lookup_insert_ne.
Qed.
End Limiter.

(** A decaying set is a rate limiter.  Along attempts at positive, nondecreasing
    times, each made as [Decay] followed by [Insert], an attempt is accepted
    exactly when no attempt for the same value was accepted less than the
    set's interval before it. *)
Theorem decaying_set_limits {K} `{Countable K} (interval : Z) (l : list (K * Z)) :
  0 < interval -> Sorted Z.le (map snd l) -> Forall (fun x => 0 < x.2) l ->
  attempts (DecayingHashSet.new interval) l = limited interval [] l.
Proof.
  intros HI Hs Hp. apply (attempts_limited [] 0 l (DecayingHashSet.new interval)); [|done|done| |done].
  - split; cbn; [intros v t Hv; by rewrite lookup_empty in Hv|by intros v t Hin%elem_of_nil].
  - constructor; [done|]. destruct l as [|[v t] l]; constructor. inversion Hp as [|? ? Hx ?]; subst. cbn in *. lia.
Qed.

Lemma decaying_set_limits_witness :
  attempts (DecayingHashSet.new 500) [(7, 10); (7, 300); (8, 400); (7, 510); (7, 600)] = [true; false; true; true; false].
Proof.
  rewrite (decaying_set_limits 500 [(7, 10); (7, 300); (8, 400); (7, 510); (7, 600)]).
  - reflexivity.
  - lia.
  - cbn. repeat constructor; lia.
  - repeat constructor; cbn; lia.
Defined.
