(* ===== verification/Path.v ===== *)
(** * Onion paths

    [llarp/path/path.cpp], [ihophandler.cpp] and [transit_hop.cpp]: a client's
    path over a list of hops and the hop state of a relay.  Traffic is encrypted
    in layers with one stream cipher key per hop and a nonce that every hop
    changes.  Calls into the router, and closures handed to the event loop or a
    worker thread, are events; an operation that runs such a closure takes the
    batch from the event.  Routing messages are coded elsewhere and enter
    through [Routing]; times are milliseconds. *)

From S2P Require Import Prelude Buffer Crypto Decaying.
Open Scope Z_scope.

(** ** Constants *)

Definition PATHIDSIZE : nat := 16.
Definition max_len : nat := 8.
Definition pad_size : nat := 128.
Definition default_lifetime : Z := 20 * 60 * 1000.
Definition build_timeout : Z := 10000.
Definition latency_interval : Z := 20000.
Definition alive_timeout : Z := 30000.
Definition transit_hop_queue_size : nat := 256.
Definition PathReanimationTimeout : Z := 45000.
Definition MaxLatencySamples : nat := 8.
(** [MAX_LINK_MSG_SIZE - 128] and [MAX_LINK_MSG_SIZE / 2]: the arrays traffic is built in. *)
Definition relay_size : nat := 63 * 128.
Definition routing_size : nat := 32 * 128.

Inductive PathStatus := ePathBuilding | ePathEstablished | ePathTimeout | ePathFailed | ePathIgnore | ePathExpired.
#[global] Instance PathStatus_eq_dec : EqDecision PathStatus.
Proof. solve_decision. Defined.

Definition ePathRoleAny : Z := 0.
Definition ePathRoleExit : Z := Z.shiftl 1 2.
Definition ePathRoleSVC : Z := Z.shiftl 1 3.

(** ** Data *)

(** A router contact: its keys, and the rest as it is. *)
Record HopRC := mkHopRC { rc_pubkey : list Z; rc_enckey : list Z; rc_other : list Z }.

Record PathHopConfig := mkHop {
  h_txID : list Z;
  h_rxID : list Z;
  h_rc : HopRC;
  h_commkey : list Z;
  h_shared : list Z;
  h_nonceXOR : list Z;
  h_upstream : list Z;
  h_nonce : list Z;
  h_lifetime : Z }.
Definition set_h_txID (v : list Z) (x : PathHopConfig) : PathHopConfig :=
  mkHop v (h_rxID x) (h_rc x) (h_commkey x) (h_shared x) (h_nonceXOR x) (h_upstream x) (h_nonce x) (h_lifetime x).
Definition set_h_rxID (v : list Z) (x : PathHopConfig) : PathHopConfig :=
  mkHop (h_txID x) v (h_rc x) (h_commkey x) (h_shared x) (h_nonceXOR x) (h_upstream x) (h_nonce x) (h_lifetime x).
Definition set_h_rc (v : HopRC) (x : PathHopConfig) : PathHopConfig :=
  mkHop (h_txID x) (h_rxID x) v (h_commkey x) (h_shared x) (h_nonceXOR x) (h_upstream x) (h_nonce x) (h_lifetime x).
Definition set_h_commkey (v : list Z) (x : PathHopConfig) : PathHopConfig :=
  mkHop (h_txID x) (h_rxID x) (h_rc x) v (h_shared x) (h_nonceXOR x) (h_upstream x) (h_nonce x) (h_lifetime x).
Definition set_h_shared (v : list Z) (x : PathHopConfig) : PathHopConfig :=
  mkHop (h_txID x) (h_rxID x) (h_rc x) (h_commkey x) v (h_nonceXOR x) (h_upstream x) (h_nonce x) (h_lifetime x).
Definition set_h_nonceXOR (v : list Z) (x : PathHopConfig) : PathHopConfig :=
  mkHop (h_txID x) (h_rxID x) (h_rc x) (h_commkey x) (h_shared x) v (h_upstream x) (h_nonce x) (h_lifetime x).
Definition set_h_upstream (v : list Z) (x : PathHopConfig) : PathHopConfig :=
  mkHop (h_txID x) (h_rxID x) (h_rc x) (h_commkey x) (h_shared x) (h_nonceXOR x) v (h_nonce x) (h_lifetime x).
Definition set_h_nonce (v : list Z) (x : PathHopConfig) : PathHopConfig :=
  mkHop (h_txID x) (h_rxID x) (h_rc x) (h_commkey x) (h_shared x) (h_nonceXOR x) (h_upstream x) v (h_lifetime x).
Definition set_h_lifetime (v : Z) (x : PathHopConfig) : PathHopConfig :=
  mkHop (h_txID x) (h_rxID x) (h_rc x) (h_commkey x) (h_shared x) (h_nonceXOR x) (h_upstream x) (h_nonce x) v.

(** A relayed message; the payload is an [Encrypted<MAX_LINK_MSG_SIZE - 128>]. *)
Record RelayMessage := mkRelay { pathid : list Z; X : Encrypted; Y : list Z }.
Definition payload (m : RelayMessage) : list Z := take (esz (X m)) (ebuf (X m)).
(** [msg.X = buf] on a message just made. *)
Definition make_X (buf : list Z) : Encrypted := Encrypted_assign relay_size (mkEncrypted (replicate relay_size 0) 0) buf.

(** Routing messages, and what their handlers read of them. *)
Inductive RoutingMessage :=
  | PathLatency (S T L : Z)
  | PathConfirm
  | DataDiscard (P : list Z) (S : Z)
  | PathTransfer
  | DHT (handled : bool) (reply : option (list Z))
  | ObtainExit | UpdateExit
  | UpdateExitVerify (T : Z)
  | RejectExit (T B : Z) (sig : list Z)
  | GrantExit (T : Z) (sig : list Z)
  | CloseExit (S : Z) (sig : list Z)
  | TransferTraffic (packets : list (list Z))
  | DHTReply (M : list Z)
  | HiddenServiceFrame (frame : list Z).

(** The codec of routing messages and the test of their signatures.  [BEncode]
    writes into an array, so what it wrote fits. *)
Class Routing := {
  routing_version : RoutingMessage -> Z;
  routing_encode : nat -> RoutingMessage -> option (list Z);
  routing_parse : list Z -> option RoutingMessage;
  routing_verify : RoutingMessage -> list Z -> bool }.
Class RoutingSpec `{Routing} : Prop := {
  routing_encode_fits n m l : routing_encode n m = Some l -> (length l <= n)%nat }.

Definition TrafficEvent : Type := list Z * list Z.

Inductive Event :=
  | TriggerPump
  | QueueUpstreamWork (msgs : list TrafficEvent)
  | QueueDownstreamWork (msgs : list TrafficEvent)
  | CallHandleAllUpstream (msgs : list RelayMessage)
  | CallHandleAllDownstream (msgs : list RelayMessage)
  | CallFlushUpstreamGather
  | CallFlushDownstreamGather
  | SendToOrQueue (remote : list Z) (msg : RelayMessage)
  | ParseRoutingMessage (buf : list Z)
  | MarkPathFail | MarkPathSuccess | MarkHopFail (router : list Z)
  | PersistSessionUntil (router : list Z) (until : Z)
  | CallLaterLatency
  | CallPathConfirm
  | CallBuildFailed (edge : list Z)
  | CallNodeDBRemove (router : list Z)
  | HandlePathBuildTimeout | HandlePathDied | HandlePathBuildFailedAt (edge : list Z)
  | BuiltHookCalled | DropHandlerCalled (P : list Z) (S : Z) | DataHandlerCalled (frame : list Z)
  | ExitUpdatedCalled | ExitClosedCalled | ObtainedExitCalled (n : nat) (backoff : Z)
  | ExitTrafficCalled (packet : list Z) (counter : Z)
  | DHTHandled.

(** What one call sees of its surroundings: the clocks, whether the router takes
    a message for a peer, and what the callbacks it invokes return. *)
Record Env := mkEnv { Now : Z; time_now_ms : Z; link_takes : RelayMessage -> bool; hook_ret : Event -> bool }.

(** ** [AlignedBuffer::operator^] *)
Definition xor_bytes (a b : list Z) : list Z := zip_with Z.lxor a b.
(** [AlignedBuffer::IsZero] of a whole number of words *)
Definition IsZero (a : list Z) : bool := forallb (Z.eqb 0) a.

(** ** [IHopHandler]: what paths and transit hops share *)

Record HopQueues := mkHopQueues {
  m_SequenceNum : Z;
  m_UpstreamQueue : list TrafficEvent;
  m_DownstreamQueue : list TrafficEvent;
  m_UpstreamReplayFilter : DecayingHashSet.t (list Z);
  m_DownstreamReplayFilter : DecayingHashSet.t (list Z) }.
Definition hq_m_SequenceNum (v : Z) (x : HopQueues) : HopQueues :=
  mkHopQueues v (m_UpstreamQueue x) (m_DownstreamQueue x) (m_UpstreamReplayFilter x) (m_DownstreamReplayFilter x).
Definition hq_m_UpstreamQueue (v : list TrafficEvent) (x : HopQueues) : HopQueues :=
  mkHopQueues (m_SequenceNum x) v (m_DownstreamQueue x) (m_UpstreamReplayFilter x) (m_DownstreamReplayFilter x).
Definition hq_m_DownstreamQueue (v : list TrafficEvent) (x : HopQueues) : HopQueues :=
  mkHopQueues (m_SequenceNum x) (m_UpstreamQueue x) v (m_UpstreamReplayFilter x) (m_DownstreamReplayFilter x).
Definition hq_m_UpstreamReplayFilter (v : DecayingHashSet.t (list Z)) (x : HopQueues) : HopQueues :=
  mkHopQueues (m_SequenceNum x) (m_UpstreamQueue x) (m_DownstreamQueue x) v (m_DownstreamReplayFilter x).
Definition hq_m_DownstreamReplayFilter (v : DecayingHashSet.t (list Z)) (x : HopQueues) : HopQueues :=
  mkHopQueues (m_SequenceNum x) (m_UpstreamQueue x) (m_DownstreamQueue x) (m_UpstreamReplayFilter x) v.
Definition HopQueues_new : HopQueues := mkHopQueues 0 [] [] (DecayingHashSet.new 1000) (DecayingHashSet.new 1000).
(** [NextSeqNo] *)
Definition bump_seq (q : HopQueues) : HopQueues := hq_m_SequenceNum (u64 (m_SequenceNum q + 1)) q.
Definition IHop_HandleUpstream (buf nonce : list Z) (q : HopQueues) : HopQueues :=
  hq_m_UpstreamQueue (m_UpstreamQueue q ++ [(buf, nonce)]) q.
Definition IHop_HandleDownstream (buf nonce : list Z) (q : HopQueues) : HopQueues :=
  hq_m_DownstreamQueue (m_DownstreamQueue q ++ [(buf, nonce)]) q.
Definition DecayFilters (clock now : Z) (q : HopQueues) : HopQueues :=
  hq_m_DownstreamReplayFilter (DecayingHashSet.Decay clock now (m_DownstreamReplayFilter q))
    (hq_m_UpstreamReplayFilter (DecayingHashSet.Decay clock now (m_UpstreamReplayFilter q)) q).

Section Crypt.
Context `{Sodium}.

(** [xchacha20] in place; its return code is ignored here. *)
Definition crypt (buf key nonce : list Z) : list Z := default buf (xchacha20 buf key nonce).

(** The loops of [Path::UpstreamWork] and [Path::DownstreamWork] over the hops. *)
Fixpoint encrypt_hops (hops : list PathHopConfig) (n buf : list Z) : list Z :=
  match hops with
  | [] => buf
  | hop :: hops => encrypt_hops hops (xor_bytes n (h_nonceXOR hop)) (crypt buf (h_shared hop) n)
  end.
Fixpoint decrypt_hops (hops : list PathHopConfig) (n buf : list Z) : list Z * list Z :=
  match hops with
  | [] => (n, buf)
  | hop :: hops =>
      let n := xor_bytes n (h_nonceXOR hop) in decrypt_hops hops n (crypt buf (h_shared hop) n)
  end.
End Crypt.

(** ** Paths *)

Record Timing := mkTiming {
  buildStarted : Z;
  m_LastRecvMessage : Z;
  m_LastLatencyTestTime : Z;
  m_LastLatencyTestID : Z;
  m_LatencySamples : list Z;
  intro_latency : Z;
  intro_expiresAt : Z }.
Definition tm_buildStarted (v : Z) (x : Timing) : Timing :=
  mkTiming v (m_LastRecvMessage x) (m_LastLatencyTestTime x) (m_LastLatencyTestID x) (m_LatencySamples x) (intro_latency x) (intro_expiresAt x).
Definition tm_m_LastRecvMessage (v : Z) (x : Timing) : Timing :=
  mkTiming (buildStarted x) v (m_LastLatencyTestTime x) (m_LastLatencyTestID x) (m_LatencySamples x) (intro_latency x) (intro_expiresAt x).
Definition tm_m_LastLatencyTestTime (v : Z) (x : Timing) : Timing :=
  mkTiming (buildStarted x) (m_LastRecvMessage x) v (m_LastLatencyTestID x) (m_LatencySamples x) (intro_latency x) (intro_expiresAt x).
Definition tm_m_LastLatencyTestID (v : Z) (x : Timing) : Timing :=
  mkTiming (buildStarted x) (m_LastRecvMessage x) (m_LastLatencyTestTime x) v (m_LatencySamples x) (intro_latency x) (intro_expiresAt x).
Definition tm_m_LatencySamples (v : list Z) (x : Timing) : Timing :=
  mkTiming (buildStarted x) (m_LastRecvMessage x) (m_LastLatencyTestTime x) (m_LastLatencyTestID x) v (intro_latency x) (intro_expiresAt x).
Definition tm_intro_latency (v : Z) (x : Timing) : Timing :=
  mkTiming (buildStarted x) (m_LastRecvMessage x) (m_LastLatencyTestTime x) (m_LastLatencyTestID x) (m_LatencySamples x) v (intro_expiresAt x).
Definition tm_intro_expiresAt (v : Z) (x : Timing) : Timing :=
  mkTiming (buildStarted x) (m_LastRecvMessage x) (m_LastLatencyTestTime x) (m_LastLatencyTestID x) (m_LatencySamples x) (intro_latency x) v.

(** Callbacks are set or not; what they return is in [Env]. *)
Record Exits := mkExits {
  _role : Z;
  m_UpdateExitTX : Z;
  m_CloseExitTX : Z;
  m_ExitObtainTX : Z;
  m_BuiltHook : bool;
  m_DataHandler : bool;
  m_DropHandler : bool;
  m_ExitUpdated : bool;
  m_ExitClosed : bool;
  m_ExitTrafficHandler : bool;
  m_ObtainedExitHooks : nat }.
Definition ex__role (v : Z) (x : Exits) : Exits :=
  mkExits v (m_UpdateExitTX x) (m_CloseExitTX x) (m_ExitObtainTX x) (m_BuiltHook x) (m_DataHandler x) (m_DropHandler x) (m_ExitUpdated x) (m_ExitClosed x) (m_ExitTrafficHandler x) (m_ObtainedExitHooks x).
Definition ex_m_UpdateExitTX (v : Z) (x : Exits) : Exits :=
  mkExits (_role x) v (m_CloseExitTX x) (m_ExitObtainTX x) (m_BuiltHook x) (m_DataHandler x) (m_DropHandler x) (m_ExitUpdated x) (m_ExitClosed x) (m_ExitTrafficHandler x) (m_ObtainedExitHooks x).
Definition ex_m_CloseExitTX (v : Z) (x : Exits) : Exits :=
  mkExits (_role x) (m_UpdateExitTX x) v (m_ExitObtainTX x) (m_BuiltHook x) (m_DataHandler x) (m_DropHandler x) (m_ExitUpdated x) (m_ExitClosed x) (m_ExitTrafficHandler x) (m_ObtainedExitHooks x).
Definition ex_m_ExitObtainTX (v : Z) (x : Exits) : Exits :=
  mkExits (_role x) (m_UpdateExitTX x) (m_CloseExitTX x) v (m_BuiltHook x) (m_DataHandler x) (m_DropHandler x) (m_ExitUpdated x) (m_ExitClosed x) (m_ExitTrafficHandler x) (m_ObtainedExitHooks x).
Definition ex_m_BuiltHook (v : bool) (x : Exits) : Exits :=
  mkExits (_role x) (m_UpdateExitTX x) (m_CloseExitTX x) (m_ExitObtainTX x) v (m_DataHandler x) (m_DropHandler x) (m_ExitUpdated x) (m_ExitClosed x) (m_ExitTrafficHandler x) (m_ObtainedExitHooks x).
Definition ex_m_DataHandler (v : bool) (x : Exits) : Exits :=
  mkExits (_role x) (m_UpdateExitTX x) (m_CloseExitTX x) (m_ExitObtainTX x) (m_BuiltHook x) v (m_DropHandler x) (m_ExitUpdated x) (m_ExitClosed x) (m_ExitTrafficHandler x) (m_ObtainedExitHooks x).
Definition ex_m_DropHandler (v : bool) (x : Exits) : Exits :=
  mkExits (_role x) (m_UpdateExitTX x) (m_CloseExitTX x) (m_ExitObtainTX x) (m_BuiltHook x) (m_DataHandler x) v (m_ExitUpdated x) (m_ExitClosed x) (m_ExitTrafficHandler x) (m_ObtainedExitHooks x).
Definition ex_m_ExitUpdated (v : bool) (x : Exits) : Exits :=
  mkExits (_role x) (m_UpdateExitTX x) (m_CloseExitTX x) (m_ExitObtainTX x) (m_BuiltHook x) (m_DataHandler x) (m_DropHandler x) v (m_ExitClosed x) (m_ExitTrafficHandler x) (m_ObtainedExitHooks x).
Definition ex_m_ExitClosed (v : bool) (x : Exits) : Exits :=
  mkExits (_role x) (m_UpdateExitTX x) (m_CloseExitTX x) (m_ExitObtainTX x) (m_BuiltHook x) (m_DataHandler x) (m_DropHandler x) (m_ExitUpdated x) v (m_ExitTrafficHandler x) (m_ObtainedExitHooks x).
Definition ex_m_ExitTrafficHandler (v : bool) (x : Exits) : Exits :=
  mkExits (_role x) (m_UpdateExitTX x) (m_CloseExitTX x) (m_ExitObtainTX x) (m_BuiltHook x) (m_DataHandler x) (m_DropHandler x) (m_ExitUpdated x) (m_ExitClosed x) v (m_ObtainedExitHooks x).
Definition ex_m_ObtainedExitHooks (v : nat) (x : Exits) : Exits :=
  mkExits (_role x) (m_UpdateExitTX x) (m_CloseExitTX x) (m_ExitObtainTX x) (m_BuiltHook x) (m_DataHandler x) (m_DropHandler x) (m_ExitUpdated x) (m_ExitClosed x) (m_ExitTrafficHandler x) v.
Record Rates := mkRates {
  m_LastRXRate : Z;
  m_RXRate : Z;
  m_LastTXRate : Z;
  m_TXRate : Z }.
Definition rt_m_LastRXRate (v : Z) (x : Rates) : Rates :=
  mkRates v (m_RXRate x) (m_LastTXRate x) (m_TXRate x).
Definition rt_m_RXRate (v : Z) (x : Rates) : Rates :=
  mkRates (m_LastRXRate x) v (m_LastTXRate x) (m_TXRate x).
Definition rt_m_LastTXRate (v : Z) (x : Rates) : Rates :=
  mkRates (m_LastRXRate x) (m_RXRate x) v (m_TXRate x).
Definition rt_m_TXRate (v : Z) (x : Rates) : Rates :=
  mkRates (m_LastRXRate x) (m_RXRate x) (m_LastTXRate x) v.

Section Path.
Context `{Sodium} `{Oxenc} `{Routing}.

(** A path has at least one hop: the constructor indexes [hops[hsz - 1]]. *)
Record Path := mkPath {
  hop0 : PathHopConfig;
  more_hops : list PathHopConfig;
  m_PathSet : bool;
  _status : PathStatus;
  tm : Timing;
  ex : Exits;
  rt : Rates;
  hq : HopQueues;
  rnd : rng;
  events : list Event }.
Definition hops (p : Path) : list PathHopConfig := hop0 p :: more_hops p.
Definition last_hop (p : Path) : PathHopConfig := List.last (more_hops p) (hop0 p).

Definition set_status (st : PathStatus) (p : Path) : Path :=
  mkPath (hop0 p) (more_hops p) (m_PathSet p) st (tm p) (ex p) (rt p) (hq p) (rnd p) (events p).
Definition on_tm (f : Timing -> Timing) (p : Path) : Path :=
  mkPath (hop0 p) (more_hops p) (m_PathSet p) (_status p) (f (tm p)) (ex p) (rt p) (hq p) (rnd p) (events p).
Definition on_ex (f : Exits -> Exits) (p : Path) : Path :=
  mkPath (hop0 p) (more_hops p) (m_PathSet p) (_status p) (tm p) (f (ex p)) (rt p) (hq p) (rnd p) (events p).
Definition on_rt (f : Rates -> Rates) (p : Path) : Path :=
  mkPath (hop0 p) (more_hops p) (m_PathSet p) (_status p) (tm p) (ex p) (f (rt p)) (hq p) (rnd p) (events p).
Definition on_hq (f : HopQueues -> HopQueues) (p : Path) : Path :=
  mkPath (hop0 p) (more_hops p) (m_PathSet p) (_status p) (tm p) (ex p) (rt p) (f (hq p)) (rnd p) (events p).
Definition set_rnd (g : rng) (p : Path) : Path :=
  mkPath (hop0 p) (more_hops p) (m_PathSet p) (_status p) (tm p) (ex p) (rt p) (hq p) g (events p).
Definition emit (ev : Event) (p : Path) : Path :=
  mkPath (hop0 p) (more_hops p) (m_PathSet p) (_status p) (tm p) (ex p) (rt p) (hq p) (rnd p) (events p ++ [ev]).

(** *** Accessors *)

Definition Endpoint (p : Path) : list Z := rc_pubkey (h_rc (last_hop p)).
Definition TXID (p : Path) : list Z := h_txID (hop0 p).
Definition RXID (p : Path) : list Z := h_rxID (hop0 p).
Definition Upstream (p : Path) : list Z := rc_pubkey (h_rc (hop0 p)).
Definition IsEndpoint (r id : list Z) (p : Path) : bool := bool_decide (Endpoint p = r) && bool_decide (h_txID (last_hop p) = id).
Definition ExpireTime (p : Path) : Z := buildStarted (tm p) + h_lifetime (hop0 p).
Definition ExpiresSoon (now dlt : Z) (p : Path) : bool := ExpireTime p - dlt <=? now.
Definition Expired (now : Z) (p : Path) : bool :=
  match _status p with
  | ePathFailed => true
  | ePathBuilding => false
  | ePathTimeout => m_LastRecvMessage (tm p) + PathReanimationTimeout <=? now
  | ePathEstablished | ePathIgnore => ExpireTime p <=? now
  | ePathExpired => true
  end.
Definition IsReady (e : Env) (p : Path) : bool :=
  if Expired (time_now_ms e) p then false
  else (0 <? intro_latency (tm p)) && bool_decide (_status p = ePathEstablished).
Definition SupportsAllRoles (roles : Z) (p : Path) : bool := Z.land (_role (ex p)) roles =? roles.
Definition SupportsAnyRoles (roles : Z) (p : Path) : bool := (roles =? ePathRoleAny) || negb (Z.lor (_role (ex p)) roles =? 0).
Definition ClearRoles (roles : Z) (p : Path) : Path := on_ex (fun x => ex__role (Z.land (_role x) (Z.lnot roles)) x) p.
Definition MarkActive (now : Z) (p : Path) : Path :=
  on_tm (fun t => tm_m_LastRecvMessage (Z.max now (m_LastRecvMessage t)) t) p.

(** *** State changes *)

Definition EnterState (st : PathStatus) (now : Z) (p : Path) : Path :=
  match st with
  | ePathFailed => set_status st p
  | _ =>
      let p :=
        if bool_decide (st = ePathExpired) && bool_decide (_status p = ePathBuilding) then
          let p := set_status st p in
          if m_PathSet p then emit HandlePathBuildTimeout p else p
        else if bool_decide (st = ePathBuilding) then on_tm (tm_buildStarted now) p
        else if bool_decide (st = ePathTimeout) && bool_decide (_status p = ePathEstablished) then
          let p := set_status st p in
          if m_PathSet p then emit HandlePathDied p else p
        else p in
      set_status st p
  end.

(** [do { id.Randomize(); } while (id.IsZero());] *)
Fixpoint random_id (fuel : nat) (g : rng) : outcome (list Z * rng) :=
  match fuel with
  | O => Timeout
  | S fuel =>
      let '(id, g) := randombytes PATHIDSIZE g in
      if IsZero id then random_id fuel g else Done (id, g)
  end.
Fixpoint random_hops (fuel : nat) (h : list HopRC) (g : rng) : outcome (list PathHopConfig * rng) :=
  match h with
  | [] => Done ([], g)
  | rc :: h =>
      let! (tx, g) := random_id fuel g in
      let! (rx, g) := random_id fuel g in
      let! (rest, g) := random_hops fuel h g in
      Done (mkHop tx rx rc (replicate 64 0) (replicate 32 0) (replicate 32 0) (replicate 32 0) (replicate 32 0) default_lifetime :: rest, g)
  end.
(** [hops[idx].txID = hops[idx + 1].rxID] *)
Fixpoint chain_ids (l : list PathHopConfig) : list PathHopConfig :=
  match l with
  | [] => []
  | h :: rest => match rest with h' :: _ => set_h_txID (h_rxID h') h | [] => h end :: chain_ids rest
  end.
(** The constructor, for a path set that is alive; an empty list of routers makes
    it index before the first hop. *)
Definition Path_new (fuel : nat) (h : list HopRC) (roles now : Z) (g : rng) : outcome Path :=
  let! (l, g) := random_hops fuel h g in
  match chain_ids l with
  | [] => Fault
  | h0 :: rest =>
      Done (EnterState ePathBuilding now
        (mkPath h0 rest true ePathBuilding (mkTiming 0 0 0 0 [] 0 0)
           (mkExits roles 0 0 0 false false false false false false 0) (mkRates 0 0 0 0) HopQueues_new g []))
  end.

(** *** Traffic *)

Definition HandleUpstream (e : Env) (buf nonce : list Z) (p : Path) : bool * Path :=
  let '(ok, filter) := DecayingHashSet.Insert (time_now_ms e) nonce 0 (m_UpstreamReplayFilter (hq p)) in
  let p := on_hq (hq_m_UpstreamReplayFilter filter) p in
  if ok then (true, emit TriggerPump (on_hq (IHop_HandleUpstream buf nonce) p)) else (false, p).
Definition HandleDownstream (e : Env) (buf nonce : list Z) (p : Path) : bool * Path :=
  let '(ok, filter) := DecayingHashSet.Insert (time_now_ms e) nonce 0 (m_DownstreamReplayFilter (hq p)) in
  let p := on_hq (hq_m_DownstreamReplayFilter filter) p in
  if ok then (true, emit TriggerPump (on_hq (IHop_HandleDownstream buf nonce) p)) else (false, p).

Definition FlushUpstream (p : Path) : Path :=
  match m_UpstreamQueue (hq p) with
  | [] => p
  | q => on_hq (hq_m_UpstreamQueue []) (emit (QueueUpstreamWork q) p)
  end.
Definition FlushDownstream (p : Path) : Path :=
  match m_DownstreamQueue (hq p) with
  | [] => p
  | q => on_hq (hq_m_DownstreamQueue []) (emit (QueueDownstreamWork q) p)
  end.

Definition UpstreamWork (msgs : list TrafficEvent) (p : Path) : Path :=
  emit (CallHandleAllUpstream
    (map (fun ev => mkRelay (TXID p) (make_X (encrypt_hops (hops p) ev.2 ev.1)) ev.2) msgs)) p.
Definition DownstreamWork (msgs : list TrafficEvent) (p : Path) : Path :=
  emit (CallHandleAllDownstream
    (map (fun ev => let '(n, buf) := decrypt_hops (hops p) ev.2 ev.1 in
                    mkRelay (replicate PATHIDSIZE 0) (make_X buf) n) msgs)) p.

Fixpoint send_upstream (e : Env) (msgs : list RelayMessage) (p : Path) : Path :=
  match msgs with
  | [] => p
  | msg :: msgs =>
      let p := emit (SendToOrQueue (Upstream p) msg) p in
      let p := if link_takes e msg then on_rt (fun r => rt_m_TXRate (u64 (m_TXRate r + Z.of_nat (length (payload msg)))) r) p else p in
      send_upstream e msgs p
  end.
Definition HandleAllUpstream (e : Env) (msgs : list RelayMessage) (p : Path) : Path :=
  emit TriggerPump (send_upstream e msgs p).

(** The padding is written after what [BEncode] wrote; [Fault] if it does not
    fit the array. *)
Definition pad_buffer (cap : nat) (l : list Z) (n : nat) (g : rng) : outcome (list Z * rng) :=
  if bool_decide (length l + n <= cap)%nat then let '(pad, g) := randombytes n g in Done (l ++ pad, g) else Fault.

Definition SendRoutingMessage (e : Env) (msg : RoutingMessage) (p : Path) : outcome (bool * Path) :=
  if negb (routing_version msg =? proto_version) then Done (false, p)
  else
    match routing_encode routing_size msg with
    | None => Done (false, p)
    | Some buf =>
        let '(N, g) := randombytes TUNNONCESIZE (rnd p) in
        let! (buf, g) :=
          if bool_decide (length buf < pad_size)%nat then pad_buffer routing_size buf (pad_size - length buf) g
          else Done (buf, g) in
        Done (HandleUpstream e buf N (set_rnd g p))
    end.

Definition SendLatencyMessage (e : Env) (p : Path) : outcome (bool * Path) :=
  let '(T, g) := randint (rnd p) in
  let S := m_SequenceNum (hq p) in
  let p := on_tm (fun t => tm_m_LastLatencyTestTime (Now e) (tm_m_LastLatencyTestID T t)) (on_hq bump_seq (set_rnd g p)) in
  let! (ok, p) := SendRoutingMessage e (PathLatency S T 0) p in
  if ok then Done (true, FlushUpstream p) else Done (false, p).

(** *** Routing messages *)

Definition HandlePathConfirmMessage (e : Env) (p : Path) : outcome (bool * Path) :=
  if bool_decide (_status p = ePathBuilding) then
    let expires := buildStarted (tm p) + h_lifetime (hop0 p) in
    let p := emit MarkPathSuccess (on_tm (tm_intro_expiresAt expires) p) in
    let p := emit (PersistSessionUntil (Upstream p) expires) p in
    SendLatencyMessage e (MarkActive (time_now_ms e) p)
  else Done (false, p).

Definition computeLatency (samps : list Z) : Z :=
  match samps with [] => 0 | _ => u64 (fold_left Z.add samps 0) / Z.of_nat (length samps) end.
Definition HandlePathLatencyMessage (e : Env) (p : Path) : bool * Path :=
  let p := MarkActive (Now e) p in
  if m_LastLatencyTestID (tm p) =? 0 then (true, p)
  else
    let samples := m_LatencySamples (tm p) ++ [Now e - m_LastLatencyTestTime (tm p)] in
    let samples := drop (length samples - MaxLatencySamples) samples in
    let p := on_tm (fun t => tm_m_LastLatencyTestID 0 (tm_intro_latency (computeLatency samples) (tm_m_LatencySamples samples t))) p in
    let p := EnterState ePathEstablished (Now e) p in
    let p := if m_BuiltHook (ex p) then emit BuiltHookCalled p else p in
    (true, on_ex (ex_m_BuiltHook false) p).

Definition HandleDataDiscardMessage (e : Env) (P : list Z) (S : Z) (p : Path) : bool * Path :=
  let p := MarkActive (Now e) p in
  if m_DropHandler (ex p) then (hook_ret e (DropHandlerCalled P S), emit (DropHandlerCalled P S) p) else (true, p).

Definition HandleDHTMessage (e : Env) (handled : bool) (reply : option (list Z)) (p : Path) : outcome (bool * Path) :=
  let p := emit DHTHandled (MarkActive (Now e) p) in
  if handled then
    match reply with
    | Some M => SendRoutingMessage e (DHTReply M) p
    | None => Done (true, p)
    end
  else Done (false, p).

Definition HandleHiddenServiceFrame (e : Env) (frame : list Z) (p : Path) : bool * Path :=
  if m_PathSet p then
    let p := MarkActive (Now e) p in
    if m_DataHandler (ex p) then (hook_ret e (DataHandlerCalled frame), emit (DataHandlerCalled frame) p) else (false, p)
  else (false, p).

Definition HandleUpdateExitVerifyMessage (e : Env) (T : Z) (p : Path) : bool * Path :=
  let x := ex p in
  if negb (m_UpdateExitTX x =? 0) && (T =? m_UpdateExitTX x) && m_ExitUpdated x
  then (hook_ret e ExitUpdatedCalled, emit ExitUpdatedCalled p)
  else if negb (m_CloseExitTX x =? 0) && (T =? m_CloseExitTX x) && m_ExitClosed x
  then (hook_ret e ExitClosedCalled, emit ExitClosedCalled p)
  else (false, p).

Definition HandleCloseExitMessage (msg : RoutingMessage) (p : Path) : bool * Path :=
  if SupportsAnyRoles (Z.lor ePathRoleExit ePathRoleSVC) p then
    if routing_verify msg (Endpoint p) then (true, ClearRoles ePathRoleExit p) else (false, p)
  else (false, p).

Fixpoint inform_hooks (e : Env) (n k : nat) (B : Z) (result : bool) (p : Path) : bool * Path :=
  match n with
  | O => (result, p)
  | S n => inform_hooks e n (S k) B (hook_ret e (ObtainedExitCalled k B) && result) (emit (ObtainedExitCalled k B) p)
  end.
Definition InformExitResult (e : Env) (B : Z) (p : Path) : bool * Path :=
  let '(result, p) := inform_hooks e (m_ObtainedExitHooks (ex p)) 0 B true p in
  (result, on_ex (ex_m_ObtainedExitHooks 0) p).

Definition HandleRejectExitMessage (e : Env) (msg : RoutingMessage) (T B : Z) (p : Path) : bool * Path :=
  let tx := m_ExitObtainTX (ex p) in
  if negb (tx =? 0) && (T =? tx) then
    if routing_verify msg (Endpoint p) then InformExitResult e B (MarkActive (Now e) p) else (false, p)
  else (false, p).
Definition HandleGrantExitMessage (e : Env) (msg : RoutingMessage) (T : Z) (p : Path) : bool * Path :=
  let tx := m_ExitObtainTX (ex p) in
  if negb (tx =? 0) && (T =? tx) then
    if routing_verify msg (Endpoint p) then
      InformExitResult e 0 (MarkActive (Now e) (on_ex (fun x => ex__role (Z.lor (_role x) ePathRoleExit) x) p))
    else (false, p)
  else (false, p).

Definition SendExitRequest (e : Env) (T : Z) (msg : RoutingMessage) (p : Path) : outcome (bool * Path) :=
  SendRoutingMessage e msg (on_ex (ex_m_ExitObtainTX T) p).
Definition SendExitClose (e : Env) (msg : RoutingMessage) (p : Path) : outcome (bool * Path) :=
  SendRoutingMessage e msg (ClearRoles ePathRoleExit p).

Fixpoint transfer_packets (e : Env) (pkts : list (list Z)) (p : Path) : Path :=
  match pkts with
  | [] => p
  | pkt :: pkts =>
      if bool_decide (length pkt <= 8)%nat then transfer_packets e pkts p
      else
        let ev := ExitTrafficCalled (drop 8 pkt) (load_big_to_host 8 (take 8 pkt)) in
        let p := emit ev p in
        let p := if hook_ret e ev then EnterState ePathEstablished (Now e) (MarkActive (Now e) p) else p in
        transfer_packets e pkts p
  end.
Definition HandleTransferTrafficMessage (e : Env) (pkts : list (list Z)) (p : Path) : bool * Path :=
  if negb (SupportsAnyRoles (Z.lor ePathRoleExit ePathRoleSVC) p) then (false, p)
  else if negb (m_ExitTrafficHandler (ex p)) then (false, p)
  else (negb (bool_decide (pkts = [])), transfer_packets e pkts p).

(** [ParseRoutingMessageBuffer]: the message's [HandleMessage] calls back. *)
Definition HandleRoutingMessage (e : Env) (buf : list Z) (p : Path) : outcome (bool * Path) :=
  let p := emit (ParseRoutingMessage buf) p in
  match routing_parse buf with
  | None => Done (false, p)
  | Some msg =>
      match msg with
      | PathLatency _ _ _ => Done (HandlePathLatencyMessage e p)
      | PathConfirm => HandlePathConfirmMessage e p
      | DataDiscard P seq => Done (HandleDataDiscardMessage e P seq p)
      | DHT handled reply => HandleDHTMessage e handled reply p
      | HiddenServiceFrame frame => Done (HandleHiddenServiceFrame e frame p)
      | UpdateExitVerify T => Done (HandleUpdateExitVerifyMessage e T p)
      | CloseExit _ _ => Done (HandleCloseExitMessage msg p)
      | RejectExit T B _ => Done (HandleRejectExitMessage e msg T B p)
      | GrantExit T _ => Done (HandleGrantExitMessage e msg T p)
      | TransferTraffic pkts => Done (HandleTransferTrafficMessage e pkts p)
      | PathTransfer | ObtainExit | UpdateExit | DHTReply _ => Done (false, p)
      end
  end.

Fixpoint HandleAllDownstream (e : Env) (msgs : list RelayMessage) (p : Path) : outcome Path :=
  match msgs with
  | [] => Done p
  | msg :: msgs =>
      let p := on_rt (fun r => rt_m_RXRate (u64 (m_RXRate r + Z.of_nat (length (payload msg)))) r) p in
      let! (ok, p) := HandleRoutingMessage e (payload msg) p in
      let p := if ok then on_tm (tm_m_LastRecvMessage (Now e)) (emit TriggerPump p) else p in
      HandleAllDownstream e msgs p
  end.

(** *** Timers *)

Definition Tick_alive (e : Env) (now : Z) (p : Path) : outcome Path :=
  let! (stop, p) :=
    if bool_decide (_status p = ePathEstablished) then
      if (latency_interval <? now - m_LastLatencyTestTime (tm p)) && (m_LastLatencyTestID (tm p) =? 0) then
        let! (_, p) := SendLatencyMessage e p in Done (true, emit CallLaterLatency p)
      else if alive_timeout <=? now - m_LastRecvMessage (tm p) then
        Done (false, EnterState ePathTimeout now (emit MarkPathFail p))
      else Done (false, p)
    else Done (false, p) in
  if stop then Done p
  else if bool_decide (_status p = ePathIgnore) && (alive_timeout <=? now - m_LastRecvMessage (tm p)) then
    Done (EnterState ePathExpired now p)
  else Done p.

Definition Tick (e : Env) (now : Z) (p : Path) : outcome Path :=
  if Expired now p then Done p
  else
    let p := on_rt (fun r => mkRates (m_RXRate r) 0 (m_TXRate r) 0) p in
    if bool_decide (_status p = ePathBuilding) then
      if buildStarted (tm p) =? 0 then Done p
      else if (buildStarted (tm p) <=? now) && (build_timeout <=? now - buildStarted (tm p)) then
        Done (EnterState ePathExpired now (emit MarkPathFail p))
      else Tick_alive e now p
    else Tick_alive e now p.

(** The closure of [call_later]: the latency test is repeated while unanswered. *)
Definition latency_retry (e : Env) (p : Path) : outcome Path :=
  if m_LastLatencyTestID (tm p) =? 0 then Done p else let! (_, p) := SendLatencyMessage e p in Done p.
End Path.

(** ** Transit hops *)

Record TransitHopInfo := mkInfo { i_txID : list Z; i_rxID : list Z; i_upstream : list Z; i_downstream : list Z }.
#[global] Instance TransitHopInfo_eq_dec : EqDecision TransitHopInfo.
Proof. solve_decision. Defined.

Module Transit.
Section Transit.
Context `{Sodium} `{Routing}.

(** The gather queues are the FIFO queues of [Queue] with their capacity.  Of
    the traffic that arrives for another path ([HandlePathTransferMessage],
    [m_FlushOthers]) only the call to the router is modelled. *)
Record TransitHop := mkTransit {
  info : TransitHopInfo;
  pathKey : list Z;
  nonceXOR : list Z;
  started : Z;
  lifetime : Z;
  m_LastActivity : Z;
  destroy : bool;
  hq : HopQueues;
  m_UpstreamGather : list RelayMessage;
  m_DownstreamGather : list RelayMessage;
  gather_enabled : bool;
  rnd : rng;
  events : list Event }.
Definition set_info (v : TransitHopInfo) (x : TransitHop) : TransitHop :=
  mkTransit v (pathKey x) (nonceXOR x) (started x) (lifetime x) (m_LastActivity x) (destroy x) (hq x) (m_UpstreamGather x) (m_DownstreamGather x) (gather_enabled x) (rnd x) (events x).
Definition set_pathKey (v : list Z) (x : TransitHop) : TransitHop :=
  mkTransit (info x) v (nonceXOR x) (started x) (lifetime x) (m_LastActivity x) (destroy x) (hq x) (m_UpstreamGather x) (m_DownstreamGather x) (gather_enabled x) (rnd x) (events x).
Definition set_nonceXOR (v : list Z) (x : TransitHop) : TransitHop :=
  mkTransit (info x) (pathKey x) v (started x) (lifetime x) (m_LastActivity x) (destroy x) (hq x) (m_UpstreamGather x) (m_DownstreamGather x) (gather_enabled x) (rnd x) (events x).
Definition set_started (v : Z) (x : TransitHop) : TransitHop :=
  mkTransit (info x) (pathKey x) (nonceXOR x) v (lifetime x) (m_LastActivity x) (destroy x) (hq x) (m_UpstreamGather x) (m_DownstreamGather x) (gather_enabled x) (rnd x) (events x).
Definition set_lifetime (v : Z) (x : TransitHop) : TransitHop :=
  mkTransit (info x) (pathKey x) (nonceXOR x) (started x) v (m_LastActivity x) (destroy x) (hq x) (m_UpstreamGather x) (m_DownstreamGather x) (gather_enabled x) (rnd x) (events x).
Definition set_m_LastActivity (v : Z) (x : TransitHop) : TransitHop :=
  mkTransit (info x) (pathKey x) (nonceXOR x) (started x) (lifetime x) v (destroy x) (hq x) (m_UpstreamGather x) (m_DownstreamGather x) (gather_enabled x) (rnd x) (events x).
Definition set_destroy (v : bool) (x : TransitHop) : TransitHop :=
  mkTransit (info x) (pathKey x) (nonceXOR x) (started x) (lifetime x) (m_LastActivity x) v (hq x) (m_UpstreamGather x) (m_DownstreamGather x) (gather_enabled x) (rnd x) (events x).
Definition set_hq (v : HopQueues) (x : TransitHop) : TransitHop :=
  mkTransit (info x) (pathKey x) (nonceXOR x) (started x) (lifetime x) (m_LastActivity x) (destroy x) v (m_UpstreamGather x) (m_DownstreamGather x) (gather_enabled x) (rnd x) (events x).
Definition set_m_UpstreamGather (v : list RelayMessage) (x : TransitHop) : TransitHop :=
  mkTransit (info x) (pathKey x) (nonceXOR x) (started x) (lifetime x) (m_LastActivity x) (destroy x) (hq x) v (m_DownstreamGather x) (gather_enabled x) (rnd x) (events x).
Definition set_m_DownstreamGather (v : list RelayMessage) (x : TransitHop) : TransitHop :=
  mkTransit (info x) (pathKey x) (nonceXOR x) (started x) (lifetime x) (m_LastActivity x) (destroy x) (hq x) (m_UpstreamGather x) v (gather_enabled x) (rnd x) (events x).
Definition set_gather_enabled (v : bool) (x : TransitHop) : TransitHop :=
  mkTransit (info x) (pathKey x) (nonceXOR x) (started x) (lifetime x) (m_LastActivity x) (destroy x) (hq x) (m_UpstreamGather x) (m_DownstreamGather x) v (rnd x) (events x).
Definition set_rnd (v : rng) (x : TransitHop) : TransitHop :=
  mkTransit (info x) (pathKey x) (nonceXOR x) (started x) (lifetime x) (m_LastActivity x) (destroy x) (hq x) (m_UpstreamGather x) (m_DownstreamGather x) (gather_enabled x) v (events x).
Definition set_events (v : list Event) (x : TransitHop) : TransitHop :=
  mkTransit (info x) (pathKey x) (nonceXOR x) (started x) (lifetime x) (m_LastActivity x) (destroy x) (hq x) (m_UpstreamGather x) (m_DownstreamGather x) (gather_enabled x) (rnd x) v.
Definition emit (ev : Event) (h : TransitHop) : TransitHop := set_events (events h ++ [ev]) h.
Definition TransitHop_new (g : rng) : TransitHop :=
  mkTransit (mkInfo (replicate PATHIDSIZE 0) (replicate PATHIDSIZE 0) (replicate 32 0) (replicate 32 0))
    (replicate 32 0) (replicate 32 0) 0 default_lifetime 0 false HopQueues_new [] [] true g [].

Definition IsEndpoint (us : list Z) (h : TransitHop) : bool := bool_decide (i_upstream (info h) = us).
Definition ExpireTime (h : TransitHop) : Z := started h + lifetime h.
Definition Expired (now : Z) (h : TransitHop) : bool := destroy h || (ExpireTime h <=? now).
Definition ExpiresSoon (now dlt : Z) (h : TransitHop) : bool := ExpireTime h - dlt <=? now.
Definition Stop (h : TransitHop) : TransitHop := set_gather_enabled false h.
Definition SetSelfDestruct (h : TransitHop) : TransitHop := set_destroy true h.

Definition HandleUpstream (buf nonce : list Z) (h : TransitHop) : TransitHop :=
  emit TriggerPump (set_hq (IHop_HandleUpstream buf nonce (hq h)) h).
Definition HandleDownstream (buf nonce : list Z) (h : TransitHop) : TransitHop :=
  emit TriggerPump (set_hq (IHop_HandleDownstream buf nonce (hq h)) h).

(** The array's size is a multiple of [pad_size]. *)
Definition SendRoutingMessage (us : list Z) (msg : RoutingMessage) (h : TransitHop) : outcome (bool * TransitHop) :=
  if negb (IsEndpoint us h) then Done (false, h)
  else
    match routing_encode relay_size msg with
    | None => Done (false, h)
    | Some buf =>
        let '(N, g) := randombytes TUNNONCESIZE (rnd h) in
        let dlt := (length buf mod pad_size)%nat in
        let! (buf, g) :=
          if bool_decide (dlt = 0)%nat then Done (buf, g) else pad_buffer relay_size buf (pad_size - dlt) g in
        Done (true, HandleDownstream buf N (set_rnd g h))
    end.

Definition FlushUpstream (h : TransitHop) : TransitHop :=
  match m_UpstreamQueue (hq h) with
  | [] => h
  | q => set_hq (hq_m_UpstreamQueue [] (hq h)) (emit (QueueUpstreamWork q) h)
  end.
Definition FlushDownstream (h : TransitHop) : TransitHop :=
  match m_DownstreamQueue (hq h) with
  | [] => h
  | q => set_hq (hq_m_DownstreamQueue [] (hq h)) (emit (QueueDownstreamWork q) h)
  end.

Definition upstream_message (h : TransitHop) (ev : TrafficEvent) : RelayMessage :=
  mkRelay (i_txID (info h)) (make_X (crypt ev.1 (pathKey h) ev.2)) (xor_bytes ev.2 (nonceXOR h)).
Definition downstream_message (h : TransitHop) (ev : TrafficEvent) : RelayMessage :=
  mkRelay (i_rxID (info h)) (make_X (crypt ev.1 (pathKey h) ev.2)) (xor_bytes ev.2 (nonceXOR h)).

(** A push that fails ends the loop. *)
Fixpoint gather_upstream (msgs : list TrafficEvent) (h : TransitHop) : TransitHop :=
  match msgs with
  | [] => h
  | ev :: msgs =>
      if gather_enabled h && bool_decide (length (m_UpstreamGather h) < transit_hop_queue_size)%nat
      then gather_upstream msgs (set_m_UpstreamGather (m_UpstreamGather h ++ [upstream_message h ev]) h)
      else h
  end.
Definition UpstreamWork (msgs : list TrafficEvent) (h : TransitHop) : TransitHop :=
  emit CallFlushUpstreamGather (gather_upstream msgs h).

(** *** Routing messages at the end of a path

    Those about exits, transfers and the DHT go to the router, whose answer is
    in [Env]. *)
Inductive Handled := Reply (msg : RoutingMessage) | Ignored | ByRouter.
Definition handler (msg : RoutingMessage) : Handled :=
  match msg with
  | PathLatency seq T _ => Reply (PathLatency seq 0 T)
  | PathConfirm | DataDiscard _ _ | UpdateExitVerify _ | RejectExit _ _ _ | GrantExit _ _ | HiddenServiceFrame _ => Ignored
  | DHT _ _ | DHTReply _ | ObtainExit | UpdateExit | CloseExit _ _ | TransferTraffic _ | PathTransfer => ByRouter
  end.
Definition HandleRoutingMessage (us buf : list Z) (h : TransitHop) : outcome TransitHop :=
  let h := emit (ParseRoutingMessage buf) h in
  match handler <$> routing_parse buf with
  | Some (Reply reply) => let! (_, h) := SendRoutingMessage us reply h in Done h
  | _ => Done h
  end.

Fixpoint parse_upstream (e : Env) (us : list Z) (msgs : list RelayMessage) (h : TransitHop) : outcome TransitHop :=
  match msgs with
  | [] => Done h
  | msg :: msgs =>
      let! h := HandleRoutingMessage us (payload msg) h in
      parse_upstream e us msgs (set_m_LastActivity (Now e) h)
  end.
Fixpoint relay_upstream (msgs : list RelayMessage) (h : TransitHop) : TransitHop :=
  match msgs with
  | [] => h
  | msg :: msgs => relay_upstream msgs (emit (SendToOrQueue (i_upstream (info h)) msg) h)
  end.
Definition HandleAllUpstream (e : Env) (us : list Z) (msgs : list RelayMessage) (h : TransitHop) : outcome TransitHop :=
  let! h :=
    if IsEndpoint us h then let! h := parse_upstream e us msgs h in Done (FlushDownstream h)
    else Done (relay_upstream msgs h) in
  Done (emit TriggerPump h).
(** The closure [UpstreamWork] posts. *)
Definition FlushUpstreamGather (e : Env) (us : list Z) (h : TransitHop) : outcome TransitHop :=
  HandleAllUpstream e us (m_UpstreamGather h) (set_m_UpstreamGather [] h).

Fixpoint relay_downstream (msgs : list RelayMessage) (h : TransitHop) : TransitHop :=
  match msgs with
  | [] => h
  | msg :: msgs => relay_downstream msgs (emit (SendToOrQueue (i_downstream (info h)) msg) h)
  end.
Definition HandleAllDownstream (msgs : list RelayMessage) (h : TransitHop) : TransitHop :=
  emit TriggerPump (relay_downstream msgs h).
Definition FlushDownstreamGather (h : TransitHop) : TransitHop :=
  HandleAllDownstream (m_DownstreamGather h) (set_m_DownstreamGather [] h).

(** [pushBack] on a full queue waits for the flush posted just before it. *)
Fixpoint gather_downstream (msgs : list TrafficEvent) (h : TransitHop) : TransitHop :=
  match msgs with
  | [] => h
  | ev :: msgs =>
      let h := if bool_decide (transit_hop_queue_size <= length (m_DownstreamGather h))%nat then FlushDownstreamGather h else h in
      gather_downstream msgs
        (if gather_enabled h then set_m_DownstreamGather (m_DownstreamGather h ++ [downstream_message h ev]) h else h)
  end.
Definition DownstreamWork (msgs : list TrafficEvent) (h : TransitHop) : TransitHop :=
  emit CallFlushDownstreamGather (gather_downstream msgs h).
End Transit.
End Transit.
