(* ===== verification/PathProofs.v ===== *)
(** * Correctness of onion paths

    The layers a client puts on its traffic are exactly those the relays take
    off, in both directions; the padding fits its arrays; paths that are not
    built or go silent expire.  The definitions are in [Path]. *)

From S2P Require Import Prelude Buffer Crypto Decaying Path.
Open Scope Z_scope.

(** ** Exclusive or *)

Lemma xor_bytes_length a b : length a = length b -> length (xor_bytes a b) = length a.
Proof. intros Hl. unfold xor_bytes. rewrite length_zip_with. lia. Qed.

Lemma xor_bytes_inv a b : length a = length b -> xor_bytes (xor_bytes a b) b = a.
Proof.
  unfold xor_bytes. revert b. induction a as [|x a IH]; intros [|y b] Hl; try done. cbn. injection Hl as Hl.
  by rewrite IH, Z.lxor_assoc, Z.lxor_nilpotent, Z.lxor_0_r.
Qed.

Lemma xor_bytes_comm t a b : xor_bytes (xor_bytes t a) b = xor_bytes (xor_bytes t b) a.
Proof.
  unfold xor_bytes. revert a b. induction t as [|x t IH]; intros [|y a] [|z b]; try done. cbn.
  by rewrite IH, !Z.lxor_assoc, (Z.lxor_comm y z).
Qed.

(** ** Layers *)

Section Layers.
Context `{SodiumStream}.

Lemma crypt_keystream buf key n : length key = 32%nat -> (24 <= length n)%nat ->
  crypt buf key n = xor_bytes buf (keystream (length buf) (take 24 n) key).
Proof.
  intros Hk Hn. unfold crypt, xchacha20. by rewrite stream_xor_keystream by (rewrite ?length_take; lia).
Qed.

Lemma crypt_length buf key n : length key = 32%nat -> (24 <= length n)%nat -> length (crypt buf key n) = length buf.
Proof. intros Hk Hn. rewrite crypt_keystream, xor_bytes_length; by rewrite ?keystream_length. Qed.

Lemma crypt_inv buf key n : length key = 32%nat -> (24 <= length n)%nat -> crypt (crypt buf key n) key n = buf.
Proof.
  intros Hk Hn. rewrite (crypt_keystream (crypt buf key n)), crypt_length by done.
  rewrite crypt_keystream by done. apply xor_bytes_inv. by rewrite keystream_length.
Qed.

Lemma crypt_comm buf k1 n1 k2 n2 : length k1 = 32%nat -> (24 <= length n1)%nat -> length k2 = 32%nat -> (24 <= length n2)%nat ->
  crypt (crypt buf k1 n1) k2 n2 = crypt (crypt buf k2 n2) k1 n1.
Proof.
  intros. rewrite (crypt_keystream (crypt buf k1 n1)), (crypt_keystream (crypt buf k2 n2)), !crypt_length by done.
  rewrite (crypt_keystream buf k1), (crypt_keystream buf k2) by done. apply xor_bytes_comm.
Qed.

(** The sizes of a hop's secrets. *)
Definition hop_ok (h : PathHopConfig) : Prop := length (h_shared h) = 32%nat /\ length (h_nonceXOR h) = 32%nat.

Lemma encrypt_hops_length hops : Forall hop_ok hops -> forall n buf, length n = 32%nat -> length (encrypt_hops hops n buf) = length buf.
Proof.
  induction 1 as [|h hops [Hs Hx] _ IH]; intros n buf Hn; cbn [encrypt_hops]; [done|].
  rewrite IH by (rewrite xor_bytes_length; lia). apply crypt_length; [done|lia].
Qed.

Lemma encrypt_hops_crypt hops key m : Forall hop_ok hops -> length key = 32%nat -> length m = 32%nat -> forall n buf,
  length n = 32%nat -> crypt (encrypt_hops hops n buf) key m = encrypt_hops hops n (crypt buf key m).
Proof.
  intros Hh Hk Hm. induction Hh as [|h hops [Hs Hx] _ IH]; intros n buf Hn; cbn [encrypt_hops]; [done|].
  rewrite IH by (rewrite xor_bytes_length; lia). f_equal. apply crypt_comm; (done || lia).
Qed.

(** What the relays of a list of hops do to a message, towards and from the end. *)
Fixpoint relayed_up (hops : list PathHopConfig) (n buf : list Z) : list Z * list Z :=
  match hops with
  | [] => (n, buf)
  | h :: hops => relayed_up hops (xor_bytes n (h_nonceXOR h)) (crypt buf (h_shared h) n)
  end.
Fixpoint relayed_down (hops : list PathHopConfig) (n buf : list Z) : list Z * list Z :=
  match hops with
  | [] => (n, buf)
  | h :: hops => let '(n, buf) := relayed_down hops n buf in (xor_bytes n (h_nonceXOR h), crypt buf (h_shared h) n)
  end.

Lemma relayed_up_encrypt hops : Forall hop_ok hops -> forall n buf, length n = 32%nat ->
  (relayed_up hops n (encrypt_hops hops n buf)).2 = buf.
Proof.
  induction 1 as [|h hops [Hs Hx] Hh IH]; intros n buf Hn; cbn [relayed_up encrypt_hops]; [done|].
  rewrite encrypt_hops_crypt by (rewrite ?xor_bytes_length; (done || lia)).
  rewrite crypt_inv by (done || lia). apply IH. rewrite xor_bytes_length; lia.
Qed.

Lemma relayed_down_nonce hops : Forall hop_ok hops -> forall n buf, length n = 32%nat ->
  length (relayed_down hops n buf).1 = 32%nat /\ length (relayed_down hops n buf).2 = length buf.
Proof.
  induction 1 as [|h hops [Hs Hx] _ IH]; intros n buf Hn; cbn [relayed_down]; [done|].
  destruct (IH n buf Hn) as [IH1 IH2]. destruct (relayed_down hops n buf) as [n1 b1]. cbn [fst snd] in *.
  rewrite xor_bytes_length by lia. rewrite crypt_length by (done || lia). done.
Qed.

Lemma relayed_down_decrypt hops : Forall hop_ok hops -> forall n buf, length n = 32%nat ->
  decrypt_hops hops (relayed_down hops n buf).1 (relayed_down hops n buf).2 = (n, buf).
Proof.
  induction 1 as [|h hops [Hs Hx] Hh IH]; intros n buf Hn; cbn [relayed_down decrypt_hops]; [done|].
  pose proof (relayed_down_nonce hops Hh n buf Hn) as [Hl _]. specialize (IH n buf Hn).
  destruct (relayed_down hops n buf) as [n1 b1]. cbn [fst snd] in *. rewrite xor_bytes_inv by lia.
  by rewrite crypt_inv by (done || lia).
Qed.
End Layers.

Lemma payload_make_X id buf n : (length buf <= relay_size)%nat -> payload (mkRelay id (make_X buf) n) = buf.
Proof.
  intros Hl. unfold payload, make_X, Encrypted_assign. rewrite bool_decide_true by done. cbn [X ebuf esz].
  unfold store. cbn [take]. rewrite app_nil_l. apply take_app_length.
Qed.

(** ** A message on its way

    One relay: the message is queued, the queue is flushed to a worker, the
    worker's result is flushed to the router. *)

Section Trips.
Context `{Sodium} `{Oxenc} `{Routing}.

Definition sent (l : list Event) : list RelayMessage :=
  omap (fun ev => match ev with SendToOrQueue _ m => Some m | _ => None end) l.
Definition parsed (l : list Event) : list (list Z) :=
  omap (fun ev => match ev with ParseRoutingMessage b => Some b | _ => None end) l.

Definition carry_up (e : Env) (us : list Z) (m : RelayMessage) (h : Transit.TransitHop) : outcome Transit.TransitHop :=
  let h := Transit.HandleUpstream (payload m) (Y m) h in
  Transit.FlushUpstreamGather e us (Transit.UpstreamWork (m_UpstreamQueue (Transit.hq h)) (Transit.FlushUpstream h)).
Definition carry_down (m : RelayMessage) (h : Transit.TransitHop) : Transit.TransitHop :=
  let h := Transit.HandleDownstream (payload m) (Y m) h in
  Transit.FlushDownstreamGather (Transit.DownstreamWork (m_DownstreamQueue (Transit.hq h)) (Transit.FlushDownstream h)).

(** From the first relay to the end of the path: what the end parses. *)
Fixpoint trip_up (e : Env) (hs : list (list Z * Transit.TransitHop)) (m : RelayMessage) : outcome (list (list Z)) :=
  match hs with
  | [] => Fault
  | (us, h) :: hs =>
      let! h := carry_up e us m h in
      if Transit.IsEndpoint us h then Done (parsed (Transit.events h))
      else match sent (Transit.events h) with [m] => trip_up e hs m | _ => Fault end
  end.
(** From the relay before the end to the first: what the client gets. *)
Fixpoint trip_down (hs : list Transit.TransitHop) (m : RelayMessage) : outcome RelayMessage :=
  match hs with
  | [] => Done m
  | h :: hs =>
      let! m := trip_down hs m in
      match sent (Transit.events (carry_down m h)) with [m] => Done m | _ => Fault end
  end.

(** A relay with nothing in flight that holds the secrets of a hop of the path. *)
Record relay_of (c : PathHopConfig) (h : Transit.TransitHop) : Prop := mkRelayOf {
  ro_key : Transit.pathKey h = h_shared c;
  ro_xor : Transit.nonceXOR h = h_nonceXOR c;
  ro_up : m_UpstreamQueue (Transit.hq h) = [];
  ro_down : m_DownstreamQueue (Transit.hq h) = [];
  ro_gather_up : Transit.m_UpstreamGather h = [];
  ro_gather_down : Transit.m_DownstreamGather h = [];
  ro_enabled : Transit.gather_enabled h = true;
  ro_events : Transit.events h = [] }.

(** The relays of a path: the last one is its end, the others are not. *)
Inductive relays : list PathHopConfig -> list (list Z * Transit.TransitHop) -> Prop :=
  | relays_end c us h : relay_of c h -> Transit.IsEndpoint us h = true -> relays [c] [(us, h)]
  | relays_hop c us h cs hs : relay_of c h -> Transit.IsEndpoint us h = false -> relays cs hs -> relays (c :: cs) ((us, h) :: hs).

Lemma carry_up_relays e us m c h : relay_of c h -> Transit.IsEndpoint us h = false ->
  exists h', carry_up e us m h = Done h' /\ Transit.IsEndpoint us h' = false
    /\ sent (Transit.events h') = [mkRelay (i_txID (Transit.info h)) (make_X (crypt (payload m) (h_shared c) (Y m))) (xor_bytes (Y m) (h_nonceXOR c))].
Proof.
  intros [] He. destruct h as [info key x st lt la d [sq uq dq uf df] ug dg en g ev]. cbn in ro_key0, ro_xor0, ro_up0, ro_down0,
    ro_gather_up0, ro_gather_down0, ro_enabled0, ro_events0. subst.
  unfold carry_up, Transit.FlushUpstreamGather, Transit.HandleAllUpstream.
  match goal with |- context [Transit.IsEndpoint us ?h] => replace (Transit.IsEndpoint us h) with false by (symmetry; exact He) end.
  eexists. split; [reflexivity|]. split; [exact He|reflexivity].
Qed.

Lemma carry_down_sends m c h : relay_of c h ->
  sent (Transit.events (carry_down m h))
  = [mkRelay (i_rxID (Transit.info h)) (make_X (crypt (payload m) (h_shared c) (Y m))) (xor_bytes (Y m) (h_nonceXOR c))].
Proof. intros []. destruct h as [info key x st lt la d [sq uq dq uf df] ug dg en g ev]. cbn in *. by subst. Qed.

Context `{!RoutingSpec}.

Lemma pad_total cap buf n g : (length buf + n <= cap)%nat -> exists pad g', pad_buffer cap buf n g = Done (buf ++ pad, g').
Proof. intros Hl. unfold pad_buffer. rewrite bool_decide_true by done. destruct (randombytes n g) as [pad g']. by exists pad, g'. Qed.

(** The padding to a multiple of [pad_size] fits: the array's size is one. *)
Lemma transit_pad_fits (buf : list Z) : (length buf <= relay_size)%nat -> (length buf mod pad_size <> 0)%nat ->
  (length buf + (pad_size - length buf mod pad_size) <= relay_size)%nat.
Proof.
  unfold relay_size, pad_size. intros Hl Hm. pose proof (Nat.div_mod (length buf) 128 ltac:(lia)) as E.
  pose proof (Nat.mod_upper_bound (length buf) 128 ltac:(lia)). 
  assert (length buf / 128 < 63)%nat; [|lia]. apply Nat.Div0.div_lt_upper_bound. 
  destruct (decide (length buf = 63 * 128)%nat) as [E'|]; [|lia]. rewrite E' in Hm. by rewrite Nat.Div0.mod_mul in Hm.
Qed.

Lemma Transit_SendRoutingMessage_total us msg h : exists b h', Transit.SendRoutingMessage us msg h = Done (b, h')
  /\ Transit.info h' = Transit.info h /\ parsed (Transit.events h') = parsed (Transit.events h).
Proof.
  unfold Transit.SendRoutingMessage. destruct (negb _); [by eexists _, _|].
  destruct (routing_encode relay_size msg) as [buf|] eqn:E; [|by eexists _, _]. apply routing_encode_fits in E.
  destruct (randombytes TUNNONCESIZE (Transit.rnd h)) as [N g].
  assert (forall b g', parsed (Transit.events (Transit.HandleDownstream b N (Transit.set_rnd g' h))) = parsed (Transit.events h)) as Hev.
  { intros b g'. unfold parsed. cbn. rewrite omap_app. cbn. by rewrite app_nil_r. }
  destruct (bool_decide _) eqn:Ed; cbn [obind]; [by eexists _, _|]. apply bool_decide_eq_false in Ed.
  destruct (pad_total relay_size buf (pad_size - length buf mod pad_size) g) as (pad&g'&->); [by apply transit_pad_fits|].
  cbn [obind]. by eexists _, _.
Qed.

Lemma Transit_HandleRoutingMessage_total us buf h : exists h', Transit.HandleRoutingMessage us buf h = Done h'
  /\ Transit.info h' = Transit.info h /\ parsed (Transit.events h') = parsed (Transit.events h) ++ [buf].
Proof.
  unfold Transit.HandleRoutingMessage. set (h1 := Transit.emit _ h).
  assert (parsed (Transit.events h1) = parsed (Transit.events h) ++ [buf]) as E by (unfold parsed; cbn; by rewrite omap_app).
  destruct (Transit.handler <$> routing_parse buf) as [[reply| |]|]; try (by exists h1).
  destruct (Transit_SendRoutingMessage_total us reply h1) as (b&h'&->&Ei&Ep). exists h'. cbn [obind].
  split; [done|]. split; [done|]. by rewrite Ep.
Qed.

Lemma carry_up_end e us m c h : relay_of c h -> Transit.IsEndpoint us h = true ->
  (length (crypt (payload m) (h_shared c) (Y m)) <= relay_size)%nat ->
  exists h', carry_up e us m h = Done h' /\ Transit.IsEndpoint us h' = true
    /\ parsed (Transit.events h') = [crypt (payload m) (h_shared c) (Y m)].
Proof.
  intros [] He Hl. destruct h as [info key x st lt la d [sq uq dq uf df] ug dg en g ev].
  cbn in ro_key0, ro_xor0, ro_up0, ro_down0, ro_gather_up0, ro_gather_down0, ro_enabled0, ro_events0. subst.
  unfold carry_up, Transit.FlushUpstreamGather, Transit.HandleAllUpstream.
  match goal with |- context [Transit.IsEndpoint us ?h] => replace (Transit.IsEndpoint us h) with true by (symmetry; exact He) end.
  match goal with |- context [Transit.parse_upstream e us ?l ?h] => set (h1 := h); set (l1 := l) end.
  assert (l1 = [mkRelay (i_txID info) (make_X (crypt (payload m) (h_shared c) (Y m))) (xor_bytes (Y m) (h_nonceXOR c))]) as -> by reflexivity.
  cbn [Transit.parse_upstream]. rewrite payload_make_X by done.
  destruct (Transit_HandleRoutingMessage_total us (crypt (payload m) (h_shared c) (Y m)) h1) as (h2&->&Ei&Ep). cbn [obind].
  eexists. split; [reflexivity|].
  assert (forall h, Transit.info (Transit.FlushDownstream h) = Transit.info h
    /\ parsed (Transit.events (Transit.FlushDownstream h)) = parsed (Transit.events h)) as Hfl.
  { intros h. unfold Transit.FlushDownstream. destruct (m_DownstreamQueue (Transit.hq h)); [done|].
    split; [done|]. unfold parsed. cbn. rewrite omap_app. cbn. by rewrite app_nil_r. }
  destruct (Hfl (Transit.set_m_LastActivity (Now e) h2)) as [Ei' Ep']. split.
  - unfold Transit.IsEndpoint in *. cbn [Transit.info Transit.emit Transit.set_events]. rewrite Ei'. cbn. rewrite Ei. exact He.
  - cbn [Transit.events Transit.emit Transit.set_events]. unfold parsed in *. rewrite omap_app. cbn [omap list_omap].
    rewrite app_nil_r, Ep'. cbn. rewrite Ep. reflexivity.
Qed.
End Trips.

Section Onion.
Context `{SodiumStream} `{Oxenc} `{Routing} `{!RoutingSpec}.

Lemma trip_up_relayed e cs hs : relays cs hs -> Forall hop_ok cs -> forall m, length (Y m) = 32%nat -> (length (payload m) <= relay_size)%nat ->
  trip_up e hs m = Done [(relayed_up cs (Y m) (payload m)).2].
Proof.
  induction 1 as [c us h Hr He|c us h cs hs Hr He _ IH]; intros Hok m Hy Hl; inversion Hok as [|? ? [Hs Hx] Hok']; subst; cbn [trip_up].
  - destruct (carry_up_end e us m c h Hr He) as (h'&->&He'&Hp); [rewrite crypt_length; (done || lia)|].
    cbn [obind]. by rewrite He', Hp.
  - destruct (carry_up_relays e us m c h Hr He) as (h'&->&He'&Hs'). cbn [obind]. rewrite He', Hs'.
    rewrite (IH Hok'); cbn [Y].
    + by rewrite payload_make_X by (rewrite crypt_length; (done || lia)).
    + rewrite xor_bytes_length; lia.
    + rewrite payload_make_X; rewrite crypt_length; (done || lia).
Qed.

Lemma trip_down_relayed cs hs : Forall2 relay_of cs hs -> Forall hop_ok cs -> forall m, length (Y m) = 32%nat -> (length (payload m) <= relay_size)%nat ->
  exists m', trip_down hs m = Done m' /\ Y m' = (relayed_down cs (Y m) (payload m)).1 /\ payload m' = (relayed_down cs (Y m) (payload m)).2.
Proof.
  induction 1 as [|c h cs hs Hr _ IH]; intros Hok m Hy Hl; cbn [trip_down relayed_down]; [by exists m|].
  inversion Hok as [|? ? [Hs Hx] Hok']; subst. destruct (IH Hok' m Hy Hl) as (m1&->&Ey&Ep). cbn [obind].
  destruct (relayed_down_nonce cs Hok' (Y m) (payload m) Hy) as [Hn Hb].
  rewrite (carry_down_sends m1 c h Hr). destruct (relayed_down cs (Y m) (payload m)) as [n1 b1]. cbn [fst snd] in *.
  eexists. split; [done|]. cbn [Y]. rewrite Ey, Ep. split; [done|]. apply payload_make_X. rewrite crypt_length; lia.
Qed.
End Onion.

(** ** The client's end *)

Section Client.
Context `{Sodium} `{Oxenc} `{Routing} `{!RoutingSpec}.

(** The path's own messages handed back by the event loop. *)
Definition called_up (l : list Event) : list RelayMessage :=
  concat (omap (fun ev => match ev with CallHandleAllUpstream ms => Some ms | _ => None end) l).
Definition called_down (l : list Event) : list RelayMessage :=
  concat (omap (fun ev => match ev with CallHandleAllDownstream ms => Some ms | _ => None end) l).

Definition client_sends (e : Env) (msg : RoutingMessage) (p : Path) : outcome Path :=
  let! (_, p) := SendRoutingMessage e msg p in
  let p := UpstreamWork (m_UpstreamQueue (hq p)) (FlushUpstream p) in
  Done (HandleAllUpstream e (called_up (events p)) p).
Definition client_receives (e : Env) (m : RelayMessage) (p : Path) : outcome Path :=
  let '(_, p) := HandleDownstream e (payload m) (Y m) p in
  let p := DownstreamWork (m_DownstreamQueue (hq p)) (FlushDownstream p) in
  HandleAllDownstream e (called_down (events p)) p.
Definition endpoint_sends (us : list Z) (msg : RoutingMessage) (h : Transit.TransitHop) : outcome Transit.TransitHop :=
  let! (_, h) := Transit.SendRoutingMessage us msg h in
  Done (Transit.FlushDownstreamGather (Transit.DownstreamWork (m_DownstreamQueue (Transit.hq h)) (Transit.FlushDownstream h))).

(** Steps that parse nothing. *)
Definition silent (p p' : Path) : Prop := parsed (events p') = parsed (events p).

Lemma silent_emit ev p p' : silent p p' -> parsed [ev] = [] -> silent p (emit ev p').
Proof. unfold silent, parsed. cbn. intros <- E. rewrite omap_app. cbn in *. by rewrite E, app_nil_r. Qed.

Lemma silent_EnterState st now p p' : silent p p' -> silent p (EnterState st now p').
Proof.
  intros Hs. assert (forall ev, parsed [ev] = [] -> silent p (emit ev p')) as He by (intros; by apply silent_emit).
  unfold EnterState. destruct st; try done; cbn [bool_decide];
    repeat match goal with |- context [if ?b then _ else _] => destruct b end; try done; apply He; done.
Qed.

Lemma silent_HandleUpstream e buf n p p' : silent p p' -> silent p (HandleUpstream e buf n p').2.
Proof.
  intros Hs. unfold HandleUpstream. destruct (DecayingHashSet.Insert _ _ _ _) as [[] f]; [|done]. by apply silent_emit.
Qed.

Lemma SendRoutingMessage_total e msg p p0 : silent p0 p ->
  exists b p', SendRoutingMessage e msg p = Done (b, p') /\ silent p0 p'.
Proof.
  intros Hs. unfold SendRoutingMessage. destruct (negb _); [by eexists _, _|].
  destruct (routing_encode routing_size msg) as [buf|] eqn:E; [|by eexists _, _].
  destruct (randombytes TUNNONCESIZE (rnd p)) as [N g].
  assert (exists buf' g', (if bool_decide (length buf < pad_size)%nat then pad_buffer routing_size buf (pad_size - length buf) g
    else Done (buf, g)) = Done (buf', g')) as (buf'&g'&->).
  { destruct (bool_decide _) eqn:Ed; [|by eexists _, _]. apply bool_decide_eq_true in Ed.
    destruct (pad_total routing_size buf (pad_size - length buf) g) as (pad&g'&->); [|by eexists _, _].
    unfold pad_size, routing_size in *. lia. }
  cbn [obind]. pose proof (silent_HandleUpstream e buf' N p0 (set_rnd g' p) Hs) as Hu.
  destruct (HandleUpstream e buf' N (set_rnd g' p)) as [b p']. by exists b, p'.
Qed.

Lemma silent_FlushUpstream p p' : silent p p' -> silent p (FlushUpstream p').
Proof. intros Hs. unfold FlushUpstream. destruct (m_UpstreamQueue (hq p')); [done|]. by apply silent_emit. Qed.

Lemma SendLatencyMessage_total e p p0 : silent p0 p -> exists b p', SendLatencyMessage e p = Done (b, p') /\ silent p0 p'.
Proof.
  intros Hs. unfold SendLatencyMessage. destruct (randint (rnd p)) as [T g]. set (p1 := on_tm _ _).
  destruct (SendRoutingMessage_total e (PathLatency (m_SequenceNum (hq p)) T 0) p1 p0) as ([]&p'&->&Hs'); [done| |];
    cbn [obind]; [|by eexists _, _]. eexists _, _. split; [done|]. by apply silent_FlushUpstream.
Qed.

Lemma silent_transfer e pkts : forall p p', silent p p' -> silent p (transfer_packets e pkts p').
Proof.
  induction pkts as [|pkt pkts IH]; intros p p' Hs; cbn [transfer_packets]; [done|].
  destruct (bool_decide _); [by apply IH|]. apply IH. cbn zeta. set (ev := ExitTrafficCalled _ _).
  assert (silent p (emit ev p')) by (by apply silent_emit). destruct (hook_ret e ev); [by apply silent_EnterState|done].
Qed.

Lemma silent_hooks e n B : forall k r p p', silent p p' -> silent p (inform_hooks e n k B r p').2.
Proof. induction n as [|n IH]; intros k r p p' Hs; cbn [inform_hooks]; [done|]. by apply IH, silent_emit. Qed.

Lemma silent_InformExitResult e B p p' : silent p p' -> silent p (InformExitResult e B p').2.
Proof.
  intros Hs. unfold InformExitResult. pose proof (silent_hooks e (m_ObtainedExitHooks (ex p')) B 0 true p p' Hs) as Hh.
  by destruct (inform_hooks _ _ _ _ _ _).
Qed.
Lemma Path_HandleRoutingMessage_total e buf p : exists b p', HandleRoutingMessage e buf p = Done (b, p')
  /\ parsed (events p') = parsed (events p) ++ [buf].
Proof.
  unfold HandleRoutingMessage. set (p1 := emit (ParseRoutingMessage buf) p).
  assert (parsed (events p1) = parsed (events p) ++ [buf]) as E by (unfold parsed; cbn; by rewrite omap_app).
  rewrite <- E. assert (silent p1 p1) as Hs by done.
  match goal with |- exists b p', ?m = Done (b, p') /\ _ => change (exists b p', m = Done (b, p') /\ silent p1 p') end.
  assert (forall r : bool * Path, silent p1 r.2 -> exists b p', Done r = Done (b, p') /\ silent p1 p') as Hd.
  { intros [b p'] Hp. by exists b, p'. }
  destruct (routing_parse buf) as [[]|]; try (by apply (Hd (false, p1))); try (apply Hd).
  - unfold HandlePathLatencyMessage. destruct (_ =? 0); [done|]. cbn zeta.
    match goal with |- silent _ (_, on_ex _ (if _ then emit _ ?q else ?q)).2 => assert (silent p1 q) as Hq by (by apply silent_EnterState) end.
    cbn [snd]. destruct (m_BuiltHook _); [|exact Hq]. by apply (silent_emit BuiltHookCalled) in Hq.
  - unfold HandlePathConfirmMessage. destruct (bool_decide _); [|by apply (Hd (false, p1))].
    apply SendLatencyMessage_total. apply (silent_emit (PersistSessionUntil _ _)); [|done]. by apply (silent_emit MarkPathSuccess).
  - unfold HandleDataDiscardMessage. destruct (m_DropHandler _); [|done]. by apply silent_emit.
  - unfold HandleDHTMessage. assert (silent p1 (emit DHTHandled (MarkActive (Now e) p1))) as Hq by (by apply silent_emit).
    destruct handled; [|by apply (Hd (false, _))]. destruct reply; [|by apply (Hd (true, _))]. by apply SendRoutingMessage_total.
  - unfold HandleUpdateExitVerifyMessage. destruct (_ && _); [by apply silent_emit|]. destruct (_ && _); [by apply silent_emit|done].
  - unfold HandleRejectExitMessage. destruct (_ && _); [|done]. destruct (routing_verify _ _); [|done]. by apply silent_InformExitResult.
  - unfold HandleGrantExitMessage. destruct (_ && _); [|done]. destruct (routing_verify _ _); [|done]. by apply silent_InformExitResult.
  - unfold HandleCloseExitMessage. destruct (SupportsAnyRoles _ _); [|done]. by destruct (routing_verify _ _).
  - unfold HandleTransferTrafficMessage. destruct (negb _); [done|]. destruct (negb _); [done|]. by apply silent_transfer.
  - unfold HandleHiddenServiceFrame. destruct (m_PathSet p1); [|done]. destruct (m_DataHandler _); [|done]. by apply silent_emit.
Qed.
End Client.

Section Ends.
Context `{SodiumSpec} `{Oxenc} `{Routing} `{!RoutingSpec}.

(** A path with nothing queued. *)
Record idle (p : Path) : Prop := mkIdle {
  idle_up : m_UpstreamQueue (hq p) = [];
  idle_down : m_DownstreamQueue (hq p) = [];
  idle_events : events p = [] }.

Lemma padded (enc : list Z) g : (length enc <= routing_size)%nat -> exists pad g',
  (if bool_decide (length enc < pad_size)%nat then pad_buffer routing_size enc (pad_size - length enc) g else Done (enc, g))
    = Done (enc ++ pad, g') /\ (pad_size <= length (enc ++ pad) <= routing_size)%nat.
Proof.
  intros Hl. destruct (bool_decide _) eqn:Ed.
  - apply bool_decide_eq_true in Ed. unfold pad_buffer. rewrite bool_decide_true by (unfold pad_size, routing_size in *; lia).
    pose proof (randombytes_length (pad_size - length enc) g) as Hr. destruct (randombytes (pad_size - length enc) g) as [pad g'].
    cbn [fst] in Hr. exists pad, g'. split; [done|]. rewrite length_app, Hr. unfold pad_size, routing_size in *. lia.
  - apply bool_decide_eq_false in Ed. exists [], g. rewrite app_nil_r. split; [done|]. lia.
Qed.

Lemma client_sends_spec e msg enc p : idle p -> routing_version msg = proto_version -> routing_encode routing_size msg = Some enc ->
  DecayingHashSet.Contains (randombytes TUNNONCESIZE (rnd p)).1 (m_UpstreamReplayFilter (hq p)) = false ->
  exists pad p', client_sends e msg p = Done p' /\ (pad_size <= length (enc ++ pad) <= routing_size)%nat
    /\ sent (events p') = [mkRelay (TXID p) (make_X (encrypt_hops (hops p) (randombytes TUNNONCESIZE (rnd p)).1 (enc ++ pad)))
                             (randombytes TUNNONCESIZE (rnd p)).1].
Proof.
  intros [Hu _ Hev] Hv He Hf. pose proof (routing_encode_fits _ _ _ He) as Hl. unfold client_sends, SendRoutingMessage.
  rewrite Hv, He. change (negb (proto_version =? proto_version)) with false. cbn [negb].
  destruct (randombytes TUNNONCESIZE (rnd p)) as [N g]. cbn [fst] in *.
  destruct (padded enc g Hl) as (pad&g'&->&Hp). cbn [obind]. exists pad.
  unfold HandleUpstream, DecayingHashSet.Insert. unfold DecayingHashSet.Contains in Hf. apply bool_decide_eq_false in Hf.
  cbn [hq set_rnd]. destruct (DecayingHashSet.m_Values (m_UpstreamReplayFilter (hq p)) !! N) eqn:EN; [by destruct Hf|].
  destruct p as [h0 hs ps st t x r [sq uq dq uf df] g0 ev]. cbn in Hu, Hev. subst. cbn [obind].
  eexists. split; [reflexivity|]. split; [done|]. unfold HandleAllUpstream, called_up, sent. cbn. by destruct (link_takes _ _).
Qed.

Lemma client_receives_spec e m p : idle p -> (length (decrypt_hops (hops p) (Y m) (payload m)).2 <= relay_size)%nat ->
  DecayingHashSet.Contains (Y m) (m_DownstreamReplayFilter (hq p)) = false ->
  exists p', client_receives e m p = Done p' /\ parsed (events p') = [(decrypt_hops (hops p) (Y m) (payload m)).2].
Proof.
  intros [_ Hd Hev] Hl Hf. unfold client_receives, HandleDownstream, DecayingHashSet.Insert.
  unfold DecayingHashSet.Contains in Hf. apply bool_decide_eq_false in Hf.
  destruct (DecayingHashSet.m_Values (m_DownstreamReplayFilter (hq p)) !! Y m) eqn:EN; [by destruct Hf|].
  destruct p as [h0 hs ps st t x r [sq uq dq uf df] g0 ev]. cbn in Hd, Hev. subst.
  unfold hops in *. cbn [hop0 more_hops] in *.
  match goal with |- context [DownstreamWork ?q ?p] => set (p1 := DownstreamWork q p) end.
  destruct (decrypt_hops (h0 :: hs) (Y m) (payload m)) as [n buf] eqn:ED. cbn [snd] in *.
  assert (called_down (events p1) = [mkRelay (replicate PATHIDSIZE 0) (make_X buf) n]) as ->.
  { unfold p1, called_down, DownstreamWork, hops. cbn -[decrypt_hops make_X]. by rewrite ED. }
  cbn [HandleAllDownstream]. rewrite payload_make_X by done.
  match goal with |- context [HandleRoutingMessage e buf ?p] => destruct (Path_HandleRoutingMessage_total e buf p) as (b&p2&->&Ep) end.
  cbn [obind]. eexists. split; [reflexivity|].
  assert (parsed (events p2) = [buf]) as Ep2 by (rewrite Ep; done). destruct b; [|exact Ep2].
  unfold parsed in *. cbn. rewrite omap_app, Ep2. done.
Qed.

Lemma endpoint_sends_spec us msg enc c h : relay_of c h -> Transit.IsEndpoint us h = true -> routing_encode relay_size msg = Some enc ->
  exists pad N h', endpoint_sends us msg h = Done h' /\ length N = 32%nat /\ (length (enc ++ pad) <= relay_size)%nat
    /\ sent (Transit.events h') = [mkRelay (i_rxID (Transit.info h)) (make_X (crypt (enc ++ pad) (h_shared c) N)) (xor_bytes N (h_nonceXOR c))].
Proof.
  intros [] He Een. pose proof (routing_encode_fits _ _ _ Een) as Hl. unfold endpoint_sends, Transit.SendRoutingMessage.
  rewrite He, Een. cbn [negb]. pose proof (randombytes_length TUNNONCESIZE (Transit.rnd h)) as HN.
  destruct (randombytes TUNNONCESIZE (Transit.rnd h)) as [N g]. cbn [fst] in HN.
  assert (exists pad g', (if bool_decide (length enc mod pad_size = 0)%nat then Done (enc, g)
    else pad_buffer relay_size enc (pad_size - length enc mod pad_size) g) = Done (enc ++ pad, g')
    /\ (length (enc ++ pad) <= relay_size)%nat) as (pad&g'&->&Hp).
  { destruct (bool_decide _) eqn:Ed.
    - exists [], g. rewrite app_nil_r. done.
    - apply bool_decide_eq_false in Ed. pose proof (transit_pad_fits enc Hl Ed) as Hfit. unfold pad_buffer. rewrite bool_decide_true by done.
      pose proof (randombytes_length (pad_size - length enc mod pad_size) g) as Hr.
      destruct (randombytes (pad_size - length enc mod pad_size) g) as [pad g']. cbn [fst] in Hr. exists pad, g'.
      split; [done|]. rewrite length_app. lia. }
  cbn [obind]. exists pad, N. destruct h as [info key x st lt la d [sq uq dq uf df] ug dg en g0 ev].
  cbn in ro_key0, ro_xor0, ro_up0, ro_down0, ro_gather_up0, ro_gather_down0, ro_enabled0, ro_events0. subst.
  eexists. split; [reflexivity|]. split; [done|]. split; [done|]. reflexivity.
Qed.
End Ends.

Lemma relays_snoc `{Sodium} hs us h cs : relays cs (hs ++ [(us, h)]) ->
  exists cs0 c, cs = cs0 ++ [c] /\ Forall2 relay_of cs0 (map snd hs) /\ relay_of c h /\ Transit.IsEndpoint us h = true.
Proof.
  revert cs. induction hs as [|[us' h'] hs IH]; intros cs Hr; cbn [app] in Hr; inversion Hr; subst.
  - exists [], c. split_and!; [done|constructor|done|done].
  - match goal with Hn : relays _ [] |- _ => inversion Hn end.
  - by destruct hs.
  - destruct (IH cs0) as (cs1&c1&->&Hf&Hc&He); [done|]. exists (c :: cs1), c1. split_and!; [done|by constructor|done|done].
Qed.

Lemma relayed_down_snoc `{Sodium} cs c : forall n buf,
  relayed_down (cs ++ [c]) n buf = relayed_down cs (xor_bytes n (h_nonceXOR c)) (crypt buf (h_shared c) n).
Proof. induction cs as [|c' cs IH]; intros n buf; cbn [app relayed_down]; [done|]. by rewrite IH. Qed.

(** ** Theorems on traffic *)



(** A path over two relays, with messages that are encoded to three bytes. *)
Definition demo_routing : Routing := {|
  routing_version _ := 0;
  routing_encode n _ := if bool_decide (3 <= n)%nat then Some [1; 2; 3] else None;
  routing_parse _ := None;
  routing_verify _ _ := false |}.
Lemma demo_routing_spec : @RoutingSpec demo_routing.
Proof. split. intros n m l. cbn. destruct (bool_decide _) eqn:E; [|done]. apply bool_decide_eq_true in E. intros [= <-]. done. Qed.

Definition demo_hop (k : Z) : PathHopConfig :=
  mkHop (replicate 16 k) (replicate 16 k) (mkHopRC (replicate 32 k) (replicate 32 k) []) (replicate 64 k) (replicate 32 k)
    (replicate 32 (k + 10)) (replicate 32 k) (replicate 32 k) default_lifetime.
Definition demo_path : @Path toy_sodium :=
  @mkPath toy_sodium (demo_hop 1) [demo_hop 2] true ePathEstablished (mkTiming 1 1 1 0 [] 1 1)
    (mkExits 0 0 0 0 false false false false false false 0) (mkRates 0 0 0 0) HopQueues_new 5 [].
Definition demo_relay (k : Z) (up : list Z) : @Transit.TransitHop toy_sodium :=
  @Transit.mkTransit toy_sodium (mkInfo (replicate 16 k) (replicate 16 k) up (replicate 32 9)) (replicate 32 k)
    (replicate 32 (k + 10)) 0 default_lifetime 0 false HopQueues_new [] [] true 4 [].
Definition demo_relays : list (list Z * @Transit.TransitHop toy_sodium) :=
  [(replicate 32 1, demo_relay 1 (replicate 32 2)); (replicate 32 2, demo_relay 2 (replicate 32 2))].
Definition demo_env : Env := mkEnv 100 100 (fun _ => true) (fun _ => true).

Lemma demo_hops_ok : Forall hop_ok (@hops toy_sodium demo_path).
Proof. repeat constructor. Qed.
Lemma demo_relays_ok : @relays toy_sodium (@hops toy_sodium demo_path) demo_relays.
Proof. apply relays_hop; [by constructor|by vm_compute|]. apply relays_end; [by constructor|by vm_compute]. Qed.



(** ** Silent paths *)

Section Silent.
Context `{Sodium} `{Oxenc} `{Routing} `{!RoutingSpec}.

(** What sending leaves of a path's life. *)
Record same_life (p p' : Path) : Prop := mkSame {
  sl_status : _status p' = _status p;
  sl_set : m_PathSet p' = m_PathSet p;
  sl_hop : hop0 p' = hop0 p;
  sl_started : buildStarted (tm p') = buildStarted (tm p);
  sl_recv : m_LastRecvMessage (tm p') = m_LastRecvMessage (tm p) }.

Lemma SendRoutingMessage_life e msg p : exists b p', SendRoutingMessage e msg p = Done (b, p') /\ same_life p p' /\ tm p' = tm p.
Proof.
  unfold SendRoutingMessage. destruct (negb _); [by eexists _, _|].
  destruct (routing_encode routing_size msg) as [buf|] eqn:E; [|by eexists _, _].
  destruct (randombytes TUNNONCESIZE (rnd p)) as [N g].
  assert (exists buf' g', (if bool_decide (length buf < pad_size)%nat then pad_buffer routing_size buf (pad_size - length buf) g
    else Done (buf, g)) = Done (buf', g')) as (buf'&g'&->).
  { destruct (bool_decide _) eqn:Ed; [|by eexists _, _]. apply bool_decide_eq_true in Ed.
    destruct (pad_total routing_size buf (pad_size - length buf) g) as (pad&g'&->); [|by eexists _, _].
    unfold pad_size, routing_size in *. lia. }
  cbn [obind]. unfold HandleUpstream. destruct (DecayingHashSet.Insert _ _ _ _) as [[] f]; by eexists _, _.
Qed.

Lemma SendLatencyMessage_life e p : exists b p', SendLatencyMessage e p = Done (b, p') /\ same_life p p'
  /\ m_LastLatencyTestTime (tm p') = Now e.
Proof.
  unfold SendLatencyMessage. destruct (randint (rnd p)) as [T g]. set (p1 := on_tm _ _).
  destruct (SendRoutingMessage_life e (PathLatency (m_SequenceNum (hq p)) T 0) p1) as (b&p2&->&[]&Et). cbn [obind].
  assert (same_life p p2) as Hs by (by split). assert (m_LastLatencyTestTime (tm p2) = Now e) as El by (by rewrite Et).
  destruct b; [|by eexists _, _]. eexists _, _. split; [done|]. unfold FlushUpstream.
  destruct (m_UpstreamQueue (hq p2)); [done|]. destruct Hs. by split.
Qed.

Lemma EnterState_timeout now p : _status p = ePathEstablished -> EnterState ePathTimeout now p
  = set_status ePathTimeout (if m_PathSet p then emit HandlePathDied (set_status ePathTimeout p) else set_status ePathTimeout p).
Proof. intros Hs. unfold EnterState. rewrite Hs. reflexivity. Qed.

Lemma alive_tick e now p : _status p = ePathEstablished -> Expired now p = false ->
  alive_timeout <= now - m_LastRecvMessage (tm p) ->
  exists p', Tick e now p = Done p'
    /\ ((same_life p p' /\ m_LastLatencyTestTime (tm p') = Now e /\ latency_interval < now - m_LastLatencyTestTime (tm p))
        \/ (_status p' = ePathTimeout /\ m_LastRecvMessage (tm p') = m_LastRecvMessage (tm p)
            /\ (m_PathSet p = true -> HandlePathDied ∈ events p'))).
Proof.
  intros Hs He Ha. unfold Tick. rewrite He. cbn [_status on_rt]. rewrite Hs. rewrite bool_decide_false by done.
  unfold Tick_alive. cbn [_status on_rt tm]. rewrite Hs, bool_decide_true by done.
  destruct (_ && _) eqn:El.
  - apply andb_true_iff in El as [El%Z.ltb_lt _].
    match goal with |- context [SendLatencyMessage e ?q] => destruct (SendLatencyMessage_life e q) as (b&p'&->&[]&Et) end.
    cbn [obind]. eexists. split; [done|]. left. cbn in *. split; [|done]. by split.
  - rewrite (proj2 (Z.leb_le _ _) Ha). cbn [obind]. rewrite EnterState_timeout by done. eexists. split; [reflexivity|].
    right. cbn [m_PathSet set_status emit on_rt]. destruct (m_PathSet p); (split; [done|]; split; [done|]); [|done].
    intros _. cbn. apply elem_of_app. right. by left.
Qed.

Lemma timeout_tick e now p : _status p = ePathTimeout -> exists p', Tick e now p = Done p'
  /\ _status p' = ePathTimeout /\ m_LastRecvMessage (tm p') = m_LastRecvMessage (tm p) /\ events p' = events p.
Proof.
  intros Hs. unfold Tick. destruct (Expired now p); [by exists p|]. cbn [_status on_rt]. rewrite Hs, bool_decide_false by done.
  unfold Tick_alive. cbn [_status on_rt]. rewrite Hs, bool_decide_false by done. cbn [obind _status on_rt]. rewrite Hs, bool_decide_false by done. by eexists.
Qed.
End Silent.

(** A path that falls silent dies.  If an established path, short of its
    expiry, received nothing for [alive_timeout], then of two ticks at most
    [latency_interval] apart the first one tests the path or gives it up and the
    second one at the latest moves it to [ePathTimeout], telling the path set;
    unless something arrives, it has expired [PathReanimationTimeout] after the
    last message. *)
Theorem silent_path_dies `{Sodium} `{Oxenc} `{Routing} `{!RoutingSpec} e1 e2 p t1 t2 :
  _status p = ePathEstablished -> t1 <= t2 <= t1 + latency_interval -> t2 < ExpireTime p -> Now e1 = t1 ->
  alive_timeout <= t1 - m_LastRecvMessage (tm p) ->
  exists p1 p2, Tick e1 t1 p = Done p1 /\ Tick e2 t2 p1 = Done p2 /\ _status p2 = ePathTimeout
    /\ (m_PathSet p = true -> HandlePathDied ∈ events p2)
    /\ forall now, Expired now p2 = (m_LastRecvMessage (tm p) + PathReanimationTimeout <=? now).
Proof.
  intros Hs Ht Hx Hn Ha.
  assert (forall now q, _status q = ePathEstablished -> ExpireTime q = ExpireTime p -> now < ExpireTime p -> Expired now q = false) as Hne.
  { intros now q Hq Eq Hlt. unfold Expired. rewrite Hq, Eq. by apply Z.leb_gt. }
  destruct (alive_tick e1 t1 p Hs) as (p1&E1&[(Hl&Hlt&_)|(Hs1&Hr1&Hd1)]); [apply Hne; [done|done|lia]|done| |].
  - destruct Hl as [Es Ep Eh Eb Er]. assert (ExpireTime p1 = ExpireTime p) as Ee by (unfold ExpireTime; by rewrite Eb, Eh).
    destruct (alive_tick e2 t2 p1) as (p2&E2&[(_&_&Hbad)|(Hs2&Hr2&Hd2)]); [by rewrite Es|apply Hne; [by rewrite Es|done|done]|lia|lia|].
    exists p1, p2. split_and!; [done|done|done|by rewrite <- Ep|]. intros now. unfold Expired. by rewrite Hs2, Hr2, Er.
  - destruct (timeout_tick e2 t2 p1 Hs1) as (p2&E2&Hs2&Hr2&Ev2). exists p1, p2. split_and!; [done|done|done|by rewrite Ev2|].
    intros now. unfold Expired. by rewrite Hs2, Hr2, Hr1.
Qed.

Lemma silent_path_dies_witness : exists p1 p2, @Tick toy_sodium demo_routing (mkEnv 40000 40000 (fun _ => true) (fun _ => true)) 40000 demo_path = Done p1
  /\ @Tick toy_sodium demo_routing demo_env 41000 p1 = Done p2 /\ _status p2 = ePathTimeout /\ HandlePathDied ∈ events p2.
Proof.
  destruct (@silent_path_dies toy_sodium be_oxenc demo_routing demo_routing_spec (mkEnv 40000 40000 (fun _ => true) (fun _ => true))
    demo_env demo_path 40000 41000) as (p1&p2&E1&E2&Hs&Hd&_).
  - reflexivity.
  - unfold latency_interval. lia.
  - vm_compute. reflexivity.
  - reflexivity.
  - vm_compute. discriminate.
  - exists p1, p2. split; [exact E1|]. split; [exact E2|]. split; [exact Hs|]. apply Hd. reflexivity.
Defined.

(** ** Findings *)

(** [SupportsAnyRoles] joins the roles where it means to intersect them. *)
Lemma any_role_is_supported `{Sodium} roles p : SupportsAnyRoles roles p = true.
Proof.
  unfold SupportsAnyRoles. destruct (Z.eqb_spec roles ePathRoleAny) as [|Hr]; [done|]. cbn [orb]. apply negb_true_iff, Z.eqb_neq.
  intros E. apply Z.lor_eq_0_iff in E as [_ E]. done.
Qed.
