(* ===== verification/PathContext.v ===== *)
(** * The tables of paths

    [llarp/path/path_context.cpp]: the client paths a router owns and the transit
    hops it keeps for others, found by path id and neighbour.  Paths and hops are
    shared objects: the tables hold handles into a store, and an operation through
    one entry is seen through the others.  A multimap is the list of its entries
    in order of insertion. *)

From S2P Require Import Prelude Buffer Crypto Decaying Path.
Open Scope Z_scope.

Definition DefaultPathBuildLimit : Z := 500.

(** An address with its port. *)
Definition IpAddress : Type := list Z * Z.
Definition setPort (port : Z) (ip : IpAddress) : IpAddress := (ip.1, port).

Section Context.
Context `{Sodium}.

(** [removed]: the ids [outboundMessageHandler().RemovePath] was called with. *)
Record PathContext := mkContext {
  hop_store : list Transit.TransitHop;
  path_store : list Path;
  m_TransitPaths : list (list Z * nat);
  m_OurPaths : list (list Z * nat);
  m_AllowTransit : bool;
  m_PathLimits : DecayingHashSet.t IpAddress;
  removed : list (list Z) }.
Definition cx_hop_store (v : list Transit.TransitHop) (x : PathContext) : PathContext :=
  mkContext v (path_store x) (m_TransitPaths x) (m_OurPaths x) (m_AllowTransit x) (m_PathLimits x) (removed x).
Definition cx_path_store (v : list Path) (x : PathContext) : PathContext :=
  mkContext (hop_store x) v (m_TransitPaths x) (m_OurPaths x) (m_AllowTransit x) (m_PathLimits x) (removed x).
Definition cx_m_TransitPaths (v : list (list Z * nat)) (x : PathContext) : PathContext :=
  mkContext (hop_store x) (path_store x) v (m_OurPaths x) (m_AllowTransit x) (m_PathLimits x) (removed x).
Definition cx_m_OurPaths (v : list (list Z * nat)) (x : PathContext) : PathContext :=
  mkContext (hop_store x) (path_store x) (m_TransitPaths x) v (m_AllowTransit x) (m_PathLimits x) (removed x).
Definition cx_m_AllowTransit (v : bool) (x : PathContext) : PathContext :=
  mkContext (hop_store x) (path_store x) (m_TransitPaths x) (m_OurPaths x) v (m_PathLimits x) (removed x).
Definition cx_m_PathLimits (v : DecayingHashSet.t IpAddress) (x : PathContext) : PathContext :=
  mkContext (hop_store x) (path_store x) (m_TransitPaths x) (m_OurPaths x) (m_AllowTransit x) v (removed x).
Definition cx_removed (v : list (list Z)) (x : PathContext) : PathContext :=
  mkContext (hop_store x) (path_store x) (m_TransitPaths x) (m_OurPaths x) (m_AllowTransit x) (m_PathLimits x) v.
Definition PathContext_new : PathContext := mkContext [] [] [] [] false (DecayingHashSet.new DefaultPathBuildLimit) [].

(** [std::make_shared] *)
Definition alloc_hop (h : Transit.TransitHop) (c : PathContext) : nat * PathContext :=
  (length (hop_store c), cx_hop_store (hop_store c ++ [h]) c).
Definition alloc_path (p : Path) (c : PathContext) : nat * PathContext :=
  (length (path_store c), cx_path_store (path_store c ++ [p]) c).
Definition on_hop (k : nat) (f : Transit.TransitHop -> Transit.TransitHop) (c : PathContext) : PathContext :=
  cx_hop_store (alter f k (hop_store c)) c.
Definition on_path (k : nat) (f : Path -> Path) (c : PathContext) : PathContext :=
  cx_path_store (alter f k (path_store c)) c.
(** A test of the object behind a handle. *)
Definition hop_is (c : PathContext) (f : Transit.TransitHop -> bool) (k : nat) : bool :=
  match hop_store c !! k with Some h => f h | None => false end.
Definition path_is (c : PathContext) (f : Path -> bool) (k : nat) : bool :=
  match path_store c !! k with Some p => f p | None => false end.

Definition AllowTransit (c : PathContext) : PathContext := cx_m_AllowTransit true c.
Definition AllowingTransit (c : PathContext) : bool := m_AllowTransit c.

Definition CheckPathLimitHitByIP (clock : Z) (ip : IpAddress) (c : PathContext) : bool * PathContext :=
  let '(inserted, s) := DecayingHashSet.Insert clock (setPort 0 ip) 0 (m_PathLimits c) in
  (negb inserted, cx_m_PathLimits s c).

(** *** Lookup *)

Definition equal_range (m : list (list Z * nat)) (id : list Z) : list nat :=
  (filter (fun e => e.1 = id) m).*2.
Fixpoint first_of (check : nat -> bool) (l : list nat) : option nat :=
  match l with
  | [] => None
  | k :: l => if check k then Some k else first_of check l
  end.
Definition MapGet (m : list (list Z * nat)) (id : list Z) (check : nat -> bool) : option nat :=
  first_of check (equal_range m id).
Definition MapHas (m : list (list Z * nat)) (id : list Z) (check : nat -> bool) : bool :=
  existsb check (equal_range m id).

Inductive HopHandler := OwnPath (k : nat) | TransitPath (k : nat).

Definition HasTransitHop (i : TransitHopInfo) (c : PathContext) : bool :=
  MapHas (m_TransitPaths c) (i_txID i) (hop_is c (fun h => bool_decide (i = Transit.info h))).
Definition TransitHopByInfo (i : TransitHopInfo) (c : PathContext) : option nat :=
  MapGet (m_TransitPaths c) (i_txID i) (hop_is c (fun h => bool_decide (Transit.info h = i))).
Definition TransitHopByUpstream (up id : list Z) (c : PathContext) : option nat :=
  MapGet (m_TransitPaths c) id (hop_is c (fun h => bool_decide (i_upstream (Transit.info h) = up))).
Definition GetByUpstream (remote id : list Z) (c : PathContext) : option HopHandler :=
  match MapGet (m_OurPaths c) id (fun _ => true) with
  | Some own => Some (OwnPath own)
  | None =>
      TransitPath <$> MapGet (m_TransitPaths c) id (hop_is c (fun h => bool_decide (i_upstream (Transit.info h) = remote)))
  end.
Definition GetByDownstream (remote id : list Z) (c : PathContext) : option HopHandler :=
  TransitPath <$> MapGet (m_TransitPaths c) id (hop_is c (fun h => bool_decide (i_downstream (Transit.info h) = remote))).
Definition TransitHopPreviousIsRouter (path r : list Z) (c : PathContext) : bool :=
  match equal_range (m_TransitPaths c) path with
  | [] => false
  | k :: _ => hop_is c (fun h => bool_decide (i_downstream (Transit.info h) = r)) k
  end.
(** The endpoint of a path that [us] is the end of. *)
Definition GetPathForTransfer (us id : list Z) (c : PathContext) : option nat :=
  MapGet (m_TransitPaths c) id (hop_is c (fun h => bool_decide (i_upstream (Transit.info h) = us))).
(** Whether the owner of the path is alive. *)
Definition GetLocalPathSet (id : list Z) (c : PathContext) : bool :=
  match equal_range (m_OurPaths c) id with
  | [] => false
  | k :: _ => path_is c m_PathSet k
  end.
(** The set of paths is ordered by content; here it is the list of handles found. *)
Definition FindOwnedPathsWithEndpoint (e : Env) (r : list Z) (c : PathContext) : list nat :=
  filter (fun k => path_is c (fun p => bool_decide (Endpoint p = r) && IsReady e p) k = true) (m_OurPaths c).*2.

(** *** Changes *)

Definition PutTransitHop (k : nat) (c : PathContext) : PathContext :=
  match hop_store c !! k with
  | Some h => cx_m_TransitPaths (m_TransitPaths c ++ [(i_txID (Transit.info h), k); (i_rxID (Transit.info h), k)]) c
  | None => c
  end.
(** [unordered_map::emplace] keeps an entry that is there. *)
Definition put_own (id : list Z) (k : nat) (m : list (list Z * nat)) : list (list Z * nat) :=
  if bool_decide (equal_range m id = []) then m ++ [(id, k)] else m.
(** [set->AddPath] belongs to the path set. *)
Definition AddOwnPath (k : nat) (c : PathContext) : PathContext :=
  match path_store c !! k with
  | Some p => cx_m_OurPaths (put_own (RXID p) k (put_own (TXID p) k (m_OurPaths c))) c
  | None => c
  end.

Definition for_each (f : nat -> PathContext -> PathContext) (l : list nat) (c : PathContext) : PathContext :=
  fold_left (fun c k => f k c) l c.
Definition PumpUpstream (c : PathContext) : PathContext :=
  let c := for_each (fun k => on_hop k Transit.FlushUpstream) (m_TransitPaths c).*2 c in
  for_each (fun k => on_path k FlushUpstream) (m_OurPaths c).*2 c.
Definition PumpDownstream (c : PathContext) : PathContext :=
  let c := for_each (fun k => on_hop k Transit.FlushDownstream) (m_TransitPaths c).*2 c in
  for_each (fun k => on_path k FlushDownstream) (m_OurPaths c).*2 c.

Definition CurrentTransitPaths (c : PathContext) : nat := Nat.div (length (m_TransitPaths c)) 2.
Definition CurrentOwnedPaths (st : PathStatus) (c : PathContext) : nat :=
  Nat.div (length (filter (fun k => path_is c (fun p => bool_decide (_status p = st)) k = true) (m_OurPaths c).*2)) 2.

(** The two loops of [ExpirePaths]: an entry whose object has expired goes, the
    filters of the others decay. *)
Fixpoint expire_transit (clock now : Z) (l : list (list Z * nat)) (c : PathContext) : list (list Z * nat) * PathContext :=
  match l with
  | [] => ([], c)
  | (id, k) :: l =>
      if hop_is c (Transit.Expired now) k then expire_transit clock now l (cx_removed (removed c ++ [id]) c)
      else
        let '(l, c) := expire_transit clock now l
          (on_hop k (fun h => Transit.set_hq (DecayFilters clock now (Transit.hq h)) h) c) in
        ((id, k) :: l, c)
  end.
Fixpoint expire_own (clock now : Z) (l : list (list Z * nat)) (c : PathContext) : list (list Z * nat) * PathContext :=
  match l with
  | [] => ([], c)
  | (id, k) :: l =>
      if path_is c (Expired now) k then expire_own clock now l c
      else
        let '(l, c) := expire_own clock now l (on_path k (on_hq (DecayFilters clock now)) c) in
        ((id, k) :: l, c)
  end.
Definition ExpirePaths (clock now : Z) (c : PathContext) : PathContext :=
  let c := cx_m_PathLimits (DecayingHashSet.Decay clock now (m_PathLimits c)) c in
  let '(l, c) := expire_transit clock now (m_TransitPaths c) c in
  let c := cx_m_TransitPaths l c in
  let '(l, c) := expire_own clock now (m_OurPaths c) c in
  cx_m_OurPaths l c.

(** *** Relayed messages arriving from a neighbour *)

Definition RelayUpstream_HandleMessage (remote : list Z) (m : RelayMessage) (c : PathContext) : bool * PathContext :=
  match GetByDownstream remote (pathid m) c with
  | Some (TransitPath k) => (true, on_hop k (Transit.HandleUpstream (payload m) (Y m)) c)
  | _ => (false, c)
  end.
Definition RelayDownstream_HandleMessage (e : Env) (remote : list Z) (m : RelayMessage) (c : PathContext) : bool * PathContext :=
  match GetByUpstream remote (pathid m) c with
  | Some (TransitPath k) => (true, on_hop k (Transit.HandleDownstream (payload m) (Y m)) c)
  | Some (OwnPath k) =>
      match path_store c !! k with
      | Some p => let '(ok, p) := HandleDownstream e (payload m) (Y m) p in (ok, on_path k (fun _ => p) c)
      | None => (false, c)
      end
  | None => (false, c)
  end.
End Context.

(** ** The tables over time *)

Section Invariant.
Context `{Sodium}.

Inductive Op :=
  | OpTransit (h : Transit.TransitHop)
  | OpOwn (p : Path)
  | OpUpstream (remote : list Z) (m : RelayMessage)
  | OpDownstream (e : Env) (remote : list Z) (m : RelayMessage)
  | OpPumpUp | OpPumpDown
  | OpDestroy (k : nat)
  | OpLimit (clock : Z) (ip : IpAddress)
  | OpExpire (clock now : Z).

Definition run (op : Op) (c : PathContext) : PathContext :=
  match op with
  | OpTransit h => let '(k, c) := alloc_hop h c in PutTransitHop k c
  | OpOwn p => let '(k, c) := alloc_path p c in AddOwnPath k c
  | OpUpstream remote m => (RelayUpstream_HandleMessage remote m c).2
  | OpDownstream e remote m => (RelayDownstream_HandleMessage e remote m c).2
  | OpPumpUp => PumpUpstream c
  | OpPumpDown => PumpDownstream c
  | OpDestroy k => on_hop k Transit.SetSelfDestruct c
  | OpLimit clock ip => (CheckPathLimitHitByIP clock ip c).2
  | OpExpire clock now => ExpirePaths clock now c
  end.
Definition runs (ops : list Op) : PathContext := fold_left (fun c op => run op c) ops PathContext_new.

Definition infos (c : PathContext) : list TransitHopInfo := map Transit.info (hop_store c).
Lemma length_infos c : length (infos c) = length (hop_store c).
Proof. apply length_map. Qed.
(** The two entries of each hop. *)
Definition entries (inf : list TransitHopInfo) (ks : list nat) : list (list Z * nat) :=
  flat_map (fun k => match inf !! k with Some i => [(i_txID i, k); (i_rxID i, k)] | None => [] end) ks.
Record tabled (c : PathContext) (ks : list nat) : Prop := mkTabled {
  tb_nodup : NoDup ks;
  tb_store : Forall (fun k => k < length (hop_store c))%nat ks;
  tb_table : m_TransitPaths c = entries (infos c) ks }.

Definition same (c c' : PathContext) : Prop := infos c' = infos c /\ m_TransitPaths c' = m_TransitPaths c.

Lemma same_trans c1 c2 c3 : same c1 c2 -> same c2 c3 -> same c1 c3.
Proof. intros [E1 F1] [E2 F2]. split; congruence. Qed.

Lemma tabled_same c c' ks : same c c' -> tabled c ks -> tabled c' ks.
Proof.
  intros [Ei Et] [Hn Hs Ht]. split; [done| |by rewrite Et, Ei].
  assert (length (hop_store c') = length (hop_store c)) as -> by (by rewrite <- !length_infos, Ei). done.
Qed.

Lemma same_on_hop k f c : (forall h, Transit.info (f h) = Transit.info h) -> same c (on_hop k f c).
Proof.
  intros Hf. split; [|done]. unfold infos, on_hop. cbn. generalize (hop_store c). clear -Hf. intros l. revert k.
  induction l as [|x l IH]; intros [|k]; [done|done| |]; cbn; [by rewrite Hf|]. f_equal. apply IH.
Qed.

Lemma same_for_each f l c : (forall k c, same c (f k c)) -> same c (for_each f l c).
Proof.
  intros Hf. unfold for_each. revert c. induction l as [|k l IH]; intros c; [done|]. cbn [fold_left].
  eapply same_trans; [apply Hf|apply IH].
Qed.

Lemma hop_info_steps : (forall buf n h, Transit.info (Transit.HandleUpstream buf n h) = Transit.info h)
  /\ (forall buf n h, Transit.info (Transit.HandleDownstream buf n h) = Transit.info h)
  /\ (forall h, Transit.info (Transit.FlushUpstream h) = Transit.info h)
  /\ (forall h, Transit.info (Transit.FlushDownstream h) = Transit.info h).
Proof.
  split_and!; [done|done| |]; intros h; unfold Transit.FlushUpstream, Transit.FlushDownstream.
  - by destruct (m_UpstreamQueue (Transit.hq h)).
  - by destruct (m_DownstreamQueue (Transit.hq h)).
Qed.

Lemma infos_lookup c k : infos c !! k = Transit.info <$> hop_store c !! k.
Proof. apply list_lookup_fmap. Qed.

Lemma entries_extend inf i ks : Forall (fun k => k < length inf)%nat ks -> entries (inf ++ [i]) ks = entries inf ks.
Proof.
  induction 1 as [|k ks Hk _ IH]; [done|]. unfold entries in *. cbn [flat_map]. by rewrite lookup_app_l, IH by done.
Qed.

Lemma tabled_put h c ks : tabled c ks -> tabled (run (OpTransit h) c) (ks ++ [length (hop_store c)]).
Proof.
  intros [Hn Hs Ht]. cbn [run alloc_hop]. unfold PutTransitHop. cbn [hop_store cx_hop_store].
  rewrite lookup_app_r, Nat.sub_diag by lia. cbn [lookup list_lookup]. split.
  - apply NoDup_app. split; [done|]. split; [|apply NoDup_singleton]. intros k Hk Hk'. apply list_elem_of_singleton in Hk' as ->.
    rewrite Forall_forall in Hs. specialize (Hs _ Hk). lia.
  - cbn. rewrite length_app. apply Forall_app. split; [|apply Forall_singleton; cbn; lia]. eapply Forall_impl; [exact Hs|]. cbn. lia.
  - match goal with |- _ = entries (infos ?c') _ => assert (infos c' = infos c ++ [Transit.info h]) as -> by (unfold infos; cbn; by rewrite map_app) end.
    cbn [m_TransitPaths cx_m_TransitPaths cx_hop_store]. rewrite Ht. unfold entries at 2. rewrite flat_map_app.
    fold (entries (infos c ++ [Transit.info h]) ks). rewrite entries_extend by (by rewrite length_infos). f_equal. cbn [flat_map].
    rewrite lookup_app_r by (rewrite length_infos; lia). by rewrite length_infos, Nat.sub_diag.
Qed.

(** *** Expiry *)

Definition expired (now : Z) (c : PathContext) (k : nat) : bool := hop_is c (Transit.Expired now) k.

Lemma expired_decay clock now t k c k' :
  expired now (on_hop k (fun h => Transit.set_hq (DecayFilters clock t (Transit.hq h)) h) c) k' = expired now c k'.
Proof.
  unfold expired, hop_is, on_hop. cbn. rewrite list_lookup_alter. destruct (decide (k = k')) as [->|]; [|done].
  by destruct (hop_store c !! k').
Qed.

Lemma expire_transit_spec clock now ks : forall c, Forall (fun k => k < length (hop_store c))%nat ks -> exists c',
  expire_transit clock now (entries (infos c) ks) c = (entries (infos c) (filter (fun k => expired now c k = false) ks), c')
  /\ infos c' = infos c /\ m_OurPaths c' = m_OurPaths c.
Proof.
  induction ks as [|k ks IH]; intros c Hs; [by exists c|]. apply Forall_cons in Hs as [Hk Hs]. unfold entries. cbn [flat_map].
  fold (entries (infos c) ks). rewrite filter_cons. destruct (lookup_lt_is_Some_2 (infos c) k) as [i Ei]; [unfold infos; by rewrite length_map|].
  rewrite Ei. cbn [app expire_transit]. fold (expired now c k). destruct (expired now c k) eqn:Ex; [rewrite decide_False by done|rewrite decide_True by done].
  - change (hop_is (cx_removed (removed c ++ [i_txID i]) c) (Transit.Expired now) k) with (expired now c k). rewrite Ex.
    destruct (IH (cx_removed (removed (cx_removed (removed c ++ [i_txID i]) c) ++ [i_rxID i]) (cx_removed (removed c ++ [i_txID i]) c)) Hs)
      as (c'&E&Ei'&Eo). exists c'. split; [exact E|]. by split.
  - set (d := fun h : Transit.TransitHop => Transit.set_hq (DecayFilters clock now (Transit.hq h)) h). fold (expired now (on_hop k d c) k).
    unfold d. rewrite expired_decay, Ex. fold d.
    assert (infos (on_hop k d (on_hop k d c)) = infos c) as Ed by (rewrite !(proj1 (same_on_hop k d _ (fun _ => eq_refl))); done).
    destruct (IH (on_hop k d (on_hop k d c))) as (c'&E&Ei'&Eo).
    { assert (length (hop_store (on_hop k d (on_hop k d c))) = length (hop_store c)) as -> by (by rewrite <- !length_infos, Ed). done. }
    rewrite Ed in E, Ei'. rewrite E. exists c'. split; [|by split]. f_equal. cbn [flat_map]. rewrite Ei. cbn [app]. do 2 f_equal.
    unfold entries. f_equal. apply list_filter_iff. intros k'. unfold d. by rewrite !expired_decay.
Qed.

Lemma same_expire_own clock now l : forall c, same c (expire_own clock now l c).2.
Proof.
  induction l as [|[id k] l IH]; intros c; [done|]. cbn [expire_own]. destruct (path_is c (Expired now) k); [apply IH|].
  specialize (IH (on_path k (on_hq (DecayFilters clock now)) c)). destruct (expire_own clock now l _) as [l' c']. exact IH.
Qed.

Lemma expire_spec clock now c ks : tabled c ks -> infos (ExpirePaths clock now c) = infos c
  /\ tabled (ExpirePaths clock now c) (filter (fun k => expired now c k = false) ks).
Proof.
  intros [Hn Hs Ht]. unfold ExpirePaths. set (c0 := cx_m_PathLimits _ c). change (m_TransitPaths c0) with (m_TransitPaths c). rewrite Ht.
  change (infos c) with (infos c0). destruct (expire_transit_spec clock now ks c0 Hs) as (c1&->&Ei&_).
  set (c2 := cx_m_TransitPaths _ c1). pose proof (same_expire_own clock now (m_OurPaths c2) c2) as Ho. destruct (expire_own clock now (m_OurPaths c2) c2) as [l c3].
  split; [transitivity (infos c2); [exact (proj1 Ho)|exact Ei]|].
  apply (tabled_same c2); [exact Ho|]. split; [by apply NoDup_filter| |].
  - apply list.Forall_forall. intros k Hk. apply list_elem_of_filter in Hk as [_ Hk]. rewrite list.Forall_forall in Hs. specialize (Hs k Hk).
    change (hop_store c2) with (hop_store c1). assert (length (hop_store c1) = length (hop_store c0)) as -> by (by rewrite <- !length_infos, Ei). done.
  - cbn [m_TransitPaths c2 cx_m_TransitPaths]. change (infos c2) with (infos c1). by rewrite Ei.
Qed.

Lemma same_run op c : match op with OpTransit _ | OpExpire _ _ => True | _ => same c (run op c) end.
Proof.
  destruct hop_info_steps as (Hu&Hd&Hfu&Hfd). destruct op as [h|p|remote m|e remote m| | |k|clock ip|clock now]; try exact I; cbn [run].
  - cbn. unfold AddOwnPath. by destruct (path_store _ !! _).
  - unfold RelayUpstream_HandleMessage. destruct (GetByDownstream remote (pathid m) c) as [[k|k]|]; try done. by apply same_on_hop.
  - unfold RelayDownstream_HandleMessage. destruct (GetByUpstream remote (pathid m) c) as [[k|k]|]; try done; [|by apply same_on_hop].
    destruct (path_store c !! k) as [p|]; [|done]. by destruct (HandleDownstream e (payload m) (Y m) p).
  - unfold PumpUpstream. eapply same_trans; [|by apply same_for_each]. apply same_for_each. intros k c'. by apply same_on_hop.
  - unfold PumpDownstream. eapply same_trans; [|by apply same_for_each]. apply same_for_each. intros k c'. by apply same_on_hop.
  - by apply same_on_hop.
  - unfold CheckPathLimitHitByIP. by destruct (DecayingHashSet.Insert _ _ _ _).
Qed.

Lemma tabled_run op c ks : tabled c ks -> exists ks', tabled (run op c) ks'.
Proof.
  intros Ht. destruct op as [h|p|remote m|e remote m| | |k|clock ip|clock now].
  1: { eexists. by apply tabled_put. }
  8: { eexists. by apply expire_spec. }
  all: exists ks; eapply tabled_same; [|exact Ht].
  - exact (same_run (OpOwn p) c).
  - exact (same_run (OpUpstream remote m) c).
  - exact (same_run (OpDownstream e remote m) c).
  - exact (same_run OpPumpUp c).
  - exact (same_run OpPumpDown c).
  - exact (same_run (OpDestroy k) c).
  - exact (same_run (OpLimit clock ip) c).
Qed.

Lemma tabled_runs ops : exists ks, tabled (runs ops) ks.
Proof.
  unfold runs. assert (exists ks, tabled PathContext_new ks) as Hc by (exists []; split; [constructor|constructor|done]).
  revert Hc. generalize PathContext_new. induction ops as [|op ops IH]; intros c [ks Ht]; [by exists ks|]. apply IH. by eapply tabled_run.
Qed.

Lemma entries_elem c ks id k : Forall (fun k => k < length (hop_store c))%nat ks -> (id, k) ∈ entries (infos c) ks <->
  k ∈ ks /\ exists h, hop_store c !! k = Some h /\ (id = i_txID (Transit.info h) \/ id = i_rxID (Transit.info h)).
Proof.
  intros Hs. unfold entries. rewrite list_elem_of_In, in_flat_map. split.
  - intros (k'&Hk&Hin). rewrite infos_lookup in Hin. destruct (hop_store c !! k') as [h|] eqn:Eh; [|done]. cbn in Hin.
    destruct Hin as [E|[E|[]]]; injection E as <- <-; (split; [by apply list_elem_of_In|]); exists h; (split; [done|]); [by left|by right].
  - intros (Hk&h&Eh&Hid). exists k. split; [by apply list_elem_of_In|]. rewrite infos_lookup, Eh. cbn. destruct Hid as [->| ->]; [by left|by right; left].
Qed.

Lemma entries_keys c ks k : Forall (fun k => k < length (hop_store c))%nat ks -> k ∈ (entries (infos c) ks).*2 <-> k ∈ ks.
Proof.
  intros Hs. rewrite list_elem_of_fmap. split.
  - intros ([id k']&->&Hin). by apply entries_elem in Hin as [Hk _].
  - intros Hk. rewrite list.Forall_forall in Hs. pose proof (Hs k Hk) as Hl. apply lookup_lt_is_Some_2 in Hl as [h Eh].
    exists (i_txID (Transit.info h), k). split; [done|]. apply entries_elem; [by apply list.Forall_forall|]. split; [done|]. exists h. split; [done|by left].
Qed.

Lemma length_entries c ks : Forall (fun k => k < length (hop_store c))%nat ks -> length (entries (infos c) ks) = (2 * length ks)%nat.
Proof.
  induction 1 as [|k ks Hk _ IH]; [done|]. unfold entries in *. cbn [flat_map]. destruct (lookup_lt_is_Some_2 (infos c) k) as [i ->]; [by rewrite length_infos|].
  cbn [app length]. rewrite IH. lia.
Qed.

Lemma first_of_spec check l k : first_of check l = Some k -> k ∈ l /\ check k = true.
Proof.
  induction l as [|x l IH]; [done|]. cbn [first_of]. destruct (check x) eqn:E.
  - intros Ek. injection Ek as <-. split; [by left|done].
  - intros Ek. destruct (IH Ek). split; [by right|done].
Qed.
Lemma first_of_some check l k : k ∈ l -> check k = true -> is_Some (first_of check l).
Proof.
  intros Hin Hc. induction l as [|x l IH]; [by apply not_elem_of_nil in Hin|]. cbn [first_of]. destruct (check x) eqn:E; [by eexists|].
  apply IH. apply elem_of_cons in Hin as [->|Hin]; [congruence|done].
Qed.
Lemma equal_range_elem m id k : k ∈ equal_range m id <-> (id, k) ∈ m.
Proof.
  unfold equal_range. rewrite list_elem_of_fmap. split.
  - intros ([i k']&->&Hin). apply list_elem_of_filter in Hin as [E Hin]. cbn in E. by subst.
  - intros Hin. exists (id, k). split; [done|]. by apply list_elem_of_filter.
Qed.
End Invariant.

(** ** Theorems *)

