(* ===== verification/PathBuild.v ===== *)
(** * Building paths

    [llarp/messages/relay_commit.cpp], [relay_status.cpp], the key generation of
    [llarp/path/pathbuilder.cpp] and [Path::HandleLRSM]: a client sends one
    encrypted record per hop (LRCM); every relay opens its record, keeps a
    transit hop and passes the others on; on the way back every relay adds an
    encrypted status (LRSM) from which the client learns whether the path stands
    or which hop failed.  Router contacts are coded elsewhere and enter through
    [BItem HopRC]. *)

From S2P Require Import Prelude Buffer Bencode Crypto Decaying Path PathContext.
Open Scope Z_scope.

(** ** [LR_CommitRecord] *)

Record PoW := mkPoW { timestamp : Z; extendedLifetime : Z; pow_nonce : list Z; pow_version : Z }.
Definition PoW_new : PoW := mkPoW 0 0 (replicate 32 0) proto_version.
Definition PoW_BEncode (w : PoW) (b : llarp_buffer_t) : bool * llarp_buffer_t := and_then (bencode_start_dict b) bencode_end.
(** No key is known. *)
Definition PoW_DecodeKey (w : PoW) (key b : llarp_buffer_t) : outcome (bool * llarp_buffer_t * PoW) := Done (false, b, w).

Definition PoW_MaxSize : nat := 128.
(** [ceil(exp(k))] for [k] from 0, as far as a 64-bit count of milliseconds goes. *)
Definition exp_ceil : list Z := [
  1; 3; 8; 21; 55; 149; 404; 1097; 2981; 8104; 22027; 59875; 162755; 442414; 1202605; 3269018;
  8886111; 24154953; 65659970; 178482301; 485165196; 1318815735; 3584912847; 9744803447;
  26489122130; 72004899338; 195729609429; 532048240602; 1446257064292; 3931334297145;
  10686474581525; 29048849665248; 78962960182681; 214643579785917; 583461742527455;
  1586013452313431; 4311231547115196; 11719142372802612; 31855931757113757; 86593400423993747;
  235385266837019986; 639843493530054950; 1739274941520501048; 4727839468229346562].
(** [std::floor(std::log(n))] for a positive [n]. *)
Definition log_floor (n : Z) : nat := length (filter (fun x => x <= n) exp_ceil) - 1.
(** [digest[idx]] for [idx] below [n]. *)
Fixpoint zero_prefix (n : nat) (digest : list Z) : outcome bool :=
  match n with
  | O => Done true
  | S n => match digest with [] => Fault | x :: digest => if x =? 0 then zero_prefix n digest else Done false end
  end.
(** The logarithm of a lifetime that is not positive is not a 32-bit number. *)
Definition PoW_IsValid `{Sodium} (now : Z) (w : PoW) : outcome bool :=
  if extendedLifetime w <? now - timestamp w then Done false
  else
    let '(ok, b) := PoW_BEncode w (Buf (replicate PoW_MaxSize 0) 0) in
    if negb ok then Done false
    else
      match shorthash (take (cur b) (base b)) with
      | None => Done false
      | Some digest => if extendedLifetime w <? 1 then Fault else zero_prefix (log_floor (extendedLifetime w)) digest
      end.

Record LR_CommitRecord := mkRecord {
  commkey : list Z;
  nextHop : list Z;
  tunnelNonce : list Z;
  txid : list Z;
  rxid : list Z;
  nextRC : option HopRC;
  work : option PoW;
  version : Z;
  lifetime : Z }.
Definition r_commkey (v : list Z) (x : LR_CommitRecord) : LR_CommitRecord :=
  mkRecord v (nextHop x) (tunnelNonce x) (txid x) (rxid x) (nextRC x) (work x) (version x) (lifetime x).
Definition r_nextHop (v : list Z) (x : LR_CommitRecord) : LR_CommitRecord :=
  mkRecord (commkey x) v (tunnelNonce x) (txid x) (rxid x) (nextRC x) (work x) (version x) (lifetime x).
Definition r_tunnelNonce (v : list Z) (x : LR_CommitRecord) : LR_CommitRecord :=
  mkRecord (commkey x) (nextHop x) v (txid x) (rxid x) (nextRC x) (work x) (version x) (lifetime x).
Definition r_txid (v : list Z) (x : LR_CommitRecord) : LR_CommitRecord :=
  mkRecord (commkey x) (nextHop x) (tunnelNonce x) v (rxid x) (nextRC x) (work x) (version x) (lifetime x).
Definition r_rxid (v : list Z) (x : LR_CommitRecord) : LR_CommitRecord :=
  mkRecord (commkey x) (nextHop x) (tunnelNonce x) (txid x) v (nextRC x) (work x) (version x) (lifetime x).
Definition r_nextRC (v : option HopRC) (x : LR_CommitRecord) : LR_CommitRecord :=
  mkRecord (commkey x) (nextHop x) (tunnelNonce x) (txid x) (rxid x) v (work x) (version x) (lifetime x).
Definition r_work (v : option PoW) (x : LR_CommitRecord) : LR_CommitRecord :=
  mkRecord (commkey x) (nextHop x) (tunnelNonce x) (txid x) (rxid x) (nextRC x) v (version x) (lifetime x).
Definition r_version (v : Z) (x : LR_CommitRecord) : LR_CommitRecord :=
  mkRecord (commkey x) (nextHop x) (tunnelNonce x) (txid x) (rxid x) (nextRC x) (work x) v (lifetime x).
Definition r_lifetime (v : Z) (x : LR_CommitRecord) : LR_CommitRecord :=
  mkRecord (commkey x) (nextHop x) (tunnelNonce x) (txid x) (rxid x) (nextRC x) (work x) (version x) v.
Definition LR_CommitRecord_new : LR_CommitRecord :=
  mkRecord (replicate 32 0) (replicate 32 0) (replicate 32 0) (replicate PATHIDSIZE 0) (replicate PATHIDSIZE 0) None None 0 0.

Section Codec.
Context `{BItem HopRC}.

Definition when (c : bool) (w : llarp_buffer_t -> bool * llarp_buffer_t) (b : llarp_buffer_t) : bool * llarp_buffer_t :=
  if c then w b else (true, b).

Definition LR_CommitRecord_BEncode (r : LR_CommitRecord) (b : llarp_buffer_t) : bool * llarp_buffer_t :=
  and_then (bencode_start_dict b) (fun b =>
  and_then (@BEncodeWriteDictEntry _ (aligned 32) [99] (commkey r) b) (fun b =>
  and_then (@BEncodeWriteDictEntry _ (aligned 32) [105] (nextHop r) b) (fun b =>
  and_then (when ((10000 <? lifetime r) && (lifetime r <? default_lifetime)) (BEncodeWriteDictInt [105] (lifetime r)) b) (fun b =>
  and_then (@BEncodeWriteDictEntry _ (aligned 32) [110] (tunnelNonce r) b) (fun b =>
  and_then (@BEncodeWriteDictEntry _ (aligned PATHIDSIZE) [114] (rxid r) b) (fun b =>
  and_then (@BEncodeWriteDictEntry _ (aligned PATHIDSIZE) [116] (txid r) b) (fun b =>
  and_then (match nextRC r with Some rc => BEncodeWriteDictEntry [117] rc b | None => (true, b) end) (fun b =>
  and_then (bencode_write_uint64_entry b [118] proto_version) (fun b =>
  and_then (match work r with
            | Some w => and_then (bencode_write_bytestring b (take 1 [119])) (PoW_BEncode w)
            | None => (true, b)
            end) bencode_end))))))))).

(** Milliseconds are signed. *)
Definition to_int64 (i : Z) : Z := if i <? 2 ^ 63 then i else i - 2 ^ 64.

Definition LR_CommitRecord_OnKey (fuel : nat) : dict_sink LR_CommitRecord := fun r b key =>
  match key with
  | None => Done (true, b, r)
  | Some key =>
      let! (ok, x, read, b) := @BEncodeMaybeReadDictEntry _ (aligned 32) [99] (commkey r) false key b in
      if negb ok then Done (false, b, r) else let r := r_commkey x r in
      let! (ok, x, read, b) := @BEncodeMaybeReadDictEntry _ (aligned 32) [105] (nextHop r) read key b in
      if negb ok then Done (false, b, r) else let r := r_nextHop x r in
      let! (ok, i, read, b) := BEncodeMaybeReadDictInt 64 [108] (lifetime r) read key b in
      if negb ok then Done (false, b, r) else let r := if startswith key [108] then r_lifetime (to_int64 i) r else r in
      let! (ok, x, read, b) := @BEncodeMaybeReadDictEntry _ (aligned 32) [110] (tunnelNonce r) read key b in
      if negb ok then Done (false, b, r) else let r := r_tunnelNonce x r in
      let! (ok, x, read, b) := @BEncodeMaybeReadDictEntry _ (aligned PATHIDSIZE) [114] (rxid r) read key b in
      if negb ok then Done (false, b, r) else let r := r_rxid x r in
      let! (ok, x, read, b) := @BEncodeMaybeReadDictEntry _ (aligned PATHIDSIZE) [116] (txid r) read key b in
      if negb ok then Done (false, b, r) else let r := r_txid x r in
      if startswith key [117] then
        let! (rc, b) := BDecode b in
        match rc with Some rc => Done (true, b, r_nextRC (Some rc) r) | None => Done (false, b, r) end
      else
        let! (ok, i, read, b) := BEncodeMaybeVerifyVersion [118] (version r) proto_version read key b in
        if negb ok then Done (false, b, r) else let r := r_version i r in
        if startswith key [119] then
          match work r with
          | Some _ => Done (false, b, r)
          | None => let! (ok, b, w) := bencode_decode_dict fuel PoW_DecodeKey PoW_new b in Done (ok, b, r_work (Some w) r)
          end
        else Done (read, b, r)
  end.
Definition LR_CommitRecord_BDecode (b : llarp_buffer_t) : outcome (bool * llarp_buffer_t * LR_CommitRecord) :=
  bencode_read_dict (S (S (sz b))) (LR_CommitRecord_OnKey (S (S (sz b)))) LR_CommitRecord_new b.
End Codec.

(** ** The client's records *)

Section Build.
Context `{Sodium} `{BItem HopRC}.

(** [hash] into an array that is zero before; the return code is ignored. *)
Definition short_hash (d : list Z) : list Z := default (replicate 32 0) (shorthash d).

Definition EncryptedFrame_default : Encrypted := EncryptedFrame_new EncryptedFrameBodySize.
(** Writes into the frame after its header. *)
Definition frame_write (w : llarp_buffer_t -> bool * llarp_buffer_t) (f : Encrypted) : bool * Encrypted :=
  let '(ok, b) := w (Buf (take (esz f) (ebuf f)) EncryptedFrameOverheadSize) in
  (ok, mkEncrypted (base b ++ drop (esz f) (ebuf f)) (esz f)).

Definition commit_record (hop : PathHopConfig) (next : option HopRC) : LR_CommitRecord :=
  mkRecord (toPublic (h_commkey hop)) (h_upstream hop) (h_nonce hop) (h_txID hop) (h_rxID hop) next None proto_version default_lifetime.

(** One step of the key exchange: [None] where the source returns and the build
    is never finished. *)
Definition GenerateNextKey (hop : PathHopConfig) (next : option HopRC) (frame : Encrypted) (g : rng)
  : outcome (option (PathHopConfig * Encrypted) * rng) :=
  let '(ck, g) := encryption_keygen g in
  let '(nonce, g) := randombytes TUNNONCESIZE g in
  match dh_client (rc_enckey (h_rc hop)) ck nonce with
  | None => Done (None, g)
  | Some shared =>
      let up := match next with Some rc => rc_pubkey rc | None => rc_pubkey (h_rc hop) end in
      let hop := mkHop (h_txID hop) (h_rxID hop) (h_rc hop) ck shared (short_hash shared) up nonce (h_lifetime hop) in
      let '(ok, frame) := frame_write (LR_CommitRecord_BEncode (commit_record hop next)) frame in
      if negb ok then Done (None, g)
      else
        let '(framekey, g) := encryption_keygen g in
        let! (ok, frame, g) := EncryptInPlace framekey (rc_enckey (h_rc hop)) frame g in
        if ok then Done (Some (hop, frame), g) else Done (None, g)
  end.

(** The records of all hops in turn; the array has [max_len] frames. *)
Fixpoint generate_keys (hops : list PathHopConfig) (frames : list Encrypted) (g : rng)
  : outcome (option (list PathHopConfig * list Encrypted) * rng) :=
  match hops, frames with
  | [], _ => Done (Some ([], frames), g)
  | _ :: _, [] => Fault
  | hop :: hops, frame :: frames =>
      let! (r, g) := GenerateNextKey hop (h_rc <$> head hops) frame g in
      match r with
      | None => Done (None, g)
      | Some (hop, frame) =>
          let! (r, g) := generate_keys hops frames g in
          Done ((fun '(hs, fs) => (hop :: hs, frame :: fs)) <$> r, g)
      end
  end.

Fixpoint randomize_frames (fs : list Encrypted) (g : rng) : list Encrypted * rng :=
  match fs with
  | [] => ([], g)
  | f :: fs => let '(f, g) := Encrypted_Randomize f g in let '(fs, g) := randomize_frames fs g in (f :: fs, g)
  end.
Definition AsyncGenerateKeys (hops : list PathHopConfig) (g : rng)
  : outcome (option (list PathHopConfig * list Encrypted) * rng) :=
  let '(frames, g) := randomize_frames (replicate max_len EncryptedFrame_default) g in generate_keys hops frames g.
End Build.

(** ** [LR_StatusRecord] and [LR_StatusMessage] *)

Definition SUCCESS : Z := Z.shiftl 1 0.
Definition FAIL_TIMEOUT : Z := Z.shiftl 1 1.
Definition FAIL_CONGESTION : Z := Z.shiftl 1 2.
Definition FAIL_DEST_UNKNOWN : Z := Z.shiftl 1 3.
Definition FAIL_DECRYPT_ERROR : Z := Z.shiftl 1 4.
Definition FAIL_MALFORMED_RECORD : Z := Z.shiftl 1 5.
Definition FAIL_DEST_INVALID : Z := Z.shiftl 1 6.
Definition FAIL_CANNOT_CONNECT : Z := Z.shiftl 1 7.
Definition FAIL_DUPLICATE_HOP : Z := Z.shiftl 1 8.
Definition has_bit (status bit : Z) : bool := negb (Z.land status bit =? 0).
Definition succeeded (status : Z) : bool := Z.land status SUCCESS =? SUCCESS.

Record LR_StatusRecord := mkStatusRecord { sr_status : Z; sr_version : Z }.
Definition LR_StatusRecord_BEncode (r : LR_StatusRecord) (b : llarp_buffer_t) : bool * llarp_buffer_t :=
  and_then (bencode_start_dict b) (fun b =>
  and_then (BEncodeWriteDictInt [115] (sr_status r) b) (fun b =>
  and_then (bencode_write_uint64_entry b [118] proto_version) bencode_end)).
Definition LR_StatusRecord_OnKey : dict_sink LR_StatusRecord := fun r b key =>
  match key with
  | None => Done (true, b, r)
  | Some key =>
      let! (ok, i, read, b) := BEncodeMaybeReadDictInt 64 [115] (sr_status r) false key b in
      if negb ok then Done (false, b, r) else let r := mkStatusRecord i (sr_version r) in
      let! (ok, i, read, b) := BEncodeMaybeVerifyVersion [118] (sr_version r) proto_version read key b in
      if negb ok then Done (false, b, r) else Done (read, b, mkStatusRecord (sr_status r) i)
  end.
Definition LR_StatusRecord_BDecode (b : llarp_buffer_t) : outcome (bool * llarp_buffer_t * LR_StatusRecord) :=
  bencode_read_dict (S (S (sz b))) LR_StatusRecord_OnKey (mkStatusRecord 0 0) b.

(** Copies of frames: construction and assignment. *)
Definition contents (f : Encrypted) : list Z := take (esz f) (ebuf f).
Definition copy_frame (f : Encrypted) : Encrypted := Encrypted_new EncryptedFrameSize (Some (contents f)) (esz f).
Definition assign_frame (dst src : Encrypted) : Encrypted := Encrypted_assign EncryptedFrameSize dst (contents src).

Record LR_StatusMessage := mkStatus { st_frames : list Encrypted; st_pathid : list Z; st_status : Z }.

Section Status.
Context `{Sodium}.

Definition SetDummyFrames (fs : list Encrypted) (g : rng) : list Encrypted * rng := randomize_frames fs g.

(** The frames move up by one, highest first; the new record goes to the front. *)
Definition AddFrame (pathKey : list Z) (newStatus : Z) (frames : list Encrypted) (g : rng)
  : outcome (bool * list Encrypted * rng) :=
  match frames with
  | [] => Fault
  | frame :: rest =>
      let rest := zip_with assign_frame rest frames in
      let '(frame, g) := Encrypted_Randomize frame g in
      let '(ok, frame) := frame_write (LR_StatusRecord_BEncode (mkStatusRecord newStatus proto_version)) frame in
      if negb ok then Done (false, frame :: rest, g)
      else
        let! (ok, frame, g) := DoEncrypt pathKey true frame g in
        Done (ok, frame :: rest, g)
  end.
End Status.

(** ** A relay *)

Inductive SendStatus := SendSuccess | SendTimeout | NoLink | InvalidRouter | RouterNotFound | Congestion.
#[global] Instance SendStatus_eq_dec : EqDecision SendStatus.
Proof. solve_decision. Defined.

(** [LRCMFrameDecrypt]: the frames, the handle of the new hop, and the address of
    a sender that is not a public router. *)
Record LRCMFrameDecrypt := mkDecrypt { d_frames : list Encrypted; d_hop : nat; d_fromAddr : option IpAddress }.

Inductive RelayEvent :=
  | QueueDecrypt (job : LRCMFrameDecrypt)
  | PathRequestReceived (hop : nat)
  | CallSendPathConfirm (job : LRCMFrameDecrypt)
  | CallSendLRCM (job : LRCMFrameDecrypt)
  | PersistUntil (router : list Z) (until : Z)
  | SendCommit (next : list Z) (frames : list Encrypted) (hop : nat)
  | QueueCreateAndSend (hop : nat) (pathid next pathKey : list Z) (status : Z)
  | CallSendMessage (next : list Z) (msg : LR_StatusMessage) (hop : nat)
  | SendStatusTo (next : list Z) (msg : LR_StatusMessage)
  | QueueHandleLRSM (hop : HopHandler) (status : Z) (frames : list Encrypted)
  | CallSetSelfDestruct (hop : nat)
  | PathAttempt (path : nat)
  | PathBuildStarted (path : nat)
  | SendOwnCommit (next : list Z) (frames : list Encrypted) (path : nat)
  | PumpRouter.

Section Relay.
Context `{Sodium} `{BItem HopRC}.

(** A router: its identity, encryption key, tables, generator and what it did. *)
Record Node := mkNode {
  n_pub : list Z;
  n_enc : list Z;
  n_ctx : PathContext;
  n_rng : rng;
  n_events : list RelayEvent }.
Definition set_n_pub (v : list Z) (x : Node) : Node :=
  mkNode v (n_enc x) (n_ctx x) (n_rng x) (n_events x).
Definition set_n_enc (v : list Z) (x : Node) : Node :=
  mkNode (n_pub x) v (n_ctx x) (n_rng x) (n_events x).
Definition set_n_ctx (v : PathContext) (x : Node) : Node :=
  mkNode (n_pub x) (n_enc x) v (n_rng x) (n_events x).
Definition set_n_rng (v : rng) (x : Node) : Node :=
  mkNode (n_pub x) (n_enc x) (n_ctx x) v (n_events x).
Definition set_n_events (v : list RelayEvent) (x : Node) : Node :=
  mkNode (n_pub x) (n_enc x) (n_ctx x) (n_rng x) v.
Definition act (ev : RelayEvent) (n : Node) : Node := set_n_events (n_events n ++ [ev]) n.
Definition on_ctx (f : PathContext -> PathContext) (n : Node) : Node := set_n_ctx (f (n_ctx n)) n.
Definition upd_hop (k : nat) (f : Transit.TransitHop -> Transit.TransitHop) (n : Node) : Node := on_ctx (on_hop k f) n.

Definition HopIsUs (k : list Z) (n : Node) : bool := bool_decide (k = n_pub n).

(** The constructor of [LRCMFrameDecrypt] makes the hop, which draws from a
    generator of its own. *)
Definition AsyncDecrypt (from : list Z) (addr : option IpAddress) (frames : list Encrypted) (g : rng) (n : Node) : bool * Node :=
  let hop := Transit.TransitHop_new g in
  let info := Transit.info hop in
  let hop := Transit.set_info (mkInfo (i_txID info) (i_rxID info) (i_upstream info) from) hop in
  let '(k, c) := alloc_hop hop (n_ctx n) in
  (true, act (QueueDecrypt (mkDecrypt (map copy_frame frames) k addr)) (set_n_ctx c n)).
Definition LRCM_HandleMessage (from : list Z) (addr : option IpAddress) (frames : list Encrypted) (g : rng) (n : Node) : bool * Node :=
  if negb (bool_decide (length frames = max_len)) then (false, n)
  else if negb (AllowingTransit (n_ctx n)) then (false, n)
  else AsyncDecrypt from addr frames g n.

Definition with_ids (tx rx : list Z) (h : Transit.TransitHop) : Transit.TransitHop :=
  Transit.set_info (mkInfo tx rx (i_upstream (Transit.info h)) (i_downstream (Transit.info h))) h.
Definition with_upstream (up : list Z) (h : Transit.TransitHop) : Transit.TransitHop :=
  Transit.set_info (mkInfo (i_txID (Transit.info h)) (i_rxID (Transit.info h)) up (i_downstream (Transit.info h))) h.

(** The frames for the next hop, with a random one at the end. *)
Definition shift_frames (frames : list Encrypted) (g : rng) : list Encrypted * rng :=
  let sz := esz (default EncryptedFrame_default (head frames)) in
  let '(junk, g) := Encrypted_Randomize
    (assign_frame EncryptedFrame_default
       (EncryptedFrame_new (if (sz <? EncryptedFrameOverheadSize)%nat then EncryptedFrameBodySize else sz - EncryptedFrameOverheadSize))) g in
  let shifted := map (assign_frame EncryptedFrame_default) (tail frames) ++ [junk] in
  (zip_with assign_frame frames shifted, g).

Definition hop_lifetime (now : Z) (r : LR_CommitRecord) (old : Z) : outcome Z :=
  let! extended :=
    match work r with
    | Some w => let! valid := PoW_IsValid now w in Done (if valid then Some (extendedLifetime w) else None)
    | None => Done None
    end in
  Done (match extended with
        | Some ext => old + ext
        | None => if (lifetime r <? default_lifetime) && (10000 <? lifetime r) then lifetime r else old
        end).

Definition HandleDecrypted (now : Z) (buf : option llarp_buffer_t) (job : LRCMFrameDecrypt) (n : Node) : outcome Node :=
  match buf with
  | None => Done n
  | Some buf =>
      let! (ok, _, r) := LR_CommitRecord_BDecode (set_cur buf EncryptedFrameOverheadSize) in
      if negb ok then Done n
      else
        let k := d_hop job in
        let n := upd_hop k (with_ids (txid r) (rxid r)) n in
        if IsZero (txid r) || IsZero (rxid r) then Done n
        else
          let n := upd_hop k (with_upstream (nextHop r)) n in
          match dh_server (commkey r) (n_enc n) (tunnelNonce r) with
          | None => Done n
          | Some key =>
              let n := upd_hop k (fun h => Transit.set_nonceXOR (short_hash key) (Transit.set_pathKey key h)) n in
              let! lt := hop_lifetime now r default_lifetime in
              let n := upd_hop k (fun h => Transit.set_started now (Transit.set_lifetime lt h)) n in
              let n := act (PathRequestReceived k) n in
              let '(frames, g) := shift_frames (d_frames job) (n_rng n) in
              let n := set_n_rng g n in
              let job := mkDecrypt frames k (d_fromAddr job) in
              Done (act PumpRouter (act (if HopIsUs (nextHop r) n then CallSendPathConfirm job else CallSendLRCM job) n))
          end
  end.

(** [AsyncFrameDecrypter::Decrypt] of the copy of the first frame. *)
Definition Decrypt (now : Z) (job : LRCMFrameDecrypt) (n : Node) : outcome Node :=
  match d_frames job with
  | [] => Fault
  | frame :: _ =>
      let! (ok, target) := DecryptInPlace (n_enc n) (assign_frame EncryptedFrame_default frame) in
      HandleDecrypted now (if ok then Some (Buf (contents target) EncryptedFrameOverheadSize) else None) job n
  end.

(** *** Status messages *)

Definition QueueSendMessage (next : list Z) (msg : LR_StatusMessage) (k : nat) (n : Node) : Node :=
  act (CallSendMessage next msg k) n.
Definition CreateAndSend (k : nat) (id next pathKey : list Z) (status : Z) (n : Node) : outcome (bool * Node) :=
  let '(frames, g) := SetDummyFrames (replicate max_len EncryptedFrame_default) (n_rng n) in
  let! (_, frames, g) := AddFrame pathKey status frames g in
  Done (true, QueueSendMessage next (mkStatus frames id status) k (set_n_rng g n)).
Definition QueueDestroySelf (k : nat) (n : Node) : Node := act (CallSetSelfDestruct k) n.
Definition resultCallback (msg : LR_StatusMessage) (k : nat) (status : SendStatus) (n : Node) : Node :=
  if negb (succeeded (st_status msg)) || negb (bool_decide (status = SendSuccess)) then QueueDestroySelf k n else n.
(** [takes]: whether the router takes the message. *)
Definition SendMessage (takes : bool) (next : list Z) (msg : LR_StatusMessage) (k : nat) (n : Node) : Node :=
  let n := act (SendStatusTo next msg) n in
  act PumpRouter (if takes then n else resultCallback msg k Congestion n).

Definition OnForwardLRCMResult (k : nat) (id next pathKey : list Z) (status : SendStatus) (n : Node) : Node :=
  match status with
  | SendSuccess => n
  | SendTimeout => act (QueueCreateAndSend k id next pathKey FAIL_TIMEOUT) n
  | NoLink => act (QueueCreateAndSend k id next pathKey FAIL_CANNOT_CONNECT) n
  | InvalidRouter => act (QueueCreateAndSend k id next pathKey FAIL_DEST_INVALID) n
  | RouterNotFound => act (QueueCreateAndSend k id next pathKey FAIL_DEST_UNKNOWN) n
  | Congestion => act (QueueCreateAndSend k id next pathKey FAIL_CONGESTION) n
  end.

(** [allowed]: [PathToRouterAllowed]; the limit on paths from one address applies
    to senders that are not public routers. *)
Definition SendLRCM (clock : Z) (allowed : list Z -> bool) (job : LRCMFrameDecrypt) (n : Node) : outcome Node :=
  let k := d_hop job in
  match hop_store (n_ctx n) !! k with
  | None => Fault
  | Some hop =>
      let info := Transit.info hop in
      let result st n := OnForwardLRCMResult k (i_rxID info) (i_downstream info) (Transit.pathKey hop) st n in
      if HasTransitHop info (n_ctx n) then
        let! (_, n) := CreateAndSend k (i_rxID info) (i_downstream info) (Transit.pathKey hop) FAIL_DUPLICATE_HOP n in Done n
      else
        let '(limit, c) :=
          match d_fromAddr job with
          | Some addr => CheckPathLimitHitByIP clock addr (n_ctx n)
          | None => (false, n_ctx n)
          end in
        let n := set_n_ctx c n in
        if limit then Done (result Congestion n)
        else if negb (allowed (i_upstream info)) then Done (result InvalidRouter n)
        else
          let n := act (PersistUntil (i_downstream info) (Transit.ExpireTime hop + 10000)) n in
          let n := act (PersistUntil (i_upstream info) (Transit.ExpireTime hop + 10000)) n in
          let n := on_ctx (PutTransitHop k) n in
          Done (act PumpRouter (act (SendCommit (i_upstream info) (map copy_frame (d_frames job)) k) n))
  end.

Definition SendPathConfirm (job : LRCMFrameDecrypt) (n : Node) : outcome Node :=
  let k := d_hop job in
  match hop_store (n_ctx n) !! k with
  | None => Fault
  | Some hop =>
      let info := Transit.info hop in
      let dup := HasTransitHop info (n_ctx n) in
      let n :=
        if dup then n
        else on_ctx (PutTransitHop k) (act (PersistUntil (i_downstream info) (Transit.ExpireTime hop + 10000)) n) in
      let! (_, n) := CreateAndSend k (i_rxID info) (i_downstream info) (Transit.pathKey hop)
                       (if dup then FAIL_DUPLICATE_HOP else SUCCESS) n in
      Done n
  end.

(** A status message from upstream. *)
Definition LRSM_HandleMessage (from : list Z) (msg : LR_StatusMessage) (n : Node) : bool * Node :=
  if negb (bool_decide (length (st_frames msg) = max_len)) then (false, n)
  else
    match GetByUpstream from (st_pathid msg) (n_ctx n) with
    | None => (false, n)
    | Some h => (true, act (QueueHandleLRSM h (st_status msg) (map copy_frame (st_frames msg))) n)
    end.
Definition TransitHop_HandleLRSM (k : nat) (status : Z) (frames : list Encrypted) (n : Node) : outcome Node :=
  match hop_store (n_ctx n) !! k with
  | None => Fault
  | Some hop =>
      let! (_, frames, g) := AddFrame (Transit.pathKey hop) SUCCESS (map copy_frame frames) (n_rng n) in
      Done (QueueSendMessage (i_downstream (Transit.info hop)) (mkStatus frames (i_rxID (Transit.info hop)) status) k (set_n_rng g n))
  end.
End Relay.

(** ** The client starts a build *)

Section Builder.
Context `{Sodium}.

(** Key generation sets the keys in the hops of the path. *)
Definition with_hops (l : list PathHopConfig) (p : Path) : Path :=
  match l with
  | [] => p
  | h0 :: rest => mkPath h0 rest (m_PathSet p) (_status p) (tm p) (ex p) (rt p) (hq p) (rnd p) (events p)
  end.

Definition sentHandler (now : Z) (k : nat) (status : SendStatus) (n : Node) : Node :=
  if bool_decide (status = SendSuccess) then n else on_ctx (on_path k (EnterState ePathFailed now)) n.
(** [stopped]: the path set was stopped; [takes]: the router takes the message. *)
Definition PathBuilderKeysGenerated (now : Z) (stopped takes : bool) (k : nat) (frames : list Encrypted) (n : Node) : outcome Node :=
  if stopped then Done n
  else
    match path_store (n_ctx n) !! k with
    | None => Fault
    | Some p =>
        let n := act (PathBuildStarted k) (on_ctx (AddOwnPath k) (act (PathAttempt k) n)) in
        let remote := Upstream p in
        let n := act (SendOwnCommit remote frames k) n in
        if takes then Done (act (PersistUntil remote (ExpireTime p)) n) else Done (sentHandler now k NoLink n)
    end.
End Builder.

(** [BuildLimiter] *)
Definition BuildLimiter : Type := DecayingHashSet.t (list Z).
Definition BuildLimiter_Attempt (clock : Z) (router : list Z) (l : BuildLimiter) : bool * BuildLimiter :=
  DecayingHashSet.Insert clock router 0 l.
Definition BuildLimiter_Decay (clock now : Z) (l : BuildLimiter) : BuildLimiter := DecayingHashSet.Decay clock now l.
Definition BuildLimiter_Limited (router : list Z) (l : BuildLimiter) : bool := DecayingHashSet.Contains router l.

(** ** The client reads the status *)

Section Client.
Context `{Sodium} `{Routing}.

(** The loop of [Path::HandleLRSM]: the last status seen and the router to blame. *)
Fixpoint read_status (index : nat) (hops : list PathHopConfig) (frames : list Encrypted) (currentStatus : Z)
  : outcome (Z * option (list Z)) :=
  match hops, frames with
  | [], _ => Done (currentStatus, None)
  | _ :: _, [] => Fault
  | hop :: hops, frame :: frames =>
      let! (ok, frame) := DoDecrypt (h_shared hop) frame in
      if negb ok then Done (FAIL_DECRYPT_ERROR, Some (rc_pubkey (h_rc hop)))
      else
        let! (ok, _, record) := LR_StatusRecord_BDecode (Buf (contents frame) EncryptedFrameOverheadSize) in
        if negb ok then Done (FAIL_MALFORMED_RECORD, Some (rc_pubkey (h_rc hop)))
        else if succeeded (sr_status record) then read_status (S index) hops frames (sr_status record)
        else if has_bit (sr_status record) FAIL_CONGESTION && bool_decide (index = 0%nat) then
          Done (sr_status record, Some (rc_pubkey (h_rc hop)))
        else Done (sr_status record, (fun h => rc_pubkey (h_rc h)) <$> head hops)
  end.

Definition Path_HandleLRSM (status : Z) (frames : list Encrypted) (p : Path) : outcome (bool * Path) :=
  let! (currentStatus, failedAt) := read_status 0 (hops p) frames status in
  if succeeded currentStatus then Done (true, emit CallPathConfirm p)
  else
    let p := match failedAt with Some r => emit (MarkHopFail r) p | None => emit MarkPathFail p end in
    let p :=
      if has_bit currentStatus FAIL_TIMEOUT || has_bit currentStatus FAIL_CONGESTION
         || has_bit currentStatus FAIL_DEST_UNKNOWN then p
      else if has_bit currentStatus FAIL_DEST_INVALID then
        match failedAt with Some r => emit (CallNodeDBRemove r) p | None => p end
      else p in
    Done (true, emit (CallBuildFailed (default (replicate 32 0) failedAt)) p).

(** The posted failure. *)
Definition build_failed (now : Z) (edge : list Z) (p : Path) : Path :=
  let p := EnterState ePathFailed now p in
  if m_PathSet p then emit (HandlePathBuildFailedAt edge) p else p.
End Client.
