(* ===== verification/PathBuildProofs.v ===== *)
(** * Correctness of path building

    The records a client writes are read back by the relays they are for; the
    relays end up with the secrets, ids and neighbours of the client's hops; the
    status messages tell the client whether the path stands or who failed. *)

From S2P Require Import Prelude Buffer Bencode Crypto Decaying Path PathProofs PathContext PathBuild.
Open Scope Z_scope.

(** ** The commit record *)

Section Record.
Context `{BItemSpec HopRC}.

(** The dictionary of a record that keeps the default lifetime. *)
Definition record_entries (r : LR_CommitRecord) : list (entry LR_CommitRecord) :=
  [ ([99], enc_str (commkey r), r_commkey (commkey r)); ([105], enc_str (nextHop r), r_nextHop (nextHop r));
    ([110], enc_str (tunnelNonce r), r_tunnelNonce (tunnelNonce r)); ([114], enc_str (rxid r), r_rxid (rxid r));
    ([116], enc_str (txid r), r_txid (txid r)) ]
  ++ match nextRC r with Some rc => [([117], item_enc rc, r_nextRC (Some rc))] | None => [] end
  ++ [([118], enc_int proto_version, r_version proto_version)].
Definition record_enc (r : LR_CommitRecord) : list Z := dict_enc (record_entries r).

Record record_ok (r : LR_CommitRecord) : Prop := mkRecordOk {
  rec_commkey : length (commkey r) = 32%nat;
  rec_nextHop : length (nextHop r) = 32%nat;
  rec_nonce : length (tunnelNonce r) = 32%nat;
  rec_txid : length (txid r) = PATHIDSIZE;
  rec_rxid : length (rxid r) = PATHIDSIZE;
  rec_rc : forall rc, nextRC r = Some rc -> item_ok rc;
  rec_work : work r = None;
  rec_lifetime : lifetime r = default_lifetime }.

Lemma record_writes r : record_ok r -> writes (LR_CommitRecord_BEncode r) (record_enc r).
Proof.
  intros []. unfold LR_CommitRecord_BEncode, when. rewrite rec_work0, rec_lifetime0. cbn [andb Z.ltb].
  replace (record_enc r) with ([ch_d] ++ (enc_str [99] ++ enc_str (commkey r)) ++ (enc_str [105] ++ enc_str (nextHop r)) ++ []
    ++ (enc_str [110] ++ enc_str (tunnelNonce r)) ++ (enc_str [114] ++ enc_str (rxid r)) ++ (enc_str [116] ++ enc_str (txid r))
    ++ (match nextRC r with Some rc => enc_str [117] ++ item_enc rc | None => [] end) ++ (enc_str [118] ++ enc_int proto_version)
    ++ [] ++ [ch_e]).
  - apply writes_then; [apply writes_byte|]. apply writes_then; [by apply writes_aligned|]. apply writes_then; [by apply writes_aligned|].
    apply writes_then; [apply writes_nil|]. apply writes_then; [by apply writes_aligned|]. apply writes_then; [by apply writes_aligned|].
    apply writes_then; [by apply writes_aligned|].
    apply (writes_then (fun b => match nextRC r with Some rc => BEncodeWriteDictEntry [117] rc b | None => (true, b) end)).
    { destruct (nextRC r) as [rc|]; [apply writes_entry; by apply rec_rc0|apply writes_nil]. }
    apply writes_then; [by apply (writes_int 118)|]. apply writes_then; [apply writes_nil|apply writes_byte].
  - unfold record_enc, dict_enc, record_entries, enc_entry. destruct (nextRC r) as [rc|]; cbn [flat_map app rkey rtext fst snd];
      rewrite <- ?app_assoc, ?app_nil_r; cbn [app]; by rewrite <- ?app_assoc.
Qed.

(** One entry read into the record. *)
Ltac onkey :=
  unfold reads, dict_sink_reads; split; [done|]; intros s b rest E; unfold LR_CommitRecord_OnKey, BEncodeMaybeReadDictEntry,
    BEncodeMaybeReadDictInt, BEncodeMaybeVerifyVersion; cbn [rkey rtext rstep fst snd] in *; rewrite !startswith_one; cbn [Z.eqb Pos.eqb obind negb].

Lemma reads_commkey fuel x : length x = 32%nat -> reads (LR_CommitRecord_OnKey fuel) ([99], enc_str x, r_commkey x).
Proof. intros Hx. onkey. rewrite (@item_decode _ _ (aligned_spec 32 eq_refl) x b rest Hx E). by destruct s. Qed.
Lemma reads_nextHop fuel x : length x = 32%nat -> reads (LR_CommitRecord_OnKey fuel) ([105], enc_str x, r_nextHop x).
Proof. intros Hx. onkey. rewrite (@item_decode _ _ (aligned_spec 32 eq_refl) x b rest Hx E). by destruct s. Qed.
Lemma reads_nonce fuel x : length x = 32%nat -> reads (LR_CommitRecord_OnKey fuel) ([110], enc_str x, r_tunnelNonce x).
Proof. intros Hx. onkey. rewrite (@item_decode _ _ (aligned_spec 32 eq_refl) x b rest Hx E). by destruct s. Qed.
Lemma reads_rxid fuel x : length x = PATHIDSIZE -> reads (LR_CommitRecord_OnKey fuel) ([114], enc_str x, r_rxid x).
Proof. intros Hx. onkey. rewrite (@item_decode _ _ (aligned_spec PATHIDSIZE eq_refl) x b rest Hx E). by destruct s. Qed.
Lemma reads_txid fuel x : length x = PATHIDSIZE -> reads (LR_CommitRecord_OnKey fuel) ([116], enc_str x, r_txid x).
Proof. intros Hx. onkey. rewrite (@item_decode _ _ (aligned_spec PATHIDSIZE eq_refl) x b rest Hx E). by destruct s. Qed.
Lemma reads_rc fuel rc : item_ok rc -> reads (LR_CommitRecord_OnKey fuel) ([117], item_enc rc, r_nextRC (Some rc)).
Proof. intros Hx. onkey. rewrite (item_decode rc b rest Hx E). by destruct s. Qed.
Lemma reads_version fuel : reads (LR_CommitRecord_OnKey fuel) ([118], enc_int proto_version, r_version proto_version).
Proof. onkey. rewrite (bencode_read_integer_spec _ _ _ E) by done. by destruct s. Qed.

Lemma record_reads fuel r : record_ok r -> Forall (reads (LR_CommitRecord_OnKey fuel)) (record_entries r).
Proof.
  intros []. unfold record_entries. apply Forall_app. split; [|apply Forall_app; split].
  - repeat apply Forall_cons_2; [by apply reads_commkey|by apply reads_nextHop|by apply reads_nonce|by apply reads_rxid|by apply reads_txid|
      apply Forall_nil_2].
  - destruct (nextRC r) as [rc|]; [|apply Forall_nil_2]. apply Forall_singleton. apply reads_rc. by apply rec_rc0.
  - apply Forall_singleton. apply reads_version.
Qed.

Lemma record_decode r b rest : record_ok r -> rem b = record_enc r ++ rest ->
  exists b' r', LR_CommitRecord_BDecode b = Done (true, b', r') /\ commkey r' = commkey r /\ nextHop r' = nextHop r
    /\ tunnelNonce r' = tunnelNonce r /\ txid r' = txid r /\ rxid r' = rxid r /\ nextRC r' = nextRC r
    /\ work r' = None /\ lifetime r' = 0.
Proof.
  intros Hr E. unfold LR_CommitRecord_BDecode. rewrite (read_entries _ _ _ _ _ (record_reads _ r Hr) E).
  cbn [LR_CommitRecord_OnKey]. eexists _, _. split; [reflexivity|]. unfold record_entries.
  destruct (nextRC r); cbn; by split_and!.
Qed.
End Record.

(** ** The status record *)

Definition status_entries (st : Z) : list (entry LR_StatusRecord) :=
  [([115], enc_int st, fun r => mkStatusRecord st (sr_version r));
   ([118], enc_int proto_version, fun r => mkStatusRecord (sr_status r) proto_version)].
Definition status_enc (st : Z) : list Z := dict_enc (status_entries st).

Lemma status_writes st v : in_width 64 st -> writes (LR_StatusRecord_BEncode (mkStatusRecord st v)) (status_enc st).
Proof.
  intros Hs. unfold LR_StatusRecord_BEncode.
  replace (status_enc st) with ([ch_d] ++ (enc_str [115] ++ enc_int st) ++ (enc_str [118] ++ enc_int proto_version) ++ [ch_e]).
  - apply writes_then; [apply writes_byte|]. apply writes_then; [by apply writes_int|].
    apply writes_then; [by apply (writes_int 118)|apply writes_byte].
  - unfold status_enc, dict_enc, status_entries, enc_entry. cbn [flat_map app rkey rtext fst snd].
    rewrite <- ?app_assoc, ?app_nil_r. cbn [app]. by rewrite <- ?app_assoc.
Qed.

Lemma status_decode st b rest : in_width 64 st -> rem b = status_enc st ++ rest ->
  exists b', LR_StatusRecord_BDecode b = Done (true, b', mkStatusRecord st proto_version).
Proof.
  intros Hs E. unfold LR_StatusRecord_BDecode. rewrite (read_entries LR_StatusRecord_OnKey (status_entries st) b rest).
  - cbn [LR_StatusRecord_OnKey]. by eexists.
  - unfold status_entries. apply Forall_cons_2; [|apply Forall_singleton].
    + split; [done|]. intros s b0 rest0 E0. unfold LR_StatusRecord_OnKey, BEncodeMaybeReadDictInt, BEncodeMaybeVerifyVersion.
      cbn [rkey rtext rstep fst snd] in *. rewrite !startswith_one. cbn [Z.eqb Pos.eqb obind negb].
      rewrite (bencode_read_integer_spec _ _ _ E0) by done. cbn [obind]. unfold wrap. by rewrite Z.mod_small.
    + split; [done|]. intros s b0 rest0 E0. unfold LR_StatusRecord_OnKey, BEncodeMaybeReadDictInt, BEncodeMaybeVerifyVersion.
      cbn [rkey rtext rstep fst snd] in *. rewrite !startswith_one. cbn [Z.eqb Pos.eqb obind negb].
      by rewrite (bencode_read_integer_spec _ _ _ E0) by done.
  - exact E.
Qed.

(** ** Frames *)

Ltac sizes :=
  unfold EncryptedFrameSize, EncryptedFrameOverheadSize, EncryptedFrameBodySize, PUBKEYSIZE, TUNNONCESIZE, SHORTHASHSIZE in *; lia.

(** A frame that uses all of its array. *)
Definition full (f : Encrypted) : Prop := esz f = EncryptedFrameSize /\ length (ebuf f) = EncryptedFrameSize.
(** Its body starts with a text. *)
Definition holds (txt : list Z) (f : Encrypted) : Prop := full f /\ exists rest, drop EncryptedFrameOverheadSize (ebuf f) = txt ++ rest.

Lemma contents_full f : full f -> contents f = ebuf f.
Proof. intros [Hs Hl]. unfold contents. by rewrite take_ge by lia. Qed.

Lemma assign_full dst src : length (ebuf dst) = EncryptedFrameSize -> full src -> assign_frame dst src = src.
Proof.
  intros Hd Hf. unfold assign_frame, Encrypted_assign. rewrite contents_full by done. destruct Hf as [Hs Hl].
  rewrite bool_decide_true by lia. unfold store. cbn [take]. rewrite drop_ge by lia. rewrite app_nil_l, app_nil_r, Hl, <- Hs. by destruct src.
Qed.

Lemma copy_full f : full f -> copy_frame f = f.
Proof.
  intros Hf. unfold copy_frame, Encrypted_new. rewrite contents_full by done. destruct Hf as [Hs Hl]. rewrite bool_decide_true by lia.
  rewrite take_ge by lia. unfold store. cbn [take]. rewrite drop_ge by (rewrite length_replicate; lia).
  rewrite app_nil_l, app_nil_r. by destruct f.
Qed.

Lemma map_copy_full fs : Forall full fs -> map copy_frame fs = fs.
Proof. induction 1 as [|f fs Hf _ IH]; [done|]. cbn [map]. by rewrite copy_full, IH. Qed.

Lemma default_full : full EncryptedFrame_default.
Proof. split; [done|]. apply length_replicate. Qed.

Lemma frame_write_spec w txt f : full f -> writes w txt -> (length txt < EncryptedFrameBodySize)%nat ->
  exists f', frame_write w f = (true, f') /\ holds txt f'.
Proof.
  intros Hf Hw Hl. pose proof Hf as [Hs Hn]. unfold frame_write. fold (contents f). rewrite contents_full, drop_ge by (done || lia).
  destruct (Hw (Buf (ebuf f) EncryptedFrameOverheadSize)) as (b'&->&Ha).
  - unfold wf, sz. cbn [cur base]. sizes.
  - unfold size_left, sz. cbn [cur base]. rewrite bool_decide_false by sizes. sizes.
  - eexists. split; [reflexivity|]. assert (wf (Buf (ebuf f) EncryptedFrameOverheadSize)) as Hwf
      by (unfold wf, sz; cbn [cur base]; sizes).
    pose proof (appends_rem _ _ _ Hwf Ha) as Hr. destruct Ha as (Hz&_). unfold sz in Hz. cbn [base] in Hz.
    split; [split; cbn [esz ebuf]; [done|rewrite app_nil_r; lia]|]. exists (rem b'). cbn [ebuf]. rewrite app_nil_r. exact Hr.
Qed.

Section Frames.
Context `{SodiumSpec}.

Lemma randomize_full f g : full f -> full (Encrypted_Randomize f g).1.
Proof.
  intros [Hs Hl]. unfold Encrypted_Randomize. rewrite bool_decide_false by sizes.
  pose proof (randombytes_length (esz f) g) as Hr. destruct (randombytes (esz f) g) as [r g']. cbn [fst] in *.
  split; cbn [esz ebuf]; [done|]. rewrite length_store; lia.
Qed.

Lemma randomize_frames_full fs : Forall full fs -> forall g, Forall full (randomize_frames fs g).1
  /\ length (randomize_frames fs g).1 = length fs.
Proof.
  induction 1 as [|f fs Hf _ IH]; intros g; cbn [randomize_frames]; [done|].
  pose proof (randomize_full f g Hf) as Hr. destruct (Encrypted_Randomize f g) as [f' g']. cbn [fst] in Hr.
  destruct (IH g') as [IH1 IH2]. destruct (randomize_frames fs g') as [fs' g'']. cbn [fst length] in *. split; [by constructor|lia].
Qed.

(** A frame only the holder of a key can open, and what it finds. *)
Definition opens_to (open : Encrypted -> outcome (bool * Encrypted)) (txt : list Z) (f : Encrypted) : Prop :=
  full f /\ exists f', open f = Done (true, f') /\ holds txt f'.

Lemma encrypt_opens sk sk' txt f g : SodiumHonest -> encryption_key sk -> encryption_key sk' -> holds txt f ->
  exists f' g', EncryptInPlace sk (toPublic sk') f g = Done (true, f', g') /\ opens_to (DecryptInPlace sk') txt f'.
Proof.
  intros Hh Hk Hk' [[Hs Hl] (rest&Er)].
  destruct (frame_roundtrip sk sk' f g Hk Hk') as (f'&g'&E&Es&El&_&f''&E'&Es'&El'&Eb).
  - destruct (toPublic_key sk' Hk') as [-> _]. apply scalarmult_honest; rewrite length_take; destruct Hk, Hk'; lia.
  - sizes.
  - exists f', g'. split; [done|]. split; [split; congruence|]. exists f''. split; [done|]. split; [split; congruence|].
    exists rest. rewrite <- Er. exact Eb.
Qed.

Lemma encrypt_shared_opens key txt f g : length key = 32%nat -> holds txt f ->
  exists f' g', DoEncrypt key true f g = Done (true, f', g') /\ opens_to (DoDecrypt key) txt f'.
Proof.
  intros Hk [[Hs Hl] (rest&Er)].
  destruct (shared_roundtrip key f g Hk) as (f'&g'&E&Es&El&f''&E'&Es'&El'&Eb).
  - sizes.
  - exists f', g'. split; [done|]. split; [split; congruence|]. exists f''. split; [done|]. split; [split; congruence|].
    exists rest. rewrite <- Er. exact Eb.
Qed.
End Frames.

(** ** The client's records *)

Section Keys.
Context `{SodiumSpec} `{!SodiumHonest} `{BItemSpec HopRC}.

(** The room a record leaves for the contact of the next router. *)
Definition max_rc : nat := 599.
Definition rc_fits (rc : HopRC) : Prop := item_ok rc /\ (length (item_enc rc) < max_rc)%nat /\ length (rc_pubkey rc) = 32%nat.

(** A hop before its keys are made. *)
Record hop_plain (c : PathHopConfig) : Prop := mkPlain {
  pl_tx : length (h_txID c) = PATHIDSIZE;
  pl_rx : length (h_rxID c) = PATHIDSIZE;
  pl_rc : rc_fits (h_rc c) }.

(** What key generation keeps and sets. *)
Record keyed (next : option HopRC) (c c' : PathHopConfig) : Prop := mkKeyed {
  ky_tx : h_txID c' = h_txID c;
  ky_rx : h_rxID c' = h_rxID c;
  ky_rc : h_rc c' = h_rc c;
  ky_up : h_upstream c' = rc_pubkey (default (h_rc c) next);
  ky_shared : length (h_shared c') = 32%nat;
  ky_xor : h_nonceXOR c' = short_hash (h_shared c') }.

(** The record of a hop, for the holder of a secret key, who derives the hop's secret. *)
Record sealed (sk : list Z) (next : option HopRC) (c : PathHopConfig) (f : Encrypted) : Prop := mkSealed {
  sl_frame : opens_to (DecryptInPlace sk) (record_enc (commit_record c next)) f;
  sl_record : record_ok (commit_record c next);
  sl_dh : dh_server (toPublic (h_commkey c)) sk (h_nonce c) = Some (h_shared c) }.

Lemma length_enc_str x n : length x = n -> length (enc_str x) = (length (dec (Z.of_nat n)) + 1 + n)%nat.
Proof. intros <-. unfold enc_str. rewrite length_app. cbn [length]. lia. Qed.

Lemma record_fits r : record_ok r -> (forall rc, nextRC r = Some rc -> length (item_enc rc) < max_rc)%nat ->
  (length (record_enc r) < EncryptedFrameBodySize)%nat.
Proof.
  intros [] Hn. unfold record_enc, dict_enc, record_entries, enc_entry, max_rc in *.
  pose proof (length_enc_str _ _ rec_commkey0). pose proof (length_enc_str _ _ rec_nextHop0). pose proof (length_enc_str _ _ rec_nonce0).
  pose proof (length_enc_str _ _ rec_txid0). pose proof (length_enc_str _ _ rec_rxid0).
  change (length (dec (Z.of_nat 32))) with 2%nat in *. change (length (dec (Z.of_nat PATHIDSIZE))) with 2%nat in *.
  assert (forall k, length (enc_str [k]) = 3%nat) as Hk by (intros k; exact (length_enc_str [k] 1 eq_refl)).
  assert (length (enc_int proto_version) = 3%nat) as Hv by reflexivity.
  destruct (nextRC r) as [rc|]; [specialize (Hn rc eq_refl)|]; cbn [flat_map app rkey rtext fst snd length];
    repeat (rewrite length_app || rewrite Hk || rewrite Hv); cbn [length]; unfold PATHIDSIZE, EncryptedFrameBodySize in *; lia.
Qed.

Lemma GenerateNextKey_spec sk next c frame g : encryption_key sk -> rc_enckey (h_rc c) = toPublic sk -> hop_plain c ->
  (forall rc, next = Some rc -> rc_fits rc) -> full frame ->
  exists c' f' g', GenerateNextKey c next frame g = Done (Some (c', f'), g') /\ keyed next c c' /\ sealed sk next c' f'.
Proof.
  intros Hsk Hen [Htx Hrx Hrc] Hnx Hf. unfold GenerateNextKey.
  pose proof (encryption_keygen_key g) as Hck. destruct (encryption_keygen g) as [ck g1]. cbn [fst] in Hck.
  pose proof (randombytes_length TUNNONCESIZE g1) as Hno. destruct (randombytes TUNNONCESIZE g1) as [nonce g2]. cbn [fst] in Hno.
  destruct (dh_client_total (rc_enckey (h_rc c)) ck nonce) as (shared&Ed&Hsh).
  { rewrite Hen. destruct (toPublic_key sk Hsk) as [-> _]. apply scalarmult_honest; rewrite length_take; destruct Hck, Hsk; lia. }
  rewrite Ed. set (c' := mkHop _ _ _ _ _ _ _ _ _).
  assert (record_ok (commit_record c' next)) as Hok.
  { split; cbn; try done.
    - by apply toPublic_key.
    - destruct next as [rc|]; [by destruct (Hnx rc eq_refl) as (_&_&?)|by destruct Hrc as (_&_&?)].
    - intros rc E. by destruct (Hnx rc E). }
  destruct (frame_write_spec (LR_CommitRecord_BEncode (commit_record c' next)) (record_enc (commit_record c' next)) frame Hf) as (f1&->&Hh).
  { by apply record_writes. }
  { apply record_fits; [done|]. intros rc E. by destruct (Hnx rc E) as (_&?&_). }
  cbn [negb]. pose proof (encryption_keygen_key g2) as Hfk. destruct (encryption_keygen g2) as [fk g3]. cbn [fst] in Hfk.
  change (rc_enckey (h_rc c')) with (rc_enckey (h_rc c)). rewrite Hen. destruct (encrypt_opens fk sk _ f1 g3 _ Hfk Hsk Hh) as (f2&g4&->&Ho). cbn [obind].
  exists c', f2, g4. split; [done|]. split; [split; try done; by destruct next|]. split; [done|done|].
  cbn [c' h_commkey h_nonce h_shared]. by rewrite <- (dh_agree ck sk nonce Hck Hsk), <- Hen.
Qed.
End Keys.

Section AllKeys.
Context `{SodiumSpec} `{!SodiumHonest} `{BItemSpec HopRC}.

(** The router of a hop: the client knows its keys. *)
Definition keys_known (sk : list Z) (c : PathHopConfig) : Prop :=
  encryption_key sk /\ rc_enckey (h_rc c) = toPublic sk /\ hop_plain c.

Inductive sealed_all : list (list Z) -> list PathHopConfig -> list PathHopConfig -> list Encrypted -> Prop :=
  | sealed_nil fs : Forall full fs -> sealed_all [] [] [] fs
  | sealed_cons sk c c' f sks cs cs' fs : keyed (h_rc <$> head cs) c c' -> sealed sk (h_rc <$> head cs) c' f ->
      sealed_all sks cs cs' fs -> sealed_all (sk :: sks) (c :: cs) (c' :: cs') (f :: fs).

Lemma sealed_full sks cs cs' fs : sealed_all sks cs cs' fs -> Forall full fs.
Proof. induction 1 as [|sk c c' f sks cs cs' fs Hk [Ho _ _] _ IH]; [done|]. constructor; [apply Ho|done]. Qed.

Lemma sealed_keyed sks cs cs' fs : sealed_all sks cs cs' fs -> h_rc <$> head cs' = h_rc <$> head cs.
Proof. intros Hs. destruct Hs as [|sk c c' f sks cs cs' fs [] _ _]; [done|]. cbn. by f_equal. Qed.

Lemma generate_keys_spec sks cs : Forall2 keys_known sks cs -> forall fs g, Forall full fs -> (length cs <= length fs)%nat ->
  exists cs' fs' g', generate_keys cs fs g = Done (Some (cs', fs'), g') /\ sealed_all sks cs cs' fs' /\ length fs' = length fs.
Proof.
  induction 1 as [|sk c sks cs (Hk&He&Hp) Hf2 IH]; intros fs g Hfs Hl; cbn [generate_keys].
  { exists [], fs, g. split; [done|]. by split; [constructor|]. }
  destruct Hfs as [|f fs Hf Hfs]; [cbn in Hl; lia|].
  destruct (GenerateNextKey_spec sk (h_rc <$> head cs) c f g Hk He Hp) as (c'&f'&g1&->&Hky&Hse); [|done|].
  { intros rc E. destruct Hf2 as [|sk2 c2 ? ? (_&_&[_ _ Hr])]; [done|]. injection E as <-. exact Hr. }
  cbn [obind]. destruct (IH fs g1 Hfs) as (cs'&fs'&g2&->&Hs&Hl'); [cbn in Hl; lia|]. cbn [obind fmap option_fmap option_map].
  exists (c' :: cs'), (f' :: fs'), g2. split; [done|]. split; [by constructor|cbn; lia].
Qed.

Lemma AsyncGenerateKeys_spec sks cs g : Forall2 keys_known sks cs -> (length cs <= max_len)%nat ->
  exists cs' fs g', AsyncGenerateKeys cs g = Done (Some (cs', fs), g') /\ sealed_all sks cs cs' fs /\ length fs = max_len.
Proof.
  intros Hk Hl. unfold AsyncGenerateKeys.
  destruct (randomize_frames_full (replicate max_len EncryptedFrame_default) (Forall_replicate _ _ _ default_full) g) as [Hf Hn].
  destruct (randomize_frames _ g) as [fs g1]. cbn [fst] in *. rewrite length_replicate in Hn.
  destruct (generate_keys_spec sks cs Hk fs g1 Hf ltac:(lia)) as (cs'&fs'&g2&E&Hs&Hl'). exists cs', fs', g2. split_and!; [done|done|lia].
Qed.
End AllKeys.

(** ** One relay *)

Section OneRelay.
Context `{SodiumSpec} `{!SodiumHonest} `{BItemSpec HopRC}.

Definition hop_init (from : list Z) (g : rng) : Transit.TransitHop :=
  Transit.set_info (mkInfo (replicate PATHIDSIZE 0) (replicate PATHIDSIZE 0) (replicate 32 0) from) (Transit.TransitHop_new g).
(** The transit hop a relay keeps for a hop of a client's path. *)
Definition transit_of (c : PathHopConfig) (from : list Z) (now : Z) (g : rng) : Transit.TransitHop :=
  Transit.mkTransit (mkInfo (h_txID c) (h_rxID c) (h_upstream c) from) (h_shared c) (h_nonceXOR c) now default_lifetime 0 false
    HopQueues_new [] [] true g [].

Lemma alter_last {A} (f : A -> A) l x : alter f (length l) (l ++ [x]) = l ++ [f x].
Proof. induction l as [|y l IH]; [done|]. cbn. f_equal. exact IH. Qed.

Lemma upd_hop_last f pub enc hs h ps tp op al lim rm r evs :
  upd_hop (length hs) f (mkNode pub enc (mkContext (hs ++ [h]) ps tp op al lim rm) r evs)
  = mkNode pub enc (mkContext (hs ++ [f h]) ps tp op al lim rm) r evs.
Proof.
  unfold upd_hop, on_ctx, on_hop, set_n_ctx, cx_hop_store.
  cbn [n_pub n_enc n_ctx n_rng n_events hop_store path_store m_TransitPaths m_OurPaths m_AllowTransit m_PathLimits removed].
  by rewrite alter_last.
Qed.

Lemma shift_frames_spec f fs g : Forall full (f :: fs) -> exists junk g', shift_frames (f :: fs) g = (fs ++ [junk], g') /\ full junk.
Proof.
  intros Hf. pose proof Hf as Hf'. apply Forall_cons in Hf' as [[Hs Hl] Hfs]. unfold shift_frames. cbn [head default id tail].
  replace (esz f <? EncryptedFrameOverheadSize)%nat with false by (symmetry; apply Nat.ltb_ge; sizes).
  replace (esz f - EncryptedFrameOverheadSize)%nat with EncryptedFrameBodySize by sizes.
  change (EncryptedFrame_new EncryptedFrameBodySize) with EncryptedFrame_default.
  rewrite (assign_full EncryptedFrame_default EncryptedFrame_default) by apply default_full.
  pose proof (randomize_full EncryptedFrame_default g default_full) as Hj. destruct (Encrypted_Randomize EncryptedFrame_default g) as [junk g'].
  cbn [fst] in Hj. exists junk, g'. split; [|done]. f_equal.
  assert (map (assign_frame EncryptedFrame_default) fs = fs) as ->.
  { clear Hf. induction Hfs as [|x fs Hx _ IH]; [done|]. cbn [map]. rewrite IH, assign_full; [done|apply default_full|done]. }
  assert (Forall full (fs ++ [junk])) as Hn by (apply Forall_app; split; [done|by apply Forall_singleton]).
  assert (length (fs ++ [junk]) = length (f :: fs)) as El by (rewrite length_app; cbn; lia).
  revert Hn El Hf. generalize (fs ++ [junk]), (f :: fs). clear. intros l l' Hn El Hf. revert l' El Hf.
  induction Hn as [|x l Hx _ IH]; intros [|y l'] El Hf; try done. cbn [zip_with]. apply Forall_cons in Hf as [[_ Hy] Hf].
  rewrite assign_full, IH; [done|cbn in El; lia|done|done|done].
Qed.

Lemma Decrypt_opens now pub enc hs ps tp op al lim rm r evs next c f fs addr from g :
  sealed enc next c f -> h_nonceXOR c = short_hash (h_shared c) -> Forall full (f :: fs) ->
  IsZero (h_txID c) = false -> IsZero (h_rxID c) = false ->
  exists junk r', full junk /\ Decrypt now (mkDecrypt (f :: fs) (length hs) addr)
      (mkNode pub enc (mkContext (hs ++ [hop_init from g]) ps tp op al lim rm) r evs)
    = Done (mkNode pub enc (mkContext (hs ++ [transit_of c from now g]) ps tp op al lim rm) r'
        (evs ++ [PathRequestReceived (length hs);
                 (if bool_decide (h_upstream c = pub) then CallSendPathConfirm else CallSendLRCM) (mkDecrypt (fs ++ [junk]) (length hs) addr);
                 PumpRouter])).
Proof.
  intros [[Hf (f'&Eo&[Hf' (rest&Er)])] Hok Hdh] Hxor Hfs Htx Hrx. unfold Decrypt. cbn [d_frames n_enc].
  rewrite assign_full by (done || apply default_full). rewrite Eo. cbn [obind]. unfold HandleDecrypted. rewrite contents_full by done.
  destruct (record_decode (commit_record c next) (set_cur (Buf (ebuf f') EncryptedFrameOverheadSize) EncryptedFrameOverheadSize) rest Hok Er)
    as (b'&rr&->&E1&E2&E3&E4&E5&_&E7&E8). cbn [obind negb d_hop]. rewrite E1, E2, E3, E4, E5.
  cbn [txid rxid nextHop commkey tunnelNonce commit_record]. rewrite Htx, Hrx. cbn [orb].
  rewrite !upd_hop_last. cbn [n_enc]. rewrite Hdh. unfold hop_lifetime. rewrite E7, E8. cbn [obind].
  replace ((0 <? default_lifetime) && (10000 <? 0)) with false by done. rewrite !upd_hop_last. unfold act, set_n_events. cbn [n_rng d_frames].
  destruct (shift_frames_spec f fs r Hfs) as (junk&r'&->&Hj). exists junk, r'. split; [done|]. f_equal.
  unfold HopIsUs, set_n_rng, set_n_events. cbn [n_pub n_enc n_ctx n_events n_rng d_fromAddr]. f_equal.
  - f_equal. f_equal. f_equal. unfold transit_of. rewrite Hxor. reflexivity.
  - rewrite <- !app_assoc. cbn [app]. by destruct (bool_decide _).
Qed.
End OneRelay.

(** ** Status frames *)

Section StatusFrames.
Context `{SodiumSpec}.

Lemma status_fits st : in_width 64 st -> (length (status_enc st) < EncryptedFrameBodySize)%nat.
Proof.
  intros Hs. unfold status_enc, dict_enc, status_entries, enc_entry, enc_int. cbn [flat_map app rkey rtext fst snd length].
  repeat (rewrite length_app; cbn [length]). change (length (enc_str [115])) with 3%nat. change (length (enc_str [118])) with 3%nat.
  change (length (dec proto_version)) with 1%nat. pose proof (length_dec st 19) as Hd. unfold in_width in Hs. sizes.
Qed.

Lemma shift_up_full f fs : Forall full (f :: fs) -> zip_with assign_frame fs (f :: fs) = take (length fs) (f :: fs).
Proof.
  revert f. induction fs as [|f' fs IH]; intros f Hf; [done|]. apply Forall_cons in Hf as [Hf Hfs].
  pose proof Hfs as Hfs'. apply Forall_cons in Hfs' as [[_ Hf'] _]. cbn [zip_with length take]. by rewrite assign_full, IH.
Qed.

Lemma AddFrame_spec key st frames g : length key = 32%nat -> in_width 64 st -> Forall full frames -> length frames = max_len ->
  exists f g', AddFrame key st frames g = Done (true, f :: take 7 frames, g') /\ opens_to (DoDecrypt key) (status_enc st) f.
Proof.
  intros Hk Hs Hf Hl. destruct frames as [|f0 rest]; [done|]. unfold AddFrame. rewrite shift_up_full by done.
  apply Forall_cons in Hf as [Hf _]. pose proof (randomize_full f0 g Hf) as Hr. destruct (Encrypted_Randomize f0 g) as [f1 g1]. cbn [fst] in Hr.
  destruct (frame_write_spec _ _ f1 Hr (status_writes st proto_version Hs) (status_fits st Hs)) as (f2&->&Hh). cbn [negb].
  destruct (encrypt_shared_opens key _ f2 g1 Hk Hh) as (f3&g3&->&Ho). cbn [obind]. exists f3, g3. split; [|done].
  assert (length rest = 7)%nat as -> by (injection Hl as ->; done). done.
Qed.

(** The frames of a status message: one per hop that answered. *)
Inductive reports : list PathHopConfig -> list Z -> list Encrypted -> Prop :=
  | reports_nil cs fs : reports cs [] fs
  | reports_cons c cs st sts f fs : opens_to (DoDecrypt (h_shared c)) (status_enc st) f -> in_width 64 st ->
      reports cs sts fs -> reports (c :: cs) (st :: sts) (f :: fs).

Lemma reports_take n cs sts fs : reports cs sts fs -> (length sts <= n)%nat -> reports cs sts (take n fs).
Proof.
  intros Hr. revert n. induction Hr as [|c cs st sts f fs Ho Hs Hr IH]; intros n Hn; [constructor|].
  destruct n as [|n]; [cbn in Hn; lia|]. cbn [take]. constructor; [done|done|]. apply IH. cbn in Hn. lia.
Qed.

(** What the client makes of them. *)
Lemma read_status_success cs sts fs : reports cs sts fs -> length sts = length cs -> Forall (fun st => st = SUCCESS) sts -> forall index,
  read_status index cs fs SUCCESS = Done (SUCCESS, None).
Proof.
  induction 1 as [cs fs|c cs st sts f fs (Hf&f'&E&[Hf' (rest&Er)]) Hs _ IH]; intros Hl Hok index.
  { destruct cs; [done|discriminate Hl]. }
  apply Forall_cons in Hok as [-> Hok]. cbn [read_status]. rewrite E. cbn [obind negb]. rewrite contents_full by done.
  destruct (status_decode SUCCESS (Buf (ebuf f') EncryptedFrameOverheadSize) rest Hs Er) as (b'&->). cbn [obind negb sr_status].
  replace (succeeded SUCCESS) with true by done. apply IH; [by injection Hl|done].
Qed.

Lemma read_status_failure cs cs2 st sts fs : reports (cs ++ cs2) (sts ++ [st]) fs -> length sts = length cs ->
  Forall (fun st => st = SUCCESS) sts -> succeeded st = false -> has_bit st FAIL_CONGESTION = false -> forall index s0,
  read_status index (cs ++ cs2) fs s0 = Done (st, (fun h => rc_pubkey (h_rc h)) <$> cs2 !! 1%nat).
Proof.
  revert sts fs. induction cs as [|c cs IH]; intros sts fs Hr Hl Hok Hst Hcg index s0.
  - destruct sts; [|discriminate Hl]. cbn [app] in *. inversion Hr as [|c cs' ? ? f fs' (Hf&f'&E&[Hf' (rest&Er)]) Hs]; subst.
    cbn [read_status]. rewrite E. cbn [obind negb]. rewrite contents_full by done.
    destruct (status_decode st (Buf (ebuf f') EncryptedFrameOverheadSize) rest Hs Er) as (b'&->). cbn [obind negb sr_status].
    rewrite Hst, Hcg. cbn [andb]. by destruct cs'.
  - destruct sts as [|s1 sts]; [discriminate Hl|]. cbn [app] in *. apply Forall_cons in Hok as [-> Hok].
    inversion Hr as [|? ? ? ? f fs' (Hf&f'&E&[Hf' (rest&Er)]) Hs Hr']; subst.
    cbn [read_status]. rewrite E. cbn [obind negb]. rewrite contents_full by done.
    destruct (status_decode SUCCESS (Buf (ebuf f') EncryptedFrameOverheadSize) rest Hs Er) as (b'&->). cbn [obind negb sr_status].
    replace (succeeded SUCCESS) with true by done. apply (IH sts fs' Hr'); try done. by injection Hl.
Qed.
End StatusFrames.

(** ** A network of routers

    The jobs a router queues are run in order; the rest of what it does is its
    output.  A commit travels from router to router until one answers; the answer
    travels back. *)

Record World `{Sodium} := mkWorld {
  w_now : Z;
  w_clock : Z;
  w_allowed : list Z -> list Z -> bool;
  w_takes : list Z -> list Z -> bool;
  w_rng : list Z -> rng }.

Section Network.
Context `{Sodium} `{BItem HopRC}.

Definition perform (w : World) (ev : RelayEvent) (n : Node) : outcome (Node * list RelayEvent) :=
  match ev with
  | QueueDecrypt job => let! n := Decrypt (w_now w) job n in Done (n, [])
  | CallSendPathConfirm job => let! n := SendPathConfirm job n in Done (n, [])
  | CallSendLRCM job => let! n := SendLRCM (w_clock w) (w_allowed w (n_pub n)) job n in Done (n, [])
  | QueueCreateAndSend k id next key st => let! (_, n) := CreateAndSend k id next key st n in Done (n, [])
  | CallSendMessage next msg k => Done (SendMessage (w_takes w (n_pub n) next) next msg k n, [])
  | QueueHandleLRSM (TransitPath k) st fs => let! n := TransitHop_HandleLRSM k st fs n in Done (n, [])
  | QueueHandleLRSM (OwnPath k) st fs =>
      match path_store (n_ctx n) !! k with
      | Some p => let! (_, p) := Path_HandleLRSM st fs p in Done (on_ctx (on_path k (fun _ => p)) n, [])
      | None => Fault
      end
  | CallSetSelfDestruct k => Done (upd_hop k Transit.SetSelfDestruct n, [])
  | PathRequestReceived _ | PersistUntil _ _ | SendCommit _ _ _ | SendStatusTo _ _ | PathAttempt _ | PathBuildStarted _
  | SendOwnCommit _ _ _ | PumpRouter => Done (n, [ev])
  end.

Fixpoint settle (fuel : nat) (w : World) (n : Node) : outcome (Node * list RelayEvent) :=
  match n_events n with
  | [] => Done (n, [])
  | ev :: evs =>
      match fuel with
      | O => Timeout
      | S fuel =>
          let! (n, out) := perform w ev (set_n_events evs n) in
          let! (n, outs) := settle fuel w n in
          Done (n, out ++ outs)
      end
  end.

Definition receive_commit (w : World) (from : list Z) (addr : option IpAddress) (frames : list Encrypted) (n : Node)
  : outcome (Node * list RelayEvent) :=
  let '(_, n) := LRCM_HandleMessage from addr frames (w_rng w (n_pub n)) n in settle 16 w n.
Definition receive_status (w : World) (from : list Z) (msg : LR_StatusMessage) (n : Node) : outcome (Node * list RelayEvent) :=
  let '(_, n) := LRSM_HandleMessage from msg n in settle 16 w n.

Definition commits (l : list RelayEvent) : list (list Z * list Encrypted) :=
  omap (fun ev => match ev with SendCommit next fs _ => Some (next, fs) | _ => None end) l.
Definition statuses (l : list RelayEvent) : list (list Z * LR_StatusMessage) :=
  omap (fun ev => match ev with SendStatusTo next msg => Some (next, msg) | _ => None end) l.

(** The routers afterwards, and the answer with the neighbour it is for. *)
Fixpoint build (w : World) (ns : list Node) (from : list Z) (addr : option IpAddress) (frames : list Encrypted)
  : outcome (list Node * (list Z * LR_StatusMessage)) :=
  match ns with
  | [] => Fault
  | n :: rest =>
      let! (n, outs) := receive_commit w from addr frames n in
      match commits outs, statuses outs, rest with
      | [], [st], _ => Done (n :: rest, st)
      | [(next, fs)], [], n' :: _ =>
          if bool_decide (next = n_pub n') then
            let! (rest, (to, msg)) := build w rest (n_pub n) None fs in
            if bool_decide (to = n_pub n) then
              let! (n, outs) := receive_status w (n_pub n') msg n in
              match statuses outs with [st] => Done (n :: rest, st) | _ => Fault end
            else Fault
          else Fault
      | _, _, _ => Fault
      end
  end.
End Network.

(** ** What each relay does *)

Section RelaySteps.
Context `{SodiumSpec} `{!SodiumHonest} `{BItemSpec HopRC}.

Lemma equal_range_fresh m id : Forall (fun e => e.1 <> id) m -> equal_range m id = [].
Proof.
  unfold equal_range. induction 1 as [|[i k] m Hi _ IH]; [done|]. rewrite filter_cons. cbn [fst] in *.
  by destruct (decide (i = id)).
Qed.
Lemma equal_range_app m m' id : equal_range (m ++ m') id = equal_range m id ++ equal_range m' id.
Proof. unfold equal_range. by rewrite filter_app, fmap_app. Qed.

Lemma CreateAndSend_spec k id next key st pub enc c r evs : length key = 32%nat -> in_width 64 st ->
  exists f fs r', CreateAndSend k id next key st (mkNode pub enc c r evs)
    = Done (true, mkNode pub enc c r' (evs ++ [CallSendMessage next (mkStatus (f :: fs) id st) k]))
    /\ opens_to (DoDecrypt key) (status_enc st) f /\ Forall full fs /\ length fs = 7%nat.
Proof.
  intros Hk Hs. unfold CreateAndSend, SetDummyFrames. cbn [n_rng].
  destruct (randomize_frames_full (replicate max_len EncryptedFrame_default) (Forall_replicate _ _ _ default_full) r) as [Hf Hn].
  destruct (randomize_frames _ r) as [fs g1]. cbn [fst] in *. rewrite length_replicate in Hn.
  destruct (AddFrame_spec key st fs g1 Hk Hs Hf Hn) as (f&g2&->&Ho). cbn [obind].
  exists f, (take 7 fs), g2. split; [done|]. split; [done|]. split; [by apply Forall_take|]. rewrite length_take, Hn. done.
Qed.

Lemma settle_nil fuel w p e c r : settle fuel w (mkNode p e c r []) = Done (mkNode p e c r [], []).
Proof. by destruct fuel. Qed.
Lemma settle_cons fuel w p e c r ev evs : settle (S fuel) w (mkNode p e c r (ev :: evs))
  = let! (n, out) := perform w ev (mkNode p e c r evs) in let! (n, outs) := settle fuel w n in Done (n, out ++ outs).
Proof. done. Qed.

Definition external (ev : RelayEvent) : bool :=
  match ev with
  | PathRequestReceived _ | PersistUntil _ _ | SendCommit _ _ _ | SendStatusTo _ _ | PathAttempt _ | PathBuildStarted _
  | SendOwnCommit _ _ _ | PumpRouter => true
  | _ => false
  end.
Lemma settle_external w p e c r evs : Forall (fun ev => external ev = true) evs -> forall fuel, (length evs <= fuel)%nat ->
  settle fuel w (mkNode p e c r evs) = Done (mkNode p e c r [], evs).
Proof.
  induction 1 as [|ev evs He _ IH]; intros fuel Hf; [apply settle_nil|]. destruct fuel as [|fuel]; [cbn in Hf; lia|].
  rewrite settle_cons. destruct ev; try discriminate He; cbn [perform obind]; rewrite IH by (cbn in Hf; lia); done.
Qed.

Lemma receive_commit_opens w from addr pub enc hs ps tp op lim rm r next c f fs :
  sealed enc next c f -> h_nonceXOR c = short_hash (h_shared c) -> Forall full (f :: fs) -> length (f :: fs) = max_len ->
  IsZero (h_txID c) = false -> IsZero (h_rxID c) = false ->
  exists junk r', full junk /\ receive_commit w from addr (f :: fs) (mkNode pub enc (mkContext hs ps tp op true lim rm) r [])
    = let! (n, outs) := settle 14 w (mkNode pub enc (mkContext (hs ++ [transit_of c from (w_now w) (w_rng w pub)]) ps tp op true lim rm) r'
        [(if bool_decide (h_upstream c = pub) then CallSendPathConfirm else CallSendLRCM) (mkDecrypt (fs ++ [junk]) (length hs) addr); PumpRouter])
      in Done (n, PathRequestReceived (length hs) :: outs).
Proof.
  intros Hs Hx Hf Hl Htx Hrx. unfold receive_commit, LRCM_HandleMessage. rewrite bool_decide_true by done.
  unfold AsyncDecrypt. rewrite map_copy_full by done.
  destruct (Decrypt_opens (w_now w) pub enc hs ps tp op true lim rm r [] next c f fs addr from (w_rng w pub) Hs Hx Hf Htx Hrx)
    as (junk&r'&Hj&E). exists junk, r'. split; [done|].
  transitivity (settle 16 w (mkNode pub enc (mkContext (hs ++ [hop_init from (w_rng w pub)]) ps tp op true lim rm) r
    [QueueDecrypt (mkDecrypt (f :: fs) (length hs) addr)])); [reflexivity|].
  rewrite settle_cons. cbn [perform]. rewrite E. cbn [obind app]. rewrite settle_cons. cbn [perform obind].
  destruct (settle 14 w _) as [[n outs]| |]; done.
Qed.

Lemma limit_passes clock addr hs ps tp op al lim rm :
  (forall a, addr = Some a -> DecayingHashSet.m_Values lim !! setPort 0 a = None) ->
  exists lim', match addr with Some a => CheckPathLimitHitByIP clock a (mkContext hs ps tp op al lim rm) | None => (false, mkContext hs ps tp op al lim rm) end
    = (false, mkContext hs ps tp op al lim' rm).
Proof.
  intros Hl. destruct addr as [a|]; [|by exists lim]. unfold CheckPathLimitHitByIP, DecayingHashSet.Insert.
  cbn [m_PathLimits]. rewrite (Hl a eq_refl). by eexists.
Qed.

(** The hop just opened is the last of the store. *)
Lemma last_hop_lookup {A} (l : list A) x : (l ++ [x]) !! length l = Some x.
Proof. by rewrite lookup_app_r, Nat.sub_diag by lia. Qed.

Lemma SendLRCM_steps clock allowed fs addr pub enc hs ps tp op lim rm r evs c from now g : Forall full fs ->
  Forall (fun e => e.1 <> h_txID c) tp -> (forall a, addr = Some a -> DecayingHashSet.m_Values lim !! setPort 0 a = None) ->
  exists lim', SendLRCM clock allowed (mkDecrypt fs (length hs) addr) (mkNode pub enc (mkContext (hs ++ [transit_of c from now g]) ps tp op true lim rm) r evs)
    = Done (if allowed (h_upstream c) then
        mkNode pub enc (mkContext (hs ++ [transit_of c from now g]) ps (tp ++ [(h_txID c, length hs); (h_rxID c, length hs)]) op true lim' rm) r
          (evs ++ [PersistUntil from (now + default_lifetime + 10000); PersistUntil (h_upstream c) (now + default_lifetime + 10000);
                   SendCommit (h_upstream c) fs (length hs); PumpRouter])
      else mkNode pub enc (mkContext (hs ++ [transit_of c from now g]) ps tp op true lim' rm) r
             (evs ++ [QueueCreateAndSend (length hs) (h_rxID c) from (h_shared c) FAIL_DEST_INVALID])).
Proof.
  intros Hf Hfr Hlim. unfold SendLRCM. cbn [d_hop n_ctx hop_store d_fromAddr d_frames]. rewrite last_hop_lookup.
  unfold HasTransitHop, MapHas. cbn [m_TransitPaths i_txID Transit.info transit_of]. rewrite equal_range_fresh by done. cbn [existsb].
  destruct (limit_passes clock addr (hs ++ [transit_of c from now g]) ps tp op true lim rm Hlim) as (lim'&->).
  exists lim'. cbn [i_upstream]. rewrite map_copy_full by done. destruct (allowed (h_upstream c)); cbn [negb]; [|done].
  unfold on_ctx, act, set_n_ctx, set_n_events, PutTransitHop. cbn [n_ctx hop_store n_events n_pub n_enc n_rng]. rewrite last_hop_lookup.
  unfold cx_m_TransitPaths. cbn [Transit.info i_txID i_rxID hop_store path_store m_TransitPaths m_OurPaths m_AllowTransit m_PathLimits removed].
  rewrite <- !app_assoc. done.
Qed.

(** A relay on the way. *)
Lemma relay_forwards w from addr pub enc hs ps tp op lim rm r next c f fs :
  sealed enc next c f -> h_nonceXOR c = short_hash (h_shared c) -> Forall full (f :: fs) -> length (f :: fs) = max_len ->
  IsZero (h_txID c) = false -> IsZero (h_rxID c) = false -> h_upstream c <> pub -> Forall (fun e => e.1 <> h_txID c) tp ->
  (forall a, addr = Some a -> DecayingHashSet.m_Values lim !! setPort 0 a = None) -> w_allowed w pub (h_upstream c) = true ->
  exists junk r' lim' outs, full junk /\ receive_commit w from addr (f :: fs) (mkNode pub enc (mkContext hs ps tp op true lim rm) r [])
    = Done (mkNode pub enc (mkContext (hs ++ [transit_of c from (w_now w) (w_rng w pub)]) ps
        (tp ++ [(h_txID c, length hs); (h_rxID c, length hs)]) op true lim' rm) r' [], outs)
    /\ commits outs = [(h_upstream c, fs ++ [junk])] /\ statuses outs = [].
Proof.
  intros Hs Hx Hf Hl Htx Hrx Hup Hfr Hlim Hal.
  destruct (receive_commit_opens w from addr pub enc hs ps tp op lim rm r next c f fs Hs Hx Hf Hl Htx Hrx) as (junk&r'&Hj&->).
  rewrite bool_decide_false by done. rewrite settle_cons. cbn [perform n_pub].
  destruct (SendLRCM_steps (w_clock w) (w_allowed w pub) (fs ++ [junk]) addr pub enc hs ps tp op lim rm r' [PumpRouter] c from
    (w_now w) (w_rng w pub)) as (lim'&->); [|done|done|].
  { apply Forall_app. split; [by apply Forall_cons in Hf as [_ ?]|by apply Forall_singleton]. }
  rewrite Hal. cbn [obind app]. rewrite settle_external by (repeat constructor || (cbn; lia)). cbn [obind].
  eexists junk, r', lim', _. split; [done|]. split; [reflexivity|]. done.
Qed.

(** A relay that may not extend the path to the next router. *)
Lemma relay_refuses w from addr pub enc hs ps tp op lim rm r next c f fs :
  sealed enc next c f -> h_nonceXOR c = short_hash (h_shared c) -> length (h_shared c) = 32%nat -> Forall full (f :: fs) -> length (f :: fs) = max_len ->
  IsZero (h_txID c) = false -> IsZero (h_rxID c) = false -> h_upstream c <> pub -> Forall (fun e => e.1 <> h_txID c) tp ->
  (forall a, addr = Some a -> DecayingHashSet.m_Values lim !! setPort 0 a = None) -> w_allowed w pub (h_upstream c) = false ->
  w_takes w pub from = true ->
  exists n' sf sfs outs, receive_commit w from addr (f :: fs) (mkNode pub enc (mkContext hs ps tp op true lim rm) r []) = Done (n', outs)
    /\ n_pub n' = pub /\ commits outs = [] /\ statuses outs = [(from, mkStatus (sf :: sfs) (h_rxID c) FAIL_DEST_INVALID)]
    /\ opens_to (DoDecrypt (h_shared c)) (status_enc FAIL_DEST_INVALID) sf /\ Forall full sfs /\ length sfs = 7%nat.
Proof.
  intros Hs Hx Hsh Hf Hl Htx Hrx Hup Hfr Hlim Hal Hta.
  destruct (receive_commit_opens w from addr pub enc hs ps tp op lim rm r next c f fs Hs Hx Hf Hl Htx Hrx) as (junk&r'&Hj&->).
  rewrite bool_decide_false by done. rewrite settle_cons. cbn [perform n_pub].
  destruct (SendLRCM_steps (w_clock w) (w_allowed w pub) (fs ++ [junk]) addr pub enc hs ps tp op lim rm r' [PumpRouter] c from
    (w_now w) (w_rng w pub)) as (lim'&->); [|done|done|].
  { apply Forall_app. split; [by apply Forall_cons in Hf as [_ ?]|by apply Forall_singleton]. }
  rewrite Hal. cbn [obind app]. rewrite settle_cons. cbn [perform obind]. rewrite settle_cons. cbn [perform].
  match goal with |- context [CreateAndSend ?k ?id ?nx ?key ?st (mkNode ?p ?e ?c ?r ?evs)] =>
    destruct (CreateAndSend_spec k id nx key st p e c r evs Hsh) as (sf&sfs&r2&->&Ho&Hfs&Hls); [done|] end.
  cbn [obind app]. rewrite settle_cons. cbn [perform n_pub]. rewrite Hta. unfold SendMessage, act, set_n_events. cbn [n_events n_pub n_enc n_ctx n_rng app obind].
  rewrite settle_external by (repeat constructor || (cbn; lia)). cbn [obind app].
  eexists _, sf, sfs, _. split; [reflexivity|]. done.
Qed.

(** The end of the path. *)
Lemma relay_ends w from addr pub enc hs ps tp op lim rm r next c f fs :
  sealed enc next c f -> h_nonceXOR c = short_hash (h_shared c) -> length (h_shared c) = 32%nat -> Forall full (f :: fs) -> length (f :: fs) = max_len ->
  IsZero (h_txID c) = false -> IsZero (h_rxID c) = false -> h_upstream c = pub -> Forall (fun e => e.1 <> h_txID c) tp -> w_takes w pub from = true ->
  exists r' sf sfs outs, receive_commit w from addr (f :: fs) (mkNode pub enc (mkContext hs ps tp op true lim rm) r [])
    = Done (mkNode pub enc (mkContext (hs ++ [transit_of c from (w_now w) (w_rng w pub)]) ps
        (tp ++ [(h_txID c, length hs); (h_rxID c, length hs)]) op true lim rm) r' [], outs)
    /\ commits outs = [] /\ statuses outs = [(from, mkStatus (sf :: sfs) (h_rxID c) SUCCESS)]
    /\ opens_to (DoDecrypt (h_shared c)) (status_enc SUCCESS) sf /\ Forall full sfs /\ length sfs = 7%nat.
Proof.
  intros Hs Hx Hsh Hf Hl Htx Hrx Hup Hfr Hta.
  destruct (receive_commit_opens w from addr pub enc hs ps tp op lim rm r next c f fs Hs Hx Hf Hl Htx Hrx) as (junk&r'&Hj&->).
  rewrite bool_decide_true by done. rewrite settle_cons. cbn [perform n_pub]. unfold SendPathConfirm. cbn [d_hop n_ctx hop_store].
  rewrite last_hop_lookup. unfold HasTransitHop, MapHas. cbn [m_TransitPaths i_txID Transit.info transit_of]. rewrite equal_range_fresh by done.
  cbn [existsb]. unfold on_ctx, act, set_n_ctx, set_n_events, PutTransitHop. cbn [n_ctx hop_store n_events n_pub n_enc n_rng]. rewrite last_hop_lookup.
  unfold cx_m_TransitPaths. cbn [Transit.info Transit.pathKey i_txID i_rxID i_downstream hop_store path_store m_TransitPaths m_OurPaths m_AllowTransit m_PathLimits removed].
  match goal with |- context [CreateAndSend ?k ?id ?nx ?key ?st (mkNode ?p ?e ?c ?r ?evs)] =>
    destruct (CreateAndSend_spec k id nx key st p e c r evs Hsh) as (sf&sfs&r2&->&Ho&Hfs&Hls); [done|] end.
  cbn [obind app]. rewrite settle_cons. cbn [perform obind app]. rewrite settle_cons. cbn [perform obind app]. rewrite settle_cons. cbn [perform n_pub].
  rewrite Hta. unfold SendMessage, act, set_n_events. cbn [n_events n_pub n_enc n_ctx n_rng app obind].
  rewrite settle_external by (repeat constructor || (cbn; lia)). cbn [obind app].
  eexists r2, sf, sfs, _. split; [reflexivity|]. done.
Qed.

(** A status on its way back. *)
Lemma relay_returns w from pub enc hs ps tp op lim rm r c now g id st fs : length (h_shared c) = 32%nat ->
  Forall full fs -> length fs = max_len -> id = h_txID c -> Forall (fun e => e.1 <> h_txID c) tp -> Forall (fun e => e.1 <> h_txID c) op ->
  w_takes w pub from = true ->
  exists r' sf outs, receive_status w (h_upstream c) (mkStatus fs id st)
      (mkNode pub enc (mkContext (hs ++ [transit_of c from now g]) ps (tp ++ [(h_txID c, length hs); (h_rxID c, length hs)]) op true lim rm) r [])
    = Done (mkNode pub enc (mkContext (hs ++ [transit_of c from now g]) ps (tp ++ [(h_txID c, length hs); (h_rxID c, length hs)]) op true lim rm) r' [], outs)
    /\ statuses outs = [(from, mkStatus (sf :: take 7 fs) (h_rxID c) st)] /\ opens_to (DoDecrypt (h_shared c)) (status_enc SUCCESS) sf.
Proof.
  intros Hsh Hf Hl -> Htp Hop Hta. unfold receive_status, LRSM_HandleMessage. cbn [st_frames st_pathid st_status]. rewrite bool_decide_true by done. cbn [negb n_ctx].
  unfold GetByUpstream, MapGet. cbn [m_OurPaths m_TransitPaths]. rewrite (equal_range_fresh op) by done. cbn [first_of].
  rewrite equal_range_app, equal_range_fresh by done. cbn [app]. unfold equal_range. rewrite filter_cons_True by done. cbn [fmap list_fmap first_of snd].
  unfold hop_is at 1. cbn [hop_store]. rewrite last_hop_lookup. cbn [Transit.info transit_of i_upstream]. rewrite bool_decide_true by done. cbn [fmap option_fmap option_map].
  unfold act, set_n_events. cbn [n_events n_pub n_enc n_ctx n_rng app]. rewrite map_copy_full by done. rewrite settle_cons. cbn [perform].
  unfold TransitHop_HandleLRSM. cbn [n_ctx hop_store]. rewrite last_hop_lookup. rewrite map_copy_full by done. cbn [Transit.pathKey Transit.info transit_of i_downstream i_rxID n_rng].
  destruct (AddFrame_spec (h_shared c) SUCCESS fs r Hsh) as (sf&r2&->&Ho); [done|done|done|]. cbn [obind].
  unfold QueueSendMessage, act, set_n_events, set_n_rng. cbn [n_events n_pub n_enc n_ctx n_rng app obind]. rewrite settle_cons. cbn [perform n_pub]. rewrite Hta.
  unfold SendMessage, act, set_n_events. cbn [n_events n_pub n_enc n_ctx n_rng app obind].
  rewrite settle_external by (repeat constructor || (cbn; lia)). cbn [obind app].
  eexists r2, sf, _. split; [reflexivity|]. done.
Qed.
End RelaySteps.

(** ** Whole routes *)

Section Routes.
Context `{SodiumSpec} `{!SodiumHonest} `{BItemSpec HopRC}.

(** A router that can serve a hop; [fresh] says the ids are not in use there. *)
Definition fresh (c : PathHopConfig) (n : Node) : Prop :=
  Forall (fun e => e.1 <> h_txID c /\ e.1 <> h_rxID c) (m_TransitPaths (n_ctx n) ++ m_OurPaths (n_ctx n)).
Record serves (c : PathHopConfig) (n : Node) : Prop := mkServes {
  sv_pub : n_pub n = rc_pubkey (h_rc c);
  sv_idle : n_events n = [];
  sv_transit : m_AllowTransit (n_ctx n) = true;
  sv_tx : IsZero (h_txID c) = false;
  sv_rx : IsZero (h_rxID c) = false;
  sv_fresh : fresh c n }.
Definition unlimited (addr : option IpAddress) (n : Node) : Prop :=
  forall a, addr = Some a -> DecayingHashSet.m_Values (m_PathLimits (n_ctx n)) !! setPort 0 a = None.

(** The routers of a path in order, with what each will report: the last one is
    the end, or is not allowed to extend the path. *)
Inductive route (w : World) : list Z -> list PathHopConfig -> list Node -> list Z -> Prop :=
  | route_end from c n : serves c n -> w_takes w (n_pub n) from = true -> route w from [c] [n] [SUCCESS]
  | route_refused from c c2 cs n n2 ns : serves c n -> n_pub n2 = rc_pubkey (h_rc c2) -> n_pub n2 <> n_pub n ->
      w_allowed w (n_pub n) (n_pub n2) = false -> w_takes w (n_pub n) from = true ->
      route w from (c :: c2 :: cs) (n :: n2 :: ns) [FAIL_DEST_INVALID]
  | route_hop from c c2 cs n n2 ns sts : serves c n -> n_pub n2 = rc_pubkey (h_rc c2) -> n_pub n2 <> n_pub n ->
      w_allowed w (n_pub n) (n_pub n2) = true -> w_takes w (n_pub n) from = true -> h_txID c = h_rxID c2 ->
      route w (n_pub n) (c2 :: cs) (n2 :: ns) sts ->
      route w from (c :: c2 :: cs) (n :: n2 :: ns) (SUCCESS :: sts).

(** The hop is in the tables and both neighbours reach it. *)
Definition installed (w : World) (from : list Z) (c : PathHopConfig) (n : Node) : Prop :=
  exists k, hop_store (n_ctx n) !! k = Some (transit_of c from (w_now w) (w_rng w (n_pub n)))
    /\ GetByDownstream from (h_rxID c) (n_ctx n) = Some (TransitPath k)
    /\ GetByUpstream (h_upstream c) (h_txID c) (n_ctx n) = Some (TransitPath k).

Inductive built (w : World) : list Z -> list PathHopConfig -> list Node -> list Z -> Prop :=
  | built_end from c n : installed w from c n -> h_upstream c = n_pub n -> built w from [c] [n] [SUCCESS]
  | built_refused from c cs n ns : built w from (c :: cs) (n :: ns) [FAIL_DEST_INVALID]
  | built_hop from c cs n n2 ns sts : installed w from c n -> h_upstream c = n_pub n2 -> n_pub n2 <> n_pub n ->
      built w (n_pub n) cs (n2 :: ns) sts -> built w from (c :: cs) (n :: n2 :: ns) (SUCCESS :: sts).

Lemma installed_put w from c pub enc hs ps tp op lim rm r evs :
  Forall (fun e => e.1 <> h_txID c /\ e.1 <> h_rxID c) (tp ++ op) ->
  installed w from c (mkNode pub enc (mkContext (hs ++ [transit_of c from (w_now w) (w_rng w pub)]) ps
    (tp ++ [(h_txID c, length hs); (h_rxID c, length hs)]) op true lim rm) r evs).
Proof.
  intros Hf. apply Forall_app in Hf as [Ht Ho]. exists (length hs). cbn [n_ctx hop_store n_pub]. split; [apply last_hop_lookup|].
  unfold GetByDownstream, GetByUpstream, MapGet. cbn [m_TransitPaths m_OurPaths].
  assert (forall id, Forall (fun e : list Z * nat => e.1 <> id) tp -> id = h_txID c \/ id = h_rxID c -> exists l,
    equal_range (tp ++ [(h_txID c, length hs); (h_rxID c, length hs)]) id = length hs :: l) as He.
  { intros id Hid Hor. rewrite equal_range_app, equal_range_fresh by done. cbn [app]. unfold equal_range. rewrite !filter_cons. cbn [fst].
    destruct (decide (h_txID c = id)); [by eexists|]. destruct Hor as [->| ->]; [done|]. rewrite decide_True by done. by eexists. }
  rewrite (equal_range_fresh op) by (eapply Forall_impl; [exact Ho|]; by intros ? []). cbn [first_of].
  destruct (He (h_rxID c)) as [l ->]; [eapply Forall_impl; [exact Ht|]; by intros ? []|by right|].
  destruct (He (h_txID c)) as [l' ->]; [eapply Forall_impl; [exact Ht|]; by intros ? []|by left|].
  cbn [first_of]. unfold hop_is. cbn [hop_store]. rewrite last_hop_lookup. cbn [Transit.info transit_of i_downstream i_upstream].
  by rewrite !bool_decide_true by done.
Qed.

Lemma sealed_all_app sks cs cs' fs junk : sealed_all sks cs cs' fs -> full junk -> sealed_all sks cs cs' (fs ++ [junk]).
Proof.
  intros Hs Hj. induction Hs as [fs Hf|sk c c' f sks cs cs' fs Hk Hs _ IH]; [|by constructor].
  constructor. apply Forall_app. split; [done|by apply Forall_singleton].
Qed.

(** Freshness under the names key generation keeps. *)
Lemma fresh_keyed next c c' n : keyed next c c' -> fresh c n ->
  Forall (fun e => e.1 <> h_txID c' /\ e.1 <> h_rxID c') (m_TransitPaths (n_ctx n) ++ m_OurPaths (n_ctx n))
  /\ Forall (fun e => e.1 <> h_txID c') (m_TransitPaths (n_ctx n)) /\ Forall (fun e => e.1 <> h_txID c') (m_OurPaths (n_ctx n)).
Proof.
  intros [-> -> _ _ _ _] Hf. split; [done|]. apply Forall_app in Hf as [Ht Ho].
  split; (eapply Forall_impl; [eassumption|]); by intros ? [].
Qed.

Lemma step_end w from c n c' f fs addr : serves c n -> w_takes w (n_pub n) from = true -> keyed None c c' -> sealed (n_enc n) None c' f ->
  Forall full (f :: fs) -> length (f :: fs) = max_len ->
  exists n' sf sfs outs, receive_commit w from addr (f :: fs) n = Done (n', outs) /\ installed w from c' n' /\ h_upstream c' = n_pub n'
    /\ n_pub n' = n_pub n /\ commits outs = [] /\ statuses outs = [(from, mkStatus (sf :: sfs) (h_rxID c') SUCCESS)]
    /\ opens_to (DoDecrypt (h_shared c')) (status_enc SUCCESS) sf /\ Forall full sfs /\ length sfs = 7%nat.
Proof.
  intros [Hpub Hev Htr Htx Hrx Hfr] Hta Hky Hse Hf Hl. pose proof (fresh_keyed _ _ _ _ Hky Hfr) as (Hfr1&Hfr2&_).
  destruct n as [pub enc [hs ps tp op al lim rm] r evs]. cbn in *. subst evs al. pose proof Hky as [Etx Erx Erc Eup Hsh Exor].
  destruct (relay_ends w from addr pub enc hs ps tp op lim rm r None c' f fs Hse Exor Hsh Hf Hl) as (r'&sf&sfs&outs&E&Ec&Es&Ho&Hfs&Hls);
    [by rewrite Etx|by rewrite Erx|by rewrite Eup|done|done|].
  eexists _, sf, sfs, outs. split; [exact E|]. split; [by apply installed_put|]. cbn. split_and!; (done || by rewrite Eup).
Qed.

Lemma step_refused w from c c2 n c' f fs addr : serves c n -> rc_pubkey (h_rc c2) <> n_pub n ->
  w_allowed w (n_pub n) (rc_pubkey (h_rc c2)) = false -> w_takes w (n_pub n) from = true -> unlimited addr n ->
  keyed (Some (h_rc c2)) c c' -> sealed (n_enc n) (Some (h_rc c2)) c' f -> Forall full (f :: fs) -> length (f :: fs) = max_len ->
  exists n' sf sfs outs, receive_commit w from addr (f :: fs) n = Done (n', outs) /\ n_pub n' = n_pub n
    /\ commits outs = [] /\ statuses outs = [(from, mkStatus (sf :: sfs) (h_rxID c') FAIL_DEST_INVALID)]
    /\ opens_to (DoDecrypt (h_shared c')) (status_enc FAIL_DEST_INVALID) sf /\ Forall full sfs /\ length sfs = 7%nat.
Proof.
  intros [Hpub Hev Htr Htx Hrx Hfr] Hne Hal Hta Hun Hky Hse Hf Hl. pose proof (fresh_keyed _ _ _ _ Hky Hfr) as (Hfr1&Hfr2&_).
  destruct n as [pub enc [hs ps tp op al lim rm] r evs]. cbn in *. subst evs al. pose proof Hky as [Etx Erx Erc Eup Hsh Exor]. cbn in Eup.
  destruct (relay_refuses w from addr pub enc hs ps tp op lim rm r (Some (h_rc c2)) c' f fs Hse Exor Hsh Hf Hl) as (n'&sf&sfs&outs&E&Hr);
    [by rewrite Etx|by rewrite Erx|by rewrite Eup|done|done|by rewrite Eup|done|].
  exists n', sf, sfs, outs. split; [exact E|exact Hr].
Qed.

Lemma step_hop w from c c2 n c' f fs addr : serves c n -> rc_pubkey (h_rc c2) <> n_pub n ->
  w_allowed w (n_pub n) (rc_pubkey (h_rc c2)) = true -> w_takes w (n_pub n) from = true -> unlimited addr n ->
  keyed (Some (h_rc c2)) c c' -> sealed (n_enc n) (Some (h_rc c2)) c' f -> Forall full (f :: fs) -> length (f :: fs) = max_len ->
  exists n1 outs junk, receive_commit w from addr (f :: fs) n = Done (n1, outs) /\ n_pub n1 = n_pub n /\ full junk
    /\ commits outs = [(rc_pubkey (h_rc c2), fs ++ [junk])] /\ statuses outs = []
    /\ forall sfs st, Forall full sfs -> length sfs = max_len -> exists n2 outs sf,
      receive_status w (rc_pubkey (h_rc c2)) (mkStatus sfs (h_txID c) st) n1 = Done (n2, outs) /\ installed w from c' n2 /\ n_pub n2 = n_pub n
      /\ statuses outs = [(from, mkStatus (sf :: take 7 sfs) (h_rxID c) st)] /\ opens_to (DoDecrypt (h_shared c')) (status_enc SUCCESS) sf.
Proof.
  intros [Hpub Hev Htr Htx Hrx Hfr] Hne Hal Hta Hun Hky Hse Hf Hl. pose proof (fresh_keyed _ _ _ _ Hky Hfr) as (Hfr1&Hfr2&Hfr3).
  destruct n as [pub enc [hs ps tp op al lim rm] r evs]. cbn in *. subst evs al. pose proof Hky as [Etx Erx Erc Eup Hsh Exor]. cbn in Eup.
  destruct (relay_forwards w from addr pub enc hs ps tp op lim rm r (Some (h_rc c2)) c' f fs Hse Exor Hf Hl)
    as (junk&r'&lim'&outs&Hj&E&Ec&Es); [by rewrite Etx|by rewrite Erx|by rewrite Eup|done|done|by rewrite Eup|].
  eexists _, outs, junk. split; [exact E|]. split; [done|]. split; [done|]. split; [by rewrite <- Eup|]. split; [done|].
  intros sfs st Hsf Hsl.
  destruct (relay_returns w from pub enc hs ps tp op lim' rm r' c' (w_now w) (w_rng w pub) (h_txID c) st sfs Hsh Hsf Hsl)
    as (r2&sf&outs2&E2&Es2&Ho); [by rewrite Etx|done|done|done|].
  rewrite <- Eup, <- Erx. eexists _, outs2, sf. split; [exact E2|]. split; [by apply installed_put|]. done.
Qed.

Lemma build_cons w n rest from addr frames : build w (n :: rest) from addr frames
  = let! (n, outs) := receive_commit w from addr frames n in
    match commits outs, statuses outs, rest with
    | [], [st], _ => Done (n :: rest, st)
    | [(next, fs)], [], n' :: _ =>
        if bool_decide (next = n_pub n') then
          let! (rest, (to, msg)) := build w rest (n_pub n) None fs in
          if bool_decide (to = n_pub n) then
            let! (n, outs) := receive_status w (n_pub n') msg n in
            match statuses outs with [st] => Done (n :: rest, st) | _ => Fault end
          else Fault
        else Fault
    | _, _, _ => Fault
    end.
Proof. done. Qed.

Lemma build_reports w from cs ns sts : route w from cs ns sts -> forall cs' fs addr, sealed_all (map n_enc ns) cs cs' fs ->
  length fs = max_len -> (forall n, head ns = Some n -> unlimited addr n) -> (length sts <= max_len)%nat ->
  exists ns' sfs id, build w ns from addr fs = Done (ns', (from, mkStatus sfs id (List.last sts 0))) /\ h_rxID <$> head cs = Some id
    /\ Forall full sfs /\ length sfs = max_len /\ reports cs' sts sfs /\ built w from cs' ns' sts /\ map n_pub ns' = map n_pub ns.
Proof.
  induction 1 as [from c n Hsv Hta|from c c2 cs n n2 ns Hsv Hp2 Hne Hal Hta|from c c2 cs n n2 ns sts Hsv Hp2 Hne Hal Hta Hch Hro IH];
    intros cs' fs addr Hse Hl Hun Hst; pose proof (sealed_full _ _ _ _ Hse) as Hfu; cbn [map] in Hse; inversion Hse as [|? ? c' f ? ? cs1 fs1 Hky Hsl Hse1]; subst;
    cbn [head fmap option_fmap option_map] in Hky, Hsl; rewrite build_cons.
  - inversion Hse1; subst. destruct (step_end w from c n c' f fs1 addr Hsv Hta Hky Hsl Hfu Hl) as (n'&sf&sfs&outs&->&Hi&Hu&Hp&Ec&Es&Ho&Hfs&Hls).
    cbn [obind]. rewrite Ec, Es. eexists _, _, _. split; [reflexivity|]. split; [cbn; by rewrite (ky_rx _ _ _ Hky)|].
    split; [constructor; [apply Ho|done]|]. split; [cbn; by rewrite Hls|]. split; [apply reports_cons; [exact Ho|done|apply reports_nil]|]. split; [by constructor|cbn; by rewrite Hp].
  - rewrite Hp2 in Hne, Hal. destruct (step_refused w from c c2 n c' f fs1 addr Hsv Hne Hal Hta (Hun n eq_refl) Hky Hsl Hfu Hl)
      as (n'&sf&sfs&outs&->&Hp&Ec&Es&Ho&Hfs&Hls). cbn [obind]. rewrite Ec, Es. eexists _, _, _. split; [reflexivity|].
    split; [cbn; by rewrite (ky_rx _ _ _ Hky)|]. split; [constructor; [apply Ho|done]|]. split; [cbn; by rewrite Hls|].
    split; [apply reports_cons; [exact Ho|done|apply reports_nil]|]. split; [by constructor|cbn; by rewrite Hp].
  - rewrite Hp2 in Hne, Hal. destruct (step_hop w from c c2 n c' f fs1 addr Hsv Hne Hal Hta (Hun n eq_refl) Hky Hsl Hfu Hl)
      as (n1&outs&junk&->&Hp1&Hj&Ec&Es&Hback). cbn [obind]. rewrite Ec, Es, <- Hp2, bool_decide_true by done.
    destruct (IH cs1 (fs1 ++ [junk]) None (sealed_all_app _ _ _ _ _ Hse1 Hj)) as (ns'&sfs&id&E&Eid&Hfs&Hls&Hre&Hbu&Hpu);
      [rewrite length_app; cbn in *; lia|done|cbn in Hst; lia|]. cbn in Eid. injection Eid as <-. rewrite Hp1, E. cbn [obind].
    rewrite bool_decide_true by done. rewrite <- Hch, Hp2.
    destruct (Hback sfs (List.last sts 0) Hfs Hls) as (n3&outs2&sf&->&Hi&Hp3&Es2&Ho). cbn [obind]. rewrite Es2. eexists _, _, _.
    split; [destruct Hro; reflexivity|]. split; [done|]. split; [constructor; [apply Ho|by apply Forall_take]|].
    split; [cbn [length]; rewrite length_take, Hls; done|]. split; [apply reports_cons; [done|done|apply reports_take; [done|cbn in Hst; unfold max_len in Hst; lia]]|].
    split; [|cbn [map]; by rewrite Hpu, Hp3]. destruct ns' as [|n4 ns']; [discriminate Hpu|]. cbn in Hpu. injection Hpu as Hp4 Hpu.
    constructor; [done|by rewrite (ky_up _ _ _ Hky), Hp4|by rewrite Hp4, Hp3, Hp2|by rewrite Hp3].
Qed.
End Routes.

(** ** From the client and back *)

Section EndToEnd.
Context `{SodiumSpec} `{!SodiumHonest} `{BItemSpec HopRC}.

(** The client makes the keys of its path and sends the commit. *)
Definition client_starts (w : World) (k : nat) (g : rng) (n : Node) : outcome (option (list Encrypted * Node)) :=
  match path_store (n_ctx n) !! k with
  | None => Fault
  | Some p =>
      let! (r, _) := AsyncGenerateKeys (hops p) g in
      match r with
      | None => Done None
      | Some (cs, frames) =>
          let! n := PathBuilderKeysGenerated (w_now w) false true k frames (on_ctx (on_path k (with_hops cs)) n) in
          let! (n, outs) := settle 16 w n in
          match omap (fun ev => match ev with SendOwnCommit _ fs _ => Some fs | _ => None end) outs with
          | [fs] => Done (Some (fs, n))
          | _ => Fault
          end
      end
  end.

Lemma hops_with_hops cs p : cs <> [] -> hops (with_hops cs p) = cs.
Proof. by destruct cs. Qed.

Lemma sealed_hops_ok sks cs cs' fs : sealed_all sks cs cs' fs -> Forall hop_ok cs'.
Proof.
  induction 1 as [|sk c c' f sks cs cs' fs [_ _ _ _ Hsh Exor] _ _ IH]; constructor; [|done]. split; [done|]. rewrite Exor.
  unfold short_hash, shorthash. destruct (generichash_total 32 (h_shared c') []) as [x Ex]; [lia|by left|]. rewrite Ex. cbn.
  by destruct (generichash_length _ _ _ _ Ex).
Qed.

Lemma sealed_rcs sks cs cs' fs : sealed_all sks cs cs' fs -> map h_rc cs' = map h_rc cs /\ map h_rxID cs' = map h_rxID cs.
Proof. induction 1 as [|sk c c' f sks cs cs' fs [_ Erx Erc _ _ _] _ _ [IH1 IH2]]; [done|]. cbn. by rewrite Erx, Erc, IH1, IH2. Qed.

Lemma transit_relay_of c from now g : relay_of c (transit_of c from now g).
Proof. by split. Qed.

Lemma built_relays w from cs ns sts : built w from cs ns sts -> Forall (fun st => st = SUCCESS) sts -> exists hs,
  relays cs (zip (map n_pub ns) hs) /\ Forall2 (fun n h => h ∈ hop_store (n_ctx n)) ns hs.
Proof.
  induction 1 as [from c n (k&Ek&_) Hu|from c cs n ns|from c cs n n2 ns sts (k&Ek&_) Hu Hne Hb IH]; intros Hs.
  - exists [transit_of c from (w_now w) (w_rng w (n_pub n))]. split; [|constructor; [by eapply list_elem_of_lookup_2|constructor]].
    cbn. apply relays_end; [apply transit_relay_of|]. unfold Transit.IsEndpoint. cbn. by apply bool_decide_true.
  - apply Forall_cons in Hs as [Hs _]. discriminate Hs.
  - apply Forall_cons in Hs as [_ Hs]. destruct (IH Hs) as (hs&Hr&Hin).
    exists (transit_of c from (w_now w) (w_rng w (n_pub n)) :: hs). split; [|constructor; [by eapply list_elem_of_lookup_2|done]].
    cbn [map zip zip_with]. apply relays_hop; [apply transit_relay_of| |exact Hr]. unfold Transit.IsEndpoint. cbn. apply bool_decide_false. congruence.
Qed.

(** The client of a build: its path waits in the store under ids not in use. *)
Record waits (k : nat) (p : Path) (n : Node) : Prop := mkWaits {
  wt_path : path_store (n_ctx n) !! k = Some p;
  wt_idle : n_events n = [];
  wt_fresh : Forall (fun e => e.1 <> TXID p /\ e.1 <> RXID p) (m_OurPaths (n_ctx n)) }.

Lemma put_own_found m k tx rx : Forall (fun e : list Z * nat => e.1 <> tx /\ e.1 <> rx) m ->
  exists l, equal_range (put_own rx k (put_own tx k m)) rx = k :: l.
Proof.
  intros Hf. assert (equal_range m tx = [] /\ equal_range m rx = []) as [Etx Erx].
  { split; apply equal_range_fresh; (eapply Forall_impl; [exact Hf|]); by intros ? []. }
  assert (forall i j, equal_range [(i, k)] j = if decide (i = j) then [k] else []) as E1.
  { intros i j. unfold equal_range. rewrite filter_cons. cbn [fst]. by destruct (decide (i = j)). }
  assert (put_own tx k m = m ++ [(tx, k)]) as -> by (unfold put_own; by rewrite bool_decide_true).
  unfold put_own. rewrite !equal_range_app, Erx, E1. cbn [app]. destruct (decide (tx = rx)) as [->|Hne].
  - rewrite bool_decide_false by done. rewrite equal_range_app, Erx, E1, decide_True by done. by eexists.
  - rewrite bool_decide_true by done. rewrite !equal_range_app, Erx, !E1, decide_False, decide_True by done. by eexists.
Qed.

Lemma keys_generated now k fs pub enc hs ps tp op al lim rm r p : ps !! k = Some p ->
  PathBuilderKeysGenerated now false true k fs (mkNode pub enc (mkContext hs ps tp op al lim rm) r [])
  = Done (mkNode pub enc (mkContext hs ps tp (put_own (RXID p) k (put_own (TXID p) k op)) al lim rm) r
      [PathAttempt k; PathBuildStarted k; SendOwnCommit (Upstream p) fs k; PersistUntil (Upstream p) (ExpireTime p)]).
Proof.
  intros Hp. unfold PathBuilderKeysGenerated. cbn [n_ctx path_store]. rewrite Hp. unfold on_ctx, act, AddOwnPath, set_n_ctx, set_n_events.
  cbn [n_ctx path_store n_pub n_enc n_rng n_events]. by rewrite Hp.
Qed.

Lemma client_starts_spec w k g n p sks : waits k p n -> Forall2 keys_known sks (hops p) -> (length (hops p) <= max_len)%nat ->
  exists cs' fs n1, client_starts w k g n = Done (Some (fs, n1)) /\ sealed_all sks (hops p) cs' fs /\ length fs = max_len
    /\ n_events n1 = [] /\ n_pub n1 = n_pub n /\ path_store (n_ctx n1) !! k = Some (with_hops cs' p)
    /\ forall r, GetByUpstream r (RXID p) (n_ctx n1) = Some (OwnPath k).
Proof.
  intros [Hp Hev Hfr] Hk Hl. unfold client_starts. rewrite Hp. destruct (AsyncGenerateKeys_spec sks (hops p) g Hk Hl) as (cs'&fs&g'&->&Hs&Hlf).
  cbn [obind]. destruct n as [pub enc [hs ps tp op al lim rm] r evs]. cbn in Hp, Hev, Hfr. subst evs.
  assert (RXID (with_hops cs' p) = RXID p /\ TXID (with_hops cs' p) = TXID p) as [Erx Etx].
  { inversion Hs as [|? ? ? ? ? ? ? ? [E1 E2 _ _ _ _]]; subst. by split. }
  assert (alter (with_hops cs') k ps !! k = Some (with_hops cs' p)) as Ha by (by rewrite list_lookup_alter_eq, Hp).
  change (on_ctx (on_path k (with_hops cs')) (mkNode pub enc (mkContext hs ps tp op al lim rm) r []))
    with (mkNode pub enc (mkContext hs (alter (with_hops cs') k ps) tp op al lim rm) r []).
  rewrite (keys_generated _ _ _ _ _ _ _ _ _ _ _ _ _ _ Ha). cbn [obind]. rewrite settle_external by (repeat constructor || (cbn; lia)).
  cbn [obind omap list_omap]. exists cs', fs. eexists. split; [reflexivity|]. split; [done|]. split; [done|]. split; [done|]. split; [done|].
  cbn [n_ctx path_store]. split; [done|]. intros rr. unfold GetByUpstream, MapGet. cbn [m_OurPaths]. rewrite Erx, Etx.
  destruct (put_own_found op k (TXID p) (RXID p) Hfr) as [l ->]. done.
Qed.

Lemma client_hears w r k n p p' st fs id : n_events n = [] -> path_store (n_ctx n) !! k = Some p ->
  GetByUpstream r id (n_ctx n) = Some (OwnPath k) -> Forall full fs -> length fs = max_len -> Path_HandleLRSM st fs p = Done (true, p') ->
  exists n', receive_status w r (mkStatus fs id st) n = Done (n', []) /\ path_store (n_ctx n') !! k = Some p'.
Proof.
  intros Hev Hp Hg Hf Hl Hr. unfold receive_status, LRSM_HandleMessage. cbn [st_frames st_pathid st_status]. rewrite bool_decide_true by done.
  cbn [negb]. rewrite Hg, map_copy_full by done. destruct n as [pub enc c rg evs]. cbn in Hev, Hp. subst evs.
  unfold act, set_n_events. cbn [n_events n_pub n_enc n_ctx n_rng app]. rewrite settle_cons. cbn [perform n_ctx]. rewrite Hp, Hr. cbn [obind].
  unfold on_ctx, set_n_ctx. cbn [n_pub n_enc n_ctx n_rng n_events]. rewrite settle_nil. cbn [obind app]. eexists. split; [reflexivity|].
  unfold on_path, cx_path_store. cbn [n_ctx path_store]. by rewrite list_lookup_alter_eq, Hp.
Qed.
End EndToEnd.

(** ** A concrete network *)

(** Contacts as one byte string. *)
Definition demo_rc_item : BItem HopRC := {|
  BEncode rc b := bencode_write_bytestring b (rc_pubkey rc ++ rc_enckey rc ++ rc_other rc);
  BDecode b :=
    let! (s, b) := bencode_read_string b in
    Done (match s with
          | Some s => if (64 <=? length (base s))%nat
                      then Some (mkHopRC (take 32 (base s)) (take 32 (drop 32 (base s))) (drop 64 (base s))) else None
          | None => None
          end, b) |}.
Definition demo_rc_spec : @BItemSpec HopRC demo_rc_item.
Proof.
  refine (@Build_BItemSpec _ demo_rc_item
    (fun rc => length (rc_pubkey rc) = 32%nat /\ length (rc_enckey rc) = 32%nat /\ Z.of_nat (length (rc_other rc)) < 1000)
    (fun rc => enc_str (rc_pubkey rc ++ rc_enckey rc ++ rc_other rc)) _ _ _).
  - intros rc. destruct (enc_str_head (rc_pubkey rc ++ rc_enckey rc ++ rc_other rc)) as (c&t&->&Hc). exists c, t. split; [done|].
    intros ->. discriminate Hc.
  - intros [pub enc other] b rest (Hp&He&Ho) E. cbn [BDecode demo_rc_item rc_pubkey rc_enckey rc_other] in *.
    rewrite (bencode_read_string_spec _ _ _ E) by (rewrite !length_app; lia). cbn [obind base].
    rewrite (proj2 (Nat.leb_le _ _)) by (rewrite !length_app; lia).
    rewrite take_app_length' by done. rewrite drop_app_length' by done. rewrite take_app_length' by done.
    replace (drop 64 (pub ++ enc ++ other)) with other; [done|]. rewrite app_assoc, drop_app_length'; [done|rewrite length_app; lia].
  - intros rc b (Hp&He&Ho) Hw Hs. cbn [BEncode demo_rc_item].
    apply bencode_write_bytestring_spec; [done|rewrite !length_app; lia|by right|lia].
Defined.

Definition demo_sk (k : Z) : list Z := (@encryption_keygen toy_sodium k).1.
Definition demo_build_hop (k : Z) (tx : list Z) : PathHopConfig :=
  mkHop tx (replicate PATHIDSIZE k) (mkHopRC (replicate 32 k) (toPublic (demo_sk k)) []) (replicate 64 0) (replicate 32 0) (replicate 32 0)
    (replicate 32 0) (replicate 32 0) default_lifetime.
Definition demo_build_path : @Path toy_sodium :=
  @mkPath toy_sodium (demo_build_hop 1 (replicate PATHIDSIZE 2)) [demo_build_hop 2 (replicate PATHIDSIZE 9)] true ePathBuilding
    (mkTiming 1 1 1 0 [] 1 1) (mkExits 0 0 0 0 false false false false false false 0) (mkRates 0 0 0 0) HopQueues_new 3 [].
Definition demo_node (k : Z) (ps : list (@Path toy_sodium)) : @Node toy_sodium :=
  @mkNode toy_sodium (replicate 32 k) (demo_sk k) (@mkContext toy_sodium [] ps [] [] true (DecayingHashSet.new 500) []) k [].
Definition demo_client : @Node toy_sodium := demo_node 7 [demo_build_path].
Definition demo_nodes : list (@Node toy_sodium) := [demo_node 1 []; demo_node 2 []].
Definition demo_world (allow : bool) : @World toy_sodium := @mkWorld toy_sodium 1000 1000 (fun _ _ => allow) (fun _ _ => true) (fun _ => 5).

Lemma demo_waits : @waits toy_sodium 0 demo_build_path demo_client.
Proof. split; [reflexivity|reflexivity|constructor]. Qed.

Lemma demo_keys k tx : length tx = PATHIDSIZE -> @keys_known toy_sodium demo_rc_item demo_rc_spec (demo_sk k) (demo_build_hop k tx).
Proof.
  intros Htx. pose proof (@encryption_keygen_key toy_sodium toy_sodium_spec k : @encryption_key toy_sodium (demo_sk k)) as Hk.
  destruct (@toPublic_key toy_sodium toy_sodium_spec (demo_sk k) Hk) as [_ Hl]. split; [exact Hk|]. split; [reflexivity|].
  split; [exact Htx|apply length_replicate|]. cbn [h_rc demo_build_hop]. unfold rc_fits. cbn [item_ok item_enc demo_rc_spec rc_pubkey rc_enckey rc_other].
  rewrite length_replicate, Hl, app_nil_r. split; [split_and!; [done|done|cbn; lia]|]. split; [|done].
  rewrite (length_enc_str _ 64) by (by rewrite length_app, length_replicate, Hl). vm_compute. lia.
Qed.

Lemma demo_nodes_known : Forall2 (@keys_known toy_sodium demo_rc_item demo_rc_spec) (map n_enc demo_nodes) (hops demo_build_path).
Proof. constructor; [by apply demo_keys|]. constructor; [by apply demo_keys|constructor]. Qed.

Lemma demo_serves k tx : IsZero tx = false -> k <> 0 -> @serves toy_sodium (demo_build_hop k tx) (demo_node k []).
Proof.
  intros Htx Hk. split; [reflexivity|reflexivity|reflexivity|exact Htx| |constructor].
  cbn. destruct k; [done|reflexivity|reflexivity].
Qed.

Lemma demo_route (allow : bool) : @route toy_sodium (demo_world allow) (n_pub demo_client) (hops demo_build_path) demo_nodes
  (if allow then [SUCCESS; SUCCESS] else [FAIL_DEST_INVALID]).
Proof.
  destruct allow.
  - apply route_hop; [by apply demo_serves|reflexivity|discriminate|reflexivity|reflexivity|reflexivity|].
    apply route_end; [by apply demo_serves|reflexivity].
  - apply route_refused; [by apply demo_serves|reflexivity|discriminate|reflexivity|reflexivity].
Qed.

(** ** Theorems *)

Lemma route_success `{Sodium} `{BItem HopRC} w from cs ns sts : route w from cs ns sts -> Forall (fun st => st = SUCCESS) sts ->
  length sts = length cs /\ List.last sts 0 = SUCCESS.
Proof.
  induction 1 as [from c n|from c c2 cs n n2 ns|from c c2 cs n n2 ns sts Hsv Hp2 Hne Hal Hta Hch Hro IH]; intros Hs; [done| |].
  - apply Forall_cons in Hs as [Hs _]. discriminate Hs.
  - apply Forall_cons in Hs as [_ Hs]. destruct (IH Hs) as [El Ea]. cbn [length] in *. split; [lia|]. cbn [List.last]. by destruct sts.
Qed.

(** C1: a path is built.  Let a client wait with a path of at most eight hops whose
    keys and contacts it knows, let the routers of the hops be idle, willing and
    connected, and the path's ids unused there.  Then the client's commit is made
    and sent; every relay opens its own record and passes the rest on; the status
    messages come back through all of them to the client, which confirms the path;
    the relays hold hops with the client's secrets, so that from then on whatever
    the client wraps for the path arrives in plain at its end. *)
Theorem path_build_succeeds `{SodiumSpec} `{!SodiumStream} `{!SodiumHonest} `{BItemSpec HopRC} `{Routing} `{!RoutingSpec}
    w e client k p g addr ns sts :
  waits k p client -> route w (n_pub client) (hops p) ns sts -> Forall (fun st => st = SUCCESS) sts ->
  Forall2 keys_known (map n_enc ns) (hops p) -> (length (hops p) <= max_len)%nat -> (forall n, head ns = Some n -> unlimited addr n) ->
  exists frames client1 ns' msg client2 cs hs,
    client_starts w k g client = Done (Some (frames, client1))
    /\ build w ns (n_pub client) addr frames = Done (ns', (n_pub client, msg))
    /\ receive_status w (Upstream p) msg client1 = Done (client2, [])
    /\ path_store (n_ctx client2) !! k = Some (emit CallPathConfirm (with_hops cs p))
    /\ Forall2 (fun n h => h ∈ hop_store (n_ctx n)) ns' hs /\ relays cs (zip (map n_pub ns) hs)
    /\ forall m plain, length (Y m) = 32%nat -> (length plain <= relay_size)%nat -> payload m = encrypt_hops cs (Y m) plain ->
         trip_up e (zip (map n_pub ns) hs) m = Done [plain].
Proof.
  intros Hw Hro Hs Hk Hl Hun. destruct (route_success _ _ _ _ _ Hro Hs) as [El Ela].
  destruct (client_starts_spec w k g client p _ Hw Hk Hl) as (cs&frames&client1&Es&Hse&Hlf&Hev&Hpub&Hpk&Hg).
  destruct (build_reports w _ _ _ _ Hro cs frames addr Hse Hlf Hun ltac:(lia)) as (ns'&sfs&id&Eb&Eid&Hsf&Hsl&Hre&Hbu&Hpu).
  cbn in Eid. injection Eid as <-. rewrite Ela in Eb. destruct (sealed_rcs _ _ _ _ Hse) as [Erc _].
  assert (cs <> []) as Hne by (intros ->; discriminate Erc).
  assert (length cs = length (hops p)) as Elc by (apply (f_equal length) in Erc; by rewrite !length_map in Erc).
  destruct (client_hears w (Upstream p) k client1 _ (emit CallPathConfirm (with_hops cs p)) SUCCESS sfs (RXID p) Hev Hpk (Hg _) Hsf Hsl) as (client2&Er&Ep).
  { unfold Path_HandleLRSM. rewrite hops_with_hops by done. by rewrite (read_status_success cs sts sfs Hre) by (done || lia). }
  destruct (built_relays _ _ _ _ _ Hbu Hs) as (hs&Hrel&Hin). rewrite Hpu in Hrel. pose proof (sealed_hops_ok _ _ _ _ Hse) as Hok.
  exists frames, client1, ns', (mkStatus sfs (RXID p) SUCCESS), client2, cs, hs. split_and!; [exact Es|exact Eb|exact Er|exact Ep|exact Hin|exact Hrel|].
  intros m plain Hy Hpl Epl. assert (length (payload m) = length plain) as Elm by (rewrite Epl; by apply encrypt_hops_length).
  rewrite (trip_up_relayed e cs _ Hrel Hok m Hy) by lia. rewrite Epl. by rewrite relayed_up_encrypt.
Qed.

Lemma path_build_succeeds_witness : exists frames client1 ns' msg client2 cs,
  @client_starts toy_sodium demo_rc_item (demo_world true) 0 11 demo_client = Done (Some (frames, client1))
  /\ @build toy_sodium demo_rc_item (demo_world true) demo_nodes (replicate 32 7) (Some ([1; 2; 3; 4], 5)) frames = Done (ns', (replicate 32 7, msg))
  /\ @receive_status toy_sodium demo_rc_item (demo_world true) (replicate 32 1) msg client1 = Done (client2, [])
  /\ path_store (n_ctx client2) !! 0%nat = Some (emit CallPathConfirm (with_hops cs demo_build_path)).
Proof.
  destruct (@path_build_succeeds toy_sodium toy_sodium_spec toy_stream toy_honest demo_rc_item demo_rc_spec demo_routing demo_routing_spec
    (demo_world true) demo_env demo_client 0 demo_build_path 11 (Some ([1; 2; 3; 4], 5)) demo_nodes [SUCCESS; SUCCESS])
    as (frames&client1&ns'&msg&client2&cs&hs&E1&E2&E3&E4&_).
  - exact demo_waits.
  - exact (demo_route true).
  - repeat constructor.
  - exact demo_nodes_known.
  - vm_compute. lia.
  - intros n E a _. injection E as <-. reflexivity.
  - exists frames, client1, ns', msg, client2, cs. split; [exact E1|]. split; [exact E2|]. split; [exact E3|exact E4].
Defined.

(** The last router of a failed route and the one it may not extend the path to. *)
Lemma failure_split `{Sodium} `{BItem HopRC} w from cs ns sts : route w from cs ns sts -> List.last sts 0 = FAIL_DEST_INVALID ->
  exists sts' cs1 c c2 cs2 n2, sts = sts' ++ [FAIL_DEST_INVALID] /\ Forall (fun st => st = SUCCESS) sts' /\ cs = cs1 ++ c :: c2 :: cs2
    /\ length cs1 = length sts' /\ ns !! length sts = Some n2 /\ n_pub n2 = rc_pubkey (h_rc c2).
Proof.
  induction 1 as [from c n|from c c2 cs n n2 ns Hsv Hp2|from c c2 cs n n2 ns sts Hsv Hp2 Hne Hal Hta Hch Hro IH]; intros Hs; [discriminate Hs| |].
  - exists [], [], c, c2, cs, n2. split_and!; done.
  - destruct IH as (sts'&cs1&c'&c2'&cs2&n2'&->&Hf&E&Hl&Hn&Hp); [by destruct sts|].
    exists (SUCCESS :: sts'), (c :: cs1), c', c2', cs2, n2'. split; [done|]. split; [by constructor|]. split; [cbn; by rewrite E|].
    split; [cbn; by rewrite Hl|]. by split.
Qed.

Lemma map_split {A B} (f : A -> B) l l1 x y l2 : map f l = map f (l1 ++ x :: y :: l2) ->
  exists m1 u v m2, l = m1 ++ u :: v :: m2 /\ length m1 = length l1 /\ f v = f y.
Proof.
  revert l1. induction l as [|a l IH]; intros [|b l1] E; cbn in E; try discriminate E.
  - injection E as E1 E2. destruct l as [|v m2]; [discriminate E2|]. injection E2 as E2 _. by exists [], a, v, m2.
  - injection E as E1 E2. destruct (IH l1 E2) as (m1&u&v&m2&->&Hl&Ev). exists (a :: m1), u, v, m2. cbn. by rewrite Hl.
Qed.

(** C14: a build that fails is blamed on the right router.  If one of the relays
    on the way may not extend the path to the router after it, the failure is
    reported back through the relays before it, and the client marks exactly that
    next router as failed, has it removed from its database and gives up the path. *)
Theorem build_failure_is_blamed `{SodiumSpec} `{!SodiumHonest} `{BItemSpec HopRC} w client k p g addr ns sts :
  waits k p client -> route w (n_pub client) (hops p) ns sts -> List.last sts 0 = FAIL_DEST_INVALID ->
  Forall2 keys_known (map n_enc ns) (hops p) -> (length (hops p) <= max_len)%nat -> (forall n, head ns = Some n -> unlimited addr n) ->
  exists frames client1 ns' msg client2 cs culprit,
    client_starts w k g client = Done (Some (frames, client1))
    /\ build w ns (n_pub client) addr frames = Done (ns', (n_pub client, msg))
    /\ receive_status w (Upstream p) msg client1 = Done (client2, [])
    /\ n_pub <$> ns !! length sts = Some culprit
    /\ path_store (n_ctx client2) !! k
       = Some (emit (CallBuildFailed culprit) (emit (CallNodeDBRemove culprit) (emit (MarkHopFail culprit) (with_hops cs p)))).
Proof.
  intros Hw Hro Hs Hk Hl Hun. destruct (failure_split _ _ _ _ _ Hro Hs) as (sts'&cs1&c&c2&cs2&n2&Est&Hok&Ecs&Hlc&Hn2&Hp2).
  destruct (client_starts_spec w k g client p _ Hw Hk Hl) as (cs&frames&client1&Es&Hse&Hlf&Hev&Hpub&Hpk&Hg).
  assert (length sts <= max_len)%nat as Hlst.
  { rewrite Est, length_app. cbn [length]. rewrite Ecs, length_app in Hl. cbn [length] in Hl. lia. }
  destruct (build_reports w _ _ _ _ Hro cs frames addr Hse Hlf Hun Hlst) as (ns'&sfs&id&Eb&Eid&Hsf&Hsl&Hre&Hbu&Hpu).
  cbn in Eid. injection Eid as <-. rewrite Hs in Eb. destruct (sealed_rcs _ _ _ _ Hse) as [Erc _].
  rewrite Ecs in Erc. destruct (map_split _ _ _ _ _ _ Erc) as (m1&u&v&m2&->&Hlm&Ev).
  set (culprit := rc_pubkey (h_rc c2)).
  destruct (client_hears w (Upstream p) k client1 _
    (emit (CallBuildFailed culprit) (emit (CallNodeDBRemove culprit) (emit (MarkHopFail culprit) (with_hops (m1 ++ u :: v :: m2) p))))
    FAIL_DEST_INVALID sfs (RXID p) Hev Hpk (Hg _) Hsf Hsl) as (client2&Er&Ep).
  { unfold Path_HandleLRSM. rewrite hops_with_hops by (by destruct m1). rewrite Est in Hre.
    rewrite (read_status_failure m1 (u :: v :: m2) FAIL_DEST_INVALID sts' sfs Hre) by (done || lia). cbn [obind lookup list_lookup fmap option_fmap option_map].
    rewrite Ev. done. }
  exists frames, client1, ns', (mkStatus sfs (RXID p) FAIL_DEST_INVALID), client2, (m1 ++ u :: v :: m2), culprit.
  split_and!; [exact Es|exact Eb|exact Er|by rewrite Hn2; cbn; rewrite Hp2|exact Ep].
Qed.
Lemma build_failure_is_blamed_witness : exists frames client1 ns' msg client2 cs,
  @client_starts toy_sodium demo_rc_item (demo_world false) 0 11 demo_client = Done (Some (frames, client1))
  /\ @build toy_sodium demo_rc_item (demo_world false) demo_nodes (replicate 32 7) None frames = Done (ns', (replicate 32 7, msg))
  /\ @receive_status toy_sodium demo_rc_item (demo_world false) (replicate 32 1) msg client1 = Done (client2, [])
  /\ path_store (n_ctx client2) !! 0%nat = Some (emit (CallBuildFailed (replicate 32 2)) (emit (CallNodeDBRemove (replicate 32 2))
       (emit (MarkHopFail (replicate 32 2)) (with_hops cs demo_build_path)))).
Proof.
  destruct (@build_failure_is_blamed toy_sodium toy_sodium_spec toy_honest demo_rc_item demo_rc_spec
    (demo_world false) demo_client 0 demo_build_path 11 None demo_nodes [FAIL_DEST_INVALID])
    as (frames&client1&ns'&msg&client2&cs&culprit&E1&E2&E3&Ec&E4).
  - exact demo_waits.
  - exact (demo_route false).
  - reflexivity.
  - exact demo_nodes_known.
  - vm_compute. lia.
  - intros n E a Ea. discriminate Ea.
  - cbn in Ec. injection Ec as <-. exists frames, client1, ns', msg, client2, cs. split; [exact E1|]. split; [exact E2|]. split; [exact E3|exact E4].
Defined.

(** ** Findings *)

(** A record with a lifetime of its own has two entries under the key [i]; the
    reader takes the second for a router id and rejects the record. *)
Definition short_lived : LR_CommitRecord :=
  r_lifetime 60000 (r_nextHop (replicate 32 1) (r_txid (replicate PATHIDSIZE 2) (r_rxid (replicate PATHIDSIZE 3) LR_CommitRecord_new))).
Lemma short_lifetime_unreadable :
  let '(ok, b) := @LR_CommitRecord_BEncode demo_rc_item short_lived (Buf (replicate 300 0) 0) in
  ok = true /\ match @LR_CommitRecord_BDecode demo_rc_item (set_cur b 0) with Done (read, _, _) => read = false | _ => False end.
Proof. vm_compute. by split. Qed.

(** A proof of work is written as an empty dictionary, and any other one is refused. *)
Lemma pow_not_written w : PoW_BEncode w (Buf (replicate 8 0) 0) = PoW_BEncode PoW_new (Buf (replicate 8 0) 0).
Proof. reflexivity. Qed.
