(* ===== verification/LinkMessages.v ===== *)
(** * Link messages

    The messages of [llarp/messages/] (relay, relay_commit, relay_status,
    link_intro, discard, dht_immediate), the list decoder of
    [llarp/dht/message.cpp], and the parser of [link_message_parser.cpp].  The
    parser keeps one object of each kind and decodes into it, so decoders take the
    object and return it, also when they fail.  A link session stands for the
    public key [GetPubKey] returns.  The codec of router contacts, the DHT messages
    and the router the handlers act on are interfaces. *)

From S2P Require Import Prelude Buffer Bencode Crypto Path PathBuild.
Open Scope Z_scope.

(** ** Messages *)

(** [ILinkMessage] *)
Record ILinkMessage := mkBase {
  session : option (list Z);
  version : Z;
  base_pathid : list Z }.
Definition set_session (v : option (list Z)) (x : ILinkMessage) : ILinkMessage :=
  mkBase v (version x) (base_pathid x).
Definition set_version (v : Z) (x : ILinkMessage) : ILinkMessage :=
  mkBase (session x) v (base_pathid x).
Definition set_base_pathid (v : list Z) (x : ILinkMessage) : ILinkMessage :=
  mkBase (session x) (version x) v.
Record RelayWire := mkRelayWire {
  rl_base : ILinkMessage;
  rl_X : Encrypted;
  rl_Y : list Z }.
Definition set_rl_base (v : ILinkMessage) (x : RelayWire) : RelayWire :=
  mkRelayWire v (rl_X x) (rl_Y x).
Definition set_rl_X (v : Encrypted) (x : RelayWire) : RelayWire :=
  mkRelayWire (rl_base x) v (rl_Y x).
Definition set_rl_Y (v : list Z) (x : RelayWire) : RelayWire :=
  mkRelayWire (rl_base x) (rl_X x) v.
Record CommitWire := mkCommitWire {
  cm_base : ILinkMessage;
  cm_frames : list Encrypted }.
Definition set_cm_base (v : ILinkMessage) (x : CommitWire) : CommitWire :=
  mkCommitWire v (cm_frames x).
Definition set_cm_frames (v : list Encrypted) (x : CommitWire) : CommitWire :=
  mkCommitWire (cm_base x) v.
(** [LR_StatusMessage] declares a [pathid] of its own, which hides the base's. *)
Record StatusWire := mkStatusWire {
  sm_base : ILinkMessage;
  sm_frames : list Encrypted;
  sm_pathid : list Z;
  sm_status : Z }.
Definition set_sm_base (v : ILinkMessage) (x : StatusWire) : StatusWire :=
  mkStatusWire v (sm_frames x) (sm_pathid x) (sm_status x).
Definition set_sm_frames (v : list Encrypted) (x : StatusWire) : StatusWire :=
  mkStatusWire (sm_base x) v (sm_pathid x) (sm_status x).
Definition set_sm_pathid (v : list Z) (x : StatusWire) : StatusWire :=
  mkStatusWire (sm_base x) (sm_frames x) v (sm_status x).
Definition set_sm_status (v : Z) (x : StatusWire) : StatusWire :=
  mkStatusWire (sm_base x) (sm_frames x) (sm_pathid x) v.
Record LinkIntro := mkLinkIntro {
  li_base : ILinkMessage;
  li_rc : HopRC;
  li_N : list Z;
  li_Z : list Z;
  li_P : Z }.
Definition set_li_base (v : ILinkMessage) (x : LinkIntro) : LinkIntro :=
  mkLinkIntro v (li_rc x) (li_N x) (li_Z x) (li_P x).
Definition set_li_rc (v : HopRC) (x : LinkIntro) : LinkIntro :=
  mkLinkIntro (li_base x) v (li_N x) (li_Z x) (li_P x).
Definition set_li_N (v : list Z) (x : LinkIntro) : LinkIntro :=
  mkLinkIntro (li_base x) (li_rc x) v (li_Z x) (li_P x).
Definition set_li_Z (v : list Z) (x : LinkIntro) : LinkIntro :=
  mkLinkIntro (li_base x) (li_rc x) (li_N x) v (li_P x).
Definition set_li_P (v : Z) (x : LinkIntro) : LinkIntro :=
  mkLinkIntro (li_base x) (li_rc x) (li_N x) (li_Z x) v.

(** The subclasses of [dht::IMessage] a text can name. *)
Inductive DhtType :=
  | FindName | GotName | FindIntro | FindRouter | RelayedFindRouter | GotRouter | PublishIntro | GotIntro | RelayedGotIntro.
(** [dht::IMessage]: construction for a sender, [DecodeKey] in place, [BEncode]. *)
Class DHTMessages := {
  IMessage : Type;
  dht_new : DhtType -> list Z -> bool -> IMessage;
  dht_DecodeKey : IMessage -> llarp_buffer_t -> llarp_buffer_t -> outcome (bool * llarp_buffer_t * IMessage);
  dht_BEncode : IMessage -> llarp_buffer_t -> bool * llarp_buffer_t }.
(** [RouterContact::BEncode], [Clear] and [BDecode], which starts with [Clear]. *)
Class ContactCodec := {
  rc_BEncode : HopRC -> llarp_buffer_t -> bool * llarp_buffer_t;
  rc_Clear : HopRC -> HopRC;
  rc_BDecode : HopRC -> llarp_buffer_t -> outcome (bool * HopRC * llarp_buffer_t) }.

Section Messages.
Context `{DHTMessages}.

Record DHTImmediate := mkDHT {
  dh_base : ILinkMessage;
  dh_msgs : list IMessage }.
Definition set_dh_base (v : ILinkMessage) (x : DHTImmediate) : DHTImmediate :=
  mkDHT v (dh_msgs x).
Definition set_dh_msgs (v : list IMessage) (x : DHTImmediate) : DHTImmediate :=
  mkDHT (dh_base x) v.

Inductive LinkMessage :=
  | MsgIntro (m : LinkIntro)
  | MsgDownstream (m : RelayWire)
  | MsgUpstream (m : RelayWire)
  | MsgDHT (m : DHTImmediate)
  | MsgCommit (m : CommitWire)
  | MsgStatus (m : StatusWire)
  | MsgDiscard (m : ILinkMessage).
Inductive Kind := KIntro | KDownstream | KUpstream | KDHT | KCommit | KStatus | KDiscard.

(** ** Codecs *)

(** Reading into an object that is there. *)
Definition MaybeReadInto {T} (dec : T -> llarp_buffer_t -> outcome (bool * T * llarp_buffer_t)) (k : list Z) (item : T) (read : bool)
    (key b : llarp_buffer_t) : outcome (bool * T * bool * llarp_buffer_t) :=
  if startswith key k then
    let! (ok, item, b) := dec item b in
    if ok then Done (true, item, true, b) else Done (false, item, read, b)
  else Done (true, item, read, b).

(** [BEncodeReadArray] of frames *)
Definition frame_sink : list_sink (list Encrypted * nat) := fun '(array, idx) b has =>
  if negb has then Done (true, b, (array, idx))
  else
    match array !! idx with
    | None => Done (false, b, (array, idx))
    | Some f =>
        let! (ok, f, b) := Encrypted_BDecode EncryptedFrameSize f b in
        Done (ok, b, (<[idx := f]> array, S idx))
    end.
Definition ReadFrames (fuel : nat) (frames : list Encrypted) (b : llarp_buffer_t) : outcome (bool * llarp_buffer_t * list Encrypted) :=
  let! (ok, b, (frames, _)) := bencode_read_list fuel frame_sink (frames, 0%nat) b in Done (ok, b, frames).
Fixpoint write_frames (l : list Encrypted) (b : llarp_buffer_t) : bool * llarp_buffer_t :=
  match l with
  | [] => (true, b)
  | f :: l => and_then (Encrypted_BEncode f b) (write_frames l)
  end.
Definition WriteFrames (k : list Z) (l : list Encrypted) (b : llarp_buffer_t) : bool * llarp_buffer_t :=
  and_then (bencode_write_bytestring b (take 1 k)) (fun b =>
  and_then (bencode_start_list b) (fun b => and_then (write_frames l b) bencode_end)).

(** *** Relayed traffic; [kind] is the message type, [u] or [d] *)

Definition Relay_BEncode (kind : Z) (m : RelayWire) (b : llarp_buffer_t) : bool * llarp_buffer_t :=
  and_then (bencode_start_dict b) (fun b =>
  and_then (BEncodeWriteDictMsgType b [97] [kind]) (fun b =>
  and_then (@BEncodeWriteDictEntry _ (aligned PATHIDSIZE) [112] (base_pathid (rl_base m)) b) (fun b =>
  and_then (BEncodeWriteDictInt [118] proto_version b) (fun b =>
  and_then (and_then (bencode_write_bytestring b (take 1 [120])) (Encrypted_BEncode (rl_X m))) (fun b =>
  and_then (@BEncodeWriteDictEntry _ (aligned TUNNONCESIZE) [121] (rl_Y m) b) bencode_end))))).
Definition Relay_DecodeKey (m : RelayWire) (key b : llarp_buffer_t) : outcome (bool * llarp_buffer_t * RelayWire) :=
  let! (ok, x, read, b) := @BEncodeMaybeReadDictEntry _ (aligned PATHIDSIZE) [112] (base_pathid (rl_base m)) false key b in
  if negb ok then Done (false, b, m) else let m := set_rl_base (set_base_pathid x (rl_base m)) m in
  let! (ok, v, read, b) := BEncodeMaybeVerifyVersion [118] (version (rl_base m)) proto_version read key b in
  if negb ok then Done (false, b, m) else let m := set_rl_base (set_version v (rl_base m)) m in
  let! (ok, x, read, b) := MaybeReadInto (Encrypted_BDecode relay_size) [120] (rl_X m) read key b in
  if negb ok then Done (false, b, set_rl_X x m) else let m := set_rl_X x m in
  let! (ok, x, read, b) := @BEncodeMaybeReadDictEntry _ (aligned TUNNONCESIZE) [121] (rl_Y m) read key b in
  if negb ok then Done (false, b, m) else Done (read, b, set_rl_Y x m).
Definition Relay_Clear (m : RelayWire) : RelayWire :=
  mkRelayWire (set_version 0 (set_base_pathid (replicate PATHIDSIZE 0) (rl_base m))) (Encrypted_Clear (rl_X m)) (replicate TUNNONCESIZE 0).

(** *** Path building *)

Definition Commit_BEncode (m : CommitWire) (b : llarp_buffer_t) : bool * llarp_buffer_t :=
  and_then (bencode_start_dict b) (fun b =>
  and_then (BEncodeWriteDictMsgType b [97] [99]) (fun b =>
  and_then (WriteFrames [99] (cm_frames m) b) (fun b =>
  and_then (bencode_write_uint64_entry b [118] proto_version) bencode_end))).
Definition Commit_DecodeKey (fuel : nat) (m : CommitWire) (key b : llarp_buffer_t) : outcome (bool * llarp_buffer_t * CommitWire) :=
  if startswith key [99] then
    let m := set_cm_base (set_base_pathid (replicate PATHIDSIZE 99) (cm_base m)) m in
    let! (ok, b, fs) := ReadFrames fuel (cm_frames m) b in Done (ok, b, set_cm_frames fs m)
  else
    let! (ok, v, read, b) := BEncodeMaybeVerifyVersion [118] (version (cm_base m)) proto_version false key b in
    if negb ok then Done (false, b, m) else Done (read, b, set_cm_base (set_version v (cm_base m)) m).
Definition Commit_Clear (m : CommitWire) : CommitWire :=
  mkCommitWire (set_version 0 (cm_base m)) (map Encrypted_Clear (cm_frames m)).

Definition Status_BEncode (m : StatusWire) (b : llarp_buffer_t) : bool * llarp_buffer_t :=
  and_then (bencode_start_dict b) (fun b =>
  and_then (BEncodeWriteDictMsgType b [97] [115]) (fun b =>
  and_then (WriteFrames [99] (sm_frames m) b) (fun b =>
  and_then (@BEncodeWriteDictEntry _ (aligned PATHIDSIZE) [112] (sm_pathid m) b) (fun b =>
  and_then (BEncodeWriteDictInt [115] (sm_status m) b) (fun b =>
  and_then (bencode_write_uint64_entry b [118] proto_version) bencode_end))))).
Definition Status_DecodeKey (fuel : nat) (m : StatusWire) (key b : llarp_buffer_t) : outcome (bool * llarp_buffer_t * StatusWire) :=
  if startswith key [99] then
    let! (ok, b, fs) := ReadFrames fuel (sm_frames m) b in Done (ok, b, set_sm_frames fs m)
  else if startswith key [112] then
    let! (ok, x, read, b) := @BEncodeMaybeReadDictEntry _ (aligned PATHIDSIZE) [112] (sm_pathid m) false key b in
    if negb ok then Done (false, b, m) else Done (read, b, set_sm_pathid x m)
  else if startswith key [115] then
    let! (ok, v, read, b) := BEncodeMaybeReadDictInt 64 [115] (sm_status m) false key b in
    if negb ok then Done (false, b, m) else Done (read, b, set_sm_status v m)
  else if startswith key [118] then
    let! (ok, v, read, b) := BEncodeMaybeVerifyVersion [118] (version (sm_base m)) proto_version false key b in
    if negb ok then Done (false, b, m) else Done (read, b, set_sm_base (set_version v (sm_base m)) m)
  else Done (false, b, m).
Definition Status_Clear (m : StatusWire) : StatusWire :=
  mkStatusWire (set_version 0 (sm_base m)) (map Encrypted_Clear (sm_frames m)) (sm_pathid m) 0.

(** The value of a message type, one character. *)
Definition read_type (b : llarp_buffer_t) : outcome (option Z * llarp_buffer_t) :=
  let! (strbuf, b) := bencode_read_string b in
  match strbuf with
  | Some s => if bool_decide (sz s = 1%nat) then let! c := deref s in Done (Some c, b) else Done (None, b)
  | None => Done (None, b)
  end.
Definition is_type (c : Z) (t : option Z) : bool := match t with Some x => x =? c | None => false end.

(** *** DHT messages *)

Definition dht_type (relayed : bool) (c : Z) : option DhtType :=
  if c =? 78 then Some FindName else if c =? 77 then Some GotName else if c =? 70 then Some FindIntro
  else if c =? 82 then Some (if relayed then RelayedFindRouter else FindRouter)
  else if c =? 83 then Some GotRouter else if c =? 73 then Some PublishIntro
  else if c =? 71 then Some (if relayed then RelayedGotIntro else GotIntro) else None.
(** [MessageDecoder::operator()]; [firstKey] holds as long as there is no [msg]. *)
Definition MessageDecoder (From : list Z) (relayed : bool) : dict_sink (option IMessage) := fun msg b key =>
  match key, msg with
  | None, None => Done (false, b, msg)
  | None, Some _ => Done (true, b, msg)
  | Some key, None =>
      if negb (startswith key [65]) then Done (false, b, msg)
      else
        let! (t, b) := read_type b in
        match t with
        | None => Done (false, b, msg)
        | Some c =>
            match dht_type relayed c with
            | None => Done (false, b, msg)
            | Some ty => Done (true, b, Some (dht_new ty From relayed))
            end
        end
  | Some key, Some m => let! (ok, b, m) := dht_DecodeKey m key b in Done (ok, b, Some m)
  end.
Definition DecodeMesssage (fuel : nat) (from : list Z) (b : llarp_buffer_t) (relayed : bool) : outcome (option IMessage * llarp_buffer_t) :=
  let! (ok, b, msg) := bencode_read_dict fuel (MessageDecoder from relayed) None b in
  if negb ok then Done (None, b) else Done (msg, b).
Definition ListDecoder (fuel : nat) (relayed : bool) (From : list Z) : list_sink (list IMessage) := fun l b has =>
  if negb has then Done (true, b, l)
  else
    let! (msg, b) := DecodeMesssage fuel From b relayed in
    match msg with
    | Some m => Done (true, b, l ++ [m])
    | None => Done (false, b, l)
    end.
Definition DecodeMesssageList (fuel : nat) (from : list Z) (b : llarp_buffer_t) (list : list IMessage) (relayed : bool) :=
  bencode_read_list fuel (ListDecoder fuel relayed from) list b.

Fixpoint write_msgs (l : list IMessage) (b : llarp_buffer_t) : bool * llarp_buffer_t :=
  match l with
  | [] => (true, b)
  | m :: l => and_then (dht_BEncode m b) (write_msgs l)
  end.
Definition DHT_BEncode (m : DHTImmediate) (b : llarp_buffer_t) : bool * llarp_buffer_t :=
  and_then (bencode_start_dict b) (fun b =>
  and_then (bencode_write_bytestring b [97]) (fun b =>
  and_then (bencode_write_bytestring b [109]) (fun b =>
  and_then (bencode_write_bytestring b [109]) (fun b =>
  and_then (bencode_start_list b) (fun b =>
  and_then (write_msgs (dh_msgs m) b) (fun b =>
  and_then (bencode_end b) (fun b =>
  and_then (bencode_write_uint64_entry b [118] proto_version) bencode_end))))))).
(** The session is dereferenced for its key. *)
Definition DHT_DecodeKey (fuel : nat) (m : DHTImmediate) (key b : llarp_buffer_t) : outcome (bool * llarp_buffer_t * DHTImmediate) :=
  if startswith key [109] then
    match session (dh_base m) with
    | None => Fault
    | Some from =>
        let! (ok, b, l) := DecodeMesssageList fuel from b (dh_msgs m) false in Done (ok, b, set_dh_msgs l m)
    end
  else if startswith key [118] then
    let! (v, b) := bencode_read_integer b in
    Done (match v with Some v => (v =? proto_version, b, set_dh_base (set_version v (dh_base m)) m) | None => (false, b, m) end)
  else Done (false, b, m).
Definition DHT_Clear (m : DHTImmediate) : DHTImmediate := mkDHT (set_version 0 (dh_base m)) [].

(** *** Discarded messages *)

Definition Discard_BEncode (m : ILinkMessage) (b : llarp_buffer_t) : bool * llarp_buffer_t :=
  and_then (bencode_start_dict b) (fun b =>
  and_then (bencode_write_bytestring b [97]) (fun b =>
  and_then (bencode_write_bytestring b [120]) bencode_end)).
Definition Discard_DecodeKey (m : ILinkMessage) (key b : llarp_buffer_t) : outcome (bool * llarp_buffer_t * ILinkMessage) :=
  if startswith key [97] then let! (t, b) := read_type b in Done (is_type 120 t, b, m) else Done (false, b, m).
Definition Discard_Clear (m : ILinkMessage) : ILinkMessage := set_version 0 m.

(** *** Introductions *)

Context `{ContactCodec}.
Definition Intro_BEncode (m : LinkIntro) (b : llarp_buffer_t) : bool * llarp_buffer_t :=
  and_then (bencode_start_dict b) (fun b =>
  and_then (bencode_write_bytestring b [97]) (fun b =>
  and_then (bencode_write_bytestring b [105]) (fun b =>
  and_then (bencode_write_bytestring b [110]) (fun b =>
  and_then (aligned_BEncode (li_N m) b) (fun b =>
  and_then (bencode_write_bytestring b [112]) (fun b =>
  and_then (bencode_write_uint64 b (li_P m)) (fun b =>
  and_then (bencode_write_bytestring b [114]) (fun b =>
  and_then (rc_BEncode (li_rc m) b) (fun b =>
  and_then (bencode_write_uint64_entry b [118] proto_version) (fun b =>
  and_then (bencode_write_bytestring b [122]) (fun b =>
  and_then (aligned_BEncode (li_Z m) b) bencode_end))))))))))).
(** The warning for an unknown key reads the key's first byte; an empty key ends
    where the buffer goes on. *)
Definition Intro_DecodeKey (m : LinkIntro) (key b : llarp_buffer_t) : outcome (bool * llarp_buffer_t * LinkIntro) :=
  if startswith key [97] then let! (t, b) := read_type b in Done (is_type 105 t, b, m)
  else if startswith key [110] then
    let! (x, b) := aligned_BDecode 32 b in
    Done (match x with Some x => (true, b, set_li_N x m) | None => (false, b, m) end)
  else if startswith key [112] then
    let! (v, b) := bencode_read_integer b in
    Done (match v with Some v => (true, b, set_li_P v m) | None => (false, b, m) end)
  else if startswith key [114] then
    let! (ok, rc, b) := rc_BDecode (li_rc m) b in Done (ok, b, set_li_rc rc m)
  else if startswith key [118] then
    let! (v, b) := bencode_read_integer b in
    Done (match v with Some v => (v =? proto_version, b, set_li_base (set_version v (li_base m)) m) | None => (false, b, m) end)
  else if startswith key [122] then
    let! (x, b) := aligned_BDecode 64 b in
    Done (match x with Some x => (true, b, set_li_Z x m) | None => (false, b, m) end)
  else let! _ := (if bool_decide (sz key = 0%nat) then deref b else deref key) in Done (false, b, m).
Definition Intro_Clear (m : LinkIntro) : LinkIntro :=
  mkLinkIntro (set_version 0 (li_base m)) (rc_Clear (li_rc m)) (replicate 32 0) (replicate 64 0) 0.

Definition MAX_RC_SIZE : nat := 1024.
Definition LIM_MaxSize : nat := MAX_RC_SIZE + 256.
(** What [Sign] and [Verify] sign: the text with a zero signature. *)
Definition signed_text (m : LinkIntro) : option (list Z) :=
  let '(ok, b) := Intro_BEncode (set_li_Z (replicate 64 0) m) (Buf (replicate LIM_MaxSize 0) 0) in
  if ok then Some (take (cur b) (base b)) else None.
Definition Intro_Sign (signer : list Z -> option (list Z)) (m : LinkIntro) : bool * LinkIntro :=
  let m := set_li_Z (replicate 64 0) m in
  match signed_text m with
  | None => (false, m)
  | Some buf => match signer buf with Some z => (true, set_li_Z z m) | None => (false, m) end
  end.

Definition LinkMessage_BEncode (m : LinkMessage) : llarp_buffer_t -> bool * llarp_buffer_t :=
  match m with
  | MsgIntro m => Intro_BEncode m
  | MsgDownstream m => Relay_BEncode 100 m
  | MsgUpstream m => Relay_BEncode 117 m
  | MsgDHT m => DHT_BEncode m
  | MsgCommit m => Commit_BEncode m
  | MsgStatus m => Status_BEncode m
  | MsgDiscard m => Discard_BEncode m
  end.

(** ** Handlers *)

(** The router: [GotLIM] of the session, the path context behind relayed traffic
    and path building, the DHT, and [SendToOrQueue]; [rc_Verify] at a time. *)
Class LinkRouter (R : Type) := {
  time_now_ms : R -> Z;
  rc_Verify : Z -> HopRC -> bool;
  GotLIM : list Z -> LinkIntro -> R -> bool * R;
  handle_upstream : list Z -> RelayWire -> R -> bool * R;
  handle_downstream : list Z -> RelayWire -> R -> bool * R;
  handle_commit : list Z -> CommitWire -> R -> bool * R;
  handle_status : list Z -> StatusWire -> R -> bool * R;
  dht_HandleMessage : IMessage -> R -> list IMessage -> bool * R * list IMessage;
  SendToOrQueue : list Z -> list IMessage -> R -> bool * R }.

Context `{Sodium} {R : Type} `{LinkRouter R}.

Definition Intro_Verify (now : Z) (m : LinkIntro) : bool :=
  match signed_text m with
  | None => false
  | Some buf => verify (rc_pubkey (li_rc m)) buf (li_Z m) && rc_Verify now (li_rc m)
  end.
Fixpoint dht_handle_all (l : list IMessage) (result : bool) (reply : list IMessage) (r : R) : bool * list IMessage * R :=
  match l with
  | [] => (result, reply, r)
  | m :: l => let '(ok, r, reply) := dht_HandleMessage m r reply in dht_handle_all l (result && ok) reply r
  end.
(** The result of the single messages and of the reply is not returned. *)
Definition DHT_HandleMessage (peer : list Z) (m : DHTImmediate) (r : R) : bool * R :=
  let '(result, reply, r) := dht_handle_all (dh_msgs m) true [] r in
  if bool_decide (reply = []) || negb result then (true, r) else (true, (SendToOrQueue peer reply r).2).
(** A handler that needs the session faults without one. *)
Definition with_session (base : ILinkMessage) (f : list Z -> bool * R) : outcome (bool * R) :=
  match session base with Some peer => Done (f peer) | None => Fault end.
(** [msg->HandleMessage(router)] *)
Definition HandleMessage (m : LinkMessage) (r : R) : outcome (bool * R) :=
  match m with
  | MsgIntro m =>
      if negb (Intro_Verify (time_now_ms r) m) then Done (false, r) else with_session (li_base m) (fun peer => GotLIM peer m r)
  | MsgDownstream m => with_session (rl_base m) (fun peer => handle_downstream peer m r)
  | MsgUpstream m => with_session (rl_base m) (fun peer => handle_upstream peer m r)
  | MsgDHT m => with_session (dh_base m) (fun peer => DHT_HandleMessage peer m r)
  | MsgCommit m => with_session (cm_base m) (fun peer => handle_commit peer m r)
  | MsgStatus m => with_session (sm_base m) (fun peer => handle_status peer m r)
  | MsgDiscard _ => Done (true, r)
  end.

(** ** The parser *)

Record Holder := mkHolder {
  h_i : LinkIntro;
  h_d : RelayWire;
  h_u : RelayWire;
  h_m : DHTImmediate;
  h_c : CommitWire;
  h_s : StatusWire;
  h_x : ILinkMessage }.
Definition set_h_i (v : LinkIntro) (x : Holder) : Holder :=
  mkHolder v (h_d x) (h_u x) (h_m x) (h_c x) (h_s x) (h_x x).
Definition set_h_d (v : RelayWire) (x : Holder) : Holder :=
  mkHolder (h_i x) v (h_u x) (h_m x) (h_c x) (h_s x) (h_x x).
Definition set_h_u (v : RelayWire) (x : Holder) : Holder :=
  mkHolder (h_i x) (h_d x) v (h_m x) (h_c x) (h_s x) (h_x x).
Definition set_h_m (v : DHTImmediate) (x : Holder) : Holder :=
  mkHolder (h_i x) (h_d x) (h_u x) v (h_c x) (h_s x) (h_x x).
Definition set_h_c (v : CommitWire) (x : Holder) : Holder :=
  mkHolder (h_i x) (h_d x) (h_u x) (h_m x) v (h_s x) (h_x x).
Definition set_h_s (v : StatusWire) (x : Holder) : Holder :=
  mkHolder (h_i x) (h_d x) (h_u x) (h_m x) (h_c x) v (h_x x).
Definition set_h_x (v : ILinkMessage) (x : Holder) : Holder :=
  mkHolder (h_i x) (h_d x) (h_u x) (h_m x) (h_c x) (h_s x) v.
(** [msg] points into the holder; [router] is what the handlers act on. *)
Record LinkMessageParser := mkParser {
  firstkey : bool;
  router : R;
  from : option (list Z);
  msg : option Kind;
  holder : Holder }.
Definition set_firstkey (v : bool) (x : LinkMessageParser) : LinkMessageParser :=
  mkParser v (router x) (from x) (msg x) (holder x).
Definition set_router (v : R) (x : LinkMessageParser) : LinkMessageParser :=
  mkParser (firstkey x) v (from x) (msg x) (holder x).
Definition set_from (v : option (list Z)) (x : LinkMessageParser) : LinkMessageParser :=
  mkParser (firstkey x) (router x) v (msg x) (holder x).
Definition set_msg (v : option Kind) (x : LinkMessageParser) : LinkMessageParser :=
  mkParser (firstkey x) (router x) (from x) v (holder x).
Definition set_holder (v : Holder) (x : LinkMessageParser) : LinkMessageParser :=
  mkParser (firstkey x) (router x) (from x) (msg x) v.

Definition kind_of (c : Z) : option Kind :=
  if c =? 105 then Some KIntro else if c =? 100 then Some KDownstream else if c =? 117 then Some KUpstream
  else if c =? 109 then Some KDHT else if c =? 99 then Some KCommit else if c =? 115 then Some KStatus
  else if c =? 120 then Some KDiscard else None.
Definition held (k : Kind) (h : Holder) : LinkMessage :=
  match k with
  | KIntro => MsgIntro (h_i h) | KDownstream => MsgDownstream (h_d h) | KUpstream => MsgUpstream (h_u h) | KDHT => MsgDHT (h_m h)
  | KCommit => MsgCommit (h_c h) | KStatus => MsgStatus (h_s h) | KDiscard => MsgDiscard (h_x h)
  end.
Definition hold (m : LinkMessage) (h : Holder) : Holder :=
  match m with
  | MsgIntro m => set_h_i m h | MsgDownstream m => set_h_d m h | MsgUpstream m => set_h_u m h | MsgDHT m => set_h_m m h
  | MsgCommit m => set_h_c m h | MsgStatus m => set_h_s m h | MsgDiscard m => set_h_x m h
  end.
(** The part every message has. *)
Definition base_of (m : LinkMessage) : ILinkMessage :=
  match m with
  | MsgIntro m => li_base m | MsgDownstream m | MsgUpstream m => rl_base m | MsgDHT m => dh_base m
  | MsgCommit m => cm_base m | MsgStatus m => sm_base m | MsgDiscard m => m
  end.
Definition set_base_of (v : ILinkMessage) (m : LinkMessage) : LinkMessage :=
  match m with
  | MsgIntro m => MsgIntro (set_li_base v m) | MsgDownstream m => MsgDownstream (set_rl_base v m)
  | MsgUpstream m => MsgUpstream (set_rl_base v m) | MsgDHT m => MsgDHT (set_dh_base v m)
  | MsgCommit m => MsgCommit (set_cm_base v m) | MsgStatus m => MsgStatus (set_sm_base v m) | MsgDiscard _ => MsgDiscard v
  end.
Definition lift_msg {M} (c : M -> LinkMessage) (r : outcome (bool * llarp_buffer_t * M)) : outcome (bool * llarp_buffer_t * LinkMessage) :=
  let! (ok, b, m) := r in Done (ok, b, c m).
(** [msg->DecodeKey] *)
Definition DecodeKey (fuel : nat) (m : LinkMessage) (key b : llarp_buffer_t) : outcome (bool * llarp_buffer_t * LinkMessage) :=
  match m with
  | MsgIntro m => lift_msg MsgIntro (Intro_DecodeKey m key b)
  | MsgDownstream m => lift_msg MsgDownstream (Relay_DecodeKey m key b)
  | MsgUpstream m => lift_msg MsgUpstream (Relay_DecodeKey m key b)
  | MsgDHT m => lift_msg MsgDHT (DHT_DecodeKey fuel m key b)
  | MsgCommit m => lift_msg MsgCommit (Commit_DecodeKey fuel m key b)
  | MsgStatus m => lift_msg MsgStatus (Status_DecodeKey fuel m key b)
  | MsgDiscard m => lift_msg MsgDiscard (Discard_DecodeKey m key b)
  end.
(** [msg->Clear] *)
Definition Clear (m : LinkMessage) : LinkMessage :=
  match m with
  | MsgIntro m => MsgIntro (Intro_Clear m)
  | MsgDownstream m => MsgDownstream (Relay_Clear m)
  | MsgUpstream m => MsgUpstream (Relay_Clear m)
  | MsgDHT m => MsgDHT (DHT_Clear m)
  | MsgCommit m => MsgCommit (Commit_Clear m)
  | MsgStatus m => MsgStatus (Status_Clear m)
  | MsgDiscard m => MsgDiscard (Discard_Clear m)
  end.

Definition Reset (p : LinkMessageParser) : LinkMessageParser :=
  set_msg None (match msg p with Some k => set_holder (hold (Clear (held k (holder p))) (holder p)) p | None => p end).
Definition MessageDone (p : LinkMessageParser) : outcome (bool * LinkMessageParser) :=
  match msg p with
  | Some k => let! (result, r) := HandleMessage (held k (holder p)) (router p) in Done (result, Reset (set_router r p))
  | None => Done (false, Reset p)
  end.

(** [operator()] *)
Definition parse_key (fuel : nat) : dict_sink LinkMessageParser := fun p b key =>
  if firstkey p then
    match key with
    | None => Done (false, b, p)
    | Some key =>
        if negb (startswith key [97]) then Done (false, b, p)
        else
          let! (t, b) := read_type b in
          match t with
          | None => Done (false, b, p)
          | Some c =>
              match kind_of c with
              | None => Done (false, b, p)
              | Some k =>
                  let m := held k (holder p) in
                  let m := set_base_of (set_session (from p) (base_of m)) m in
                  Done (true, b, set_firstkey false (set_holder (hold m (holder p)) (set_msg (Some k) p)))
              end
          end
    end
  else
    match key with
    | None => let! (ok, p) := MessageDone p in Done (ok, b, p)
    | Some key =>
        match msg p with
        | None => Fault
        | Some k =>
            let! (ok, b, m) := DecodeKey fuel (held k (holder p)) key b in
            Done (ok, b, set_holder (hold m (holder p)) p)
        end
    end.
(** The buffer is copied, so the caller's cursor does not move. *)
Definition ProcessFrom (src : option (list Z)) (buf : llarp_buffer_t) (p : LinkMessageParser) : outcome (bool * LinkMessageParser) :=
  match src with
  | None => Done (false, p)
  | Some _ =>
      let p := set_firstkey true (set_from src p) in
      let! (ok, _, p) := bencode_read_dict (S (S (sz buf))) (parse_key (S (S (sz buf)))) p buf in Done (ok, p)
  end.
End Messages.
