(* ===== verification/LinkMessageProofs.v ===== *)
(** * Link messages are read back

    The text of each message of [LinkMessages], that [BEncode] writes it, and that
    the parser, whatever an earlier message left in its holder, hands exactly the
    message that was written to its handler. *)

From S2P Require Import Prelude Buffer Bencode Crypto Path PathBuild LinkMessages.
Open Scope Z_scope.

(** ** Encrypted fields *)

Definition blob_ok (n : nat) (e : Encrypted) : Prop := length (ebuf e) = n /\ (esz e <= n)%nat.
Definition blob_text (e : Encrypted) : list Z := enc_str (contents e).
(** What [BDecode] leaves in [old] for the text of [e]. *)
Definition blob_into (old e : Encrypted) : Encrypted := mkEncrypted (store (ebuf old) 0 (contents e)) (esz e).

Lemma length_contents n e : blob_ok n e -> length (contents e) = esz e.
Proof. intros []. unfold contents. rewrite length_take. lia. Qed.

Lemma blob_into_ok n old e : blob_ok n old -> blob_ok n e -> blob_ok n (blob_into old e).
Proof.
  intros [Ho _] He. pose proof (length_contents _ _ He) as Hc. destruct He. split; [|done].
  cbn [ebuf blob_into]. rewrite length_store; lia.
Qed.

Lemma blob_into_contents n old e : blob_ok n e -> contents (blob_into old e) = contents e.
Proof.
  intros He. unfold contents at 1. cbn [ebuf esz blob_into]. unfold store. rewrite take_0. cbn [app].
  apply take_app_length'. symmetry. apply (length_contents _ _ He).
Qed.

Lemma blob_reads n old e b rest : blob_ok n old -> blob_ok n e -> Z.of_nat n < 10 ^ 9 -> rem b = blob_text e ++ rest ->
  Encrypted_BDecode n old b = Done (true, blob_into old e, advance (length (blob_text e)) b).
Proof.
  intros [Ho _] He Hn E. pose proof (length_contents _ _ He) as Hc. destruct He.
  rewrite (blob_decodes n old b (contents e) rest Ho) by (done || lia). unfold blob_into. by rewrite Hc.
Qed.

Lemma writes_blob n e : blob_ok n e -> Z.of_nat n < 10 ^ 9 -> writes (Encrypted_BEncode e) (blob_text e).
Proof. intros He Hn. pose proof (length_contents _ _ He). destruct He. apply writes_bytestring. fold (contents e). lia. Qed.

(** ** Arrays of frames *)

Definition frame_ok : Encrypted -> Prop := blob_ok EncryptedFrameSize.
Definition frames_text (l : list Encrypted) : list Z := ch_l :: flat_map blob_text l ++ [ch_e].
Definition frames_into (old l : list Encrypted) : list Encrypted := zip_with blob_into old l.

Lemma frame_size_small : Z.of_nat EncryptedFrameSize < 10 ^ 9.
Proof. vm_compute. reflexivity. Qed.
Lemma relay_size_small : Z.of_nat relay_size < 10 ^ 9.
Proof. vm_compute. reflexivity. Qed.
#[local] Hint Resolve frame_size_small relay_size_small : belnet.

Lemma blob_text_head e : exists c t, blob_text e = c :: t /\ c <> ch_e.
Proof. unfold blob_text. destruct (enc_str_head (contents e)) as (c&t&->&Hc). exists c, t. split; [done|]. intros ->. discriminate Hc. Qed.

Lemma frames_loop l : forall fuel pre old b rest, Forall frame_ok l -> Forall frame_ok old -> length old = length l ->
  rem b = flat_map blob_text l ++ ch_e :: rest -> (length l < fuel)%nat ->
  read_list_loop fuel frame_sink (pre ++ old, length pre) b
  = Done (true, advance (length (flat_map blob_text l)) b, (pre ++ frames_into old l, (length pre + length l)%nat)).
Proof.
  induction l as [|f l IH]; intros [|fuel] pre old b rest Hl Ho Hn E Hf; cbn [length] in *; try lia.
  - destruct old; [|done]. cbn [flat_map app] in E. pose proof (rem_wf _ _ _ E) as Hw. cbn [read_list_loop flat_map length frames_into zip_with].
    rewrite size_left_rem, bool_decide_eq_false_2, (deref_rem _ _ _ E) by (done || by rewrite E).
    cbn [obind]. rewrite Z.eqb_refl, Nat.add_0_r. f_equal. f_equal. f_equal. unfold advance. destruct b. cbn. f_equal. lia.
  - destruct old as [|o old]; [done|]. apply Forall_cons in Hl as [Hfr Hl], Ho as [Hor Ho]. injection Hn as Hn.
    cbn [flat_map] in E. rewrite <- app_assoc in E. destruct (blob_text_head f) as (c&t&Ec&Hc).
    pose proof E as E0. rewrite Ec in E0. cbn [app] in E0. pose proof (rem_wf _ _ _ E0) as Hw. cbn [read_list_loop].
    rewrite size_left_rem, bool_decide_eq_false_2, (deref_rem _ _ _ E0) by (done || by rewrite E0).
    cbn [obind]. rewrite (proj2 (Z.eqb_neq c ch_e)) by done. unfold frame_sink at 1. cbn [negb].
    rewrite list_lookup_middle by done. rewrite (blob_reads _ o f b _ Hor Hfr frame_size_small E). cbn [obind negb].
    rewrite insert_app_r_alt, Nat.sub_diag by lia. cbn [insert list_insert].
    pose proof (IH fuel (pre ++ [blob_into o f]) old (advance (length (blob_text f)) b) rest Hl Ho Hn (rem_app _ _ _ E) ltac:(lia)) as H.
    rewrite length_app, <- !app_assoc in H. cbn [length app] in H. rewrite Nat.add_1_r in H. rewrite H.
    cbn [flat_map frames_into zip_with]. rewrite length_app. f_equal. f_equal; [f_equal|f_equal; lia]. unfold advance. destruct b. cbn. f_equal. lia.
Qed.

Lemma frames_read l old fuel b rest : Forall frame_ok l -> Forall frame_ok old -> length old = length l ->
  rem b = frames_text l ++ rest -> (length l < fuel)%nat ->
  ReadFrames fuel old b = Done (true, advance (length (frames_text l)) b, frames_into old l).
Proof.
  intros Hl Ho Hn E Hf. unfold frames_text in E. cbn [app] in E. rewrite <- app_assoc in E. cbn [app] in E.
  pose proof (rem_wf _ _ _ E) as Hw. pose proof (rem_app b [ch_l] _ E) as E1. change (length [ch_l]) with 1%nat in E1.
  unfold ReadFrames, bencode_read_list. rewrite size_left_rem, bool_decide_eq_false_2, (deref_rem _ _ _ E) by (done || rewrite E; cbn; rewrite length_app; cbn; lia).
  cbn [obind]. rewrite Z.eqb_refl. cbn [negb].
  pose proof (frames_loop l fuel [] old (advance 1 b) rest Hl Ho Hn E1 Hf) as H. cbn [app length] in H. rewrite H. cbn [obind negb].
  rewrite (deref_rem _ _ _ (rem_app _ _ _ E1)). cbn [obind]. rewrite Z.eqb_refl. cbn [negb frame_sink obind].
  f_equal. f_equal. f_equal. unfold frames_text, advance. destruct b. cbn [Buffer.base Buffer.cur]. f_equal. cbn [length]. rewrite length_app. cbn. lia.
Qed.

Lemma writes_frames l : Forall frame_ok l -> writes (write_frames l) (flat_map blob_text l).
Proof.
  induction 1 as [|f l Hf Hl IH]; [apply writes_nil|]. cbn [write_frames flat_map].
  apply (writes_then (Encrypted_BEncode f)); [by apply (writes_blob EncryptedFrameSize); auto with belnet|done].
Qed.

Lemma writes_frame_entry k l : Forall frame_ok l -> writes (WriteFrames [k] l) (enc_str [k] ++ frames_text l).
Proof.
  intros Hl. unfold WriteFrames, frames_text. apply writes_then; [by apply (writes_bytestring [k])|].
  change (ch_l :: ?t) with ([ch_l] ++ t). apply writes_then; [apply writes_byte|]. apply writes_then; [by apply writes_frames|apply writes_byte].
Qed.

(** ** Texts *)

(** Reading the text of a contact gives the contact, whatever the object held. *)
Class ContactSpec `{ContactCodec} := {
  rc_ok : HopRC -> Prop;
  rc_text : HopRC -> list Z;
  rc_decodes old x b rest : rc_ok x -> rem b = rc_text x ++ rest -> rc_BDecode old b = Done (true, x, advance (length (rc_text x)) b);
  rc_writes x : rc_ok x -> writes (rc_BEncode x) (rc_text x) }.

Section RoundTrip.
Context `{DHTMessages} `{ContactCodec} {CS : ContactSpec} `{Sodium} {R : Type} {LR : LinkRouter R}.

(** The kinds of message whose fields are all modelled. *)
Definition wire_ok (m : LinkMessage) : Prop :=
  match m with
  | MsgIntro m => length (li_N m) = 32%nat /\ length (li_Z m) = 64%nat /\ in_width 64 (li_P m) /\ rc_ok (li_rc m)
  | MsgDownstream m | MsgUpstream m =>
      length (base_pathid (rl_base m)) = PATHIDSIZE /\ length (rl_Y m) = TUNNONCESIZE /\ blob_ok relay_size (rl_X m)
  | MsgDHT _ => False
  | MsgCommit m => Forall frame_ok (cm_frames m) /\ length (cm_frames m) = 8%nat
  | MsgStatus m =>
      Forall frame_ok (sm_frames m) /\ length (sm_frames m) = 8%nat /\ length (sm_pathid m) = PATHIDSIZE /\ in_width 64 (sm_status m)
  | MsgDiscard _ => True
  end.
(** The arrays of the holder have their sizes; nothing is asked of their content. *)
Definition holder_ok (h : Holder) : Prop :=
  blob_ok relay_size (rl_X (h_d h)) /\ blob_ok relay_size (rl_X (h_u h))
  /\ (Forall frame_ok (cm_frames (h_c h)) /\ length (cm_frames (h_c h)) = 8%nat)
  /\ Forall frame_ok (sm_frames (h_s h)) /\ length (sm_frames (h_s h)) = 8%nat.

Definition kind (m : LinkMessage) : Kind :=
  match m with
  | MsgIntro _ => KIntro | MsgDownstream _ => KDownstream | MsgUpstream _ => KUpstream | MsgDHT _ => KDHT
  | MsgCommit _ => KCommit | MsgStatus _ => KStatus | MsgDiscard _ => KDiscard
  end.
Definition type_char (m : LinkMessage) : Z :=
  match m with
  | MsgIntro _ => 105 | MsgDownstream _ => 100 | MsgUpstream _ => 117 | MsgDHT _ => 109
  | MsgCommit _ => 99 | MsgStatus _ => 115 | MsgDiscard _ => 120
  end.
Definition entries (m : LinkMessage) : list (Z * list Z) :=
  match m with
  | MsgIntro m => [(110, enc_str (li_N m)); (112, enc_int (li_P m)); (114, rc_text (li_rc m)); (118, enc_int proto_version); (122, enc_str (li_Z m))]
  | MsgDownstream m | MsgUpstream m =>
      [(112, enc_str (base_pathid (rl_base m))); (118, enc_int proto_version); (120, blob_text (rl_X m)); (121, enc_str (rl_Y m))]
  | MsgCommit m => [(99, frames_text (cm_frames m)); (118, enc_int proto_version)]
  | MsgStatus m =>
      [(99, frames_text (sm_frames m)); (112, enc_str (sm_pathid m)); (115, enc_int (sm_status m)); (118, enc_int proto_version)]
  | MsgDHT _ | MsgDiscard _ => []
  end.
Definition entry_text (x : Z * list Z) : list Z := enc_str [x.1] ++ x.2.
Definition typed_text (c : Z) (l : list (Z * list Z)) : list Z :=
  ch_d :: enc_str [97] ++ enc_str [c] ++ flat_map entry_text l ++ [ch_e].
Definition message_text (m : LinkMessage) : list Z := typed_text (type_char m) (entries m).

(** [m'] is [m] as received from [peer]. *)
Definition received (peer : list Z) (m m' : LinkMessage) : Prop :=
  session (base_of m') = Some peer /\
  match m, m' with
  | MsgIntro a, MsgIntro b =>
      li_N b = li_N a /\ li_Z b = li_Z a /\ li_P b = li_P a /\ li_rc b = li_rc a /\ version (li_base b) = proto_version
  | MsgDownstream a, MsgDownstream b | MsgUpstream a, MsgUpstream b =>
      base_pathid (rl_base b) = base_pathid (rl_base a) /\ contents (rl_X b) = contents (rl_X a) /\ rl_Y b = rl_Y a
      /\ version (rl_base b) = proto_version
  | MsgCommit a, MsgCommit b => map contents (cm_frames b) = map contents (cm_frames a) /\ version (cm_base b) = proto_version
  | MsgStatus a, MsgStatus b =>
      map contents (sm_frames b) = map contents (sm_frames a) /\ sm_pathid b = sm_pathid a /\ sm_status b = sm_status a
      /\ version (sm_base b) = proto_version
  | MsgDiscard _, MsgDiscard _ => True
  | _, _ => False
  end.

(** ** Writing *)

Lemma writes_eq w t t' : writes w t -> t = t' -> writes w t'.
Proof. by intros Hw <-. Qed.

Lemma writes_char c : writes (fun b => bencode_write_bytestring b [c]) (enc_str [c]).
Proof. by apply writes_bytestring. Qed.
Lemma writes_type c : writes (fun b => BEncodeWriteDictMsgType b [97] [c]) (enc_str [97] ++ enc_str [c]).
Proof. apply writes_then; apply writes_char. Qed.
Lemma writes_version : writes (fun b => bencode_write_uint64_entry b [118] proto_version) (enc_str [118] ++ enc_int proto_version).
Proof. apply writes_then; [apply writes_char|by apply writes_uint64]. Qed.
Lemma writes_X e : blob_ok relay_size e ->
  writes (fun b => and_then (bencode_write_bytestring b (take 1 [120])) (Encrypted_BEncode e)) (enc_str [120] ++ blob_text e).
Proof. intros He. apply writes_then; [apply (writes_char 120)|]. apply (writes_blob relay_size); auto with belnet. Qed.
Lemma writes_array n x : Z.of_nat n < 10 ^ 9 -> length x = n -> writes (aligned_BEncode x) (enc_str x).
Proof. intros Hn Hx. apply writes_bytestring. lia. Qed.

Lemma writes_message m : wire_ok m -> writes (LinkMessage_BEncode m) (message_text m).
Proof.
  assert (in_width 64 proto_version) as Hp by done.
  destruct m as [m|m|m|m|m|m|m]; cbn [wire_ok LinkMessage_BEncode]; intros Hm; [..|done| | |]; destruct_and?;
    (eapply writes_eq;
      [repeat first
         [ apply writes_byte | apply writes_type | apply writes_char | apply writes_version | by apply writes_X
         | by apply writes_aligned | by apply writes_int | by apply writes_frame_entry | by apply writes_uint64
         | by eapply (writes_array 32) | by eapply (writes_array 64) | by apply rc_writes
         | eapply writes_then ]
      |unfold message_text, typed_text; cbn [type_char entries flat_map entry_text fst snd app]; rewrite <- ?app_assoc; reflexivity]).
Qed.

(** ** Reading *)

(** A message that takes entries one after the other, and what it becomes. *)
Inductive run (fuel : nat) : LinkMessage -> list (Z * list Z) -> LinkMessage -> Prop :=
  | run_nil m : run fuel m [] m
  | run_cons m k txt m1 l m2 :
      (forall b rest, rem b = txt ++ rest -> DecodeKey fuel m (Buf [k] 0) b = Done (true, advance (length txt) b, m1)) ->
      kind m1 = kind m -> run fuel m1 l m2 -> run fuel m ((k, txt) :: l) m2.

Lemma held_hold m h : held (kind m) (hold m h) = m.
Proof. by destruct m. Qed.
Lemma hold_hold m m' h : kind m' = kind m -> hold m' (hold m h) = hold m' h.
Proof. by destruct m, m'. Qed.
Lemma hold_held k h : hold (held k h) h = h.
Proof. by destruct k, h. Qed.
Lemma kind_held k h : kind (held k h) = k.
Proof. by destruct k. Qed.
Lemma kind_type m : kind_of (type_char m) = Some (kind m).
Proof. by destruct m. Qed.

Lemma run_kind fuel m l m' : run fuel m l m' -> kind m' = kind m.
Proof. induction 1; congruence. Qed.

Lemma run_loop fuel l : forall f m m' p b rest, run fuel m l m' -> firstkey p = false -> msg p = Some (kind m) -> held (kind m) (holder p) = m ->
  rem b = flat_map entry_text l ++ ch_e :: rest -> (length l < f)%nat ->
  read_dict_loop f (parse_key fuel) p b
  = Done (true, advance (length (flat_map entry_text l)) b, set_holder (hold m' (holder p)) p).
Proof.
  induction l as [|[k txt] l IH]; intros [|f] m m' p b rest Hr Hf Hm Hh E Hl; cbn [length] in Hl; try lia;
    inversion Hr as [|? ? ? m1 ? ? Hd Hk Hr']; subst.
  - cbn [flat_map app] in E. rewrite (dict_loop_end _ _ _ _ _ E). cbn [flat_map length]. f_equal. f_equal.
    + f_equal. unfold advance. destruct b. cbn. f_equal. lia.
    + rewrite <- Hh at 1. rewrite hold_held. by destruct p.
  - cbn [flat_map] in E. unfold entry_text at 1 in E. cbn [fst snd] in E. rewrite <- !app_assoc in E.
    pose proof (rem_app _ _ _ E) as E1.
    rewrite (dict_loop_step (parse_key fuel) f p (set_holder (hold m1 (holder p)) p) b (advance (length txt) (advance (length (enc_str [k])) b)) [k] _ E);
      [|done|unfold parse_key; rewrite Hf, Hm, Hh, (Hd _ _ E1); done].
    assert (kind m1 = kind m) as Hk' by done.
    rewrite (IH f m1 m' (set_holder (hold m1 (holder p)) p) _ rest Hr' Hf); [|cbn; congruence|cbn; by rewrite held_hold|exact (rem_app _ _ _ E1)|lia].
    cbn [flat_map]. unfold entry_text at 2. cbn [fst snd]. rewrite !advance_advance, !length_app. cbn [holder set_holder].
    rewrite hold_hold by (by apply (run_kind _ _ _ _ Hr')). by rewrite Nat.add_assoc.
Qed.

(** The parser right after the type of a message. *)
Definition selected (peer : list Z) (k : Kind) (p : LinkMessageParser (R := R)) : LinkMessage :=
  let m := held k (holder p) in set_base_of (set_session (Some peer) (base_of m)) m.
Lemma kind_selected peer k p : kind (selected peer k p) = k.
Proof. by destruct k. Qed.

Lemma entries_count l : (length l <= length (flat_map entry_text l))%nat.
Proof.
  induction l as [|[k t] l IH]; [done|]. cbn [flat_map length]. rewrite length_app. unfold entry_text at 1.
  cbn [fst snd]. rewrite length_app. unfold enc_str. rewrite length_app. cbn [length]. lia.
Qed.

(** The first key selects the object to decode into. *)
Definition select (peer : list Z) (k : Kind) (p : LinkMessageParser (R := R)) : LinkMessageParser :=
  mkParser false (router p) (Some peer) (Some k) (hold (selected peer k p) (holder p)).
Lemma parse_type fuel peer c k p b rest : kind_of c = Some k -> rem b = enc_str [c] ++ rest ->
  parse_key fuel (set_firstkey true (set_from (Some peer) p)) b (Some (Buf [97] 0))
  = Done (true, advance (length (enc_str [c])) b, select peer k p).
Proof.
  intros Hc E. unfold parse_key, read_type. cbn [firstkey set_firstkey]. rewrite startswith_one. cbn [negb Z.eqb Pos.eqb].
  rewrite (bencode_read_string_spec _ _ _ E) by done. cbn [obind]. rewrite bool_decide_true by done.
  change (deref (Buf [c] 0)) with (Done c). cbn [obind]. by rewrite Hc.
Qed.

Lemma process_run peer c k l m' p buf rest : kind_of c = Some k -> rem buf = typed_text c l ++ rest ->
  run (S (S (sz buf))) (selected peer k p) l m' ->
  ProcessFrom (Some peer) buf p
  = let! (ok, r) := HandleMessage m' (router p) in
    Done (ok, mkParser false r (Some peer) None (hold (Clear m') (holder p))).
Proof.
  intros Hc E Hr. unfold typed_text in E. cbn [app] in E. rewrite <- !app_assoc in E. cbn [app] in E.
  pose proof (rem_app buf [ch_d] _ E) as E1. change (length [ch_d]) with 1%nat in E1.
  pose proof (rem_app _ _ _ E1) as E2. pose proof (rem_app _ _ _ E2) as E3.
  pose proof (run_kind _ _ _ _ Hr) as Hk. rewrite kind_selected in Hk.
  assert (length l < S (sz buf))%nat as Hlen.
  { pose proof (length_rem buf) as Hb. rewrite E in Hb. cbn [length] in Hb. rewrite !length_app in Hb.
    pose proof (entries_count l). lia. }
  unfold ProcessFrom. cbv zeta. set (fuel := S (S (sz buf))) in *.
  pose proof (dict_loop_step (parse_key fuel) (S (sz buf)) _ _ _ _ [97] _ E1 eq_refl (parse_type fuel peer c k p _ _ Hc E2)) as Hl.
  rewrite (run_loop fuel l (S (sz buf)) (selected peer k p) m' (select peer k p) _ rest Hr eq_refl) in Hl;
    [|cbn; by rewrite kind_selected|exact (held_hold (selected peer k p) (holder p))|exact E3|done].
  rewrite (read_dict_run (parse_key fuel) fuel _ _ buf _ _ rest E ltac:(by intros [? _]%app_nil) Hl (rem_app _ _ _ E3)).
  unfold parse_key, MessageDone. cbn [firstkey set_holder select msg holder]. rewrite <- Hk at 1. rewrite held_hold.
  unfold Reset. cbn [set_router set_holder select msg holder set_msg firstkey router from]. rewrite <- Hk. rewrite held_hold.
  assert (kind (Clear m') = kind m') as Hcl by (by destruct m').
  rewrite hold_hold by done. rewrite hold_hold by (by rewrite kind_selected).
  by destruct (HandleMessage m' (router p)) as [[ok r]| |].
Qed.

(** *** What each kind of message becomes *)

Definition delivered (peer : list Z) (h : Holder) (m : LinkMessage) : LinkMessage :=
  let base b := mkBase (Some peer) proto_version (base_pathid b) in
  match m with
  | MsgIntro m => MsgIntro (mkLinkIntro (base (li_base (h_i h))) (li_rc m) (li_N m) (li_Z m) (li_P m))
  | MsgDownstream m => MsgDownstream (mkRelayWire (base (rl_base m)) (blob_into (rl_X (h_d h)) (rl_X m)) (rl_Y m))
  | MsgUpstream m => MsgUpstream (mkRelayWire (base (rl_base m)) (blob_into (rl_X (h_u h)) (rl_X m)) (rl_Y m))
  | MsgDHT m => MsgDHT m
  | MsgCommit m =>
      MsgCommit (mkCommitWire (mkBase (Some peer) proto_version (replicate PATHIDSIZE 99)) (frames_into (cm_frames (h_c h)) (cm_frames m)))
  | MsgStatus m =>
      MsgStatus (mkStatusWire (base (sm_base (h_s h))) (frames_into (sm_frames (h_s h)) (sm_frames m)) (sm_pathid m) (sm_status m))
  | MsgDiscard _ => MsgDiscard (set_session (Some peer) (h_x h))
  end.

Lemma frames_contents old l : Forall frame_ok l -> length old = length l -> map contents (frames_into old l) = map contents l.
Proof.
  intros Hl. revert old. induction Hl as [|f l Hf Hl IH]; intros [|o old] Hn; try done. cbn [frames_into zip_with map].
  rewrite (blob_into_contents EncryptedFrameSize) by done. f_equal. apply IH. by injection Hn.
Qed.

Lemma delivered_received peer h m : wire_ok m -> holder_ok h -> received peer m (delivered peer h m).
Proof.
  intros Hm (_&_&[_ Hc]&_&Hs). destruct m as [m|m|m|m|m|m|m]; cbn [wire_ok] in Hm; try done; destruct_and?; (split; [done|]);
    cbn [delivered]; split_and?; try done; first [by apply (blob_into_contents relay_size)|apply frames_contents; congruence].
Qed.

Lemma read_array n x b rest : rem b = enc_str x ++ rest -> length x = n -> Z.of_nat n < 10 ^ 9 ->
  aligned_BDecode n b = Done (Some x, advance (length (enc_str x)) b).
Proof.
  intros E Hx Hn. unfold aligned_BDecode. rewrite (bencode_read_string_spec _ _ _ E) by lia. cbn [obind].
  by rewrite bool_decide_true by done.
Qed.

Lemma read_version b rest : rem b = enc_int proto_version ++ rest ->
  bencode_read_integer b = Done (Some proto_version, advance (length (enc_int proto_version)) b).
Proof. intros E. by apply (bencode_read_integer_spec _ _ _ E). Qed.

(** Setters and fields of the messages. *)
#[local] Ltac fields :=
  unfold set_session, set_version, set_base_pathid, set_rl_base, set_rl_X, set_rl_Y, set_cm_base, set_cm_frames,
    set_sm_base, set_sm_frames, set_sm_pathid, set_sm_status, set_li_base, set_li_rc, set_li_N, set_li_Z, set_li_P;
  cbn [session version base_pathid rl_base rl_X rl_Y cm_base cm_frames sm_base sm_frames sm_pathid sm_status
       li_base li_rc li_N li_Z li_P].

(** One entry: the keys before it do not match, and its value is read. *)
#[local] Ltac entry_step :=
  eapply run_cons;
  [ intros b rest E;
    cbn [DecodeKey lift_msg]; unfold Relay_DecodeKey, Commit_DecodeKey, Status_DecodeKey, Intro_DecodeKey,
      BEncodeMaybeReadDictEntry, BEncodeMaybeVerifyVersion, BEncodeMaybeReadDictInt, MaybeReadInto;
    rewrite ?startswith_one; cbn [Z.eqb Pos.eqb obind negb BDecode aligned]; fields;
    first
      [ rewrite (read_version _ _ E)
      | erewrite (bencode_read_integer_spec _ _ _ E) by eassumption
      | erewrite (read_array _ _ _ _ E) by (eassumption || done)
      | erewrite (rc_decodes _ _ _ _ ltac:(eassumption) E)
      | match type of E with rem ?b = blob_text ?e ++ ?r =>
          rewrite (blob_reads relay_size _ e b r) by (assumption || exact relay_size_small) end
      | match type of E with rem ?b = frames_text ?l ++ ?r =>
          rewrite (frames_read l _ _ b r) by (assumption || congruence || lia) end ];
    cbn [obind negb Z.eqb]; fields; reflexivity
  | reflexivity | fields ].

Lemma run_delivered fuel peer m p : wire_ok m -> holder_ok (holder p) -> (8 < fuel)%nat \/ kind m <> KCommit /\ kind m <> KStatus ->
  run fuel (selected peer (kind m) p) (entries m) (delivered peer (holder p) m).
Proof.
  intros Hm (Hd&Hu&[Hc Hc8]&Hs&Hs8) Hf. destruct p as [fk r fr mm [[bi i1 i2 i3 i4] [[d1 d2 d3] dX dY] [[u1 u2 u3] uX uY] dm [[c1 c2 c3] cf] [[s1 s2 s3] sf sp ss] x]]. cbn [holder h_d h_u h_c h_s rl_X cm_frames sm_frames] in *.
  destruct m as [m|m|m|m|m|m|m]; cbn [wire_ok kind] in *; try done; destruct_and?; cbn [entries]; unfold selected;
    cbn [held holder h_i h_d h_u h_c h_s h_x base_of set_base_of]; fields.
  - repeat entry_step. apply run_nil.
  - repeat entry_step. apply run_nil.
  - repeat entry_step. apply run_nil.
  - destruct Hf as [Hf|[]]; [|done]. repeat entry_step. apply run_nil.
  - destruct Hf as [Hf|[]]; [|done]. repeat entry_step. rewrite wrap_small by done. apply run_nil.
  - apply run_nil.
Qed.

Lemma handled_done peer m r : session (base_of m) = Some peer -> exists ok r', HandleMessage m r = Done (ok, r').
Proof.
  assert (forall x : bool * R, exists ok r', Done x = Done (ok, r')) as Hx by (intros [ok r']; by exists ok, r').
  destruct m; cbn [base_of HandleMessage]; unfold with_session; intros Hs; rewrite ?Hs; try apply Hx.
  destruct (Intro_Verify _ _); cbn [negb]; apply Hx.
Qed.

Lemma frames_into_ok old l : Forall frame_ok old -> Forall frame_ok l -> Forall frame_ok (frames_into old l).
Proof.
  intros Ho. revert l. induction Ho as [|o old Ho _ IH]; intros l Hl; [constructor|]. destruct Hl as [|f l Hf Hl]; [constructor|].
  constructor; [by apply blob_into_ok|by apply IH].
Qed.
Lemma clear_frames_ok l : Forall frame_ok l -> Forall frame_ok (map Encrypted_Clear l).
Proof. intros Hl. apply Forall_fmap. apply (Forall_impl _ _ _ Hl). intros e [? _]. split; cbn; [done|lia]. Qed.

Lemma cleared_holder_ok peer m h : wire_ok m -> holder_ok h -> holder_ok (hold (Clear (delivered peer h m)) h).
Proof.
  intros Hm (Hd&Hu&[Hc Hc8]&Hs&Hs8).
  assert (forall e, blob_ok relay_size e -> blob_ok relay_size (Encrypted_Clear e)) as HX by (intros e [? _]; split; cbn; [done|lia]).
  destruct m as [m|m|m|m|m|m|m]; cbn [wire_ok] in Hm; try done; destruct_and?; unfold holder_ok;
    cbn [delivered Clear hold Relay_Clear Commit_Clear Status_Clear set_h_i set_h_d set_h_u set_h_c set_h_s set_h_x
         h_d h_u h_c h_s rl_X cm_frames sm_frames]; split_and?; try done;
    first [by apply HX, blob_into_ok|by apply clear_frames_ok, frames_into_ok
          |rewrite length_map; unfold frames_into; rewrite length_zip_with; lia].
Qed.

Lemma frames_count l : (length l <= length (flat_map blob_text l))%nat.
Proof.
  induction l as [|f l IH]; [done|]. cbn [flat_map length]. rewrite length_app. destruct (blob_text_head f) as (c&t&->&_). cbn [length]. lia.
Qed.

(** Eight frames are shorter than a text that holds them. *)
Lemma text_fuel m b : wire_ok m -> rem b = message_text m ->
  (8 < S (S (sz b)))%nat \/ kind m <> KCommit /\ kind m <> KStatus.
Proof.
  intros Hm E. pose proof (length_rem b) as Hb. rewrite E in Hb.
  assert (forall c k l t, length l = 8%nat -> (8 <= length (typed_text c ((k, frames_text l) :: t)))%nat) as Ht.
  { intros c k l t Hl. pose proof (frames_count l). unfold typed_text. cbn [flat_map length]. unfold entry_text at 1. cbn [fst snd].
    unfold frames_text. repeat (rewrite length_app || cbn [length app]). lia. }
  destruct m as [m|m|m|m|m|m|m]; cbn [wire_ok] in Hm; try (right; split; discriminate); left; destruct_and?;
    match goal with Hl : length ?l = 8%nat |- _ => unfold message_text in Hb; cbn [entries type_char] in Hb;
      match type of Hb with length (typed_text ?c ((?k, _) :: ?t)) = _ => pose proof (Ht c k l t Hl) end end; lia.
Qed.


(** A status message without a path id takes the one an earlier message left:
    [Clear] does not reset it. *)
Lemma stale_path_id peer p buf : rem buf = typed_text 115 [(118, enc_int proto_version)] ->
  exists m', sm_pathid m' = sm_pathid (h_s (holder p)) /\ sm_pathid (Status_Clear m') = sm_pathid m'
    /\ ProcessFrom (Some peer) buf p
       = let! (ok, r) := HandleMessage (MsgStatus m') (router p) in
         Done (ok, mkParser false r (Some peer) None (hold (Clear (MsgStatus m')) (holder p))).
Proof.
  intros E. destruct p as [fk r fr mm [i d u dm c [[s1 s2 s3] sf sp ss] x]].
  exists (mkStatusWire (mkBase (Some peer) proto_version s3) sf sp ss). split_and!; [done..|].
  apply (process_run peer 115 KStatus [(118, enc_int proto_version)] _ _ _ []); [done|by rewrite app_nil_r|].
  unfold selected. cbn [held holder h_s base_of set_base_of]. fields. clear E. entry_step. apply run_nil.
Qed.
End RoundTrip.

(** ** Concrete instances *)

(** DHT messages that carry a sender only, contacts that are one string, and a
    router that counts what it accepts. *)
Definition demo_dht : DHTMessages := {|
  IMessage := list Z;
  dht_new _ from _ := from;
  dht_DecodeKey m _ b := Done (false, b, m);
  dht_BEncode m b := bencode_write_bytestring b m |}.
Definition demo_contacts : ContactCodec := {|
  rc_BEncode x b := bencode_write_bytestring b (rc_pubkey x);
  rc_Clear _ := mkHopRC [] [] [];
  rc_BDecode _ b :=
    let! (s, b) := bencode_read_string b in
    match s with Some s => Done (true, mkHopRC (base s) [] [], b) | None => Done (false, mkHopRC [] [] [], b) end |}.
Definition demo_contact_spec : @ContactSpec demo_contacts.
Proof.
  refine (@Build_ContactSpec demo_contacts
    (fun x => Z.of_nat (length (rc_pubkey x)) < 10 ^ 9 /\ rc_enckey x = [] /\ rc_other x = []) (fun x => enc_str (rc_pubkey x)) _ _).
  - intros old [k e o] b rest (Hl&He&Ho) E. cbn in *. subst. by rewrite (bencode_read_string_spec _ _ _ E Hl).
  - intros [k e o] (Hl&_). cbn in *. apply writes_bytestring. lia.
Defined.
Definition demo_router : @LinkRouter demo_dht Z := {|
  time_now_ms r := r;
  rc_Verify _ _ := true;
  GotLIM _ _ r := (true, r + 1);
  handle_upstream _ _ r := (true, r + 1);
  handle_downstream _ _ r := (true, r + 1);
  handle_commit _ _ r := (true, r + 1);
  handle_status _ _ r := (true, r + 1);
  dht_HandleMessage m r l := (true, r, l ++ [m]);
  SendToOrQueue _ _ r := (true, r + 1) |}.

Definition demo_base : ILinkMessage := mkBase None 7 (replicate PATHIDSIZE 5).
Definition demo_relay : RelayWire := mkRelayWire demo_base (mkEncrypted (replicate relay_size 3) 4) (replicate TUNNONCESIZE 2).
Definition demo_frames : list Encrypted := replicate 8 (mkEncrypted (replicate EncryptedFrameSize 6) 5).
Definition demo_parser : @LinkMessageParser demo_dht Z :=
  mkParser true 0 None (Some KStatus)
    (mkHolder (mkLinkIntro demo_base (mkHopRC [] [] []) [] [] 0) demo_relay demo_relay (@mkDHT demo_dht demo_base [])
       (mkCommitWire demo_base demo_frames) (mkStatusWire demo_base demo_frames (replicate PATHIDSIZE 8) 1) demo_base).

Lemma demo_blob_ok n k v : (k <= n)%nat -> blob_ok n (mkEncrypted (replicate n v) k).
Proof. intros Hk. split; cbn [ebuf esz]; [apply length_replicate|done]. Qed.

