(* ===== verification/Dht.v ===== *)
(** * Distance, buckets and the node database

    [llarp/dht/key.hpp], [kademlia.hpp], [bucket.hpp], [node.hpp] and the part of
    [llarp/nodedb.cpp] that is kept in memory.  A key is 32 bytes; a [std::map]
    ordered by the distance to a key is a list in that order, a [std::set] of keys
    a list in the order of the bytes, and an [std::unordered_map] a list in any
    order.  Distances are related to the exclusive or of 256-bit integers. *)

From S2P Require Import Prelude.
Open Scope Z_scope.

(** ** Keys *)

Abbreviation Key := (list Z).
Definition KEYSIZE : nat := 32.
Definition key_zero : Key := replicate KEYSIZE 0.
Definition key_xor (a b : Key) : Key := zip_with Z.lxor a b.
(** [std::array::operator<] *)
Fixpoint key_lt (a b : Key) : bool :=
  match a, b with
  | x :: a, y :: b => if x <? y then true else if y <? x then false else key_lt a b
  | _, _ => false
  end.
Definition XorMetric (us left right : Key) : bool := key_lt (key_xor us left) (key_xor us right).

(** [std::set<Key_t>::insert] *)
Fixpoint set_insert (x : Key) (s : list Key) : list Key :=
  match s with
  | [] => [x]
  | y :: s' => if key_lt x y then x :: s else if key_lt y x then y :: set_insert x s' else s
  end.
Definition set_count (s : list Key) (x : Key) : bool := bool_decide (x ∈ s).

(** ** Buckets *)

(** What a bucket needs of its values: their key and which of two is older. *)
Class BucketNode (V : Type) := { ID : V -> Key; older : V -> V -> bool }.

Record Bucket (V : Type) := mkBucket { bucket_us : Key; nodes : list (Key * V) }.
Arguments mkBucket {V}.
Arguments bucket_us {V}.
Arguments nodes {V}.

Section Bucket.
Context {V : Type} `{BucketNode V}.

(** [std::map::find] and [std::map::operator[]] of the ordered map *)
Fixpoint map_find (us k : Key) (l : list (Key * V)) : option V :=
  match l with
  | [] => None
  | (k', v) :: l => if XorMetric us k' k then map_find us k l else if XorMetric us k k' then None else Some v
  end.
Fixpoint map_put (us k : Key) (v : V) (l : list (Key * V)) : list (Key * V) :=
  match l with
  | [] => [(k, v)]
  | (k', v') :: l' =>
      if XorMetric us k' k then (k', v') :: map_put us k v l'
      else if XorMetric us k k' then (k, v) :: l else (k', v) :: l'
  end.
Fixpoint map_erase (us k : Key) (l : list (Key * V)) : list (Key * V) :=
  match l with
  | [] => []
  | (k', v') :: l' =>
      if XorMetric us k' k then (k', v') :: map_erase us k l' else if XorMetric us k k' then l else l'
  end.

Definition Bucket_new (us : Key) : Bucket V := mkBucket us [].
Definition Bucket_size (b : Bucket V) : nat := length (nodes b).
Definition PutNode (val : V) (b : Bucket V) : Bucket V :=
  match map_find (bucket_us b) (ID val) (nodes b) with
  | Some v => if older v val then mkBucket (bucket_us b) (map_put (bucket_us b) (ID val) val (nodes b)) else b
  | None => mkBucket (bucket_us b) (map_put (bucket_us b) (ID val) val (nodes b))
  end.
Definition DelNode (key : Key) (b : Bucket V) : Bucket V :=
  match map_find (bucket_us b) key (nodes b) with
  | Some _ => mkBucket (bucket_us b) (map_erase (bucket_us b) key (nodes b))
  | None => b
  end.
Definition HasNode (key : Key) (b : Bucket V) : bool :=
  match map_find (bucket_us b) key (nodes b) with Some _ => true | None => false end.
Definition RemoveIf (pred : Key -> bool) (b : Bucket V) : Bucket V :=
  mkBucket (bucket_us b) (base.filter (fun x => pred x.1 = false) (nodes b)).
Definition ForEachNode {A} (visit : A -> V -> A) (b : Bucket V) (a : A) : A := fold_left (fun a x => visit a x.2) (nodes b) a.
Definition Clear (b : Bucket V) : Bucket V := mkBucket (bucket_us b) [].

(** The loop of [FindClosest] and [FindCloseExcluding]: the distance so far and
    [result]. *)
Fixpoint closest_loop (target : Key) (skip : Key -> bool) (l : list (Key * V)) (mindist result : Key) : Key * Key :=
  match l with
  | [] => (mindist, result)
  | (k, _) :: l =>
      if skip k then closest_loop target skip l mindist result
      else
        let curDist := key_xor k target in
        if key_lt curDist mindist then closest_loop target skip l curDist k else closest_loop target skip l mindist result
  end.
Definition key_max : Key := replicate KEYSIZE 255.
Definition FindClosest (target result : Key) (b : Bucket V) : bool * Key :=
  let '(_, result) := closest_loop target (fun _ => false) (nodes b) key_max result in
  (bool_decide (0 < Bucket_size b)%nat, result).
Definition FindCloseExcluding (target result : Key) (exclude : list Key) (b : Bucket V) : bool * Key :=
  let '(mindist, result) := closest_loop target (set_count exclude) (nodes b) key_max result in
  (key_lt mindist key_max, result).
(** [s] and [peer] are the locals of the loop. *)
Fixpoint near_loop (target : Key) (N : nat) (s : list Key) (peer : Key) (result : list Key) (b : Bucket V) : bool * list Key :=
  match N with
  | O => (true, result)
  | S N =>
      let '(ok, peer) := FindCloseExcluding target peer s b in
      if negb ok then (false, result) else near_loop target N (set_insert peer s) peer (set_insert peer result) b
  end.
Definition GetManyNearExcluding (target : Key) (result : list Key) (N : nat) (exclude : list Key) (b : Bucket V) : bool * list Key :=
  near_loop target N exclude key_zero result b.

(** *** Random choices; the generator is a state and its draws are 64-bit *)

Context {G : Type} (random : G -> Z * G).

(** [std::set_difference] with [SetIntersector], whose order is that of the bytes *)
Fixpoint set_difference (fuel : nat) (l : list (Key * V)) (ex : list Key) : list (Key * V) :=
  match fuel with
  | O => []
  | S fuel =>
      match l, ex with
      | [], _ => []
      | _, [] => l
      | x :: l', e :: ex' =>
          if key_lt x.1 e then x :: set_difference fuel l' ex
          else if key_lt e x.1 then set_difference fuel l ex'
          else set_difference fuel l' ex'
      end
  end.
Definition GetRandomNodeExcluding (exclude : list Key) (b : Bucket V) (g : G) : option Key * G :=
  let candidates := set_difference (length (nodes b) + length exclude) (nodes b) exclude in
  if bool_decide (length candidates = 0%nat) then (None, g)
  else
    let '(r, g) := random g in
    (fst <$> candidates !! Z.to_nat (r mod Z.of_nat (length candidates)), g).

(** The loop runs until enough new keys were drawn. *)
Fixpoint random_loop (fuel N : nat) (l : list (Key * V)) (result : list Key) (g : G) : outcome (list Key * G) :=
  match N with
  | O => Done (result, g)
  | S N' =>
      match fuel with
      | O => Timeout
      | S fuel =>
          let '(r, g) := random g in
          match l !! Z.to_nat (r mod Z.of_nat (length l)) with
          | None => Fault
          | Some (k, _) => if set_count result k then random_loop fuel N l result g else random_loop fuel N' l (set_insert k result) g
          end
      end
  end.
Definition GetManyRandom (fuel : nat) (result : list Key) (N : nat) (b : Bucket V) (g : G) : outcome (bool * list Key * G) :=
  if bool_decide (Bucket_size b < N)%nat || bool_decide (nodes b = []) then Done (false, result, g)
  else if bool_decide (Bucket_size b = N) then Done (true, fold_left (fun s x => set_insert x.1 s) (nodes b) result, g)
  else
    let! (result, g) := random_loop fuel N (nodes b) result g in
    Done (bool_decide (length result = N), result, g).
End Bucket.

(** ** The node database *)

(** A router contact: its key, its time stamp, and the rest as it is. *)
Record RouterContact := mkContact { pubkey : Key; last_updated : Z; rc_rest : list Z }.
Definition RouterContact_new : RouterContact := mkContact key_zero 0 [].
Definition OtherIsNewer (rc other : RouterContact) : bool := last_updated rc <? last_updated other.
#[export] Instance RouterContact_eq_dec : EqDecision RouterContact.
Proof. solve_decision. Defined.

(** [RCNode] *)
#[export] Instance RCNode : BucketNode RouterContact := { ID := pubkey; older := OtherIsNewer }.

Record Entry := mkEntry { rc : RouterContact; insertedAt : Z }.
(** What is passed to the thread that does disk work. *)
Inductive DiskJob := WriteAll (rcs : list RouterContact) | RemoveFiles (keys : list Key).
Record NodeDB := mkNodeDB { m_Entries : list (Key * Entry); m_Root : bool; m_NextFlushAt : Z; disk : list DiskJob }.
Definition with_entries (l : list (Key * Entry)) (d : NodeDB) : NodeDB := mkNodeDB l (m_Root d) (m_NextFlushAt d) (disk d).
Definition run_disk (j : DiskJob) (d : NodeDB) : NodeDB := mkNodeDB (m_Entries d) (m_Root d) (m_NextFlushAt d) (disk d ++ [j]).

Definition FlushInterval : Z := 300000.
Definition NodeDB_new (now : Z) : NodeDB := mkNodeDB [] true (now + FlushInterval) [].
Definition NodeDB_memory : NodeDB := mkNodeDB [] false 0 [].

Definition find_entry (pk : Key) (l : list (Key * Entry)) : option Entry := snd <$> find (fun x => bool_decide (x.1 = pk)) l.
Definition erase_entry (pk : Key) (l : list (Key * Entry)) : list (Key * Entry) := base.filter (fun x => x.1 <> pk) l.
(** [emplace] keeps an entry that is there. *)
Definition emplace_entry (now : Z) (c : RouterContact) (l : list (Key * Entry)) : list (Key * Entry) :=
  match find_entry (pubkey c) l with Some _ => l | None => (pubkey c, mkEntry c now) :: l end.

Definition NodeDB_Tick (now : Z) (d : NodeDB) : NodeDB :=
  if m_NextFlushAt d =? 0 then d
  else if m_NextFlushAt d <? now then
    run_disk (WriteAll (map (fun x => rc x.2) (m_Entries d)))
      (mkNodeDB (m_Entries d) (m_Root d) (m_NextFlushAt d + FlushInterval) (disk d))
  else d.
Definition AsyncRemoveManyFromDisk (keys : list Key) (d : NodeDB) : NodeDB := if m_Root d then run_disk (RemoveFiles keys) d else d.
Definition Has (pk : Key) (d : NodeDB) : bool := match find_entry pk (m_Entries d) with Some _ => true | None => false end.
Definition Get (pk : Key) (d : NodeDB) : option RouterContact := rc <$> find_entry pk (m_Entries d).
Definition Remove (pk : Key) (d : NodeDB) : NodeDB := AsyncRemoveManyFromDisk [pk] (with_entries (erase_entry pk (m_Entries d)) d).
(** The loop of [RemoveStaleRCs] and of [RemoveIf] *)
Definition remove_where (gone : Entry -> bool) (d : NodeDB) : NodeDB :=
  let removed := map (fun x => pubkey (rc x.2)) (base.filter (fun x => gone x.2 = true) (m_Entries d)) in
  let d := with_entries (base.filter (fun x => gone x.2 = false) (m_Entries d)) d in
  if bool_decide (removed = []) then d else AsyncRemoveManyFromDisk removed d.
Definition RemoveStaleRCs (keep : list Key) (cutoff : Z) (d : NodeDB) : NodeDB :=
  remove_where (fun e => (insertedAt e <? cutoff) && negb (set_count keep (pubkey (rc e)))) d.
Definition NodeDB_RemoveIf (visit : RouterContact -> bool) (d : NodeDB) : NodeDB := remove_where (fun e => visit (rc e)) d.
Definition Put (now : Z) (c : RouterContact) (d : NodeDB) : NodeDB :=
  with_entries (emplace_entry now c (erase_entry (pubkey c) (m_Entries d))) d.
Definition NumLoaded (d : NodeDB) : nat := length (m_Entries d).
Definition PutIfNewer (now : Z) (c : RouterContact) (d : NodeDB) : NodeDB :=
  match find_entry (pubkey c) (m_Entries d) with
  | Some e =>
      if OtherIsNewer (rc e) c then with_entries (emplace_entry now c (erase_entry (pubkey c) (m_Entries d))) d else d
  | None => with_entries (emplace_entry now c (m_Entries d)) d
  end.

Definition VisitAll {A} (visit : A -> RouterContact -> A) (d : NodeDB) (a : A) : A :=
  fold_left (fun a x => visit a (rc x.2)) (m_Entries d) a.
Definition VisitInsertedBefore {A} (visit : A -> RouterContact -> A) (insertedBefore : Z) (d : NodeDB) (a : A) : A :=
  fold_left (fun a x => if insertedAt x.2 <? insertedBefore then visit a (rc x.2) else a) (m_Entries d) a.
Definition FindClosestTo (location : Key) (d : NodeDB) : RouterContact :=
  VisitAll (fun c other =>
    if bool_decide (pubkey c = key_zero) then other
    else if XorMetric location (pubkey other) (pubkey c) then other else c) d RouterContact_new.

(** [std::partial_sort]: the elements before the middle are the least, in order *)
Section Sort.
Context {A : Type} (lt : A -> A -> bool).
Fixpoint insert_sorted (x : A) (l : list A) : list A :=
  match l with
  | [] => [x]
  | y :: l' => if lt y x then y :: insert_sorted x l' else x :: l
  end.
Definition sort (l : list A) : list A := fold_right insert_sorted [] l.
End Sort.
Definition FindManyClosestTo (location : Key) (numRouters : nat) (d : NodeDB) : list RouterContact :=
  take numRouters (sort (fun a b => XorMetric location (pubkey a) (pubkey b)) (map (fun x => rc x.2) (m_Entries d))).

(** ** Distances are numbers *)

Definition key_ok (k : Key) : Prop := length k = KEYSIZE /\ bytes_ok k.
#[export] Instance key_ok_dec k : Decision (key_ok k).
Proof. unfold key_ok. apply _. Defined.
(** The exclusive or of the keys as 256-bit integers. *)
Definition dist (a b : Key) : Z := Z.lxor (be_value a) (be_value b).

Lemma key_lt_value a : forall b, length a = length b -> bytes_ok a -> bytes_ok b -> key_lt a b = (be_value a <? be_value b).
Proof.
  induction a as [|x a IH]; intros [|y b] Hl Ha Hb; try done. injection Hl as Hl.
  apply Forall_cons in Ha as [Hx Ha], Hb as [Hy Hb]. cbn [key_lt]. rewrite !be_value_cons, Hl.
  pose proof (be_value_range a Ha) as Ra. pose proof (be_value_range b Hb) as Rb. rewrite Hl in Ra.
  set (p := 256 ^ Z.of_nat (length b)) in *.
  destruct (Z.ltb_spec x y); [symmetry; apply Z.ltb_lt; nia|]. destruct (Z.ltb_spec y x); [symmetry; apply Z.ltb_ge; nia|].
  assert (x = y) as -> by lia. rewrite IH by done. apply eq_true_iff_eq. rewrite !Z.ltb_lt. lia.
Qed.

Lemma lxor_range n u v : 0 <= n -> 0 <= u < 2 ^ n -> 0 <= v < 2 ^ n -> 0 <= Z.lxor u v < 2 ^ n.
Proof.
  intros Hn Hu Hv. assert (0 <= Z.lxor u v) as H0 by (apply Z.lxor_nonneg; lia). split; [done|].
  destruct (Z.eq_dec n 0) as [->|Hn0]; [assert (u = 0) as -> by lia; assert (v = 0) as -> by lia; done|].
  destruct (Z.eq_dec (Z.lxor u v) 0) as [->|Hne]; [lia|]. apply Z.log2_lt_pow2; [lia|].
  assert (forall w, 0 <= w < 2 ^ n -> Z.log2 w < n) as Hl.
  { intros w Hw. destruct (Z.eq_dec w 0) as [->|]; [cbn; lia|apply Z.log2_lt_pow2; lia]. }
  pose proof (Hl u Hu). pose proof (Hl v Hv). pose proof (Z.log2_lxor u v). lia.
Qed.

Lemma lxor_cons n x y u v : 0 <= n -> 0 <= u < 2 ^ n -> 0 <= v < 2 ^ n ->
  Z.lxor (x * 2 ^ n + u) (y * 2 ^ n + v) = Z.lxor x y * 2 ^ n + Z.lxor u v.
Proof.
  intros Hn Hu Hv. pose proof (lxor_range n u v Hn Hu Hv).
  assert (forall z w, 0 <= w < 2 ^ n -> z * 2 ^ n + w = Z.lxor (Z.shiftl z n) w) as E.
  { intros z w Hw. rewrite <- Z.shiftl_mul_pow2 by done. apply Z.add_nocarry_lxor. apply Z.bits_inj'. intros i Hi.
    rewrite Z.land_spec, Z.bits_0, Z.shiftl_spec by done. destruct (Z.ltb_spec i n).
    - rewrite Z.testbit_neg_r by lia. done.
    - rewrite (Z.testbit_eqb w) by done. rewrite Z.div_small; [apply andb_false_r|].
      split; [lia|]. apply Z.lt_le_trans with (2 ^ n); [lia|]. apply Z.pow_le_mono_r; lia. }
  rewrite !E by done. rewrite Z.shiftl_lxor, !Z.lxor_assoc. f_equal. rewrite <- !Z.lxor_assoc. f_equal. apply Z.lxor_comm.
Qed.

Lemma byte_xor x y : is_byte x -> is_byte y -> is_byte (Z.lxor x y).
Proof. apply (lxor_range 8). done. Qed.

Lemma key_xor_ok a b : key_ok a -> key_ok b -> key_ok (key_xor a b).
Proof.
  intros [La Ha] [Lb Hb]. split; [unfold key_xor; rewrite length_zip_with; lia|]. clear La Lb. revert b Hb.
  induction Ha as [|x a Hx Ha IH]; intros b Hb; [constructor|]. destruct Hb as [|y b Hy Hb]; [constructor|].
  constructor; [by apply byte_xor|by apply IH].
Qed.

Lemma key_xor_value a : forall b, length a = length b -> bytes_ok a -> bytes_ok b -> be_value (key_xor a b) = Z.lxor (be_value a) (be_value b).
Proof.
  induction a as [|x a IH]; intros [|y b] Hl Ha Hb; try done. injection Hl as Hl.
  apply Forall_cons in Ha as [Hx Ha], Hb as [Hy Hb]. unfold key_xor. cbn [zip_with]. fold (key_xor a b). rewrite !be_value_cons.
  assert (length (key_xor a b) = length b) as Hlx by (unfold key_xor; rewrite length_zip_with; lia).
  rewrite Hlx, Hl, IH by done. pose proof (be_value_range a Ha) as Ra. pose proof (be_value_range b Hb) as Rb. rewrite Hl in Ra.
  change 256 with (2 ^ 8) in *. rewrite <- Z.pow_mul_r in * by lia. by rewrite lxor_cons by lia.
Qed.

Lemma xor_lt target a b : key_ok target -> key_ok a -> key_ok b ->
  key_lt (key_xor a target) (key_xor b target) = (dist a target <? dist b target).
Proof.
  intros Ht Ha Hb. destruct (key_xor_ok _ _ Ha Ht) as [La Oa], (key_xor_ok _ _ Hb Ht) as [Lb Ob].
  destruct Ht as [Lt Ot], Ha as [La' Oa'], Hb as [Lb' Ob']. rewrite key_lt_value by congruence. by rewrite !key_xor_value by congruence.
Qed.

Lemma be_value_inj a b : key_ok a -> key_ok b -> be_value a = be_value b -> a = b.
Proof. intros [La Ha] [Lb Hb] E. rewrite <- (be_bytes_be_value a Ha), <- (be_bytes_be_value b Hb). congruence. Qed.

Lemma dist_comm a b : dist a b = dist b a.
Proof. apply Z.lxor_comm. Qed.

Lemma dist_inj t a b : key_ok a -> key_ok b -> dist t a = dist t b -> a = b.
Proof.
  intros Ha Hb E. apply be_value_inj; [done..|]. unfold dist in E.
  rewrite <- (Z.lxor_0_l (be_value a)), <- (Z.lxor_0_l (be_value b)), <- (Z.lxor_nilpotent (be_value t)).
  rewrite !Z.lxor_assoc. congruence.
Qed.

Lemma metric_spec us a b : key_ok us -> key_ok a -> key_ok b -> XorMetric us a b = (dist us a <? dist us b).
Proof.
  intros Hu Ha Hb. unfold XorMetric.
  assert (forall x, key_xor us x = key_xor x us) as C.
  { intros x. unfold key_xor. clear. revert x. induction us as [|u us IH]; intros [|x xs]; try done.
    cbn [zip_with]. by rewrite Z.lxor_comm, IH. }
  rewrite !C, xor_lt by done. by rewrite !(dist_comm _ us).
Qed.

(** Which of two keys comes first, or that they are the same. *)
Lemma metric_cases us a b : key_ok us -> key_ok a -> key_ok b ->
  (dist us a < dist us b /\ XorMetric us a b = true)
  \/ (dist us b < dist us a /\ XorMetric us a b = false /\ XorMetric us b a = true)
  \/ (a = b /\ XorMetric us a b = false /\ XorMetric us b a = false).
Proof.
  intros Hu Ha Hb. rewrite !metric_spec by done. destruct (Z.lt_total (dist us a) (dist us b)) as [Hl|[He|Hg]].
  - left. split; [done|]. by apply Z.ltb_lt.
  - right; right. split; [by apply (dist_inj us)|]. rewrite He. split; apply Z.ltb_irrefl.
  - right; left. split_and!; [done|apply Z.ltb_ge; lia|by apply Z.ltb_lt].
Qed.

(** ** Buckets are maps *)

Section BucketMap.
Context {V : Type} `{BucketNode V}.

Definition nearer (us : Key) (x y : Key * V) : Prop := dist us x.1 < dist us y.1.
Record bucket_ok (b : Bucket V) : Prop := {
  ok_us : key_ok (bucket_us b);
  ok_keys : Forall (fun x => key_ok x.1) (nodes b);
  ok_sorted : StronglySorted (nearer (bucket_us b)) (nodes b) }.

Lemma sorted_nodup us (l : list (Key * V)) : StronglySorted (nearer us) l -> NoDup l.*1.
Proof.
  induction 1 as [|x l Hl IH Hx]; [constructor|]. cbn [fmap list_fmap]. constructor; [|done].
  intros (y&Ey&Hy)%list_elem_of_fmap. rewrite Forall_forall in Hx. specialize (Hx y Hy). unfold nearer in Hx. rewrite <- Ey in Hx. lia.
Qed.

Lemma map_find_elem us k v (l : list (Key * V)) : key_ok us -> key_ok k -> Forall (fun x => key_ok x.1) l ->
  StronglySorted (nearer us) l -> (map_find us k l = Some v <-> (k, v) ∈ l).
Proof.
  intros Hu Hk. induction l as [|[k' v'] l IH]; intros Hl Hs; [cbn; set_solver|].
  apply Forall_cons in Hl as [Hk' Hl]. inversion Hs as [|? ? Hs' Hx]; subst. cbn [map_find].
  assert (dist us k < dist us k' \/ k = k' -> (k, v) ∉ l) as Hno.
  { intros Hd Hin. rewrite Forall_forall in Hx. specialize (Hx _ Hin). unfold nearer in Hx. cbn in Hx. destruct Hd as [Hd|<-]; lia. }
  rewrite elem_of_cons. destruct (metric_cases us k' k Hu Hk' Hk) as [[Hd ->]|[(Hd&->&->)|(->&->&_)]].
  - rewrite IH by done. split; [by right|]. intros [[= -> ->]|]; [lia|done].
  - split; [done|]. intros [[= -> ->]|Hin]; [lia|]. exfalso. apply Hno; [by left|done].
  - split; [intros [= ->]; by left|]. intros [[= ->]|Hin]; [done|]. exfalso. apply Hno; [by right|done].
Qed.

Lemma map_put_keys us k v (l : list (Key * V)) : key_ok k -> Forall (fun x => key_ok x.1) l -> Forall (fun x => key_ok x.1) (map_put us k v l).
Proof.
  intros Hk. induction 1 as [|[k' v'] l Hk' Hl IH]; cbn [map_put]; [by apply Forall_singleton|].
  destruct (XorMetric us k' k), (XorMetric us k k'); rewrite ?Forall_cons; auto.
Qed.

Lemma map_put_elem us k v (l : list (Key * V)) : key_ok us -> key_ok k -> Forall (fun x => key_ok x.1) l ->
  StronglySorted (nearer us) l -> forall x, x ∈ map_put us k v l <-> x = (k, v) \/ (x ∈ l /\ x.1 <> k).
Proof.
  intros Hu Hk. induction l as [|[k' v'] l IH]; intros Hl Hs x; cbn [map_put].
  { rewrite list_elem_of_singleton. split; [by left|]. by intros [->|[Hn%elem_of_nil _]]. }
  apply Forall_cons in Hl as [Hk' Hl]. inversion Hs as [|? ? Hs' Hx]; subst. rewrite Forall_forall in Hx.
  assert (dist us k < dist us k' \/ k = k' -> x ∈ l -> x.1 <> k) as Hno.
  { intros Hd Hin Ek. specialize (Hx _ Hin). unfold nearer in Hx. rewrite Ek in Hx. cbn in Hx. destruct Hd as [Hd|<-]; lia. }
  destruct (metric_cases us k' k Hu Hk' Hk) as [[Hd ->]|[(Hd&->&->)|(->&->&_)]]; rewrite !elem_of_cons.
  - rewrite IH by done. split; [|naive_solver]. intros [->|[->|[? ?]]]; [right|by left|by right; auto]. split; [by left|]. cbn. intros ->. lia.
  - split; [|naive_solver]. intros [->|[->|Hin]]; [by left| |right; auto]. right. split; [by left|]. cbn. intros ->. lia.
  - split; [|naive_solver]. intros [->|Hin]; [by left|right; auto].
Qed.

Lemma map_put_sorted us k v (l : list (Key * V)) : key_ok us -> key_ok k -> Forall (fun x => key_ok x.1) l ->
  StronglySorted (nearer us) l -> StronglySorted (nearer us) (map_put us k v l).
Proof.
  intros Hu Hk. induction l as [|[k' v'] l IH]; intros Hl Hs; cbn [map_put]; [apply SSorted_cons; constructor|].
  apply Forall_cons in Hl as [Hk' Hl]. inversion Hs as [|? ? Hs' Hx]; subst.
  destruct (metric_cases us k' k Hu Hk' Hk) as [[Hd ->]|[(Hd&->&->)|(->&->&_)]].
  - constructor; [by apply IH|]. rewrite Forall_forall in Hx. apply Forall_forall. intros x Hin.
    apply map_put_elem in Hin as [->|[Hin _]]; [exact Hd|by apply Hx|done..].
  - constructor; [done|]. constructor; [done|]. eapply Forall_impl; [exact Hx|]. intros x Hxx. unfold nearer in *. cbn in *. lia.
  - constructor; done.
Qed.

Lemma sublist_sorted {A} (R : A -> A -> Prop) (l l' : list A) : sublist l' l -> StronglySorted R l -> StronglySorted R l'.
Proof.
  induction 1 as [|x l l' Hs IH|x l l' Hs IH]; intros Hl; [done| |]; inversion Hl as [|? ? Hl' Hx]; subst; [|by apply IH].
  constructor; [by apply IH|]. rewrite Forall_forall in *. intros y Hy. apply Hx. by eapply elem_of_sublist.
Qed.

Lemma filter_all {A} (P : A -> Prop) `{forall x, Decision (P x)} (l : list A) : Forall P l -> base.filter P l = l.
Proof. induction 1 as [|x l Hx Hl IH]; [done|]. by rewrite filter_cons_True, IH. Qed.

Lemma map_erase_filter us k (l : list (Key * V)) : key_ok us -> key_ok k -> Forall (fun x => key_ok x.1) l ->
  StronglySorted (nearer us) l -> map_erase us k l = base.filter (fun x => x.1 <> k) l.
Proof.
  intros Hu Hk. induction l as [|[k' v'] l IH]; intros Hl Hs; [done|].
  apply Forall_cons in Hl as [Hk' Hl]. inversion Hs as [|? ? Hs' Hx]; subst. cbn [map_erase]. rewrite filter_cons. cbn [fst].
  assert (dist us k < dist us k' \/ k = k' -> base.filter (fun x => x.1 <> k) l = l) as Hall.
  { intros Hd. apply filter_all. eapply Forall_impl; [exact Hx|]. intros x Hxx Ek. unfold nearer in Hxx. rewrite Ek in Hxx. cbn in Hxx.
    destruct Hd as [Hd|<-]; lia. }
  destruct (metric_cases us k' k Hu Hk' Hk) as [[Hd ->]|[(Hd&->&->)|(->&->&_)]].
  - rewrite decide_True by (intros ->; lia). f_equal. by apply IH.
  - rewrite decide_True by (intros ->; lia). f_equal. symmetry. apply Hall. by left.
  - rewrite decide_False by tauto. symmetry. apply Hall. by right.
Qed.

(** A bucket and the map it stands for: the newest value put under each key. *)
Inductive bucket_op := OpPut (v : V) | OpDel (k : Key) | OpRemoveIf (pred : Key -> bool) | OpClear.
Definition run_op (b : Bucket V) (o : bucket_op) : Bucket V :=
  match o with OpPut v => PutNode v b | OpDel k => DelNode k b | OpRemoveIf pred => RemoveIf pred b | OpClear => Clear b end.
Definition spec_op (m : gmap Key V) (o : bucket_op) : gmap Key V :=
  match o with
  | OpPut v => match m !! ID v with Some w => if older w v then <[ID v := v]> m else m | None => <[ID v := v]> m end
  | OpDel k => delete k m
  | OpRemoveIf pred => base.filter (fun x => pred x.1 = false) m
  | OpClear => ∅
  end.
Definition op_ok (o : bucket_op) : Prop := match o with OpPut v => key_ok (ID v) | OpDel k => key_ok k | _ => True end.
Definition represents (b : Bucket V) (m : gmap Key V) : Prop := forall k v, (k, v) ∈ nodes b <-> m !! k = Some v.

Lemma find_represents b m k : bucket_ok b -> represents b m -> key_ok k -> map_find (bucket_us b) k (nodes b) = m !! k.
Proof.
  intros [Hu Hl Hs] Hr Hk. apply option_eq. intros v. rewrite map_find_elem by done. apply Hr.
Qed.

Lemma put_represents b m k v : bucket_ok b -> represents b m -> key_ok k ->
  let b' := mkBucket (bucket_us b) (map_put (bucket_us b) k v (nodes b)) in bucket_ok b' /\ represents b' (<[k := v]> m).
Proof.
  intros [Hu Hl Hs] Hr Hk. split; [split; [done|by apply map_put_keys|by apply map_put_sorted]|].
  intros k' v'. cbn [nodes]. rewrite map_put_elem by done. cbn [fst]. rewrite (Hr k' v'). destruct (decide (k' = k)) as [->|Hne].
  - rewrite lookup_insert_eq. naive_solver.
  - rewrite lookup_insert_ne by done. naive_solver.
Qed.

Lemma filter_represents b m (P : Key -> Prop) `{forall x : Key * V, Decision (P x.1)} : bucket_ok b -> represents b m ->
  let b' := mkBucket (bucket_us b) (base.filter (fun x => P x.1) (nodes b)) in
  bucket_ok b' /\ represents b' (base.filter (fun x => P x.1) m).
Proof.
  intros [Hu Hl Hs] Hr. split.
  - split; [done|apply Forall_forall; intros x [_ Hx]%list_elem_of_filter; rewrite Forall_forall in Hl; by apply Hl|]. cbn [nodes bucket_us]. eapply sublist_sorted; [apply sublist_filter|done].
  - intros k v. cbn [nodes]. rewrite list_elem_of_filter, (Hr k v), map_lookup_filter_Some. cbn. tauto.
Qed.

Lemma run_op_represents b m o : bucket_ok b -> represents b m -> op_ok o ->
  bucket_ok (run_op b o) /\ represents (run_op b o) (spec_op m o).
Proof.
  intros Hb Hr Ho. destruct o as [v|k|pred|]; cbn [run_op spec_op op_ok] in *.
  - unfold PutNode. rewrite (find_represents b m) by done. destruct (m !! ID v) as [w|]; [|by apply put_represents].
    destruct (older w v); [by apply put_represents|done].
  - unfold DelNode. rewrite (find_represents b m) by done. destruct (m !! k) as [w|] eqn:E.
    + rewrite map_erase_filter by (done || apply Hb).
      destruct (filter_represents b m (fun x => x <> k) Hb Hr) as [Hok Hrep]. split; [done|]. intros k' v'. rewrite (Hrep k' v').
      rewrite map_lookup_filter_Some, lookup_delete_Some. cbn. naive_solver.
    + split; [done|]. rewrite delete_id by done. done.
  - apply (filter_represents b m (fun k => pred k = false) Hb Hr).
  - split; [split; [apply Hb|constructor|constructor]|]. intros k v. by rewrite elem_of_nil, lookup_empty.
Qed.

Lemma run_ops_represent ops : forall b m, bucket_ok b -> represents b m -> Forall op_ok ops ->
  bucket_ok (fold_left run_op ops b) /\ represents (fold_left run_op ops b) (fold_left spec_op ops m).
Proof.
  induction ops as [|o ops IH]; intros b m Hb Hr Ho; [done|]. apply Forall_cons in Ho as [Ho Hos]. cbn [fold_left].
  destruct (run_op_represents b m o Hb Hr Ho). by apply IH.
Qed.

Lemma represents_size b m : bucket_ok b -> represents b m -> Bucket_size b = size m.
Proof.
  intros [Hu Hl Hs] Hr. unfold Bucket_size. rewrite <- length_map_to_list. apply Permutation_length.
  apply NoDup_Permutation; [eapply NoDup_fmap_1, sorted_nodup; exact Hs|apply NoDup_map_to_list|].
  intros [k v]. rewrite elem_of_map_to_list. apply Hr.
Qed.

(** ** The nearest nodes *)

Definition available (exclude : list Key) (b : Bucket V) : list Key := base.filter (fun k => k ∉ exclude) (nodes b).*1.

Lemma key_max_ok : key_ok key_max.
Proof. split; [apply length_replicate|by apply Forall_replicate]. Qed.
Lemma key_max_value : be_value key_max = 2 ^ 256 - 1.
Proof. vm_compute. reflexivity. Qed.

Lemma closest_loop_spec target skip (l : list (Key * V)) : key_ok target -> Forall (fun x => key_ok x.1) l -> forall best result,
  key_ok best ->
  let '(d, r) := closest_loop target skip l best result in
  key_ok d /\ ((d, r) = (best, result) \/ (r ∈ l.*1 /\ skip r = false /\ be_value d = dist r target /\ be_value d < be_value best))
  /\ forall k, k ∈ l.*1 -> skip k = false -> be_value d <= dist k target.
Proof.
  intros Ht. induction 1 as [|[k v] l Hk Hl IH]; intros best result Hb; cbn [closest_loop].
  { split_and!; [done|by left|]. intros k Hin. by apply elem_of_nil in Hin. }
  cbn [fst] in Hk. pose proof (key_xor_ok k target Hk Ht) as Hkx.
  assert (be_value (key_xor k target) = dist k target) as Ekx by (destruct Hk, Ht; apply key_xor_value; congruence).
  destruct (skip k) eqn:Hs; [|rewrite (key_lt_value (key_xor k target)), Ekx by (destruct Hkx, Hb; congruence || done); destruct (Z.ltb_spec (dist k target) (be_value best))];
    match goal with |- context [closest_loop target skip l ?x ?y] => specialize (IH x y ltac:(done)); destruct (closest_loop target skip l x y) as [d r] end;
    destruct IH as (Hd&Hr&Hf); (split; [done|]); rewrite fmap_cons; cbn [fst].
  - split; [|intros k' [->|Hin]%elem_of_cons Hk'; [congruence|by apply Hf]].
    destruct Hr as [Hr|(Hr&?)]; [by left|right]. split; [by right|done].
  - split; [right|].
    + destruct Hr as [[= -> ->]|(Hr&?&?&?)]; [split_and!; [left|done|done|lia]|]. split_and!; [by right|done|done|lia].
    + intros k' [->|Hin]%elem_of_cons Hk'; [|by apply Hf]. destruct Hr as [[= -> ->]|(Hr&?&?&?)]; lia.
  - split.
    + destruct Hr as [Hr|(Hr&?)]; [by left|right]. split; [by right|done].
    + intros k' [->|Hin]%elem_of_cons Hk'; [|by apply Hf]. destruct Hr as [[= -> ->]|(Hr&?&?&?)]; lia.
Qed.

Lemma dist_range a b : key_ok a -> key_ok b -> 0 <= dist a b < 2 ^ 256.
Proof.
  intros [La Ha] [Lb Hb]. pose proof (be_value_range a Ha) as Ra. pose proof (be_value_range b Hb) as Rb. rewrite La in Ra. rewrite Lb in Rb.
  change (256 ^ Z.of_nat KEYSIZE) with (2 ^ 256) in *. by apply lxor_range.
Qed.

Lemma find_close_excluding target result exclude b : key_ok target -> bucket_ok b ->
  Forall (fun k => dist k target <> 2 ^ 256 - 1) (available exclude b) ->
  let '(ok, r) := FindCloseExcluding target result exclude b in
  if ok then r ∈ available exclude b /\ Forall (fun k => dist r target <= dist k target) (available exclude b)
  else available exclude b = [].
Proof.
  intros Ht [Hu Hl Hs] Hmax. unfold FindCloseExcluding.
  pose proof (closest_loop_spec target (set_count exclude) (nodes b) Ht Hl key_max result key_max_ok) as Hc.
  destruct (closest_loop target (set_count exclude) (nodes b) key_max result) as [d r]. destruct Hc as (Hd&Hr&Hf).
  assert (forall k, k ∈ available exclude b <-> k ∈ (nodes b).*1 /\ set_count exclude k = false) as Hav.
  { intros k. unfold available, set_count. rewrite list_elem_of_filter, bool_decide_eq_false. tauto. }
  rewrite (key_lt_value d key_max) by (destruct Hd, key_max_ok; congruence || done). rewrite key_max_value.
  destruct Hr as [[= -> ->]|(Hr&Hsk&Ed&Hlt)].
  - rewrite key_max_value, Z.ltb_irrefl. destruct (available exclude b) as [|k av] eqn:Eav; [done|exfalso].
    assert (k ∈ k :: av) as Hin by left. rewrite Forall_forall in Hmax. specialize (Hmax k Hin). apply Hav in Hin as [Hin Hsk].
    specialize (Hf k Hin Hsk). rewrite key_max_value in Hf.
    apply list_elem_of_fmap in Hin as (x&->&Hx). rewrite Forall_forall in Hl. pose proof (dist_range x.1 target (Hl x Hx) Ht). lia.
  - rewrite Ed. rewrite Ed, key_max_value in Hlt. rewrite (proj2 (Z.ltb_lt _ _) Hlt). split; [by apply Hav|].
    apply Forall_forall. intros k [Hin Hk]%Hav. rewrite <- Ed. by apply Hf.
Qed.

(** [picked] are the [n] nearest of [l], or all when there are fewer. *)
Record nearest (target : Key) (n : nat) (l picked : list Key) : Prop := {
  near_nodup : NoDup picked;
  near_sub : picked ⊆ l;
  near_count : length picked = Nat.min n (length l);
  near_closer : forall p q, p ∈ picked -> q ∈ l -> q ∉ picked -> dist p target < dist q target }.

Lemma key_lt_total a : forall b, length a = length b -> key_lt a b = false -> key_lt b a = false -> a = b.
Proof.
  induction a as [|x a IH]; intros [|y b] Hl H1 H2; try done. cbn [key_lt] in *.
  destruct (Z.ltb_spec x y); [done|]. destruct (Z.ltb_spec y x); [done|]. f_equal; [lia|]. apply IH; [by injection Hl|done..].
Qed.

Lemma elem_of_set_insert x y s : key_ok y -> Forall key_ok s -> x ∈ set_insert y s <-> x = y \/ x ∈ s.
Proof.
  intros [Hy _]. induction 1 as [|z s [Hz _] Hs IH]; cbn [set_insert]; [by rewrite list_elem_of_singleton, elem_of_nil; tauto|].
  destruct (key_lt y z) eqn:E1; [by rewrite elem_of_cons|]. destruct (key_lt z y) eqn:E2; rewrite !elem_of_cons; [rewrite IH; tauto|].
  rewrite (key_lt_total y z) by (done || congruence). tauto.
Qed.
Lemma set_insert_ok y s : key_ok y -> Forall key_ok s -> Forall key_ok (set_insert y s).
Proof. intros Hy Hs. apply Forall_forall. intros x [->|Hx]%elem_of_set_insert; [done|by rewrite Forall_forall in Hs; apply Hs|done..]. Qed.

Lemma available_ok exclude b : bucket_ok b -> Forall key_ok (available exclude b) /\ NoDup (available exclude b).
Proof.
  intros [Hu Hl Hs]. split; [|apply NoDup_filter; by eapply sorted_nodup].
  apply Forall_forall. intros k [_ (x&->&Hx)%list_elem_of_fmap]%list_elem_of_filter. rewrite Forall_forall in Hl. by apply Hl.
Qed.

(** One more excluded key is one less available. *)
Lemma available_insert r exclude b : key_ok r -> Forall key_ok exclude -> available (set_insert r exclude) b = base.filter (fun k => k <> r) (available exclude b).
Proof.
  intros Hr He. unfold available. rewrite list_filter_filter. apply list_filter_iff. intros k.
  rewrite elem_of_set_insert by done. tauto.
Qed.
Lemma length_filter_ne (r : Key) l : NoDup l -> r ∈ l -> S (length (base.filter (fun k => k <> r) l)) = length l.
Proof.
  induction 1 as [|x l Hx Hl IH]; intros Hin; [by apply elem_of_nil in Hin|]. apply elem_of_cons in Hin as [->|Hin].
  - rewrite filter_cons_False by tauto. rewrite filter_all; [done|]. apply Forall_forall. intros y Hy ->. done.
  - rewrite filter_cons_True by (intros ->; done). cbn [length]. by rewrite IH.
Qed.

Lemma near_loop_spec target b : key_ok target -> bucket_ok b -> forall N s peer result,
  Forall key_ok s -> Forall key_ok result -> Forall (fun k => dist k target <> 2 ^ 256 - 1) (available s b) ->
  exists picked, nearest target N (available s b) picked
    /\ let '(ok, r) := near_loop target N s peer result b in
       ok = bool_decide (N <= length (available s b))%nat /\ Forall key_ok r /\ forall x, x ∈ r <-> x ∈ result \/ x ∈ picked.
Proof.
  intros Ht Hb. induction N as [|N IH]; intros s peer result Hs Hres Hmax; cbn [near_loop].
  { exists []. split; [split; [constructor|set_solver|done|set_solver]|]. split_and!; [done|done|]. intros x. rewrite elem_of_nil. tauto. }
  pose proof (find_close_excluding target peer s b Ht Hb Hmax) as Hf. destruct (available_ok s b Hb) as [Hao Hnd].
  destruct (FindCloseExcluding target peer s b) as [[] r]; cbn [negb].
  2: { exists []. rewrite Hf. split; [split; [constructor|set_solver|done|set_solver]|]. split_and!; [done|done|]. intros x. rewrite elem_of_nil. tauto. }
  destruct Hf as [Hr Hmin]. rewrite Forall_forall in Hao, Hmin. pose proof (Hao r Hr) as Hro.
  destruct (IH (set_insert r s) r (set_insert r result)) as (picked&[Pn Ps Pc Pl]&Hrest); [by apply set_insert_ok..| |].
  { rewrite available_insert by done. apply Forall_forall. intros k [_ Hk]%list_elem_of_filter. rewrite Forall_forall in Hmax. by apply Hmax. }
  rewrite available_insert in Ps, Pc, Pl, Hrest by done. pose proof (length_filter_ne r _ Hnd Hr) as Hlen.
  assert (forall k, k ∈ base.filter (fun k => k <> r) (available s b) <-> k <> r /\ k ∈ available s b) as Hfil by (intros k; by rewrite list_elem_of_filter).
  exists (r :: picked). split; [split|].
  - constructor; [|done]. intros Hin. by apply Ps, Hfil in Hin as [? _].
  - intros k [->|Hk]%elem_of_cons; [done|]. by apply Ps, Hfil in Hk as [_ ?].
  - cbn [length]. lia.
  - intros p q [->|Hp]%elem_of_cons Hq Hnq.
    + assert (q <> r) as Hqr by (intros ->; apply Hnq; left). specialize (Hmin q Hq).
      assert (dist r target <> dist q target); [|lia]. rewrite !(dist_comm _ target). intros E.
      apply Hqr. symmetry. by apply (dist_inj target); [..|apply Hao|].
    + apply Pl; [done|apply Hfil; split; [intros ->; apply Hnq; left|done]|intros Hin; apply Hnq; by right].
  - destruct (near_loop target N (set_insert r s) r (set_insert r result) b) as [ok r']. destruct Hrest as (->&Hok&Hx).
    split_and!; [apply bool_decide_ext; lia|done|]. intros x. rewrite Hx, elem_of_set_insert, elem_of_cons by done. tauto.
Qed.
End BucketMap.

(** ** The closest routers *)

Record db_ok (d : NodeDB) : Prop := {
  db_nodup : NoDup (m_Entries d).*1;
  db_keys : Forall (fun x => x.1 = pubkey (rc x.2) /\ key_ok x.1) (m_Entries d) }.
Definition contacts (d : NodeDB) : list RouterContact := map (fun x => rc x.2) (m_Entries d).

Lemma contacts_keys d : db_ok d -> map pubkey (contacts d) = (m_Entries d).*1.
Proof.
  intros [_ Hk]. unfold contacts. induction Hk as [|[k e] l [Hk _] Hl IH]; [done|]. cbn [map fmap list_fmap fst snd] in *. by rewrite IH, Hk.
Qed.
Lemma contacts_ok d : db_ok d -> NoDup (map pubkey (contacts d)) /\ Forall (fun c => key_ok (pubkey c)) (contacts d).
Proof.
  intros Hd. rewrite contacts_keys by done. destruct Hd as [Hn Hk]. split; [done|]. unfold contacts. rewrite Forall_map.
  eapply Forall_impl; [exact Hk|]. intros x [E Ho]. by rewrite <- E.
Qed.

Definition closer (location : Key) (a b : RouterContact) : Prop := dist location (pubkey a) < dist location (pubkey b).
Definition closer_b (location : Key) (a b : RouterContact) : bool := XorMetric location (pubkey a) (pubkey b).

Lemma insert_sorted_perm {A} (lt : A -> A -> bool) x l : insert_sorted lt x l ≡ₚ x :: l.
Proof. induction l as [|y l IH]; [done|]. cbn [insert_sorted]. destruct (lt y x); [|done]. rewrite IH. apply perm_swap. Qed.
Lemma sort_perm {A} (lt : A -> A -> bool) l : sort lt l ≡ₚ l.
Proof. induction l as [|x l IH]; [done|]. unfold sort in *. cbn [fold_right]. by rewrite insert_sorted_perm, IH. Qed.

Lemma insert_closer location c l : key_ok location -> key_ok (pubkey c) -> Forall (fun c => key_ok (pubkey c)) l ->
  pubkey c ∉ map pubkey l -> StronglySorted (closer location) l -> StronglySorted (closer location) (insert_sorted (closer_b location) c l).
Proof.
  intros Ht Hc. induction l as [|y l IH]; intros Hl Hn Hs; cbn [insert_sorted]; [apply SSorted_cons; constructor|].
  apply Forall_cons in Hl as [Hy Hl]. inversion Hs as [|? ? Hs' Hf]; subst. cbn [map] in Hn. apply not_elem_of_cons in Hn as [Hne Hn].
  unfold closer_b at 1. destruct (metric_cases location (pubkey y) (pubkey c) Ht Hy Hc) as [[Hd ->]|[(Hd&->&_)|(He&_)]]; [| |done].
  - constructor; [by apply IH|]. rewrite insert_sorted_perm. by constructor.
  - constructor; [done|]. constructor; [done|]. eapply Forall_impl; [exact Hf|]. intros z Hz. unfold closer in *. lia.
Qed.

Lemma sort_closer location l : key_ok location -> Forall (fun c => key_ok (pubkey c)) l -> NoDup (map pubkey l) ->
  StronglySorted (closer location) (sort (closer_b location) l).
Proof.
  intros Ht. induction l as [|c l IH]; intros Hl Hn; [constructor|]. apply Forall_cons in Hl as [Hc Hl]. inversion Hn as [|? ? Hc' Hn']; subst.
  unfold sort. cbn [fold_right]. fold (sort (closer_b location) l). apply insert_closer; [done..| | |by apply IH].
  - by rewrite sort_perm.
  - by rewrite sort_perm.
Qed.

Lemma sorted_split {A} (R : A -> A -> Prop) l1 l2 : StronglySorted R (l1 ++ l2) -> forall x y, x ∈ l1 -> y ∈ l2 -> R x y.
Proof.
  induction l1 as [|z l1 IH]; intros Hs x y Hx Hy; [by apply elem_of_nil in Hx|]. cbn [app] in Hs. inversion Hs as [|? ? Hs' Hf]; subst.
  apply elem_of_cons in Hx as [->|Hx]; [|by apply IH]. rewrite Forall_forall in Hf. apply Hf, elem_of_app. by right.
Qed.

Lemma closest_fold location l c0 : key_ok location -> key_ok (pubkey c0) -> pubkey c0 <> key_zero ->
  Forall (fun c => key_ok (pubkey c) /\ pubkey c <> key_zero) l ->
  let c := fold_left (fun c other => if bool_decide (pubkey c = key_zero) then other else if closer_b location other c then other else c) l c0 in
  c ∈ c0 :: l /\ forall x, x ∈ c0 :: l -> dist location (pubkey c) <= dist location (pubkey x).
Proof.
  intros Ht. revert c0. induction l as [|y l IH]; intros c0 Hc0 Hz Hl; cbn [fold_left].
  { split; [left|]. intros x ->%list_elem_of_singleton. lia. }
  apply Forall_cons in Hl as [[Hy Hyz] Hl]. rewrite bool_decide_false by done.
  assert (closer_b location y c0 = (dist location (pubkey y) <? dist location (pubkey c0))) as -> by (by apply metric_spec).
  destruct (Z.ltb_spec (dist location (pubkey y)) (dist location (pubkey c0))) as [Hd|Hd].
  - destruct (IH y Hy Hyz Hl) as [Hin Hmin]. split; [by right|]. intros x [->|Hx]%elem_of_cons; [|by apply Hmin].
    etransitivity; [apply (Hmin y); left|lia].
  - destruct (IH c0 Hc0 Hz Hl) as [Hin Hmin]. split; [apply elem_of_cons in Hin as [->|Hin]; [left|by right; right]|].
    intros x [->|[->|Hx]%elem_of_cons]%elem_of_cons; [apply Hmin; left| |apply Hmin; by right].
    etransitivity; [apply (Hmin c0); left|lia].
Qed.

(** ** What the structures promise *)

(** C36: a bucket holds the newest value put under each key: after any operations
    it agrees with a finite map of them in lookup, membership and size, and its
    nodes are in the order of their distance to its own key. *)
Theorem bucket_refines_map {V} {HB : BucketNode V} us (ops : list (bucket_op (V := V))) : key_ok us -> Forall op_ok ops ->
  let b := fold_left run_op ops (Bucket_new us) in
  let m := fold_left spec_op ops ∅ in
  bucket_ok b /\ (forall k, key_ok k -> map_find us k (nodes b) = m !! k /\ HasNode k b = bool_decide (is_Some (m !! k)))
  /\ Bucket_size b = size m.
Proof.
  intros Hu Ho b m. destruct (run_ops_represent ops (Bucket_new us) ∅) as [Hb Hr]; [split; [done|constructor|constructor]| |done|].
  { intros k v. by rewrite elem_of_nil, lookup_empty. }
  fold b m in Hb, Hr. assert (bucket_us b = us) as Eus.
  { unfold b. clear. assert (forall b : Bucket V, bucket_us (fold_left run_op ops b) = bucket_us b) as E; [|apply E].
    induction ops as [|o ops IH]; intros b; [done|]. cbn [fold_left]. rewrite IH. destruct o; cbn [run_op]; [unfold PutNode|unfold DelNode|done|done];
      by repeat case_match. }
  split; [done|]. split; [|by apply represents_size]. intros k Hk. pose proof (find_represents b m k Hb Hr Hk) as E. rewrite Eus in E.
  split; [done|]. unfold HasNode. rewrite Eus, E. by destruct (m !! k).
Qed.

Definition demo_key (x : Z) : Key := be_bytes 32 x.
Lemma demo_key_ok x : key_ok (demo_key x).
Proof. split; [apply length_be_bytes|apply be_bytes_ok]. Qed.
Definition demo_contact (x t : Z) : RouterContact := mkContact (demo_key x) t [].

Lemma bucket_refines_map_witness :
  let b := fold_left run_op [OpPut (demo_contact 3 10); OpPut (demo_contact 5 10); OpPut (demo_contact 3 20); OpDel (demo_key 5)] (Bucket_new (demo_key 1)) in
  bucket_ok b /\ Bucket_size b = 1%nat.
Proof.
  destruct (bucket_refines_map (demo_key 1) [OpPut (demo_contact 3 10); OpPut (demo_contact 5 10); OpPut (demo_contact 3 20); OpDel (demo_key 5)])
    as (Hb&_&Hs); [apply demo_key_ok|repeat (apply Forall_cons; split; [apply demo_key_ok|]); constructor|].
  split; [exact Hb|]. rewrite Hs. vm_compute. reflexivity.
Defined.

(** [GetManyNearExcluding] adds to its result exactly the [N] nodes nearest to
    the target by exclusive or that are not excluded, all of them when there are
    fewer, and reports whether there were enough. *)
Theorem many_near_correct {V} (b : Bucket V) target result N exclude : key_ok target -> bucket_ok b ->
  Forall key_ok exclude -> Forall key_ok result ->
  Forall (fun k => dist k target <> 2 ^ 256 - 1) (available exclude b) ->
  exists picked, nearest target N (available exclude b) picked
    /\ let '(ok, r) := GetManyNearExcluding target result N exclude b in
       ok = bool_decide (N <= length (available exclude b))%nat /\ forall x, x ∈ r <-> x ∈ result \/ x ∈ picked.
Proof.
  intros Ht Hb He Hr Hm. destruct (near_loop_spec target b Ht Hb N exclude key_zero result He Hr Hm) as (picked&Hn&Hl).
  exists picked. split; [done|]. unfold GetManyNearExcluding. destruct (near_loop _ _ _ _ _ _) as [ok r]. by destruct Hl as (?&_&?).
Qed.

Definition demo_bucket : Bucket RouterContact :=
  fold_left run_op [OpPut (demo_contact 3 1); OpPut (demo_contact 5 1); OpPut (demo_contact 6 1); OpPut (demo_contact 9 1)] (Bucket_new (demo_key 1)).
Lemma demo_bucket_ok : bucket_ok demo_bucket.
Proof.
  apply run_ops_represent with (m := ∅).
  - split; [apply demo_key_ok|constructor|constructor].
  - intros k v. by rewrite elem_of_nil, lookup_empty.
  - repeat (apply Forall_cons; split; [apply demo_key_ok|]). constructor.
Qed.
Lemma many_near_correct_witness : exists picked, nearest (demo_key 4) 2 (available [demo_key 6] demo_bucket) picked
  /\ GetManyNearExcluding (demo_key 4) [] 2 [demo_key 6] demo_bucket = (true, [demo_key 3; demo_key 5]).
Proof.
  destruct (many_near_correct demo_bucket (demo_key 4) [] 2 [demo_key 6]) as (picked&Hn&_);
    [apply demo_key_ok|apply demo_bucket_ok|apply Forall_singleton, demo_key_ok|constructor| |].
  - apply Forall_forall. intros k Hk. assert (k ∈ map demo_key [3; 5; 9]) as Hin.
    { revert Hk. assert (available [demo_key 6] demo_bucket = map demo_key [3; 5; 9]) as -> by (vm_compute; reflexivity). done. }
    apply list_elem_of_fmap in Hin as (x&->&Hx). repeat (apply elem_of_cons in Hx as [->|Hx]; [vm_compute; discriminate|]). by apply elem_of_nil in Hx.
  - exists picked. split; [exact Hn|vm_compute; reflexivity].
Defined.

Lemma visit_contacts {A} (f : A -> RouterContact -> A) d a : VisitAll f d a = fold_left f (contacts d) a.
Proof.
  unfold VisitAll, contacts. generalize (m_Entries d) as l. intros l. revert a. induction l as [|x l IH]; intros a; [done|]. cbn [fold_left map]. apply IH.
Qed.

Lemma nearest_take location n l s : Forall (fun c => key_ok (pubkey c)) l -> NoDup (map pubkey l) -> s ≡ₚ l ->
  StronglySorted (closer location) s -> nearest location n (map pubkey l) (map pubkey (take n s)).
Proof.
  intros Hk Hn Hp Hs. assert (NoDup (map pubkey s)) as Hns by (by rewrite Hp).
  assert (forall c, c ∈ take n s \/ c ∈ drop n s <-> c ∈ l) as Hin by (intros c; rewrite <- elem_of_app, take_drop; by rewrite Hp).
  rewrite <- (take_drop n s), map_app in Hns. split.
  - by apply NoDup_app in Hns as (?&_).
  - intros k (c&->&Hc)%list_elem_of_fmap. apply list_elem_of_fmap_2. apply Hin. by left.
  - rewrite !length_map, length_take. by rewrite Hp.
  - intros p q (c&->&Hc)%list_elem_of_fmap (c'&->&Hc')%list_elem_of_fmap Hq. apply Hin in Hc' as [Hc'|Hc'].
    + exfalso. by apply Hq, list_elem_of_fmap_2.
    + rewrite !(dist_comm _ location). rewrite <- (take_drop n s) in Hs. by apply (sorted_split _ _ _ Hs).
Qed.

(** C37: the node database finds the routers closest to a location: [FindManyClosestTo]
    returns them in the order of their distance, the number asked for or all there
    are, and [FindClosestTo] the first of them. *)
Theorem closest_routers_correct d location n : db_ok d -> key_ok location ->
  Forall (fun c => pubkey c <> key_zero) (contacts d) ->
  let l := FindManyClosestTo location n d in
  StronglySorted (closer location) l /\ nearest location n (map pubkey (contacts d)) (map pubkey l)
  /\ (contacts d <> [] -> FindClosestTo location d ∈ contacts d
       /\ forall c, c ∈ contacts d -> dist location (pubkey (FindClosestTo location d)) <= dist location (pubkey c)).
Proof.
  intros Hd Ht Hz l. destruct (contacts_ok d Hd) as [Hn Hk]. pose proof (sort_closer location _ Ht Hk Hn) as Hs. split; [|split].
  - eapply sublist_sorted; [apply sublist_take|exact Hs].
  - by apply nearest_take; [..|apply sort_perm|].
  - intros Hne. unfold FindClosestTo. rewrite visit_contacts.
    destruct (contacts d) as [|c l0]; [done|]. cbn [fold_left]. rewrite bool_decide_true by done.
    apply Forall_cons in Hk as [Hc Hk], Hz as [Hcz Hz]. apply (closest_fold location l0 c Ht Hc Hcz). by apply Forall_and.
Qed.

Definition demo_db : NodeDB := Put 5 (demo_contact 3 1) (Put 5 (demo_contact 6 1) (Put 5 (demo_contact 12 1) (NodeDB_new 0))).
Lemma closest_routers_correct_witness :
  nearest (demo_key 4) 2 (map pubkey (contacts demo_db)) (map pubkey (FindManyClosestTo (demo_key 4) 2 demo_db))
  /\ FindClosestTo (demo_key 4) demo_db = demo_contact 6 1.
Proof.
  destruct (closest_routers_correct demo_db (demo_key 4) 2) as (_&Hn&_).
  - split; [|repeat (apply Forall_cons; split; [split; [reflexivity|apply demo_key_ok]|]); constructor].
    apply (bool_decide_unpack _). vm_compute. exact I.
  - apply demo_key_ok.
  - apply (bool_decide_unpack _). vm_compute. exact I.
  - split; [exact Hn|vm_compute; reflexivity].
Defined.

(** ** The node database stays well formed *)

Inductive db_op :=
  | DbPut (now : Z) (c : RouterContact)
  | DbPutIfNewer (now : Z) (c : RouterContact)
  | DbRemove (pk : Key)
  | DbRemoveStale (keep : list Key) (cutoff : Z)
  | DbRemoveIf (visit : RouterContact -> bool)
  | DbTick (now : Z).
Definition run_db (d : NodeDB) (o : db_op) : NodeDB :=
  match o with
  | DbPut now c => Put now c d
  | DbPutIfNewer now c => PutIfNewer now c d
  | DbRemove pk => Remove pk d
  | DbRemoveStale keep cutoff => RemoveStaleRCs keep cutoff d
  | DbRemoveIf visit => NodeDB_RemoveIf visit d
  | DbTick now => NodeDB_Tick now d
  end.
Definition db_op_ok (o : db_op) : Prop := match o with DbPut _ c | DbPutIfNewer _ c => key_ok (pubkey c) | _ => True end.
Definition entries_ok (l : list (Key * Entry)) : Prop := NoDup l.*1 /\ Forall (fun x => x.1 = pubkey (rc x.2) /\ key_ok x.1) l.

Lemma find_entry_elem pk e l : NoDup l.*1 -> find_entry pk l = Some e <-> (pk, e) ∈ l.
Proof.
  unfold find_entry. induction l as [|[k v] l IH]; intros Hn; [cbn; by rewrite elem_of_nil|]. inversion Hn as [|? ? Hk Hn']; subst.
  cbn [find fst]. rewrite elem_of_cons. destruct (decide (k = pk)) as [->|Hne].
  - rewrite bool_decide_true by done. cbn. split; [intros [= ->]; by left|]. intros [[= ->]|Hin]; [done|].
    exfalso. apply Hk. by apply (list_elem_of_fmap_2 fst) in Hin.
  - rewrite bool_decide_false, IH by done. split; [by right|]. by intros [[= -> ->]|Hin].
Qed.
Lemma find_entry_none pk l : find_entry pk l = None -> pk ∉ l.*1.
Proof.
  unfold find_entry. intros Hf (x&->&Hx)%list_elem_of_fmap. apply fmap_None in Hf.
  apply list_elem_of_In in Hx. apply (find_none _ _ Hf) in Hx. by rewrite bool_decide_true in Hx.
Qed.

Lemma filter_entries (P : Key * Entry -> Prop) `{forall x, Decision (P x)} l : entries_ok l -> entries_ok (base.filter P l).
Proof.
  intros [Hn Hk]. split.
  - by apply NoDup_fmap_filter.
  - apply Forall_forall. intros x [_ Hx]%list_elem_of_filter. rewrite Forall_forall in Hk. by apply Hk.
Qed.
Lemma emplace_entries now c l : entries_ok l -> key_ok (pubkey c) -> entries_ok (emplace_entry now c l).
Proof.
  intros [Hn Hk] Hc. unfold emplace_entry. destruct (find_entry (pubkey c) l) eqn:E; [done|]. split.
  - cbn [fmap list_fmap fst]. constructor; [by apply find_entry_none|done].
  - by constructor.
Qed.
Lemma erased_entry pk l : find_entry pk (erase_entry pk l) = None.
Proof.
  unfold find_entry. apply fmap_None. destruct (find _ _) as [x|] eqn:E; [|done]. exfalso. apply find_some in E as [Hin Hx].
  apply bool_decide_eq_true in Hx. by apply list_elem_of_In, list_elem_of_filter in Hin as [? _].
Qed.

Lemma run_db_ok d o : db_ok d -> db_op_ok o -> db_ok (run_db d o).
Proof.
  assert (forall d, db_ok d <-> entries_ok (m_Entries d)) as E by (intros d0; split; [by intros [? ?]|by intros [? ?]; split]).
  rewrite !E. intros Hd Ho. destruct o as [now c|now c|pk|keep cutoff|visit|now]; cbn [run_db db_op_ok] in *.
  - apply emplace_entries; [by apply filter_entries|done].
  - unfold PutIfNewer. destruct (find_entry _ _) as [e|]; [destruct (OtherIsNewer _ _); [|done]|];
      (apply emplace_entries; [|done]); [by apply filter_entries|done].
  - unfold Remove, AsyncRemoveManyFromDisk. cbn [m_Root with_entries]. destruct (m_Root d); by apply filter_entries.
  - unfold RemoveStaleRCs, remove_where, AsyncRemoveManyFromDisk. repeat case_match; by apply filter_entries.
  - unfold NodeDB_RemoveIf, remove_where, AsyncRemoveManyFromDisk. repeat case_match; by apply filter_entries.
  - unfold NodeDB_Tick. by repeat case_match.
Qed.



(** ** Where the code falls short *)

(** [GetRandomNodeExcluding] takes the difference of a list in the order of the
    distance to the own key and a set in the order of the bytes; an excluded node
    can be chosen. *)
Lemma random_node_not_excluded :
  let b := fold_left run_op [OpPut (demo_contact 1 1); OpPut (demo_contact 2 1)] (Bucket_new (demo_key 3)) in
  GetRandomNodeExcluding (fun g : Z => (g, g)) [demo_key 1; demo_key 2] b 0 = (Some (demo_key 1), 0).
Proof. vm_compute. reflexivity. Qed.

(** A node at the greatest distance is never found, although it is the only one. *)
Lemma antipode_not_found :
  let b := fold_left run_op [OpPut (mkContact key_max 1 [])] (Bucket_new (demo_key 3)) in
  FindCloseExcluding key_zero key_zero [] b = (false, key_zero) /\ FindClosest key_zero (demo_key 7) b = (true, demo_key 7).
Proof. vm_compute. done. Qed.
