(* ===== verification/DhtTx.v ===== *)
(** * Transactions of the DHT

    [llarp/dht/tx.hpp], [txowner.hpp] and [txholder.hpp]: the lookups a router has
    asked other routers about.  The jobs ([Validate], [Start], [SendReply]) are
    those of the classes derived from [TX]; an operation returns the transactions
    it calls [SendReply] on, in order. *)

From S2P Require Import Prelude Dht.
Open Scope Z_scope.

Record TXOwner := mkOwner { node : Key; txid : Z }.
Definition TXOwner_new : TXOwner := mkOwner key_zero 0.
#[export] Instance TXOwner_eq_dec : EqDecision TXOwner.
Proof. solve_decision. Defined.
#[export] Instance TXOwner_countable : Countable TXOwner.
Proof. refine (inj_countable' (fun o => (node o, txid o)) (fun x => mkOwner x.1 x.2) _). by intros []. Defined.

Record TX (K V J : Type) := mkTX { target : K; peersAsked : list Key; valuesFound : list V; whoasked : TXOwner; job : J }.
Arguments mkTX {K V J}.
Arguments target {K V J}.
Arguments peersAsked {K V J}.
Arguments valuesFound {K V J}.
Arguments whoasked {K V J}.
Arguments job {K V J}.

Record TXHolder (K V J : Type) `{Countable K} := mkHolder {
  waiting : list (K * TXOwner);
  timeouts : gmap K Z;
  tx : gmap TXOwner (TX K V J) }.
Arguments mkHolder {K V J _ _}.
Arguments waiting {K V J _ _}.
Arguments timeouts {K V J _ _}.
Arguments tx {K V J _ _}.

Section Holder.
Context {K V J : Type} `{Countable K}.
(** [Validate] of the transaction, at the time of the call. *)
Context (Validate : TX K V J -> V -> bool).
Abbreviation TX := (TX K V J).
Abbreviation TXHolder := (TXHolder K V J).

Definition OnFound (askedPeer : Key) (t : TX) (value : V) : TX :=
  mkTX (target t) (set_insert askedPeer (peersAsked t))
    (if Validate (mkTX (target t) (set_insert askedPeer (peersAsked t)) (valuesFound t) (whoasked t) (job t)) value
     then valuesFound t ++ [value] else valuesFound t)
    (whoasked t) (job t).

Definition TXHolder_new : TXHolder := mkHolder [] ∅ ∅.
Definition GetPendingLookupFrom (owner : TXOwner) (h : TXHolder) : option TX := tx h !! owner.
Definition HasLookupFor (k : K) (h : TXHolder) : bool := match timeouts h !! k with Some _ => true | None => false end.
Definition HasPendingLookupFrom (owner : TXOwner) (h : TXHolder) : bool :=
  match GetPendingLookupFrom owner h with Some _ => true | None => false end.

(** The owners waiting for a key, [equal_range] *)
Definition waiting_for (k : K) (w : list (K * TXOwner)) : list TXOwner := (base.filter (fun x => x.1 = k) w).*2.
(** Whether [Start] is called.  When the owner has a transaction, [emplace] drops the
    new one, and [Start] would be called on freed memory. *)
Definition NewTX (askpeer : TXOwner) (k : K) (t : TX) (now requestTimeoutMS : Z) (h : TXHolder) : outcome (bool * TXHolder) :=
  let there := match tx h !! askpeer with Some _ => true | None => false end in
  let count := length (waiting_for k (waiting h)) in
  let h' := mkHolder (waiting h ++ [(k, askpeer)])
              (match timeouts h !! k with Some _ => timeouts h | None => <[k := now + requestTimeoutMS]> (timeouts h) end)
              (if there then tx h else <[askpeer := t]> (tx h)) in
  if bool_decide (count = 0%nat) then (if there then Fault else Done (true, h')) else Done (false, h').

(** The loop of [Inform] over the owners *)
Fixpoint inform_loop (from : TXOwner) (values : list V) (sendreply : bool) (owners : list TXOwner)
    (m : gmap TXOwner TX) (replied : list (TXOwner * TX)) : gmap TXOwner TX * list (TXOwner * TX) :=
  match owners with
  | [] => (m, replied)
  | o :: owners =>
      match m !! o with
      | None => inform_loop from values sendreply owners m replied
      | Some t =>
          let t := fold_left (OnFound (node from)) values t in
          if sendreply then inform_loop from values sendreply owners (delete o m) (replied ++ [(o, t)])
          else inform_loop from values sendreply owners (<[o := t]> m) replied
      end
  end.
Definition Inform (from : TXOwner) (key : K) (values : list V) (sendreply removeTimeouts : bool) (h : TXHolder)
  : TXHolder * list (TXOwner * TX) :=
  let '(m, replied) := inform_loop from values sendreply (waiting_for key (waiting h)) (tx h) [] in
  (mkHolder (if sendreply then base.filter (fun x => x.1 <> key) (waiting h) else waiting h)
     (if removeTimeouts then delete key (timeouts h) else timeouts h) m, replied).
Definition Found (from : TXOwner) (k : K) (values : list V) (h : TXHolder) : TXHolder * list (TXOwner * TX) :=
  Inform from k values true true h.
Definition NotFound (from : TXOwner) (h : TXHolder) : TXHolder * list (TXOwner * TX) :=
  match tx h !! from with
  | None => (h, [])
  | Some t => Inform from (target t) [] true true h
  end.
(** The loop of [Expire] over the entries of [timeouts] *)
Fixpoint expire_loop (now : Z) (l : list (K * Z)) (h : TXHolder) (replied : list (TXOwner * TX)) : TXHolder * list (TXOwner * TX) :=
  match l with
  | [] => (h, replied)
  | (k, t) :: l =>
      if t <=? now then
        let '(h, r) := Inform TXOwner_new k [] true false h in
        expire_loop now l (mkHolder (waiting h) (delete k (timeouts h)) (tx h)) (replied ++ r)
      else expire_loop now l h replied
  end.
Definition Expire (now : Z) (h : TXHolder) : TXHolder * list (TXOwner * TX) :=
  expire_loop now (map_to_list (timeouts h)) h [].

(** ** Every transaction is answered once *)

(** A run of a holder in which no transaction is given more than [D]: the time, the
    transactions it was given with the latest time for their answer, and those it
    has replied to. *)
Inductive run (D : Z) : Z -> TXHolder -> list (TXOwner * Z) -> list TXOwner -> Prop :=
  | run_init n : run D n TXHolder_new [] []
  | run_new n h c r o t now d started h' : run D n h c r -> n <= now -> d <= D -> o ∉ c.*1 ->
      NewTX o (target t) t now d h = Done (started, h') -> run D now h' (c ++ [(o, now + D)]) r
  | run_found n h c r from k values : run D n h c r ->
      run D n (Found from k values h).1 c (r ++ (Found from k values h).2.*1)
  | run_notfound n h c r from : run D n h c r -> run D n (NotFound from h).1 c (r ++ (NotFound from h).2.*1)
  | run_expire n h c r now : run D n h c r -> run D n (Expire now h).1 c (r ++ (Expire now h).2.*1).

Definition pending (h : TXHolder) : list TXOwner := (map_to_list (tx h)).*1.

Record holder_ok (h : TXHolder) : Prop := {
  ok_nodup : NoDup (waiting h).*2;
  ok_waiting : forall k o, (k, o) ∈ waiting h <-> exists t, tx h !! o = Some t /\ target t = k;
  ok_timeouts : forall k, k ∈ (waiting h).*1 <-> is_Some (timeouts h !! k) }.

(** What a run keeps: the holder is consistent, every transaction is replied to or
    pending, and those pending have an entry in [timeouts] that is early enough. *)
Record run_ok (D n : Z) (h : TXHolder) (c : list (TXOwner * Z)) (r : list TXOwner) : Prop := {
  run_holder : holder_ok h;
  run_nodup : NoDup c.*1;
  run_all : c.*1 ≡ₚ r ++ pending h;
  run_bound : forall k d, timeouts h !! k = Some d -> d <= n + D;
  run_time : forall o dl t, (o, dl) ∈ c -> tx h !! o = Some t -> exists d, timeouts h !! target t = Some d /\ d <= dl }.

Lemma elem_of_waiting_for k o w : o ∈ waiting_for k w <-> (k, o) ∈ w.
Proof.
  unfold waiting_for. rewrite list_elem_of_fmap. split.
  - intros ([k' o']&->&[<- Hin]%list_elem_of_filter). done.
  - intros Hin. exists (k, o). split; [done|]. by apply list_elem_of_filter.
Qed.

Lemma found_target peer values (t : TX) : target (fold_left (OnFound peer) values t) = target t.
Proof. revert t. induction values as [|v values IH]; intros t; [done|]. cbn [fold_left]. by rewrite IH. Qed.

Lemma inform_loop_spec from values owners : forall m replied, NoDup owners -> Forall (fun o => is_Some (m !! o)) owners ->
  exists r, inform_loop from values true owners m replied = (base.filter (fun x => x.1 ∉ owners) m, replied ++ r) /\ r.*1 = owners.
Proof.
  induction owners as [|o owners IH]; intros m replied Hn Hm; cbn [inform_loop].
  - exists []. rewrite app_nil_r. split; [|done]. f_equal. symmetry. apply map_filter_id. intros k x _. apply not_elem_of_nil.
  - inversion Hn as [|? ? Ho Hn']; subst. apply Forall_cons in Hm as [[t Et] Hm]. rewrite Et.
    destruct (IH (delete o m) (replied ++ [(o, fold_left (OnFound (node from)) values t)]) Hn') as (r&->&Er).
    { eapply Forall_impl; [by apply Forall_and; split; [exact Hm|apply Forall_forall; exact (fun x Hx => Hx)]|].
      intros x [Hx Hin]. rewrite lookup_delete_ne; [done|]. intros ->. done. }
    eexists ((o, _) :: r). rewrite <- app_assoc. split; [f_equal|cbn [fmap list_fmap fst]; by rewrite Er].
    apply map_eq. intros i. apply option_eq. intros x. rewrite !map_lookup_filter_Some, lookup_delete_Some. cbn. rewrite not_elem_of_cons. naive_solver.
Qed.

(** An answer only removes transactions, and replies to some of those there are. *)
Lemma inform_loop_replies from values owners : forall m replied, exists m' r,
  inform_loop from values true owners m replied = (m', replied ++ r) /\ m' ⊆ m /\ (length r <= length owners)%nat
  /\ Forall (fun x => exists t, m !! x.1 = Some t /\ x.2 = fold_left (OnFound (node from)) values t) r.
Proof.
  induction owners as [|o owners IH]; intros m replied; cbn [inform_loop].
  { exists m, []. by rewrite app_nil_r. }
  destruct (m !! o) as [t|] eqn:Et.
  - destruct (IH (delete o m) (replied ++ [(o, fold_left (OnFound (node from)) values t)])) as (m'&r&E&Hm&Hl&Hr).
    exists m', ((o, fold_left (OnFound (node from)) values t) :: r). rewrite E, <- app_assoc. split; [done|].
    split; [etransitivity; [exact Hm|apply delete_subseteq]|]. split; [cbn; lia|]. constructor; [by exists t|].
    eapply Forall_impl; [exact Hr|]. intros x (t'&Ht'&Ex). exists t'. split; [|done]. eapply lookup_weaken; [exact Ht'|apply delete_subseteq].
  - destruct (IH m replied) as (m'&r&E&Hm&Hl&Hr). exists m', r. rewrite E. split_and!; [done..|cbn; lia|done].
Qed.
Lemma length_waiting_for k w : (length (waiting_for k w) <= length w)%nat.
Proof. unfold waiting_for. rewrite length_fmap. apply length_filter. Qed.
Lemma inform_replies from k values remove h : exists r, (Inform from k values true remove h).2 = r /\ tx (Inform from k values true remove h).1 ⊆ tx h
  /\ (length r <= length (waiting h))%nat
  /\ Forall (fun x => exists t, tx h !! x.1 = Some t /\ x.2 = fold_left (OnFound (node from)) values t) r.
Proof.
  unfold Inform. destruct (inform_loop_replies from values (waiting_for k (waiting h)) (tx h) []) as (m'&r&E&Hm&Hl&Hr). rewrite E. cbn [fst snd tx].
  exists r. split_and!; [done..| |done]. pose proof (length_waiting_for k (waiting h)). lia.
Qed.
Lemma notfound_replies from h : exists r, (NotFound from h).2 = r /\ tx (NotFound from h).1 ⊆ tx h /\ Forall (fun x => tx h !! x.1 = Some x.2) r.
Proof.
  unfold NotFound. destruct (tx h !! from) as [t|]; [|exists []; split_and!; [done..|constructor]]. destruct (inform_replies from (target t) [] true h) as (r&E&Hm&_&Hr).
  exists r. split_and!; [done..|]. eapply Forall_impl; [exact Hr|]. intros x (t'&Ht&->). done.
Qed.
Lemma expire_loop_replies now l : forall h replied, exists r, (expire_loop now l h replied).2 = replied ++ r /\ tx (expire_loop now l h replied).1 ⊆ tx h
  /\ Forall (fun x => tx h !! x.1 = Some x.2) r.
Proof.
  induction l as [|[k d] l IH]; intros h replied; cbn [expire_loop]; [exists []; rewrite app_nil_r; split_and!; [done..|constructor]|]. destruct (d <=? now); [|apply IH].
  destruct (inform_replies TXOwner_new k [] false h) as (r&E&Hm&_&Hr). destruct (Inform _ _ _ _ _ h) as [h' r'] eqn:Ei. cbn [fst snd] in E, Hm. subst r'.
  destruct (IH (mkHolder (waiting h') (delete k (timeouts h')) (tx h')) (replied ++ r)) as (r2&E2&Hm2&Hr2). cbn [tx] in Hm2, Hr2.
  exists (r ++ r2). rewrite E2, <- app_assoc. split; [done|]. split; [by etransitivity|]. apply Forall_app. split.
  - eapply Forall_impl; [exact Hr|]. intros x (t'&Ht&->). done.
  - eapply Forall_impl; [exact Hr2|]. intros x Hx. exact (lookup_weaken _ _ _ _ Hx Hm).
Qed.

Lemma elem_of_pending h o : o ∈ pending h <-> is_Some (tx h !! o).
Proof.
  unfold pending. rewrite list_elem_of_fmap. split.
  - intros ([o' t]&->&Hin%elem_of_map_to_list). by exists t.
  - intros [t Ht]. exists (o, t). split; [done|]. by apply elem_of_map_to_list.
Qed.
Lemma pending_nodup h : NoDup (pending h).
Proof. apply NoDup_fst_map_to_list. Qed.

Lemma waiting_for_nodup k h : holder_ok h -> NoDup (waiting_for k (waiting h)).
Proof.
  intros [Hn _ _]. by apply NoDup_fmap_filter.
Qed.

(** Answering a key replies to all who wait for it, and to no one else. *)
Lemma inform_ok from k values h : holder_ok h ->
  let '(h', r) := Inform from k values true true h in
  holder_ok h' /\ pending h ≡ₚ r.*1 ++ pending h' /\ (forall o, o ∈ r.*1 <-> (k, o) ∈ waiting h)
  /\ timeouts h' = delete k (timeouts h) /\ tx h' ⊆ tx h.
Proof.
  intros Hh. pose proof (waiting_for_nodup k h Hh) as Hn. unfold Inform.
  destruct (inform_loop_spec from values (waiting_for k (waiting h)) (tx h) []) as (r&->&Er); [done| |].
  { apply Forall_forall. intros o Ho. apply elem_of_waiting_for in Ho. apply (ok_waiting h Hh) in Ho as (t&->&_). done. }
  rewrite app_nil_l. set (h' := mkHolder _ _ _).
  assert (forall o t, tx h' !! o = Some t <-> tx h !! o = Some t /\ target t <> k) as Htx.
  { intros o t. cbn [tx h']. rewrite map_lookup_filter_Some. cbn [fst]. rewrite elem_of_waiting_for, (ok_waiting h Hh). split.
    - intros [Ht Hno]. split; [done|]. intros Hk. apply Hno. by exists t.
    - intros [Ht Hk]. split; [done|]. intros (t'&Ht'&Hk'). congruence. }
  assert (forall x, x ∈ waiting h' <-> x ∈ waiting h /\ x.1 <> k) as Hw by (intros x; cbn [waiting h']; rewrite list_elem_of_filter; tauto).
  split_and!.
  - split.
    + cbn [waiting h']. apply NoDup_fmap_filter, Hh.
    + intros k' o. rewrite Hw, (ok_waiting h Hh). cbn [fst]. setoid_rewrite Htx. naive_solver.
    + intros k'. cbn [timeouts h']. destruct (decide (k' = k)) as [->|Hne].
      * rewrite lookup_delete_eq. split; [|by intros []]. intros (x&->&Hx)%list_elem_of_fmap. apply Hw in Hx as [_ ?]. done.
      * rewrite lookup_delete_ne, <- (ok_timeouts h Hh) by done. rewrite !list_elem_of_fmap. setoid_rewrite Hw. naive_solver.
  - apply NoDup_Permutation; [apply pending_nodup| |].
    + apply NoDup_app. split_and!; [by rewrite Er| |apply pending_nodup]. intros o. rewrite Er, elem_of_waiting_for, (ok_waiting h Hh).
      intros (t&Ht&Hk) [t' [Ht' Hk']%Htx]%elem_of_pending. congruence.
    + intros o. rewrite elem_of_app, Er, elem_of_waiting_for, !elem_of_pending, (ok_waiting h Hh). split.
      * intros [t Ht]. destruct (decide (target t = k)); [left; by exists t|right; exists t; by apply Htx].
      * intros [(t&Ht&_)|[t [Ht _]%Htx]]; by exists t.
  - intros o. by rewrite Er, elem_of_waiting_for.
  - done.
  - apply map_subseteq_spec. intros o t [Ht _]%Htx. done.
Qed.

Lemma expire_step k h :
  let '(h1, r) := Inform TXOwner_new k [] true false h in
  (mkHolder (waiting h1) (delete k (timeouts h1)) (tx h1), r) = Inform TXOwner_new k [] true true h.
Proof. unfold Inform. by destruct (inform_loop _ _ _ _ _ _). Qed.

Lemma expire_loop_ok now l : forall h replied, holder_ok h ->
  exists r, (expire_loop now l h replied).2 = replied ++ r
  /\ let h' := (expire_loop now l h replied).1 in
     holder_ok h' /\ pending h ≡ₚ r.*1 ++ pending h' /\ timeouts h' ⊆ timeouts h /\ tx h' ⊆ tx h
     /\ forall k d, (k, d) ∈ l -> d <= now -> timeouts h' !! k = None.
Proof.
  induction l as [|[k t] l IH]; intros h replied Hh; cbn [expire_loop].
  { exists []. cbn [fst snd]. rewrite app_nil_r. split_and!; [done..|]. intros k d Hin. by apply elem_of_nil in Hin. }
  destruct (Z.leb_spec t now) as [Ht|Ht].
  - pose proof (expire_step k h) as Es. pose proof (inform_ok TXOwner_new k [] h Hh) as Hi.
    destruct (Inform TXOwner_new k [] true false h) as [h1 r1]. rewrite <- Es in Hi.
    set (h2 := mkHolder (waiting h1) (delete k (timeouts h1)) (tx h1)) in *. destruct Hi as (Hh2&Hp&_&Hto&Htx).
    destruct (IH h2 (replied ++ r1) Hh2) as (r&Er&Hh'&Hp'&Hto'&Htx'&Hex). exists (r1 ++ r).
    split; [by rewrite Er, app_assoc|]. split_and!; [done| | |by etransitivity|].
    + rewrite Hp, Hp', fmap_app, app_assoc. done.
    + etransitivity; [exact Hto'|]. rewrite Hto. apply delete_subseteq.
    + intros k' d [[= -> ->]|Hin]%elem_of_cons Hd; [|by apply (Hex k' d)].
      eapply lookup_weaken_None; [|exact Hto']. rewrite Hto. apply lookup_delete_eq.
  - destruct (IH h replied Hh) as (r&Er&Hh'&Hp'&Hto'&Htx'&Hex). exists r. split_and!; [done..|].
    intros k' d [[= -> ->]|Hin]%elem_of_cons Hd; [lia|by apply (Hex k' d)].
Qed.

(** After [Expire] no transaction is left whose time has come. *)
Lemma expire_ok now h : holder_ok h ->
  holder_ok (Expire now h).1 /\ pending h ≡ₚ (Expire now h).2.*1 ++ pending (Expire now h).1
  /\ timeouts (Expire now h).1 ⊆ timeouts h /\ tx (Expire now h).1 ⊆ tx h
  /\ forall k d, timeouts h !! k = Some d -> d <= now -> timeouts (Expire now h).1 !! k = None.
Proof.
  intros Hh. unfold Expire. destruct (expire_loop_ok now (map_to_list (timeouts h)) h [] Hh) as (r&Er&Hh'&Hp&Hto&Htx&Hex).
  rewrite Er, app_nil_l. split_and!; [done..|]. intros k d Hk. apply Hex. by apply elem_of_map_to_list.
Qed.

Lemma new_ok o t now d h started h' : holder_ok h -> tx h !! o = None -> NewTX o (target t) t now d h = Done (started, h') ->
  holder_ok h' /\ pending h' ≡ₚ o :: pending h /\ tx h' = <[o := t]> (tx h)
  /\ timeouts h' = match timeouts h !! target t with Some _ => timeouts h | None => <[target t := now + d]> (timeouts h) end
  /\ (started = true <-> target t ∉ (waiting h).*1).
Proof.
  intros Hh Ho. unfold NewTX. rewrite Ho. intros E.
  assert (started = bool_decide (length (waiting_for (target t) (waiting h)) = 0%nat) /\
    h' = mkHolder (waiting h ++ [(target t, o)]) (match timeouts h !! target t with Some _ => timeouts h | None => <[target t := now + d]> (timeouts h) end) (<[o := t]> (tx h)))
    as [-> ->] by (destruct (bool_decide _); by injection E).
  clear E. split_and!; [|by unfold pending; cbn [tx]; rewrite map_to_list_insert by done|done|done|].
  - split; cbn [waiting tx timeouts].
    + rewrite fmap_app. apply NoDup_app. split_and!; [apply Hh| |apply NoDup_singleton]. cbn. intros o' Ho' ->%list_elem_of_singleton.
      apply list_elem_of_fmap in Ho' as ([k o'']&Eo&Hin). cbn in Eo. subst o''. apply (ok_waiting h Hh) in Hin as (t'&Ht'&_). congruence.
    + intros k o'. rewrite elem_of_app, list_elem_of_singleton, (ok_waiting h Hh). destruct (decide (o' = o)) as [->|Hne].
      * rewrite lookup_insert_eq, Ho. naive_solver.
      * rewrite lookup_insert_ne by done. naive_solver.
    + intros k. rewrite fmap_app, elem_of_app, (ok_timeouts h Hh). cbn. rewrite list_elem_of_singleton.
      destruct (timeouts h !! target t) as [e|] eqn:Et.
      * split; [|by left]. intros [?| ->]; [done|by exists e].
      * destruct (decide (k = target t)) as [->|Hne]; [rewrite lookup_insert_eq; naive_solver|].
        rewrite lookup_insert_ne by done. naive_solver.
  - rewrite bool_decide_eq_true. split.
    + intros Hl ([k o']&Ek&Hin)%list_elem_of_fmap. cbn in Ek. subst k. apply elem_of_waiting_for in Hin.
      apply length_zero_iff_nil in Hl. rewrite Hl in Hin. by apply elem_of_nil in Hin.
    + intros Hno. destruct (waiting_for (target t) (waiting h)) as [|o' l] eqn:El; [done|]. exfalso. apply Hno.
      assert ((target t, o') ∈ waiting h) as Hin by (apply elem_of_waiting_for; rewrite El; left).
      by apply (list_elem_of_fmap_2 fst) in Hin.
Qed.

(** An operation that replies to some of the pending transactions. *)
Lemma run_answer D n h c r h' rr : run_ok D n h c r -> holder_ok h' -> pending h ≡ₚ rr ++ pending h' ->
  timeouts h' ⊆ timeouts h -> tx h' ⊆ tx h -> run_ok D n h' c (r ++ rr).
Proof.
  intros [Hh Hn Ha Hb Ht] Hh' Hp Hto Htx. split; [done|done| | |].
  - by rewrite Ha, Hp, app_assoc.
  - intros k d Hk. apply (Hb k). by eapply lookup_weaken.
  - intros o dl t Hin Hot. assert (is_Some (timeouts h' !! target t)) as [d Hd].
    { apply (ok_timeouts h' Hh'). assert ((target t, o) ∈ waiting h') as Hw by (apply (ok_waiting h' Hh'); by exists t).
      by apply (list_elem_of_fmap_2 fst) in Hw. }
    exists d. split; [done|]. destruct (Ht o dl t Hin) as (d'&Hd'&Hle); [by eapply lookup_weaken|].
    assert (timeouts h !! target t = Some d) by (by eapply lookup_weaken). congruence.
Qed.

Lemma run_invariant D n h c r : run D n h c r -> run_ok D n h c r.
Proof.
  induction 1 as [n|n h c r o t now d started h' Hr IH Hnow Hd Ho E|n h c r from k values Hr IH|n h c r from Hr IH|n h c r now Hr IH].
  - split; [split|constructor|done|by intros k d|]; [constructor| | |].
    + intros k o. cbn [waiting tx TXHolder_new]. rewrite elem_of_nil. split; [done|]. by intros (t&Ht&_).
    + intros k. cbn [waiting timeouts TXHolder_new fmap list_fmap]. rewrite elem_of_nil. split; [done|by intros []].
    + intros o dl t Hin. by apply elem_of_nil in Hin.
  - destruct IH as [Hh Hn Ha Hb Ht].
    assert (tx h !! o = None) as Hno.
    { destruct (tx h !! o) as [t'|] eqn:Et; [|done]. exfalso. apply Ho. rewrite Ha, elem_of_app. right. by apply elem_of_pending. }
    destruct (new_ok o t now d h started h' Hh Hno E) as (Hh'&Hp&Htx&Hto&_). split; [done| | | |].
    + rewrite fmap_app. apply NoDup_app. split_and!; [done| |apply NoDup_singleton]. intros x Hx ->%list_elem_of_singleton. done.
    + rewrite fmap_app, Ha, Hp. cbn. rewrite <- app_assoc. apply Permutation_app_head. by rewrite Permutation_app_comm.
    + intros k e. rewrite Hto. destruct (timeouts h !! target t); [intros Hk; specialize (Hb k e Hk); lia|].
      intros [[<- <-]|[_ Hk]]%lookup_insert_Some; [lia|]. specialize (Hb k e Hk). lia.
    + intros o' dl t' Hin. rewrite Htx. intros [[<- <-]|[Hne Hot]]%lookup_insert_Some.
      * assert (dl = now + D) as ->.
        { apply elem_of_app in Hin as [Hin|[= ->]%list_elem_of_singleton]; [|done]. exfalso. apply Ho. by apply (list_elem_of_fmap_2 fst) in Hin. }
        rewrite Hto. destruct (timeouts h !! target t) as [e|] eqn:Et; [exists e|exists (now + d)].
        -- split; [done|]. specialize (Hb _ _ Et). lia.
        -- rewrite lookup_insert_eq. split; [done|lia].
      * apply elem_of_app in Hin as [Hin|[= -> ->]%list_elem_of_singleton]; [|done]. destruct (Ht o' dl t' Hin Hot) as (e&He&Hle).
        exists e. split; [|done]. rewrite Hto. destruct (timeouts h !! target t) eqn:Et; [done|].
        rewrite lookup_insert_ne by congruence. done.
  - pose proof (inform_ok from k values h (run_holder _ _ _ _ _ IH)) as Hi. unfold Found. destruct (Inform from k values true true h) as [h' rr].
    destruct Hi as (Hh'&Hp&_&Hto&Htx). eapply run_answer; [exact IH|done|done|cbn; rewrite Hto; apply delete_subseteq|done].
  - unfold NotFound. destruct (tx h !! from) as [t|]; [|by cbn [fst snd fmap list_fmap]; rewrite app_nil_r].
    pose proof (inform_ok from (target t) [] h (run_holder _ _ _ _ _ IH)) as Hi. destruct (Inform from (target t) [] true true h) as [h' rr].
    destruct Hi as (Hh'&Hp&_&Hto&Htx). eapply run_answer; [exact IH|done|done|cbn; rewrite Hto; apply delete_subseteq|done].
  - destruct (expire_ok now h (run_holder _ _ _ _ _ IH)) as (Hh'&Hp&Hto&Htx&_). by eapply run_answer.
Qed.
End Holder.

(** C25: every transaction given to a holder is replied to exactly once: at any time
    those replied to and those pending are all that were given, without
    repetition, and the first [Expire] after the longest time allowed replies to
    what is still pending. *)
Theorem transactions_answered_once {K V J} `{Countable K} (Validate : TX K V J -> V -> bool) D n h c r now : run Validate D n h c r ->
  c.*1 ≡ₚ r ++ pending h /\ NoDup (r ++ pending h)
  /\ forall o dl, (o, dl) ∈ c -> dl <= now -> o ∈ r ++ (Expire Validate now h).2.*1.
Proof.
  intros Hr. destruct (run_invariant Validate D n h c r Hr) as [Hh Hn Ha Hb Ht]. split; [done|]. split; [by rewrite <- Ha|].
  intros o dl Hin Hdl. destruct (expire_ok Validate now h Hh) as (Hh'&Hp&_&Htx&Hex).
  assert (o ∈ r ++ pending h) as Ho by (rewrite <- Ha; by apply (list_elem_of_fmap_2 fst) in Hin).
  rewrite Hp, app_assoc, elem_of_app in Ho. destruct Ho as [Ho|Ho]; [done|]. exfalso. apply elem_of_pending in Ho as [t Hot].
  destruct (Ht o dl t Hin) as (d&Hd&Hle); [by eapply lookup_weaken|].
  assert (target t ∈ (waiting (Expire Validate now h).1).*1) as Hw.
  { assert ((target t, o) ∈ waiting (Expire Validate now h).1) as Hw by (apply (ok_waiting _ Hh'); by exists t).
    by apply (list_elem_of_fmap_2 fst) in Hw. }
  apply (ok_timeouts _ Hh') in Hw. rewrite (Hex _ d Hd ltac:(lia)) in Hw. by destruct Hw.
Qed.

Definition demo_owner (x : Z) : TXOwner := mkOwner (demo_key x) x.
Definition demo_tx (k x : Z) : TX Z Z unit := mkTX k [] [] (demo_owner x) ().
Definition demo_valid (t : TX Z Z unit) (v : Z) : bool := v <? 100.

(** Two lookups of one key and one of another, the first key answered. *)
Lemma transactions_answered_once_witness : exists h, run demo_valid 15 12 h [(demo_owner 1, 25); (demo_owner 2, 26); (demo_owner 3, 27)] [demo_owner 1; demo_owner 2]
  /\ demo_owner 3 ∈ [demo_owner 1; demo_owner 2] ++ (Expire demo_valid 27 h).2.*1.
Proof.
  assert (exists h, run demo_valid 15 12 h [(demo_owner 1, 25); (demo_owner 2, 26); (demo_owner 3, 27)] [demo_owner 1; demo_owner 2]) as [h Hr].
  { assert (forall o (l : list TXOwner), bool_decide (o ∈ l) = false -> o ∉ l) as Hno by (intros o l Hb; by apply bool_decide_eq_false in Hb).
    pose proof (run_init demo_valid 15 0) as H0.
    pose proof (run_new demo_valid 15 _ _ _ _ (demo_owner 1) (demo_tx 7 1) 10 15 true _ H0 ltac:(lia) ltac:(lia) ltac:(apply Hno; vm_compute; reflexivity) eq_refl) as H1.
    pose proof (run_new demo_valid 15 _ _ _ _ (demo_owner 2) (demo_tx 7 2) 11 15 false _ H1 ltac:(lia) ltac:(lia) ltac:(apply Hno; vm_compute; reflexivity) eq_refl) as H2.
    pose proof (run_new demo_valid 15 _ _ _ _ (demo_owner 3) (demo_tx 8 3) 12 15 true _ H2 ltac:(lia) ltac:(lia) ltac:(apply Hno; vm_compute; reflexivity) eq_refl) as H3.
    eexists. exact (run_found demo_valid 15 _ _ _ _ (demo_owner 1) 7 [50; 200] H3). }
  exists h. split; [exact Hr|].
  destruct (transactions_answered_once demo_valid 15 12 h _ _ 27 Hr) as (_&_&Hd). apply (Hd (demo_owner 3) 27); [by right; right; left|lia].
Defined.
