(* ===== verification/DhtContext.v ===== *)
(** * The DHT context

    [llarp/dht/context.cpp], the jobs of [llarp/dht/] (lookups of routers and
    introduction sets, publishing, exploration), the handlers of the messages of
    [llarp/dht/messages/] and the encrypted introduction sets of
    [llarp/service/intro_set.cpp].  Messages that are sent, results that are handed
    out and calls into other parts of the router are events; what those parts
    answer is in [Env]. *)

From S2P Require Import Prelude Buffer Bencode Crypto Dht DhtTx.
Open Scope Z_scope.

(** ** Encrypted introduction sets *)

Record EncryptedIntroSet := mkIntroSet {
  derivedSigningKey : Key;
  signedAt : Z;
  introsetPayload : list Z;
  nounce : list Z;
  sig : list Z }.
Definition set_derivedSigningKey (v : Key) (x : EncryptedIntroSet) : EncryptedIntroSet :=
  mkIntroSet v (signedAt x) (introsetPayload x) (nounce x) (sig x).
Definition set_signedAt (v : Z) (x : EncryptedIntroSet) : EncryptedIntroSet :=
  mkIntroSet (derivedSigningKey x) v (introsetPayload x) (nounce x) (sig x).
Definition set_introsetPayload (v : list Z) (x : EncryptedIntroSet) : EncryptedIntroSet :=
  mkIntroSet (derivedSigningKey x) (signedAt x) v (nounce x) (sig x).
Definition set_nounce (v : list Z) (x : EncryptedIntroSet) : EncryptedIntroSet :=
  mkIntroSet (derivedSigningKey x) (signedAt x) (introsetPayload x) v (sig x).
Definition set_sig (v : list Z) (x : EncryptedIntroSet) : EncryptedIntroSet :=
  mkIntroSet (derivedSigningKey x) (signedAt x) (introsetPayload x) (nounce x) v.
Definition IntroSet_new : EncryptedIntroSet := mkIntroSet key_zero 0 [] (replicate 32 0) (replicate 64 0).
#[export] Instance EncryptedIntroSet_eq_dec : EqDecision EncryptedIntroSet.
Proof. solve_decision. Defined.

Definition MAX_INTROSET_SIZE : nat := Z.to_nat 4096.
(** Milliseconds *)
Definition MAX_INTROSET_TIME_DELTA : Z := 10000.
Definition default_lifetime : Z := 1200000.

Definition IntroSet_BEncode (i : EncryptedIntroSet) (b : llarp_buffer_t) : bool * llarp_buffer_t :=
  and_then (bencode_start_dict b) (fun b =>
  and_then (@BEncodeWriteDictEntry _ (aligned 32) [100] (derivedSigningKey i) b) (fun b =>
  and_then (@BEncodeWriteDictEntry _ (aligned 32) [110] (nounce i) b) (fun b =>
  and_then (BEncodeWriteDictInt [115] (u64 (signedAt i)) b) (fun b =>
  and_then (bencode_write_bytestring b [120]) (fun b =>
  and_then (bencode_write_bytestring b (introsetPayload i)) (fun b =>
  and_then (@BEncodeWriteDictEntry _ (aligned 64) [122] (sig i) b) bencode_end)))))).
Definition IntroSet_DecodeKey (i : EncryptedIntroSet) (key b : llarp_buffer_t) : outcome (bool * llarp_buffer_t * EncryptedIntroSet) :=
  if startswith key [120] then
    let! (strbuf, b) := bencode_read_string b in
    match strbuf with
    | None => Done (false, b, i)
    | Some s => if bool_decide (MAX_INTROSET_SIZE < sz s)%nat then Done (false, b, i) else Done (true, b, set_introsetPayload (base s) i)
    end
  else
    let! (ok, x, read, b) := @BEncodeMaybeReadDictEntry _ (aligned 32) [100] (derivedSigningKey i) false key b in
    if negb ok then Done (false, b, i) else let i := set_derivedSigningKey x i in
    let! (ok, x, read, b) := @BEncodeMaybeReadDictEntry _ (aligned 32) [110] (nounce i) read key b in
    if negb ok then Done (false, b, i) else let i := set_nounce x i in
    let! (ok, v, read, b) := BEncodeMaybeReadDictInt 64 [115] (signedAt i) read key b in
    if negb ok then Done (false, b, i) else let i := if startswith key [115] then set_signedAt (s64 v) i else i in
    let! (ok, x, read, b) := @BEncodeMaybeReadDictEntry _ (aligned 64) [122] (sig i) read key b in
    if negb ok then Done (false, b, i) else Done (read, b, set_sig x i).
Definition IntroSet_BDecode (i : EncryptedIntroSet) (b : llarp_buffer_t) : outcome (bool * llarp_buffer_t * EncryptedIntroSet) :=
  bencode_decode_dict (S (S (sz b))) IntroSet_DecodeKey i b.
Definition intro_OtherIsNewer (i other : EncryptedIntroSet) : bool := signedAt i <? signedAt other.
Definition intro_IsExpired (now : Z) (i : EncryptedIntroSet) : bool := signedAt i + default_lifetime <=? now.
Definition intro_Verify `{Sodium} (now : Z) (i : EncryptedIntroSet) : bool :=
  if intro_IsExpired now i then false
  else
    let '(ok, b) := IntroSet_BEncode (set_sig (replicate 64 0) i) (Buf (replicate (MAX_INTROSET_SIZE + 128) 0) 0) in
    ok && verify (derivedSigningKey i) (take (cur b) (base b)) (sig i).

(** [IMNode] *)
#[export] Instance IMNode : BucketNode EncryptedIntroSet := { ID := derivedSigningKey; older := intro_OtherIsNewer }.

(** ** Messages, jobs and events *)

Inductive DhtMessage :=
  | FindRouterMessage (From pathID targetKey : Key) (iterative exploritory : bool) (id : Z)
  | RelayedFindRouterMessage (From pathID targetKey : Key) (iterative exploritory : bool) (id : Z)
  | GotRouterMessage (From pathID : Key) (foundRCs : list RouterContact) (nearKeys : list Key) (closerTarget : option Key) (id : Z) (relayed : bool)
  | FindIntroMessage (From pathID location tagName : Key) (id : Z) (relayed : bool) (relayOrder : Z)
  | GotIntroMessage (From pathID : Key) (found : list EncryptedIntroSet) (id : Z)
  | RelayedGotIntroMessage (From pathID : Key) (found : list EncryptedIntroSet) (id : Z)
  | PublishIntroMessage (From pathID : Key) (introset : EncryptedIntroSet) (relayed : bool) (relayOrder id : Z)
  | FindNameMessage (From pathID NameHash : Key) (id : Z)
  | GotNameMessage (From pathID : Key) (ciphertext nonce : list Z) (id : Z).
Definition PATHID0 : Key := replicate 16 0.
Definition TAG0 : Key := replicate 16 0.
(** The constructors the code uses for replies and requests. *)
Definition FRM (id : Z) (targetKey : Key) : DhtMessage := FindRouterMessage key_zero PATHID0 targetKey false false id.
Definition FRM_explore (id : Z) (targetKey : Key) : DhtMessage := FindRouterMessage key_zero PATHID0 targetKey false true id.
Definition GRM (from : Key) (id : Z) (results : list RouterContact) (tunneled : bool) : DhtMessage := GotRouterMessage from PATHID0 results [] None id tunneled.
Definition GRM_closer (from closer : Key) (id : Z) : DhtMessage := GotRouterMessage from PATHID0 [] [] (Some closer) id false.
Definition GRM_near (id : Z) (near : list Key) : DhtMessage := GotRouterMessage key_zero PATHID0 [] near None id false.
Definition FIM (id : Z) (addr : Key) (order : Z) : DhtMessage := FindIntroMessage key_zero PATHID0 addr TAG0 id false order.
Definition GIM (results : list EncryptedIntroSet) (id : Z) : DhtMessage := GotIntroMessage key_zero PATHID0 results id.
Definition PIM (i : EncryptedIntroSet) (id : Z) (order : Z) : DhtMessage := PublishIntroMessage key_zero PATHID0 i false order id.

(** What is done with the result of a lookup: nothing, [HandleDHTLookupForExplore],
    [HandleDHTLookupResult] of the lookup handler, or a function that was passed. *)
Inductive Handler := NoHandler | ExploreResult (pk : Key) | LookupResult (router : Key) | UserHandler (n : Z).
Inductive RouterJob := RecursiveRouterLookup (result : Handler) | LocalRouterLookup (localPath : Key).
Inductive IntroJob :=
  | ServiceAddressLookup (location : Key) (relayOrder : Z) (handler : Handler)
  | LocalServiceAddressLookup (location : Key) (relayOrder : Z) (localPath : Key)
  | PublishServiceJob (introset : EncryptedIntroSet) (relayOrder : Z)
  | LocalPublishServiceJob (introset : EncryptedIntroSet) (relayOrder : Z) (localPath : Key) (id : Z).

Inductive DhtEvent :=
  | SendTo (peer : Key) (msg : DhtMessage)
  | PersistSessionUntil (peer : Key) (until : Z)
  | SendOnPath (path : Key) (msg : DhtMessage)
  | RouterResult (h : Handler) (found : list RouterContact)
  | IntroResult (h : Handler) (found : list EncryptedIntroSet)
  | CheckRC (c : RouterContact)
  | Gossip (c : RouterContact)
  | HandleGossipedRC (c : RouterContact)
  | LookupBNSNameHash (hash path : Key) (id : Z)
  | ToPathSet (path : Key) (msg : DhtMessage).

(** What other parts of the router answer. *)
Record Env := mkEnv {
  Now : Z;
  rc_Verify : RouterContact -> bool;
  rc_IsExpired : RouterContact -> bool;
  rc_ExpiresSoon : RouterContact -> bool;
  check_rc : RouterContact -> bool;
  our_rc : RouterContact;
  SessionToRouterAllowed : Key -> bool;
  IsBadForConnect : Key -> bool;
  GetByUpstream : Key -> Key -> bool;
  path_takes : Key -> list DhtMessage -> bool;
  has_pathset : Key -> bool;
  pathset_takes : DhtMessage -> Key -> bool;
  has_peerDb : bool;
  IsMasterNode : bool }.

Abbreviation RouterTX := (TX Key RouterContact RouterJob).
Abbreviation IntroTX := (TX TXOwner EncryptedIntroSet IntroJob).
Abbreviation ExploreTX := (TX Key Key ()).

Section Context.
Context `{Sodium}.

Record Context := mkContext {
  ourKey : Key;
  ids : Z;
  _nodes : Bucket RouterContact;
  _services : Bucket EncryptedIntroSet;
  allowTransit : bool;
  pendingRouterLookups : TXHolder Key RouterContact RouterJob;
  pendingIntrosetLookups : TXHolder TXOwner EncryptedIntroSet IntroJob;
  pendingExploreLookups : TXHolder Key Key ();
  nodedb : NodeDB;
  rnd : rng;
  events : list DhtEvent }.
Definition cx_ourKey (v : Key) (x : Context) : Context :=
  mkContext v (ids x) (_nodes x) (_services x) (allowTransit x) (pendingRouterLookups x) (pendingIntrosetLookups x) (pendingExploreLookups x) (nodedb x) (rnd x) (events x).
Definition cx_ids (v : Z) (x : Context) : Context :=
  mkContext (ourKey x) v (_nodes x) (_services x) (allowTransit x) (pendingRouterLookups x) (pendingIntrosetLookups x) (pendingExploreLookups x) (nodedb x) (rnd x) (events x).
Definition cx__nodes (v : Bucket RouterContact) (x : Context) : Context :=
  mkContext (ourKey x) (ids x) v (_services x) (allowTransit x) (pendingRouterLookups x) (pendingIntrosetLookups x) (pendingExploreLookups x) (nodedb x) (rnd x) (events x).
Definition cx__services (v : Bucket EncryptedIntroSet) (x : Context) : Context :=
  mkContext (ourKey x) (ids x) (_nodes x) v (allowTransit x) (pendingRouterLookups x) (pendingIntrosetLookups x) (pendingExploreLookups x) (nodedb x) (rnd x) (events x).
Definition cx_allowTransit (v : bool) (x : Context) : Context :=
  mkContext (ourKey x) (ids x) (_nodes x) (_services x) v (pendingRouterLookups x) (pendingIntrosetLookups x) (pendingExploreLookups x) (nodedb x) (rnd x) (events x).
Definition cx_pendingRouterLookups (v : TXHolder Key RouterContact RouterJob) (x : Context) : Context :=
  mkContext (ourKey x) (ids x) (_nodes x) (_services x) (allowTransit x) v (pendingIntrosetLookups x) (pendingExploreLookups x) (nodedb x) (rnd x) (events x).
Definition cx_pendingIntrosetLookups (v : TXHolder TXOwner EncryptedIntroSet IntroJob) (x : Context) : Context :=
  mkContext (ourKey x) (ids x) (_nodes x) (_services x) (allowTransit x) (pendingRouterLookups x) v (pendingExploreLookups x) (nodedb x) (rnd x) (events x).
Definition cx_pendingExploreLookups (v : TXHolder Key Key ()) (x : Context) : Context :=
  mkContext (ourKey x) (ids x) (_nodes x) (_services x) (allowTransit x) (pendingRouterLookups x) (pendingIntrosetLookups x) v (nodedb x) (rnd x) (events x).
Definition cx_nodedb (v : NodeDB) (x : Context) : Context :=
  mkContext (ourKey x) (ids x) (_nodes x) (_services x) (allowTransit x) (pendingRouterLookups x) (pendingIntrosetLookups x) (pendingExploreLookups x) v (rnd x) (events x).
Definition cx_rnd (v : rng) (x : Context) : Context :=
  mkContext (ourKey x) (ids x) (_nodes x) (_services x) (allowTransit x) (pendingRouterLookups x) (pendingIntrosetLookups x) (pendingExploreLookups x) (nodedb x) v (events x).
Definition cx_events (v : list DhtEvent) (x : Context) : Context :=
  mkContext (ourKey x) (ids x) (_nodes x) (_services x) (allowTransit x) (pendingRouterLookups x) (pendingIntrosetLookups x) (pendingExploreLookups x) (nodedb x) (rnd x) v.

Definition emit (ev : DhtEvent) (c : Context) : Context := cx_events (events c ++ [ev]) c.
Definition DHTSendTo (e : Env) (peer : Key) (msg : DhtMessage) (c : Context) : Context :=
  emit (PersistSessionUntil peer (Now e + 60000)) (emit (SendTo peer msg) c).
Definition NextID (c : Context) : Z * Context := let i := u64 (ids c + 1) in (i, cx_ids i c).

(** *** Jobs: [Validate], [Start] *)

Definition router_Validate (e : Env) (t : RouterTX) (c : RouterContact) : bool := rc_Verify e c.
Definition service_Validate (e : Env) (location : Key) (value : EncryptedIntroSet) : bool :=
  if negb (intro_Verify (Now e) value) then false
  else if negb (bool_decide (derivedSigningKey value = location)) then false
  else true.
Definition publish_Validate (e : Env) (i value : EncryptedIntroSet) : bool :=
  if negb (bool_decide (derivedSigningKey value = derivedSigningKey i)) then false else intro_Verify (Now e) value.
Definition intro_job_Validate (e : Env) (t : IntroTX) (value : EncryptedIntroSet) : bool :=
  match job t with
  | ServiceAddressLookup location _ _ | LocalServiceAddressLookup location _ _ => service_Validate e location value
  | PublishServiceJob i _ | LocalPublishServiceJob i _ _ _ => publish_Validate e i value
  end.
Definition router_Start (e : Env) (peer : TXOwner) (t : RouterTX) (c : Context) : Context :=
  DHTSendTo e (node peer) (FRM (txid peer) (target t)) c.
Definition service_Start (e : Env) (peer : TXOwner) (location : Key) (relayOrder : Z) (c : Context) : Context :=
  DHTSendTo e (node peer) (FIM (txid peer) location relayOrder) c.
Definition publish_Start (e : Env) (peer : TXOwner) (i : EncryptedIntroSet) (relayOrder : Z) (c : Context) : Context :=
  DHTSendTo e (node peer) (PIM i (txid peer) relayOrder) c.
Definition intro_Start (e : Env) (peer : TXOwner) (t : IntroTX) (c : Context) : Context :=
  match job t with
  | ServiceAddressLookup location order _ | LocalServiceAddressLookup location order _ => service_Start e peer location order c
  | PublishServiceJob i order | LocalPublishServiceJob i order _ _ => publish_Start e peer i order c
  end.
Definition explore_Start (e : Env) (peer : TXOwner) (c : Context) : Context :=
  let '(target, g) := randbytes KEYSIZE (rnd c) in
  DHTSendTo e (node peer) (FRM_explore (txid peer) target) (cx_rnd g c).

(** *** New transactions *)

Definition new_router_tx (e : Env) (peer : TXOwner) (t : RouterTX) (c : Context) : outcome Context :=
  let! (started, h) := NewTX peer (target t) t (Now e) 15000 (pendingRouterLookups c) in
  let c := cx_pendingRouterLookups h c in
  Done (if started then router_Start e peer t c else c).
Definition new_intro_tx (e : Env) (peer : TXOwner) (timeout : Z) (t : IntroTX) (c : Context) : outcome Context :=
  let! (started, h) := NewTX peer (target t) t (Now e) timeout (pendingIntrosetLookups c) in
  let c := cx_pendingIntrosetLookups h c in
  Done (if started then intro_Start e peer t c else c).

Definition LookupRouterRecursive (e : Env) (target whoasked : Key) (id : Z) (askpeer : Key) (handler : Handler) (c : Context) : outcome Context :=
  let '(i, c) := NextID c in
  new_router_tx e (mkOwner askpeer i) (mkTX target [ourKey c] [] (mkOwner whoasked id) (RecursiveRouterLookup handler)) c.
Definition LookupRouterForPath (e : Env) (target : Key) (id : Z) (path askpeer : Key) (c : Context) : outcome Context :=
  let '(i, c) := NextID c in
  new_router_tx e (mkOwner askpeer i) (mkTX target [ourKey c] [] (mkOwner (ourKey c) id) (LocalRouterLookup path)) c.
Definition LookupRouter (e : Env) (target : Key) (result : Handler) (c : Context) : outcome (bool * Context) :=
  let '(ok, askpeer) := FindClosest target key_zero (_nodes c) in
  if negb ok then Done (false, c)
  else let! c := LookupRouterRecursive e target (ourKey c) 0 askpeer result c in Done (true, c).
Definition HasRouterLookup (target : Key) (c : Context) : bool := HasLookupFor target (pendingRouterLookups c).
Definition LookupIntroSetForPath (e : Env) (addr : Key) (id : Z) (path askpeer : Key) (relayOrder : Z) (c : Context) : outcome Context :=
  let asker := mkOwner (ourKey c) id in
  let '(i, c) := NextID c in
  new_intro_tx e (mkOwner askpeer i) 15000 (mkTX asker [ourKey c] [] asker (LocalServiceAddressLookup addr (u32 relayOrder) path)) c.
Definition LookupIntroSetRelayed (e : Env) (addr whoasked : Key) (id : Z) (askpeer : Key) (relayOrder : Z) (handler : Handler) (c : Context) : outcome Context :=
  let asker := mkOwner whoasked id in
  let '(i, c) := NextID c in
  new_intro_tx e (mkOwner askpeer i) 15000 (mkTX asker [ourKey c] [] asker (ServiceAddressLookup addr (u32 relayOrder) handler)) c.
Definition LookupIntroSetDirect (e : Env) (addr whoasked : Key) (id : Z) (askpeer : Key) (handler : Handler) (c : Context) : outcome Context :=
  let asker := mkOwner whoasked id in
  let '(i, c) := NextID c in
  new_intro_tx e (mkOwner askpeer i) 1000 (mkTX asker [ourKey c] [] asker (ServiceAddressLookup addr 0 handler)) c.
Definition PropagateIntroSetTo (e : Env) (from : Key) (id : Z) (i : EncryptedIntroSet) (tellpeer : Key) (relayOrder : Z) (c : Context) : outcome Context :=
  let asker := mkOwner from id in
  let '(n, c) := NextID c in
  new_intro_tx e (mkOwner tellpeer n) 15000 (mkTX asker [] [] asker (PublishServiceJob i relayOrder)) c.
Definition PropagateLocalIntroSet (e : Env) (from : Key) (id : Z) (i : EncryptedIntroSet) (tellpeer : Key) (relayOrder : Z) (c : Context) : outcome Context :=
  let '(n, c) := NextID c in
  let peer := mkOwner tellpeer n in
  new_intro_tx e peer 15000 (mkTX peer [] [] peer (LocalPublishServiceJob i relayOrder from id)) c.
Definition ExploreNetworkVia (e : Env) (askpeer : Key) (c : Context) : outcome Context :=
  let '(i, c) := NextID c in
  let peer := mkOwner askpeer i in
  let! (started, h) := NewTX peer askpeer (mkTX askpeer [] [] TXOwner_new ()) (Now e) 15000 (pendingExploreLookups c) in
  let c := cx_pendingExploreLookups h c in
  Done (if started then explore_Start e peer c else c).
Fixpoint explore_all (e : Env) (peers : list Key) (c : Context) : outcome Context :=
  match peers with
  | [] => Done c
  | peer :: peers => let! c := ExploreNetworkVia e peer c in explore_all e peers c
  end.
Definition Explore (fuel : nat) (e : Env) (N : nat) (c : Context) : outcome Context :=
  let! (ok, peers, g) := GetManyRandom randint fuel [] N (_nodes c) (rnd c) in
  let c := cx_rnd g c in
  if ok then explore_all e peers c else Done c.

(** *** Replies, [SendReply] *)

(** The newest of the contacts found that passes [CheckRC], which is called on each
    that is newer than those before. *)
Fixpoint newest_checked (e : Env) (l : list RouterContact) (found : RouterContact) (c : Context) : RouterContact * Context :=
  match l with
  | [] => (found, c)
  | x :: l =>
      if OtherIsNewer found x then
        let c := emit (CheckRC x) c in
        if check_rc e x then newest_checked e l x c else newest_checked e l found c
      else newest_checked e l found c
  end.
Definition newest_intro (l : list EncryptedIntroSet) : EncryptedIntroSet :=
  fold_left (fun found i => if intro_OtherIsNewer found i then i else found) l IntroSet_new.
(** The loop of [LocalRouterLookup::SendReply] *)
Definition newest_local (l : list RouterContact) : RouterContact :=
  fold_left (fun found c => if OtherIsNewer c found then c else found) l RouterContact_new.
Definition on_path (e : Env) (path : Key) (msg : DhtMessage) (c : Context) : Context :=
  if GetByUpstream e (ourKey c) path then emit (SendOnPath path msg) c else c.
Definition has_handler (h : Handler) : bool := match h with NoHandler => false | _ => true end.

Definition recursive_SendReply (e : Env) (h : Handler) (t : RouterTX) (c : Context) : Context :=
  let '(values, c) :=
    if bool_decide (length (valuesFound t) = 0%nat) then (valuesFound t, c)
    else let '(found, c) := newest_checked e (valuesFound t) RouterContact_new c in ([found], c) in
  let c := if has_handler h then emit (RouterResult h values) c else c in
  if bool_decide (node (whoasked t) = ourKey c) then c
  else DHTSendTo e (node (whoasked t)) (GRM key_zero (txid (whoasked t)) values false) c.
Definition local_router_SendReply (e : Env) (path : Key) (t : RouterTX) (c : Context) : Context :=
  let values :=
    if bool_decide (length (valuesFound t) = 0%nat) then valuesFound t
    else
      let found := newest_local (valuesFound t) in
      if bool_decide (pubkey found = key_zero) then [] else [found] in
  on_path e path (GRM (ourKey c) (txid (whoasked t)) values true) c.
Definition router_SendReply (e : Env) (t : RouterTX) (c : Context) : Context :=
  match job t with
  | RecursiveRouterLookup h => recursive_SendReply e h t c
  | LocalRouterLookup path => local_router_SendReply e path t c
  end.
Definition newest_values (t : IntroTX) : list EncryptedIntroSet :=
  if bool_decide (length (valuesFound t) = 0%nat) then valuesFound t else [newest_intro (valuesFound t)].
Definition service_SendReply (e : Env) (h : Handler) (t : IntroTX) (c : Context) : Context :=
  let c := if has_handler h then emit (IntroResult h (newest_values t)) c else c in
  DHTSendTo e (node (whoasked t)) (GIM (newest_values t) (txid (whoasked t))) c.
Definition local_service_SendReply (e : Env) (path : Key) (t : IntroTX) (c : Context) : Context :=
  on_path e path (GIM (newest_values t) (txid (whoasked t))) c.
Definition publish_SendReply (e : Env) (i : EncryptedIntroSet) (t : IntroTX) (c : Context) : Context :=
  DHTSendTo e (node (whoasked t)) (GIM [i] (txid (whoasked t))) c.
Definition local_publish_SendReply (e : Env) (i : EncryptedIntroSet) (path : Key) (id : Z) (c : Context) : Context :=
  on_path e path (GIM [i] id) c.
Definition intro_SendReply (e : Env) (t : IntroTX) (c : Context) : Context :=
  match job t with
  | ServiceAddressLookup _ _ h => service_SendReply e h t c
  | LocalServiceAddressLookup _ _ path => local_service_SendReply e path t c
  | PublishServiceJob i _ => publish_SendReply e i t c
  | LocalPublishServiceJob i _ path id => local_publish_SendReply e i path id c
  end.
Fixpoint explore_SendReply (e : Env) (found : list Key) (c : Context) : outcome Context :=
  match found with
  | [] => Done c
  | pk :: found =>
      if Has pk (nodedb c) then explore_SendReply e found c
      else let! (_, c) := LookupRouter e pk (ExploreResult pk) c in explore_SendReply e found c
  end.
Definition router_replies (e : Env) (l : list (TXOwner * RouterTX)) (c : Context) : Context := fold_left (fun c x => router_SendReply e x.2 c) l c.
Definition intro_replies (e : Env) (l : list (TXOwner * IntroTX)) (c : Context) : Context := fold_left (fun c x => intro_SendReply e x.2 c) l c.
Fixpoint explore_replies (e : Env) (l : list (TXOwner * ExploreTX)) (c : Context) : outcome Context :=
  match l with
  | [] => Done c
  | x :: l => let! c := explore_SendReply e (valuesFound x.2) c in explore_replies e l c
  end.

(** *** Timer *)

Definition CleanupTX (e : Env) (c : Context) : outcome Context :=
  let '(h, r) := DhtTx.Expire (router_Validate e) (Now e) (pendingRouterLookups c) in
  let c := router_replies e r (cx_pendingRouterLookups h c) in
  let '(h, r) := DhtTx.Expire (intro_job_Validate e) (Now e) (pendingIntrosetLookups c) in
  let c := intro_replies e r (cx_pendingIntrosetLookups h c) in
  let '(h, r) := DhtTx.Expire (fun (_ : ExploreTX) _ => true) (Now e) (pendingExploreLookups c) in
  explore_replies e r (cx_pendingExploreLookups h c).
Definition expire_nodes {V} (gone : V -> bool) (b : Bucket V) : Bucket V :=
  mkBucket (bucket_us b) (base.filter (fun x => gone x.2 = false) (nodes b)).
Definition handle_cleaner_timer (e : Env) (c : Context) : outcome Context :=
  let! c := CleanupTX e c in
  let c := cx__nodes (expire_nodes (rc_IsExpired e) (_nodes c)) c in
  Done (cx__services (expire_nodes (intro_IsExpired (Now e)) (_services c)) c).

(** *** Requests of other routers *)

Definition Init (us : Key) (d : NodeDB) (id : Z) (g : rng) : Context :=
  mkContext us id (Bucket_new us) (Bucket_new us) false TXHolder_new TXHolder_new TXHolder_new d g [].
Definition GetIntroSetByLocation (key : Key) (c : Context) : option EncryptedIntroSet := map_find (bucket_us (_services c)) key (nodes (_services c)).

Definition LookupRouterRelayed (e : Env) (requester : Key) (id : Z) (target : Key) (recursive : bool) (c : Context) : outcome (list DhtMessage * Context) :=
  if bool_decide (target = ourKey c) then Done ([GRM requester id [our_rc e] false], c)
  else if negb (SessionToRouterAllowed e target) then Done ([GRM requester id [] false], c)
  else
    let rc := FindClosestTo target (nodedb c) in
    let next := pubkey rc in
    if bool_decide (next = target) then
      if rc_ExpiresSoon e rc then let! c := LookupRouterRecursive e target requester id next NoHandler c in Done ([], c)
      else Done ([GRM requester id [rc] false], c)
    else if recursive then
      if key_lt (key_xor next target) (key_xor (ourKey c) target) then
        let! c := LookupRouterRecursive e target requester id next NoHandler c in Done ([], c)
      else Done ([GRM requester id [] false], c)
    else Done ([GRM_closer requester next id], c).
Definition HandleExploritoryRouterLookup (e : Env) (requester : Key) (id : Z) (target : Key) (c : Context) : bool * list DhtMessage :=
  let nodeCount := Bucket_size (_nodes c) in
  if bool_decide (nodeCount = 0%nat) then (false, [])
  else
    let '(ok, foundRouters) := GetManyNearExcluding target [] (Nat.min nodeCount 4) (set_insert requester (set_insert (ourKey c) [])) (_nodes c) in
    if negb ok then (false, [])
    else (true, [GRM_near id (base.filter (fun f => IsBadForConnect e f = false) foundRouters)]).

(** *** [HandleMessage]: the result, the replies and the context *)

Definition IntroSetStorageRedundancy : nat := 4.
Definition key_is_zero (k : list Z) : bool := forallb (Z.eqb 0) k.

(** [Tag::Empty] *)
Definition tag_Empty (t : list Z) : bool := default 0 (t !! 0%nat) =? 0.

Definition handle_FindRouter (e : Env) (From targetKey : Key) (iterative exploritory : bool) (id : Z) (c : Context) : outcome (bool * list DhtMessage * Context) :=
  if negb (allowTransit c) then Done (false, [], c)
  else if HasPendingLookupFrom (mkOwner From id) (pendingRouterLookups c) then Done (false, [], c)
  else if key_is_zero targetKey then Done (false, [], c)
  else if exploritory then
    let '(ok, replies) := HandleExploritoryRouterLookup e From id targetKey c in Done (ok, replies, c)
  else
    let! (replies, c) := LookupRouterRelayed e From id targetKey (negb iterative) c in Done (true, replies, c).
Definition handle_RelayedFindRouter (e : Env) (pathID targetKey : Key) (id : Z) (c : Context) : outcome (bool * list DhtMessage * Context) :=
  if bool_decide (targetKey = ourKey c) then
    if GetByUpstream e targetKey pathID then Done (true, [GRM targetKey id [our_rc e] false], c) else Done (false, [], c)
  else if negb (SessionToRouterAllowed e targetKey) then Done (true, [GRM targetKey id [] false], c)
  else
    let rc := FindClosestTo targetKey (nodedb c) in
    if bool_decide (pubkey rc = targetKey) then Done (true, [GRM targetKey id [rc] false], c)
    else let! c := LookupRouterForPath e targetKey id pathID (pubkey rc) c in Done (true, [], c).

(** The loop over the contacts of an answer nobody waits for. *)
Fixpoint store_if_valid (e : Env) (id : Z) (l : list RouterContact) (c : Context) : bool * Context :=
  match l with
  | [] => (true, c)
  | x :: l =>
      let c := emit (CheckRC x) c in
      if negb (check_rc e x) then (false, c)
      else
        let c := if id =? 0 then let c := emit (Gossip x) c in if has_peerDb e then emit (HandleGossipedRC x) c else c else c in
        store_if_valid e id l c
  end.
Definition to_pathset (e : Env) (pathID : Key) (msg : DhtMessage) (c : Context) : bool * Context :=
  if has_pathset e pathID then (pathset_takes e msg pathID, emit (ToPathSet pathID msg) c) else (false, c).
Definition handle_GotRouter (e : Env) (msg : DhtMessage) (From pathID : Key) (foundRCs : list RouterContact) (nearKeys : list Key) (id : Z) (relayed : bool)
    (c : Context) : outcome (bool * list DhtMessage * Context) :=
  if relayed then let '(ok, c) := to_pathset e pathID msg c in Done (ok, [], c)
  else
    let owner := mkOwner From id in
    if HasPendingLookupFrom owner (pendingExploreLookups c) then
      let '(h, r) := if bool_decide (nearKeys = []) then DhtTx.NotFound (fun (_ : ExploreTX) _ => true) owner (pendingExploreLookups c)
                     else Found (fun (_ : ExploreTX) _ => true) owner From nearKeys (pendingExploreLookups c) in
      let! c := explore_replies e r (cx_pendingExploreLookups h c) in
      Done (true, [], c)
    else if HasPendingLookupFrom owner (pendingRouterLookups c) then
      match foundRCs with
      | [] =>
          let '(h, r) := DhtTx.NotFound (router_Validate e) owner (pendingRouterLookups c) in
          Done (true, [], router_replies e r (cx_pendingRouterLookups h c))
      | first :: _ =>
          if key_is_zero (pubkey first) then Done (false, [], c)
          else
            let '(h, r) := Found (router_Validate e) owner (pubkey first) foundRCs (pendingRouterLookups c) in
            Done (true, [], router_replies e r (cx_pendingRouterLookups h c))
      end
    else let '(ok, c) := store_if_valid e id foundRCs c in Done (ok, [], c).

Definition handle_FindIntro (e : Env) (From pathID location tagName : Key) (id : Z) (relayed : bool) (relayOrder : Z) (c : Context)
  : outcome (bool * list DhtMessage * Context) :=
  if HasPendingLookupFrom (mkOwner From id) (pendingIntrosetLookups c) then Done (false, [], c)
  else if negb (tag_Empty tagName) then Done (false, [], c)
  else if key_is_zero location then Done (true, [GIM [] id], c)
  else if relayed then
    if Z.of_nat IntroSetStorageRedundancy <=? relayOrder then Done (true, [GIM [] id], c)
    else
      match FindManyClosestTo location IntroSetStorageRedundancy (nodedb c) !! Z.to_nat relayOrder with
      | None => Done (true, [GIM [] id], c)
      | Some entry => let! c := LookupIntroSetForPath e location id pathID (pubkey entry) 0 c in Done (true, [], c)
      end
  else
    match GetIntroSetByLocation location c with
    | Some i => Done (true, [GIM [i] id], c)
    | None => Done (true, [GIM [] id], c)
    end.
Definition handle_GotIntro (e : Env) (From : Key) (found : list EncryptedIntroSet) (id : Z) (c : Context) : bool * Context :=
  if negb (forallb (intro_Verify (Now e)) found) then (false, c)
  else
    let owner := mkOwner From id in
    match GetPendingLookupFrom owner (pendingIntrosetLookups c) with
    | Some serviceLookup =>
        let '(h, r) := if bool_decide (found = []) then DhtTx.NotFound (intro_job_Validate e) owner (pendingIntrosetLookups c)
                       else Found (intro_job_Validate e) owner (target serviceLookup) found (pendingIntrosetLookups c) in
        (true, intro_replies e r (cx_pendingIntrosetLookups h c))
    | None => (false, c)
    end.

(** Position in the contacts, [candidateNumber] *)
Fixpoint candidate (us : Key) (l : list RouterContact) (index : Z) : Z :=
  match l with
  | [] => -1
  | rc :: l => if bool_decide (pubkey rc = us) then index else candidate us l (index + 1)
  end.
Definition put_service (i : EncryptedIntroSet) (c : Context) : Context := cx__services (PutNode i (_services c)) c.
Definition propagateIfNotUs (e : Env) (From pathID : Key) (i : EncryptedIntroSet) (relayed : bool) (id : Z) (closestRCs : list RouterContact) (index : nat)
    (c : Context) : outcome (list DhtMessage * Context) :=
  match closestRCs !! index with
  | None => Fault
  | Some rc =>
      if bool_decide (pubkey rc = ourKey c) then Done ([GIM [i] id], put_service i c)
      else
        let! c := if relayed then PropagateLocalIntroSet e pathID id i (pubkey rc) 0 c else PropagateIntroSetTo e From id i (pubkey rc) 0 c in
        Done ([], c)
  end.
Definition handle_PublishIntro (e : Env) (From pathID : Key) (i : EncryptedIntroSet) (relayed : bool) (relayOrder id : Z) (c : Context)
  : outcome (bool * list DhtMessage * Context) :=
  let addr := derivedSigningKey i in
  if negb (intro_Verify (Now e) i) then Done (true, [GIM [] id], c)
  else if intro_IsExpired (Now e + MAX_INTROSET_TIME_DELTA) i then Done (true, [GIM [] id], c)
  else
    let closestRCs := FindManyClosestTo addr IntroSetStorageRedundancy (nodedb c) in
    if negb (bool_decide (length closestRCs = IntroSetStorageRedundancy)) then Done (true, [GIM [] id], c)
    else if relayed then
      if Z.of_nat IntroSetStorageRedundancy <=? relayOrder then Done (true, [GIM [] id], c)
      else let! (replies, c) := propagateIfNotUs e From pathID i relayed id closestRCs (Z.to_nat relayOrder) c in Done (true, replies, c)
    else if 0 <=? candidate (ourKey c) closestRCs 0 then Done (true, [GIM [i] id], put_service i c)
    else Done (true, [], c).
Definition handle_FindName (e : Env) (pathID NameHash : Key) (id : Z) (c : Context) : bool * Context :=
  if key_is_zero pathID || negb (IsMasterNode e) then (false, c) else (true, emit (LookupBNSNameHash NameHash pathID id) c).

Definition HandleMessage (e : Env) (msg : DhtMessage) (c : Context) : outcome (bool * list DhtMessage * Context) :=
  match msg with
  | FindRouterMessage From _ targetKey iterative exploritory id => handle_FindRouter e From targetKey iterative exploritory id c
  | RelayedFindRouterMessage _ pathID targetKey _ _ id => handle_RelayedFindRouter e pathID targetKey id c
  | GotRouterMessage From pathID foundRCs nearKeys _ id relayed => handle_GotRouter e msg From pathID foundRCs nearKeys id relayed c
  | FindIntroMessage From pathID location tagName id relayed relayOrder => handle_FindIntro e From pathID location tagName id relayed relayOrder c
  | GotIntroMessage From _ found id => let '(ok, c) := handle_GotIntro e From found id c in Done (ok, [], c)
  | PublishIntroMessage From pathID i relayed relayOrder id => handle_PublishIntro e From pathID i relayed relayOrder id c
  | FindNameMessage _ pathID NameHash id => let '(ok, c) := handle_FindName e pathID NameHash id c in Done (ok, [], c)
  | RelayedGotIntroMessage _ pathID _ _ | GotNameMessage _ pathID _ _ _ => let '(ok, c) := to_pathset e pathID msg c in Done (ok, [], c)
  end.
(** The replies are sent in one message on the path. *)
Definition RelayRequestForPath (e : Env) (id : Key) (msg : DhtMessage) (c : Context) : outcome (bool * Context) :=
  let! (ok, replies, c) := HandleMessage e msg c in
  if negb ok then Done (false, c)
  else if bool_decide (length replies = 0%nat) then Done (true, c)
  else if GetByUpstream e (ourKey c) id then Done (path_takes e id replies, fold_left (fun c m => emit (SendOnPath id m) c) replies c)
  else Done (false, c).
End Context.
