(* ===== verification/DhtProofs.v ===== *)
(** * What the DHT does with lookups and introduction sets

    Theorems about the context of [DhtContext]: recursive lookups come to an end,
    introduction sets are stored where they are looked for, answers are checked
    against what was asked, and no transaction is started twice. *)

From S2P Require Import Prelude Buffer Bencode Crypto Dht DhtTx DhtContext.
Open Scope Z_scope.

Section Lookups.
Context `{Sodium}.

(** ** Recursive lookups *)

Definition new_events (c c' : Context) : list DhtEvent := drop (length (events c)) (events c').

Lemma new_emit ev c : events (emit ev c) = events c ++ [ev].
Proof. done. Qed.
Lemma new_app c c' l : events c' = events c ++ l -> new_events c c' = l.
Proof. intros E. unfold new_events. by rewrite E, drop_app_length. Qed.

Lemma closest_key_ok t d : db_ok d -> key_ok (pubkey (FindClosestTo t d)).
Proof.
  intros Hd. unfold FindClosestTo. rewrite visit_contacts. destruct (contacts_ok d Hd) as [_ Hk].
  assert (key_ok (pubkey RouterContact_new)) as H0 by (apply (bool_decide_unpack _); vm_compute; exact I).
  revert H0. generalize RouterContact_new as c0. induction Hk as [|c l Hc Hl IH]; intros c0 H0; [done|]. cbn [fold_left]. apply IH. by repeat case_match.
Qed.

Lemma recursive_events e t who id peer h c c' : LookupRouterRecursive e t who id peer h c = Done c' ->
  new_events c c' = [] \/ exists n, new_events c c' = [SendTo peer (FRM n t); PersistSessionUntil peer (Now e + 60000)].
Proof.
  unfold LookupRouterRecursive, new_router_tx. cbn. destruct (NewTX _ _ _ _ _ _) as [[[] h']| |] eqn:E; intros Eq; try discriminate; injection Eq as <-.
  - right. eexists. apply new_app. unfold router_Start, DHTSendTo. rewrite !new_emit. cbn [events cx_ids cx_pendingRouterLookups node txid target]. by rewrite <- app_assoc.
  - left. apply new_app. by rewrite app_nil_r.
Qed.

(** A router that handles a lookup of [target] asks [peer]. *)
Definition asks (target : Key) (x : Env * Context) (peer : Key) : Prop :=
  exists From pathID iterative exploritory id ok replies c' msg,
    HandleMessage (fst x) (FindRouterMessage From pathID target iterative exploritory id) (snd x) = Done (ok, replies, c')
    /\ SendTo peer msg ∈ new_events (snd x) c'.

Ltac no_events := match goal with
  | E : Done _ = Done _, Hin : _ ∈ new_events _ _, N : new_events _ _ = [] |- _ => injection E as <- <- <-; rewrite N in Hin; by apply elem_of_nil in Hin
  end.
Lemma asks_closer target e c peer : key_ok target -> key_ok (ourKey c) -> db_ok (nodedb c) ->
  asks target (e, c) peer -> dist target peer < dist target (ourKey c).
Proof.
  intros Ht Hu Hd (From&pathID&iter&expl&id&ok&replies&c'&msg&E&Hin). cbn [fst snd] in *.
  assert (new_events c c = []) as Enil by (apply new_app; by rewrite app_nil_r).
  cbn [HandleMessage] in E. unfold handle_FindRouter in E.
  assert (Hrec : forall next c1 h, LookupRouterRecursive e target From id next h c = Done c1 -> c1 = c' -> peer = next).
  { intros next c1 h Hl <-. apply recursive_events in Hl as [En|[n En]]; rewrite En in Hin; [by apply elem_of_nil in Hin|].
    apply elem_of_cons in Hin as [Hin|Hin]; [by injection Hin|]. by apply list_elem_of_singleton in Hin. }
  repeat (case_match; [no_events|]).
  case_match. { destruct (HandleExploritoryRouterLookup _ _ _ _ _). no_events. }
  unfold LookupRouterRelayed in E. pose proof (closest_key_ok target (nodedb c) Hd) as Hn. revert Hn E. generalize (FindClosestTo target (nodedb c)) as rc. intros rc Hn E.
  case_bool_decide as Hself; cbn [obind] in E; [no_events|].
  case_match; cbn [obind] in E; [no_events|].
  case_bool_decide as Hnt.
  - case_match; cbn [obind] in E; [|no_events].
    destruct (LookupRouterRecursive _ _ _ _ _ _ _) as [c1| |] eqn:Hl; try discriminate. injection E as <- <- <-.
    rewrite (Hrec _ _ _ Hl eq_refl), Hnt. unfold dist at 1. rewrite Z.lxor_nilpotent.
    pose proof (dist_range target (ourKey c) Ht Hu). enough (dist target (ourKey c) <> dist target target) as Hne.
    { unfold dist in Hne at 2. rewrite Z.lxor_nilpotent in Hne. lia. }
    intros Eq%dist_inj; [|done..]. by subst.
  - case_match; cbn [obind] in E; [|no_events].
    destruct (key_lt _ _) eqn:Hlt; cbn [obind] in E; [|no_events].
    destruct (LookupRouterRecursive _ _ _ _ _ _ _) as [c1| |] eqn:Hl; try discriminate. injection E as <- <- <-.
    rewrite (Hrec _ _ _ Hl eq_refl). rewrite xor_lt in Hlt by done. apply Z.ltb_lt in Hlt. by rewrite !(dist_comm target).
Qed.

Definition asks_next (target : Key) (x y : Env * Context) : Prop := asks target x (ourKey y.2).
Definition well_formed (c : Context) : Prop := key_ok (ourKey c) /\ db_ok (nodedb c).

Lemma route_descends target route : key_ok target -> Forall (fun x => well_formed x.2) route -> Sorted (asks_next target) route ->
  StronglySorted (fun x y => dist target (ourKey y.2) < dist target (ourKey x.2)) route.
Proof.
  intros Ht Hw Hs. apply Sorted_StronglySorted; [intros x y z; lia|]. induction Hs as [|x l Hs IH Hd]; [constructor|].
  apply Forall_cons in Hw as [[Hu Hd'] Hw]. constructor; [by apply IH|]. destruct Hd as [|y l Hxy]; constructor.
  destruct x as [e c]. by apply (asks_closer target e c).
Qed.
End Lookups.

(** C16: a recursive lookup comes to an end.  Along any sequence of routers in which
    each, handling a lookup of the same target, asks the next, the distance to the
    target falls strictly; so no router occurs twice, and in a network of given
    routers the sequence is no longer than their number. *)
Theorem recursive_lookup_ends `{Sodium} target (route : list (Env * Context)) (network : list Key) : key_ok target ->
  Forall (fun x => well_formed x.2) route -> Sorted (asks_next target) route -> (forall x, x ∈ route -> ourKey x.2 ∈ network) ->
  StronglySorted (fun x y => dist target (ourKey y.2) < dist target (ourKey x.2)) route
  /\ NoDup (map (fun x => ourKey x.2) route) /\ (length route <= length network)%nat.
Proof.
  intros Ht Hw Hs Hn. pose proof (route_descends target route Ht Hw Hs) as Hd. split; [done|].
  assert (NoDup (map (fun x => ourKey x.2) route)) as Hnd.
  { clear - Hd. induction Hd as [|x l Hl IH Hx]; [constructor|]. cbn [map]. constructor; [|done].
    intros (y&E&Hy)%list_elem_of_fmap. rewrite Forall_forall in Hx. specialize (Hx y Hy). cbn beta in Hx. rewrite E in Hx. lia. }
  split; [done|]. rewrite <- (length_map (fun x => ourKey x.2) route). apply submseteq_length, NoDup_submseteq; [done|].
  intros k (x&->&Hx)%list_elem_of_fmap. by apply Hn.
Qed.

Definition demo_env : Env :=
  mkEnv 2000000 (fun _ => true) (fun _ => false) (fun _ => true) (fun _ => true) (demo_contact 1 1) (fun _ => true) (fun _ => false)
    (fun _ _ => true) (fun _ _ => true) (fun _ => true) (fun _ _ => true) false true.
#[local] Instance demo_sodium : Sodium := toy_sodium.
Definition demo_context (us : Z) (known : list Z) : Context :=
  cx_allowTransit true (Init (demo_key us) (fold_left (fun d k => Put 5 (demo_contact k 1) d) known (NodeDB_new 0)) 100 0).
Definition demo_route : list (Env * Context) := [(demo_env, demo_context 24 [12; 48]); (demo_env, demo_context 12 [3; 5]); (demo_env, demo_context 5 [4])].

Definition demo_network : list Key := map demo_key [3; 4; 5; 12; 24; 48].
(** The first router asked by a router that handles a lookup. *)
Definition first_asked (e : Env) (target : Key) (c : Context) : option Key :=
  match HandleMessage e (FindRouterMessage (demo_key 1) PATHID0 target false false 7) c with
  | Done (_, _, c') => match new_events c c' with SendTo peer _ :: _ => Some peer | _ => None end
  | _ => None
  end.
Lemma first_asks e target c peer : first_asked e target c = Some peer -> asks target (e, c) peer.
Proof.
  unfold first_asked. destruct (HandleMessage _ _ _) as [[[ok replies] c']| |] eqn:E; [|discriminate..].
  destruct (new_events c c') as [|[] l] eqn:N; [discriminate| |discriminate..]. intros [= ->]. unfold asks. cbn [fst snd].
  do 9 eexists. split; [exact E|]. rewrite N. left.
Qed.

Lemma demo_well_formed us known : well_formed (demo_context us known).
Proof.
  split; [apply demo_key_ok|]. cbn. assert (db_ok (NodeDB_new 0)) as H0 by (split; constructor).
  revert H0. generalize (NodeDB_new 0) as d. induction known as [|k known IH]; intros d Hd; [done|]. cbn [fold_left]. apply IH.
  apply (run_db_ok d (DbPut 5 (demo_contact k 1))); [done|apply demo_key_ok].
Qed.

Lemma recursive_lookup_ends_witness :
  NoDup (map (fun x => ourKey x.2) demo_route) /\ (length demo_route <= length demo_network)%nat.
Proof.
  refine (proj2 (recursive_lookup_ends (demo_key 4) demo_route demo_network (demo_key_ok 4) _ _ _)).
  - repeat (apply Forall_cons; split; [apply demo_well_formed|]). constructor.
  - repeat constructor; apply first_asks; vm_compute; reflexivity.
  - intros x Hx. apply list_elem_of_In in Hx. repeat (destruct Hx as [<-|Hx]; [apply (bool_decide_unpack _); vm_compute; exact I|]). destruct Hx.
Defined.

(** ** Introduction sets are kept where they are looked for *)

Section Services.
Context `{Sodium}.

(** *** What is done to the stored introduction sets *)

Lemma new_router_services e peer t c c' : new_router_tx e peer t c = Done c' -> _services c' = _services c.
Proof. unfold new_router_tx. destruct (NewTX _ _ _ _ _ _) as [[[] h]| |]; intros E; simplify_eq/=; done. Qed.
Lemma new_intro_services e peer d t c c' : new_intro_tx e peer d t c = Done c' -> _services c' = _services c.
Proof.
  unfold new_intro_tx, intro_Start. destruct (NewTX _ _ _ _ _ _) as [[[] h]| |]; intros E; simplify_eq/=; [|done]. by destruct (job t).
Qed.
Lemma recursive_services e t who id peer h c c' : LookupRouterRecursive e t who id peer h c = Done c' -> _services c' = _services c.
Proof. unfold LookupRouterRecursive. cbn. intros E%new_router_services. done. Qed.
Lemma lookup_services e t h c ok c' : LookupRouter e t h c = Done (ok, c') -> _services c' = _services c.
Proof.
  unfold LookupRouter. destruct (FindClosest _ _ _) as [[] askpeer]; cbn [negb]; [|by intros [= _ <-]].
  destruct (LookupRouterRecursive _ _ _ _ _ _ _) as [c1| |] eqn:E; intros Eq; simplify_eq/=. by apply recursive_services in E.
Qed.
Lemma explore_reply_services e l : forall c c', explore_SendReply e l c = Done c' -> _services c' = _services c.
Proof.
  induction l as [|pk l IH]; intros c c' E; cbn [explore_SendReply] in E; [by simplify_eq|]. case_match; [by apply IH|].
  destruct (LookupRouter _ _ _ _) as [[ok c1]| |] eqn:Hl; simplify_eq/=. rewrite (IH _ _ E). by eapply lookup_services.
Qed.
Lemma explore_replies_services e l : forall c c', explore_replies e l c = Done c' -> _services c' = _services c.
Proof.
  induction l as [|x l IH]; intros c c' E; cbn [explore_replies] in E; [by simplify_eq|].
  destruct (explore_SendReply _ _ _) as [c1| |] eqn:Hl; simplify_eq/=. rewrite (IH _ _ E). by eapply explore_reply_services.
Qed.
(** Replies, checks and the sets of paths only add events. *)
Definition says (l : list DhtEvent) (c : Context) : Context := cx_events (events c ++ l) c.
Definition silent (c c' : Context) : Prop := exists l, c' = says l c.
#[export] Instance silent_preorder : PreOrder silent.
Proof.
  split.
  - intros c. exists []. unfold says. rewrite app_nil_r. by destruct c.
  - intros c1 c2 c3 [l1 ->] [l2 ->]. exists (l1 ++ l2). unfold says. cbn. by rewrite app_assoc.
Qed.
Lemma emit_silent ev c : silent c (emit ev c).
Proof. by exists [ev]. Qed.
Lemma send_silent e p m c : silent c (DHTSendTo e p m c).
Proof. unfold DHTSendTo. etransitivity; apply emit_silent. Qed.
#[local] Hint Resolve emit_silent send_silent : core.
Lemma silent_if (b : bool) c c1 c2 : silent c c1 -> silent c c2 -> silent c (if b then c1 else c2).
Proof. by destruct b. Qed.
Lemma newest_checked_silent e l : forall found c, silent c (newest_checked e l found c).2.
Proof.
  induction l as [|x l IH]; intros found c; [reflexivity|]. cbn [newest_checked]. destruct (OtherIsNewer found x); [|apply IH].
  destruct (check_rc e x); (etransitivity; [apply emit_silent|apply IH]).
Qed.
Lemma on_path_silent e p m c : silent c (on_path e p m c).
Proof. unfold on_path. apply silent_if; [done|reflexivity]. Qed.
Lemma router_reply_silent e t c : silent c (router_SendReply e t c).
Proof.
  unfold router_SendReply, recursive_SendReply. destruct (job t) as [h|p]; [|apply on_path_silent].
  assert (Htail : forall values c1, silent c c1 -> silent c (let c := if has_handler h then emit (RouterResult h values) c1 else c1 in
    if bool_decide (node (whoasked t) = ourKey c) then c else DHTSendTo e (node (whoasked t)) (GRM key_zero (txid (whoasked t)) values false) c)).
  { intros values c1 H1. cbn zeta. etransitivity; [exact H1|]. etransitivity; [apply (silent_if (has_handler h)); [apply emit_silent|reflexivity]|].
    apply silent_if; [reflexivity|apply send_silent]. }
  case_bool_decide; [apply Htail; reflexivity|].
  pose proof (newest_checked_silent e (valuesFound t) RouterContact_new c) as E. destruct (newest_checked _ _ _ _) as [found c1]. by apply Htail.
Qed.
Lemma intro_reply_silent e t c : silent c (intro_SendReply e t c).
Proof.
  unfold intro_SendReply. destruct (job t) as [? ? h| | |]; [|apply on_path_silent|apply send_silent|apply on_path_silent].
  unfold service_SendReply. etransitivity; [|apply send_silent]. apply silent_if; [done|reflexivity].
Qed.
Lemma router_replies_silent e l : forall c, silent c (router_replies e l c).
Proof. unfold router_replies. induction l as [|x l IH]; intros c; [reflexivity|]. cbn [fold_left]. etransitivity; [apply router_reply_silent|apply IH]. Qed.
Lemma intro_replies_silent e l : forall c, silent c (intro_replies e l c).
Proof. unfold intro_replies. induction l as [|x l IH]; intros c; [reflexivity|]. cbn [fold_left]. etransitivity; [apply intro_reply_silent|apply IH]. Qed.
Lemma store_silent e id l : forall c, silent c (store_if_valid e id l c).2.
Proof.
  induction l as [|x l IH]; intros c; [reflexivity|]. cbn [store_if_valid]. destruct (check_rc e x); cbn [negb]; [|apply emit_silent].
  etransitivity; [apply emit_silent|]. etransitivity; [|apply IH]. apply silent_if; [|reflexivity].
  etransitivity; [apply emit_silent|]. apply silent_if; [apply emit_silent|reflexivity].
Qed.
Lemma to_pathset_silent e p m c : silent c (to_pathset e p m c).2.
Proof. unfold to_pathset. case_match; [apply emit_silent|reflexivity]. Qed.
Lemma silent_services c c' : silent c c' -> _services c' = _services c.
Proof. by intros [l ->]. Qed.
Lemma router_replies_services e l c : _services (router_replies e l c) = _services c.
Proof. apply silent_services, router_replies_silent. Qed.
Lemma intro_replies_services e l c : _services (intro_replies e l c) = _services c.
Proof. apply silent_services, intro_replies_silent. Qed.

Lemma relayed_services e req id t r c replies c' : LookupRouterRelayed e req id t r c = Done (replies, c') -> _services c' = _services c.
Proof.
  unfold LookupRouterRelayed. intros E. repeat case_match; simplify_eq/=; try done;
    (destruct (LookupRouterRecursive _ _ _ _ _ _ _) eqn:Hl; simplify_eq/=; by apply recursive_services in Hl).
Qed.
Lemma got_router_services e m f p rcs near id r c ok replies c' : handle_GotRouter e m f p rcs near id r c = Done (ok, replies, c') -> _services c' = _services c.
Proof.
  unfold handle_GotRouter. intros E. destruct r; [pose proof (silent_services _ _ (to_pathset_silent e p m c)); destruct (to_pathset _ _ _ _); by simplify_eq/=|].
  destruct (HasPendingLookupFrom _ (pendingExploreLookups c)).
  { case_match. destruct (explore_replies _ _ _) as [c1| |] eqn:Hx; simplify_eq/=. by apply explore_replies_services in Hx. }
  destruct (HasPendingLookupFrom _ (pendingRouterLookups c)).
  - repeat case_match; simplify_eq/=; rewrite ?router_replies_services; done.
  - pose proof (silent_services _ _ (store_silent e id rcs c)). destruct (store_if_valid _ _ _ _). by simplify_eq/=.
Qed.

Lemma find_intro_services e f p l t id r o c ok replies c' : handle_FindIntro e f p l t id r o c = Done (ok, replies, c') -> _services c' = _services c.
Proof.
  unfold handle_FindIntro. intros E. repeat case_match; simplify_eq/=; try done.
  destruct (LookupIntroSetForPath _ _ _ _ _ _ _) eqn:Hl; simplify_eq/=. by apply new_intro_services in Hl.
Qed.
Lemma propagate_services e f p i r id l n c replies c' : propagateIfNotUs e f p i r id l n c = Done (replies, c') ->
  _services c' = _services c \/ _services c' = PutNode i (_services c).
Proof.
  unfold propagateIfNotUs. intros E. destruct (l !! n) as [rc|]; [|done]. case_bool_decide; [simplify_eq/=; by right|]. left.
  destruct r; [destruct (PropagateLocalIntroSet _ _ _ _ _ _ _) eqn:Hl|destruct (PropagateIntroSetTo _ _ _ _ _ _ _) eqn:Hl]; simplify_eq/=;
    by apply new_intro_services in Hl.
Qed.
Lemma publish_services e f p i r o id c ok replies c' : handle_PublishIntro e f p i r o id c = Done (ok, replies, c') ->
  _services c' = _services c \/ (intro_Verify (Now e) i = true /\ _services c' = PutNode i (_services c)).
Proof.
  unfold handle_PublishIntro. intros E. destruct (intro_Verify (Now e) i) eqn:Hv; cbn [negb] in E; [|simplify_eq; by left].
  destruct (intro_IsExpired _ _); [simplify_eq; by left|]. case_bool_decide; cbn [negb] in E; [|simplify_eq; by left]. destruct r.
  - destruct (Z.leb _ _); [simplify_eq; by left|]. destruct (propagateIfNotUs _ _ _ _ _ _ _ _ _) as [[r c1]| |] eqn:Hp; simplify_eq/=.
    apply propagate_services in Hp as [->| ->]; auto.
  - destruct (Z.leb _ _); simplify_eq/=; auto.
Qed.
Definition message_introset (msg : DhtMessage) : option EncryptedIntroSet :=
  match msg with PublishIntroMessage _ _ i _ _ _ => Some i | _ => None end.
Lemma handle_services e msg c ok replies c' : HandleMessage e msg c = Done (ok, replies, c') ->
  _services c' = _services c
  \/ exists i, message_introset msg = Some i /\ intro_Verify (Now e) i = true /\ _services c' = PutNode i (_services c).
Proof.
  intros E. destruct msg; cbn [HandleMessage message_introset] in *.
  - left. unfold handle_FindRouter in E. repeat case_match; simplify_eq/=; try done.
    destruct (LookupRouterRelayed _ _ _ _ _ _) as [[r c1]| |] eqn:Hl; simplify_eq/=. by apply relayed_services in Hl.
  - left. unfold handle_RelayedFindRouter in E. repeat case_match; simplify_eq/=; try done.
    destruct (LookupRouterForPath _ _ _ _ _ _) eqn:Hl; simplify_eq/=. by apply new_router_services in Hl.
  - left. by apply got_router_services in E.
  - left. by apply find_intro_services in E.
  - left. unfold handle_GotIntro in E. repeat case_match; simplify_eq/=; rewrite ?intro_replies_services; done.
  - left. pose proof (silent_services _ _ (to_pathset_silent e pathID (RelayedGotIntroMessage From pathID found id) c)). case_match. by simplify_eq/=.
  - apply publish_services in E as [E|[Hv E]]; [by left|right; eauto].
  - left. unfold handle_FindName in E. repeat case_match; by simplify_eq/=.
  - left. pose proof (silent_services _ _ (to_pathset_silent e pathID (GotNameMessage From pathID ciphertext nonce id) c)). case_match. by simplify_eq/=.
Qed.
Lemma timer_services e c c' : handle_cleaner_timer e c = Done c' -> _services c' = expire_nodes (intro_IsExpired (Now e)) (_services c).
Proof.
  unfold handle_cleaner_timer, CleanupTX. destruct (DhtTx.Expire _ _ (pendingRouterLookups c)) as [h1 r1].
  destruct (DhtTx.Expire _ _ (pendingIntrosetLookups _)) as [h2 r2]. destruct (DhtTx.Expire _ _ (pendingExploreLookups _)) as [h3 r3].
  destruct (explore_replies _ _ _) as [c1| |] eqn:E; intros Eq; simplify_eq/=. apply explore_replies_services in E.
  cbn [_services cx_pendingExploreLookups] in E. rewrite intro_replies_services in E. cbn in E. rewrite router_replies_services in E. by rewrite E.
Qed.

(** *** Runs *)

(** The context at work, at times that satisfy [P]. *)
Inductive reaches (P : Z -> Prop) : Context -> Context -> Prop :=
  | reaches_refl c : reaches P c c
  | reaches_message c c1 c2 e msg ok replies : reaches P c c1 -> P (Now e) ->
      (forall i, message_introset msg = Some i -> key_ok (derivedSigningKey i)) ->
      HandleMessage e msg c1 = Done (ok, replies, c2) -> reaches P c c2
  | reaches_timer c c1 c2 e : reaches P c c1 -> P (Now e) -> handle_cleaner_timer e c1 = Done c2 -> reaches P c c2
  | reaches_lookup c c1 c2 e t h ok : reaches P c c1 -> P (Now e) -> LookupRouter e t h c1 = Done (ok, c2) -> reaches P c c2.

Record services_ok (c : Context) : Prop := {
  services_bucket : bucket_ok (_services c);
  services_signed : forall k i, (k, i) ∈ nodes (_services c) -> k = derivedSigningKey i /\ exists now, intro_Verify now i = true }.

(** The set stored for a service is no older than [i]. *)
Definition keeps (i : EncryptedIntroSet) (c : Context) : Prop :=
  exists j, (derivedSigningKey i, j) ∈ nodes (_services c) /\ signedAt i <= signedAt j.

Lemma find_service k i c : services_ok c -> key_ok k -> GetIntroSetByLocation k c = Some i <-> (k, i) ∈ nodes (_services c).
Proof. intros [[Hu Hl Hs] _] Hk. by apply map_find_elem. Qed.

Lemma put_elem i c : services_ok c -> key_ok (derivedSigningKey i) ->
  (nodes (PutNode i (_services c)) = nodes (_services c) /\ bucket_us (PutNode i (_services c)) = bucket_us (_services c)
     /\ exists j, (derivedSigningKey i, j) ∈ nodes (_services c) /\ signedAt i <= signedAt j)
  \/ (bucket_ok (PutNode i (_services c)) /\ (forall x, x ∈ nodes (PutNode i (_services c)) <-> x = (derivedSigningKey i, i) \/ (x ∈ nodes (_services c) /\ x.1 <> derivedSigningKey i))
     /\ forall j, (derivedSigningKey i, j) ∈ nodes (_services c) -> signedAt j <= signedAt i).
Proof.
  intros Hok Hk. pose proof Hok as [[Hu Hl Hs] _]. unfold PutNode. cbn [ID older IMNode].
  destruct (map_find _ _ _) as [v|] eqn:E.
  - apply map_find_elem in E; [|done..]. unfold intro_OtherIsNewer. destruct (Z.ltb_spec (signedAt v) (signedAt i)).
    + right. split; [split; [done|by apply map_put_keys|by apply map_put_sorted]|]. split; [by apply map_put_elem|].
      intros j Hj. apply (map_find_elem (bucket_us (_services c))) in E, Hj; [|done..]. assert (j = v) as -> by congruence. lia.
    + left. split_and!; [done..|]. exists v. split; [done|lia].
  - right. split; [split; [done|by apply map_put_keys|by apply map_put_sorted]|]. split; [by apply map_put_elem|].
    intros j Hj. apply (map_find_elem (bucket_us (_services c))) in Hj; [|done..]. congruence.
Qed.

Lemma services_same c c' : _services c' = _services c -> services_ok c -> services_ok c'.
Proof. intros E [Hb Hs]. split; rewrite E; done. Qed.
Lemma services_put i now c c' : services_ok c -> key_ok (derivedSigningKey i) -> intro_Verify now i = true ->
  _services c' = PutNode i (_services c) -> services_ok c' /\ keeps i c' /\ forall j, keeps j c -> keeps j c'.
Proof.
  intros Hok Hk Hv E. destruct (put_elem i c Hok Hk) as [(En&Eu&Hj)|(Hb&Hin&Hnew)].
  - pose proof Hok as [[Hu Hl Hs] Hsig]. unfold keeps. rewrite E, En. split; [|split; [done|auto]].
    split; [split; rewrite E, ?Eu, ?En; done|]. intros k j. rewrite E, En. apply Hsig.
  - unfold keeps. rewrite E. split_and!.
    + split; [by rewrite E|]. intros k j. rewrite E, Hin. intros [[= -> ->]|[Hj _]]; [eauto|]. by apply (services_signed c Hok).
    + exists i. split; [apply Hin; by left|lia].
    + intros j (j'&Hj&Hle). destruct (decide (derivedSigningKey j = derivedSigningKey i)) as [Ek|Ek].
      * exists i. split; [apply Hin; left; by rewrite Ek|]. rewrite Ek in Hj. specialize (Hnew j' Hj). lia.
      * exists j'. split; [apply Hin; by right|done].
Qed.
Lemma services_expire now c c' : services_ok c -> _services c' = expire_nodes (intro_IsExpired now) (_services c) ->
  services_ok c' /\ forall j, intro_IsExpired now j = false -> keeps j c -> keeps j c'.
Proof.
  intros [[Hu Hl Hs] Hsig] E. split.
  - split.
    + rewrite E. split; [done| |]; cbn [expire_nodes nodes bucket_us].
      * apply Forall_forall. intros x [_ Hx]%list_elem_of_filter. rewrite Forall_forall in Hl. by apply Hl.
      * eapply sublist_sorted; [apply sublist_filter|done].
    + intros k i. rewrite E. cbn [expire_nodes nodes]. intros [_ Hx]%list_elem_of_filter. by apply Hsig.
  - intros j Hj (j'&Hin&Hle). exists j'. rewrite E. split; [|done]. cbn [expire_nodes nodes]. apply list_elem_of_filter. split; [|done].
    cbn [snd]. unfold intro_IsExpired in *. apply Z.leb_gt in Hj. apply Z.leb_gt. lia.
Qed.

Lemma reaches_services P c c' : reaches P c c' -> services_ok c ->
  services_ok c' /\ forall i, (forall now, P now -> intro_IsExpired now i = false) -> keeps i c -> keeps i c'.
Proof.
  assert (Hsame : forall c0 c1 c2, _services c2 = _services c1 ->
    services_ok c1 /\ (forall i, (forall now, P now -> intro_IsExpired now i = false) -> keeps i c0 -> keeps i c1) ->
    services_ok c2 /\ (forall i, (forall now, P now -> intro_IsExpired now i = false) -> keeps i c0 -> keeps i c2)).
  { intros c0 c1 c2 E [Hok Hk]. split; [by apply (services_same c1)|]. intros i Hi Hi0. unfold keeps. rewrite E. by apply Hk. }
  induction 1 as [c|c c1 c2 e msg ok replies Hr IH HP Hm Hh|c c1 c2 e Hr IH HP Ht|c c1 c2 e t h ok Hr IH HP Hl]; intros Hc; [done|..];
    specialize (IH Hc).
  - apply handle_services in Hh as [E|(i&Ei&Hv&E)]; [by apply (Hsame c c1)|]. destruct IH as [Hok Hk].
    destruct (services_put i (Now e) c1 c2 Hok (Hm i Ei) Hv E) as (Hok'&_&Hj). split; [done|]. eauto.
  - apply timer_services in Ht. destruct IH as [Hok Hk]. destruct (services_expire (Now e) c1 c2 Hok Ht) as [Hok' Hj]. split; [done|]. eauto.
  - apply lookup_services in Hl. by apply (Hsame c c1).
Qed.

(** The router takes an introduction set that is published to it: the signature is
    good, it lives for long enough, and the router is one of the four that are
    closest to its key. *)
Definition accepts (e : Env) (i : EncryptedIntroSet) (c : Context) : Prop :=
  intro_Verify (Now e) i = true /\ intro_IsExpired (Now e + MAX_INTROSET_TIME_DELTA) i = false
  /\ (IntroSetStorageRedundancy <= NumLoaded (nodedb c))%nat
  /\ ourKey c ∈ map pubkey (FindManyClosestTo (derivedSigningKey i) IntroSetStorageRedundancy (nodedb c)).

Lemma candidate_found us l : forall n, 0 <= n -> us ∈ map pubkey l -> 0 <= candidate us l n.
Proof.
  induction l as [|rc l IH]; intros n Hn Hin; [by apply elem_of_nil in Hin|]. cbn [candidate]. case_bool_decide as E; [done|].
  cbn [map] in Hin. apply elem_of_cons in Hin as [->|Hin]; [done|]. apply IH; [lia|done].
Qed.
Lemma publish_accepted e From pathID i order id c : accepts e i c ->
  HandleMessage e (PublishIntroMessage From pathID i false order id) c = Done (true, [GIM [i] id], put_service i c).
Proof.
  intros (Hv&He&Hn&Hin). cbn [HandleMessage]. unfold handle_PublishIntro. rewrite Hv, He. cbn [negb].
  rewrite bool_decide_true. 2:{ unfold FindManyClosestTo. rewrite length_take, sort_perm, length_map. unfold NumLoaded in Hn. lia. }
  cbn [negb]. pose proof (candidate_found _ _ 0 ltac:(lia) Hin) as Hc. apply Z.leb_le in Hc. by rewrite Hc.
Qed.
End Services.

(** C15: an introduction set is found where it was stored, as long as it lives.  A
    router that accepts a set published to it acknowledges it; from then on, while
    the router handles any messages, expires what is old and looks up routers, and
    until the set expires, it answers every lookup of that service with a set of
    the same service that is signed and no older. *)
Theorem stored_introset_available `{Sodium} us d id0 g c e From pathID i order id : key_ok us ->
  reaches (fun _ => True) (Init us d id0 g) c -> key_ok (derivedSigningKey i) -> key_is_zero (derivedSigningKey i) = false -> accepts e i c ->
  exists c1, HandleMessage e (PublishIntroMessage From pathID i false order id) c = Done (true, [GIM [i] id], c1)
  /\ forall c2, reaches (fun now => intro_IsExpired now i = false) c1 c2 ->
     forall e' From' pathID' id' order', HasPendingLookupFrom (mkOwner From' id') (pendingIntrosetLookups c2) = false ->
     exists j, HandleMessage e' (FindIntroMessage From' pathID' (derivedSigningKey i) TAG0 id' false order') c2 = Done (true, [GIM [j] id'], c2)
       /\ derivedSigningKey j = derivedSigningKey i /\ signedAt i <= signedAt j /\ exists now, intro_Verify now j = true.
Proof.
  intros Hu Hr Hk Hz Ha. exists (put_service i c). split; [by apply publish_accepted|].
  assert (services_ok (Init us d id0 g)) as H0 by (split; [split; [done|constructor|constructor]|intros ? ? []%elem_of_nil]).
  destruct (reaches_services _ _ _ Hr H0) as [Hok _]. destruct Ha as (Hv&_).
  destruct (services_put i (Now e) c (put_service i c) Hok Hk Hv eq_refl) as (Hok1&Hkeep&_).
  intros c2 Hr2 e' From' pathID' id' order' Hp. destruct (reaches_services _ _ _ Hr2 Hok1) as [Hok2 Hk2].
  destruct (Hk2 i) as (j&Hj&Hle); [done..|]. destruct (services_signed c2 Hok2 _ _ Hj) as [Ej Hs]. exists j. split; [|done].
  cbn [HandleMessage]. unfold handle_FindIntro. rewrite Hp, Hz. change (tag_Empty TAG0) with true. cbn [negb].
  apply (find_service _ _ _ Hok2 Hk) in Hj. by rewrite Hj.
Qed.

(** A set the router accepts, with the signature of the instance. *)
Definition demo_introset : EncryptedIntroSet :=
  let i := mkIntroSet (demo_key 7) 1900000 [1; 2; 3] (replicate 32 5) (replicate 64 0) in
  let '(_, b) := IntroSet_BEncode i (Buf (replicate (MAX_INTROSET_SIZE + 128) 0) 0) in
  set_sig (be_bytes 64 (be_value (take (cur b) (base b)) + be_value (demo_key 7))) i.
Definition demo_storage : Context := Init (demo_key 6) (nodedb (demo_context 6 [6; 4; 5; 3; 90])) 100 0.
Lemma demo_accepts : accepts demo_env demo_introset demo_storage.
Proof.
  split; [vm_compute; reflexivity|]. split; [vm_compute; reflexivity|]. split; [apply (bool_decide_unpack _); vm_compute; exact I|].
  apply (bool_decide_unpack _). vm_compute. exact I.
Qed.
Lemma done_context {A B C} (a a' : A) (b b' : B) (c c' : C) : Done (a, b, c) = Done (a', b', c') -> c' = c.
Proof. by intros [= _ _ ->]. Qed.
Lemma stored_introset_available_witness : exists c1 j,
  HandleMessage demo_env (PublishIntroMessage (demo_key 1) PATHID0 demo_introset false 0 3) demo_storage = Done (true, [GIM [demo_introset] 3], c1)
  /\ HandleMessage demo_env (FindIntroMessage (demo_key 2) PATHID0 (derivedSigningKey demo_introset) TAG0 9 false 0) c1 = Done (true, [GIM [j] 9], c1)
  /\ signedAt demo_introset <= signedAt j.
Proof.
  destruct (@stored_introset_available demo_sodium (demo_key 6) (nodedb demo_storage) 100 0 demo_storage demo_env (demo_key 1) PATHID0
    demo_introset 0 3 (demo_key_ok 6)) as (c1&E&Hall).
  - exact (reaches_refl _ demo_storage).
  - apply (bool_decide_unpack _). vm_compute. exact I.
  - vm_compute. reflexivity.
  - exact demo_accepts.
  - exists c1. assert (c1 = put_service demo_introset demo_storage) as Ec.
    { pose proof (publish_accepted demo_env (demo_key 1) PATHID0 demo_introset 0 3 demo_storage demo_accepts) as E'.
      exact (done_context _ _ _ _ _ _ (eq_trans (eq_sym E') E)). }
    destruct (Hall c1 (reaches_refl _ c1) demo_env (demo_key 2) PATHID0 9 0) as (j&Ej&_&Hle&_); [rewrite Ec; reflexivity|].
    exists j. split; [exact E|]. split; [exact Ej|exact Hle].
Defined.

(** ** No transaction is started twice *)

Section Fresh.
Context `{Sodium}.

Definition owned (c : Context) (o : TXOwner) : Prop :=
  is_Some (tx (pendingRouterLookups c) !! o) \/ is_Some (tx (pendingIntrosetLookups c) !! o) \/ is_Some (tx (pendingExploreLookups c) !! o).
(** Identifiers in use are not ahead of the counter, and transactions that wait have
    found nothing yet. *)
Record ids_ok (c : Context) : Prop := {
  ids_nonneg : 0 <= ids c;
  ids_past : forall o, owned c o -> txid o <= ids c;
  intros_empty : forall o t, tx (pendingIntrosetLookups c) !! o = Some t -> valuesFound t = [];
  explores_empty : forall o t, tx (pendingExploreLookups c) !! o = Some t -> valuesFound t = [] }.
Definition advances (n : Z) (c : Context) (m : outcome Context) : Prop :=
  exists c', m = Done c' /\ ids_ok c' /\ ids c <= ids c' <= ids c + n.

Lemma silent_ids c c' : silent c c' -> ids_ok c -> ids_ok c' /\ ids c' = ids c.
Proof. intros [l ->] [H0 H1 H2 H3]. split; [by split|done]. Qed.

Lemma new_fresh {K V J} `{Countable K} o k (t : TX K V J) now d h : tx h !! o = None ->
  exists started h', NewTX o k t now d h = Done (started, h') /\ tx h' = <[o := t]> (tx h).
Proof. intros E. unfold NewTX. rewrite E. case_bool_decide; eauto. Qed.
Lemma owner_fresh c p : ids_ok c -> ~ owned c (mkOwner p (ids c + 1)).
Proof. intros [_ Hp _ _] Ho. specialize (Hp _ Ho). cbn in Hp. lia. Qed.
Lemma next_id c : ids_ok c -> ids c + 1 < 2 ^ 64 -> NextID c = (ids c + 1, cx_ids (ids c + 1) c).
Proof. intros [H0 _ _ _] Hw. unfold NextID, u64. by rewrite Z.mod_small by lia. Qed.

Lemma insert_owned {T} (o o' : TXOwner) (t : T) m : is_Some (<[o := t]> m !! o') -> o' = o \/ is_Some ((m : gmap TXOwner T) !! o').
Proof. intros [x [[-> _]|[_ Hx]]%lookup_insert_Some]; eauto. Qed.

Ltac owned_past := match goal with
  | Hp : forall o, owned ?c o -> _ |- txid ?o <= _ => assert (txid o <= ids c) by (apply Hp; unfold owned; tauto); lia
  end.
Lemma router_advances e p t c : ids_ok c -> advances 1 c (new_router_tx e (mkOwner p (ids c + 1)) t (cx_ids (ids c + 1) c)).
Proof.
  intros Hok. destruct (new_fresh (mkOwner p (ids c + 1)) (target t) t (Now e) 15000 (pendingRouterLookups c)) as (st&h&E&Eh).
  { apply eq_None_not_Some. intros Hs. apply (owner_fresh c p Hok). by left. }
  unfold new_router_tx. cbn [pendingRouterLookups cx_ids]. rewrite E. cbn [obind]. eexists. split; [done|].
  set (c1 := cx_pendingRouterLookups h _). assert (ids_ok c1) as Hc1.
  { destruct Hok as [H0 Hp Hi He]. split; cbn; [lia| |done|done]. intros o Ho. unfold owned in Ho. cbn in Ho. rewrite Eh in Ho.
    destruct Ho as [[->|Ho]%insert_owned|Ho]; [cbn; lia|owned_past..]. }
  destruct (silent_ids c1 (if st then router_Start e (mkOwner p (ids c + 1)) t c1 else c1)) as [Hok' Ei]; [apply silent_if; [apply send_silent|reflexivity]|done|].
  split; [done|]. rewrite Ei. cbn. lia.
Qed.
Lemma intro_advances e p d t c : ids_ok c -> valuesFound t = [] -> advances 1 c (new_intro_tx e (mkOwner p (ids c + 1)) d t (cx_ids (ids c + 1) c)).
Proof.
  intros Hok Hv. destruct (new_fresh (mkOwner p (ids c + 1)) (target t) t (Now e) d (pendingIntrosetLookups c)) as (st&h&E&Eh).
  { apply eq_None_not_Some. intros Hs. apply (owner_fresh c p Hok). right. by left. }
  unfold new_intro_tx. cbn [pendingIntrosetLookups cx_ids]. rewrite E. cbn [obind]. eexists. split; [done|].
  set (c1 := cx_pendingIntrosetLookups h _). assert (ids_ok c1) as Hc1.
  { destruct Hok as [H0 Hp Hi He]. split; cbn; [lia| | |done].
    - intros o Ho. unfold owned in Ho. cbn in Ho. rewrite Eh in Ho. destruct Ho as [Ho|[[->|Ho]%insert_owned|Ho]]; [|cbn; lia|..]; owned_past.
    - intros o t'. rewrite Eh. intros [[_ <-]|[_ Ho]]%lookup_insert_Some; [done|by eapply Hi]. }
  destruct (silent_ids c1 (if st then intro_Start e (mkOwner p (ids c + 1)) t c1 else c1)) as [Hok' Ei]; [|done|].
  { apply silent_if; [|reflexivity]. unfold intro_Start. destruct (job t); apply send_silent. }
  split; [done|]. rewrite Ei. cbn. lia.
Qed.

Lemma recursive_advances e t who id p h c : ids_ok c -> ids c + 1 < 2 ^ 64 -> advances 1 c (LookupRouterRecursive e t who id p h c).
Proof. intros Hok Hw. unfold LookupRouterRecursive. rewrite next_id by done. by apply router_advances. Qed.
Lemma lookup_advances e t h c : ids_ok c -> ids c + 1 < 2 ^ 64 ->
  exists ok c', LookupRouter e t h c = Done (ok, c') /\ ids_ok c' /\ ids c <= ids c' <= ids c + 1.
Proof.
  intros Hok Hw. unfold LookupRouter. destruct (FindClosest _ _ _) as [[] askpeer]; cbn [negb].
  - destruct (recursive_advances e t (ourKey c) 0 askpeer h c Hok Hw) as (c'&E&Hc&Hi). rewrite E. cbn [obind]. eauto.
  - exists false, c. split_and!; [done..|lia|lia].
Qed.
Lemma explore_reply_advances e l : forall c, ids_ok c -> ids c + Z.of_nat (length l) < 2 ^ 64 -> advances (Z.of_nat (length l)) c (explore_SendReply e l c).
Proof.
  induction l as [|pk l IH]; intros c Hok Hw; cbn [explore_SendReply length] in *.
  { exists c. split_and!; [done..|lia|lia]. }
  case_match.
  - destruct (IH c Hok) as (c'&E&Hc&Hi); [lia|]. exists c'. split_and!; [done..|lia|lia].
  - destruct (lookup_advances e pk (ExploreResult pk) c Hok) as (ok&c1&E&Hc&Hi); [lia|]. rewrite E. cbn [obind].
    destruct (IH c1 Hc) as (c'&E'&Hc'&Hi'); [lia|]. exists c'. split_and!; [done..|lia|lia].
Qed.
Lemma explore_replies_advance e N l : forall c, Forall (fun x => length (valuesFound x.2) <= N)%nat l -> ids_ok c ->
  ids c + Z.of_nat (N * length l) < 2 ^ 64 -> advances (Z.of_nat (N * length l)) c (explore_replies e l c).
Proof.
  induction l as [|x l IH]; intros c Hl Hok Hw; cbn [explore_replies].
  { exists c. split_and!; [done..|lia|lia]. }
  apply Forall_cons in Hl as [Hx Hl]. cbn [length] in *. rewrite Nat.mul_succ_r in *.
  destruct (explore_reply_advances e (valuesFound x.2) c Hok) as (c1&E&Hc&Hi); [lia|]. rewrite E. cbn [obind].
  destruct (IH c1 Hl Hc) as (c'&E'&Hc'&Hi'); [lia|]. exists c'. split_and!; [done..|lia|lia].
Qed.

Lemma relayed_advances e addr who id p o h c : ids_ok c -> ids c + 1 < 2 ^ 64 -> advances 1 c (LookupIntroSetRelayed e addr who id p o h c).
Proof. intros Hok Hw. unfold LookupIntroSetRelayed. rewrite next_id by done. by apply intro_advances. Qed.
Lemma advances_ok n c m c0 : advances n c m -> ids_ok (match m with Done c' => c' | _ => c0 end).
Proof. by intros (c'&->&Hok&_). Qed.

(** Answers and timeouts only remove transactions. *)
Lemma shrink_router c h : ids_ok c -> tx h ⊆ tx (pendingRouterLookups c) -> ids_ok (cx_pendingRouterLookups h c).
Proof.
  intros [H0 Hp Hi He] Hh. split; cbn; [done| |done|done]. intros o Ho. apply Hp. destruct Ho as [[x Hx]|Ho]; [left|by right].
  cbn in Hx. exists x. exact (lookup_weaken _ _ _ _ Hx Hh).
Qed.
Lemma shrink_intro c h : ids_ok c -> tx h ⊆ tx (pendingIntrosetLookups c) -> ids_ok (cx_pendingIntrosetLookups h c).
Proof.
  intros [H0 Hp Hi He] Hh. split; cbn; [done| | |done].
  - intros o Ho. apply Hp. destruct Ho as [Ho|[[x Hx]|Ho]]; [by left|right; left|by right; right]. cbn in Hx. exists x. exact (lookup_weaken _ _ _ _ Hx Hh).
  - intros o t Ht. apply (Hi o t). exact (lookup_weaken _ _ _ _ Ht Hh).
Qed.
Lemma shrink_explore c h : ids_ok c -> tx h ⊆ tx (pendingExploreLookups c) -> ids_ok (cx_pendingExploreLookups h c).
Proof.
  intros [H0 Hp Hi He] Hh. split; cbn; [done| |done|].
  - intros o Ho. apply Hp. destruct Ho as [Ho|[Ho|[x Hx]]]; [by left|by right; left|right; right]. cbn in Hx. exists x. exact (lookup_weaken _ _ _ _ Hx Hh).
  - intros o t Ht. apply (He o t). exact (lookup_weaken _ _ _ _ Ht Hh).
Qed.

(** The identifiers that handling a message can take. *)
Definition demand (msg : DhtMessage) (c : Context) : nat :=
  match msg with GotRouterMessage _ _ _ nearKeys _ _ _ => length nearKeys * length (waiting (pendingExploreLookups c)) | _ => 1 end.
Definition handled (n : nat) (c : Context) (m : outcome (bool * list DhtMessage * Context)) : Prop :=
  exists ok replies c', m = Done (ok, replies, c') /\ ids_ok c' /\ ids c <= ids c' <= ids c + Z.of_nat n.

Lemma handled_silent n c c' ok replies : ids_ok c -> silent c c' -> handled n c (Done (ok, replies, c')).
Proof. intros Hok Hs. destruct (silent_ids c c' Hs Hok) as [Hok' E]. exists ok, replies, c'. split_and!; [done..|lia|lia]. Qed.
Lemma handled_same n c ok replies : ids_ok c -> handled n c (Done (ok, replies, c)).
Proof. intros Hok. by apply handled_silent. Qed.
Lemma handled_advance n c m ok replies : advances 1 c m -> (1 <= n)%nat -> handled n c (let! c := m in Done (ok, replies, c)).
Proof. intros (c'&->&Hok&Hi) Hn. exists ok, replies, c'. split_and!; [done..|lia|lia]. Qed.

Lemma explore_found c owner k near : ids_ok c ->
  Forall (fun x => length (valuesFound x.2) <= length near)%nat (Found (fun (_ : ExploreTX) _ => true) owner k near (pendingExploreLookups c)).2.
Proof.
  intros [_ _ _ He]. unfold Found. destruct (inform_replies (fun (_ : ExploreTX) _ => true) owner k near true (pendingExploreLookups c)) as (r&->&_&_&Hr).
  eapply Forall_impl; [exact Hr|]. intros x (t&Ht&->). specialize (He _ _ Ht). revert He. clear. generalize (node owner) as p. intros p.
  enough (forall t : ExploreTX, length (valuesFound (fold_left (OnFound (fun _ _ => true) p) near t)) = (length (valuesFound t) + length near)%nat) as E.
  { intros Hv. rewrite E, Hv. cbn. lia. }
  induction near as [|y near IH]; intros t'; [cbn; lia|]. cbn [fold_left]. rewrite IH. cbn [OnFound valuesFound]. rewrite length_app. cbn. lia.
Qed.
(** The transactions of explorations that an answer replies to. *)
Definition explore_answer (near : list Key) (from : Key) (id : Z) (h : TXHolder Key Key ()) : TXHolder Key Key () * list (TXOwner * ExploreTX) :=
  if bool_decide (near = []) then DhtTx.NotFound (fun (_ : ExploreTX) _ => true) (mkOwner from id) h
  else Found (fun (_ : ExploreTX) _ => true) (mkOwner from id) from near h.
Lemma explore_answered c f id near : ids_ok c -> let '(h, r) := explore_answer near f id (pendingExploreLookups c) in
  tx h ⊆ tx (pendingExploreLookups c) /\ (length r <= length (waiting (pendingExploreLookups c)))%nat
  /\ Forall (fun x => length (valuesFound x.2) <= length near)%nat r.
Proof.
  intros Hok. unfold explore_answer. set (V := fun (_ : ExploreTX) (_ : Key) => true). case_bool_decide as En.
  - destruct (notfound_replies V (mkOwner f id) (pendingExploreLookups c)) as (r&Er&Hs&Hr).
    assert (Hlen : (length r <= length (waiting (pendingExploreLookups c)))%nat).
    { subst r. unfold DhtTx.NotFound. case_match; [|cbn; lia]. destruct (inform_replies V (mkOwner f id) (target t) [] true (pendingExploreLookups c)) as (r&->&_&Hl&_). done. }
    destruct (DhtTx.NotFound _ _ _) as [h r']. cbn in Er, Hs. subst r'. split_and!; [done..|].
    eapply Forall_impl; [exact Hr|]. intros x Hx. rewrite (explores_empty c Hok _ _ Hx). cbn. lia.
  - pose proof (explore_found c (mkOwner f id) f near Hok) as Hv. unfold Found in *. fold V in Hv.
    destruct (inform_replies V (mkOwner f id) f near true (pendingExploreLookups c)) as (r&Er&Hs&Hl&_).
    destruct (Inform _ _ _ _ _ _ _) as [h r']. cbn in Er, Hs, Hv. by subst r'.
Qed.
Lemma got_router_handled e m f p rcs near id r c : ids_ok c -> ids c + Z.of_nat (length near * length (waiting (pendingExploreLookups c))) < 2 ^ 64 ->
  handled (length near * length (waiting (pendingExploreLookups c))) c (handle_GotRouter e m f p rcs near id r c).
Proof.
  intros Hok Hw. unfold handle_GotRouter.
  destruct r; [pose proof (to_pathset_silent e p m c); destruct (to_pathset _ _ _ _); by apply handled_silent|].
  destruct (HasPendingLookupFrom _ (pendingExploreLookups c)).
  - fold (explore_answer near f id (pendingExploreLookups c)). pose proof (explore_answered c f id near Hok) as Ha.
    destruct (explore_answer _ _ _ _) as [h l]. destruct Ha as (Hs&Hl&Hv).
    destruct (explore_replies_advance e (length near) l (cx_pendingExploreLookups h c) Hv (shrink_explore c h Hok Hs)) as (c'&E&Hc&Hi); [cbn; nia|].
    rewrite E. exists true, [], c'. cbn in Hi. split_and!; [done..|lia|nia].
  - destruct (HasPendingLookupFrom _ (pendingRouterLookups c)).
    + assert (Hsome : forall h l, tx h ⊆ tx (pendingRouterLookups c) -> handled (length near * length (waiting (pendingExploreLookups c))) c
        (Done (true, [], router_replies e l (cx_pendingRouterLookups h c)))).
      { intros h l Hs. destruct (handled_silent (length near * length (waiting (pendingExploreLookups c))) (cx_pendingRouterLookups h c) _ true [] (shrink_router c h Hok Hs)
          (router_replies_silent e l _)) as (ok&rp&c'&E&Hc&Hi). eexists _, _, _. split; [done|]. by injection E as _ _ <-. }
      destruct rcs as [|first rcs].
      * destruct (notfound_replies (router_Validate e) (mkOwner f id) (pendingRouterLookups c)) as (r&Er&Hs&Hr). case_match. by apply Hsome.
      * case_match; [by apply handled_same|]. unfold Found.
        destruct (inform_replies (router_Validate e) (mkOwner f id) (pubkey first) (first :: rcs) true (pendingRouterLookups c)) as (r&Er&Hs&_). case_match. by apply Hsome.
    + pose proof (store_silent e id rcs c). destruct (store_if_valid _ _ _ _). by apply handled_silent.
Qed.

Lemma find_router_handled e f t it ex id c : ids_ok c -> ids c + 1 < 2 ^ 64 -> handled 1 c (handle_FindRouter e f t it ex id c).
Proof.
  intros Hok Hw. unfold handle_FindRouter. repeat (case_match; [by apply handled_same|]). case_match.
  { destruct (HandleExploritoryRouterLookup _ _ _ _ _). by apply handled_same. }
  pose proof (fun n h => recursive_advances e t f id n h c Hok Hw) as Hrec.
  assert (Hsame : forall l, handled 1 c (let! (replies, c') := Done (l, c) in Done (true, replies, c'))) by (intros l; by apply handled_same).
  unfold LookupRouterRelayed. repeat (case_match; try apply Hsame);
    (destruct (Hrec (pubkey (FindClosestTo t (nodedb c))) NoHandler) as (c'&->&Hc&Hi); exists true, [], c'; split_and!; [done..|lia|lia]).
Qed.
Lemma publish_handled e f p i r o id c : ids_ok c -> ids c + 1 < 2 ^ 64 -> handled 1 c (handle_PublishIntro e f p i r o id c).
Proof.
  intros Hok Hw. assert (Hput : handled 1 c (Done (true, [GIM [i] id], put_service i c))).
  { exists true, [GIM [i] id], (put_service i c). split; [done|]. destruct Hok. split; [by split|cbn; lia]. }
  unfold handle_PublishIntro. repeat (case_match; try (by apply handled_same)); try exact Hput.
  unfold propagateIfNotUs. destruct (_ !! Z.to_nat o) as [rc|] eqn:El.
  2:{ apply lookup_ge_None in El. rewrite negb_false_iff, bool_decide_eq_true in *. unfold IntroSetStorageRedundancy in *. rewrite Z.leb_gt in *. lia. }
  destruct (bool_decide (pubkey rc = ourKey c)); [exact Hput|]. unfold PropagateLocalIntroSet, PropagateIntroSetTo. rewrite next_id by done.
  edestruct (intro_advances e (pubkey rc) 15000) as (c'&->&Hc&Hi); [exact Hok| |]; [done|]. cbn [obind]. exists true, [], c'. split_and!; [done..|lia|lia].
Qed.
Lemma got_intro_silent e f found id c : ids_ok c -> forall ok c', handle_GotIntro e f found id c = (ok, c') -> ids_ok c' /\ ids c' = ids c.
Proof.
  intros Hok ok c'. unfold handle_GotIntro. case_match; [by intros [= _ <-]|]. destruct (GetPendingLookupFrom _ _) as [t|]; [|by intros [= _ <-]].
  assert (Hsome : forall h l, tx h ⊆ tx (pendingIntrosetLookups c) -> (true, intro_replies e l (cx_pendingIntrosetLookups h c)) = (ok, c') -> ids_ok c' /\ ids c' = ids c).
  { intros h l Hs [= _ <-]. destruct (silent_ids _ _ (intro_replies_silent e l (cx_pendingIntrosetLookups h c)) (shrink_intro c h Hok Hs)). done. }
  case_bool_decide.
  - destruct (notfound_replies (intro_job_Validate e) (mkOwner f id) (pendingIntrosetLookups c)) as (r&_&Hs&_). case_match. by apply Hsome.
  - unfold Found. destruct (inform_replies (intro_job_Validate e) (mkOwner f id) (target t) found true (pendingIntrosetLookups c)) as (r&_&Hs&_). case_match. by apply Hsome.
Qed.
Lemma messages_handled e msg c : ids_ok c -> ids c + Z.of_nat (demand msg c) < 2 ^ 64 -> handled (demand msg c) c (HandleMessage e msg c).
Proof.
  intros Hok Hw. destruct msg; cbn [HandleMessage demand] in *.
  - by apply find_router_handled.
  - unfold handle_RelayedFindRouter. repeat (case_match; [by apply handled_same|]).
    repeat (case_match; try (by apply handled_same)). apply handled_advance; [|lia]. unfold LookupRouterForPath. rewrite next_id by done. by apply router_advances.
  - by apply got_router_handled.
  - unfold handle_FindIntro. repeat (case_match; try (by apply handled_same)). apply handled_advance; [|lia]. unfold LookupIntroSetForPath.
    rewrite next_id by done. by apply intro_advances.
  - destruct (handle_GotIntro _ _ _ _ _) as [ok c'] eqn:E. destruct (got_intro_silent _ _ _ _ _ Hok _ _ E) as [Hc Ei]. exists ok, [], c'. split_and!; [done..|lia|lia].
  - pose proof (to_pathset_silent e pathID (RelayedGotIntroMessage From pathID found id) c). destruct (to_pathset _ _ _ _). by apply handled_silent.
  - by apply publish_handled.
  - unfold handle_FindName. destruct (key_is_zero pathID || negb (IsMasterNode e)); apply handled_silent; [done|reflexivity|done|apply emit_silent].
  - pose proof (to_pathset_silent e pathID (GotNameMessage From pathID ciphertext nonce id) c). destruct (to_pathset _ _ _ _). by apply handled_silent.
Qed.
Lemma timer_handled e c : ids_ok c -> ids c < 2 ^ 64 -> advances 0 c (handle_cleaner_timer e c).
Proof.
  intros Hok Hw. unfold handle_cleaner_timer, CleanupTX. unfold DhtTx.Expire.
  destruct (expire_loop_replies (router_Validate e) (Now e) (map_to_list (timeouts (pendingRouterLookups c))) (pendingRouterLookups c) []) as (r1&E1&H1&_).
  destruct (expire_loop _ _ _ (pendingRouterLookups c) _) as [h1 r1']. cbn [fst snd] in *.
  pose proof (shrink_router c h1 Hok H1) as Hok1.
  destruct (silent_ids _ _ (router_replies_silent e r1' (cx_pendingRouterLookups h1 c)) Hok1) as [Hok1' Ei1]. set (c1 := router_replies _ _ _) in *.
  destruct (expire_loop_replies (intro_job_Validate e) (Now e) (map_to_list (timeouts (pendingIntrosetLookups c1))) (pendingIntrosetLookups c1) []) as (r2&E2&H2&_).
  destruct (expire_loop _ _ _ (pendingIntrosetLookups c1) _) as [h2 r2']. cbn [fst snd] in *.
  destruct (silent_ids _ _ (intro_replies_silent e r2' (cx_pendingIntrosetLookups h2 c1)) (shrink_intro c1 h2 Hok1' H2)) as [Hok2 Ei2]. set (c2 := intro_replies _ _ _) in *.
  destruct (expire_loop_replies (fun (_ : ExploreTX) (_ : Key) => true) (Now e) (map_to_list (timeouts (pendingExploreLookups c2))) (pendingExploreLookups c2) []) as (r3&E3&H3&Hr3).
  destruct (expire_loop _ _ _ (pendingExploreLookups c2) _) as [h3 r3']. cbn [fst snd] in *. subst r3'. pose proof (shrink_explore c2 h3 Hok2 H3) as Hok3.
  destruct (explore_replies_advance e 0 r3 (cx_pendingExploreLookups h3 c2)) as (c3&E&Hc3&Hi); [|done|cbn in *; lia|].
  { eapply Forall_impl; [exact Hr3|]. intros x Hx. by rewrite (explores_empty c2 Hok2 _ _ Hx). }
  cbn [app]. rewrite E. cbn [obind]. eexists. split; [done|]. destruct Hc3. split; [by split|]. cbn in *. lia.
Qed.
End Fresh.

Lemma init_ids_ok `{Sodium} us d id g : 0 <= id -> ids_ok (Init us d id g).
Proof.
  intros Hid. split; [done|intros o [[t E]|[[t E]|[t E]]]|intros o t E|intros o t E]; cbn in E; by rewrite lookup_empty in E.
Qed.

(** C24: handling messages and the timer is safe.  While the counter of identifiers
    does not wrap around, a context made by [Init] handles every message and every
    tick of the timer without touching a transaction that was freed, takes at most
    one identifier per lookup it starts, and keeps the invariant that lets it go on. *)
Theorem dht_never_faults `{Sodium} us d id g c : 0 <= id ->
  ids_ok (Init us d id g)
  /\ (ids_ok c ->
      (forall e msg, ids c + Z.of_nat (demand msg c) < 2 ^ 64 -> exists ok replies c',
         HandleMessage e msg c = Done (ok, replies, c') /\ ids_ok c' /\ ids c <= ids c' <= ids c + Z.of_nat (demand msg c))
      /\ (forall e, ids c < 2 ^ 64 -> exists c', handle_cleaner_timer e c = Done c' /\ ids_ok c' /\ ids c' = ids c)).
Proof.
  intros Hid. split; [by apply init_ids_ok|].
  intros Hok. split; [intros e msg Hw; by apply messages_handled|]. intros e Hw. destruct (timer_handled e c Hok Hw) as (c'&E&Hc&Hi).
  exists c'. split_and!; [done..|lia].
Qed.
Definition demo_start : Context := Init (demo_key 12) (nodedb (demo_context 12 [3; 5])) 100 0.
Lemma dht_never_faults_witness : exists ok replies c',
  HandleMessage demo_env (FindRouterMessage (demo_key 1) PATHID0 (demo_key 4) false false 7) demo_start = Done (ok, replies, c')
  /\ ids_ok c' /\ 100 <= ids c' <= 101.
Proof.
  assert (0 <= 100) as H0 by lia.
  destruct (@dht_never_faults demo_sodium (demo_key 12) (nodedb (demo_context 12 [3; 5])) 100 0 demo_start H0) as [Hi Hall].
  destruct (Hall Hi) as [Hm _].
  destruct (Hm demo_env (FindRouterMessage (demo_key 1) PATHID0 (demo_key 4) false false 7)) as (ok&replies&c'&E&Hok&Hb); [vm_compute; reflexivity|].
  exists ok, replies, c'. split; [exact E|]. split; [exact Hok|exact Hb].
Defined.

(** ** Answers are checked *)

Section Answers.
Context `{Sodium}.

(** The introduction sets an event carries. *)
Definition carried (ev : DhtEvent) : option (list EncryptedIntroSet) :=
  match ev with
  | IntroResult _ l | SendTo _ (GotIntroMessage _ _ l _) | SendOnPath _ (GotIntroMessage _ _ l _) => Some l
  | _ => None
  end.
(** What may be carried in answer to a transaction, out of the sets found. *)
Definition answers (e : Env) (found : list EncryptedIntroSet) (t : IntroTX) (l : list EncryptedIntroSet) : Prop :=
  match job t with
  | ServiceAddressLookup location _ _ | LocalServiceAddressLookup location _ _ =>
      (length l <= 1)%nat /\ forall i, i ∈ l -> i ∈ found /\ intro_Verify (Now e) i = true /\ derivedSigningKey i = location
  | PublishServiceJob i _ | LocalPublishServiceJob i _ _ _ => l = [i]
  end.

Lemma found_job {K V J} `{Countable K} Val p vs : forall t : TX K V J, job (fold_left (OnFound Val p) vs t) = job t.
Proof. induction vs as [|v vs IH]; intros t; [done|]. cbn [fold_left]. by rewrite IH. Qed.
Lemma found_values e p vs : forall t : IntroTX, valuesFound (fold_left (OnFound (intro_job_Validate e) p) vs t)
  = valuesFound t ++ base.filter (fun v => intro_job_Validate e t v = true) vs.
Proof.
  induction vs as [|v vs IH]; intros t; [by rewrite app_nil_r|]. cbn [fold_left]. rewrite IH. rewrite filter_cons.
  assert (forall v, intro_job_Validate e (OnFound (intro_job_Validate e) p t v) = intro_job_Validate e t) as -> by done. cbn [OnFound valuesFound].
  assert (forall a b v, intro_job_Validate e (mkTX (target t) a b (whoasked t) (job t)) v = intro_job_Validate e t v) as -> by done.
  destruct (intro_job_Validate e t v) eqn:E; [rewrite decide_True by done; by rewrite <- app_assoc|by rewrite decide_False by congruence].
Qed.
Lemma newest_elem l : l <> [] -> Forall (fun i => 0 < signedAt i) l -> newest_intro l ∈ l.
Proof.
  unfold newest_intro. intros Hne Hl. destruct l as [|x l]; [done|]. apply Forall_cons in Hl as [Hx Hl]. cbn [fold_left].
  assert (intro_OtherIsNewer IntroSet_new x = true) as -> by (apply Z.ltb_lt; done). clear Hne Hx. revert x.
  induction Hl as [|y l Hy Hl IH]; intros x; [left|]. cbn [fold_left]. destruct (intro_OtherIsNewer x y); [right; apply IH|].
  specialize (IH x). apply elem_of_cons in IH as [->|IH]; [left|by right; right].
Qed.
Lemma valid_recent now i : default_lifetime <= now -> intro_Verify now i = true -> 0 < signedAt i.
Proof.
  intros Hn. unfold intro_Verify. destruct (intro_IsExpired now i) eqn:E; [done|]. intros _. unfold intro_IsExpired in E. apply Z.leb_gt in E. lia.
Qed.

Ltac cases_in Hin := apply list_elem_of_In in Hin; repeat destruct Hin as [<-|Hin]; try destruct Hin; by simplify_eq/=.
Lemma reply_carries e t c ev l : ev ∈ new_events c (intro_SendReply e t c) -> carried ev = Some l ->
  match job t with
  | ServiceAddressLookup _ _ _ | LocalServiceAddressLookup _ _ _ => l = (if bool_decide (length (valuesFound t) = 0%nat) then [] else [newest_intro (valuesFound t)])
  | PublishServiceJob i _ | LocalPublishServiceJob i _ _ _ => l = [i]
  end.
Proof.
  assert (Hv : (if bool_decide (length (valuesFound t) = 0%nat) then valuesFound t else [newest_intro (valuesFound t)])
    = (if bool_decide (length (valuesFound t) = 0%nat) then [] else [newest_intro (valuesFound t)])).
  { case_bool_decide as E; [|done]. by apply nil_length_inv. }
  fold (newest_values t) in Hv. unfold intro_SendReply. rewrite <- Hv. clear Hv.
  assert (Hnew : forall l1 c1, c1 = says l1 c -> new_events c c1 = l1) by (intros l1 c1 ->; by apply new_app).
  destruct (job t) as [loc o h|loc o p|i o|i o p n]; intros Hin Hc.
  - unfold service_SendReply in Hin. destruct (has_handler h); erewrite Hnew in Hin; [|unfold publish_SendReply, DHTSendTo, emit, says; cbn; rewrite <- !app_assoc; reflexivity|
      |unfold publish_SendReply, DHTSendTo, emit, says; cbn; rewrite <- !app_assoc; reflexivity];
      cases_in Hin.
  - unfold local_service_SendReply, local_publish_SendReply, on_path in Hin. destruct (GetByUpstream _ _ _); [erewrite Hnew in Hin by reflexivity|rewrite (new_app c c []) in Hin by (by rewrite app_nil_r)];
      cases_in Hin.
  - erewrite Hnew in Hin; [|unfold publish_SendReply, DHTSendTo, emit, says; cbn; rewrite <- !app_assoc; reflexivity].
    cases_in Hin.
  - unfold local_service_SendReply, local_publish_SendReply, on_path in Hin. destruct (GetByUpstream _ _ _); [erewrite Hnew in Hin by reflexivity|rewrite (new_app c c []) in Hin by (by rewrite app_nil_r)];
      cases_in Hin.
Qed.

Lemma replies_events e l : forall c ev, ev ∈ new_events c (intro_replies e l c) ->
  exists x c1, x ∈ l /\ ev ∈ new_events c1 (intro_SendReply e x.2 c1).
Proof.
  unfold intro_replies. induction l as [|x l IH]; intros c ev Hin; cbn [fold_left] in Hin.
  { rewrite (new_app c c []) in Hin by (by rewrite app_nil_r). by apply elem_of_nil in Hin. }
  destruct (intro_reply_silent e x.2 c) as [l1 E1]. destruct (intro_replies_silent e l (intro_SendReply e x.2 c)) as [l2 E2].
  assert (new_events c (fold_left (fun c y => intro_SendReply e y.2 c) l (intro_SendReply e x.2 c)) = l1 ++ l2) as En.
  { apply new_app. fold (intro_replies e l (intro_SendReply e x.2 c)). rewrite E2, E1. cbn. by rewrite app_assoc. }
  rewrite En in Hin. apply elem_of_app in Hin as [Hin|Hin].
  - exists x, c. split; [left|]. by rewrite (new_app c _ l1) by (rewrite E1; done).
  - destruct (IH (intro_SendReply e x.2 c) ev) as (y&c1&Hy&Hev).
    { fold (intro_replies e l (intro_SendReply e x.2 c)). by rewrite (new_app _ _ l2) by (rewrite E2; done). }
    exists y, c1. split; [by right|done].
Qed.

Lemma lookup_answer e (t : IntroTX) (vs found : list EncryptedIntroSet) loc : default_lifetime <= Now e -> (forall v, v ∈ vs -> v ∈ found) ->
  (forall v, intro_job_Validate e t v = intro_Verify (Now e) v && bool_decide (derivedSigningKey v = loc)) ->
  let good := base.filter (fun v => intro_job_Validate e t v = true) vs in
  let l := if bool_decide (length good = 0%nat) then [] else [newest_intro good] in
  (length l <= 1)%nat /\ forall i, i ∈ l -> i ∈ found /\ intro_Verify (Now e) i = true /\ derivedSigningKey i = loc.
Proof.
  intros Hn Hvs Hval good l.
  assert (Hg : forall i, i ∈ good -> i ∈ found /\ intro_Verify (Now e) i = true /\ derivedSigningKey i = loc).
  { intros i [Hi Hiv]%list_elem_of_filter. rewrite Hval in Hi. apply andb_true_iff in Hi as [Hi1 Hi2]. apply bool_decide_eq_true in Hi2. auto. }
  subst l. case_bool_decide as El; [split; [by apply Nat.le_0_l|intros i []%elem_of_nil]|]. split; [done|].
  intros i ->%list_elem_of_singleton. apply Hg, newest_elem.
  - intros E0. by rewrite E0 in El.
  - apply Forall_forall. intros i Hi. apply (valid_recent (Now e)); [done|]. by apply Hg.
Qed.
Lemma service_checks e loc v : service_Validate e loc v = intro_Verify (Now e) v && bool_decide (derivedSigningKey v = loc).
Proof. unfold service_Validate. destruct (intro_Verify (Now e) v); [|done]. by destruct (bool_decide (derivedSigningKey v = loc)). Qed.
Lemma replies_answer e From found c h r ev l : ids_ok c -> default_lifetime <= Now e -> carried ev = Some l ->
  Forall (fun x => exists t, tx (pendingIntrosetLookups c) !! x.1 = Some t
    /\ exists vs, (forall v, v ∈ vs -> v ∈ found) /\ x.2 = fold_left (OnFound (intro_job_Validate e) From) vs t) r ->
  ev ∈ new_events c (intro_replies e r (cx_pendingIntrosetLookups h c)) -> exists o t, tx (pendingIntrosetLookups c) !! o = Some t /\ answers e found t l.
Proof.
  intros Hok Hn Hc Hr Hev. destruct (replies_events e r (cx_pendingIntrosetLookups h c) ev Hev) as (x&c1&Hx&Hxe). rewrite Forall_forall in Hr.
  destruct (Hr x Hx) as (t&Ht&vs&Hvs&Ex). exists x.1, t. split; [done|]. pose proof (reply_carries e x.2 c1 ev l Hxe Hc) as Hl.
  rewrite Ex, found_job, found_values, (intros_empty c Hok _ _ Ht) in Hl. cbn [app] in Hl. unfold answers.
  pose proof (fun loc => lookup_answer e t vs found loc Hn Hvs) as Hone. unfold intro_job_Validate in Hone.
  unfold intro_job_Validate in Hl. destruct (job t) eqn:Ej; try done; rewrite Hl; apply Hone, service_checks.
Qed.
End Answers.

(** C23: answers to lookups of introduction sets are checked.  When a router handles
    a [GotIntroMessage], everything it hands to the application, sends to the router
    that asked or sends down the path of a client is in answer to a transaction it
    had pending: for a lookup, at most one set, which is among those received, has a
    good signature and is of the service that was looked up; for a publication, the
    set that was published. *)
Theorem service_answers_checked `{Sodium} e From pathID found id c ok replies c' ev l : ids_ok c -> default_lifetime <= Now e ->
  HandleMessage e (GotIntroMessage From pathID found id) c = Done (ok, replies, c') ->
  ev ∈ new_events c c' -> carried ev = Some l ->
  exists o t, tx (pendingIntrosetLookups c) !! o = Some t /\ answers e found t l.
Proof.
  intros Hok Hn Hh Hin Hc. cbn [HandleMessage] in Hh. unfold handle_GotIntro in Hh.
  assert (Hnone : ev ∈ new_events c c -> False) by (rewrite (new_app c c []) by (by rewrite app_nil_r); apply not_elem_of_nil).
  destruct (negb _) eqn:Hver; [injection Hh as _ _ <-; by apply Hnone in Hin|].
  destruct (GetPendingLookupFrom _ _) as [t0|]; [|injection Hh as _ _ <-; by apply Hnone in Hin].
  pose proof (fun h r Hr Hev => replies_answer e From found c h r ev l Hok Hn Hc Hr Hev) as Hsome.
  case_bool_decide as En.
  - destruct (notfound_replies (intro_job_Validate e) (mkOwner From id) (pendingIntrosetLookups c)) as (r&Er&_&Hr).
    destruct (DhtTx.NotFound _ _ _) as [h r']. cbn in Er. subst r'. injection Hh as _ _ <-. apply (Hsome h r); [|done].
    eapply Forall_impl; [exact Hr|]. intros x Hx. exists x.2. split; [done|]. exists []. split; [by intros v []%elem_of_nil|done].
  - unfold Found in Hh. destruct (inform_replies (intro_job_Validate e) (mkOwner From id) (target t0) found true (pendingIntrosetLookups c)) as (r&Er&_&_&Hr).
    destruct (Inform _ _ _ _ _ _ _) as [h r']. cbn in Er. subst r'. injection Hh as _ _ <-. apply (Hsome h r); [|done].
    eapply Forall_impl; [exact Hr|]. intros x (t&Ht&Ex). exists t. split; [done|]. by exists found.
Qed.

(** The sets carried by the first event of handling a message. *)
Definition hands_out `{Sodium} (e : Env) (msg : DhtMessage) (c : Context) : option (list EncryptedIntroSet) :=
  match HandleMessage e msg c with
  | Done (_, _, c') => match new_events c c' with ev :: _ => carried ev | _ => None end
  | _ => None
  end.
Lemma hands_out_event `{Sodium} e msg c l : hands_out e msg c = Some l ->
  exists ok replies c' ev, HandleMessage e msg c = Done (ok, replies, c') /\ ev ∈ new_events c c' /\ carried ev = Some l.
Proof.
  unfold hands_out. destruct (HandleMessage _ _ _) as [[[ok replies] c']| |] eqn:E; [|discriminate..].
  destruct (new_events c c') as [|ev evs] eqn:N; [discriminate|]. intros Hc. exists ok, replies, c', ev. rewrite N. split_and!; [done|left|done].
Qed.
Definition demo_asking : Context :=
  match LookupIntroSetRelayed demo_env (demo_key 7) (demo_key 9) 55 (demo_key 4) 0 (UserHandler 5) demo_storage with Done c => c | _ => demo_storage end.
Lemma service_answers_checked_witness : exists o t,
  tx (pendingIntrosetLookups demo_asking) !! o = Some t /\ answers demo_env [demo_introset] t [demo_introset].
Proof.
  destruct (hands_out_event demo_env (GotIntroMessage (demo_key 4) PATHID0 [demo_introset] 101) demo_asking [demo_introset]) as (ok&replies&c'&ev&Hh&Hin&Hc).
  { vm_compute. reflexivity. }
  refine (service_answers_checked demo_env (demo_key 4) PATHID0 [demo_introset] 101 demo_asking ok replies c' ev [demo_introset] _ _ Hh Hin Hc).
  - assert (0 <= 100) as H0 by lia. assert (ids_ok demo_storage) as Hs by (apply (@init_ids_ok demo_sodium); exact H0).
    exact (advances_ok 1 demo_storage _ demo_storage (relayed_advances demo_env (demo_key 7) (demo_key 9) 55 (demo_key 4) 0 (UserHandler 5) demo_storage Hs ltac:(vm_compute; reflexivity))).
  - vm_compute. discriminate.
Defined.

(** ** Findings *)

(** A router contact that answers the lookup of a client is dropped: the loop of
    [LocalRouterLookup::SendReply] compares the wrong way round. *)
Lemma local_lookup_finds_nothing `{Sodium} e t c path : job t = LocalRouterLookup path -> Forall (fun x => 0 <= last_updated x) (valuesFound t) ->
  router_SendReply e t c = on_path e path (GRM (ourKey c) (txid (whoasked t)) [] true) c.
Proof.
  intros Ej Hv. unfold router_SendReply, local_router_SendReply. rewrite Ej. case_bool_decide as El.
  - apply nil_length_inv in El. by rewrite El.
  - assert (newest_local (valuesFound t) = RouterContact_new) as ->; [|by rewrite bool_decide_true].
    unfold newest_local. clear - Hv. induction Hv as [|x l Hx Hl IH]; [done|]. cbn [fold_left]. unfold OtherIsNewer at 2.
    destruct (Z.ltb_spec (last_updated x) (last_updated RouterContact_new)); [cbn in *; lia|done].
Qed.

(** The answer to a lookup of a router can be the contact of another router, when the
    peer that is asked adds a newer one to its answer. *)
Definition demo_lookup : Context :=
  match LookupRouterRecursive demo_env (demo_key 4) (demo_key 6) 0 (demo_key 5) (LookupResult (demo_key 4)) demo_storage with Done c => c | _ => demo_storage end.
Lemma answer_for_another_router :
  match HandleMessage demo_env (GotRouterMessage (demo_key 5) PATHID0 [demo_contact 4 10; demo_contact 9 20] [] None 101 false) demo_lookup with
  | Done (ok, _, c') => ok = true /\ RouterResult (LookupResult (demo_key 4)) [demo_contact 9 20] ∈ events c'
  | _ => False
  end.
Proof. vm_compute. split; [reflexivity|]. do 4 right. left. Qed.
