(* ===== verification/Contact.v ===== *)
(** * Router contacts

    [llarp/router_contact.cpp], [router_version.cpp], [net/address_info.cpp] and
    [dns/srv_data.cpp]: the contact a router publishes, its two wire formats, its
    signature and its checks.  [inet_ntop], [inet_pton] and the serialization of
    oxenc are classes with their documented laws. *)

From S2P Require Import Prelude Buffer Bencode Codec Uint128 IPRange Crypto.
Open Scope Z_scope.

(** ** Interfaces *)

(** The text of an IPv6 address, and the address of a text *)
Class Inet := { inet_ntop : list Z -> list Z; inet_pton : list Z -> option (list Z) }.
Class InetSpec `{Inet} : Prop := {
  inet_roundtrip a : length a = 16%nat -> bytes_ok a -> inet_pton (inet_ntop a) = Some a;
  inet_text a : length a = 16%nat -> bytes_ok a -> (length (inet_ntop a) < 46)%nat /\ 0 ∉ inet_ntop a }.

Definition SRVTuple : Type := list Z * Z * Z * Z * list Z.
(** [oxenc::bt_serialize] and [bt_deserialize] of a tuple, and the readers of
    [bt_list_consumer] on the text that is left; [None] is an exception. *)
Class Oxenc := {
  bt_serialize : SRVTuple -> list Z;
  bt_deserialize : list Z -> option SRVTuple;
  list_consumer : list Z -> option (list Z);
  consume_integer : list Z -> option (Z * list Z);
  consume_string_view : list Z -> option (list Z * list Z);
  consume_dict_data : list Z -> option (list Z * list Z);
  is_finished : list Z -> bool }.
(** A tuple is a list of its parts. *)
Definition tuple_value (t : SRVTuple) : bvalue :=
  let '(s, p, w, q, d) := t in BList [BStr s; BInt p; BInt w; BInt q; BStr d].
Class OxencSpec `{Oxenc} : Prop := {
  bt_serialize_text t : value_ok (tuple_value t) = true -> bt_serialize t = enc_value (tuple_value t);
  bt_roundtrip s p w q d : in_width 16 p -> in_width 16 w -> in_width 16 q -> value_ok (tuple_value (s, p, w, q, d)) = true ->
    bt_deserialize (bt_serialize (s, p, w, q, d)) = Some (s, p, w, q, d);
  consumer_opens t : list_consumer (ch_l :: t) = Some t;
  consumes_integer v t : in_width 64 v -> consume_integer (enc_int v ++ t) = Some (v, t);
  consumes_string s t : Z.of_nat (length s) < 10 ^ 9 -> consume_string_view (enc_str s ++ t) = Some (s, t);
  consumes_dict l t : value_ok (BDict l) = true -> consume_dict_data (enc_value (BDict l) ++ t) = Some (enc_value (BDict l), t);
  finished_at_end t : is_finished (ch_e :: t) = true }.

(** ** Address information *)

Record AddressInfo := mkAddr {
  rank : Z;
  dialect : list Z;
  ai_pubkey : list Z;
  ip : list Z;
  port : Z }.
Definition set_rank (v : Z) (x : AddressInfo) : AddressInfo :=
  mkAddr v (dialect x) (ai_pubkey x) (ip x) (port x).
Definition set_dialect (v : list Z) (x : AddressInfo) : AddressInfo :=
  mkAddr (rank x) v (ai_pubkey x) (ip x) (port x).
Definition set_ai_pubkey (v : list Z) (x : AddressInfo) : AddressInfo :=
  mkAddr (rank x) (dialect x) v (ip x) (port x).
Definition set_ip (v : list Z) (x : AddressInfo) : AddressInfo :=
  mkAddr (rank x) (dialect x) (ai_pubkey x) v (port x).
Definition set_port (v : Z) (x : AddressInfo) : AddressInfo :=
  mkAddr (rank x) (dialect x) (ai_pubkey x) (ip x) v.

(** [std::string(tmp)]: the text up to the first zero byte *)
Fixpoint c_str (s : list Z) : list Z :=
  match s with
  | [] => []
  | c :: s => if c =? 0 then [] else c :: c_str s
  end.
Definition AddressInfo_new : AddressInfo := mkAddr 0 [] (replicate 32 0) (replicate 16 0) 0.

Section Address.
Context `{Inet}.

(** A dialect of 128 bytes is terminated one byte past the end of [tmp]. *)
Definition AddressInfo_DecodeKey (a : AddressInfo) (key b : llarp_buffer_t) : outcome (bool * llarp_buffer_t * AddressInfo) :=
  if startswith key [99] then
    let! (i, b) := bencode_read_integer b in
    match i with
    | None => Done (false, b, a)
    | Some i => if (65536 <? i) || (i <=? 0) then Done (false, b, a) else Done (true, b, set_rank (u16 i) a)
    end
  else if startswith key [100] then
    let! (strbuf, b) := bencode_read_string b in
    match strbuf with
    | None => Done (false, b, a)
    | Some s =>
        if bool_decide (128 < sz s)%nat then Done (false, b, a)
        else if bool_decide (sz s = 128%nat) then Fault
        else Done (true, b, set_dialect (c_str (base s)) a)
    end
  else if startswith key [101] then
    let! (r, b) := @BDecode _ (aligned 32) b in
    match r with None => Done (false, b, a) | Some k => Done (true, b, set_ai_pubkey k a) end
  else if startswith key [105] then
    let! (strbuf, b) := bencode_read_string b in
    match strbuf with
    | None => Done (false, b, a)
    | Some s =>
        if bool_decide (128 <= sz s)%nat then Done (false, b, a)
        else match inet_pton (c_str (base s)) with Some addr => Done (true, b, set_ip addr a) | None => Done (false, b, a) end
    end
  else if startswith key [112] then
    let! (i, b) := bencode_read_integer b in
    match i with
    | None => Done (false, b, a)
    | Some i => if (65536 <? i) || (i <=? 0) then Done (false, b, a) else Done (true, b, set_port (u16 i) a)
    end
  else if startswith key [118] then
    let! (i, b) := bencode_read_integer b in
    match i with None => Done (false, b, a) | Some i => Done (i =? proto_version, b, a) end
  else Done (false, b, a).
Definition AddressInfo_BEncode (a : AddressInfo) (b : llarp_buffer_t) : bool * llarp_buffer_t :=
  and_then (bencode_start_dict b) (fun b =>
  and_then (bencode_write_bytestring b [99]) (fun b =>
  and_then (bencode_write_uint64 b (rank a)) (fun b =>
  and_then (bencode_write_bytestring b [100]) (fun b =>
  and_then (bencode_write_bytestring b (dialect a)) (fun b =>
  and_then (bencode_write_bytestring b [101]) (fun b =>
  and_then (bencode_write_bytestring b (ai_pubkey a)) (fun b =>
  and_then (bencode_write_bytestring b [105]) (fun b =>
  and_then (bencode_write_bytestring b (inet_ntop (ip a))) (fun b =>
  and_then (bencode_write_bytestring b [112]) (fun b =>
  and_then (bencode_write_uint64 b (port a)) (fun b =>
  and_then (bencode_write_uint64_entry b [118] proto_version) bencode_end))))))))))).
#[export] Instance AddressInfo_item : BItem AddressInfo := {|
  BEncode := AddressInfo_BEncode;
  BDecode b := let! (ok, b, a) := bencode_decode_dict (S (S (sz b))) AddressInfo_DecodeKey AddressInfo_new b in Done (if ok then Some a else None, b) |}.
End Address.

(** ** Router versions *)

Record RouterVersion := mkVersion { m_Version : list Z; m_ProtoVersion : Z }.
Definition emptyRouterVersion : RouterVersion := mkVersion [0; 0; 0] (-1).
#[export] Instance RouterVersion_eq_dec : EqDecision RouterVersion.
Proof. solve_decision. Defined.
Definition RouterVersion_IsEmpty (v : RouterVersion) : bool := bool_decide (v = emptyRouterVersion).
Definition IsCompatableWith (v other : RouterVersion) : bool := m_ProtoVersion v =? m_ProtoVersion other.
Definition write_version (v : RouterVersion) (b : llarp_buffer_t) : bool * llarp_buffer_t :=
  if RouterVersion_IsEmpty v then (true, b)
  else fold_left (fun r i => and_then r (fun b => bencode_write_uint64 b i)) (m_Version v) (bencode_write_uint64 b (u64 (m_ProtoVersion v))).
Definition RouterVersion_BEncode (v : RouterVersion) (b : llarp_buffer_t) : bool * llarp_buffer_t :=
  and_then (bencode_start_list b) (fun b => and_then (write_version v b) bencode_end).
Definition version_sink : list_sink (RouterVersion * nat) := fun '(v, idx) b has =>
  if negb has then Done (true, b, (v, idx))
  else
    let! (i, b) := bencode_read_integer b in
    match i with
    | None => Done (false, b, (v, idx))
    | Some i =>
        if bool_decide (idx = 0%nat) then Done (true, b, (mkVersion (m_Version v) (s64 i), S idx))
        else if bool_decide (3 < idx)%nat then Done (false, b, (v, idx))
        else Done (true, b, (mkVersion (<[(idx - 1)%nat := u16 i]> (m_Version v)) (m_ProtoVersion v), S idx))
    end.
#[export] Instance RouterVersion_item : BItem RouterVersion := {|
  BEncode := RouterVersion_BEncode;
  BDecode b :=
    let! (ok, b, (v, idx)) := bencode_read_list (S (S (sz b))) version_sink (emptyRouterVersion, 0%nat) b in
    Done (if ok && (bool_decide (idx = 4%nat) || bool_decide (idx = 0%nat)) then Some v else None, b) |}.

(** ** SRV records *)

Record SRVData := mkSRV { service_proto : list Z; priority : Z; weight : Z; srv_port : Z; target : list Z }.
Definition TARGET_MAX_SIZE : nat := 200.
(** [std::string::find] *)
Fixpoint find_text (fuel : nat) (s t : list Z) (pos : nat) : option nat :=
  match fuel with
  | O => None
  | S fuel => if bool_decide (take (length t) s = t) then Some pos else match s with [] => None | _ :: s => find_text fuel s t (S pos) end
  end.
Definition string_find (s t : list Z) : option nat := find_text (S (length s)) s t 0.
Definition dot_bdx : list Z := [46; 98; 100; 120].
Definition dot_mnode : list Z := [46; 109; 110; 111; 100; 101].
(** [target.size() - n] is computed without sign. *)
Definition found_at (pos : option nat) (size n : nat) : bool :=
  match pos with Some p => Z.of_nat p =? u64 (Z.of_nat size - Z.of_nat n) | None => false end.
Definition SRV_IsValid (d : SRVData) : bool :=
  let t := target d in
  if bool_decide (t = [46]) || bool_decide (length t = 0%nat) then true
  else if bool_decide (TARGET_MAX_SIZE < length t)%nat then false
  else if found_at (string_find t dot_bdx) (length t) 5 then true
  else if found_at (string_find t dot_mnode) (length t) 6 then true
  else false.
Definition toTuple (d : SRVData) : SRVTuple := (service_proto d, priority d, weight d, srv_port d, target d).
Definition fromTuple (t : SRVTuple) : SRVData := let '(s, p, w, q, d) := t in mkSRV s p w q d.
#[export] Instance SRV_item `{Oxenc} : BItem SRVData := {|
  BEncode d b := write b (bt_serialize (toTuple d));
  BDecode b :=
    let begin := cur b in
    let! (ok, b) := bencode_discard (S (sz b)) b in
    if negb ok then Done (None, b)
    else
      let srvString := take (cur b - begin) (drop begin (base b)) in
      match bt_deserialize srvString with
      | None => Done (None, b)
      | Some t => let d := fromTuple t in Done (if SRV_IsValid d then Some d else None, b)
      end |}.

(** ** Contacts *)

Record RouterContact := mkContact {
  addrs : list AddressInfo;
  netID : list Z;
  enckey : list Z;
  pubkey : list Z;
  signature : list Z;
  nickname : list Z;
  last_updated : Z;
  version : Z;
  routerVersion : option RouterVersion;
  signed_bt_dict : list Z;
  srvRecords : list SRVData }.
Definition set_addrs (v : list AddressInfo) (x : RouterContact) : RouterContact :=
  mkContact v (netID x) (enckey x) (pubkey x) (signature x) (nickname x) (last_updated x) (version x) (routerVersion x) (signed_bt_dict x) (srvRecords x).
Definition set_netID (v : list Z) (x : RouterContact) : RouterContact :=
  mkContact (addrs x) v (enckey x) (pubkey x) (signature x) (nickname x) (last_updated x) (version x) (routerVersion x) (signed_bt_dict x) (srvRecords x).
Definition set_enckey (v : list Z) (x : RouterContact) : RouterContact :=
  mkContact (addrs x) (netID x) v (pubkey x) (signature x) (nickname x) (last_updated x) (version x) (routerVersion x) (signed_bt_dict x) (srvRecords x).
Definition set_pubkey (v : list Z) (x : RouterContact) : RouterContact :=
  mkContact (addrs x) (netID x) (enckey x) v (signature x) (nickname x) (last_updated x) (version x) (routerVersion x) (signed_bt_dict x) (srvRecords x).
Definition set_signature (v : list Z) (x : RouterContact) : RouterContact :=
  mkContact (addrs x) (netID x) (enckey x) (pubkey x) v (nickname x) (last_updated x) (version x) (routerVersion x) (signed_bt_dict x) (srvRecords x).
Definition set_nickname (v : list Z) (x : RouterContact) : RouterContact :=
  mkContact (addrs x) (netID x) (enckey x) (pubkey x) (signature x) v (last_updated x) (version x) (routerVersion x) (signed_bt_dict x) (srvRecords x).
Definition set_last_updated (v : Z) (x : RouterContact) : RouterContact :=
  mkContact (addrs x) (netID x) (enckey x) (pubkey x) (signature x) (nickname x) v (version x) (routerVersion x) (signed_bt_dict x) (srvRecords x).
Definition set_version (v : Z) (x : RouterContact) : RouterContact :=
  mkContact (addrs x) (netID x) (enckey x) (pubkey x) (signature x) (nickname x) (last_updated x) v (routerVersion x) (signed_bt_dict x) (srvRecords x).
Definition set_routerVersion (v : option RouterVersion) (x : RouterContact) : RouterContact :=
  mkContact (addrs x) (netID x) (enckey x) (pubkey x) (signature x) (nickname x) (last_updated x) (version x) v (signed_bt_dict x) (srvRecords x).
Definition set_signed_bt_dict (v : list Z) (x : RouterContact) : RouterContact :=
  mkContact (addrs x) (netID x) (enckey x) (pubkey x) (signature x) (nickname x) (last_updated x) (version x) (routerVersion x) v (srvRecords x).
Definition set_srvRecords (v : list SRVData) (x : RouterContact) : RouterContact :=
  mkContact (addrs x) (netID x) (enckey x) (pubkey x) (signature x) (nickname x) (last_updated x) (version x) (routerVersion x) (signed_bt_dict x) v.
Definition MAX_RC_SIZE : nat := 1024.
Definition NICKLEN : nat := 32.
(** Milliseconds *)
Definition rc_lifetime : Z := 24 * 3600000.
Definition rc_expire_age : Z := rc_lifetime * 10.
Definition serializeExit : bool := true.

Definition pad (n : nat) (s : list Z) : list Z := take n s ++ replicate (n - length s) 0.
(** [NetID(val)]: up to eight bytes, as far as the first zero *)
Definition NetID_of (val : list Z) : list Z := pad 8 (c_str (take 8 val)).
Definition NetID_ToString (n : list Z) : list Z := c_str n.
Definition NetID_BEncode (n : list Z) (b : llarp_buffer_t) : bool * llarp_buffer_t := bencode_write_bytestring b (c_str n).
Definition NetID_BDecode (b : llarp_buffer_t) : outcome (bool * list Z * llarp_buffer_t) :=
  let! (strbuf, b) := bencode_read_string b in
  match strbuf with
  | None => Done (false, replicate 8 0, b)
  | Some s => if bool_decide (8 < sz s)%nat then Done (false, replicate 8 0, b) else Done (true, pad 8 (base s), b)
  end.

Section Contact.
Context `{Inet} `{Oxenc} `{Sodium}.
(** [NetID::DefaultValue()] and [RouterContact::BlockBogons] *)
Context (DefaultNetID : list Z) (BlockBogons : bool).

Definition Clear (x : RouterContact) : RouterContact :=
  mkContact [] (netID x) (replicate 32 0) (replicate 32 0) (replicate 64 0) (replicate NICKLEN 0) 0 proto_version None (signed_bt_dict x) [].
Definition RouterContact_new : RouterContact := Clear (mkContact [] (NetID_of DefaultNetID) [] [] [] [] 0 0 None [] []).
Definition Nick (x : RouterContact) : list Z := c_str (nickname x).
Definition HasNick (x : RouterContact) : bool := negb (default 0 (nickname x !! 0%nat) =? 0).
Definition SetNick (nick : list Z) (x : RouterContact) : RouterContact := set_nickname (pad NICKLEN nick) x.
Definition IsPublicRouter (x : RouterContact) : bool :=
  match routerVersion x with None => false | Some _ => negb (bool_decide (addrs x = [])) end.
Definition Age (now : Z) (x : RouterContact) : Z := if last_updated x <? now then now - last_updated x else 0.
Definition IsExpired (now : Z) (x : RouterContact) : bool := rc_expire_age <=? Age now x.
Definition TimeUntilExpires (now : Z) (x : RouterContact) : Z :=
  let expiresAt := last_updated x + rc_lifetime in if now <? expiresAt then expiresAt - now else 0.
Definition ExpiresSoon (now dlt : Z) (x : RouterContact) : bool := TimeUntilExpires now x <=? dlt.
Definition FromOurNetwork (x : RouterContact) : bool := bool_decide (NetID_ToString (netID x) = NetID_ToString DefaultNetID).

(** *** Encoding *)

Definition BEncodeSignedSection (x : RouterContact) (b : llarp_buffer_t) : bool * llarp_buffer_t :=
  and_then (bencode_start_dict b) (fun b =>
  and_then (bencode_write_bytestring b [97]) (fun b =>
  and_then (BEncodeWriteList (addrs x) b) (fun b =>
  and_then (bencode_write_bytestring b [105]) (fun b =>
  and_then (NetID_BEncode (netID x) b) (fun b =>
  and_then (bencode_write_bytestring b [107]) (fun b =>
  and_then (@BEncode _ (aligned 32) (pubkey x) b) (fun b =>
  and_then (if bool_decide (Nick x = []) then (true, b)
            else and_then (bencode_write_bytestring b [110]) (fun b => bencode_write_bytestring b (Nick x))) (fun b =>
  and_then (bencode_write_bytestring b [112]) (fun b =>
  and_then (@BEncode _ (aligned 32) (enckey x) b) (fun b =>
  and_then (match routerVersion x with Some v => BEncodeWriteDictEntry [114] v b | None => (true, b) end) (fun b =>
  and_then (if 0 <? version x then BEncodeWriteDictList [115] (srvRecords x) b else (true, b)) (fun b =>
  and_then (bencode_write_bytestring b [117]) (fun b =>
  and_then (bencode_write_uint64 b (u64 (last_updated x))) (fun b =>
  and_then (bencode_write_uint64_entry b [118] (version x)) (fun b =>
  and_then (if serializeExit then and_then (bencode_write_bytestring b [120]) (@BEncodeWriteList _ (aligned 8) []) else (true, b)) (fun b =>
  and_then (if version x =? 0 then and_then (bencode_write_bytestring b [122]) (@BEncode _ (aligned 64) (signature x)) else (true, b))
    bencode_end)))))))))))))))).
Definition v1_open (x : RouterContact) : list Z := [108; 105; 49; 101] ++ dec (Z.of_nat (length (signature x))) ++ [ch_colon].
Definition RouterContact_BEncode (x : RouterContact) (b : llarp_buffer_t) : bool * llarp_buffer_t :=
  if version x =? 0 then BEncodeSignedSection x b
  else if version x =? 1 then
    and_then (writef b (v1_open x)) (fun b =>
    and_then (write b (signature x)) (fun b =>
    and_then (write b (signed_bt_dict x)) (fun b => writef b [101])))
  else (false, b).

(** *** Decoding *)

Definition skip_value (x : RouterContact) (b : llarp_buffer_t) : outcome (bool * llarp_buffer_t * RouterContact) :=
  let! (ok, b) := bencode_discard (S (sz b)) b in Done (ok, b, x).
Definition RouterContact_DecodeKey (x : RouterContact) (key b : llarp_buffer_t) : outcome (bool * llarp_buffer_t * RouterContact) :=
  let! (ok, l, read, b) := BEncodeMaybeReadDictList (S (S (sz b))) [97] (addrs x) false key b in
  let x := set_addrs l x in
  if negb ok then Done (false, b, x) else
  let! (ok, n, read, b) := if startswith key [105] then let! (ok, n, b) := NetID_BDecode b in Done (ok, n, ok || read, b) else Done (true, netID x, read, b) in
  let x := set_netID n x in
  if negb ok then Done (false, b, x) else
  let! (ok, k, read, b) := @BEncodeMaybeReadDictEntry _ (aligned 32) [107] (pubkey x) read key b in
  let x := set_pubkey k x in
  if negb ok then Done (false, b, x) else
  if startswith key [114] then
    let! (r, b) := BDecode b in
    match r with None => Done (false, b, x) | Some v => Done (true, b, set_routerVersion (Some v) x) end
  else if startswith key [110] then
    let! (strbuf, b) := bencode_read_string b in
    match strbuf with
    | None => Done (false, b, x)
    | Some s => if bool_decide (32 < sz s)%nat then Done (false, b, x) else Done (true, b, set_nickname (pad NICKLEN (base s)) x)
    end
  else
    let! (ok, l, read, b) := BEncodeMaybeReadDictList (S (S (sz b))) [115] (srvRecords x) read key b in
    let x := set_srvRecords l x in
    if negb ok then Done (false, b, x) else
    let! (ok, k, read, b) := @BEncodeMaybeReadDictEntry _ (aligned 32) [112] (enckey x) read key b in
    let x := set_enckey k x in
    if negb ok then Done (false, b, x) else
    let! (ok, v, read, b) := BEncodeMaybeReadDictInt 64 [117] (last_updated x) read key b in
    let x := if startswith key [117] then set_last_updated (s64 v) x else x in
    if negb ok then Done (false, b, x) else
    let! (ok, v, read, b) := BEncodeMaybeReadDictInt 64 [118] (version x) read key b in
    let x := set_version v x in
    if negb ok then Done (false, b, x) else
    if startswith key [120] && serializeExit then skip_value x b
    else
      let! (ok, s, read, b) := @BEncodeMaybeReadDictEntry _ (aligned 64) [122] (signature x) read key b in
      let x := set_signature s x in
      if negb ok then Done (false, b, x) else
      if read then Done (true, b, x) else skip_value x b.
Definition DecodeVersion_0 (x : RouterContact) (b : llarp_buffer_t) : outcome (bool * llarp_buffer_t * RouterContact) :=
  bencode_decode_dict (S (S (sz b))) RouterContact_DecodeKey x b.
(** The result, the contact, and what the consumer has left; [None] when it threw,
    with the contact as it was then. *)
Definition DecodeVersion_1 (x : RouterContact) (btlist : list Z) : outcome (option (bool * list Z) * RouterContact) :=
  match consume_string_view btlist with
  | None => Done (None, x)
  | Some (signature_string, btlist) =>
      match consume_dict_data btlist with
      | None => Done (None, x)
      | Some (dict, btlist) =>
          let x := set_signed_bt_dict dict x in
          if negb (is_finished btlist) then Done (Some (false, btlist), x)
          else if negb (bool_decide (length signature_string = 64%nat)) then Done (Some (false, btlist), x)
          else
            let x := set_signature signature_string x in
            let! (ok, _, x) := bencode_decode_dict (S (S (length dict))) RouterContact_DecodeKey x (Buf dict 0) in
            Done (Some (ok, btlist), x)
      end
  end.
Definition RouterContact_BDecode (x : RouterContact) (b : llarp_buffer_t) : outcome (bool * llarp_buffer_t * RouterContact) :=
  let x := Clear x in
  let! c := deref b in
  if c =? ch_d then DecodeVersion_0 x b
  else if negb (c =? ch_l) then Done (false, b, x)
  else
    let buf_view := rem b in
    match list_consumer buf_view with
    | None => Done (false, b, x)
    | Some btlist =>
        match consume_integer btlist with
        | None => Done (false, b, x)
        | Some (outer_version, btlist) =>
            if outer_version =? 1 then
              let! (r, x) := DecodeVersion_1 x btlist in
              match r with
              | None => Done (false, b, x)
              | Some (decode_result, btlist_data) => Done (decode_result, advance (length buf_view - length btlist_data + 1) b, x)
              end
            else Done (false, b, x)
        end
    end.

(** *** Signature *)

Definition encoded (r : bool * llarp_buffer_t) : option (list Z) := if r.1 then Some (take (cur r.2) (base r.2)) else None.
Definition tmp_buffer : llarp_buffer_t := Buf (replicate MAX_RC_SIZE 0) 0.
Definition Sign (secretkey : list Z) (now : Z) (x : RouterContact) : bool * RouterContact :=
  let x := set_last_updated now (set_signature (replicate 64 0) (set_pubkey (toPublic secretkey) x)) in
  match encoded (BEncodeSignedSection x tmp_buffer) with
  | None => (false, x)
  | Some text =>
      let x := set_signed_bt_dict text x in
      if (version x =? 0) || (version x =? 1) then
        match sign secretkey text with Some s => (true, set_signature s x) | None => (false, x) end
      else (false, x)
  end.
Definition VerifySignature (x : RouterContact) : bool :=
  if version x =? 0 then
    match encoded (RouterContact_BEncode (set_signature (replicate 64 0) x) tmp_buffer) with
    | None => false
    | Some text => verify (pubkey x) text (signature x)
    end
  else if version x =? 1 then verify (pubkey x) (signed_bt_dict x) (signature x)
  else false.
Fixpoint any_bogon (l : list AddressInfo) : outcome bool :=
  match l with
  | [] => Done false
  | a :: l => let! bogon := IsBogonIP (In6ToHUInt (ip a)) in if bogon && BlockBogons then Done true else any_bogon l
  end.
Definition Verify (now : Z) (allowExpired : bool) (x : RouterContact) : outcome bool :=
  if negb (FromOurNetwork x) then Done false
  else if IsExpired now x && negb allowExpired then Done false
  else let! bogon := any_bogon (addrs x) in Done (if bogon then false else VerifySignature x).
End Contact.
