(* ===== verification/ContactProofs.v ===== *)
(** * Contacts are read back and accepted

    The texts of [Contact], that the encoders write them and the decoders read them,
    and that a contact a router signs is accepted by every router of its network. *)

From S2P Require Import Prelude Buffer Bencode Codec Uint128 IPRange Crypto Contact.
Open Scope Z_scope.

Lemma c_str_id s : 0 ∉ s -> c_str s = s.
Proof.
  induction s as [|c s IH]; intros Hs; [done|]. apply not_elem_of_cons in Hs as [Hc Hs]. cbn [c_str].
  rewrite (proj2 (Z.eqb_neq c 0)) by done. by rewrite IH.
Qed.
Lemma length_c_str s : (length (c_str s) <= length s)%nat.
Proof. induction s as [|c s IH]; [done|]. cbn [c_str]. destruct (c =? 0); cbn [length]; lia. Qed.

(** ** Addresses *)

Section Texts.
Context {IN : Inet} {IS : InetSpec} {OX : Oxenc} {OS : OxencSpec}.

Record addr_ok (a : AddressInfo) : Prop := {
  ok_rank : 0 < rank a < 2 ^ 16;
  ok_dialect : (length (dialect a) < 128)%nat /\ 0 ∉ dialect a;
  ok_key : length (ai_pubkey a) = 32%nat;
  ok_ip : length (ip a) = 16%nat /\ bytes_ok (ip a);
  ok_port : 0 < port a < 2 ^ 16 }.
Definition addr_pairs (a : AddressInfo) : list (list Z * list Z) :=
  [([99], enc_int (rank a)); ([100], enc_str (dialect a)); ([101], enc_str (ai_pubkey a)); ([105], enc_str (inet_ntop (ip a)));
   ([112], enc_int (port a)); ([118], enc_int proto_version)].
Definition addr_sink : dict_sink AddressInfo := fun s b key => match key with None => Done (true, b, s) | Some key => AddressInfo_DecodeKey s key b end.

Lemma small_int v : 0 < v < 2 ^ 16 -> in_width 64 v /\ (65536 <? v) || (v <=? 0) = false /\ u16 v = v.
Proof.
  intros Hv. split; [unfold in_width; lia|]. split; [apply orb_false_iff; split; lia|]. unfold wrap. by rewrite Z.mod_small by lia.
Qed.
Lemma addr_reads a old : addr_ok a -> reads_all addr_sink (addr_pairs a) old a.
Proof.
  intros [Hr [Hd Hd0] Hk [Hi Hib] Hp]. destruct (small_int _ Hr) as (Wr&Tr&Ur). destruct (small_int _ Hp) as (Wp&Tp&Up). destruct (inet_text (ip a) Hi Hib) as [Hn Hn0].
  cbn [addr_pairs reads_all]. unfold reads_one, addr_sink, AddressInfo_DecodeKey.
  exists (set_rank (rank a) old). next_key. { one_key. by rewrite (bencode_read_integer_spec _ _ _ E Wr); cbn [obind]; rewrite Tr, Ur. }
  set (s1 := set_rank _ old). exists (set_dialect (dialect a) s1). next_key.
  { one_key. rewrite (bencode_read_string_spec _ _ _ E) by lia. cbn [obind]. rewrite bool_decide_false by (unfold sz; cbn [base]; lia).
    rewrite bool_decide_false by (unfold sz; cbn [base]; lia). cbn [base]. by rewrite c_str_id. }
  set (s2 := set_dialect _ s1). exists (set_ai_pubkey (ai_pubkey a) s2). next_key.
  { one_key. rewrite (@item_decode _ _ (aligned_spec 32 eq_refl) (ai_pubkey a) _ rest Hk E). done. }
  set (s3 := set_ai_pubkey _ s2). exists (set_ip (ip a) s3). next_key.
  { one_key. rewrite (bencode_read_string_spec _ _ _ E) by lia. cbn [obind]. rewrite bool_decide_false by (unfold sz; cbn [base]; lia). cbn [base].
    by rewrite c_str_id, inet_roundtrip. }
  set (s4 := set_ip _ s3). exists (set_port (port a) s4). next_key. { one_key. by rewrite (bencode_read_integer_spec _ _ _ E Wp); cbn [obind]; rewrite Tp, Up. }
  set (s5 := set_port _ s4). exists s5. next_key. { one_key. by rewrite (bencode_read_integer_spec _ _ _ E). }
  by destruct a, old.
Qed.

Lemma addr_writes a : addr_ok a -> writes (AddressInfo_BEncode a) (dict_text (addr_pairs a)).
Proof.
  intros [Hr [Hd Hd0] Hk [Hi Hib] Hp]. destruct (small_int _ Hr) as (Wr&_). destruct (small_int _ Hp) as (Wp&_). destruct (inet_text (ip a) Hi Hib) as [Hn _].
  unfold AddressInfo_BEncode, dict_text, addr_pairs. cbn [flat_map]. unfold pair_text. cbn [fst snd]. rewrite <- !app_assoc. cbn [app]. apply writes_dict.
  apply writes_then; [by apply (writes_bytestring [99])|]. apply writes_then; [by apply writes_uint64|].
  apply writes_then; [by apply (writes_bytestring [100])|]. apply writes_then; [apply writes_bytestring; lia|].
  apply writes_then; [by apply (writes_bytestring [101])|]. apply writes_then; [apply writes_bytestring; lia|].
  apply writes_then; [by apply (writes_bytestring [105])|]. apply writes_then; [apply writes_bytestring; lia|].
  apply writes_then; [by apply (writes_bytestring [112])|]. apply writes_then; [by apply writes_uint64|].
  rewrite (app_assoc (enc_str [118])). apply writes_then; [|apply writes_byte]. unfold bencode_write_uint64_entry.
  apply writes_then; [by apply (writes_bytestring [118])|by apply writes_uint64].
Qed.
#[export] Instance AddressInfo_spec : BItemSpec AddressInfo.
Proof.
  refine {| item_ok := addr_ok; item_enc a := dict_text (addr_pairs a) |}.
  - intros a. exists ch_d. eexists. split; [reflexivity|done].
  - intros a b rest Ha E. cbn [BDecode AddressInfo_item]. unfold bencode_decode_dict. fold addr_sink.
    rewrite (read_dict_chain addr_sink (addr_pairs a) _ _ a b rest (addr_reads a _ Ha) (dict_fuel _ _ _ E) (dict_text_cons _ _ _ E)).
    by rewrite dict_text_length.
  - intros a b Ha Hw Hs. by apply addr_writes.
Defined.

(** ** Versions *)

Definition version_ok (v : RouterVersion) : Prop :=
  length (m_Version v) = 3%nat /\ Forall (in_width 16) (m_Version v) /\ - 2 ^ 63 <= m_ProtoVersion v < 2 ^ 63.
Definition version_numbers (v : RouterVersion) : list Z := if RouterVersion_IsEmpty v then [] else u64 (m_ProtoVersion v) :: m_Version v.
Definition numbers_text (l : list Z) : list Z := ch_l :: flat_map enc_int l ++ [ch_e].

Lemma s64_u64 z : - 2 ^ 63 <= z < 2 ^ 63 -> s64 (u64 z) = z.
Proof. intros Hz. unfold s64, wrap. rewrite Zplus_mod_idemp_l, Z.mod_small by lia. lia. Qed.
(** What reading a number does *)
Definition version_step (s : RouterVersion * nat) (i : Z) : option (RouterVersion * nat) :=
  let '(v, idx) := s in
  if bool_decide (idx = 0%nat) then Some (mkVersion (m_Version v) (s64 i), S idx)
  else if bool_decide (3 < idx)%nat then None
  else Some (mkVersion (<[(idx - 1)%nat := u16 i]> (m_Version v)) (m_ProtoVersion v), S idx).
Lemma version_item i s s' : in_width 64 i -> version_step s i = Some s' -> reads_item version_sink (enc_int i) s s'.
Proof.
  intros Hi Hs. split; [eexists _, _; split; [reflexivity|done]|]. intros b rest E. destruct s as [v idx]. unfold version_sink. cbn [negb].
  rewrite (bencode_read_integer_spec _ _ _ E Hi). cbn [obind]. unfold version_step in Hs. repeat case_match; by simplify_eq.
Qed.
Lemma version_reads v : version_ok v -> reads_items version_sink (map enc_int (version_numbers v)) (emptyRouterVersion, 0%nat) (v, length (version_numbers v)).
Proof.
  intros (Hl&Hw&Hp). unfold version_numbers, RouterVersion_IsEmpty. case_bool_decide as He; [by rewrite He|].
  destruct v as [l p]. cbn [m_Version m_ProtoVersion] in *. destruct l as [|a [|b [|c [|]]]]; try discriminate Hl.
  apply Forall_cons in Hw as [Ha Hw]. apply Forall_cons in Hw as [Hb Hw]. apply Forall_cons in Hw as [Hc _].
  assert (forall x, in_width 16 x -> in_width 64 x /\ u16 x = x) as H16.
  { intros x Hx. unfold in_width, wrap in *. split; [lia|]. by rewrite Z.mod_small. }
  cbn [map reads_items length].
  exists (mkVersion [0; 0; 0] p, 1%nat). split. { apply version_item; [unfold in_width, wrap; apply Z.mod_pos_bound; lia|]. cbn. by rewrite s64_u64. }
  exists (mkVersion [a; 0; 0] p, 2%nat). split. { apply version_item; [by apply H16|]. cbn. by rewrite (proj2 (H16 a Ha)). }
  exists (mkVersion [a; b; 0] p, 3%nat). split. { apply version_item; [by apply H16|]. cbn. by rewrite (proj2 (H16 b Hb)). }
  exists (mkVersion [a; b; c] p, 4%nat). split; [|done]. apply version_item; [by apply H16|]. cbn. by rewrite (proj2 (H16 c Hc)).
Qed.
Lemma numbers_width v : version_ok v -> Forall (in_width 64) (version_numbers v).
Proof.
  intros (Hl&Hw&Hp). unfold version_numbers. case_match; [constructor|]. constructor; [unfold in_width, wrap; apply Z.mod_pos_bound; lia|].
  eapply Forall_impl; [exact Hw|]. unfold in_width. intros x Hx. lia.
Qed.
Lemma writes_numbers l : forall w t, writes w t -> Forall (in_width 64) l ->
  writes (fun b => fold_left (fun r i => and_then r (fun b => bencode_write_uint64 b i)) l (w b)) (t ++ flat_map enc_int l).
Proof.
  induction l as [|i l IH]; intros w t Hw Hl; cbn [fold_left flat_map]; [by rewrite app_nil_r|]. apply Forall_cons in Hl as [Hi Hl].
  rewrite app_assoc. apply (IH (fun b => and_then (w b) (fun b => bencode_write_uint64 b i))); [|done]. apply writes_then; [done|by apply writes_uint64].
Qed.
Lemma version_writes v : version_ok v -> writes (RouterVersion_BEncode v) (numbers_text (version_numbers v)).
Proof.
  intros Hv. pose proof (numbers_width v Hv) as Hn. unfold RouterVersion_BEncode, numbers_text. change (ch_l :: ?t) with ([ch_l] ++ t).
  apply writes_then; [apply writes_byte|]. apply writes_then; [|apply writes_byte]. unfold write_version, version_numbers in *.
  destruct (RouterVersion_IsEmpty v); [apply writes_nil|]. apply Forall_cons in Hn as [H1 Hn]. cbn [flat_map]. apply writes_numbers; [by apply writes_uint64|done].
Qed.
Lemma list_fuel {X} (f : X -> list Z) l rest b : (forall x, f x <> []) -> rem b = ch_l :: flat_map f l ++ [ch_e] ++ rest -> (length l < S (S (sz b)))%nat.
Proof.
  intros Hf E. pose proof (length_rem b) as Hb. rewrite E in Hb. cbn [length] in Hb. rewrite length_app in Hb.
  assert (length l <= length (flat_map f l))%nat; [|lia]. clear E Hb. induction l as [|x l IH]; [done|]. cbn [flat_map length]. rewrite length_app.
  specialize (Hf x). destruct (f x); [done|]. cbn [length]. lia.
Qed.
#[export] Instance RouterVersion_spec : BItemSpec RouterVersion.
Proof.
  refine {| item_ok := version_ok; item_enc v := numbers_text (version_numbers v) |}.
  - intros v. exists ch_l. eexists. split; [reflexivity|done].
  - intros v b rest Hv E. cbn [BDecode RouterVersion_item]. unfold numbers_text in E. cbn [app] in E. rewrite <- app_assoc in E.
    rewrite (read_list_chain version_sink (map enc_int (version_numbers v)) _ _ _ b rest (version_reads v Hv)).
    + cbn [obind version_sink negb]. rewrite <- flat_map_concat_map.
      assert (bool_decide (length (version_numbers v) = 4%nat) || bool_decide (length (version_numbers v) = 0%nat) = true) as ->.
      { destruct Hv as [Hl _]. unfold version_numbers. case_match; [done|]. cbn [length]. by rewrite Hl. }
      unfold numbers_text. cbn [andb length]. rewrite length_app. cbn [length]. do 3 f_equal. lia.
    + rewrite length_map. by apply (list_fuel enc_int _ rest).
    + by rewrite <- flat_map_concat_map.
  - intros v b Hv Hw Hs. by apply version_writes.
Defined.

(** ** SRV records *)

Definition srv_value (d : SRVData) : bvalue := tuple_value (toTuple d).
Definition srv_ok (d : SRVData) : Prop :=
  value_ok (srv_value d) = true /\ in_width 16 (priority d) /\ in_width 16 (weight d) /\ in_width 16 (srv_port d) /\ SRV_IsValid d = true.
#[export] Instance SRV_spec : BItemSpec SRVData.
Proof.
  refine {| item_ok := srv_ok; item_enc d := enc_value (srv_value d) |}.
  - intros d. destruct d. exists ch_l. eexists. split; [reflexivity|done].
  - intros d b rest (Hv&Hp&Hw&Hq&Hd) E. cbn [BDecode SRV_item]. pose proof (length_rem b) as Hb. rewrite E, length_app in Hb.
    rewrite (discard_value (S (sz b)) (srv_value d) Hv ltac:(lia) b rest E). cbn [obind negb].
    rewrite base_advance. assert (take (cur (advance (length (enc_value (srv_value d))) b) - cur b) (drop (cur b) (base b)) = enc_value (srv_value d)) as ->.
    { unfold advance, set_cur. cbn [cur]. replace (cur b + _ - cur b)%nat with (length (enc_value (srv_value d))) by lia.
      change (drop (cur b) (base b)) with (rem b). rewrite E. apply take_app_length. }
    unfold srv_value in *. rewrite <- bt_serialize_text by done. unfold toTuple. rewrite bt_roundtrip by done. destruct d. cbn in *. by rewrite Hd.
  - intros d b (Hv&_) Hw Hs. cbn [BEncode SRV_item]. unfold srv_value in *. rewrite bt_serialize_text by done. apply write_appends; [done|lia].
Defined.

(** ** The entries of a contact *)

Definition contact_sink : dict_sink RouterContact := fun s b key => match key with None => Done (true, b, s) | Some key => RouterContact_DecodeKey s key b end.
Ltac key_of_contact := split; [done|]; intros b rest E; cbn [contact_sink]; unfold RouterContact_DecodeKey.

Lemma item_list_fuel {T} `{BItemSpec T} (l : list T) rest b : rem b = enc_list l ++ rest -> (length l < S (S (sz b)))%nat.
Proof.
  intros E. unfold enc_list in E. cbn [app] in E. rewrite <- app_assoc in E. apply (list_fuel item_enc l rest b); [|done].
  intros x. destruct (item_enc_head x) as (c&t&->&_). done.
Qed.
Lemma read_addrs x l : Forall addr_ok l -> addrs x = [] -> reads_one contact_sink [97] (enc_list l) x (set_addrs l x).
Proof.
  intros Hl Hx. key_of_contact. rewrite (hit_list _ 97 l _ _ _ rest) by (done || by eapply item_list_fuel). one_key. pass. one_key. cbn [andb].
  rewrite Hx. by destruct x.
Qed.
Lemma read_netid x n : (length n <= 8)%nat -> reads_one contact_sink [105] (enc_str n) x (set_netID (pad 8 n) x).
Proof.
  intros Hn. key_of_contact. one_key. pass. unfold NetID_BDecode. rewrite (bencode_read_string_spec _ _ _ E) by lia. cbn [obind].
  rewrite bool_decide_false by (unfold sz; cbn [base]; lia). one_key. pass. cbn [base orb andb]. by destruct x.
Qed.
Lemma read_pubkey x k : length k = 32%nat -> reads_one contact_sink [107] (enc_str k) x (set_pubkey k x).
Proof. intros Hk. key_of_contact. one_key. pass. rewrite (hit_entry 32 107 k _ _ _ rest) by done. pass. one_key. cbn [andb]. by destruct x. Qed.
Lemma read_nick x n : (length n <= 32)%nat -> reads_one contact_sink [110] (enc_str n) x (set_nickname (pad NICKLEN n) x).
Proof.
  intros Hn. key_of_contact. one_key. pass. rewrite (bencode_read_string_spec _ _ _ E) by lia. cbn [obind].
  rewrite bool_decide_false by (unfold sz; cbn [base]; lia). by destruct x.
Qed.
Lemma read_enckey x k : length k = 32%nat -> reads_one contact_sink [112] (enc_str k) x (set_enckey k x).
Proof. intros Hk. key_of_contact. one_key. pass. rewrite (hit_entry 32 112 k _ _ _ rest) by done. pass. one_key. cbn [andb]. by destruct x. Qed.
Lemma read_router_version x v : version_ok v -> reads_one contact_sink [114] (item_enc v) x (set_routerVersion (Some v) x).
Proof. intros Hv. key_of_contact. one_key. pass. rewrite (@item_decode _ _ RouterVersion_spec v _ rest Hv E). by destruct x. Qed.
Lemma read_srv x l : Forall srv_ok l -> srvRecords x = [] -> reads_one contact_sink [115] (enc_list l) x (set_srvRecords l x).
Proof.
  intros Hl Hx. key_of_contact. one_key. pass. rewrite (hit_list _ 115 l _ _ _ rest) by (done || by eapply item_list_fuel). pass. one_key. cbn [andb srvRecords set_pubkey set_netID set_addrs].
  rewrite Hx. by destruct x.
Qed.
Lemma read_updated x t : 0 <= t < 2 ^ 63 -> reads_one contact_sink [117] (enc_int t) x (set_last_updated t x).
Proof.
  intros Ht. key_of_contact. one_key. pass. rewrite (hit_int 117 t _ _ _ rest) by (done || unfold in_width; lia). pass. one_key. cbn [andb].
  assert (s64 t = t) as -> by (unfold s64; rewrite Z.mod_small by lia; lia). by destruct x.
Qed.
Lemma read_proto x v : in_width 64 v -> reads_one contact_sink [118] (enc_int v) x (set_version v x).
Proof. intros Hv. key_of_contact. one_key. pass. rewrite (hit_int 118 v _ _ _ rest) by done. pass. one_key. cbn [andb]. by destruct x. Qed.
Lemma read_exits x : reads_one contact_sink [120] (enc_value (BList [])) x x.
Proof.
  key_of_contact. one_key. pass. cbn [andb serializeExit]. unfold skip_value. pose proof (length_rem b) as Hb. rewrite E in Hb. cbn in Hb.
  rewrite (discard_value (S (sz b)) (BList []) eq_refl ltac:(cbn; lia) b rest E). cbn [obind]. by destruct x.
Qed.
Lemma read_signature x s : length s = 64%nat -> reads_one contact_sink [122] (enc_str s) x (set_signature s x).
Proof. intros Hs. key_of_contact. one_key. pass. one_key. cbn [andb]. rewrite (hit_entry 64 122 s _ _ _ rest) by done. pass. by destruct x. Qed.

Record contact_ok (x : RouterContact) : Prop := {
  ok_addrs : Forall addr_ok (addrs x);
  ok_netid : netID x = pad 8 (c_str (netID x)) /\ (length (c_str (netID x)) <= 8)%nat;
  ok_keys : length (enckey x) = 32%nat /\ length (pubkey x) = 32%nat /\ length (signature x) = 64%nat;
  ok_nick : nickname x = pad NICKLEN (Nick x) /\ (length (Nick x) <= 32)%nat;
  ok_updated : 0 <= last_updated x < 2 ^ 63;
  ok_version : version x = 0 /\ srvRecords x = [] \/ version x = 1;
  ok_router : match routerVersion x with Some v => version_ok v | None => True end;
  ok_srv : Forall srv_ok (srvRecords x) }.
Definition when {A} (b : bool) (x : A) : list A := if b then [x] else [].
Definition contact_pairs (x : RouterContact) : list (list Z * list Z) :=
  [([97], enc_list (addrs x)); ([105], enc_str (c_str (netID x))); ([107], enc_str (pubkey x))]
  ++ when (negb (bool_decide (Nick x = []))) ([110], enc_str (Nick x))
  ++ [([112], enc_str (enckey x))]
  ++ match routerVersion x with Some v => [([114], item_enc v)] | None => [] end
  ++ when (0 <? version x) ([115], enc_list (srvRecords x))
  ++ [([117], enc_int (last_updated x)); ([118], enc_int (version x)); ([120], enc_value (BList []))]
  ++ when (version x =? 0) ([122], enc_str (signature x)).
(** The part that is signed; in the older format, all of it *)
Definition section_text (x : RouterContact) : list Z := dict_text (contact_pairs x).

Lemma pad_nil n : pad n [] = replicate n 0.
Proof. unfold pad. rewrite take_nil. cbn [length app]. by rewrite Nat.sub_0_r. Qed.
Lemma reads_cons k t l s s1 s' : reads_one contact_sink k t s s1 -> reads_all contact_sink l s1 s' -> reads_all contact_sink ((k, t) :: l) s s'.
Proof. intros H1 H2. cbn [reads_all]. eauto. Qed.
Lemma reads_when (b : bool) k t l s s1 s' : (if b then reads_one contact_sink k t s s1 else s1 = s) -> reads_all contact_sink l s1 s' ->
  reads_all contact_sink (when b (k, t) ++ l) s s'.
Proof. intros H1 H2. destruct b; cbn [when app]; [by eapply reads_cons|by subst]. Qed.

(** An entry that may be left out, read by [f] *)
Ltac optional f := match goal with |- reads_all _ (_ ++ _) ?s _ => first [eapply (reads_when _ _ _ _ s (f s)) | eapply (reads_all_app _ _ _ s (f s))] end.
(** An object that [Clear] has been called on, except for the fields given *)
Definition cleared (n dict sig : list Z) : RouterContact :=
  mkContact [] n (replicate 32 0) (replicate 32 0) sig (replicate NICKLEN 0) 0 proto_version None dict [].
(** Keeps the object that is read a record of its fields. *)
Ltac flat := match goal with |- reads_all _ _ ?s _ =>
  let s1 := eval cbv beta delta [cleared set_addrs set_netID set_enckey set_pubkey set_signature set_nickname set_last_updated set_version set_routerVersion
    set_signed_bt_dict set_srvRecords] in s in
  let s2 := eval cbn [addrs netID enckey pubkey signature nickname last_updated version routerVersion signed_bt_dict srvRecords] in s1 in change s with s2 end.
Lemma contact_reads x n dict sig : contact_ok x -> (version x = 1 -> sig = signature x) ->
  reads_all contact_sink (contact_pairs x) (cleared n dict sig) (set_signed_bt_dict dict x).
Proof.
  intros [Ha [Hn Hn8] (He&Hk&Hs) [Hi Hil] Hu Hv Hr Hsr] Hsig. unfold contact_pairs. cbn [app]. flat.
  eapply reads_cons; [by apply read_addrs|]. flat. eapply reads_cons; [by apply read_netid|]. flat. eapply reads_cons; [by apply read_pubkey|]. flat.
  optional (set_nickname (nickname x)).
  { case_bool_decide as Hnick; cbn [negb]; [|rewrite Hi; by apply read_nick]. rewrite Hi, Hnick, pad_nil. reflexivity. }
  flat. cbn [app]. eapply reads_cons; [by apply read_enckey|]. flat.
  optional (set_routerVersion (routerVersion x)).
  { destruct (routerVersion x) as [v|]; [|cbn [reads_all]; reflexivity]. eapply reads_cons; [by apply read_router_version|]. reflexivity. }
  flat. optional (set_srvRecords (srvRecords x)).
  { destruct Hv as [[Hv Hsv]|Hv]; rewrite Hv; cbn [Z.ltb Z.compare]; [rewrite Hsv; reflexivity|]. by apply read_srv. }
  flat. cbn [app]. eapply reads_cons; [by apply read_updated|]. flat. eapply reads_cons; [apply read_proto; unfold in_width; lia|]. flat. eapply reads_cons; [apply read_exits|].
  rewrite <- (app_nil_r (when _ _)). optional (set_signature (signature x)).
  { destruct Hv as [[Hv Hsv]|Hv]; rewrite Hv; cbn [Z.eqb]; [by apply read_signature|]. rewrite <- Hsig by done. reflexivity. }
  flat. cbn [reads_all]. rewrite <- Hn. by destruct x.
Qed.

(** The signed part is a bencoded dictionary. *)
Definition addr_value (a : AddressInfo) : bvalue :=
  BDict [([99], BInt (rank a)); ([100], BStr (dialect a)); ([101], BStr (ai_pubkey a)); ([105], BStr (inet_ntop (ip a)));
         ([112], BInt (port a)); ([118], BInt proto_version)].
Definition contact_entries (x : RouterContact) : list (list Z * bvalue) :=
  [([97], BList (map addr_value (addrs x))); ([105], BStr (c_str (netID x))); ([107], BStr (pubkey x))]
  ++ when (negb (bool_decide (Nick x = []))) ([110], BStr (Nick x))
  ++ [([112], BStr (enckey x))]
  ++ match routerVersion x with Some v => [([114], BList (map BInt (version_numbers v)))] | None => [] end
  ++ when (0 <? version x) ([115], BList (map srv_value (srvRecords x)))
  ++ [([117], BInt (last_updated x)); ([118], BInt (version x)); ([120], BList [])]
  ++ when (version x =? 0) ([122], BStr (signature x)).
Definition text_of (kv : list Z * bvalue) : list Z * list Z := (kv.1, enc_value kv.2).
Lemma dict_value_text l : enc_value (BDict l) = dict_text (map text_of l).
Proof. cbn [enc_value]. unfold dict_text. do 2 f_equal. induction l as [|x l IH]; [done|]. cbn [flat_map map]. by rewrite IH. Qed.
Lemma list_value_text {T} `{BItemSpec T} (f : T -> bvalue) (l : list T) : (forall x, enc_value (f x) = item_enc x) -> enc_value (BList (map f l)) = enc_list l.
Proof. intros Hf. cbn [enc_value]. unfold enc_list. do 2 f_equal. induction l as [|x l IH]; [done|]. cbn [map flat_map]. by rewrite IH, Hf. Qed.
Lemma section_value x : enc_value (BDict (contact_entries x)) = section_text x.
Proof.
  rewrite dict_value_text. unfold section_text. f_equal. unfold contact_entries, contact_pairs. rewrite !map_app. cbn [map]. unfold text_of. cbn [fst snd].
  rewrite (list_value_text (H := AddressInfo_item) (H0 := AddressInfo_spec) addr_value) by done. f_equal. f_equal; [by destruct (negb _)|]. f_equal. f_equal.
  { destruct (routerVersion x) as [v|]; [|done]. cbn [map]. unfold text_of. cbn [fst snd enc_value]. do 3 f_equal. cbn [item_enc RouterVersion_spec].
    unfold numbers_text. do 2 f_equal. by rewrite flat_map_concat_map, map_map, <- flat_map_concat_map. }
  f_equal; [|by destruct (version x =? 0)]. destruct (0 <? version x); [|done]. cbn [when map]. unfold text_of. cbn [fst snd]. do 2 f_equal.
  by apply (list_value_text (H := SRV_item) (H0 := SRV_spec) srv_value).
Qed.
Lemma values_ok {T} (f : T -> bvalue) P (l : list T) : (forall x, P x -> value_ok (f x) = true) -> Forall P l -> value_ok (BList (map f l)) = true.
Proof. intros Hf Hl. cbn [value_ok]. induction Hl as [|x l Hx Hl IH]; [done|]. cbn [map forallb]. by rewrite Hf, IH. Qed.
Lemma addr_value_ok a : addr_ok a -> value_ok (addr_value a) = true.
Proof.
  intros [Hr [Hd _] Hk [Hi Hib] Hp]. destruct (inet_text (ip a) Hi Hib) as [Hn _]. cbn [value_ok addr_value forallb fst snd length andb].
  rewrite !bool_decide_true by (unfold in_width; lia). rewrite !(proj2 (Z.ltb_lt _ _)) by lia. done.
Qed.
Lemma section_value_ok x : contact_ok x -> value_ok (BDict (contact_entries x)) = true.
Proof.
  intros [Ha [Hn Hn8] (He&Hk&Hs) [Hi Hil] Hu Hv Hr Hsr]. cbn [value_ok]. unfold contact_entries. rewrite !forallb_app. cbn [forallb fst snd length].
  rewrite (values_ok addr_value addr_ok) by (done || apply addr_value_ok).
  assert (forall s : list Z, Z.of_nat (length s) < 10 ^ 9 -> value_ok (BStr s) = true) as Hstr by (intros s Hs'; cbn [value_ok]; lia).
  assert (forall i, in_width 64 i -> value_ok (BInt i) = true) as Hint by (intros i Hi'; cbn [value_ok]; by rewrite bool_decide_true).
  rewrite !Hstr by (rewrite ?Hk, ?He; lia). rewrite !Hint by (unfold in_width; lia). cbn [value_ok andb Z.ltb Z.compare Z.of_nat Pos.of_succ_nat].
  assert (forall b k v, value_ok v = true -> (Z.of_nat (length k) <? 10 ^ 9) = true ->
    forallb (fun kv : list Z * bvalue => (Z.of_nat (length kv.1) <? 10 ^ 9) && value_ok kv.2) (when b (k, v)) = true) as Hwhen.
  { intros b k v Hval Hlen. destruct b; [|done]. cbn [when forallb fst snd]. by rewrite Hval, Hlen. }
  rewrite !Hwhen; [|by apply Hstr; lia|done|apply (values_ok srv_value srv_ok); [by intros d [? _]|done]|done|by apply Hstr; lia|done].
  destruct (routerVersion x) as [v|]; [|done]. cbn [forallb fst snd length andb]. rewrite (values_ok BInt (in_width 64)); [done|apply Hint|by apply numbers_width].
Qed.

(** ** Encoding *)

Lemma writes_if (c : bool) w t : writes w t -> writes (fun b => if c then w b else (true, b)) (if c then t else []).
Proof. destruct c; [done|intros _; apply writes_nil]. Qed.
Lemma when_text b k t : flat_map pair_text (when b (k, t)) = if b then enc_str k ++ t else [].
Proof. destruct b; [|done]. cbn. unfold pair_text. cbn. by rewrite app_nil_r. Qed.
Lemma writes_item_list {T} `{BItemSpec T} (l : list T) : Forall item_ok l -> writes (BEncodeWriteList l) (enc_list l).
Proof. intros Hl b Hw Hs. apply BEncodeWriteList_spec; [done|done|lia]. Qed.
Lemma writes_key k w t : length k = 1%nat -> writes w t -> writes (fun b => and_then (bencode_write_bytestring b k) w) (enc_str k ++ t).
Proof. intros Hk Hw. apply writes_then; [apply writes_bytestring; rewrite Hk; lia|done]. Qed.
Lemma section_writes x : contact_ok x -> writes (BEncodeSignedSection x) (section_text x).
Proof.
  intros [Ha [Hn Hn8] (He&Hk&Hs) [Hi Hil] Hu Hv Hr Hsr]. unfold BEncodeSignedSection, section_text, dict_text, contact_pairs.
  rewrite !flat_map_app, !when_text. cbn [flat_map]. unfold pair_text. cbn [fst snd]. rewrite !app_nil_r, <- !app_assoc. cbn [app].
  assert (u64 (last_updated x) = last_updated x) as -> by (unfold wrap; by rewrite Z.mod_small by lia).
  apply writes_dict. apply writes_then; [by apply (writes_bytestring [97])|]. apply writes_then; [by apply writes_item_list|].
  apply writes_then; [by apply (writes_bytestring [105])|]. apply writes_then; [apply writes_bytestring; lia|].
  apply writes_then; [by apply (writes_bytestring [107])|]. apply writes_then; [apply writes_bytestring; lia|].
  apply writes_then.
  { pose proof (writes_if (negb (bool_decide (Nick x = []))) _ _ (writes_key [110] _ _ eq_refl (writes_bytestring (Nick x) ltac:(lia)))) as Hnick.
    by destruct (bool_decide (Nick x = [])). }
  apply writes_then; [by apply (writes_bytestring [112])|]. apply writes_then; [apply writes_bytestring; lia|].
  apply writes_then. { destruct (routerVersion x) as [v|]; [|apply writes_nil]. cbn [flat_map]. rewrite app_nil_r. by apply (writes_entry 114 v). }
  apply writes_then. { apply (writes_if (0 <? version x)). apply writes_key; [done|]. by apply writes_item_list. }
  apply writes_then; [by apply (writes_bytestring [117])|]. apply writes_then; [apply writes_uint64; unfold in_width; lia|].
  rewrite (app_assoc (enc_str [118])). apply writes_then; [apply writes_key; [done|]; apply writes_uint64; unfold in_width; lia|].
  rewrite (app_assoc (enc_str [120])). apply writes_then. { apply writes_key; [done|]. apply (@writes_item_list _ _ (aligned_spec 8 eq_refl) []). constructor. }
  apply writes_then; [|apply writes_byte]. apply (writes_if (version x =? 0)). apply writes_key; [done|]. apply writes_bytestring. lia.
Qed.
(** What a contact is sent as *)
Definition contact_text (x : RouterContact) : list Z :=
  if version x =? 0 then section_text x else ch_l :: enc_int 1 ++ enc_str (signature x) ++ signed_bt_dict x ++ [ch_e].
Lemma contact_writes x : contact_ok x -> writes (RouterContact_BEncode x) (contact_text x).
Proof.
  intros Hx. unfold RouterContact_BEncode, contact_text. destruct (ok_version x Hx) as [[Hv _]|Hv]; rewrite Hv; cbn [Z.eqb]; [by apply section_writes|].
  assert (forall s, s <> [] -> writes (fun b => writef b s) s) as Hf.
  { intros s Hs b Hw Hl. apply writef_appends; [done|]. destruct s; [done|]. cbn in *. lia. }
  assert (forall s, writes (fun b => write b s) s) as Hw by (intros s b Hw Hl; apply write_appends; [done|lia]).
  assert (ch_l :: enc_int 1 ++ enc_str (signature x) ++ signed_bt_dict x ++ [ch_e] = v1_open x ++ signature x ++ signed_bt_dict x ++ [101]) as ->.
  { unfold v1_open, enc_str. change (ch_l :: enc_int 1 ++ ?t) with ([108; 105; 49; 101] ++ t). by rewrite <- !app_assoc. }
  apply writes_then; [by apply Hf|]. apply writes_then; [apply Hw|]. apply writes_then; [apply Hw|by apply Hf].
Qed.

(** ** Decoding *)

Lemma clear_cleared old : Clear old = cleared (netID old) (signed_bt_dict old) (replicate 64 0).
Proof. reflexivity. Qed.
(** In the older format nothing is said of [signed_bt_dict]. *)
Definition as_read (old x : RouterContact) : RouterContact := if version x =? 0 then set_signed_bt_dict (signed_bt_dict old) x else x.
Lemma section_decodes x n dict sig b rest : contact_ok x -> (version x = 1 -> sig = signature x) -> rem b = section_text x ++ rest ->
  bencode_decode_dict (S (S (sz b))) RouterContact_DecodeKey (cleared n dict sig) b
  = Done (true, advance (length (section_text x)) b, set_signed_bt_dict dict x).
Proof.
  intros Hx Hs E. unfold bencode_decode_dict. fold contact_sink. unfold section_text in *.
  rewrite (read_dict_chain contact_sink (contact_pairs x) _ _ _ b rest (contact_reads x n dict sig Hx Hs) (dict_fuel _ _ _ E) (dict_text_cons _ _ _ E)).
  by rewrite dict_text_length.
Qed.
Lemma contact_decodes x old b rest : contact_ok x -> (version x = 1 -> signed_bt_dict x = section_text x) -> rem b = contact_text x ++ rest ->
  RouterContact_BDecode old b = Done (true, advance (length (contact_text x)) b, as_read old x).
Proof.
  intros Hx Hd E. unfold RouterContact_BDecode, as_read. rewrite clear_cleared. unfold contact_text in *.
  destruct (ok_version x Hx) as [[Hv _]|Hv]; rewrite Hv in *; cbn [Z.eqb] in *.
  - pose proof E as E0. unfold section_text, dict_text in E0. cbn [app] in E0. rewrite (deref_rem _ _ _ E0). cbn [obind]. rewrite Z.eqb_refl.
    apply (section_decodes x _ _ _ b rest); [done|congruence|done].
  - specialize (Hd eq_refl). cbn [app] in E. rewrite (deref_rem _ _ _ E). cbn [obind Z.eqb negb]. change (ch_l =? ch_d) with false. cbn match.
    change (ch_l =? ch_l) with true. cbn [negb]. rewrite E, consumer_opens. rewrite <- !app_assoc. rewrite consumes_integer by (unfold in_width; lia).
    cbn [Z.eqb Pos.eqb]. unfold DecodeVersion_1. destruct (ok_keys x Hx) as (_&_&Hs). rewrite consumes_string by lia.
    rewrite Hd, <- section_value, consumes_dict by (by apply section_value_ok). cbn [app]. rewrite finished_at_end. cbn [negb]. rewrite Hs.
    rewrite bool_decide_true by done. cbn [negb]. rewrite section_value.
    change (set_signature (signature x) _) with (cleared (netID old) (section_text x) (signature x)).
    rewrite (section_decodes x _ _ _ (Buf (section_text x) 0) []) by (done || by rewrite app_nil_r). cbn [obind]. do 3 f_equal.
    + f_equal. cbn [length]. rewrite !length_app. cbn [length]. lia.
    + destruct x. cbn in *. by rewrite Hd.
Qed.

(** ** Signing *)

Context `{SodiumSign}.
(** What is signed *)
Definition unsigned (sk : list Z) (now : Z) (x : RouterContact) : RouterContact :=
  set_last_updated now (set_signature (replicate 64 0) (set_pubkey (toPublic sk) x)).
Lemma unsigned_ok sk now x : contact_ok x -> length sk = 64%nat -> 0 <= now < 2 ^ 63 -> contact_ok (unsigned sk now x).
Proof.
  intros [Ha Hn (He&Hk&Hs) Hi Hu Hv Hr Hsr] Hl Hnow. split; try done. cbn. split_and!; [done|unfold toPublic; rewrite length_take, length_drop; lia|done].
Qed.
Lemma section_encoded x : contact_ok x -> (length (section_text x) < MAX_RC_SIZE)%nat -> encoded (BEncodeSignedSection x tmp_buffer) = Some (section_text x).
Proof.
  intros Hx Hl. destruct (section_writes x Hx tmp_buffer) as (b'&E&_&Hc&Ht&_).
  - unfold wf, tmp_buffer, sz. cbn [cur base]. lia.
  - unfold size_left, tmp_buffer, sz. cbn [cur base]. rewrite length_replicate. case_bool_decide; lia.
  - rewrite E. unfold encoded. cbn [fst snd]. by rewrite Ht.
Qed.
Lemma sign_ok sk now x : contact_ok x -> length sk = 64%nat -> 0 <= now < 2 ^ 63 -> (length (section_text (unsigned sk now x)) < MAX_RC_SIZE)%nat ->
  exists s, length s = 64%nat /\ verify (toPublic sk) (section_text (unsigned sk now x)) s = true
  /\ Sign sk now x = (true, set_signature s (set_signed_bt_dict (section_text (unsigned sk now x)) (unsigned sk now x))).
Proof.
  intros Hx Hl Hn Hs. pose proof (unsigned_ok sk now x Hx Hl Hn) as Hu. unfold Sign. fold (unsigned sk now x). rewrite section_encoded by done.
  destruct (sign_total (section_text (unsigned sk now x)) sk Hl) as [s Es]. destruct (sign_verifies _ _ _ Hl Es) as [Hlen Hver].
  exists s. split_and!; [done|done|]. change (version (set_signed_bt_dict _ (unsigned sk now x))) with (version x).
  destruct (ok_version x Hx) as [[-> _]| ->]; cbn [Z.eqb orb Pos.eqb]; unfold sign; by rewrite Es.
Qed.
Lemma verify_ok sk now x s old : contact_ok x -> length sk = 64%nat -> 0 <= now < 2 ^ 63 -> (length (section_text (unsigned sk now x)) < MAX_RC_SIZE)%nat ->
  verify (toPublic sk) (section_text (unsigned sk now x)) s = true ->
  VerifySignature (as_read old (set_signature s (set_signed_bt_dict (section_text (unsigned sk now x)) (unsigned sk now x)))) = true.
Proof.
  intros Hx Hl Hn Hlen Hs. pose proof (unsigned_ok sk now x Hx Hl Hn) as Hu. set (x' := set_signature s _). unfold as_read.
  change (version x') with (version x). unfold VerifySignature. destruct (ok_version x Hx) as [[Hv _]|Hv]; rewrite Hv; cbn [Z.eqb Pos.eqb];
    (change (version (set_signed_bt_dict _ x')) with (version x) || change (version x') with (version x)); rewrite Hv; cbn [Z.eqb Pos.eqb]; [|exact Hs].
  unfold RouterContact_BEncode. set (y := set_signature _ (set_signed_bt_dict _ _)). change (version y) with (version x). rewrite Hv. cbn [Z.eqb].
  assert (section_text y = section_text (unsigned sk now x)) as Ey by reflexivity.
  assert (contact_ok y) as Hy by (destruct Hu; by split). rewrite section_encoded by (done || by rewrite Ey). rewrite Ey. exact Hs.
Qed.
End Texts.


(** *** A concrete instance: addresses in hexadecimal, and the readers of [Bencode] *)

Definition hex_text (a : list Z) : list Z := flat_map (fun b => [b / 16 + 48; b mod 16 + 48]) a.
Fixpoint hex_value (s : list Z) : option (list Z) :=
  match s with
  | [] => Some []
  | h :: l :: s => match hex_value s with Some a => Some ((h - 48) * 16 + (l - 48) :: a) | None => None end
  | _ => None
  end.
#[local] Instance demo_inet : Inet := {| inet_ntop := hex_text; inet_pton := hex_value |}.
#[local] Instance demo_inet_spec : InetSpec.
Proof.
  split; cbn [inet_ntop inet_pton demo_inet].
  - intros a _ _. induction a as [|b a IH]; [done|]. cbn [hex_text flat_map hex_value app]. fold (hex_text a). rewrite IH. do 2 f_equal.
    pose proof (Z.div_mod b 16 ltac:(lia)). lia.
  - intros a Hl Ha. split.
    + assert (length (hex_text a) = 2 * length a)%nat as ->; [|rewrite Hl; lia]. clear. induction a as [|b a IH]; [done|]. cbn [hex_text flat_map app length].
      fold (hex_text a). lia.
    + clear Hl. induction Ha as [|b a Hb Ha IH]; [apply not_elem_of_nil|]. unfold is_byte in Hb. cbn [hex_text flat_map app]. fold (hex_text a).
      pose proof (Z.div_pos b 16 ltac:(lia) ltac:(lia)). pose proof (Z.mod_pos_bound b 16 ltac:(lia)). rewrite !not_elem_of_cons. split_and!; [lia|lia|exact IH].
Qed.
Definition demo_integer (s : list Z) : option (Z * list Z) :=
  match bencode_read_integer (Buf s 0) with Done (Some v, b) => Some (v, rem b) | _ => None end.
Definition demo_string (s : list Z) : option (list Z * list Z) :=
  match bencode_read_string (Buf s 0) with Done (Some v, b) => Some (base v, rem b) | _ => None end.
Definition demo_dict (s : list Z) : option (list Z * list Z) :=
  match bencode_discard (S (length s)) (Buf s 0) with Done (true, b) => Some (take (cur b) s, rem b) | _ => None end.
Definition demo_tuple (s : list Z) : option SRVTuple :=
  '(s1, r) ← demo_string (tail s); '(p, r) ← demo_integer r; '(w, r) ← demo_integer r; '(q, r) ← demo_integer r; '(s2, r) ← demo_string r;
  Some (s1, p, w, q, s2).
#[local] Instance demo_oxenc : Oxenc := {|
  bt_serialize t := enc_value (tuple_value t);
  bt_deserialize := demo_tuple;
  list_consumer s := match s with c :: s => if c =? ch_l then Some s else None | [] => None end;
  consume_integer := demo_integer;
  consume_string_view := demo_string;
  consume_dict_data := demo_dict;
  is_finished s := match s with c :: _ => c =? ch_e | [] => false end |}.
Lemma demo_reads_integer v t : in_width 64 v -> demo_integer (enc_int v ++ t) = Some (v, t).
Proof.
  intros Hv. unfold demo_integer. rewrite (bencode_read_integer_spec (Buf (enc_int v ++ t) 0) v t eq_refl Hv).
  by rewrite (rem_app (Buf (enc_int v ++ t) 0) (enc_int v) t eq_refl).
Qed.
Lemma demo_reads_string s t : Z.of_nat (length s) < 10 ^ 9 -> demo_string (enc_str s ++ t) = Some (s, t).
Proof.
  intros Hs. unfold demo_string. rewrite (bencode_read_string_spec (Buf (enc_str s ++ t) 0) s t eq_refl Hs).
  by rewrite (rem_app (Buf (enc_str s ++ t) 0) (enc_str s) t eq_refl).
Qed.
#[local] Instance demo_oxenc_spec : OxencSpec.
Proof.
  split; cbn [bt_serialize bt_deserialize list_consumer consume_integer consume_string_view consume_dict_data is_finished demo_oxenc].
  - done.
  - intros s p w q d Hp Hw Hq Hv. cbn [value_ok tuple_value forallb] in Hv. repeat (apply andb_true_iff in Hv as [? Hv]). cbn [tuple_value enc_value flat_map]. unfold demo_tuple.
    cbn [tail]. rewrite <- !app_assoc. rewrite demo_reads_string by lia. cbn [mbind option_bind].
    do 3 (rewrite demo_reads_integer by (unfold in_width in *; lia); cbn [mbind option_bind]). by rewrite demo_reads_string by lia.
  - done.
  - apply demo_reads_integer.
  - apply demo_reads_string.
  - intros l t Hv. unfold demo_dict. rewrite (discard_value _ (BDict l) Hv) with (rest := t); [|rewrite length_app; lia|done].
    rewrite (rem_app (Buf (enc_value (BDict l) ++ t) 0) (enc_value (BDict l)) t eq_refl). cbn [advance set_cur cur]. by rewrite Nat.add_0_l, take_app_length.
  - done.
Qed.
#[local] Instance demo_sodium : Sodium := toy_sodium.
#[local] Instance demo_signs : SodiumSign := toy_sign.
Definition demo_netid : list Z := [98; 101; 108; 110; 101; 116; 0; 0].
Definition demo_rc : RouterContact :=
  mkContact [mkAddr 1 [105; 119; 112] (replicate 32 7) (replicate 10 0 ++ [255; 255; 8; 8; 8; 8]) 1190] demo_netid (replicate 32 3) (replicate 32 0)
    (replicate 64 0) (pad NICKLEN [97; 98]) 0 1 (Some (mkVersion [0; 9; 7] 0)) [] [mkSRV [115] 1 2 53 [46]].
Definition demo_sk : list Z := replicate 32 1 ++ replicate 32 2.
Lemma demo_rc_ok : contact_ok demo_rc.
Proof.
  split; cbn.
  - apply Forall_singleton. split; cbn; [lia| |done| |lia].
    + split; [lia|]. rewrite !not_elem_of_cons. split_and!; [lia..|apply not_elem_of_nil].
    + split; [done|]. apply (bool_decide_unpack _). vm_compute. exact I.
  - by split; [|lia].
  - done.
  - by split; [|vm_compute; lia].
  - lia.
  - by right.
  - split; [done|]. split; [|cbn; lia]. repeat constructor; unfold in_width; lia.
  - apply Forall_singleton. split_and!; [vm_compute; reflexivity|unfold in_width; cbn; lia..|vm_compute; reflexivity].
Qed.

(** ** Limits *)

(** A target below [.bdx] is refused; one that goes on for a letter after it is taken. *)
Lemma bdx_target_refused name : string_find (name ++ dot_bdx) dot_bdx = Some (length name) -> string_find (name ++ dot_bdx) dot_mnode = None ->
  SRV_IsValid (mkSRV [] 0 0 0 (name ++ dot_bdx)) = false.
Proof.
  intros Hb Hm. unfold SRV_IsValid. cbn [target]. rewrite Hb, Hm. rewrite bool_decide_false by (intros E%(f_equal length); rewrite length_app in E; cbn in E; lia).
  rewrite bool_decide_false by (rewrite length_app; cbn; lia). cbn [orb]. case_bool_decide; [done|]. unfold found_at. rewrite length_app. cbn [length dot_bdx].
  destruct (Z.eqb_spec (Z.of_nat (length name)) (u64 (Z.of_nat (length name + 4) - Z.of_nat 5))) as [E|]; [|done]. exfalso. revert E. unfold wrap.
  destruct (decide (length name = 0%nat)) as [->|Hn]; [done|]. rewrite length_app in *. cbn [length dot_bdx] in *. unfold TARGET_MAX_SIZE in *. rewrite Z.mod_small; lia.
Qed.
Lemma bdx_target_extended : SRV_IsValid (mkSRV [] 0 0 0 ([97] ++ dot_bdx ++ [120])) = true.
Proof. vm_compute. reflexivity. Qed.
(** A dialect of 128 bytes is terminated past the end of the buffer. *)
Lemma dialect_writes_past_end `{Inet} a b s rest : rem b = enc_str s ++ rest -> length s = 128%nat -> AddressInfo_DecodeKey a (Buf [100] 0) b = Fault.
Proof.
  intros E Hs. unfold AddressInfo_DecodeKey. one_key. rewrite (bencode_read_string_spec _ _ _ E) by lia. cbn [obind].
  rewrite bool_decide_false by (unfold sz; cbn [base]; lia). by rewrite bool_decide_true by (unfold sz; cbn [base]; lia).
Qed.
(** A port of 65536 is taken for port 0. *)
Lemma port_65536_truncated `{Inet} a b rest : rem b = enc_int 65536 ++ rest ->
  AddressInfo_DecodeKey a (Buf [112] 0) b = Done (true, advance (length (enc_int 65536)) b, set_port 0 a).
Proof. intros E. unfold AddressInfo_DecodeKey. one_key. by rewrite (bencode_read_integer_spec _ _ _ E) by (unfold in_width; lia). Qed.
(** Reading a contact from a buffer that is used up looks past its end. *)
Lemma empty_contact_reads_past_end `{Inet} `{Oxenc} old b : cur b = sz b -> RouterContact_BDecode old b = Fault.
Proof. intros E. unfold RouterContact_BDecode, deref. rewrite lookup_ge_None_2; [done|]. unfold sz in E. lia. Qed.
