(* ===== verification/ContactItem.v ===== *)
(** * The codec of contacts in the messages that carry them

    [Contact] implements the item interface that DHT messages take contacts through,
    and the interface [ContactCodec] of link introductions.  There a contact is its
    keys and time with its text; [contact_view] and [hop_view] make these of a
    contact. *)

From S2P Require Import Prelude Buffer Bencode Codec Crypto Path PathBuild LinkMessages LinkMessageProofs Dht Contact ContactProofs.
Open Scope Z_scope.

Section Items.
Context {IN : Inet} {IS : InetSpec} {OX : Oxenc} {OS : OxencSpec}.
Context (DefaultNetID : list Z).

Definition contact_view (x : Contact.RouterContact) : Dht.RouterContact := Dht.mkContact (Contact.pubkey x) (Contact.last_updated x) (contact_text x).
Definition hop_view (x : Contact.RouterContact) : HopRC := mkHopRC (Contact.pubkey x) (Contact.enckey x) (contact_text x).
(** A contact as [Sign] or [BDecode] leave it *)
Definition complete (x : Contact.RouterContact) : Prop :=
  contact_ok x /\ (Contact.version x = 1 -> Contact.signed_bt_dict x = section_text x).

(** A text that can stand in a list *)
Definition item_text (s : list Z) : list Z := match s with c :: t => if c =? ch_e then [ch_d] else s | [] => [ch_d] end.
Lemma item_text_head s : exists c t, item_text s = c :: t /\ c <> ch_e.
Proof.
  unfold item_text. destruct s as [|c t]; [by exists ch_d, []|]. destruct (Z.eqb_spec c ch_e); [by exists ch_d, []|by exists c, t].
Qed.
Lemma contact_item_text x : complete x -> item_text (contact_text x) = contact_text x.
Proof. intros [Hx _]. unfold contact_text, section_text, dict_text. destruct (Contact.version x =? 0); done. Qed.
Lemma read_new x b rest : complete x -> rem b = contact_text x ++ rest ->
  exists y, RouterContact_BDecode (Contact.RouterContact_new DefaultNetID) b = Done (true, advance (length (contact_text x)) b, y)
  /\ contact_view y = contact_view x /\ hop_view y = hop_view x.
Proof.
  intros [Hx Hd] E. eexists. split; [by apply (contact_decodes x _ b rest)|]. unfold as_read.
  destruct (Contact.version x =? 0) eqn:Ev; [|done]. unfold contact_view, hop_view, contact_text. change (Contact.version (set_signed_bt_dict _ x)) with (Contact.version x).
  by rewrite Ev.
Qed.

#[export] Instance contact_item : BItem Dht.RouterContact := {|
  BEncode c b := write b (rc_rest c);
  BDecode b :=
    let! (ok, b, x) := RouterContact_BDecode (Contact.RouterContact_new DefaultNetID) b in
    Done (if ok then Some (contact_view x) else None, b) |}.
#[export] Instance contact_item_spec : BItemSpec Dht.RouterContact.
Proof.
  refine {| item_ok c := exists x, complete x /\ c = contact_view x; item_enc c := item_text (rc_rest c) |}.
  - intros c. apply item_text_head.
  - intros c b rest (x&Hx&->) E. cbn [rc_rest contact_view] in *. rewrite contact_item_text in * by done. destruct (read_new x b rest Hx E) as (y&Ey&Hy&_).
    cbn [BDecode contact_item]. rewrite Ey. cbn [obind]. by rewrite Hy.
  - intros c b (x&Hx&->) Hw Hs. cbn [rc_rest contact_view BEncode contact_item] in *. rewrite contact_item_text in * by done. apply write_appends; [done|lia].
Defined.

#[export] Instance contact_codec : ContactCodec := {|
  rc_BEncode c b := write b (rc_other c);
  rc_Clear c := hop_view (Contact.RouterContact_new DefaultNetID);
  rc_BDecode old b :=
    let! (ok, b, x) := RouterContact_BDecode (Contact.RouterContact_new DefaultNetID) b in
    Done (ok, if ok then hop_view x else old, b) |}.
#[export] Instance contact_codec_spec : ContactSpec.
Proof.
  refine {| rc_ok c := exists x, complete x /\ c = hop_view x; rc_text := rc_other |}.
  - intros old c b rest (x&Hx&->) E. cbn [rc_other hop_view] in *. destruct (read_new x b rest Hx E) as (y&Ey&_&Hy).
    cbn [rc_BDecode contact_codec]. rewrite Ey. cbn [obind]. by rewrite Hy.
  - intros c _ b Hw Hs. cbn [rc_BEncode contact_codec]. apply write_appends; [done|lia].
Defined.
End Items.
