(* ===== verification/Dns.v ===== *)
(** * DNS messages ([llarp/dns/])

    [serialize.cpp], [name.cpp], [question.cpp], [rr.cpp] and [message.cpp]: names,
    questions, resource records and messages, their wire format and the replies the
    resolver builds.  Names are byte strings with dots.  A byte that is read or written
    through the position without a test of the room is a [Fault] outside the region;
    [None] in place of a result of [ToBuffer] or [AddTXTReply] is an exception. *)

From S2P Require Import Prelude Buffer Text Bencode Codec Uint128 Contact.
Open Scope Z_scope.

Definition qTypeSRV : Z := 33.
Definition qTypeAAAA : Z := 28.
Definition qTypeTXT : Z := 16.
Definition qTypeMX : Z := 15.
Definition qTypeCNAME : Z := 5.
Definition qTypeNS : Z := 2.
Definition qTypeA : Z := 1.
Definition qClassIN : Z := 1.
Definition flags_QR : Z := Z.shiftl 1 15.
Definition flags_AA : Z := Z.shiftl 1 10.
Definition flags_RD : Z := Z.shiftl 1 8.
Definition flags_RA : Z := Z.shiftl 1 7.
Definition flags_RCODENameError : Z := 3.
Definition flags_RCODEServFail : Z := 2.
Definition ch_dot : Z := 46.
(** A position of [std::string] as an unsigned number; [npos] is the greatest. *)
Definition npos_of (p : option nat) : Z := match p with Some n => Z.of_nat n | None => 2 ^ 64 - 1 end.
Definition size_z (s : list Z) : Z := Z.of_nat (length s).

(** oxenc's hexadecimal routines: [from_hex] takes the high nibble of a byte first. *)
Class OxencHex := { is_hex_digit : Z -> bool; from_hex : list Z -> list Z }.
Definition hex_value (c : Z) : option Z :=
  if (48 <=? c) && (c <=? 57) then Some (c - 48) else if (97 <=? c) && (c <=? 102) then Some (c - 87) else if (65 <=? c) && (c <=? 70) then Some (c - 55) else None.
Class OxencHexSpec `{OxencHex} : Prop := {
  is_hex_digit_spec c : is_hex_digit c = bool_decide (is_Some (hex_value c));
  from_hex_nil : from_hex [] = [];
  from_hex_cons a b x y l : hex_value a = Some x -> hex_value b = Some y -> from_hex (a :: b :: l) = 16 * x + y :: from_hex l }.

(** ** Names *)

(** [*buf->cur = v; buf->cur++] *)
Definition poke (b : llarp_buffer_t) (v : Z) : outcome llarp_buffer_t :=
  if bool_decide (cur b < sz b)%nat then Done (Buf (store (base b) (cur b) [v]) (S (cur b))) else Fault.
(** [memcpy(buf->cur, data)] with the position moved on, after a test of the room *)
Definition blit (b : llarp_buffer_t) (l : list Z) : llarp_buffer_t := Buf (store (base b) (cur b) l) (cur b + length l).

Fixpoint name_loop (fuel : nat) (name : list Z) (b : llarp_buffer_t) : outcome (option (list Z) * llarp_buffer_t) :=
  match fuel with
  | O => Timeout
  | S fuel =>
      let! l := deref b in
      let b := advance 1 b in
      if l =? 0 then Done (Some name, b)
      else if Z.of_nat (size_left b) <? l then Done (None, b)
      else name_loop fuel (name ++ take (Z.to_nat l) (drop (cur b) (base b)) ++ [ch_dot]) (advance (Z.to_nat l) b)
  end.
Definition DecodeName (trimTrailingDot : bool) (b : llarp_buffer_t) : outcome (option (list Z) * llarp_buffer_t) :=
  if bool_decide (size_left b < 1)%nat then Done (None, b)
  else
    let! (r, b) := name_loop (S (S (sz b))) [] b in
    match r with
    | None => Done (None, b)
    | Some name => if trimTrailingDot then if bool_decide (name = []) then Fault else Done (Some (removelast name), b) else Done (Some name, b)
    end.

Fixpoint put_labels (parts : list (list Z)) (b : llarp_buffer_t) : outcome (bool * llarp_buffer_t) :=
  match parts with
  | [] => Done (true, b)
  | part :: parts =>
      if bool_decide (63 < length part)%nat then Done (false, b)
      else
        let! b := poke b (Z.of_nat (length part)) in
        if bool_decide (size_left b < length part)%nat then Done (false, b)
        else if bool_decide (part = []) then Done (true, b)
        else put_labels parts (blit b part)
  end.
Definition EncodeNameTo (name : list Z) (b : llarp_buffer_t) : outcome (bool * llarp_buffer_t) :=
  let name := if bool_decide (last name = Some ch_dot) then removelast name else name in
  let! parts := split name [ch_dot] false in
  let! (ok, b) := put_labels parts b in
  if negb ok then Done (false, b) else let! b := poke b 0 in Done (true, b).

Definition in_addr_arpa : list Z := [46; 105; 110; 45; 97; 100; 100; 114; 46; 97; 114; 112; 97].
Definition ip6_arpa : list Z := [46; 105; 112; 54; 46; 97; 114; 112; 97].
(** The octets of [d.c.b.a.], the last one first *)
Fixpoint ptr_octets (n : nat) (name : list Z) : option (list Z) :=
  match n with
  | O => Some []
  | S n =>
      let pos := default (length name) (str_find name [ch_dot]) in
      match parse_uint 8 (take pos name), ptr_octets n (drop (S pos) name) with
      | Some q, Some l => Some (q :: l)
      | _, _ => None
      end
  end.
(** The nibbles of [a.b.c.d.], each pair flipped *)
Fixpoint ptr_nibbles `{OxencHex} (name : list Z) : option (list Z) :=
  match name with
  | [] => Some []
  | a :: d1 :: b :: d2 :: name =>
      if is_hex_digit a && (d1 =? ch_dot) && is_hex_digit b && (d2 =? ch_dot) then (fun l => b :: a :: l) <$> ptr_nibbles name else None
  | _ => None
  end.
Definition DecodePTR `{OxencHex} (name : list Z) : option uint128_t :=
  let v4 := str_find name in_addr_arpa in
  match v4, str_find name ip6_arpa with
  | None, None => None
  | Some pos, _ =>
      let name := take (S pos) name in
      if bool_decide (length (filter (fun c => c = ch_dot) name) = 4%nat) then
        match ptr_octets 4 name with
        | Some [d; c; b; a] => Some (ExpandV4 (ipaddr_ipv4_bits a b c d))
        | _ => None
        end
      else None
  | None, Some pos =>
      let name := take (S pos) name in
      if bool_decide (length (filter (fun c => c = ch_dot) name) = 32%nat) && bool_decide (length name = 64%nat) then
        match ptr_nibbles name with
        | Some hex =>
            let bytes := from_hex hex in
            Some (U128 (be_value (reverse (take 8 (drop 8 bytes)))) (be_value (reverse (take 8 bytes))))
        | None => None
        end
      else None
  end.
Definition mnode_bdx : list Z := [46; 109; 110; 111; 100; 101; 46; 98; 100; 120].
Definition bdx_bdx : list Z := [46; 98; 100; 120; 46; 98; 100; 120].
Definition NameIsReserved (name : list Z) : bool :=
  existsb (fun reserved => ends_with name reserved || bool_decide (name = drop 1 reserved)) [mnode_bdx; bdx_bdx; mnode_bdx ++ [ch_dot]; bdx_bdx ++ [ch_dot]].

Section Records.
Context `{!Buffer.Oxenc} `{OxencSwap}.

(** ** Resource data *)

Definition EncodeRData (v : list Z) (b : llarp_buffer_t) : bool * llarp_buffer_t :=
  if bool_decide (Z.to_nat 65536 < length v)%nat then (false, b)
  else
    let len := u16 (Z.of_nat (length v)) in
    let '(ok, b) := put_uint16 b len in
    if negb ok then (false, b)
    else if Z.of_nat (size_left b) <? len then (false, b)
    else (true, blit b (take (Z.to_nat len) v)).
Definition DecodeRData (v : list Z) (b : llarp_buffer_t) : bool * list Z * llarp_buffer_t :=
  match read_uint16 b with
  | (None, b) => (false, v, b)
  | (Some len, b) =>
      if Z.of_nat (size_left b) <? len then (false, v, b)
      else (true, take (Z.to_nat len) (drop (cur b) (base b)), advance (Z.to_nat len) b)
  end.

(** ** Questions *)

Record Question := mkQuestion { qname : list Z; qtype : Z; qclass : Z }.
Definition Question_new : Question := mkQuestion [] 0 0.
Definition Question_Encode (q : Question) (b : llarp_buffer_t) : outcome (bool * llarp_buffer_t) :=
  let! (ok, b) := EncodeNameTo (qname q) b in
  if negb ok then Done (false, b)
  else let '(ok, b) := put_uint16 b (qtype q) in
  if negb ok then Done (false, b) else Done (put_uint16 b (qclass q)).
Definition Question_Decode (q : Question) (b : llarp_buffer_t) : outcome (bool * Question * llarp_buffer_t) :=
  let! (r, b) := DecodeName false b in
  match r with
  | None => Done (false, q, b)
  | Some name =>
      let q := mkQuestion name (qtype q) (qclass q) in
      match read_uint16 b with
      | (None, b) => Done (false, q, b)
      | (Some t, b) =>
          let q := mkQuestion (qname q) t (qclass q) in
          match read_uint16 b with
          | (None, b) => Done (false, q, b)
          | (Some c, b) => Done (true, mkQuestion (qname q) (qtype q) c, b)
          end
      end
  end.
(** [IsName]: a name without the dot at its end is tried again with it. *)
Definition ends_in_dot (other : list Z) : bool := npos_of (str_rfind other [ch_dot]) =? u64 (size_z other - 1).
Fixpoint IsName (fuel : nat) (other : list Z) (q : Question) : outcome bool :=
  match fuel with
  | O => Timeout
  | S fuel => if ends_in_dot other then Done (bool_decide (other = qname q)) else IsName fuel (other ++ [ch_dot]) q
  end.
Definition localhost_bdx : list Z := [108; 111; 99; 97; 108; 104; 111; 115; 116; 46; 98; 100; 120; 46].
Definition IsLocalhost (q : Question) : bool := bool_decide (qname q = localhost_bdx) || ends_with (qname q) (ch_dot :: localhost_bdx).
Definition HasSubdomains (q : Question) : outcome bool :=
  let! parts := split (qname q) [ch_dot] true in Done (bool_decide (3 <= length parts)%nat).
Definition Subdomains (q : Question) : list Z :=
  let name := qname q in
  if bool_decide (length name < 2)%nat then []
  else
    match str_rfind_at name [ch_dot] (length name - 2) with
    | None | Some O => []
    | Some (S pos) =>
        match str_rfind_at name [ch_dot] pos with
        | None | Some O => []
        | Some pos => take pos name
        end
    end.
Definition Question_Name (q : Question) : list Z := match str_rfind (qname q) [ch_dot] with Some n => take n (qname q) | None => qname q end.
Definition HasTLD (tld : list Z) (q : Question) : bool :=
  bool_decide (is_Some (str_find (qname q) tld)) && (npos_of (str_rfind (qname q) tld) =? u64 (u64 (size_z (qname q) - size_z tld) - 1)).

(** ** Resource records *)

Record ResourceRecord := mkRR { rr_name : list Z; rr_type : Z; rr_class : Z; ttl : Z; rData : list Z }.
Definition RR_new : ResourceRecord := mkRR [] 0 0 0 [].
Definition RR_Encode (r : ResourceRecord) (b : llarp_buffer_t) : outcome (bool * llarp_buffer_t) :=
  let! (ok, b) := EncodeNameTo (rr_name r) b in
  if negb ok then Done (false, b)
  else Done (and_then (put_uint16 b (rr_type r)) (fun b => and_then (put_uint16 b (rr_class r)) (fun b =>
    and_then (put_uint32 b (ttl r)) (EncodeRData (rData r))))).
Definition RR_Decode (r : ResourceRecord) (b : llarp_buffer_t) : bool * ResourceRecord * llarp_buffer_t :=
  match read_uint16 b with
  | (None, b) => (false, r, b)
  | (Some _, b) =>
      match read_uint16 b with
      | (None, b) => (false, r, b)
      | (Some t, b) =>
          let r := mkRR (rr_name r) t (rr_class r) (ttl r) (rData r) in
          match read_uint16 b with
          | (None, b) => (false, r, b)
          | (Some c, b) =>
              let r := mkRR (rr_name r) (rr_type r) c (ttl r) (rData r) in
              match read_uint32 b with
              | (None, b) => (false, r, b)
              | (Some n, b) =>
                  let r := mkRR (rr_name r) (rr_type r) (rr_class r) n (rData r) in
                  let '(ok, v, b) := DecodeRData (rData r) b in
                  (ok, mkRR (rr_name r) (rr_type r) (rr_class r) (ttl r) v, b)
              end
          end
      end
  end.
Definition HasCNameForTLD (tld : list Z) (r : ResourceRecord) : outcome bool :=
  if negb (rr_type r =? qTypeCNAME) then Done false
  else
    let! (n, _) := DecodeName false (Buf (rData r) 0) in
    match n with
    | Some name => Done (npos_of (str_rfind name tld) =? u64 (size_z name - size_z tld - 1))
    | None => Done false
    end.

(** ** Messages *)

Record MessageHeader := mkHeader { h_id : Z; h_fields : Z; qd_count : Z; an_count : Z; ns_count : Z; ar_count : Z }.
Definition Header_Encode (h : MessageHeader) (b : llarp_buffer_t) : bool * llarp_buffer_t :=
  and_then (put_uint16 b (h_id h)) (fun b => and_then (put_uint16 b (h_fields h)) (fun b => and_then (put_uint16 b (qd_count h)) (fun b =>
  and_then (put_uint16 b (an_count h)) (fun b => and_then (put_uint16 b (ns_count h)) (fun b => put_uint16 b (ar_count h)))))).
(** The fields read before a failure are of no use to the caller. *)
Definition Header_Decode (b : llarp_buffer_t) : option MessageHeader * llarp_buffer_t :=
  let next (k : Z -> llarp_buffer_t -> option MessageHeader * llarp_buffer_t) (b : llarp_buffer_t) :=
    match read_uint16 b with (None, b) => (None, b) | (Some v, b) => k v b end in
  next (fun i => next (fun f => next (fun q => next (fun a => next (fun n => next (fun r b => (Some (mkHeader i f q a n r), b))))))) b.

Record Message := mkMessage {
  hdr_id : Z;
  hdr_fields : Z;
  questions : list Question;
  answers : list ResourceRecord;
  authorities : list ResourceRecord;
  additional : list ResourceRecord }.
Definition Message_of_header (h : MessageHeader) : Message :=
  mkMessage (h_id h) (h_fields h) (replicate (Z.to_nat (qd_count h)) Question_new) (replicate (Z.to_nat (an_count h)) RR_new)
    (replicate (Z.to_nat (ns_count h)) RR_new) (replicate (Z.to_nat (ar_count h)) RR_new).
Definition Message_of_question (q : Question) : Message := mkMessage 0 0 [q] [] [] [].

Fixpoint encode_each {A} (enc : A -> llarp_buffer_t -> outcome (bool * llarp_buffer_t)) (l : list A) (b : llarp_buffer_t) : outcome (bool * llarp_buffer_t) :=
  match l with
  | [] => Done (true, b)
  | x :: l => let! (ok, b) := enc x b in if negb ok then Done (false, b) else encode_each enc l b
  end.
Definition Message_Encode (m : Message) (b : llarp_buffer_t) : outcome (bool * llarp_buffer_t) :=
  let hdr := mkHeader (hdr_id m) (hdr_fields m) (u16 (Z.of_nat (length (questions m)))) (u16 (Z.of_nat (length (answers m)))) 0 0 in
  let '(ok, b) := Header_Encode hdr b in
  if negb ok then Done (false, b)
  else
    let! (ok, b) := encode_each Question_Encode (questions m) b in
    if negb ok then Done (false, b) else encode_each RR_Encode (answers m) b.
Fixpoint decode_each {A} (dec : A -> llarp_buffer_t -> outcome (bool * A * llarp_buffer_t)) (l : list A) (b : llarp_buffer_t) : outcome (bool * list A * llarp_buffer_t) :=
  match l with
  | [] => Done (true, [], b)
  | x :: l =>
      let! (ok, x, b) := dec x b in
      if negb ok then Done (false, x :: l, b)
      else let! (ok, l, b) := decode_each dec l b in Done (ok, x :: l, b)
  end.
Definition Message_Decode (m : Message) (b : llarp_buffer_t) : outcome (bool * Message * llarp_buffer_t) :=
  let! (ok, qs, b) := decode_each Question_Decode (questions m) b in
  let m := mkMessage (hdr_id m) (hdr_fields m) qs (answers m) (authorities m) (additional m) in
  if negb ok then Done (false, m, b)
  else
    let! (ok, an, b) := decode_each (fun r b => Done (RR_Decode r b)) (answers m) b in
    Done (ok, mkMessage (hdr_id m) (hdr_fields m) (questions m) an (authorities m) (additional m), b).
Definition MaybeParseDNSMessage (bytes : list Z) : outcome (option Message) :=
  let '(h, b) := Header_Decode (Buf bytes 0) in
  match h with
  | None => Done None
  | Some h =>
      let! (ok, m, _) := Message_Decode (Message_of_header h) b in
      Done (if ok then Some m else None)
  end.
Definition ToBuffer (m : Message) : outcome (option (list Z)) :=
  let! (ok, b) := Message_Encode m (Buf (replicate 1500 0) 0) in
  Done (if ok then Some (take (cur b) (base b)) else None).

(** ** Replies *)

Definition set_fields (v : Z) (m : Message) : Message := mkMessage (hdr_id m) v (questions m) (answers m) (authorities m) (additional m).
Definition add_answer (r : ResourceRecord) (m : Message) : Message :=
  mkMessage (hdr_id m) (hdr_fields m) (questions m) (answers m ++ [r]) (authorities m) (additional m).
Definition reply_flags (setbits : Z) : Z := Z.lor (Z.lor (Z.lor setbits flags_QR) flags_AA) flags_RA.
Definition AddServFail (m : Message) : Message :=
  if bool_decide (questions m = []) then m
  else
    let f := Z.lor (hdr_fields m) flags_RCODEServFail in
    let f := Z.lor f (Z.lor (Z.lor flags_QR flags_AA) flags_RA) in
    set_fields (Z.ldiff f flags_RD) m.
Definition AddNXReply (m : Message) : Message :=
  if bool_decide (questions m = []) then m
  else
    let f := Z.ldiff (reply_flags (hdr_fields m)) flags_RD in
    mkMessage (hdr_id m) (Z.lor f flags_RCODENameError) (questions m) [] [] [].
Definition AddINReply (ip : uint128_t) (isV6 : bool) (t : Z) (m : Message) : Message :=
  match questions m with
  | [] => m
  | q :: _ =>
      add_answer (if isV6 then mkRR (qname q) qTypeAAAA qClassIN t (HUIntToIn6 ip)
                  else mkRR (qname q) qTypeA qClassIN t (write_host_as_big 4 (TruncateV6 ip))) (set_fields (reply_flags (hdr_fields m)) m)
  end.
(** The bytes of a local array of 512 that [prefix] and the name fill; [None]: the name
    cannot be encoded, and the record stays without data. *)
Definition name_data (prefix : list Z) (name : list Z) : outcome (option (list Z)) :=
  let buf := blit (Buf (replicate 512 0) 0) prefix in
  let! (ok, b) := EncodeNameTo name buf in
  Done (if ok then Some (take (cur b) (base b)) else None).
Definition name_reply (prefix name : list Z) (type : Question -> Z) (t : Z) (m : Message) : outcome Message :=
  match questions m with
  | [] => Done m
  | q :: _ =>
      let m := set_fields (reply_flags (hdr_fields m)) m in
      let! d := name_data prefix name in
      Done (add_answer (mkRR (qname q) (type q) qClassIN t (default [] d)) m)
  end.
Definition AddAReply (name : list Z) (t : Z) : Message -> outcome Message := name_reply [] name qtype t.
Definition AddNSReply (name : list Z) (t : Z) : Message -> outcome Message := name_reply [] name (fun _ => qTypeNS) t.
Definition AddCNAMEReply (name : list Z) (t : Z) : Message -> outcome Message := name_reply [] name (fun _ => qTypeCNAME) t.
Definition AddMXReply (name : list Z) (prio : Z) (t : Z) : Message -> outcome Message :=
  name_reply (write_host_as_big 2 prio) name (fun _ => qTypeMX) t.
(** The part of a name after its second dot *)
Definition after_second_dot (name : list Z) : list Z :=
  let next (p : option nat) := match p with Some n => S n | None => 0%nat end in
  drop (next (str_find_at name [ch_dot] (next (str_find name [ch_dot])))) name.
Fixpoint srv_loop (q : Question) (records : list SRVData) (t : Z) (m : Message) : outcome Message :=
  match records with
  | [] => Done m
  | srv :: records =>
      if negb (SRV_IsValid srv) then Done (AddNXReply m)
      else
        let prefix := write_host_as_big 2 (priority srv) ++ write_host_as_big 2 (weight srv) ++ write_host_as_big 2 (srv_port srv) in
        let name := if bool_decide (target srv = []) then after_second_dot (qname q) else target srv in
        let! d := name_data prefix name in
        match d with
        | None => Done (AddNXReply m)
        | Some d => srv_loop q records t (add_answer (mkRR (qname q) qTypeSRV qClassIN t d) m)
        end
  end.
Definition AddSRVReply (records : list SRVData) (t : Z) (m : Message) : outcome Message :=
  let m := set_fields (reply_flags (hdr_fields m)) m in
  match questions m with
  | [] => Fault
  | q :: _ => srv_loop q records t m
  end.
Fixpoint txt_loop (fuel : nat) (str : list Z) (b : llarp_buffer_t) : outcome (option llarp_buffer_t) :=
  match fuel with
  | O => Timeout
  | S fuel =>
      if bool_decide (str = []) then Done (Some b)
      else
        let left := Nat.min (length str) 256 in
        let! b := poke b (u8 (Z.of_nat left)) in
        let '(ok, b) := write b (take left str) in
        if negb ok then Done None else txt_loop fuel (drop left str) b
  end.
Definition AddTXTReply (str : list Z) (t : Z) (m : Message) : outcome (option Message) :=
  match questions m with
  | [] => Fault
  | q :: _ =>
      let! r := txt_loop (S (length str)) str (Buf (replicate 1024 0) 0) in
      match r with
      | None => Done None
      | Some b => Done (Some (add_answer (mkRR (qname q) qTypeTXT qClassIN t (take (cur b) (base b))) m))
      end
  end.
End Records.
