(* ===== verification/DnsProofs.v ===== *)
(** * DNS messages on the wire

    The wire format of RFC 1035 as text: what [Encode] writes and what the parser takes
    in.  The parser ends on every packet, and leaves the packet only when it ends inside
    a name; replies carry the names they were made from; reverse names are read as the
    addresses they were made from. *)

From S2P Require Import Prelude Buffer Text Bencode Codec Uint128 Contact Dns.
Open Scope Z_scope.

(** ** The wire format *)

Definition label_ok (l : list Z) : Prop := (0 < length l <= 63)%nat /\ ch_dot ∉ l.
Definition label_text (l : list Z) : list Z := Z.of_nat (length l) :: l.
Definition name_text (ls : list (list Z)) : list Z := concat (label_text <$> ls) ++ [0].
(** The string of a name: each label with a dot after it *)
Definition dotted (ls : list (list Z)) : list Z := concat ((fun l => l ++ [ch_dot]) <$> ls).
Definition name_ok (ls : list (list Z)) : Prop := ls <> [] /\ Forall label_ok ls.

Record WireQuestion := mkWQ { wq_labels : list (list Z); wq_type : Z; wq_class : Z }.
Definition question_of (w : WireQuestion) : Question := mkQuestion (dotted (wq_labels w)) (wq_type w) (wq_class w).
Definition question_text (w : WireQuestion) : list Z := name_text (wq_labels w) ++ be_bytes 2 (wq_type w) ++ be_bytes 2 (wq_class w).
Definition question_ok (w : WireQuestion) : Prop := name_ok (wq_labels w) /\ in_width 16 (wq_type w) /\ in_width 16 (wq_class w).
(** A record with its owner's name as text [owner], its labels or a pointer *)
Record WireRR := mkWR { wr_type : Z; wr_class : Z; wr_ttl : Z; wr_data : list Z }.
Definition rr_of (name : list Z) (w : WireRR) : ResourceRecord := mkRR name (wr_type w) (wr_class w) (wr_ttl w) (wr_data w).
Definition rr_text (owner : list Z) (w : WireRR) : list Z :=
  owner ++ be_bytes 2 (wr_type w) ++ be_bytes 2 (wr_class w) ++ be_bytes 4 (wr_ttl w) ++ be_bytes 2 (Z.of_nat (length (wr_data w))) ++ wr_data w.
Definition rr_ok (w : WireRR) : Prop :=
  in_width 16 (wr_type w) /\ in_width 16 (wr_class w) /\ in_width 32 (wr_ttl w) /\ in_width 16 (Z.of_nat (length (wr_data w))).
Definition header_text (id fields qd an ns ar : Z) : list Z :=
  be_bytes 2 id ++ be_bytes 2 fields ++ be_bytes 2 qd ++ be_bytes 2 an ++ be_bytes 2 ns ++ be_bytes 2 ar.

(** ** Writing *)

Definition owrites (w : llarp_buffer_t -> outcome (bool * llarp_buffer_t)) (txt : list Z) : Prop :=
  forall b, wf b -> (length txt <= size_left b)%nat -> exists b', w b = Done (true, b') /\ appends b txt b'.
Lemma appends_wf b l b' : appends b l b' -> wf b'.
Proof. by intros (_ & _ & _ & ?). Qed.
Lemma owrites_seq w1 w2 t1 t2 : owrites w1 t1 -> owrites w2 t2 ->
  owrites (fun b => let! (ok, b) := w1 b in if negb ok then Done (false, b) else w2 b) (t1 ++ t2).
Proof.
  intros W1 W2 b Hw Hl. rewrite length_app in Hl. destruct (W1 b Hw) as (b1 & -> & A1); [lia|]. cbn.
  destruct (W2 b1 (appends_wf _ _ _ A1)) as (b2 & E2 & A2); [rewrite (appends_size_left _ _ _ Hw A1); lia|].
  exists b2. split; [exact E2|]. by eapply appends_app.
Qed.
Lemma poke_appends b v : wf b -> (1 <= size_left b)%nat -> exists b', poke b v = Done b' /\ appends b [v] b'.
Proof.
  intros Hw Hl. rewrite size_left_wf in Hl by done. unfold poke. rewrite bool_decide_eq_true_2 by lia. eexists. split; [reflexivity|].
  pose proof (store_appends b [v] 1 Hw) as A. cbn [length take] in A. replace (S (cur b)) with (cur b + 1)%nat by lia. apply A; lia.
Qed.
Lemma blit_appends b l : wf b -> (length l <= size_left b)%nat -> appends b l (blit b l).
Proof.
  intros Hw Hl. rewrite size_left_wf in Hl by done. pose proof (store_appends b l (length l) Hw) as A. rewrite take_ge in A by lia. apply A; [unfold wf in Hw; lia|lia].
Qed.
Lemma owrites_poke v : owrites (fun b => let! b := poke b v in Done (true, b)) [v].
Proof. intros b Hw Hl. destruct (poke_appends b v Hw Hl) as (b' & -> & A). by exists b'. Qed.

(** A name without its last dot is its labels joined with dots. *)
Lemma dotted_join ls : ls <> [] -> dotted ls = join ch_dot ls ++ [ch_dot].
Proof.
  induction ls as [|l ls IH]; [done|]. intros _. destruct (decide (ls = [])) as [->|N]; [unfold dotted; cbn; by rewrite app_nil_r|].
  rewrite join_cons by done. unfold dotted in *. cbn [fmap list_fmap concat]. rewrite IH by done. by rewrite <- !app_assoc.
Qed.
Lemma put_labels_writes ls : Forall label_ok ls -> owrites (put_labels ls) (concat (label_text <$> ls)).
Proof.
  induction ls as [|l ls IH]; intros F b Hw Hl; [exists b; split; [done|by apply appends_nil]|]. apply Forall_cons in F as [[[L1 L2] _] F].
  cbn [fmap list_fmap concat put_labels] in *. unfold label_text at 1 in Hl. unfold label_text at 1. rewrite length_app in Hl. cbn [length] in Hl.
  rewrite bool_decide_eq_false_2 by lia. destruct (poke_appends b (Z.of_nat (length l)) Hw) as (b1 & -> & A1); [lia|]. cbn [obind].
  pose proof (appends_size_left _ _ _ Hw A1) as S1. cbn [length] in S1. pose proof (appends_wf _ _ _ A1) as W1.
  rewrite bool_decide_eq_false_2 by lia. rewrite bool_decide_eq_false_2 by (intros ->; cbn in L1; lia).
  assert (A2 : appends b1 l (blit b1 l)) by (apply blit_appends; [done|lia]).
  destruct (IH F (blit b1 l) (appends_wf _ _ _ A2)) as (b3 & E3 & A3); [rewrite (appends_size_left _ _ _ W1 A2); lia|].
  exists b3. split; [exact E3|]. change (Z.of_nat (length l) :: l) with ([Z.of_nat (length l)] ++ l). rewrite <- app_assoc. eapply appends_app; [exact A1|]. by eapply appends_app.
Qed.
Lemma last_dot ls : last (join ch_dot ls ++ [ch_dot]) = Some ch_dot.
Proof. by rewrite last_snoc. Qed.
Lemma EncodeNameTo_writes ls : name_ok ls -> owrites (EncodeNameTo (dotted ls)) (name_text ls).
Proof.
  intros [N F] b Hw Hl. unfold EncodeNameTo. rewrite dotted_join by done. rewrite last_snoc, bool_decide_eq_true_2, removelast_last by done.
  rewrite split_char; [|done|eapply Forall_impl; [exact F|]; by intros l [_ ?]]. cbn [obind].
  apply (owrites_seq _ _ _ _ (put_labels_writes ls F) (owrites_poke 0) b Hw Hl).
Qed.
(** The same without the dot at the end *)
Lemma EncodeNameTo_undotted ls : name_ok ls -> owrites (EncodeNameTo (join ch_dot ls)) (name_text ls).
Proof.
  intros [N F] b Hw Hl. unfold EncodeNameTo. assert (L : last (join ch_dot ls) <> Some ch_dot).
  { clear -N F. induction ls as [|l ls IH]; [done|]. apply Forall_cons in F as [[Ll Nl] F]. destruct (decide (ls = [])) as [->|N'].
    - cbn. intros E. apply last_Some_elem_of in E. by apply Nl.
    - rewrite join_cons by done. rewrite last_app_cons. rewrite last_cons. destruct (last (join ch_dot ls)) eqn:El; [by apply IH|].
      apply last_None in El. exfalso. destruct ls as [|l' ls]; [done|]. apply Forall_cons in F as [[[L1 _] _] _]. destruct ls; cbn in El; [subst; cbn in L1; lia|by destruct l']. }
  rewrite bool_decide_eq_false_2 by done. rewrite split_char; [|done|eapply Forall_impl; [exact F|]; by intros l [_ ?]]. cbn [obind].
  apply (owrites_seq _ _ _ _ (put_labels_writes ls F) (owrites_poke 0) b Hw Hl).
Qed.

Section Wire.
Context {OX : Buffer.Oxenc} {OS : Buffer.OxencSpec} `{OxencSwap}.

Lemma owrites_put n v : owrites (fun b => Done (put n b v)) (be_bytes n v).
Proof.
  intros b Hw Hl. rewrite length_be_bytes in Hl. unfold put. rewrite bool_decide_eq_false_2 by lia. rewrite write_host_as_big_spec.
  eexists. split; [reflexivity|]. pose proof (blit_appends b (be_bytes n v) Hw) as A. unfold blit in A. rewrite length_be_bytes in A. by apply A.
Qed.
(** A chain of plain writers inside an [outcome] *)
Lemma owrites_and_then w k t1 t2 : owrites (fun b => Done (w b)) t1 -> owrites (fun b => Done (k b)) t2 -> owrites (fun b => Done (and_then (w b) k)) (t1 ++ t2).
Proof.
  intros W1 W2 b Hw Hl. destruct (owrites_seq _ _ _ _ W1 W2 b Hw Hl) as (b' & E & A). exists b'. split; [|exact A].
  cbn in E. unfold and_then. destruct (w b) as [[] b1]; exact E.
Qed.
Lemma EncodeRData_writes v : in_width 16 (Z.of_nat (length v)) -> owrites (fun b => Done (EncodeRData v b)) (be_bytes 2 (Z.of_nat (length v)) ++ v).
Proof.
  intros Hv b Hw Hl. rewrite length_app, length_be_bytes in Hl. unfold EncodeRData. rewrite bool_decide_eq_false_2 by (unfold in_width in Hv; lia).
  rewrite wrap_small by done. destruct (owrites_put 2 (Z.of_nat (length v)) b Hw) as (b1 & E1 & A1); [rewrite length_be_bytes; lia|]. unfold put_uint16.
  destruct (put 2 b (Z.of_nat (length v))) as [ok b1']. injection E1 as -> ->. cbn [negb]. pose proof (appends_size_left _ _ _ Hw A1) as S1. rewrite length_be_bytes in S1.
  rewrite (proj2 (Z.ltb_ge _ _)) by lia. rewrite Nat2Z.id, take_ge by lia. eexists. split; [reflexivity|]. eapply appends_app; [exact A1|].
  apply blit_appends; [by eapply appends_wf|lia].
Qed.
Lemma Question_Encode_writes w : question_ok w -> owrites (Question_Encode (question_of w)) (question_text w).
Proof.
  intros (N & _ & _) b Hw Hl. unfold Question_Encode, question_of, question_text in *. cbn [qname qtype qclass].
  apply (owrites_seq _ (fun b => let '(ok, b) := put_uint16 b (wq_type w) in if negb ok then Done (false, b) else Done (put_uint16 b (wq_class w))) _ _
    (EncodeNameTo_writes _ N)); [|done|done]. intros b1 Hw1 Hl1. apply (owrites_seq _ _ _ _ (owrites_put 2 (wq_type w)) (owrites_put 2 (wq_class w)) b1 Hw1 Hl1).
Qed.
Lemma RR_Encode_writes ls w : name_ok ls -> rr_ok w -> owrites (RR_Encode (rr_of (dotted ls) w)) (rr_text (name_text ls) w).
Proof.
  intros N (_ & _ & _ & Hd). apply owrites_seq; [by apply EncodeNameTo_writes|]. cbn [rr_of rr_type rr_class ttl rData].
  repeat (apply owrites_and_then; [apply owrites_put|]). by apply EncodeRData_writes.
Qed.
Lemma encode_each_writes {A B} (enc : A -> llarp_buffer_t -> outcome (bool * llarp_buffer_t)) (f : B -> A) (txt : B -> list Z) (P : B -> Prop) l :
  (forall x, P x -> owrites (enc (f x)) (txt x)) -> Forall P l -> owrites (encode_each enc (f <$> l)) (concat (txt <$> l)).
Proof.
  intros W. induction l as [|x l IH]; intros F; [intros b Hw _; exists b; split; [done|by apply appends_nil]|]. apply Forall_cons in F as [Fx F].
  apply (owrites_seq _ _ _ _ (W x Fx) (IH F)).
Qed.
Lemma Header_Encode_writes h : owrites (fun b => Done (Header_Encode h b)) (header_text (h_id h) (h_fields h) (qd_count h) (an_count h) (ns_count h) (ar_count h)).
Proof. unfold Header_Encode, header_text. repeat (apply owrites_and_then; [apply owrites_put|]). apply owrites_put. Qed.

(** ** Messages *)

(** A message of the resolver: its questions, and answers that each have their name *)
Definition message_of (id fields : Z) (qs : list WireQuestion) (ans : list (list (list Z) * WireRR)) : Message :=
  mkMessage id fields (question_of <$> qs) ((fun x => rr_of (dotted x.1) x.2) <$> ans) [] [].
Definition message_text (id fields : Z) (qs : list WireQuestion) (ans : list (list (list Z) * WireRR)) : list Z :=
  header_text id fields (Z.of_nat (length qs)) (Z.of_nat (length ans)) 0 0 ++ concat (question_text <$> qs) ++
  concat ((fun x => rr_text (name_text x.1) x.2) <$> ans).
Definition message_ok (id fields : Z) (qs : list WireQuestion) (ans : list (list (list Z) * WireRR)) : Prop :=
  in_width 16 id /\ in_width 16 fields /\ Forall question_ok qs /\ Forall (fun x => name_ok x.1 /\ rr_ok x.2) ans /\
  in_width 16 (Z.of_nat (length qs)) /\ in_width 16 (Z.of_nat (length ans)).
Lemma Message_Encode_writes id fields qs ans : message_ok id fields qs ans ->
  owrites (Message_Encode (message_of id fields qs ans)) (message_text id fields qs ans).
Proof.
  intros (_ & _ & Fq & Fa & Hq & Ha) b Hw Hl. unfold Message_Encode, message_of. cbn [hdr_id hdr_fields questions answers]. rewrite !length_fmap, !wrap_small by done.
  unfold message_text in Hl |- *.
  refine (owrites_seq _ (fun b => let! (ok, b) := encode_each Question_Encode (question_of <$> qs) b in
    if negb ok then Done (false, b) else encode_each RR_Encode ((fun x => rr_of (dotted x.1) x.2) <$> ans) b) _ _ (Header_Encode_writes (mkHeader id fields _ _ 0 0)) _ b Hw Hl).
  apply owrites_seq.
  - apply (encode_each_writes _ _ _ question_ok); [apply Question_Encode_writes|done].
  - apply (encode_each_writes _ (fun x : list (list Z) * WireRR => rr_of (dotted x.1) x.2) (fun x => rr_text (name_text x.1) x.2) (fun x => name_ok x.1 /\ rr_ok x.2)); [|done].
    intros [ls w] [Hn Hr]. by apply RR_Encode_writes.
Qed.

(** ** Reading *)

Lemma read_text n v b r : rem b = be_bytes n v ++ r -> 0 <= v < 256 ^ Z.of_nat n -> read n b = (Some v, advance n b) /\ rem (advance n b) = r.
Proof.
  intros E Hv. assert (L : (n <= length (rem b))%nat) by (rewrite E, length_app, length_be_bytes; lia).
  assert (Hs : (n <= size_left b)%nat) by (unfold size_left; rewrite length_rem in L; case_bool_decide; lia).
  unfold read. rewrite bool_decide_eq_false_2 by lia. fold (rem b). rewrite E, take_app_length' by (by rewrite length_be_bytes).
  rewrite load_big_to_host_spec by apply length_be_bytes. rewrite be_value_be_bytes by done. split; [done|].
  rewrite rem_advance, E, drop_app_length'; [done|]. by rewrite length_be_bytes.
Qed.
Lemma in_width_16 v : in_width 16 v -> 0 <= v < 256 ^ Z.of_nat 2.
Proof. by intros [? ?]. Qed.
Lemma in_width_32 v : in_width 32 v -> 0 <= v < 256 ^ Z.of_nat 4.
Proof. by intros [? ?]. Qed.
Definition length_ok (l : list Z) : Prop := (0 < length l <= 255)%nat.
Lemma label_length_ok l : label_ok l -> length_ok l.
Proof. intros [? _]. unfold length_ok. lia. Qed.
Lemma size_left_rem_le b n l r : rem b = l ++ r -> length l = n -> (n <= size_left b)%nat.
Proof. intros E L. unfold size_left. pose proof (length_rem b) as Lr. rewrite E, length_app in Lr. case_bool_decide; lia. Qed.
Lemma name_loop_text fuel ls name b r : rem b = name_text ls ++ r -> Forall length_ok ls -> (length ls < fuel)%nat ->
  name_loop fuel name b = Done (Some (name ++ dotted ls), advance (length (name_text ls)) b).
Proof.
  revert ls name b. induction fuel as [|fuel IH]; intros ls name b E F Hf; [lia|]. cbn [name_loop]. destruct ls as [|l ls].
  - cbn in E. rewrite (deref_rem b 0 r E). cbn. by rewrite app_nil_r.
  - apply Forall_cons in F as [Fl F]. unfold name_text in E. cbn [fmap list_fmap concat] in E. unfold label_text at 1 in E. rewrite <- !app_assoc in E. cbn [app] in E.
    rewrite (deref_rem b _ _ E). cbn [obind]. unfold length_ok in Fl. rewrite (proj2 (Z.eqb_neq _ _)) by lia.
    assert (E1 : rem (advance 1 b) = l ++ (concat (label_text <$> ls) ++ [0] ++ r)) by (rewrite rem_advance, E; reflexivity).
    rewrite (proj2 (Z.ltb_ge _ _)) by (pose proof (size_left_rem_le _ _ _ _ E1 eq_refl); lia).
    fold (rem (advance 1 b)). rewrite Nat2Z.id, E1, take_app_length.
    rewrite (IH ls); [| |done|cbn in Hf; lia].
    + unfold dotted, name_text, label_text. cbn [fmap list_fmap concat]. rewrite <- !app_assoc, advance_advance, advance_advance. do 3 f_equal.
      cbn [app length]. rewrite !length_app. cbn [length]. lia.
    + rewrite rem_advance, E1, drop_app_length. unfold name_text. by rewrite <- app_assoc.
Qed.
Lemma name_labels_length ls : Forall length_ok ls -> (length ls < length (name_text ls))%nat.
Proof.
  intros F. unfold name_text. rewrite length_app. cbn. enough (length ls <= length (concat (label_text <$> ls)))%nat by lia.
  induction F as [|l ls Fl F IH]; cbn; [lia|]. rewrite length_app. lia.
Qed.
Lemma DecodeName_text ls b r : rem b = name_text ls ++ r -> Forall length_ok ls ->
  DecodeName false b = Done (Some (dotted ls), advance (length (name_text ls)) b).
Proof.
  intros E F. unfold DecodeName. pose proof (name_labels_length ls F) as Ln. pose proof (size_left_rem_le _ _ _ _ E eq_refl) as Ls.
  rewrite bool_decide_eq_false_2 by lia. rewrite (name_loop_text _ ls [] b r E F); [reflexivity|].
  unfold size_left in Ls. case_bool_decide; lia.
Qed.
Lemma Question_Decode_text w q b r : rem b = question_text w ++ r -> question_ok w ->
  exists b', Question_Decode q b = Done (true, question_of w, b') /\ rem b' = r.
Proof.
  intros E ([_ N] & Ht & Hc). unfold question_text in E. rewrite <- !app_assoc in E. unfold Question_Decode, read_uint16.
  rewrite (DecodeName_text _ b _ E) by (eapply Forall_impl; [exact N|apply label_length_ok]). cbn [obind].
  apply rem_app in E. destruct (read_text 2 _ _ _ E (in_width_16 _ Ht)) as [-> E1]. cbn.
  destruct (read_text 2 _ _ _ E1 (in_width_16 _ Hc)) as [-> E2]. eexists. by split.
Qed.
Lemma DecodeRData_text v w b r : rem b = be_bytes 2 (Z.of_nat (length v)) ++ v ++ r -> in_width 16 (Z.of_nat (length v)) ->
  exists b', DecodeRData w b = (true, v, b') /\ rem b' = r.
Proof.
  intros E Hv. unfold DecodeRData, read_uint16. destruct (read_text 2 _ _ _ E (in_width_16 _ Hv)) as [-> E1].
  rewrite (proj2 (Z.ltb_ge _ _)) by (pose proof (size_left_rem_le _ _ _ _ E1 eq_refl); lia). fold (rem (advance 2 b)).
  rewrite Nat2Z.id, E1, take_app_length. eexists. split; [reflexivity|]. by rewrite rem_advance, E1, drop_app_length.
Qed.
(** A record whose name is a pointer, or any two bytes *)
Lemma RR_Decode_text p w x b r : rem b = rr_text (be_bytes 2 p) w ++ r -> in_width 16 p -> rr_ok w ->
  exists b', RR_Decode x b = (true, rr_of (rr_name x) w, b') /\ rem b' = r.
Proof.
  intros E Hp (Ht & Hc & Hl & Hd). unfold rr_text in E. rewrite <- !app_assoc in E. unfold RR_Decode, read_uint16, read_uint32.
  destruct (read_text 2 _ _ _ E (in_width_16 _ Hp)) as [-> E1]. destruct (read_text 2 _ _ _ E1 (in_width_16 _ Ht)) as [-> E2].
  destruct (read_text 2 _ _ _ E2 (in_width_16 _ Hc)) as [-> E3]. destruct (read_text 4 _ _ _ E3 (in_width_32 _ Hl)) as [-> E4].
  cbn [rr_name rr_type rr_class ttl rData]. destruct (DecodeRData_text _ (rData x) _ _ E4 Hd) as (b' & -> & E5). exists b'. by split.
Qed.
Lemma decode_each_text {A B} (dec : A -> llarp_buffer_t -> outcome (bool * A * llarp_buffer_t)) (f : B -> A) (txt : B -> list Z) (P : B -> Prop) (x0 : A) l b r :
  (forall w b r, P w -> rem b = txt w ++ r -> exists b', dec x0 b = Done (true, f w, b') /\ rem b' = r) ->
  Forall P l -> rem b = concat (txt <$> l) ++ r ->
  exists b', decode_each dec (replicate (length l) x0) b = Done (true, f <$> l, b') /\ rem b' = r.
Proof.
  intros D. revert b. induction l as [|w l IH]; intros b F E; [by exists b|]. apply Forall_cons in F as [Fw F]. cbn in E. rewrite <- app_assoc in E.
  destruct (D w b _ Fw E) as (b1 & E1 & R1). destruct (IH b1 F R1) as (b' & E' & R'). exists b'. cbn. rewrite E1. cbn. rewrite E'. by split.
Qed.
Lemma Header_Decode_text id fields qd an ns ar b r : rem b = header_text id fields qd an ns ar ++ r -> Forall (in_width 16) [id; fields; qd; an; ns; ar] ->
  exists b', Header_Decode b = (Some (mkHeader id fields qd an ns ar), b') /\ rem b' = r.
Proof.
  intros E F. rewrite !Forall_cons in F. destruct F as (H1 & H2 & H3 & H4 & H5 & H6 & _). unfold header_text in E. rewrite <- !app_assoc in E. unfold Header_Decode, read_uint16.
  destruct (read_text 2 _ _ _ E (in_width_16 _ H1)) as [-> E1]. destruct (read_text 2 _ _ _ E1 (in_width_16 _ H2)) as [-> E2].
  destruct (read_text 2 _ _ _ E2 (in_width_16 _ H3)) as [-> E3]. destruct (read_text 2 _ _ _ E3 (in_width_16 _ H4)) as [-> E4].
  destruct (read_text 2 _ _ _ E4 (in_width_16 _ H5)) as [-> E5]. destruct (read_text 2 _ _ _ E5 (in_width_16 _ H6)) as [-> E6]. eexists. by split.
Qed.
(** Answers as other servers write them: the name is a pointer to the question's. *)
Definition response_text (id fields ns ar : Z) (qs : list WireQuestion) (ans : list (Z * WireRR)) : list Z :=
  header_text id fields (Z.of_nat (length qs)) (Z.of_nat (length ans)) ns ar ++ concat (question_text <$> qs) ++
  concat ((fun x => rr_text (be_bytes 2 x.1) x.2) <$> ans).
Lemma parse_text id fields ns ar qs ans r : Forall (in_width 16) [id; fields; Z.of_nat (length qs); Z.of_nat (length ans); ns; ar] ->
  Forall question_ok qs -> Forall (fun x => in_width 16 x.1 /\ rr_ok x.2) ans ->
  MaybeParseDNSMessage (response_text id fields ns ar qs ans ++ r) =
  Done (Some (mkMessage id fields (question_of <$> qs) ((fun x => rr_of [] x.2) <$> ans) (replicate (Z.to_nat ns) RR_new) (replicate (Z.to_nat ar) RR_new))).
Proof.
  intros Hh Fq Fa. unfold response_text. rewrite <- !app_assoc. unfold MaybeParseDNSMessage. set (b := Buf _ 0).
  destruct (Header_Decode_text id fields _ _ ns ar b _ eq_refl Hh) as (b1 & -> & R1). unfold Message_Decode, Message_of_header. cbn [questions answers qd_count an_count h_id h_fields ns_count ar_count].
  rewrite !Nat2Z.id.
  destruct (decode_each_text Question_Decode question_of question_text question_ok Question_new qs b1 _ (fun w b' r' Hw E => Question_Decode_text w _ b' r' E Hw) Fq R1) as (b2 & -> & R2).
  cbn [obind negb hdr_id hdr_fields answers authorities additional questions].
  assert (D : forall (x : Z * WireRR) b r, in_width 16 x.1 /\ rr_ok x.2 -> rem b = rr_text (be_bytes 2 x.1) x.2 ++ r ->
    exists b', Done (RR_Decode RR_new b) = Done (true, rr_of [] x.2, b') /\ rem b' = r).
  { intros [p w] b' r' [Hp Hr] E. cbn [fst snd] in *. destruct (RR_Decode_text p w RR_new b' r' E Hp Hr) as (b4 & -> & R4). by exists b4. }
  destruct (decode_each_text (fun r b => Done (RR_Decode r b)) _ _ _ RR_new ans b2 r D Fa R2) as (b3 & E3 & R3).
  rewrite E3. reflexivity.
Qed.

(** ** Round trip *)

Lemma owrites_region w txt n : owrites w txt -> (length txt <= n)%nat ->
  exists b, w (Buf (replicate n 0) 0) = Done (true, b) /\ take (cur b) (base b) = txt.
Proof.
  intros W L. destruct (W (Buf (replicate n 0) 0)) as (b & E & _ & _ & T & _); [unfold wf; cbn; lia|rewrite size_left_wf by (unfold wf; cbn; lia); unfold sz; cbn; rewrite length_replicate; lia|].
  by exists b.
Qed.
Definition forget_owners (m : Message) : Message :=
  mkMessage (hdr_id m) (hdr_fields m) (questions m) ((fun r => mkRR [] (rr_type r) (rr_class r) (ttl r) (rData r)) <$> answers m) (authorities m) (additional m).
Lemma ToBuffer_text id fields qs ans : message_ok id fields qs ans -> (length (message_text id fields qs ans) <= 1500)%nat ->
  ToBuffer (message_of id fields qs ans) = Done (Some (message_text id fields qs ans)).
Proof.
  intros Hm L. unfold ToBuffer. destruct (owrites_region _ _ 1500 (Message_Encode_writes id fields qs ans Hm) L) as (b & -> & E). cbn. by rewrite E.
Qed.
Lemma message_ok_header id fields qs ans : message_ok id fields qs ans ->
  Forall (in_width 16) [id; fields; Z.of_nat (length qs); Z.of_nat (length ans); 0; 0].
Proof. intros (? & ? & _ & _ & ? & ?). assert (in_width 16 0) by (unfold in_width; lia). by repeat (apply Forall_cons_2; [done|]). Qed.

(** C31: messages and the wire: a message whose names are lists of labels is sent as its
    text when it fits in a packet, a query is read back as it was, and a response whose
    answers point at their owner is read as the message but for the owners, whatever
    follows it in the packet. *)
Theorem dns_roundtrip id fields qs ans ptr r : message_ok id fields qs ans -> (length (message_text id fields qs ans) <= 1500)%nat -> in_width 16 ptr ->
  ToBuffer (message_of id fields qs ans) = Done (Some (message_text id fields qs ans)) /\
  (ans = [] -> MaybeParseDNSMessage (message_text id fields qs ans ++ r) = Done (Some (message_of id fields qs ans))) /\
  MaybeParseDNSMessage (response_text id fields 0 0 qs ((fun x => (ptr, x.2)) <$> ans) ++ r) = Done (Some (forget_owners (message_of id fields qs ans))).
Proof.
  intros Hm L Hp. pose proof (message_ok_header _ _ _ _ Hm) as Hh. destruct Hm as (Hi & Hf & Fq & Fa & Hq & Ha). split; [by apply ToBuffer_text|]. split.
  - intros ->. apply (parse_text id fields 0 0 qs [] r); done.
  - rewrite parse_text; [|by rewrite length_fmap|done|].
    + unfold forget_owners, message_of. cbn. do 3 f_equal. by rewrite <- !list_fmap_compose.
    + apply Forall_fmap. eapply Forall_impl; [exact Fa|]. intros x [_ ?]. by split.
Qed.

(** ** Replies *)

Lemma name_data_text prefix ls : name_ok ls -> (length prefix + length (name_text ls) <= 512)%nat ->
  name_data prefix (dotted ls) = Done (Some (prefix ++ name_text ls)).
Proof.
  intros N L. unfold name_data. set (b0 := Buf (replicate 512 0) 0). assert (W0 : wf b0) by (unfold wf; cbn; lia).
  assert (S0 : size_left b0 = 512%nat) by (rewrite size_left_wf by done; unfold sz; cbn [base b0 cur]; rewrite length_replicate; lia).
  assert (A : appends b0 prefix (blit b0 prefix)) by (apply blit_appends; [done|lia]).
  destruct (EncodeNameTo_writes ls N (blit b0 prefix) (appends_wf _ _ _ A)) as (b & -> & A2); [rewrite (appends_size_left _ _ _ W0 A); lia|].
  destruct (appends_app _ _ _ _ _ A A2) as (_ & _ & T & _). cbn [obind]. by rewrite T.
Qed.
(** The reply to a query with one question, sent *)
Lemma name_reply_sent prefix ls ty t id fields w : question_ok w -> name_ok ls -> (length prefix + length (name_text ls) <= 512)%nat ->
  let wr := mkWR (ty (question_of w)) qClassIN t (prefix ++ name_text ls) in
  let ans := [(wq_labels w, wr)] in
  name_reply prefix (dotted ls) ty t (message_of id fields [w] []) = Done (message_of id (reply_flags fields) [w] ans).
Proof. intros Hq N L. cbn. rewrite name_data_text by done. reflexivity. Qed.

Lemma log2_16 a : in_width 16 a -> Z.log2 a < 16.
Proof. intros [H0 H1]. destruct (Z.eq_dec a 0) as [->|N]; [by cbn|]. apply Z.log2_lt_pow2; lia. Qed.
Lemma lor_16 a b : in_width 16 a -> in_width 16 b -> in_width 16 (Z.lor a b).
Proof.
  intros Ha Hb. pose proof (log2_16 _ Ha). pose proof (log2_16 _ Hb). destruct Ha as [A0 A1], Hb as [B0 B1].
  assert (0 <= Z.lor a b) by (apply Z.lor_nonneg; lia). split; [done|]. destruct (Z.eq_dec (Z.lor a b) 0) as [->|N]; [done|].
  apply Z.log2_lt_pow2; [lia|]. rewrite Z.log2_lor by done. lia.
Qed.
Lemma reply_flags_16 f : in_width 16 f -> in_width 16 (reply_flags f).
Proof. intros Hf. unfold reply_flags. repeat apply lor_16; [done|split; vm_compute; congruence..]. Qed.
Lemma reply_flags_response f : Z.testbit (reply_flags f) 15 = true /\ forall i, 0 <= i -> i ∉ [15; 10; 7] -> Z.testbit (reply_flags f) i = Z.testbit f i.
Proof.
  unfold reply_flags, flags_QR, flags_AA, flags_RA. rewrite !Z.shiftl_1_l. split; [rewrite !Z.lor_spec, (Z.pow2_bits_true 15) by lia; by rewrite orb_true_r|].
  intros i Hi N. rewrite !Z.lor_spec, !Z.pow2_bits_false, !orb_false_r by set_solver. done.
Qed.
Lemma length_one_question id fields w ans : length (message_text id fields [w] ans) =
  (16 + length (name_text (wq_labels w)) + length (concat ((fun x => rr_text (name_text x.1) x.2) <$> ans)))%nat.
Proof. unfold message_text, header_text, question_text. cbn [fmap list_fmap concat]. rewrite !length_app, !length_be_bytes. cbn [length]. lia. Qed.
(** One answer with its question's name *)
Lemma one_answer_sent id f w wr : in_width 16 id -> in_width 16 f -> question_ok w -> rr_ok wr -> (length (name_text (wq_labels w)) <= 255)%nat ->
  (length (wr_data wr) <= 514)%nat ->
  ToBuffer (message_of id f [w] [(wq_labels w, wr)]) = Done (Some (message_text id f [w] [(wq_labels w, wr)])).
Proof.
  intros Hi Hf Hw Hr L Ld. apply ToBuffer_text.
  - split; [done|]. split; [done|]. split; [by constructor|]. split; [|by split].
    constructor; [|done]. split; [apply Hw|done].
  - rewrite length_one_question. unfold rr_text. cbn [fmap list_fmap concat fst snd]. rewrite !length_app, !length_be_bytes. cbn [length]. lia.
Qed.


(** ** The parser ends *)

Definition moves (b b' : llarp_buffer_t) : Prop := base b' = base b /\ (cur b <= cur b')%nat /\ wf b'.
(** The bytes at or after position [c] are labels up to the end. *)
Definition cut_in_name (l : list Z) (c : nat) : Prop :=
  exists pre ls, l = pre ++ concat (label_text <$> ls) /\ (c <= length pre)%nat /\ ls <> [] /\ Forall length_ok ls.
Definition runs {A} (b : llarp_buffer_t) (o : outcome (A * llarp_buffer_t)) : Prop :=
  match o with Timeout => False | Fault => cut_in_name (base b) (cur b) | Done (_, b') => moves b b' end.
Lemma moves_refl b : wf b -> moves b b.
Proof. by repeat split. Qed.
Lemma moves_trans b1 b2 b3 : moves b1 b2 -> moves b2 b3 -> moves b1 b3.
Proof. intros (E1 & L1 & _) (E2 & L2 & W). repeat split; [congruence|lia|done]. Qed.
Lemma cut_earlier l c c' : (c <= c')%nat -> cut_in_name l c' -> cut_in_name l c.
Proof. intros L (pre & ls & E & Lp & R). exists pre, ls. split; [done|]. split; [lia|done]. Qed.
Lemma runs_moves {A} b b' (o : outcome (A * llarp_buffer_t)) : moves b b' -> runs b' o -> runs b o.
Proof.
  intros M. destruct o as [[x b2]| |]; cbn; [by apply moves_trans| |done]. destruct M as (E & L & _). rewrite E. by apply cut_earlier.
Qed.
Lemma runs_bind {A B} b (o : outcome (A * llarp_buffer_t)) (k : A * llarp_buffer_t -> outcome (B * llarp_buffer_t)) :
  runs b o -> (forall x b', moves b b' -> runs b' (k (x, b'))) -> runs b (obind o k).
Proof. destruct o as [[x b']| |]; cbn; [|done|done]. intros M K. eapply runs_moves; [exact M|]. by apply K. Qed.
Lemma read_moves n b : wf b -> moves b (read n b).2.
Proof.
  intros W. unfold read. case_bool_decide; cbn; [by apply moves_refl|]. repeat split; [cbn; lia|]. rewrite size_left_wf in * by done. unfold wf, sz in *. cbn. lia.
Qed.
Lemma read_cases n b : wf b -> exists v b', read n b = (v, b') /\ moves b b'.
Proof. intros W. pose proof (read_moves n b W) as M. destruct (read n b) as [v b']. by exists v, b'. Qed.
Lemma name_loop_runs fuel name b : wf b -> bytes_ok (base b) -> (length (rem b) < fuel)%nat ->
  match name_loop fuel name b with
  | Timeout => False
  | Fault => exists ls, rem b = concat (label_text <$> ls) /\ Forall length_ok ls
  | Done (_, b') => moves b b'
  end.
Proof.
  revert name b. induction fuel as [|fuel IH]; intros name b W B Hf; [lia|]. cbn [name_loop]. destruct (rem b) as [|l r] eqn:E.
  { assert (sz b = cur b) as Ec by (pose proof (length_rem b) as L; rewrite E in L; cbn in L; unfold wf in W; lia).
    unfold deref. rewrite lookup_ge_None_2 by (unfold sz in *; lia). cbn. by exists []. }
  rewrite (deref_rem _ _ _ E). cbn [obind]. assert (W1 : wf (advance 1 b)) by (apply advance_wf; [done|]; rewrite E; cbn; lia).
  assert (R1 : rem (advance 1 b) = r) by (rewrite rem_advance, E; done). assert (M1 : moves b (advance 1 b)) by (repeat split; [cbn; lia|done]).
  destruct (Z.eqb_spec l 0) as [->|N]; [done|]. destruct (Z.ltb_spec (Z.of_nat (size_left (advance 1 b))) l) as [Hl|Hl]; [done|].
  assert (0 <= l < 256) as Hb. { pose proof (Forall_drop _ (cur b) _ B) as Bd. fold (rem b) in Bd. rewrite E in Bd. apply Forall_cons in Bd as [Bl _]. exact Bl. }
  rewrite size_left_rem, R1 in Hl by done. set (k := Z.to_nat l) in *. assert (W2 : wf (advance k (advance 1 b))) by (apply advance_wf; [done|]; rewrite R1; lia).
  assert (R2 : rem (advance k (advance 1 b)) = drop k r) by (by rewrite rem_advance, R1).
  specialize (IH (name ++ take k (drop (cur (advance 1 b)) (base (advance 1 b))) ++ [ch_dot]) _ W2 B). rewrite R2, length_drop in IH. cbn in Hf.
  specialize (IH ltac:(lia)). destruct (name_loop fuel _ _) as [[o b']| |]; [|destruct IH as (ls & Els & F)|done].
  - eapply moves_trans; [exact M1|]. eapply moves_trans; [|exact IH]. repeat split; [cbn; lia|done].
  - exists (take k r :: ls). split; [|constructor; [unfold length_ok; rewrite length_take; lia|done]].
    cbn [fmap list_fmap concat]. unfold label_text at 1. rewrite length_take, Nat.min_l by lia. unfold k at 1. rewrite Z2Nat.id by lia. cbn [app]. by rewrite <- Els, take_drop.
Qed.
Lemma DecodeName_runs b : wf b -> bytes_ok (base b) -> runs b (DecodeName false b).
Proof.
  intros W B. unfold DecodeName. case_bool_decide as Hl; [by apply moves_refl|]. rewrite size_left_rem in Hl by done.
  pose proof (name_loop_runs (S (S (sz b))) [] b W B) as R. rewrite length_rem in R. specialize (R ltac:(lia)).
  destruct (name_loop _ _ _) as [[[n|] b']| |]; [exact R|exact R| |exact R]. destruct R as (ls & E & F). exists (take (cur b) (base b)), ls.
  rewrite <- E. unfold rem. rewrite take_drop, length_take. unfold wf, sz in W. split; [done|]. split; [lia|]. split; [|done]. intros ->. rewrite E in Hl. cbn in Hl. lia.
Qed.
Lemma Question_Decode_runs q b : wf b -> bytes_ok (base b) -> runs b (Question_Decode q b).
Proof.
  intros W B. apply runs_bind; [by apply DecodeName_runs|]. intros [n|] b1 M1; [|apply moves_refl; apply M1]. unfold read_uint16.
  destruct (read_cases 2 b1 (proj2 (proj2 M1))) as ([v|] & b2 & -> & M2); [|exact M2].
  destruct (read_cases 2 b2 (proj2 (proj2 M2))) as ([v2|] & b3 & -> & M3); cbn [runs]; by eapply moves_trans.
Qed.
Lemma RR_Decode_runs r b : wf b -> runs b (Done (RR_Decode r b)).
Proof.
  intros W. unfold RR_Decode, read_uint16, read_uint32.
  destruct (read_cases 2 b W) as ([v|] & b1 & -> & M1); [|exact M1]. eapply runs_moves; [exact M1|]. clear W. destruct M1 as (_ & _ & W).
  destruct (read_cases 2 b1 W) as ([v1|] & b2 & -> & M2); [|exact M2]. eapply runs_moves; [exact M2|]. clear W. destruct M2 as (_ & _ & W).
  destruct (read_cases 2 b2 W) as ([v2|] & b3 & -> & M3); [|exact M3]. eapply runs_moves; [exact M3|]. clear W. destruct M3 as (_ & _ & W).
  destruct (read_cases 4 b3 W) as ([v3|] & b4 & -> & M4); [|exact M4]. eapply runs_moves; [exact M4|]. clear W. destruct M4 as (_ & _ & W).
  unfold DecodeRData, read_uint16. destruct (read_cases 2 b4 W) as ([v4|] & b5 & -> & M5); [|exact M5]. eapply runs_moves; [exact M5|]. clear W. destruct M5 as (_ & _ & W).
  destruct (Z.ltb_spec (Z.of_nat (size_left b5)) v4); cbn [runs]; [by apply moves_refl|]. rewrite size_left_wf in * by done. unfold wf, sz in *.
  repeat split; unfold wf, sz; cbn; lia.
Qed.
Lemma decode_each_runs {A} (dec : A -> llarp_buffer_t -> outcome (bool * A * llarp_buffer_t)) l :
  (forall x b, wf b -> bytes_ok (base b) -> runs b (dec x b)) -> forall b, wf b -> bytes_ok (base b) -> runs b (decode_each dec l b).
Proof.
  intros D. induction l as [|x l IH]; intros b W B; [by apply moves_refl|]. cbn [decode_each].
  apply (runs_bind b (dec x b)); [by apply D|]. intros [ok x'] b' M. destruct M as (E & L & W'). assert (B' : bytes_ok (base b')) by (by rewrite E).
  destruct ok; cbn [negb]; [|by apply moves_refl]. apply runs_bind; [by apply IH|]. intros [ok2 l'] b2 M2. apply moves_refl, M2.
Qed.
Lemma Header_Decode_moves b : wf b -> moves b (Header_Decode b).2 /\ (is_Some (Header_Decode b).1 -> (cur b + 12 <= cur (Header_Decode b).2)%nat).
Proof.
  intros W. unfold Header_Decode, read_uint16.
  assert (R : forall b, wf b -> exists v b', read 2 b = (v, b') /\ moves b b' /\ (is_Some v -> cur b' = (cur b + 2)%nat)).
  { intros c Wc. destruct (read_cases 2 c Wc) as (v & b' & E & M). exists v, b'. split; [done|]. split; [done|]. unfold read in E. case_bool_decide; injection E as <- <-; [by intros [? ?]|done]. }
  destruct (R b W) as ([v|] & b1 & -> & M1 & C1); [|split; [exact M1|by intros [? ?]]].
  destruct (R b1) as ([v1|] & b2 & -> & M2 & C2); [apply M1| |split; [by eapply moves_trans|by intros [? ?]]]. pose proof (moves_trans _ _ _ M1 M2).
  destruct (R b2) as ([v2|] & b3 & -> & M3 & C3); [apply M2| |split; [by eapply moves_trans|by intros [? ?]]]. pose proof (moves_trans b _ _ ltac:(done) M3).
  destruct (R b3) as ([v3|] & b4 & -> & M4 & C4); [apply M3| |split; [by eapply moves_trans|by intros [? ?]]]. pose proof (moves_trans b _ _ ltac:(done) M4).
  destruct (R b4) as ([v4|] & b5 & -> & M5 & C5); [apply M4| |split; [by eapply moves_trans|by intros [? ?]]]. pose proof (moves_trans b _ _ ltac:(done) M5).
  destruct (R b5) as ([v5|] & b6 & -> & M6 & C6); [apply M5| |split; [by eapply moves_trans|by intros [? ?]]]. split; [by eapply moves_trans|]. intros _. cbn.
  rewrite C6, C5, C4, C3, C2, C1 by done. lia.
Qed.

(** C32: every packet is parsed to its end: the parser always returns, and it reads
    outside the packet only when the packet ends inside a name, its bytes after the
    header ending in labels without the zero that closes them. *)
Theorem dns_parse_total bytes : bytes_ok bytes ->
  match MaybeParseDNSMessage bytes with
  | Done _ => True
  | Fault => cut_in_name bytes 12
  | Timeout => False
  end.
Proof.
  intros B. unfold MaybeParseDNSMessage. assert (W : wf (Buf bytes 0)) by (unfold wf; cbn; lia). destruct (Header_Decode_moves _ W) as [M C].
  destruct (Header_Decode (Buf bytes 0)) as [[h|] b]; [|done]. cbn [fst snd] in *. destruct M as (E & _ & Wb). cbn in E.
  assert (Bb : bytes_ok (base b)) by (by rewrite E). specialize (C ltac:(done)). cbn in C.
  assert (R : runs b (Message_Decode (Message_of_header h) b)).
  { apply runs_bind; [apply decode_each_runs; [apply Question_Decode_runs|done|done]|]. intros [[] qs] b1 (E1 & L1 & W1); cbn [negb]; [|by apply moves_refl].
    apply runs_bind; [apply decode_each_runs; [intros; by apply RR_Decode_runs|done|by rewrite E1]|]. intros [ok an] b2 M2. apply moves_refl, M2. }
  destruct (Message_Decode _ b) as [[[ok m] b']| |]; cbn [obind]; [done| |exact R]. cbn [runs] in R. rewrite E in R. by eapply cut_earlier.
Qed.
(** And such packets exist: a query whose only name is cut *)
Lemma cut_name_read_past_end id fields an ns ar ls : Forall (in_width 16) [id; fields; 1; an; ns; ar] -> ls <> [] -> Forall length_ok ls ->
  MaybeParseDNSMessage (header_text id fields 1 an ns ar ++ concat (label_text <$> ls)) = Fault.
Proof.
  intros Hh N F. unfold MaybeParseDNSMessage. set (b := Buf _ 0). destruct (Header_Decode_text id fields 1 an ns ar b _ eq_refl Hh) as (b1 & -> & R1).
  unfold Message_Decode, Message_of_header. cbn [questions qd_count]. change (Z.to_nat 1) with 1%nat. cbn [replicate decode_each]. unfold Question_Decode.
  enough (DecodeName false b1 = Fault) as -> by done. unfold DecodeName.
  assert (W1 : wf b1) by (destruct ls as [|l ls]; [done|]; cbn in R1; by eapply rem_wf).
  assert (L : forall fuel ls name b, rem b = concat (label_text <$> ls) -> wf b -> Forall length_ok ls -> (length ls < fuel)%nat -> name_loop fuel name b = Fault).
  { clear. induction fuel as [|fuel IH]; intros ls name b E W F Hf; [lia|]. cbn [name_loop]. destruct ls as [|l ls].
    - pose proof (length_rem b) as L. rewrite E in L. cbn in L. unfold deref. rewrite lookup_ge_None_2 by (unfold wf, sz in *; lia). done.
    - apply Forall_cons in F as [Fl F]. cbn [fmap list_fmap concat] in E. unfold label_text at 1 in E. cbn [app] in E. rewrite (deref_rem _ _ _ E). cbn [obind]. unfold length_ok in Fl.
      rewrite (proj2 (Z.eqb_neq _ _)) by lia. assert (E1 : rem (advance 1 b) = l ++ concat (label_text <$> ls)) by (by rewrite rem_advance, E).
      rewrite (proj2 (Z.ltb_ge _ _)) by (pose proof (size_left_rem_le _ _ _ _ E1 eq_refl); lia). rewrite Nat2Z.id. apply (IH ls); [by apply rem_app| |done|cbn in Hf; lia].
      apply advance_wf; [apply advance_wf; [done|rewrite E; cbn; lia]|rewrite E1, length_app; lia]. }
  assert (Ln : (length ls <= length (rem b1))%nat) by (pose proof (name_labels_length ls F) as Ln; rewrite R1; unfold name_text in Ln; rewrite length_app in Ln; cbn in Ln; lia).
  rewrite bool_decide_eq_false_2 by (rewrite size_left_rem by done; destruct ls; [done|cbn in Ln |- *; lia]). rewrite length_rem in Ln.
  rewrite (L _ ls); [done|exact R1|done|done|lia].
Qed.
End Wire.

(** ** Witnesses *)

#[local] Instance be_oxenc : Buffer.Oxenc := {| write_host_as_big := be_bytes; load_big_to_host _ l := be_value l |}.
#[local] Instance be_oxenc_spec : Buffer.OxencSpec.
Proof. by split. Qed.
#[local] Instance be_swap : OxencSwap := {| big_to_host n v := be_value (rev (be_bytes n v)); host_to_big n v := be_value (rev (be_bytes n v)) |}.
(** [a.bdx.] *)
Definition demo_labels : list (list Z) := [[97]; [98; 100; 120]].
Definition demo_question : WireQuestion := mkWQ demo_labels qTypeA qClassIN.
Lemma demo_labels_ok : name_ok demo_labels.
Proof. split; [done|]. repeat constructor; cbn; try lia; unfold ch_dot; set_solver. Qed.
Lemma demo_question_ok : question_ok demo_question.
Proof. split; [apply demo_labels_ok|]. repeat split; by vm_compute. Qed.

Lemma dns_roundtrip_witness :
  ToBuffer (message_of 7 256 [demo_question] []) = Done (Some (message_text 7 256 [demo_question] [])) /\
  MaybeParseDNSMessage (message_text 7 256 [demo_question] [] ++ [9]) = Done (Some (message_of 7 256 [demo_question] [])) /\
  MaybeParseDNSMessage (response_text 7 256 0 0 [demo_question] [(49164, mkWR 1 1 60 [10; 0; 0; 1])] ++ [9]) =
    Done (Some (mkMessage 7 256 [question_of demo_question] [mkRR [] 1 1 60 [10; 0; 0; 1]] [] [])).
Proof.
  assert (forall ans, Forall (fun x : list (list Z) * WireRR => name_ok x.1 /\ rr_ok x.2) ans -> in_width 16 (Z.of_nat (length ans)) -> message_ok 7 256 [demo_question] ans) as Hm.
  { intros ans F L. split; [by vm_compute|]. split; [by vm_compute|]. split; [constructor; [apply demo_question_ok|done]|]. split; [done|]. split; [by vm_compute|done]. }
  destruct (dns_roundtrip 7 256 [demo_question] [] 49164 [9] (Hm [] (Forall_nil_2 _) ltac:(by vm_compute)) ltac:(apply leb_complete; by vm_compute) ltac:(by vm_compute)) as (E1 & E2 & _).
  split; [exact E1|]. split; [exact (E2 eq_refl)|]. clear E1 E2.
  refine (proj2 (proj2 (dns_roundtrip 7 256 [demo_question] [(demo_labels, mkWR 1 1 60 [10; 0; 0; 1])] 49164 [9] (Hm _ _ _) _ _))).
  - constructor; [|done]. split; [apply demo_labels_ok|]. repeat split; by vm_compute.
  - by vm_compute.
  - apply leb_complete; by vm_compute.
  - by vm_compute.
Defined.
Lemma dns_parse_total_witness :
  let bytes := header_text 7 256 1 0 0 0 ++ [3; 98; 100; 120] in
  MaybeParseDNSMessage bytes = Fault /\ cut_in_name bytes 12.
Proof.
  intros bytes. assert (E : MaybeParseDNSMessage bytes = Fault) by (by vm_compute). split; [exact E|].
  pose proof (dns_parse_total bytes) as T. rewrite E in T. apply T. repeat constructor; by vm_compute.
Defined.
