(* ===== verification/DnsNames.v ===== *)
(** * Reverse names

    The names of RFC 1035 and RFC 3596 for addresses, read back by [DecodePTR]; what
    the name routines do with names that are not lists of labels. *)

From S2P Require Import Prelude Buffer Text Bencode Codec Uint128 Contact Dns DnsProofs.
Open Scope Z_scope.

(** ** Searches *)

Lemma str_find_pattern c0 c1 t pre rest : c1 ∉ pre -> c0 <> c1 -> str_find (pre ++ c0 :: c1 :: t ++ rest) (c0 :: c1 :: t) = Some (length pre).
Proof.
  intros N Nc. induction pre as [|d pre IH].
  - cbn [app str_find]. unfold starts_with. cbn [length take]. rewrite take_app_length, bool_decide_eq_true_2 by done. done.
  - cbn [app str_find]. unfold starts_with. rewrite bool_decide_eq_false_2; [rewrite IH by set_solver; done|].
    destruct pre as [|e pre]; cbn [app length take]; intros [=]; set_solver.
Qed.
Lemma str_find_absent c s t : c ∈ t -> c ∉ s -> str_find s t = None.
Proof.
  intros Ht. induction s as [|d s IH]; intros N; cbn [str_find]; unfold starts_with; (rewrite bool_decide_eq_false_2; [try (rewrite IH by set_solver)|]); try done.
  - rewrite take_nil. intros E. rewrite <- E in Ht. set_solver.
  - intros E. rewrite <- E in Ht. apply N. apply elem_of_take in Ht as (i & Hi & _). by eapply list_elem_of_lookup_2.
Qed.

(** ** Octets *)

Lemma digits_of_digits ds : Forall (fun c => isdigit c = true) ds -> digits_of ds = ((fun c => c - 48) <$> ds, []).
Proof.
  induction 1 as [|c ds Hc F IH]; [done|]. cbn [digits_of]. unfold digit_of. unfold isdigit in Hc. rewrite Hc, IH. done.
Qed.
Lemma decimal_digits ds v : foldl (fun v d => 10 * v + d) v ((fun c => c - 48) <$> ds) = fold_left (fun acc c => acc * 10 + (c - 48)) ds v.
Proof. revert v. induction ds as [|c ds IH]; intros v; [done|]. cbn [fmap list_fmap foldl fold_left]. rewrite <- IH. f_equal. lia. Qed.
Lemma parse_uint_dec w v : 0 <= v < 2 ^ w -> v < 10 ^ 19 -> parse_uint w (dec v) = Some v.
Proof.
  intros Hv H19. unfold parse_uint. rewrite digits_of_digits by apply dec_digits. unfold decimal. rewrite decimal_digits. fold (digits_value (dec v)). rewrite dec_value by lia.
  rewrite bool_decide_eq_false_2; [|intros E; apply fmap_nil_inv in E; pose proof (length_dec v 18) as L; rewrite E in L; cbn in L; lia].
  rewrite (proj2 (Z.leb_gt _ _)) by lia. done.
Qed.
Lemma digits_without ds c : Forall (fun c => isdigit c = true) ds -> isdigit c = false -> c ∉ ds.
Proof. intros F Hc Hi. rewrite Forall_forall in F. specialize (F c Hi). congruence. Qed.
Lemma dec_without v c : isdigit c = false -> c ∉ dec v.
Proof. apply digits_without, dec_digits. Qed.
Lemma ptr_octets_dec l : Forall (fun v => 0 <= v < 256) l -> ptr_octets (length l) (dotted (dec <$> l)) = Some l.
Proof.
  induction 1 as [|v l Hv F IH]; [done|]. unfold dotted. cbn [fmap list_fmap concat length ptr_octets]. rewrite <- app_assoc. cbn [app].
  rewrite str_find_char by (by apply dec_without). change (default ?x (Some ?y)) with y. cbv beta iota zeta. rewrite take_app_length, parse_uint_dec by lia.
  replace (drop (S (length (dec v))) _) with (dotted (dec <$> l)); [by rewrite IH|]. rewrite drop_app_ge by lia. replace (S (length (dec v)) - length (dec v))%nat with 1%nat by lia. done.
Qed.
Lemma no_dots l : ch_dot ∉ l -> filter (fun c => c = ch_dot) l = [].
Proof. induction l as [|c l IH]; intros N; [done|]. rewrite filter_cons_False by set_solver. apply IH. set_solver. Qed.
Lemma dots_of_dotted ls : Forall (fun l => ch_dot ∉ l) ls -> length (filter (fun c => c = ch_dot) (dotted ls)) = length ls.
Proof.
  induction 1 as [|l ls Hl F IH]; [done|]. unfold dotted in *. cbn [fmap list_fmap concat length]. rewrite !filter_app, !length_app, IH, no_dots by done. done.
Qed.

(** ** Nibbles *)

Definition hexd (v : Z) : Z := if v <? 10 then 48 + v else 87 + v.
(** Each byte's low nibble and its high one, with a dot after each *)
Definition nibble_text (bytes : list Z) : list Z := concat ((fun b => [hexd (b mod 16); ch_dot; hexd (b / 16); ch_dot]) <$> bytes).
Lemma hex_value_hexd v : 0 <= v < 16 -> hex_value (hexd v) = Some v.
Proof.
  intros Hv. unfold hex_value, hexd. destruct (Z.ltb_spec v 10).
  - rewrite (proj2 (Z.leb_le _ _)), (proj2 (Z.leb_le _ _)) by lia. cbn. f_equal. lia.
  - rewrite (proj2 (Z.leb_gt (87 + v) 57)) by lia. rewrite andb_false_r, (proj2 (Z.leb_le _ _)), (proj2 (Z.leb_le _ _)) by lia. cbn. f_equal. lia.
Qed.
Lemma hexd_range v : 0 <= v < 16 -> 48 <= hexd v <= 57 \/ 97 <= hexd v <= 102.
Proof. unfold hexd. destruct (Z.ltb_spec v 10); lia. Qed.
Lemma nibbles_range b : is_byte b -> 0 <= b mod 16 < 16 /\ 0 <= b / 16 < 16.
Proof. unfold is_byte. intros Hb. split; [apply Z.mod_pos_bound; lia|]. split; [apply Z.div_pos; lia|apply Z.div_lt_upper_bound; lia]. Qed.
Lemma nibble_text_without c bytes : bytes_ok bytes -> c <> ch_dot -> ~ (48 <= c <= 57 \/ 97 <= c <= 102) -> c ∉ nibble_text bytes.
Proof.
  intros F Nd Nh. induction F as [|b bytes Hb F IH]; [set_solver|]. unfold nibble_text in *. cbn [fmap list_fmap concat]. destruct (nibbles_range b Hb) as [H1 H2].
  pose proof (hexd_range _ H1). pose proof (hexd_range _ H2). rewrite elem_of_app. intros [Hi|Hi]; [|by apply IH]. rewrite !elem_of_cons, elem_of_nil in Hi. naive_solver lia.
Qed.
Lemma nibble_text_dots bytes : bytes_ok bytes -> length (filter (fun c => c = ch_dot) (nibble_text bytes)) = (2 * length bytes)%nat.
Proof.
  induction 1 as [|b bytes Hb F IH]; [done|]. unfold nibble_text in *. cbn [fmap list_fmap concat length]. destruct (nibbles_range b Hb) as [H1 H2].
  pose proof (hexd_range _ H1). pose proof (hexd_range _ H2). unfold ch_dot in *. rewrite filter_app, filter_cons_False by lia.
  rewrite filter_cons_True by lia. rewrite filter_cons_False, filter_cons_True, length_app, IH by lia. cbn. lia.
Qed.
Lemma nibble_text_length bytes : length (nibble_text bytes) = (4 * length bytes)%nat.
Proof. unfold nibble_text. induction bytes as [|b bytes IH]; [done|]. cbn [fmap list_fmap concat]. rewrite length_app, IH. cbn. lia. Qed.
Lemma ptr_nibbles_text `{OxencHexSpec} bytes : bytes_ok bytes -> exists hex, ptr_nibbles (nibble_text bytes) = Some hex /\ from_hex hex = bytes.
Proof.
  induction 1 as [|b bytes Hb F (hex & E & V)]; [exists []; split; [done|apply from_hex_nil]|]. destruct (nibbles_range b Hb) as [H1 H2].
  pose proof (hex_value_hexd _ H1) as X1. pose proof (hex_value_hexd _ H2) as X2.
  unfold nibble_text in *. cbn [fmap list_fmap concat app ptr_nibbles]. rewrite !is_hex_digit_spec, X1, X2, E, Z.eqb_refl, !bool_decide_eq_true_2 by done. cbn [andb fmap option_fmap option_map].
  eexists. split; [reflexivity|]. rewrite (from_hex_cons _ _ _ _ _ X2 X1), V. f_equal. symmetry. apply Z.div_mod. lia.
Qed.
Lemma be_value_le_bytes v : in_width 64 v -> be_value (reverse (le_bytes 8 v)) = v.
Proof. intros Hv. unfold reverse, le_bytes. rewrite <- rev_alt, rev_involutive. by apply be_value_be_bytes. Qed.

(** The reverse name of an IPv4 address [a.b.c.d] and of an IPv6 address, whose memory
    holds its lowest byte first *)
Definition reverse_name4 (a b c d : Z) : list Z := dotted (dec <$> [d; c; b; a]) ++ drop 1 in_addr_arpa.
Definition reverse_name6 (ip : uint128_t) : list Z := nibble_text (memory128 ip) ++ drop 1 ip6_arpa.
Lemma memory128_ok ip : bytes_ok (memory128 ip).
Proof. unfold memory128, le_bytes. apply Forall_app. split; apply Forall_rev, be_bytes_ok. Qed.
Lemma memory128_length ip : length (memory128 ip) = 16%nat.
Proof. unfold memory128, le_bytes. by rewrite length_app, !length_rev, !length_be_bytes. Qed.
Lemma nibbles_snoc bytes : bytes <> [] -> exists pre, nibble_text bytes = pre ++ [ch_dot] /\ length (nibble_text bytes) = S (length pre) /\ forall c, c ∈ pre -> c ∈ nibble_text bytes.
Proof.
  intros N. destruct (exists_last N) as (l & b & ->). unfold nibble_text. rewrite fmap_app, concat_app. cbn [fmap list_fmap concat].
  exists (concat ((fun b => [hexd (b mod 16); ch_dot; hexd (b / 16); ch_dot]) <$> l) ++ [hexd (b mod 16); ch_dot; hexd (b / 16)]).
  rewrite <- app_assoc. split; [done|]. split; [rewrite !length_app; cbn; lia|]. intros c. rewrite !elem_of_app. set_solver.
Qed.

Lemma join_without c x l : c <> x -> Forall (fun p => c ∉ p) l -> c ∉ join x l.
Proof.
  intros N. induction 1 as [|p l Hp F IH]; [cbn; set_solver|]. destruct (decide (l = [])) as [->|Nl]; [done|]. rewrite join_cons by done. set_solver.
Qed.

Section Ptr.
Context `{OxencHexSpec}.

(** Reverse names are read as the addresses they are the names of, IPv4 and IPv6,
    with the dot of the root at their end or without it. *)
Theorem ptr_roundtrip a b c d ip root : Forall is_byte [a; b; c; d] -> wf128 ip -> root ∈ [[]; [ch_dot]] ->
  DecodePTR (reverse_name4 a b c d ++ root) = Some (ExpandV4 (ipaddr_ipv4_bits a b c d)) /\
  DecodePTR (reverse_name6 ip ++ root) = Some ip.
Proof.
  intros F W R. split.
  - unfold reverse_name4. rewrite dotted_join by done. set (pre := join ch_dot _). unfold DecodePTR.
    assert (N : 105 ∉ pre) by (apply join_without; [done|]; repeat constructor; by apply dec_without).
    rewrite <- !app_assoc. change ([ch_dot] ++ drop 1 in_addr_arpa ++ root) with (46 :: 105 :: drop 2 in_addr_arpa ++ root).
    change in_addr_arpa with (46 :: 105 :: drop 2 in_addr_arpa) at 2. rewrite str_find_pattern by done.
    replace (take (S (length pre)) _) with (pre ++ [ch_dot]) by (rewrite take_app_ge by lia; by replace (S (length pre) - length pre)%nat with 1%nat by lia).
    unfold pre. rewrite <- dotted_join by done. rewrite dots_of_dotted by (repeat constructor; by apply dec_without). rewrite bool_decide_eq_true_2 by done.
    pose proof (ptr_octets_dec [d; c; b; a]) as O. cbn [length] in O. rewrite O; [done|]. rewrite !Forall_cons in F. unfold is_byte in F. repeat constructor; lia.
  - unfold reverse_name6. pose proof (memory128_ok ip) as B. pose proof (memory128_length ip) as L. destruct (nibbles_snoc (memory128 ip)) as (pre & Ep & Lp & Hi); [by destruct (memory128 ip)|].
    destruct (ptr_nibbles_text _ B) as (hex & Eh & Vh). pose proof (nibble_text_dots _ B) as D. pose proof (nibble_text_length (memory128 ip)) as Ln. rewrite L in D, Ln.
    assert (N : 105 ∉ pre) by (intros X; apply Hi in X; revert X; apply nibble_text_without; [done|done|lia]).
    assert (N' : 110 ∉ nibble_text (memory128 ip)) by (apply nibble_text_without; [done|done|lia]). unfold DecodePTR.
    rewrite (str_find_absent 110); [|unfold in_addr_arpa; set_solver|rewrite !elem_of_app; unfold ip6_arpa; cbn [drop]; rewrite !elem_of_cons in R; destruct R as [->|[->|R]]; set_solver].
    rewrite Ep, <- !app_assoc. change ([ch_dot] ++ drop 1 ip6_arpa ++ root) with (46 :: 105 :: drop 2 ip6_arpa ++ root).
    change ip6_arpa with (46 :: 105 :: drop 2 ip6_arpa) at 2. rewrite str_find_pattern by done.
    replace (take (S (length pre)) _) with (pre ++ [ch_dot]) by (rewrite take_app_ge by lia; by replace (S (length pre) - length pre)%nat with 1%nat by lia).
    rewrite <- Ep, D, Ln, !bool_decide_eq_true_2 by done. cbn [andb]. rewrite Eh, Vh. unfold memory128 in *. rewrite drop_app_length' by (unfold le_bytes; by rewrite length_rev, length_be_bytes).
    rewrite (take_ge (le_bytes 8 (upper ip))) by (unfold le_bytes; rewrite length_rev, length_be_bytes; lia). rewrite take_app_length' by (unfold le_bytes; by rewrite length_rev, length_be_bytes).
    destruct W as [Wu Wl]. rewrite !be_value_le_bytes by done. by destruct ip.
Qed.
End Ptr.

(** A reading of oxenc's hexadecimal routines *)
Fixpoint hex_pairs (l : list Z) : list Z :=
  match l with a :: b :: l => 16 * default 0 (hex_value a) + default 0 (hex_value b) :: hex_pairs l | _ => [] end.
#[local] Instance demo_hex : OxencHex := {| is_hex_digit c := bool_decide (is_Some (hex_value c)); from_hex := hex_pairs |}.
#[local] Instance demo_hex_spec : OxencHexSpec.
Proof. split; [done|done|]. intros a b x y l Ha Hb. cbn. by rewrite Ha, Hb. Qed.
Lemma ptr_roundtrip_witness :
  DecodePTR (reverse_name4 10 1 2 254 ++ [ch_dot]) = Some (U128 0 0xffff0a0102fe) /\
  DecodePTR (reverse_name6 (U128 0xfd00 0x1234) ++ [ch_dot]) = Some (U128 0xfd00 0x1234).
Proof.
  assert (E : ExpandV4 (ipaddr_ipv4_bits 10 1 2 254) = U128 0 0xffff0a0102fe) by (by vm_compute). rewrite <- E.
  apply (ptr_roundtrip 10 1 2 254 (U128 0xfd00 0x1234) [ch_dot]).
  - repeat constructor; by vm_compute.
  - repeat split; by vm_compute.
  - apply list_elem_of_further, list_elem_of_here.
Defined.

(** ** Names that are not lists of labels *)

Lemma poke_full b v : wf b -> size_left b = 0%nat -> poke b v = Fault.
Proof. intros W S. rewrite size_left_wf in S by done. unfold poke, wf in *. rewrite bool_decide_eq_false_2; [done|]. lia. Qed.
(** The zero after the labels is written without a test: a name one byte longer than the
    room is written past the end of the region. *)
Lemma name_terminator_past_end ls b : name_ok ls -> wf b -> length (name_text ls) = S (size_left b) -> EncodeNameTo (dotted ls) b = Fault.
Proof.
  intros [N F] W L. unfold name_text in L. rewrite length_app in L. cbn in L. unfold EncodeNameTo. rewrite dotted_join by done.
  rewrite last_snoc, bool_decide_eq_true_2, removelast_last by done. rewrite split_char; [|done|eapply Forall_impl; [exact F|]; by intros l [_ ?]]. cbn [obind].
  destruct (put_labels_writes ls F b W) as (b' & -> & A); [lia|]. cbn [obind negb]. rewrite poke_full; [done|by eapply appends_wf|]. rewrite (appends_size_left _ _ _ W A). lia.
Qed.
(** The root's name takes two zero bytes, the first of them a name of its own. *)
Lemma root_name_twice : EncodeNameTo [ch_dot] (Buf (replicate 4 9) 0) = Done (true, Buf [0; 0; 9; 9] 2) /\ EncodeNameTo [] (Buf (replicate 4 9) 0) = Done (true, Buf [0; 0; 9; 9] 2).
Proof. split; by vm_compute. Qed.
(** [pop_back] of the empty string *)
Lemma root_name_trimmed r : DecodeName true (Buf (0 :: r) 0) = Fault.
Proof. done. Qed.

Section Wrong.
Context {OX : Buffer.Oxenc} {OS : Buffer.OxencSpec}.

(** 65536 bytes of data pass the test of the size, and go out as none. *)
Lemma rdata_length_wraps v b : wf b -> (2 <= size_left b)%nat -> Z.of_nat (length v) = 65536 ->
  exists b', EncodeRData v b = (true, b') /\ appends b [0; 0] b'.
Proof.
  intros W S L. unfold EncodeRData. rewrite bool_decide_eq_false_2 by lia. rewrite L. change (u16 65536) with 0.
  destruct (owrites_put 2 0 b W) as (b1 & E1 & A1); [by rewrite length_be_bytes|]. unfold put_uint16. destruct (put 2 b 0) as [ok b1']. injection E1 as -> ->. cbn [negb].
  rewrite (proj2 (Z.ltb_ge _ _)) by lia. change (Z.to_nat 0) with 0%nat. rewrite take_0. eexists. split; [reflexivity|].
  change [0; 0] with ([0; 0] ++ []). eapply appends_app; [exact A1|]. apply blit_appends; [by eapply appends_wf|cbn; lia].
Qed.
(** A canonical name as long as the top level domain, without the domain in it, is
    taken for a name of that domain: the position [npos] equals the size that wrapped. *)
Lemma cname_same_length_matches r name tld b' : rr_type r = qTypeCNAME -> DecodeName false (Buf (rData r) 0) = Done (Some name, b') ->
  length name = length tld -> str_rfind name tld = None -> HasCNameForTLD tld r = Done true.
Proof.
  intros T D L R. unfold HasCNameForTLD. rewrite T. cbn [negb Z.eqb]. change (negb (qTypeCNAME =? qTypeCNAME)) with false. rewrite D. cbn [obind]. rewrite R. unfold size_z. rewrite L.
  replace (Z.of_nat (length tld) - Z.of_nat (length tld) - 1) with (-1) by lia. done.
Qed.
(** A text reply keeps the flags of the query, so it goes out as a query; a chunk of 256
    bytes has the length byte 0. *)
Lemma txt_reply_is_a_query str t m m' : AddTXTReply str t m = Done (Some m') -> hdr_fields m' = hdr_fields m.
Proof.
  unfold AddTXTReply. destruct (questions m) as [|q qs]; [done|]. destruct (txt_loop _ _ _) as [[b|]| |]; cbn [obind]; [|done..]. by intros [= <-].
Qed.
End Wrong.
Lemma txt_chunk_of_256 : exists m', AddTXTReply (replicate 256 97) 60 (message_of 7 256 [demo_question] []) = Done (Some m') /\
  rData <$> answers m' = [0 :: replicate 256 97].
Proof. eexists. split; [vm_compute; reflexivity|by vm_compute]. Qed.
(** The parser takes two bytes for the owner's name, so a message that writes it as
    labels is not read back. *)
Lemma own_answer_not_parsed :
  @MaybeParseDNSMessage be_oxenc (message_text 7 34176 [demo_question] [(demo_labels, mkWR qTypeA qClassIN 60 [10; 0; 0; 1])]) = Done None.
Proof. by vm_compute. Qed.

(** ** Matching a name *)

Lemma rfind_snoc c s : str_rfind (s ++ [c]) [c] = Some (length s).
Proof. induction s as [|d s IH]; cbn [app str_rfind]; [|by rewrite IH]. cbn. by rewrite starts_with_char, bool_decide_eq_true_2. Qed.
Lemma rfind_char_at c s n : str_rfind s [c] = Some n -> s !! n = Some c.
Proof.
  revert n. induction s as [|d s IH]; intros n; cbn [str_rfind]; [done|]. destruct (str_rfind s [c]) as [m|] eqn:E; [intros [= <-]; by apply IH|].
  rewrite starts_with_char. case_bool_decide as Hd; [intros [= <-]; by subst|done].
Qed.
Lemma ends_in_dot_snoc s : (Z.of_nat (length s) < 2 ^ 63) -> ends_in_dot (s ++ [ch_dot]) = true.
Proof.
  intros L. unfold ends_in_dot, size_z. rewrite rfind_snoc, length_app. cbn [npos_of length]. replace (Z.of_nat (length s + 1) - 1) with (Z.of_nat (length s)) by lia.
  rewrite wrap_small by (unfold in_width; lia). apply Z.eqb_refl.
Qed.
Lemma ends_in_dot_last s : s <> [] -> (Z.of_nat (length s) < 2 ^ 63) -> ends_in_dot s = bool_decide (last s = Some ch_dot).
Proof.
  intros N L. destruct (exists_last N) as (r & c & ->). rewrite last_snoc, length_app in *. cbn [length] in L. case_bool_decide as Hc.
  - injection Hc as ->. apply ends_in_dot_snoc. lia.
  - unfold ends_in_dot, size_z. rewrite length_app. cbn [length]. rewrite wrap_small by (unfold in_width; lia). apply Z.eqb_neq.
    destruct (str_rfind _ _) as [n|] eqn:E; cbn [npos_of]; [|lia]. apply rfind_char_at in E. intros X. replace n with (length r) in E by lia.
    rewrite list_lookup_middle in E by done. congruence.
Qed.
(** [IsName] compares with the name that has its dot; it calls itself at most once. *)
Lemma IsName_spec fuel other q : other <> [] -> (Z.of_nat (length other) < 2 ^ 62) ->
  IsName (S (S fuel)) other q = Done (bool_decide ((if bool_decide (last other = Some ch_dot) then other else other ++ [ch_dot]) = qname q)).
Proof.
  intros N L. cbn [IsName]. rewrite ends_in_dot_last by (done || lia). case_bool_decide; [done|]. by rewrite ends_in_dot_snoc by lia.
Qed.
