(* ===== verification/DhtMessages.v ===== *)
(** * The wire format of DHT messages

    [BEncode] and [DecodeKey] of the messages of [llarp/dht/messages/], which
    implement the interface [DHTMessages] of the link layer, and that every message
    is read back by [dht/message.cpp].  The codec of router contacts is an item
    interface; the serializer of oxenc is a class with its documented law. *)

From S2P Require Import Prelude Buffer Bencode Codec Crypto Path PathBuild LinkMessages Dht DhtTx DhtContext.
Open Scope Z_scope.

(** [oxenc::bt_serialize] of a [bt_dict], whose entries are in the order of their keys *)
Inductive BtValue := BtString (s : list Z) | BtUint (v : Z).
Definition bt_text (v : BtValue) : list Z := match v with BtString s => enc_str s | BtUint v => enc_int v end.
Class OxencDict := { bt_serialize_dict : list (list Z * BtValue) -> list Z }.
Class OxencDictSpec `{OxencDict} : Prop := {
  bt_serialize_dict_spec l : bt_serialize_dict l = ch_d :: flat_map (fun x => enc_str x.1 ++ bt_text x.2) l ++ [ch_e] }.

(** [EncryptedIntroSet] as an item; an item of a list starts from a new one. *)
#[export] Instance IntroSet_item : BItem EncryptedIntroSet := {|
  BEncode := IntroSet_BEncode;
  BDecode b := let! (ok, b, i) := IntroSet_BDecode IntroSet_new b in Done (if ok then Some i else None, b) |}.
Definition IntroSet_into (i : EncryptedIntroSet) (b : llarp_buffer_t) : outcome (bool * EncryptedIntroSet * llarp_buffer_t) :=
  let! (ok, b, i) := IntroSet_BDecode i b in Done (ok, i, b).

(** A message with the fields its handler does not look at: [version], and the key
    [closer] of a [GotIntroMessage]. *)
Record IMsg := mkIMsg { im_version : Z; im_closer : option Key; im_body : DhtMessage }.

Section Codec.
Context `{BItem RouterContact} `{OxencDict}.

Definition flag (b : bool) : Z := if b then 1 else 0.
Definition write_key (k : Z) (b : llarp_buffer_t) : bool * llarp_buffer_t := bencode_write_bytestring b [k].

Definition FindRouter_BEncode (targetKey : Key) (iterative exploritory : bool) (id version : Z) (b : llarp_buffer_t) : bool * llarp_buffer_t :=
  and_then (bencode_start_dict b) (fun b =>
  and_then (write_key 65 b) (fun b => and_then (bencode_write_bytestring b [82]) (fun b =>
  and_then (write_key 69 b) (fun b => and_then (bencode_write_uint64 b (flag exploritory)) (fun b =>
  and_then (write_key 73 b) (fun b => and_then (bencode_write_uint64 b (flag iterative)) (fun b =>
  and_then (write_key 75 b) (fun b => and_then (bencode_write_bytestring b targetKey) (fun b =>
  and_then (write_key 84 b) (fun b => and_then (bencode_write_uint64 b id) (fun b =>
  and_then (write_key 86 b) (fun b => and_then (bencode_write_uint64 b version) bencode_end)))))))))))).
Definition GotRouter_BEncode (foundRCs : list RouterContact) (nearKeys : list Key) (closerTarget : option Key) (id version : Z) (b : llarp_buffer_t) : bool * llarp_buffer_t :=
  and_then (bencode_start_dict b) (fun b =>
  and_then (BEncodeWriteDictMsgType b [65] [83]) (fun b =>
  and_then (match closerTarget with Some k => @BEncodeWriteDictEntry _ (aligned 32) [75] k b | None => (true, b) end) (fun b =>
  and_then (if bool_decide (nearKeys = []) then (true, b) else @BEncodeWriteDictList _ (aligned 32) [78] nearKeys b) (fun b =>
  and_then (BEncodeWriteDictList [82] foundRCs b) (fun b =>
  and_then (BEncodeWriteDictInt [84] id b) (fun b =>
  and_then (BEncodeWriteDictInt [86] version b) bencode_end)))))).
Definition FindIntro_BEncode (location tagName : Key) (id relayOrder : Z) (b : llarp_buffer_t) : bool * llarp_buffer_t :=
  and_then (bencode_start_dict b) (fun b =>
  and_then (BEncodeWriteDictMsgType b [65] [70]) (fun b =>
  and_then (if tag_Empty tagName then and_then (BEncodeWriteDictInt [79] relayOrder b) (@BEncodeWriteDictEntry _ (aligned 32) [83] location)
            else and_then (@BEncodeWriteDictEntry _ (aligned 16) [78] tagName b) (BEncodeWriteDictInt [79] relayOrder)) (fun b =>
  and_then (BEncodeWriteDictInt [84] id b) (fun b =>
  and_then (BEncodeWriteDictInt [86] proto_version b) bencode_end)))).
Definition GotIntro_BEncode (found : list EncryptedIntroSet) (closer : option Key) (id version : Z) (b : llarp_buffer_t) : bool * llarp_buffer_t :=
  and_then (bencode_start_dict b) (fun b =>
  and_then (BEncodeWriteDictMsgType b [65] [71]) (fun b =>
  and_then (BEncodeWriteDictList [73] found b) (fun b =>
  and_then (match closer with Some k => @BEncodeWriteDictEntry _ (aligned 32) [75] k b | None => (true, b) end) (fun b =>
  and_then (BEncodeWriteDictInt [84] id b) (fun b =>
  and_then (BEncodeWriteDictInt [86] version b) bencode_end))))).
Definition PublishIntro_BEncode (i : EncryptedIntroSet) (relayed : bool) (relayOrder id : Z) (b : llarp_buffer_t) : bool * llarp_buffer_t :=
  and_then (bencode_start_dict b) (fun b =>
  and_then (BEncodeWriteDictMsgType b [65] [73]) (fun b =>
  and_then (BEncodeWriteDictEntry [73] i b) (fun b =>
  and_then (BEncodeWriteDictInt [79] relayOrder b) (fun b =>
  and_then (BEncodeWriteDictInt [82] (flag relayed) b) (fun b =>
  and_then (BEncodeWriteDictInt [84] id b) (fun b =>
  and_then (BEncodeWriteDictInt [86] proto_version b) bencode_end)))))).
Definition FindName_BEncode (NameHash : Key) (id : Z) (b : llarp_buffer_t) : bool * llarp_buffer_t :=
  write b (bt_serialize_dict [([65], BtString [78]); ([72], BtString NameHash); ([84], BtUint id)]).
Definition GotName_BEncode (ciphertext nonce : list Z) (id : Z) (b : llarp_buffer_t) : bool * llarp_buffer_t :=
  write b (bt_serialize_dict [([65], BtString [77]); ([68], BtString ciphertext); ([78], BtString nonce); ([84], BtUint id)]).

Definition message_BEncode (m : IMsg) (b : llarp_buffer_t) : bool * llarp_buffer_t :=
  match im_body m with
  | FindRouterMessage _ _ targetKey iterative exploritory id | RelayedFindRouterMessage _ _ targetKey iterative exploritory id =>
      FindRouter_BEncode targetKey iterative exploritory id (im_version m) b
  | GotRouterMessage _ _ foundRCs nearKeys closerTarget id _ => GotRouter_BEncode foundRCs nearKeys closerTarget id (im_version m) b
  | FindIntroMessage _ _ location tagName id _ relayOrder => FindIntro_BEncode location tagName id relayOrder b
  | GotIntroMessage _ _ found id | RelayedGotIntroMessage _ _ found id => GotIntro_BEncode found (im_closer m) id (im_version m) b
  | PublishIntroMessage _ _ i relayed relayOrder id => PublishIntro_BEncode i relayed relayOrder id b
  | FindNameMessage _ _ NameHash id => FindName_BEncode NameHash id b
  | GotNameMessage _ _ ciphertext nonce id => GotName_BEncode ciphertext nonce id b
  end.

(** *** [DecodeKey], in place *)

Definition key_fuel (b : llarp_buffer_t) : nat := S (S (sz b)).
Definition read_uint (b : llarp_buffer_t) (k : Z -> IMsg) (m : IMsg) : outcome (bool * llarp_buffer_t * IMsg) :=
  let! (v, b) := bencode_read_integer b in
  Done (match v with Some v => (true, b, k v) | None => (false, b, m) end).
Definition read_aligned (n : nat) (b : llarp_buffer_t) (k : list Z -> IMsg) (m : IMsg) : outcome (bool * llarp_buffer_t * IMsg) :=
  let! (v, b) := aligned_BDecode n b in
  Done (match v with Some v => (true, b, k v) | None => (false, b, m) end).

Definition FindRouter_DecodeKey (make : Key -> bool -> bool -> Z -> DhtMessage) (targetKey : Key) (iterative exploritory : bool) (id : Z)
    (m : IMsg) (key b : llarp_buffer_t) : outcome (bool * llarp_buffer_t * IMsg) :=
  let body := mkIMsg (im_version m) (im_closer m) in
  if startswith key [69] then read_uint b (fun r => body (make targetKey iterative (negb (r =? 0)) id)) m
  else if startswith key [73] then read_uint b (fun r => body (make targetKey (negb (r =? 0)) exploritory id)) m
  else if startswith key [75] then
    let! (strbuf, b) := bencode_read_string b in
    match strbuf with
    | None => Done (false, b, m)
    | Some s => if negb (bool_decide (sz s = KEYSIZE)) then Done (false, b, m) else Done (true, b, body (make (base s) iterative exploritory id))
    end
  else if startswith key [84] then read_uint b (fun v => body (make targetKey iterative exploritory v)) m
  else if startswith key [86] then read_uint b (fun v => mkIMsg v (im_closer m) (im_body m)) m
  else Done (false, b, m).

Definition GotRouter_DecodeKey (From pathID : Key) (foundRCs : list RouterContact) (nearKeys : list Key) (closerTarget : option Key) (id : Z) (relayed : bool)
    (m : IMsg) (key b : llarp_buffer_t) : outcome (bool * llarp_buffer_t * IMsg) :=
  let body rcs near closer id := mkIMsg (im_version m) (im_closer m) (GotRouterMessage From pathID rcs near closer id relayed) in
  if startswith key [75] then
    match closerTarget with
    | Some _ => Done (false, b, m)
    | None => read_aligned 32 b (fun k => body foundRCs nearKeys (Some k) id) (body foundRCs nearKeys (Some key_zero) id)
    end
  else if startswith key [78] then
    let! (ok, b, l) := @BEncodeReadList _ (aligned 32) (key_fuel b) nearKeys b in Done (ok, b, body foundRCs l closerTarget id)
  else if startswith key [82] then
    let! (ok, b, l) := BEncodeReadList (key_fuel b) foundRCs b in Done (ok, b, body l nearKeys closerTarget id)
  else if startswith key [84] then read_uint b (fun v => body foundRCs nearKeys closerTarget v) m
  else
    let! (ok, v, read, b) := BEncodeMaybeVerifyVersion [86] (im_version m) proto_version false key b in
    Done (if ok then read else false, b, mkIMsg v (im_closer m) (im_body m)).

Definition FindIntro_DecodeKey (From pathID location tagName : Key) (id : Z) (relayed : bool) (relayOrder : Z)
    (m : IMsg) (key b : llarp_buffer_t) : outcome (bool * llarp_buffer_t * IMsg) :=
  let body location tagName id order := mkIMsg (im_version m) (im_closer m) (FindIntroMessage From pathID location tagName id relayed order) in
  let! (ok, tagName, read, b) := @BEncodeMaybeReadDictEntry _ (aligned 16) [78] tagName false key b in
  if negb ok then Done (false, b, m) else
  let! (ok, relayOrder, read, b) := BEncodeMaybeReadDictInt 64 [79] relayOrder read key b in
  if negb ok then Done (false, b, m) else
  let! (ok, location, read, b) := @BEncodeMaybeReadDictEntry _ (aligned 32) [83] location read key b in
  if negb ok then Done (false, b, m) else
  let! (ok, id, read, b) := BEncodeMaybeReadDictInt 64 [84] id read key b in
  if negb ok then Done (false, b, m) else
  let! (ok, v, read, b) := BEncodeMaybeVerifyVersion [86] (im_version m) proto_version read key b in
  Done (if ok then read else false, b, mkIMsg v (im_closer m) (im_body (body location tagName id relayOrder))).

Definition GotIntro_DecodeKey (make : list EncryptedIntroSet -> Z -> DhtMessage) (found : list EncryptedIntroSet) (id : Z)
    (m : IMsg) (key b : llarp_buffer_t) : outcome (bool * llarp_buffer_t * IMsg) :=
  if startswith key [73] then
    let! (ok, b, l) := BEncodeReadList (key_fuel b) found b in Done (ok, b, mkIMsg (im_version m) (im_closer m) (make l id))
  else if startswith key [75] then
    match im_closer m with
    | Some _ => Done (false, b, m)
    | None => read_aligned 32 b (fun k => mkIMsg (im_version m) (Some k) (im_body m)) m
    end
  else
    let! (ok, id, read, b) := BEncodeMaybeReadDictInt 64 [84] id false key b in
    if negb ok then Done (false, b, m) else
    let! (ok, v, read, b) := BEncodeMaybeReadDictInt 64 [86] (im_version m) read key b in
    Done (if ok then read else false, b, mkIMsg v (im_closer m) (make found id)).

Definition PublishIntro_DecodeKey (From pathID : Key) (i : EncryptedIntroSet) (relayed : bool) (relayOrder id : Z)
    (m : IMsg) (key b : llarp_buffer_t) : outcome (bool * llarp_buffer_t * IMsg) :=
  let body i relayed order id := mkIMsg (im_version m) (im_closer m) (PublishIntroMessage From pathID i relayed order id) in
  let! (ok, i, read, b) := MaybeReadInto IntroSet_into [73] i false key b in
  if negb ok then Done (false, b, body i relayed relayOrder id) else
  if read then Done (true, b, body i relayed relayOrder id) else
  let! (ok, relayOrder, read, b) := BEncodeMaybeReadDictInt 64 [79] relayOrder read key b in
  if negb ok then Done (false, b, m) else
  if read then Done (true, b, body i relayed relayOrder id) else
  let! (ok, relayedInt, read, b) := BEncodeMaybeReadDictInt 64 [82] (flag relayed) read key b in
  if negb ok then Done (false, b, m) else
  if read then Done (true, b, body i (negb (relayedInt =? 0)) relayOrder id) else
  let! (ok, id, read, b) := BEncodeMaybeReadDictInt 64 [84] id read key b in
  if negb ok then Done (false, b, m) else
  if read then Done (true, b, body i relayed relayOrder id) else
  let! (ok, v, read, b) := BEncodeMaybeReadDictInt 64 [86] (im_version m) read key b in
  Done (if ok then read else false, b, mkIMsg v (im_closer m) (im_body m)).

Definition discard_value (m : IMsg) (b : llarp_buffer_t) : outcome (bool * llarp_buffer_t * IMsg) :=
  let! (ok, b) := bencode_discard (key_fuel b) b in Done (ok, b, m).
Definition FindName_DecodeKey (From pathID NameHash : Key) (id : Z) (m : IMsg) (key b : llarp_buffer_t) : outcome (bool * llarp_buffer_t * IMsg) :=
  let body h id := mkIMsg (im_version m) (im_closer m) (FindNameMessage From pathID h id) in
  if startswith key [72] then read_aligned 32 b (fun h => body h id) m
  else if startswith key [84] then read_uint b (fun v => body NameHash v) m
  else discard_value m b.
Definition NameSizeLimit : nat := 128.
Definition SYMMNONCESIZE : nat := 24.
Definition GotName_DecodeKey (From pathID : Key) (ciphertext nonce : list Z) (id : Z) (m : IMsg) (key b : llarp_buffer_t) : outcome (bool * llarp_buffer_t * IMsg) :=
  let body c n id := mkIMsg (im_version m) (im_closer m) (GotNameMessage From pathID c n id) in
  if startswith key [68] then
    let! (str, b) := bencode_read_string b in
    match str with
    | None => Done (false, b, m)
    | Some s => if bool_decide (NameSizeLimit < sz s)%nat then Done (false, b, m) else Done (true, b, body (base s) nonce id)
    end
  else if startswith key [78] then read_aligned SYMMNONCESIZE b (fun n => body ciphertext n id) m
  else if startswith key [84] then read_uint b (fun v => body ciphertext nonce v) m
  else discard_value m b.

Definition message_DecodeKey (m : IMsg) (key b : llarp_buffer_t) : outcome (bool * llarp_buffer_t * IMsg) :=
  match im_body m with
  | FindRouterMessage f p t it ex id => FindRouter_DecodeKey (FindRouterMessage f p) t it ex id m key b
  | RelayedFindRouterMessage f p t it ex id => FindRouter_DecodeKey (RelayedFindRouterMessage f p) t it ex id m key b
  | GotRouterMessage f p rcs near closer id r => GotRouter_DecodeKey f p rcs near closer id r m key b
  | FindIntroMessage f p l t id r o => FindIntro_DecodeKey f p l t id r o m key b
  | GotIntroMessage f p found id => GotIntro_DecodeKey (GotIntroMessage f p) found id m key b
  | RelayedGotIntroMessage f p found id => GotIntro_DecodeKey (RelayedGotIntroMessage f p) found id m key b
  | PublishIntroMessage f p i r o id => PublishIntro_DecodeKey f p i r o id m key b
  | FindNameMessage f p h id => FindName_DecodeKey f p h id m key b
  | GotNameMessage f p c n id => GotName_DecodeKey f p c n id m key b
  end.

(** The messages as they are made before their keys are read. *)
Definition new_body (ty : DhtType) (From : Key) (relayed : bool) : DhtMessage :=
  match ty with
  | FindName => FindNameMessage From PATHID0 key_zero 0
  | GotName => GotNameMessage From PATHID0 [] (replicate SYMMNONCESIZE 0) 0
  | FindIntro => FindIntroMessage From PATHID0 key_zero TAG0 0 relayed 0
  | FindRouter => FindRouterMessage From PATHID0 key_zero false false 0
  | RelayedFindRouter => RelayedFindRouterMessage From PATHID0 key_zero false false 0
  | GotRouter => GotRouterMessage From PATHID0 [] [] None 0 relayed
  | PublishIntro => PublishIntroMessage From PATHID0 IntroSet_new relayed 0 0
  | GotIntro => GotIntroMessage From PATHID0 [] 0
  | RelayedGotIntro => RelayedGotIntroMessage key_zero PATHID0 [] 0
  end.
#[export] Instance dht_messages : DHTMessages := {|
  IMessage := IMsg;
  dht_new ty From relayed := mkIMsg proto_version None (new_body ty From relayed);
  dht_DecodeKey := message_DecodeKey;
  dht_BEncode := message_BEncode |}.
End Codec.

(** ** Introduction sets are read back *)

Definition intro_ok (i : EncryptedIntroSet) : Prop :=
  length (derivedSigningKey i) = 32%nat /\ length (nounce i) = 32%nat /\ length (sig i) = 64%nat
  /\ (length (introsetPayload i) <= MAX_INTROSET_SIZE)%nat /\ 0 <= signedAt i < 2 ^ 63.
Definition intro_pairs (i : EncryptedIntroSet) : list (list Z * list Z) :=
  [([100], enc_str (derivedSigningKey i)); ([110], enc_str (nounce i)); ([115], enc_int (signedAt i));
   ([120], enc_str (introsetPayload i)); ([122], enc_str (sig i))].
Definition intro_sink : dict_sink EncryptedIntroSet := fun s b key => match key with None => Done (true, b, s) | Some key => IntroSet_DecodeKey s key b end.
Lemma intro_reads i old : intro_ok i -> reads_all intro_sink (intro_pairs i) old i.
Proof.
  intros (Hd&Hn&Hs&Hp&Ht). assert (in_width 64 (signedAt i)) as Hw by (unfold in_width; lia).
  cbn [intro_pairs reads_all]. unfold reads_one, intro_sink, IntroSet_DecodeKey.
  exists (set_derivedSigningKey (derivedSigningKey i) old). next_key.
  { one_key. rewrite (hit_entry 32 100 (derivedSigningKey i) _ _ _ rest) by (done || lia). pass. by destruct old. }
  set (s1 := set_derivedSigningKey _ old). exists (set_nounce (nounce i) s1). next_key.
  { one_key. pass. rewrite (hit_entry 32 110 (nounce i) _ _ _ rest) by (done || lia). pass. by destruct old. }
  set (s2 := set_nounce _ s1). exists (set_signedAt (signedAt i) s2). next_key.
  { one_key. pass. rewrite (hit_int 115 (signedAt i) _ _ _ rest) by done. pass.
    assert (s64 (signedAt i) = signedAt i) as -> by (unfold s64; rewrite Z.mod_small by lia; lia). by destruct old. }
  set (s3 := set_signedAt _ s2). exists (set_introsetPayload (introsetPayload i) s3). next_key.
  { one_key. rewrite (bencode_read_string_spec _ _ _ E) by (unfold MAX_INTROSET_SIZE in Hp; lia).
    cbn [obind]. by rewrite bool_decide_false by (unfold sz; cbn [base]; lia). }
  set (s4 := set_introsetPayload _ s3). exists (set_sig (sig i) s4). next_key.
  { one_key. pass. rewrite (hit_entry 64 122 (sig i) _ _ _ rest) by (done || lia). pass. by destruct old. }
  by destruct old, i.
Qed.
Lemma intro_decodes i old b rest : intro_ok i -> rem b = dict_text (intro_pairs i) ++ rest ->
  IntroSet_BDecode old b = Done (true, advance (length (dict_text (intro_pairs i))) b, i).
Proof.
  intros Hi E. unfold IntroSet_BDecode, bencode_decode_dict. fold intro_sink.
  rewrite (read_dict_chain intro_sink (intro_pairs i) _ old i b rest (intro_reads i old Hi) (dict_fuel _ _ _ E) (dict_text_cons _ _ _ E)).
  by rewrite dict_text_length.
Qed.
Lemma intro_writes i : intro_ok i -> writes (IntroSet_BEncode i) (dict_text (intro_pairs i)).
Proof.
  intros (Hd&Hn&Hs&Hp&Ht). assert (in_width 64 (signedAt i)) as Hw by (unfold in_width; lia).
  unfold IntroSet_BEncode, dict_text, intro_pairs. cbn [flat_map pair_text fst snd]. unfold pair_text. cbn [fst snd]. rewrite <- !app_assoc. cbn [app].
  assert (u64 (signedAt i) = signedAt i) as -> by (unfold u64, wrap; by rewrite Z.mod_small by done).
  apply writes_dict. rewrite (app_assoc (enc_str [100])). apply writes_then; [by apply writes_aligned|].
  rewrite (app_assoc (enc_str [110])). apply writes_then; [by apply writes_aligned|].
  rewrite (app_assoc (enc_str [115])). apply writes_then; [by apply writes_int|].
  apply writes_then; [by apply (writes_bytestring [120])|]. apply writes_then; [apply writes_bytestring; unfold MAX_INTROSET_SIZE in Hp; lia|].
  rewrite (app_assoc (enc_str [122])). apply writes_then; [by apply writes_aligned|apply writes_byte].
Qed.
#[export] Instance IntroSet_spec : BItemSpec EncryptedIntroSet.
Proof.
  refine {| item_ok := intro_ok; item_enc i := dict_text (intro_pairs i) |}.
  - intros i. exists ch_d. eexists. split; [reflexivity|done].
  - intros i b rest Hi E. cbn [BDecode IntroSet_item]. by rewrite (intro_decodes i _ b rest Hi E).
  - intros i b Hi Hw Hs. by apply intro_writes.
Defined.

(** ** Messages are read back *)

Section RoundTrip.
Context {RB : BItem RouterContact} {RS : BItemSpec RouterContact} `{OxencDictSpec}.

Definition key_item : BItemSpec (list Z) (H := aligned 32) := aligned_spec 32 eq_refl.
Definition closer_pair (k : option Key) : list (list Z * list Z) := match k with Some k => [([75], enc_str k)] | None => [] end.

Definition type_char (m : DhtMessage) : Z :=
  match m with
  | FindRouterMessage _ _ _ _ _ _ | RelayedFindRouterMessage _ _ _ _ _ _ => 82
  | GotRouterMessage _ _ _ _ _ _ _ => 83
  | FindIntroMessage _ _ _ _ _ _ _ => 70
  | GotIntroMessage _ _ _ _ | RelayedGotIntroMessage _ _ _ _ => 71
  | PublishIntroMessage _ _ _ _ _ _ => 73
  | FindNameMessage _ _ _ _ => 78
  | GotNameMessage _ _ _ _ _ => 77
  end.
(** The entries after the type. *)
Definition message_pairs (m : IMsg) : list (list Z * list Z) :=
  match im_body m with
  | FindRouterMessage _ _ t it ex id | RelayedFindRouterMessage _ _ t it ex id =>
      [([69], enc_int (flag ex)); ([73], enc_int (flag it)); ([75], enc_str t); ([84], enc_int id); ([86], enc_int (im_version m))]
  | GotRouterMessage _ _ rcs near closer id _ =>
      closer_pair closer ++ (if bool_decide (near = []) then [] else [([78], @enc_list _ _ key_item near)])
      ++ [([82], enc_list rcs); ([84], enc_int id); ([86], enc_int (im_version m))]
  | FindIntroMessage _ _ location tagName id _ order =>
      (if tag_Empty tagName then [([79], enc_int order); ([83], enc_str location)] else [([78], enc_str tagName); ([79], enc_int order)])
      ++ [([84], enc_int id); ([86], enc_int proto_version)]
  | GotIntroMessage _ _ found id | RelayedGotIntroMessage _ _ found id =>
      ([73], enc_list found) :: closer_pair (im_closer m) ++ [([84], enc_int id); ([86], enc_int (im_version m))]
  | PublishIntroMessage _ _ i relayed order id =>
      [([73], dict_text (intro_pairs i)); ([79], enc_int order); ([82], enc_int (flag relayed)); ([84], enc_int id); ([86], enc_int proto_version)]
  | FindNameMessage _ _ h id => [([72], enc_str h); ([84], enc_int id)]
  | GotNameMessage _ _ c n id => [([68], enc_str c); ([78], enc_str n); ([84], enc_int id)]
  end.
Definition message_text (m : IMsg) : list Z := dict_text (([65], enc_str [type_char (im_body m)]) :: message_pairs m).

Definition closer_ok (k : option Key) : Prop := match k with Some k => length k = 32%nat | None => True end.
Definition message_ok (m : IMsg) : Prop :=
  match im_body m with
  | FindRouterMessage _ _ t _ _ id | RelayedFindRouterMessage _ _ t _ _ id => length t = 32%nat /\ in_width 64 id /\ in_width 64 (im_version m) /\ im_closer m = None
  | GotRouterMessage _ _ rcs near closer id _ =>
      Forall item_ok rcs /\ Forall (fun k => length k = 32%nat) near /\ closer_ok closer /\ in_width 64 id /\ im_version m = proto_version /\ im_closer m = None
  | FindIntroMessage _ _ l t id _ order =>
      (if tag_Empty t then length l = 32%nat else length t = 16%nat) /\ in_width 64 id /\ in_width 64 order /\ im_closer m = None
  | GotIntroMessage _ _ found id | RelayedGotIntroMessage _ _ found id => Forall intro_ok found /\ closer_ok (im_closer m) /\ in_width 64 id /\ in_width 64 (im_version m)
  | PublishIntroMessage _ _ i _ order id => intro_ok i /\ in_width 64 order /\ in_width 64 id /\ im_closer m = None
  | FindNameMessage _ _ h id => length h = 32%nat /\ in_width 64 id /\ im_closer m = None
  | GotNameMessage _ _ c n id => (length c <= NameSizeLimit)%nat /\ length n = SYMMNONCESIZE /\ in_width 64 id /\ im_closer m = None
  end.

(** What the peer has: the sender and the way it came are its own. *)
Definition received (From : Key) (relayed : bool) (m : IMsg) : IMsg :=
  match im_body m with
  | FindRouterMessage _ _ t it ex id | RelayedFindRouterMessage _ _ t it ex id =>
      mkIMsg (im_version m) None (if relayed then RelayedFindRouterMessage From PATHID0 t it ex id else FindRouterMessage From PATHID0 t it ex id)
  | GotRouterMessage _ _ rcs near closer id _ => mkIMsg (im_version m) None (GotRouterMessage From PATHID0 rcs near closer id relayed)
  | FindIntroMessage _ _ l t id _ order =>
      mkIMsg proto_version None (if tag_Empty t then FindIntroMessage From PATHID0 l TAG0 id relayed order else FindIntroMessage From PATHID0 key_zero t id relayed order)
  | GotIntroMessage _ _ found id | RelayedGotIntroMessage _ _ found id =>
      mkIMsg (im_version m) (im_closer m) (if relayed then RelayedGotIntroMessage key_zero PATHID0 found id else GotIntroMessage From PATHID0 found id)
  | PublishIntroMessage _ _ i r order id => mkIMsg proto_version None (PublishIntroMessage From PATHID0 i r order id)
  | FindNameMessage _ _ h id => mkIMsg proto_version None (FindNameMessage From PATHID0 h id)
  | GotNameMessage _ _ c n id => mkIMsg proto_version None (GotNameMessage From PATHID0 c n id)
  end.

(** *** Writing *)

Lemma writes_cons w1 w2 x l rest : writes w1 (pair_text x) -> writes w2 (flat_map pair_text l ++ rest) ->
  writes (fun b => and_then (w1 b) w2) (flat_map pair_text (x :: l) ++ rest).
Proof. intros H1 H2. cbn [flat_map]. rewrite <- app_assoc. by apply writes_then. Qed.
Lemma writes_kv k t wv w2 l rest : writes wv t -> writes w2 (flat_map pair_text l ++ rest) ->
  writes (fun b => and_then (write_key k b) (fun b => and_then (wv b) w2)) (flat_map pair_text (([k], t) :: l) ++ rest).
Proof.
  intros H1 H2. cbn [flat_map]. unfold pair_text at 1. cbn [fst snd]. rewrite <- !app_assoc. apply writes_then; [by apply (writes_bytestring [k])|by apply writes_then].
Qed.
Lemma writes_app w1 w2 l1 l2 rest : writes w1 (flat_map pair_text l1) -> writes w2 (flat_map pair_text l2 ++ rest) ->
  writes (fun b => and_then (w1 b) w2) (flat_map pair_text (l1 ++ l2) ++ rest).
Proof. intros H1 H2. rewrite flat_map_app, <- app_assoc. by apply writes_then. Qed.
Lemma writes_end : writes bencode_end (flat_map pair_text [] ++ [ch_e]).
Proof. apply writes_byte. Qed.
Lemma writes_msg_type c : writes (fun b => BEncodeWriteDictMsgType b [65] [c]) (pair_text ([65], enc_str [c])).
Proof. unfold BEncodeWriteDictMsgType, pair_text. cbn [take]. apply writes_then; [by apply (writes_bytestring [65])|by apply (writes_bytestring [c])]. Qed.
Lemma writes_list {T} {HB : BItem T} {HS : BItemSpec T} k (l : list T) : Forall item_ok l -> writes (BEncodeWriteDictList [k] l) (pair_text ([k], enc_list l)).
Proof.
  intros Hl. unfold BEncodeWriteDictList, pair_text. apply writes_then; [by apply (writes_bytestring [k])|].
  intros b Hw Hs. cbn [snd] in Hs. apply BEncodeWriteList_spec; [done..|lia].
Qed.
Lemma writes_closer k : closer_ok k -> writes (fun b => match k with Some k => @BEncodeWriteDictEntry _ (aligned 32) [75] k b | None => (true, b) end) (flat_map pair_text (closer_pair k)).
Proof. destruct k as [k|]; intros Hk; [|apply writes_nil]. cbn [closer_pair flat_map]. rewrite app_nil_r. by apply writes_aligned. Qed.
Lemma flag_width f : in_width 64 (flag f).
Proof. by destruct f. Qed.
Lemma write_serialized l : writes (fun b => write b (bt_serialize_dict l)) (dict_text (map (fun x => (x.1, bt_text x.2)) l)).
Proof.
  intros b Hw Hs. rewrite bt_serialize_dict_spec. assert (ch_d :: flat_map (fun x => enc_str x.1 ++ bt_text x.2) l ++ [ch_e] = dict_text (map (fun x => (x.1, bt_text x.2)) l)) as E.
  { unfold dict_text. do 2 f_equal. clear Hs. induction l as [|x l IH]; [done|]. cbn [flat_map map]. by rewrite IH. }
  rewrite E. apply write_appends; [done|exact (Nat.lt_le_incl _ _ Hs)].
Qed.

Lemma message_writes m : message_ok m -> writes (message_BEncode m) (message_text m).
Proof.
  unfold message_ok, message_BEncode, message_text, dict_text, message_pairs. pose proof writes_end as He. pose proof (fun f => writes_uint64 _ (flag_width f)) as Hf.
  destruct (im_body m) as [? ? t it ex id|? ? t it ex id|? ? rcs near closer id ?|? ? l t id ? order|? ? found id|? ? found id|? ? i r order id|? ? h id|? ? c n id]; cbn [type_char].
  1, 2: intros (Ht&Hi&Hv&_); unfold FindRouter_BEncode; apply writes_dict; apply (writes_kv 65 (enc_str [82]) (fun b => bencode_write_bytestring b [82])); [by apply (writes_bytestring [82])|];
    repeat (apply writes_kv; [first [apply Hf | by apply writes_uint64 | apply writes_bytestring; rewrite Ht; lia]|]); done.
  - intros (Hr&Hn&Hc&Hi&Hv&_). unfold GotRouter_BEncode. apply writes_dict, writes_cons; [apply writes_msg_type|]. apply writes_app; [by apply writes_closer|].
    apply writes_app. { case_bool_decide; [apply writes_nil|]. cbn [flat_map]. rewrite app_nil_r. by apply (@writes_list _ (aligned 32) key_item). }
    apply writes_cons; [by apply writes_list|]. rewrite Hv. do 2 (apply writes_cons; [by apply writes_int|]). done.
  - intros (Hl&Hi&Ho&_). unfold FindIntro_BEncode. apply writes_dict, writes_cons; [apply writes_msg_type|]. apply writes_app.
    { destruct (tag_Empty t); cbn [flat_map]; rewrite app_nil_r.
      - apply writes_then; [by apply writes_int|by apply writes_aligned].
      - apply writes_then; [by apply writes_aligned|by apply writes_int]. }
    do 2 (apply writes_cons; [by apply writes_int|]). done.
  - intros (Hf'&Hc&Hi&Hv). unfold GotIntro_BEncode. apply writes_dict, writes_cons; [apply writes_msg_type|]. apply writes_cons; [by apply writes_list|].
    apply writes_app; [by apply writes_closer|]. do 2 (apply writes_cons; [by apply writes_int|]). done.
  - intros (Hf'&Hc&Hi&Hv). unfold GotIntro_BEncode. apply writes_dict, writes_cons; [apply writes_msg_type|]. apply writes_cons; [by apply writes_list|].
    apply writes_app; [by apply writes_closer|]. do 2 (apply writes_cons; [by apply writes_int|]). done.
  - intros (Hi&Ho&Hid&_). unfold PublishIntro_BEncode. apply writes_dict, writes_cons; [apply writes_msg_type|]. apply writes_cons; [exact (@writes_entry _ _ IntroSet_spec 73 i Hi)|].
    apply writes_cons; [by apply writes_int|]. apply writes_cons; [apply writes_int, flag_width|]. do 2 (apply writes_cons; [by apply writes_int|]). done.
  - intros _. apply write_serialized.
  - intros _. apply write_serialized.
Qed.

(** *** Reading *)

Lemma read_uint_spec v b k m rest : in_width 64 v -> rem b = enc_int v ++ rest -> read_uint b k m = Done (true, advance (length (enc_int v)) b, k v).
Proof. intros Hv E. unfold read_uint. by rewrite (bencode_read_integer_spec _ _ _ E Hv). Qed.
Lemma read_aligned_spec n v b k m rest : Z.of_nat n < 10 ^ 9 -> length v = n -> rem b = enc_str v ++ rest ->
  read_aligned n b k m = Done (true, advance (length (enc_str v)) b, k v).
Proof. intros Hn Hv E. unfold read_aligned. pose proof (@item_decode _ _ (aligned_spec n Hn) v b rest Hv E) as Hd. cbn [BDecode aligned] in Hd. by rewrite Hd. Qed.
Lemma read_list_item {T} {HB : BItem T} {HS : BItemSpec T} (l acc : list T) b rest : Forall item_ok l -> rem b = enc_list l ++ rest ->
  BEncodeReadList (key_fuel b) acc b = Done (true, advance (length (enc_list l)) b, acc ++ l).
Proof.
  intros Hl E. apply (BEncodeReadList_spec l b rest); [done..|]. unfold key_fuel. pose proof (length_rem b) as Hb. rewrite E, length_app in Hb.
  assert (length l <= length (enc_list l))%nat; [|lia]. unfold enc_list. cbn [length]. rewrite length_app. clear. induction l as [|x l IH]; [cbn; lia|].
  cbn [flat_map length]. rewrite length_app. destruct (item_enc_head x) as (c&t&->&_). cbn [length] in *. lia.
Qed.

Definition sink (From : Key) (relayed : bool) : dict_sink (option IMsg) := MessageDecoder (H := dht_messages) From relayed.
Lemma sink_some From relayed m key b : sink From relayed (Some m) b (Some key) = (let! (ok, b, m) := message_DecodeKey m key b in Done (ok, b, Some m)).
Proof. done. Qed.
Lemma sink_type From relayed c ty : dht_type relayed c = Some ty ->
  reads_one (sink From relayed) [65] (enc_str [c]) None (Some (mkIMsg proto_version None (new_body ty From relayed))).
Proof.
  intros Et. split; [done|]. intros b rest E. unfold sink, MessageDecoder. one_key. cbn [negb]. unfold read_type.
  rewrite (bencode_read_string_spec _ _ _ E) by done. cbn [obind]. change (bool_decide (sz (Buf [c] 0) = 1%nat)) with true. cbn [obind].
  change (deref (Buf [c] 0)) with (Done c). cbn [obind]. by rewrite Et.
Qed.

Ltac reads_entry unfolds := eexists; split;
  [split; [done|]; intros b rest E; rewrite sink_some; unfold message_DecodeKey; cbn [im_body im_version im_closer]; unfolds; one_key|].
Ltac router_entry Hd := eexists; split;
  [split; [done|]; intros b rest E; rewrite sink_some; cbn [im_version im_closer]; rewrite Hd; unfold FindRouter_DecodeKey; one_key|].
Ltac pass ::= repeat first [rewrite miss_entry by done | rewrite miss_int by done | rewrite miss_version by done | progress cbn [obind negb]].

Lemma find_router_reads From relayed make t it ex id v : (make = FindRouterMessage From PATHID0 \/ make = RelayedFindRouterMessage From PATHID0) ->
  length t = 32%nat -> in_width 64 id -> in_width 64 v ->
  reads_all (sink From relayed) [([69], enc_int (flag ex)); ([73], enc_int (flag it)); ([75], enc_str t); ([84], enc_int id); ([86], enc_int v)]
    (Some (mkIMsg proto_version None (make key_zero false false 0))) (Some (mkIMsg v None (make t it ex id))).
Proof.
  intros Hm Ht Hi Hv. assert (Hd : forall ver t it ex id key b, message_DecodeKey (mkIMsg ver None (make t it ex id)) key b
    = FindRouter_DecodeKey make t it ex id (mkIMsg ver None (make t it ex id)) key b) by (by destruct Hm as [-> | ->]).
  cbn [reads_all]. unfold reads_one.
  router_entry Hd. { by rewrite (read_uint_spec _ _ _ _ rest (flag_width ex) E). }
  router_entry Hd. { by rewrite (read_uint_spec _ _ _ _ rest (flag_width it) E). }
  router_entry Hd. { rewrite (bencode_read_string_spec _ _ _ E) by (rewrite Ht; lia). cbn [obind]. by rewrite bool_decide_true by done. }
  router_entry Hd. { by rewrite (read_uint_spec _ _ _ _ rest Hi E). }
  router_entry Hd. { by rewrite (read_uint_spec _ _ _ _ rest Hv E). }
  cbn [im_version im_closer im_body base]. by destruct ex, it.
Qed.

Lemma got_router_reads From relayed rcs near closer id : Forall item_ok rcs -> Forall (fun k => length k = 32%nat) near -> closer_ok closer -> in_width 64 id ->
  reads_all (sink From relayed) (closer_pair closer ++ (if bool_decide (near = []) then [] else [([78], @enc_list _ _ key_item near)])
      ++ [([82], enc_list rcs); ([84], enc_int id); ([86], enc_int proto_version)])
    (Some (mkIMsg proto_version None (new_body GotRouter From relayed))) (Some (mkIMsg proto_version None (GotRouterMessage From PATHID0 rcs near closer id relayed))).
Proof.
  intros Hr Hn Hc Hi. cbn [new_body].
  apply (reads_all_app _ _ _ _ (Some (mkIMsg proto_version None (GotRouterMessage From PATHID0 [] [] closer 0 relayed)))).
  { destruct closer as [k|]; [|done]. cbn [closer_pair reads_all]. unfold reads_one. reads_entry ltac:(unfold GotRouter_DecodeKey); [|done].
    by rewrite (read_aligned_spec 32 k _ _ _ rest) by done. }
  apply (reads_all_app _ _ _ _ (Some (mkIMsg proto_version None (GotRouterMessage From PATHID0 [] near closer 0 relayed)))).
  { case_bool_decide as En; [by rewrite En|]. cbn [reads_all]. unfold reads_one. reads_entry ltac:(unfold GotRouter_DecodeKey); [|done].
    by rewrite (@read_list_item _ _ key_item near [] _ rest). }
  cbn [reads_all]. unfold reads_one.
  reads_entry ltac:(unfold GotRouter_DecodeKey). { by rewrite (read_list_item rcs [] _ rest). }
  reads_entry ltac:(unfold GotRouter_DecodeKey). { by rewrite (read_uint_spec id _ _ _ rest). }
  reads_entry ltac:(unfold GotRouter_DecodeKey). { by rewrite (hit_version 86 proto_version _ _ _ rest). }
  done.
Qed.
Lemma find_intro_reads From relayed l t id order : (if tag_Empty t then length l = 32%nat else length t = 16%nat) -> in_width 64 id -> in_width 64 order ->
  reads_all (sink From relayed) ((if tag_Empty t then [([79], enc_int order); ([83], enc_str l)] else [([78], enc_str t); ([79], enc_int order)])
      ++ [([84], enc_int id); ([86], enc_int proto_version)])
    (Some (mkIMsg proto_version None (new_body FindIntro From relayed)))
    (Some (mkIMsg proto_version None (if tag_Empty t then FindIntroMessage From PATHID0 l TAG0 id relayed order else FindIntroMessage From PATHID0 key_zero t id relayed order))).
Proof.
  intros Hl Hi Ho. cbn [new_body]. destruct (tag_Empty t); cbn [app reads_all]; unfold reads_one.
  - reads_entry ltac:(unfold FindIntro_DecodeKey). { pass. rewrite (hit_int 79 order _ _ _ rest) by done. by pass. }
    reads_entry ltac:(unfold FindIntro_DecodeKey). { pass. rewrite (hit_entry 32 83 l _ _ _ rest) by done. by pass. }
    reads_entry ltac:(unfold FindIntro_DecodeKey). { pass. rewrite (hit_int 84 id _ _ _ rest) by done. by pass. }
    reads_entry ltac:(unfold FindIntro_DecodeKey). { pass. by rewrite (hit_version 86 proto_version _ _ _ rest). }
    done.
  - reads_entry ltac:(unfold FindIntro_DecodeKey). { pass. rewrite (hit_entry 16 78 t _ _ _ rest) by done. by pass. }
    reads_entry ltac:(unfold FindIntro_DecodeKey). { pass. rewrite (hit_int 79 order _ _ _ rest) by done. by pass. }
    reads_entry ltac:(unfold FindIntro_DecodeKey). { pass. rewrite (hit_int 84 id _ _ _ rest) by done. by pass. }
    reads_entry ltac:(unfold FindIntro_DecodeKey). { pass. by rewrite (hit_version 86 proto_version _ _ _ rest). }
    done.
Qed.
Lemma got_intro_reads From relayed make found closer id v : (make = GotIntroMessage From PATHID0 \/ make = RelayedGotIntroMessage key_zero PATHID0) ->
  Forall intro_ok found -> closer_ok closer -> in_width 64 id -> in_width 64 v ->
  reads_all (sink From relayed) (([73], enc_list found) :: closer_pair closer ++ [([84], enc_int id); ([86], enc_int v)])
    (Some (mkIMsg proto_version None (make [] 0))) (Some (mkIMsg v closer (make found id))).
Proof.
  intros Hm Hf Hc Hi Hv. assert (Hd : forall ver closer l id key b, message_DecodeKey (mkIMsg ver closer (make l id)) key b
    = GotIntro_DecodeKey make l id (mkIMsg ver closer (make l id)) key b) by (by destruct Hm as [-> | ->]).
  cbn [reads_all]. exists (Some (mkIMsg proto_version None (make found 0))). split.
  { split; [done|]. intros b rest E. rewrite sink_some, Hd. unfold GotIntro_DecodeKey. one_key. by rewrite (read_list_item found [] _ rest). }
  apply (reads_all_app _ _ _ _ (Some (mkIMsg proto_version closer (make found 0)))).
  { destruct closer as [k|]; [|done]. cbn [closer_pair reads_all]. eexists. split; [split; [done|]|reflexivity]. intros b rest E.
    rewrite sink_some, Hd. unfold GotIntro_DecodeKey. one_key. cbn [im_closer]. by rewrite (read_aligned_spec 32 k _ _ _ rest) by done. }
  cbn [reads_all]. exists (Some (mkIMsg proto_version closer (make found id))). split.
  { split; [done|]. intros b rest E. rewrite sink_some, Hd. unfold GotIntro_DecodeKey. one_key. rewrite (hit_int 84 id _ _ _ rest) by done. by pass. }
  eexists. split; [split; [done|]|reflexivity]. intros b rest E. rewrite sink_some, Hd. unfold GotIntro_DecodeKey. one_key. pass.
  by rewrite (hit_int 86 v _ _ _ rest) by done.
Qed.
Ltac publish_entry Hmiss := reads_entry ltac:(unfold PublishIntro_DecodeKey; try rewrite Hmiss by done).
Lemma publish_reads From relayed i r order id : intro_ok i -> in_width 64 order -> in_width 64 id ->
  reads_all (sink From relayed)
    [([73], dict_text (intro_pairs i)); ([79], enc_int order); ([82], enc_int (flag r)); ([84], enc_int id); ([86], enc_int proto_version)]
    (Some (mkIMsg proto_version None (new_body PublishIntro From relayed))) (Some (mkIMsg proto_version None (PublishIntroMessage From PATHID0 i r order id))).
Proof.
  intros Hi Ho Hid. cbn [new_body reads_all]. unfold reads_one.
  assert (Hmiss : forall k i b, (k =? 73) = false -> MaybeReadInto IntroSet_into [73] i false (Buf [k] 0) b = Done (true, i, false, b)).
  { intros k i' b E. unfold MaybeReadInto. by rewrite startswith_one, E. }
  publish_entry Hmiss. { unfold MaybeReadInto. one_key. unfold IntroSet_into. by rewrite (intro_decodes i _ b rest). }
  publish_entry Hmiss. { cbn [obind negb]. by rewrite (hit_int 79 order _ _ _ rest) by done. }
  publish_entry Hmiss. { pass. by rewrite (hit_int 82 (flag r) _ _ _ rest) by (done || apply flag_width). }
  publish_entry Hmiss. { pass. by rewrite (hit_int 84 id _ _ _ rest) by done. }
  publish_entry Hmiss. { pass. by rewrite (hit_int 86 proto_version _ _ _ rest) by done. }
  cbn [im_body]. by destruct r.
Qed.
Lemma find_name_reads From relayed h id : length h = 32%nat -> in_width 64 id ->
  reads_all (sink From relayed) [([72], enc_str h); ([84], enc_int id)]
    (Some (mkIMsg proto_version None (new_body FindName From relayed))) (Some (mkIMsg proto_version None (FindNameMessage From PATHID0 h id))).
Proof.
  intros Hh Hi. cbn [new_body reads_all]. unfold reads_one.
  reads_entry ltac:(unfold FindName_DecodeKey). { by rewrite (read_aligned_spec 32 h _ _ _ rest) by done. }
  reads_entry ltac:(unfold FindName_DecodeKey). { by rewrite (read_uint_spec id _ _ _ rest). }
  done.
Qed.
Lemma got_name_reads From relayed c n id : (length c <= NameSizeLimit)%nat -> length n = SYMMNONCESIZE -> in_width 64 id ->
  reads_all (sink From relayed) [([68], enc_str c); ([78], enc_str n); ([84], enc_int id)]
    (Some (mkIMsg proto_version None (new_body GotName From relayed))) (Some (mkIMsg proto_version None (GotNameMessage From PATHID0 c n id))).
Proof.
  intros Hc Hn Hi. cbn [new_body reads_all]. unfold reads_one. unfold NameSizeLimit in Hc.
  reads_entry ltac:(unfold GotName_DecodeKey).
  { rewrite (bencode_read_string_spec _ _ _ E) by lia. cbn [obind]. by rewrite bool_decide_false by (unfold sz, NameSizeLimit; cbn [base]; lia). }
  reads_entry ltac:(unfold GotName_DecodeKey). { by rewrite (read_aligned_spec SYMMNONCESIZE n _ _ _ rest) by done. }
  reads_entry ltac:(unfold GotName_DecodeKey). { by rewrite (read_uint_spec id _ _ _ rest). }
  done.
Qed.

Lemma message_reads From relayed m : message_ok m ->
  reads_all (sink From relayed) (([65], enc_str [type_char (im_body m)]) :: message_pairs m) None (Some (received From relayed m)).
Proof.
  intros Hm. unfold message_ok, received, message_pairs in *. destruct m as [v closer body]. cbn [im_body im_version im_closer] in *.
  destruct body as [? ? t it ex id|? ? t it ex id|? ? rcs near k id ?|? ? l t id ? order|? ? found id|? ? found id|? ? i r order id|? ? h id|? ? c n id];
    cbn [type_char reads_all].
  1, 2: destruct Hm as (Ht&Hi&Hv&->); destruct relayed; (eexists; split; [by apply sink_type|]); by apply find_router_reads; auto.
  - destruct Hm as (Hr&Hn&Hc&Hi&->&->). eexists. split; [by apply sink_type|]. by apply got_router_reads.
  - destruct Hm as (Hl&Hi&Ho&->). eexists. split; [by apply sink_type|]. by apply find_intro_reads.
  - destruct Hm as (Hf&Hc&Hi&Hv). destruct relayed; (eexists; split; [by apply sink_type|]); by apply got_intro_reads; auto.
  - destruct Hm as (Hf&Hc&Hi&Hv). destruct relayed; (eexists; split; [by apply sink_type|]); by apply got_intro_reads; auto.
  - destruct Hm as (Hi&Ho&Hid&->). eexists. split; [by apply sink_type|]. by apply publish_reads.
  - destruct Hm as (Hh&Hi&->). eexists. split; [by apply sink_type|]. by apply find_name_reads.
  - destruct Hm as (Hc&Hn&Hi&->). eexists. split; [by apply sink_type|]. by apply got_name_reads.
Qed.

Lemma pairs_few m : (length (message_pairs m) <= 5)%nat.
Proof. unfold message_pairs, closer_pair. destruct (im_body m); repeat case_match; cbn; lia. Qed.
Lemma message_decodes fuel From relayed m b rest : message_ok m -> (6 < fuel)%nat -> rem b = message_text m ++ rest ->
  DecodeMesssage (H := dht_messages) fuel From b relayed = Done (Some (received From relayed m), advance (length (message_text m)) b).
Proof.
  intros Hm Hf E. unfold DecodeMesssage, message_text in *.
  pose proof (read_dict_chain (sink From relayed) _ fuel None _ b rest (message_reads From relayed m Hm)) as Hd.
  rewrite dict_text_length. refine (f_equal (fun r => let! (ok, b, msg) := r in if negb ok then Done (None, b) else Done (msg, b)) (Hd _ _)).
  - cbn [length]. pose proof (pairs_few m). lia.
  - by apply dict_text_cons.
Qed.
Lemma list_reads fuel From relayed m : message_ok m -> (6 < fuel)%nat ->
  list_sink_reads message_text (fun acc m => acc ++ [received From relayed m]) (ListDecoder (H := dht_messages) fuel relayed From) m.
Proof.
  intros Hm Hf. split; [exists ch_d; eexists; split; [reflexivity|done]|]. intros acc b rest E. unfold ListDecoder. cbn [negb].
  by rewrite (message_decodes fuel From relayed m b rest Hm Hf E).
Qed.
Definition messages_text (l : list IMsg) : list Z := ch_l :: flat_map message_text l ++ [ch_e].
Lemma list_decodes fuel From relayed l b rest : Forall message_ok l -> (6 < fuel)%nat -> (length l < fuel)%nat -> rem b = messages_text l ++ rest ->
  DecodeMesssageList (H := dht_messages) fuel From b [] relayed = Done (true, advance (length (messages_text l)) b, map (received From relayed) l).
Proof.
  intros Hl Hf Hn E. unfold DecodeMesssageList. unfold messages_text in E. cbn [app] in E. rewrite <- app_assoc in E. cbn [app] in E.
  rewrite (read_list_spec message_text (fun acc m => acc ++ [received From relayed m]) _ l fuel [] b rest); [|by eapply Forall_impl; [exact Hl|intros m Hm; by apply list_reads]|done|done].
  unfold ListDecoder. cbn [negb]. do 3 f_equal.
  - f_equal. unfold messages_text. cbn [length]. rewrite length_app. cbn. lia.
  - clear. assert (forall acc, fold_left (fun acc m => acc ++ [received From relayed m]) l acc = acc ++ map (received From relayed) l) as E; [|apply E].
    induction l as [|m l IH]; intros acc; [by rewrite app_nil_r|]. cbn [fold_left map]. by rewrite IH, <- app_assoc.
Qed.
Lemma writes_messages l : Forall message_ok l -> writes (write_msgs (H := dht_messages) l) (flat_map message_text l).
Proof. induction 1 as [|m l Hm Hl IH]; [apply writes_nil|]. cbn [write_msgs flat_map]. apply (writes_then (message_BEncode m)); [by apply message_writes|done]. Qed.
End RoundTrip.

(** C28: DHT messages survive the wire.  A [DHTImmediateMessage] with any list of
    well-formed messages is written whole, and a peer that decodes its list has the
    same messages, in order, with their sender and the way they came set to its own. *)
Theorem dht_messages_roundtrip {RB : BItem RouterContact} {RS : BItemSpec RouterContact} `{OxencDictSpec} base l b : Forall message_ok l -> wf b ->
  (length (messages_text l) + 100 < size_left b)%nat ->
  exists b', DHT_BEncode (mkDHT base l) b = (true, b')
  /\ appends b (dict_text [([97], enc_str [109]); ([109], messages_text l); ([118], enc_int proto_version)]) b'
  /\ forall fuel base' from b2 rest, session base' = Some from -> rem b2 = messages_text l ++ rest -> (6 + length l < fuel)%nat ->
     DHT_DecodeKey fuel (mkDHT base' []) (Buf [109] 0) b2
     = Done (true, advance (length (messages_text l)) b2, mkDHT base' (map (received from false) l)).
Proof.
  intros Hl Hw Hs.
  assert (Hwr : writes (DHT_BEncode (mkDHT base l)) (dict_text [([97], enc_str [109]); ([109], messages_text l); ([118], enc_int proto_version)])).
  { unfold DHT_BEncode. cbn [dh_msgs]. apply writes_dict. apply (writes_kv 97 (enc_str [109]) (fun b => bencode_write_bytestring b [109])); [by apply (writes_bytestring [109])|].
    cbn [flat_map]. unfold pair_text, messages_text. cbn [fst snd]. rewrite app_nil_r, <- !app_assoc. apply writes_then; [by apply (writes_bytestring [109])|].
    rewrite <- app_comm_cons, <- !app_assoc. change (ch_l :: ?t) with ([ch_l] ++ t). apply writes_then; [apply writes_byte|]. apply writes_then; [by apply writes_messages|].
    apply writes_then; [apply writes_byte|]. rewrite (app_assoc (enc_str [118])). apply writes_then; [|apply writes_byte].
    unfold bencode_write_uint64_entry. apply writes_then; [by apply (writes_bytestring [118])|by apply writes_uint64]. }
  destruct (Hwr b Hw) as (b'&E&Ha).
  { rewrite dict_text_length. cbn [flat_map]. unfold pair_text. cbn [fst snd]. rewrite !length_app. cbn [length].
    pose proof (eq_refl : length (enc_str [97]) = 3%nat). pose proof (eq_refl : length (enc_str [109]) = 3%nat).
    pose proof (eq_refl : length (enc_str [118]) = 3%nat). pose proof (eq_refl : length (enc_int proto_version) = 3%nat). lia. }
  exists b'. split; [done|]. split; [done|]. intros fuel base' from b2 rest Hb E2 Hf. unfold DHT_DecodeKey. one_key. cbn [dh_base]. rewrite Hb.
  by rewrite (list_decodes fuel from false l b2 rest) by (done || lia).
Qed.

(** The codec of contacts for the witness: a dictionary with the key and the time. *)
Definition demo_rc_item : BItem RouterContact := {|
  BEncode c b := bencode_write_bytestring b (pubkey c ++ be_bytes 8 (last_updated c));
  BDecode b :=
    let! (s, b) := bencode_read_string b in
    Done (match s with Some s => if bool_decide (sz s = 40%nat) then Some (mkContact (take 32 (base s)) (be_value (drop 32 (base s))) []) else None | None => None end, b) |}.
Definition demo_rc_spec : @BItemSpec RouterContact demo_rc_item.
Proof.
  refine (@Build_BItemSpec _ demo_rc_item (fun c => length (pubkey c) = 32%nat /\ 0 <= last_updated c < 2 ^ 64 /\ rc_rest c = [])
    (fun c => enc_str (pubkey c ++ be_bytes 8 (last_updated c))) _ _ _).
  - intros x. destruct (enc_str_head (pubkey x ++ be_bytes 8 (last_updated x))) as (c&t&->&Hc). exists c, t. split; [done|]. intros ->. discriminate Hc.
  - intros [k t r] b rest (Hk&Ht&Hr) E. cbn [pubkey last_updated rc_rest] in *. subst r. cbn [BDecode demo_rc_item].
    assert (length (k ++ be_bytes 8 t) = 40%nat) as Hl by (rewrite length_app, length_be_bytes; lia).
    rewrite (bencode_read_string_spec _ _ _ E) by (rewrite Hl; lia). cbn [obind]. rewrite bool_decide_true by done. cbn [base].
    rewrite take_app_length', drop_app_length' by done. by rewrite be_value_be_bytes by (cbn; lia).
  - intros x b (Hk&Ht&_) Hw Hs. cbn [BEncode demo_rc_item]. apply bencode_write_bytestring_spec; [done|rewrite length_app, length_be_bytes; lia|by right|lia].
Defined.
Definition demo_oxenc : OxencDict := {| bt_serialize_dict l := ch_d :: flat_map (fun x => enc_str x.1 ++ bt_text x.2) l ++ [ch_e] |}.
Lemma demo_oxenc_spec : @OxencDictSpec demo_oxenc.
Proof. by split. Qed.

Definition demo_intro : EncryptedIntroSet := mkIntroSet (demo_key 7) 5 [1; 2] (demo_key 2) (replicate 64 3).
Lemma demo_intro_ok : intro_ok demo_intro.
Proof. unfold intro_ok. split; [reflexivity|]. split; [reflexivity|]. split; [reflexivity|]. split; [apply (bool_decide_unpack _); vm_compute; exact I|cbn; lia]. Qed.
Definition demo_messages : list IMsg :=
  [mkIMsg 0 None (FindRouterMessage key_zero PATHID0 (demo_key 4) false true 7);
   mkIMsg 0 None (GotRouterMessage key_zero PATHID0 [demo_contact 5 9] [demo_key 6; demo_key 8] (Some (demo_key 3)) 8 false);
   mkIMsg 0 None (FindIntroMessage key_zero PATHID0 (demo_key 4) TAG0 9 false 1);
   mkIMsg 0 None (GotIntroMessage key_zero PATHID0 [demo_intro] 10);
   mkIMsg 0 None (PublishIntroMessage key_zero PATHID0 demo_intro true 2 11);
   mkIMsg 0 None (FindNameMessage key_zero PATHID0 (demo_key 9) 12);
   mkIMsg 0 None (GotNameMessage key_zero PATHID0 [1; 2; 3] (replicate 24 1) 13)].
Lemma byte_width v : 0 <= v < 256 -> in_width 64 v.
Proof. unfold in_width. lia. Qed.
Lemma demo_messages_ok : Forall (@message_ok demo_rc_item demo_rc_spec) demo_messages.
Proof.
  assert (Hw : forall v, 0 <= v < 256 -> in_width 64 v) by exact byte_width. pose proof demo_intro_ok as Hi.
  unfold demo_messages. repeat (apply Forall_cons; split); [..|constructor]; unfold message_ok; cbn [im_body im_version im_closer].
  - split_and!; [reflexivity|apply Hw; lia|apply Hw; lia|reflexivity].
  - split_and!; [|repeat constructor; reflexivity|reflexivity|apply Hw; lia|reflexivity|reflexivity]. apply Forall_singleton. cbn. split_and!; [reflexivity|lia|lia|reflexivity].
  - split_and!; [reflexivity|apply Hw; lia|apply Hw; lia|reflexivity].
  - split_and!; [by apply Forall_singleton|exact I|apply Hw; lia|apply Hw; lia].
  - split_and!; [done|apply Hw; lia|apply Hw; lia|reflexivity].
  - split_and!; [reflexivity|apply Hw; lia|reflexivity].
  - split_and!; [unfold NameSizeLimit; cbn; lia|reflexivity|apply Hw; lia|reflexivity].
Qed.
Lemma dht_messages_roundtrip_witness : exists b',
  @DHT_BEncode (@dht_messages demo_rc_item demo_oxenc) (@mkDHT (@dht_messages demo_rc_item demo_oxenc) (mkBase (Some (demo_key 1)) 0 PATHID0) demo_messages) (Buf (replicate 3000 0) 0) = (true, b')
  /\ @DHT_DecodeKey (@dht_messages demo_rc_item demo_oxenc) 20 (@mkDHT (@dht_messages demo_rc_item demo_oxenc) (mkBase (Some (demo_key 1)) 0 PATHID0) []) (Buf [109] 0)
       (Buf (@messages_text demo_rc_item demo_rc_spec demo_messages) 0)
     = Done (true, advance (length (@messages_text demo_rc_item demo_rc_spec demo_messages)) (Buf (@messages_text demo_rc_item demo_rc_spec demo_messages) 0),
             @mkDHT (@dht_messages demo_rc_item demo_oxenc) (mkBase (Some (demo_key 1)) 0 PATHID0) (map (received (demo_key 1) false) demo_messages)).
Proof.
  destruct (@dht_messages_roundtrip demo_rc_item demo_rc_spec demo_oxenc demo_oxenc_spec (mkBase (Some (demo_key 1)) 0 PATHID0) demo_messages (Buf (replicate 3000 0) 0)) as (b'&E&_&Hd).
  - exact demo_messages_ok.
  - vm_compute. lia.
  - vm_compute. lia.
  - exists b'. split; [exact E|]. apply (Hd 20%nat _ (demo_key 1) _ []); [reflexivity|unfold rem; cbn [base cur]; rewrite app_nil_r; reflexivity|vm_compute; lia].
Defined.
