(* ===== verification/RcLookup.v ===== *)
(** * Looking up router contacts

    [llarp/router/rc_lookup_handler.cpp]: which routers may be used, the callbacks
    that wait for a contact, and the lookups made for them.  The DHT context and the
    node database are those of [DhtContext]; what the context reports to the router
    ([CheckRC], results of lookups) is handed to the handler here, so the two run
    together.  Work put on the event loop or on a worker is in [jobs]; callbacks are
    numbers, and their calls are recorded. *)

From S2P Require Import Prelude Buffer Bencode Crypto Dht DhtTx DhtContext DhtProofs.
Open Scope Z_scope.

Inductive RCRequestResult := Success | InvalidRouter | RouterNotFound | BadRC.
Inductive Job := JobPutIfNewer (c : RouterContact) | JobPutNode (c : RouterContact) | JobDelNode (k : Key) | JobCheckRC (c : RouterContact).
#[export] Instance Job_eq_dec : EqDecision Job.
Proof. solve_decision. Defined.
(** A callback that was called, or a lookup that an endpoint of a hidden service
    took over. *)
Inductive Call := Callback (cb : Z) (router : Key) (found : option RouterContact) (result : RCRequestResult) | LookupAnon (router : Key).

(** What other parts of the router answer. *)
Record LEnv := mkLEnv {
  env : Env;
  IsPublicRouter : RouterContact -> bool;
  endpoints : list (Key -> bool);
  steady_now : Z;
  shuffle : list Key -> list Key;
  peers : list (bool * RouterContact) }.

Definition UpdateInterval : Z := (4 * 60 - 5) * 60000.
Definition StaleInsertionAge : Z := 4 * 60 * 60000.
(** Nanoseconds *)
Definition RerequestInterval : Z := 600 * 10 ^ 9.
Definition LookupPerTick : nat := 5.

Section Lookup.
Context `{Sodium}.

Record RCLookupHandler := mkHandler {
  _strictConnectPubkeys : gset Key;
  _bootstrapRCList : list RouterContact;
  _bootstrapRouterIDList : list Key;
  pendingCallbacks : gmap Key (list Z);
  useWhitelist : bool;
  isMasterNode : bool;
  whitelistRouters : gset Key;
  greylistRouters : gset Key;
  greenlistRouters : gset Key;
  _routerLookupTimes : gmap Key Z;
  _dht : Context;
  jobs : list Job;
  calls : list Call }.
Definition rl_pendingCallbacks (v : gmap Key (list Z)) (x : RCLookupHandler) : RCLookupHandler :=
  mkHandler (_strictConnectPubkeys x) (_bootstrapRCList x) (_bootstrapRouterIDList x) v (useWhitelist x) (isMasterNode x) (whitelistRouters x) (greylistRouters x) (greenlistRouters x) (_routerLookupTimes x) (_dht x) (jobs x) (calls x).
Definition rl_whitelistRouters (v : gset Key) (x : RCLookupHandler) : RCLookupHandler :=
  mkHandler (_strictConnectPubkeys x) (_bootstrapRCList x) (_bootstrapRouterIDList x) (pendingCallbacks x) (useWhitelist x) (isMasterNode x) v (greylistRouters x) (greenlistRouters x) (_routerLookupTimes x) (_dht x) (jobs x) (calls x).
Definition rl_greylistRouters (v : gset Key) (x : RCLookupHandler) : RCLookupHandler :=
  mkHandler (_strictConnectPubkeys x) (_bootstrapRCList x) (_bootstrapRouterIDList x) (pendingCallbacks x) (useWhitelist x) (isMasterNode x) (whitelistRouters x) v (greenlistRouters x) (_routerLookupTimes x) (_dht x) (jobs x) (calls x).
Definition rl_greenlistRouters (v : gset Key) (x : RCLookupHandler) : RCLookupHandler :=
  mkHandler (_strictConnectPubkeys x) (_bootstrapRCList x) (_bootstrapRouterIDList x) (pendingCallbacks x) (useWhitelist x) (isMasterNode x) (whitelistRouters x) (greylistRouters x) v (_routerLookupTimes x) (_dht x) (jobs x) (calls x).
Definition rl_routerLookupTimes (v : gmap Key Z) (x : RCLookupHandler) : RCLookupHandler :=
  mkHandler (_strictConnectPubkeys x) (_bootstrapRCList x) (_bootstrapRouterIDList x) (pendingCallbacks x) (useWhitelist x) (isMasterNode x) (whitelistRouters x) (greylistRouters x) (greenlistRouters x) v (_dht x) (jobs x) (calls x).
Definition rl_dht (v : Context) (x : RCLookupHandler) : RCLookupHandler :=
  mkHandler (_strictConnectPubkeys x) (_bootstrapRCList x) (_bootstrapRouterIDList x) (pendingCallbacks x) (useWhitelist x) (isMasterNode x) (whitelistRouters x) (greylistRouters x) (greenlistRouters x) (_routerLookupTimes x) v (jobs x) (calls x).
Definition rl_jobs (v : list Job) (x : RCLookupHandler) : RCLookupHandler :=
  mkHandler (_strictConnectPubkeys x) (_bootstrapRCList x) (_bootstrapRouterIDList x) (pendingCallbacks x) (useWhitelist x) (isMasterNode x) (whitelistRouters x) (greylistRouters x) (greenlistRouters x) (_routerLookupTimes x) (_dht x) v (calls x).
Definition rl_calls (v : list Call) (x : RCLookupHandler) : RCLookupHandler :=
  mkHandler (_strictConnectPubkeys x) (_bootstrapRCList x) (_bootstrapRouterIDList x) (pendingCallbacks x) (useWhitelist x) (isMasterNode x) (whitelistRouters x) (greylistRouters x) (greenlistRouters x) (_routerLookupTimes x) (_dht x) (jobs x) v.

(** ** The lists of routers *)

Definition AddValidRouter (router : Key) (h : RCLookupHandler) : RCLookupHandler := rl_whitelistRouters ({[router]} ∪ whitelistRouters h) h.
Definition RemoveValidRouter (router : Key) (h : RCLookupHandler) : RCLookupHandler := rl_whitelistRouters (whitelistRouters h ∖ {[router]}) h.
Definition loadColourList (new_beige : list Key) : gset Key := list_to_set new_beige.
Definition SetRouterWhitelist (whitelist greylist greenlist : list Key) (h : RCLookupHandler) : RCLookupHandler :=
  if bool_decide (whitelist = []) then h
  else rl_greenlistRouters (loadColourList greenlist) (rl_greylistRouters (loadColourList greylist) (rl_whitelistRouters (loadColourList whitelist) h)).
Definition HaveReceivedWhitelist (h : RCLookupHandler) : bool := negb (bool_decide (whitelistRouters h = ∅)).
Definition RemoteInBootstrap (remote : Key) (h : RCLookupHandler) : bool := existsb (fun c => bool_decide (pubkey c = remote)) (_bootstrapRCList h).
(** The test [IsGreylisted], [PathIsAllowed] and [SessionIsAllowed] begin with *)
Definition strict_refuses (remote : Key) (h : RCLookupHandler) : bool :=
  negb (bool_decide (size (_strictConnectPubkeys h) = 0%nat)) && negb (bool_decide (remote ∈ _strictConnectPubkeys h)) && negb (RemoteInBootstrap remote h).
Definition IsGreylisted (remote : Key) (h : RCLookupHandler) : bool :=
  if strict_refuses remote h then false else if negb (useWhitelist h) then false else bool_decide (remote ∈ greylistRouters h).
Definition IsGreenlisted (remote : Key) (h : RCLookupHandler) : bool := bool_decide (remote ∈ greenlistRouters h).
Definition IsRegistered (remote : Key) (h : RCLookupHandler) : bool :=
  bool_decide (remote ∈ whitelistRouters h) || bool_decide (remote ∈ greylistRouters h) || bool_decide (remote ∈ greenlistRouters h).
Definition PathIsAllowed (remote : Key) (h : RCLookupHandler) : bool :=
  if strict_refuses remote h then false else if negb (useWhitelist h) then true else bool_decide (remote ∈ whitelistRouters h).
Definition SessionIsAllowed (remote : Key) (h : RCLookupHandler) : bool :=
  if strict_refuses remote h then false else if negb (useWhitelist h) then true
  else bool_decide (remote ∈ whitelistRouters h) || bool_decide (remote ∈ greylistRouters h).
Definition NumberOfStrictConnectRouters (h : RCLookupHandler) : nat := size (_strictConnectPubkeys h).
(** A set is visited in the order of [elements]. *)
Definition GetRandomWhitelistRouter (h : RCLookupHandler) (g : rng) : option Key * rng :=
  let sz := size (whitelistRouters h) in
  if bool_decide (sz = 0%nat) then (None, g)
  else
    let '(i, g) := if bool_decide (1 < sz)%nat then let '(r, g) := randint g in (Z.to_nat (r mod Z.of_nat sz), g) else (0%nat, g) in
    (elements (whitelistRouters h) !! i, g).

(** ** Contacts *)

Definition PutRCNodeAsync (c : RouterContact) (h : RCLookupHandler) : RCLookupHandler := rl_jobs (jobs h ++ [JobPutNode c]) h.
Definition DelRCNodeAsync (k : Key) (h : RCLookupHandler) : RCLookupHandler := rl_jobs (jobs h ++ [JobDelNode k]) h.
Definition CheckRC (le : LEnv) (c : RouterContact) (h : RCLookupHandler) : bool * RCLookupHandler :=
  if negb (SessionIsAllowed (pubkey c) h) then (false, DelRCNodeAsync (pubkey c) h)
  else if negb (rc_Verify (env le) c) then (false, h)
  else if IsPublicRouter le c then (true, PutRCNodeAsync c (rl_jobs (jobs h ++ [JobPutIfNewer c]) h))
  else (true, h).
Definition CheckRenegotiateValid (newrc oldrc : RouterContact) (h : RCLookupHandler) : bool * RCLookupHandler :=
  if negb (bool_decide (pubkey newrc = pubkey oldrc)) then (false, h)
  else if negb (SessionIsAllowed (pubkey newrc) h) then (false, h)
  else
    let h := rl_jobs (jobs h ++ [JobCheckRC newrc]) h in
    (true, if HasNode (pubkey newrc) (_nodes (_dht h)) then rl_dht (cx__nodes (PutNode newrc (_nodes (_dht h))) (_dht h)) h else h).
(** What the loop and the workers do with a job *)
Definition run_job (le : LEnv) (j : Job) (h : RCLookupHandler) : RCLookupHandler :=
  let c := _dht h in
  match j with
  | JobPutIfNewer x => rl_dht (cx_nodedb (PutIfNewer (Now (env le)) x (nodedb c)) c) h
  | JobPutNode x => rl_dht (cx__nodes (PutNode x (_nodes c)) c) h
  | JobDelNode k => rl_dht (cx__nodes (DelNode k (_nodes c)) c) h
  | JobCheckRC x => (CheckRC le x h).2
  end.

(** ** Requests *)

Definition FinalizeRequest (router : Key) (found : option RouterContact) (result : RCRequestResult) (h : RCLookupHandler) : RCLookupHandler :=
  match pendingCallbacks h !! router with
  | Some movedCallbacks =>
      let h := rl_pendingCallbacks (delete router (pendingCallbacks h)) h in
      rl_calls (calls h ++ map (fun cb => Callback cb router found result) movedCallbacks) h
  | None => h
  end.
Definition HandleDHTLookupResult (le : LEnv) (remote : Key) (results : list RouterContact) (h : RCLookupHandler) : RCLookupHandler :=
  match results with
  | [] => FinalizeRequest remote None RouterNotFound h
  | first :: _ =>
      if negb (SessionIsAllowed remote h) then FinalizeRequest remote (Some first) InvalidRouter h
      else
        let '(ok, h) := CheckRC le first h in
        if negb ok then FinalizeRequest remote (Some first) BadRC h else FinalizeRequest remote (Some first) Success h
  end.
Definition HavePendingLookup (remote : Key) (h : RCLookupHandler) : bool := match pendingCallbacks h !! remote with Some _ => true | None => false end.

(** The environment of the DHT, with the answers the handler gives *)
Definition dht_env (le : LEnv) (h : RCLookupHandler) : Env :=
  let e := env le in
  mkEnv (Now e) (rc_Verify e) (rc_IsExpired e) (rc_ExpiresSoon e) (fun c => (CheckRC le c h).1) (our_rc e) (fun k => SessionIsAllowed k h)
    (IsBadForConnect e) (GetByUpstream e) (path_takes e) (has_pathset e) (pathset_takes e) (has_peerDb e) (IsMasterNode e).

Definition call_back (callback : option Z) (router : Key) (found : option RouterContact) (result : RCRequestResult) (h : RCLookupHandler) : RCLookupHandler :=
  match callback with Some cb => rl_calls (calls h ++ [Callback cb router found result]) h | None => h end.
(** An entry of [pendingCallbacks] is made if there is none, and takes the callback. *)
Definition waits (r : Key) (cb : option Z) (h : RCLookupHandler) : RCLookupHandler :=
  rl_pendingCallbacks (<[r := default [] (pendingCallbacks h !! r) ++ option_list cb]> (pendingCallbacks h)) h.
Definition GetRC (le : LEnv) (router : Key) (callback : option Z) (forceLookup : bool) (h : RCLookupHandler) : outcome RCLookupHandler :=
  match (if forceLookup then None else Get router (nodedb (_dht h))) with
  | Some remoteRC => Done (FinalizeRequest router (Some remoteRC) Success (call_back callback router (Some remoteRC) Success h))
  | None =>
      let shouldDoLookup := negb (HavePendingLookup router h) in
      let h := waits router callback h in
      if negb shouldDoLookup then Done h
      else if negb (isMasterNode h) && existsb (fun ep => ep router) (endpoints le) then Done (rl_calls (calls h ++ [LookupAnon router]) h)
      else
        let! (ok, c) := LookupRouter (dht_env le h) router (LookupResult router) (_dht h) in
        let h := rl_dht c h in
        Done (if negb ok then FinalizeRequest router None RouterNotFound h
              else rl_routerLookupTimes (<[router := steady_now le]> (_routerLookupTimes h)) h)
  end.
Fixpoint get_all (le : LEnv) (routers : list Key) (h : RCLookupHandler) : outcome RCLookupHandler :=
  match routers with
  | [] => Done h
  | r :: routers => let! h := GetRC le r None true h in get_all le routers h
  end.
Definition PeriodicUpdate (le : LEnv) (now : Z) (h : RCLookupHandler) : outcome RCLookupHandler :=
  let routersToLookUp := VisitInsertedBefore (fun (s : gset Key) c => if HavePendingLookup (pubkey c) h then s else {[pubkey c]} ∪ s)
                           (now - UpdateInterval) (nodedb (_dht h)) ∅ in
  let! h := get_all le (elements routersToLookUp) h in
  let c := _dht h in
  Done (rl_dht (cx_nodedb (RemoveStaleRCs (_bootstrapRouterIDList h) (now - StaleInsertionAge) (nodedb c)) c) h).

(** The loop over the whitelist: [operator[]] makes an entry for a router that has none. *)
Fixpoint lookup_due (le : LEnv) (routers : list Key) (lookupRouters : list Key) (h : RCLookupHandler) : list Key * RCLookupHandler :=
  match routers with
  | [] => (lookupRouters, h)
  | r :: routers =>
      let h := match _routerLookupTimes h !! r with Some _ => h | None => rl_routerLookupTimes (<[r := 0]> (_routerLookupTimes h)) h end in
      let due := (default 0 (_routerLookupTimes h !! r) + RerequestInterval <? steady_now le) && negb (Has r (nodedb (_dht h))) in
      lookup_due le routers (if due then lookupRouters ++ [r] else lookupRouters) h
  end.
Definition explore_via (le : LEnv) (routers : list Key) (h : RCLookupHandler) : outcome RCLookupHandler :=
  let! c := explore_all (dht_env le h) routers (_dht h) in Done (rl_dht c h).
Definition ExploreNetwork (le : LEnv) (h : RCLookupHandler) : outcome RCLookupHandler :=
  let known := NumLoaded (nodedb (_dht h)) in
  let bootstrap := length (_bootstrapRCList h) in
  let! h := if bool_decide (bootstrap = 0%nat) && bool_decide (known = 0%nat) then Done h
            else if bool_decide (known <= bootstrap)%nat then explore_via le (map pubkey (_bootstrapRCList h)) h
            else Done h in
  if useWhitelist h then
    let '(lookupRouters, h) := lookup_due le (elements (whitelistRouters h)) [] h in
    let lookupRouters := if bool_decide (LookupPerTick < length lookupRouters)%nat then take LookupPerTick (shuffle le lookupRouters) else lookupRouters in
    get_all le lookupRouters h
  else if IsMasterNode (env le) then Done h
  else
    let public := base.filter (fun s => s.1 = true /\ IsPublicRouter le s.2 = true /\ RemoteInBootstrap (pubkey s.2) h = false) (peers le) in
    explore_via le (map (fun s => pubkey s.2) public) h.
Definition Handler_Init (dht : Context) (strictConnectPubkeys : gset Key) (bootstrapRCList : list RouterContact) (useWhitelist_arg isMasterNode_arg : bool)
  : RCLookupHandler :=
  mkHandler strictConnectPubkeys bootstrapRCList (fold_left (fun s c => set_insert (pubkey c) s) bootstrapRCList []) ∅ useWhitelist_arg isMasterNode_arg
    ∅ ∅ ∅ ∅ dht [] [].

(** ** The handler and the DHT together *)

(** [Router::HandleDHTLookupForExplore] *)
Definition HandleDHTLookupForExplore (le : LEnv) (results : list RouterContact) (h : RCLookupHandler) : RCLookupHandler :=
  fold_left (fun h c => (CheckRC le c h).2) results h.
(** What the DHT calls on the router. *)
Definition on_event (le : LEnv) (h : RCLookupHandler) (ev : DhtEvent) : RCLookupHandler :=
  match ev with
  | DhtContext.CheckRC c => (CheckRC le c h).2
  | RouterResult (LookupResult router) found => HandleDHTLookupResult le router found h
  | RouterResult (ExploreResult _) found => HandleDHTLookupForExplore le found h
  | _ => h
  end.
Definition after (le : LEnv) (c : Context) (h : RCLookupHandler) : RCLookupHandler :=
  fold_left (on_event le) (new_events (_dht h) c) (rl_dht c h).
Definition receive (le : LEnv) (msg : DhtMessage) (h : RCLookupHandler) : outcome RCLookupHandler :=
  let! (ok, replies, c) := HandleMessage (dht_env le h) msg (_dht h) in Done (after le c h).
Definition timer (le : LEnv) (h : RCLookupHandler) : outcome RCLookupHandler :=
  let! c := handle_cleaner_timer (dht_env le h) (_dht h) in Done (after le c h).

(** ** Lookups stay with the DHT until they are answered *)

(** A lookup for the handler. *)
Definition job_pending (c : Context) (router : Key) : Prop :=
  exists o t, tx (pendingRouterLookups c) !! o = Some t /\ target t = router /\ job t = RecursiveRouterLookup (LookupResult router).
Definition answered (router : Key) (l : list DhtEvent) : Prop := exists found, RouterResult (LookupResult router) found ∈ l.

(** No transaction of the context is given later than [n]. *)
Record good (n : Z) (c : Context) : Prop := {
  good_holder : holder_ok (pendingRouterLookups c);
  good_ids : ids_ok c;
  good_bound : forall k d, timeouts (pendingRouterLookups c) !! k = Some d -> d <= n }.
Definition follows (n : Z) (c c' : Context) : Prop :=
  good n c' /\ exists l, events c' = events c ++ l /\ forall r, job_pending c r -> job_pending c' r \/ answered r l.

Lemma answered_app r l1 l2 : answered r (l1 ++ l2) <-> answered r l1 \/ answered r l2.
Proof. unfold answered. setoid_rewrite elem_of_app. naive_solver. Qed.
Lemma follows_trans n c1 c2 c3 : follows n c1 c2 -> follows n c2 c3 -> follows n c1 c3.
Proof.
  intros (_&l1&E1&H1) (Hg&l2&E2&H2). split; [done|]. exists (l1 ++ l2). split; [by rewrite E2, E1, app_assoc|].
  intros r Hr. rewrite answered_app. destruct (H1 r Hr) as [Hr'|]; [|tauto]. destruct (H2 r Hr'); tauto.
Qed.
(** What leaves the lookups of routers alone *)
Lemma follows_frame n c c' l : good n c -> pendingRouterLookups c' = pendingRouterLookups c -> events c' = events c ++ l -> ids_ok c' -> follows n c c'.
Proof.
  intros [Hh _ Hb] E El Hi. split; [by split; rewrite ?E|]. exists l. split; [done|]. intros r Hr. left. unfold job_pending. by rewrite E.
Qed.
Lemma follows_refl n c : good n c -> follows n c c.
Proof. intros Hg. apply (follows_frame n c c []); [done|done|by rewrite app_nil_r|apply Hg]. Qed.
Lemma follows_silent n c c' : good n c -> silent c c' -> follows n c c'.
Proof. intros Hg [l ->]. apply (follows_frame n c _ l); [done..|]. by apply (silent_ids c (says l c)); [exists l|apply Hg]. Qed.

(** A new transaction joins those there are. *)
Lemma follows_new n e p t c c' : good n c -> ids c + 1 < 2 ^ 64 -> Now e + 15000 <= n ->
  new_router_tx e (mkOwner p (ids c + 1)) t (cx_ids (ids c + 1) c) = Done c' ->
  follows n c c' /\ tx (pendingRouterLookups c') !! mkOwner p (ids c + 1) = Some t /\ tx (pendingRouterLookups c) ⊆ tx (pendingRouterLookups c').
Proof.
  intros [Hh Hi Hb] Hw Hn E. destruct (router_advances e p t c Hi) as (c1&E1&Hok&_). rewrite E in E1. injection E1 as <-.
  assert (tx (pendingRouterLookups c) !! mkOwner p (ids c + 1) = None) as Hno.
  { apply eq_None_not_Some. intros Hs. apply (owner_fresh c p Hi). by left. }
  unfold new_router_tx in E. cbn [pendingRouterLookups cx_ids] in E. destruct (NewTX _ _ _ _ _ _) as [[st h]| |] eqn:Et; [|discriminate..].
  cbn [obind] in E. injection E as E. destruct (new_ok (router_Validate e) _ _ _ _ _ _ _ Hh Hno Et) as (Hh'&_&Htx&Hto&_).
  assert (silent (cx_pendingRouterLookups h (cx_ids (ids c + 1) c)) c') as [l ->] by (rewrite <- E; apply silent_if; [apply send_silent|reflexivity]).
  clear E. split; [|cbn; rewrite Htx; split; [apply lookup_insert_eq|by apply insert_subseteq]]. split.
  - split; [done|done|]. cbn. intros k d. rewrite Hto. destruct (timeouts (pendingRouterLookups c) !! target t); [apply Hb|].
    intros [[_ <-]|[_ Hd]]%lookup_insert_Some; [lia|by eapply Hb].
  - exists l. split; [done|]. intros r (o&t'&Ho&Ht'). left. exists o, t'. cbn. rewrite Htx. split; [|done]. rewrite lookup_insert_ne; [done|congruence].
Qed.
Lemma follows_recursive n e t who id p h c c' : good n c -> ids c + 1 < 2 ^ 64 -> Now e + 15000 <= n -> LookupRouterRecursive e t who id p h c = Done c' ->
  follows n c c' /\ tx (pendingRouterLookups c) ⊆ tx (pendingRouterLookups c') /\ (h = LookupResult t -> job_pending c' t).
Proof.
  intros Hg Hw Hn. unfold LookupRouterRecursive. rewrite next_id by (done || apply Hg). intros E. destruct (follows_new _ _ _ _ _ _ Hg Hw Hn E) as (Hf&Ht&Hs).
  split_and!; [done..|]. intros ->. by eexists _, _.
Qed.
Lemma follows_lookup n e t h c ok c' : good n c -> ids c + 1 < 2 ^ 64 -> Now e + 15000 <= n -> LookupRouter e t h c = Done (ok, c') ->
  follows n c c' /\ tx (pendingRouterLookups c) ⊆ tx (pendingRouterLookups c') /\ (ok = true -> h = LookupResult t -> job_pending c' t).
Proof.
  intros Hg Hw Hn. unfold LookupRouter. destruct (FindClosest _ _ _) as [[] askpeer]; cbn [negb].
  - destruct (LookupRouterRecursive _ _ _ _ _ _ _) as [c1| |] eqn:E; cbn [obind]; [|discriminate..]. intros [= <- <-].
    destruct (follows_recursive _ _ _ _ _ _ _ _ _ Hg Hw Hn E) as (?&?&?). auto.
  - intros [= <- <-]. split_and!; [by apply follows_refl|done|done].
Qed.
Lemma follows_explore_reply n e l : forall c c', good n c -> ids c + Z.of_nat (length l) < 2 ^ 64 -> Now e + 15000 <= n ->
  explore_SendReply e l c = Done c' -> follows n c c'.
Proof.
  induction l as [|pk l IH]; intros c c' Hg Hw Hn E; cbn [explore_SendReply length] in *; [injection E as <-; by apply follows_refl|].
  case_match; [apply IH; [done|lia|done..]|]. destruct (lookup_advances e pk (ExploreResult pk) c) as (ok&c1&E1&_&Hi); [apply Hg|lia|].
  rewrite E1 in E. cbn [obind] in E. destruct (follows_lookup n _ _ _ _ _ _ Hg ltac:(lia) Hn E1) as [Hf _]. eapply follows_trans; [exact Hf|].
  apply IH; [apply Hf|lia|done..].
Qed.
Lemma follows_explore n e N l : forall c c', good n c -> Forall (fun x => length (valuesFound x.2) <= N)%nat l -> ids c + Z.of_nat (N * length l) < 2 ^ 64 ->
  Now e + 15000 <= n -> explore_replies e l c = Done c' -> follows n c c'.
Proof.
  induction l as [|x l IH]; intros c c' Hg Hl Hw Hn E; cbn [explore_replies length] in *; [injection E as <-; by apply follows_refl|].
  apply Forall_cons in Hl as [Hx Hl]. rewrite Nat.mul_succ_r in Hw.
  destruct (explore_reply_advances e (valuesFound x.2) c) as (c1&E1&_&Hi); [apply Hg|lia|]. rewrite E1 in E. cbn [obind] in E.
  assert (follows n c c1) as Hf by (eapply follows_explore_reply; [done| |done|exact E1]; lia).
  eapply follows_trans; [exact Hf|]. eapply IH; [apply Hf|done| |done|exact E]. lia.
Qed.

(** Those replied to are told of the result. *)
Lemma reply_answers e t c r : job t = RecursiveRouterLookup (LookupResult r) -> exists l, events (router_SendReply e t c) = events c ++ l /\ answered r l.
Proof.
  intros Ej. unfold router_SendReply. rewrite Ej. unfold recursive_SendReply.
  destruct (if bool_decide (length (valuesFound t) = 0%nat) then _ else _) as [values c1] eqn:E. cbn [has_handler].
  assert (silent c c1) as [l1 ->].
  { revert E. case_bool_decide; [by intros [= _ <-]|]. pose proof (newest_checked_silent e (valuesFound t) RouterContact_new c) as Hs.
    destruct (newest_checked _ _ _ _) as [found c2]. by intros [= _ <-]. }
  assert (silent (emit (RouterResult (LookupResult r) values) (says l1 c))
    (if bool_decide (node (whoasked t) = ourKey (emit (RouterResult (LookupResult r) values) (says l1 c))) then emit (RouterResult (LookupResult r) values) (says l1 c)
     else DHTSendTo e (node (whoasked t)) (GRM key_zero (txid (whoasked t)) values false) (emit (RouterResult (LookupResult r) values) (says l1 c)))) as [l2 ->].
  { apply silent_if; [reflexivity|apply send_silent]. }
  exists (l1 ++ RouterResult (LookupResult r) values :: l2). cbn. split; [by rewrite <- !app_assoc|]. exists values. apply elem_of_app. right. left.
Qed.
Lemma replies_announce e l : forall c, exists evs, router_replies e l c = says evs c
  /\ forall x r, x ∈ l -> job x.2 = RecursiveRouterLookup (LookupResult r) -> answered r evs.
Proof.
  induction l as [|x l IH]; intros c.
  { exists []. unfold says. rewrite app_nil_r. split; [by destruct c|]. intros x r Hx. by apply elem_of_nil in Hx. }
  unfold router_replies. cbn [fold_left]. destruct (router_reply_silent e x.2 c) as [l1 E1]. destruct (IH (router_SendReply e x.2 c)) as (l2&E2&H2).
  exists (l1 ++ l2). unfold router_replies in E2. rewrite E2, E1. split; [unfold says; cbn; by rewrite app_assoc|]. intros y r Hy Hj.
  rewrite answered_app. apply elem_of_cons in Hy as [->|Hy]; [left|right; by eapply H2]. destruct (reply_answers e x.2 c r Hj) as (l3&E3&H3).
  rewrite E1 in E3. cbn in E3. by apply app_inv_head in E3 as ->.
Qed.

(** An operation that replies to some of the pending transactions *)
Lemma follows_answer n e h r c : good n c -> holder_ok h -> timeouts h ⊆ timeouts (pendingRouterLookups c) -> tx h ⊆ tx (pendingRouterLookups c) ->
  pending (pendingRouterLookups c) ≡ₚ r.*1 ++ pending h ->
  (forall x, x ∈ r -> exists t, tx (pendingRouterLookups c) !! x.1 = Some t /\ job x.2 = job t) ->
  follows n c (router_replies e r (cx_pendingRouterLookups h c)).
Proof.
  intros [Hh Hi Hb] Hh' Hto Htx Hp Hr. destruct (replies_announce e r (cx_pendingRouterLookups h c)) as (evs&E&Ha). rewrite E. split.
  - split; [done| |intros k d Hk; eapply Hb; by eapply lookup_weaken].
    eapply (silent_ids (cx_pendingRouterLookups h c) (says evs (cx_pendingRouterLookups h c))); [by exists evs|]. by apply shrink_router.
  - exists evs. split; [done|]. intros k (o&t&Ho&Ht&Hj). assert (o ∈ pending (pendingRouterLookups c)) as Hin by (apply elem_of_pending; by exists t).
    rewrite Hp, elem_of_app in Hin. destruct Hin as [(x&->&Hx)%list_elem_of_fmap|[t' Ht']%elem_of_pending].
    + right. apply (Ha x k Hx). destruct (Hr x Hx) as (t'&Ht'&->). congruence.
    + left. exists o, t. cbn. split; [|done]. rewrite Ht'. rewrite <- Ho. symmetry. by eapply lookup_weaken.
Qed.
Lemma follows_inform n e from k values c : good n c ->
  let '(h, r) := Inform (router_Validate e) from k values true true (pendingRouterLookups c) in follows n c (router_replies e r (cx_pendingRouterLookups h c)).
Proof.
  intros Hg. pose proof (inform_ok (router_Validate e) from k values _ (good_holder n c Hg)) as Hi.
  destruct (inform_replies (router_Validate e) from k values true (pendingRouterLookups c)) as (r'&Er&_&_&Hr).
  destruct (Inform _ _ _ _ _ _ _) as [h r]. cbn in Er. subst r'. destruct Hi as (Hh&Hp&_&Hto&Htx).
  apply follows_answer; [done|done|rewrite Hto; apply delete_subseteq|done|done|]. intros x Hx. rewrite Forall_forall in Hr.
  destruct (Hr x Hx) as (t&Ht&->). exists t. split; [done|apply found_job].
Qed.
Lemma expire_follows n e c : good n c ->
  let '(h, r) := DhtTx.Expire (router_Validate e) (Now e) (pendingRouterLookups c) in
  follows n c (router_replies e r (cx_pendingRouterLookups h c)) /\ (n <= Now e -> tx h = ∅).
Proof.
  intros Hg. destruct (expire_ok (router_Validate e) (Now e) _ (good_holder n c Hg)) as (Hh&Hp&Hto&Htx&Hex).
  destruct (expire_loop_replies (router_Validate e) (Now e) (map_to_list (timeouts (pendingRouterLookups c))) (pendingRouterLookups c) []) as (r'&Er&_&Hr).
  change (expire_loop _ _ _ _ _) with (DhtTx.Expire (router_Validate e) (Now e) (pendingRouterLookups c)) in Er.
  destruct (DhtTx.Expire _ _ _) as [h r]. cbn in *. subst r'. split.
  - apply follows_answer; [done..|]. intros x Hx. rewrite Forall_forall in Hr. exists x.2. split; [by apply Hr|done].
  - intros Hn. apply map_empty. intros o. destruct (tx h !! o) as [t|] eqn:Et; [|done]. exfalso.
    assert ((target t, o) ∈ waiting h) as Hw by (apply (ok_waiting h Hh); by exists t). apply (list_elem_of_fmap_2 fst) in Hw.
    apply (ok_timeouts h Hh) in Hw as [d Hd]. cbn in Hd. assert (timeouts (pendingRouterLookups c) !! target t = Some d) as Hd' by (by eapply lookup_weaken).
    rewrite (Hex _ _ Hd') in Hd; [done|]. pose proof (good_bound n c Hg _ _ Hd'). lia.
Qed.

(** What concerns introduction sets leaves the lookups of routers alone. *)
Definition aside (c c' : Context) : Prop := pendingRouterLookups c' = pendingRouterLookups c /\ exists l, events c' = events c ++ l.
#[local] Instance aside_preorder : PreOrder aside.
Proof.
  split.
  - intros c. split; [done|]. exists []. by rewrite app_nil_r.
  - intros c1 c2 c3 [E1 [l1 H1]] [E2 [l2 H2]]. split; [congruence|]. exists (l1 ++ l2). by rewrite H2, H1, app_assoc.
Qed.
Lemma silent_aside c c' : silent c c' -> aside c c'.
Proof. intros [l ->]. split; [done|by exists l]. Qed.
Lemma aside_same (c c' : Context) : pendingRouterLookups c' = pendingRouterLookups c -> events c' = events c -> aside c c'.
Proof. intros E El. split; [done|]. exists []. by rewrite app_nil_r. Qed.
Lemma new_intro_aside e p d t c c' : new_intro_tx e p d t c = Done c' -> aside c c'.
Proof.
  unfold new_intro_tx. destruct (NewTX _ _ _ _ _ _) as [[st h]| |]; cbn [obind]; [|discriminate..]. intros [= <-].
  etransitivity; [by apply (aside_same c (cx_pendingIntrosetLookups h c))|]. apply silent_aside, silent_if; [|reflexivity].
  unfold intro_Start. destruct (job t); apply send_silent.
Qed.
Lemma intro_answers_aside e h r c : aside c (intro_replies e r (cx_pendingIntrosetLookups h c)).
Proof. etransitivity; [by apply (aside_same c (cx_pendingIntrosetLookups h c))|]. apply silent_aside, intro_replies_silent. Qed.
Lemma propagate_aside e f p i r id l k c replies c' : propagateIfNotUs e f p i r id l k c = Done (replies, c') -> aside c c'.
Proof.
  unfold propagateIfNotUs. destruct (l !! k) as [rc|]; [|discriminate]. case_bool_decide; [intros [= _ <-]; by apply aside_same|].
  destruct r; [unfold PropagateLocalIntroSet|unfold PropagateIntroSetTo]; unfold NextID; cbn zeta;
    (destruct (new_intro_tx _ _ _ _ _) as [c1| |] eqn:E; cbn [obind]; [|discriminate..]); intros [= _ <-]; apply new_intro_aside in E;
    (etransitivity; [|exact E]); by apply aside_same.
Qed.
Lemma publish_aside e f p i r o id c ok replies c' : handle_PublishIntro e f p i r o id c = Done (ok, replies, c') -> aside c c'.
Proof.
  unfold handle_PublishIntro. intros E. repeat (case_match; [simplify_eq; by apply aside_same|]). destruct r.
  - case_match; [simplify_eq; reflexivity|]. destruct (propagateIfNotUs _ _ _ _ _ _ _ _ _) as [[r c1]| |] eqn:Hp; simplify_eq/=. by apply propagate_aside in Hp.
  - case_match; simplify_eq; by apply aside_same.
Qed.
Lemma find_intro_aside e f p l t id r o c ok replies c' : handle_FindIntro e f p l t id r o c = Done (ok, replies, c') -> aside c c'.
Proof.
  unfold handle_FindIntro. intros E. repeat (case_match; try (simplify_eq; reflexivity)).
  destruct (LookupIntroSetForPath _ _ _ _ _ _ _) as [c1| |] eqn:Hl; simplify_eq/=. unfold LookupIntroSetForPath, NextID in Hl. cbn zeta in Hl.
  apply new_intro_aside in Hl. etransitivity; [|exact Hl]. by apply aside_same.
Qed.
Lemma got_intro_aside e f found id c : aside c (handle_GotIntro e f found id c).2.
Proof.
  unfold handle_GotIntro. case_match; [reflexivity|]. case_match; [|reflexivity]. case_bool_decide; case_match; apply intro_answers_aside.
Qed.
Lemma aside_follows n c c' : good n c -> ids_ok c' -> aside c c' -> follows n c c'.
Proof. intros Hg Hi [E [l El]]. by apply (follows_frame n c c' l). Qed.

(** Messages about routers *)
Lemma got_router_follows n e m f p rcs near id r c ok replies c' : good n c -> Now e + 15000 <= n ->
  ids c + Z.of_nat (length near * length (waiting (pendingExploreLookups c))) < 2 ^ 64 ->
  handle_GotRouter e m f p rcs near id r c = Done (ok, replies, c') -> follows n c c'.
Proof.
  intros Hg Hn Hw. unfold handle_GotRouter.
  destruct r; [pose proof (to_pathset_silent e p m c) as Hs; destruct (to_pathset _ _ _ _); intros [= _ _ <-]; by apply follows_silent|].
  destruct (HasPendingLookupFrom _ (pendingExploreLookups c)).
  - fold (explore_answer near f id (pendingExploreLookups c)). pose proof (explore_answered c f id near (good_ids n c Hg)) as Ha.
    destruct (explore_answer _ _ _ _) as [h l]. destruct Ha as (Hs&Hl&Hv).
    destruct (explore_replies _ _ _) as [c1| |] eqn:Ex; cbn [obind]; [|discriminate..]. intros [= _ _ <-].
    assert (follows n c (cx_pendingExploreLookups h c)) as Hf.
    { apply (follows_frame n c _ []); [done|done|by rewrite app_nil_r|apply shrink_explore; [apply Hg|done]]. }
    eapply follows_trans; [exact Hf|]. eapply follows_explore; [apply Hf|exact Hv| |done|exact Ex]. cbn. nia.
  - destruct (HasPendingLookupFrom _ (pendingRouterLookups c)).
    + destruct rcs as [|first rcs].
      * unfold DhtTx.NotFound. destruct (tx (pendingRouterLookups c) !! _) as [t|].
        -- pose proof (follows_inform n e (mkOwner f id) (target t) [] c Hg) as Hf. destruct (Inform _ _ _ _ _ _ _). by intros [= _ _ <-].
        -- intros [= _ _ <-]. apply (follows_frame n c _ []); [done|done|by rewrite app_nil_r|]. destruct (good_ids n c Hg). by split.
      * case_match; [intros [= _ _ <-]; by apply follows_refl|]. unfold Found.
        pose proof (follows_inform n e (mkOwner f id) (pubkey first) (first :: rcs) c Hg) as Hf. destruct (Inform _ _ _ _ _ _ _). by intros [= _ _ <-].
    + pose proof (store_silent e id rcs c). destruct (store_if_valid _ _ _ _). intros [= _ _ <-]. by apply follows_silent.
Qed.

Lemma find_router_follows n e f t it ex id c ok replies c' : good n c -> Now e + 15000 <= n -> ids c + 1 < 2 ^ 64 ->
  handle_FindRouter e f t it ex id c = Done (ok, replies, c') -> follows n c c'.
Proof.
  intros Hg Hn Hw. pose proof (follows_refl n c Hg) as Hsame. unfold handle_FindRouter. intros E.
  repeat (case_match; [by simplify_eq/=|]). case_match.
  { destruct (HandleExploritoryRouterLookup _ _ _ _ _). by simplify_eq/=. }
  unfold LookupRouterRelayed in E. repeat (case_match; try (by simplify_eq/=));
    (destruct (LookupRouterRecursive _ _ _ _ _ _ _) eqn:El; cbn in E; simplify_eq/=; by eapply follows_recursive in El as (?&_)).
Qed.
Lemma relayed_find_follows n e p t id c ok replies c' : good n c -> Now e + 15000 <= n -> ids c + 1 < 2 ^ 64 ->
  handle_RelayedFindRouter e p t id c = Done (ok, replies, c') -> follows n c c'.
Proof.
  intros Hg Hn Hw. pose proof (follows_refl n c Hg) as Hsame. unfold handle_RelayedFindRouter. intros E.
  repeat (case_match; try (by simplify_eq/=)). unfold LookupRouterForPath in E. rewrite next_id in E by (done || apply Hg).
  destruct (new_router_tx _ _ _ _) as [c1| |] eqn:El; cbn in E; simplify_eq/=. by apply (follows_new n) in El as [? _].
Qed.
Lemma message_follows n e msg c ok replies c' : good n c -> Now e + 15000 <= n -> ids c + Z.of_nat (demand msg c) < 2 ^ 64 ->
  HandleMessage e msg c = Done (ok, replies, c') -> follows n c c'.
Proof.
  intros Hg Hn Hw E. destruct (messages_handled e msg c (good_ids n c Hg) Hw) as (ok1&r1&c1&E1&Hi&_). rewrite E in E1. injection E1 as <- <- <-.
  pose proof (fun Ha => aside_follows n c c' Hg Hi Ha) as Haside. destruct msg; cbn [HandleMessage demand] in *.
  - by eapply find_router_follows.
  - by eapply relayed_find_follows.
  - by eapply got_router_follows.
  - by eapply Haside, find_intro_aside.
  - apply Haside. pose proof (got_intro_aside e From found id c) as Ha. case_match. by simplify_eq/=.
  - apply Haside, silent_aside. pose proof (to_pathset_silent e pathID (RelayedGotIntroMessage From pathID found id) c). case_match. by simplify_eq/=.
  - by eapply Haside, publish_aside.
  - apply Haside, silent_aside. unfold handle_FindName in E. destruct (key_is_zero pathID || negb (IsMasterNode e)); simplify_eq/=; [reflexivity|apply emit_silent].
  - apply Haside, silent_aside. pose proof (to_pathset_silent e pathID (GotNameMessage From pathID ciphertext nonce id) c). case_match. by simplify_eq/=.
Qed.
Lemma explore_empty_replies e l c : Forall (fun x => valuesFound x.2 = []) l -> explore_replies e l c = Done c.
Proof. intros Hl. induction Hl as [|x l Hx Hl IH]; [done|]. cbn [explore_replies]. rewrite Hx. cbn [explore_SendReply obind]. exact IH. Qed.
(** The timer answers every lookup whose time has come. *)
Lemma timer_follows n e c c' : good n c -> handle_cleaner_timer e c = Done c' -> ids_ok c' ->
  follows n c c' /\ (n <= Now e -> forall r, ~ job_pending c' r).
Proof.
  intros Hg E Hi'. unfold handle_cleaner_timer, CleanupTX in E. pose proof (expire_follows n e c Hg) as H1.
  destruct (DhtTx.Expire _ _ (pendingRouterLookups c)) as [h1 r1]. destruct H1 as [Hf Hn]. pose proof Hf as [Hg1 _].
  destruct (router_replies_silent e r1 (cx_pendingRouterLookups h1 c)) as [l1 E1]. set (c1 := router_replies _ _ _) in *.
  assert (pendingRouterLookups c1 = h1) as Eh by (by rewrite E1). clear E1 l1.
  destruct (expire_loop_replies (intro_job_Validate e) (Now e) (map_to_list (timeouts (pendingIntrosetLookups c1))) (pendingIntrosetLookups c1) []) as (_&_&H2&_).
  change (expire_loop _ _ _ _ _) with (DhtTx.Expire (intro_job_Validate e) (Now e) (pendingIntrosetLookups c1)) in H2.
  destruct (DhtTx.Expire _ _ (pendingIntrosetLookups c1)) as [h2 r2].
  pose proof (intro_answers_aside e h2 r2 c1) as [Ea [l2 El2]].
  destruct (silent_ids _ _ (intro_replies_silent e r2 (cx_pendingIntrosetLookups h2 c1)) (shrink_intro c1 h2 (good_ids n c1 Hg1) H2)) as [Hi2 _].
  set (c2 := intro_replies _ _ _) in *.
  destruct (expire_loop_replies (fun (_ : ExploreTX) (_ : Key) => true) (Now e) (map_to_list (timeouts (pendingExploreLookups c2))) (pendingExploreLookups c2) [])
    as (r3&Er3&_&Hr3).
  change (expire_loop _ _ _ _ _) with (DhtTx.Expire (fun (_ : ExploreTX) (_ : Key) => true) (Now e) (pendingExploreLookups c2)) in Er3.
  destruct (DhtTx.Expire _ _ (pendingExploreLookups c2)) as [h3 r3']. cbn in Er3. subst r3'.
  rewrite explore_empty_replies in E by (eapply Forall_impl; [exact Hr3|]; intros x Hx; exact (explores_empty c2 Hi2 _ _ Hx)).
  cbn [obind] in E. injection E as <-. split.
  - eapply follows_trans; [exact Hf|]. by apply (follows_frame n c1 _ l2).
  - intros Hle r (o&t&Ho&_). cbn in Ho. rewrite Ea, Eh, (Hn Hle) in Ho. by rewrite lookup_empty in Ho.
Qed.

(** Explorations are transactions of their own. *)
Definition explored (k : Z) (c c' : Context) : Prop := ids_ok c' /\ pendingRouterLookups c' = pendingRouterLookups c /\ ids c' = ids c + k.
Lemma via_explored e p c : ids_ok c -> ids c + 1 < 2 ^ 64 -> exists c', ExploreNetworkVia e p c = Done c' /\ explored 1 c c'.
Proof.
  intros Hok Hw. unfold ExploreNetworkVia. rewrite next_id by done.
  destruct (new_fresh (mkOwner p (ids c + 1)) p (mkTX p [] [] TXOwner_new () : ExploreTX) (Now e) 15000 (pendingExploreLookups c)) as (st&h&E&Eh).
  { apply eq_None_not_Some. intros Hs. apply (owner_fresh c p Hok). by right; right. }
  cbn [pendingExploreLookups cx_ids]. rewrite E. cbn [obind]. eexists. split; [done|]. set (c1 := cx_pendingExploreLookups h _).
  assert (ids_ok c1) as Hc1.
  { destruct Hok as [H0 Hp Hi He]. split; cbn; [lia| |done|].
    - intros o Ho. unfold owned in Ho. cbn in Ho. rewrite Eh in Ho.
      destruct Ho as [Ho|[Ho|[->|Ho]%insert_owned]]; [| |cbn; lia|]; (assert (txid o <= ids c) by (apply Hp; unfold owned; tauto); lia).
    - intros o t. rewrite Eh. intros [[_ <-]|[_ Ho]]%lookup_insert_Some; [done|by eapply He]. }
  destruct st; [|done]. unfold explore_Start. destruct (randbytes KEYSIZE (rnd c1)) as [k g]. split; [|done]. destruct Hc1; by split.
Qed.
Lemma explore_all_explored e l : forall c, ids_ok c -> ids c + Z.of_nat (length l) < 2 ^ 64 ->
  exists c', explore_all e l c = Done c' /\ explored (Z.of_nat (length l)) c c'.
Proof.
  induction l as [|p l IH]; intros c Hg Hw; cbn [explore_all length] in *.
  { exists c. unfold explored. split_and!; [done..|lia]. }
  destruct (via_explored e p c Hg) as (c1&E1&Hi&Ep&En); [lia|]. rewrite E1. cbn [obind]. destruct (IH c1 Hi) as (c2&E2&Hi2&Ep2&En2); [lia|].
  exists c2. unfold explored. split_and!; [done..|congruence|lia].
Qed.

(** ** Callbacks *)

Definition called (l : list Call) : list Z := omap (fun x => match x with Callback cb _ _ _ => Some cb | LookupAnon _ => None end) l.
Definition waiting_callbacks (m : gmap Key (list Z)) : list Z := concat (map_to_list m).*2.
(** The callbacks given are those called and those that wait. *)
Definition accounts (h : RCLookupHandler) (given : list Z) : Prop := given ≡ₚ called (calls h) ++ waiting_callbacks (pendingCallbacks h).

Lemma called_app l1 l2 : called (l1 ++ l2) = called l1 ++ called l2.
Proof. apply omap_app. Qed.
Lemma called_callbacks r f res l : called (map (fun cb => Callback cb r f res) l) = l.
Proof. induction l as [|x l IH]; [done|]. cbn. unfold called in IH. by rewrite IH. Qed.
Lemma waiting_delete m r l : m !! r = Some l -> waiting_callbacks m ≡ₚ l ++ waiting_callbacks (delete r m).
Proof.
  intros E. unfold waiting_callbacks. rewrite <- (insert_delete_id m r l E) at 1. rewrite map_to_list_insert by apply lookup_delete_eq. done.
Qed.
Lemma waiting_insert (m : gmap Key (list Z)) r l : waiting_callbacks (<[r := default [] (m !! r) ++ l]> m) ≡ₚ waiting_callbacks m ++ l.
Proof.
  rewrite (waiting_delete (<[r := _]> m) r (default [] (m !! r) ++ l)) by apply lookup_insert_eq. rewrite delete_insert_eq.
  destruct (m !! r) as [l'|] eqn:E; cbn [default].
  - rewrite (waiting_delete m r l' E). rewrite <- !app_assoc. apply Permutation_app_head, Permutation_app_comm.
  - rewrite delete_id by done. apply Permutation_app_comm.
Qed.
(** What only calls callbacks and queues jobs *)
Record calmer (h h' : RCLookupHandler) : Prop := {
  calm_dht : _dht h' = _dht h;
  calm_pending : pendingCallbacks h' ⊆ pendingCallbacks h;
  calm_anon : forall r, LookupAnon r ∈ calls h' <-> LookupAnon r ∈ calls h;
  calm_master : isMasterNode h' = isMasterNode h;
  calm_accounts : forall given, accounts h given -> accounts h' given }.
#[local] Instance calmer_preorder : PreOrder calmer.
Proof.
  split; [by split|]. intros h1 h2 h3 [A1 B1 C1 D1 E1] [A2 B2 C2 D2 E2]. split; [congruence|by etransitivity| |congruence|auto].
  intros r. by rewrite C2, C1.
Qed.
Lemma jobs_calm l h : calmer h (rl_jobs l h).
Proof. by split. Qed.
Lemma check_calm le c h : calmer h (CheckRC le c h).2.
Proof.
  unfold CheckRC, DelRCNodeAsync, PutRCNodeAsync. repeat case_match; cbn [snd]; try apply jobs_calm; try reflexivity.
  etransitivity; apply jobs_calm.
Qed.
Lemma finalize_calm r f res h : calmer h (FinalizeRequest r f res h) /\ pendingCallbacks (FinalizeRequest r f res h) !! r = None.
Proof.
  unfold FinalizeRequest. destruct (pendingCallbacks h !! r) as [l|] eqn:E; [|by split].
  split; [split; cbn [_dht pendingCallbacks calls isMasterNode rl_calls rl_pendingCallbacks]|apply lookup_delete_eq].
  - done.
  - apply delete_subseteq.
  - intros k. rewrite elem_of_app. split; [|by left]. intros [|(cb&?&_)%list_elem_of_fmap]; [done|discriminate].
  - done.
  - intros given. unfold accounts. cbn. intros ->. rewrite (waiting_delete _ _ _ E), called_app, called_callbacks. by rewrite app_assoc.
Qed.
Lemma result_calm le r found h : calmer h (HandleDHTLookupResult le r found h) /\ pendingCallbacks (HandleDHTLookupResult le r found h) !! r = None.
Proof.
  unfold HandleDHTLookupResult. destruct found as [|first found]; [apply finalize_calm|]. destruct (SessionIsAllowed r h); cbn [negb]; [|apply finalize_calm].
  pose proof (check_calm le first h) as Hc. destruct (CheckRC le first h) as [ok h1]. cbn in Hc.
  destruct ok; cbn [negb]; (split; [etransitivity; [exact Hc|apply finalize_calm]|apply finalize_calm]).
Qed.
Lemma event_calm le ev h : calmer h (on_event le h ev).
Proof.
  destruct ev as [| | |[|pk|r|k] found| |c| | | |]; cbn [on_event]; try reflexivity; [|apply result_calm|apply check_calm].
  unfold HandleDHTLookupForExplore. revert h. induction found as [|c found IH]; intros h; [reflexivity|]. cbn [fold_left].
  etransitivity; [apply check_calm|apply IH].
Qed.
Lemma events_calm le l : forall h, calmer h (fold_left (on_event le) l h) /\ forall r, answered r l -> pendingCallbacks (fold_left (on_event le) l h) !! r = None.
Proof.
  induction l as [|ev l IH]; intros h; cbn [fold_left]; [split; [reflexivity|intros r (f&Hf%elem_of_nil); done]|].
  destruct (IH (on_event le h ev)) as [Hc Ha]. split; [etransitivity; [apply event_calm|exact Hc]|].
  intros r (f&[<-|Hf]%elem_of_cons); [|apply Ha; by exists f]. cbn [on_event] in *.
  eapply lookup_weaken_None; [apply (result_calm le r f h)|apply Hc].
Qed.

(** Everything was done by the time [n].  Who waits has a lookup under way. *)
Record inv (n : Z) (h : RCLookupHandler) (given : list Z) : Prop := {
  inv_good : good (n + 15000) (_dht h);
  inv_ids : ids (_dht h) < 2 ^ 64;
  inv_pending : forall r, is_Some (pendingCallbacks h !! r) -> LookupAnon r ∈ calls h \/ job_pending (_dht h) r;
  inv_calls : accounts h given;
  inv_master : isMasterNode h = true -> forall r, LookupAnon r ∉ calls h }.

Lemma inv_calmer n h h' given : inv n h given -> calmer h h' -> inv n h' given.
Proof.
  intros [Hg Hi Hp Hc Hm] [E Hs Ha Em Hacc]. split; rewrite ?E; [done|done| |auto|].
  - intros r [l Hl]. rewrite Ha. apply Hp. exists l. by eapply lookup_weaken.
  - rewrite Em. intros Hb r. rewrite Ha. by apply Hm.
Qed.
(** The context moved on, and its events were handed to the handler. *)
Lemma inv_after n le c h given : inv n h given -> follows (n + 15000) (_dht h) c -> ids c < 2 ^ 64 -> inv n (after le c h) given.
Proof.
  intros [Hg Hi Hp Hc Hm] (Hg'&l&El&Hj) Hi'. unfold after. rewrite (new_app _ _ l El).
  destruct (events_calm le l (rl_dht c h)) as [[E Hs Ha Em Hacc] Hans]. split; rewrite ?E; cbn in *; [done|done| |auto|].
  - intros r [x Hx]. rewrite Ha. destruct (Hp r) as [Hr|Hr]; [exists x; by eapply lookup_weaken|by left|]. right.
    destruct (Hj r Hr) as [|Hr']; [done|]. apply Hans in Hr'. cbn in Hr'. congruence.
  - rewrite Em. intros Hb r. rewrite Ha. by apply Hm.
Qed.
(** The context moved on without events for the handler. *)
Lemma inv_dht n c h given : inv n h given -> good (n + 15000) c -> ids c < 2 ^ 64 -> (forall r, job_pending (_dht h) r -> job_pending c r) -> inv n (rl_dht c h) given.
Proof. intros [Hg Hi Hp Hc Hm] Hg' Hi' Hj. split; [done|done| |done|done]. cbn. intros r Hr. destruct (Hp r Hr); auto. Qed.
Lemma inv_store n c h given : inv n h given -> pendingRouterLookups c = pendingRouterLookups (_dht h) -> ids c = ids (_dht h) -> ids_ok c -> inv n (rl_dht c h) given.
Proof.
  intros Hv E Ei Hok. pose proof Hv as [[Hh _ Hb] Hi _ _ _]. apply inv_dht; [done|by split; rewrite ?E|by rewrite Ei|]. intros r. unfold job_pending. by rewrite E.
Qed.
Lemma nodes_ids_ok b c : ids_ok c -> ids_ok (cx__nodes b c).
Proof. intros []. by split. Qed.
Lemma nodedb_ids_ok d c : ids_ok c -> ids_ok (cx_nodedb d c).
Proof. intros []. by split. Qed.

(** A lookup a caller waits for leaves the events alone. *)
Lemma lookup_kept n e r h c : good n c -> ids c + 1 < 2 ^ 64 -> Now e + 15000 <= n -> exists ok c', LookupRouter e r h c = Done (ok, c')
  /\ good n c' /\ ids c <= ids c' <= ids c + 1 /\ (forall k, job_pending c k -> job_pending c' k) /\ (ok = true -> h = LookupResult r -> job_pending c' r).
Proof.
  intros Hg Hw Hn. destruct (lookup_advances e r h c (good_ids n c Hg) Hw) as (ok&c'&E&_&Hi).
  destruct (follows_lookup n _ _ _ _ _ _ Hg Hw Hn E) as ([Hg' _]&Hs&Hj). exists ok, c'. split_and!; [done..|lia|lia| |done].
  intros k (o&t&Ho&Ht). exists o, t. split; [by eapply lookup_weaken|done].
Qed.

Lemma inv_call_back n cb r f res h given : inv n h given -> inv n (call_back cb r f res h) (given ++ option_list cb).
Proof.
  destruct cb as [cb|]; cbn [call_back option_list]; [|by rewrite app_nil_r]. intros [Hg Hi Hp Hc Hm].
  assert (forall k, LookupAnon k ∈ calls h ++ [Callback cb r f res] <-> LookupAnon k ∈ calls h) as Ha.
  { intros k. rewrite elem_of_app, list_elem_of_singleton. naive_solver. }
  split; cbn; [done|done| | |].
  - intros k. rewrite Ha. apply Hp.
  - unfold accounts in *. cbn. rewrite called_app, Hc. cbn. rewrite <- !app_assoc. apply Permutation_app_head, Permutation_app_comm.
  - intros Hb k. rewrite Ha. by apply Hm.
Qed.
Lemma waits_accounts r cb h given : accounts h given -> accounts (waits r cb h) (given ++ option_list cb).
Proof. unfold accounts. cbn. intros ->. by rewrite waiting_insert, app_assoc. Qed.
Lemma inv_waits n r cb h given : inv n h given -> LookupAnon r ∈ calls h \/ job_pending (_dht h) r -> inv n (waits r cb h) (given ++ option_list cb).
Proof.
  intros [Hg Hi Hp Hc Hm] Hr. split; [done|done| |by apply waits_accounts|done]. cbn. intros k [l Hk].
  apply lookup_insert_Some in Hk as [[<- _]|[_ Hk]]; [done|]. apply Hp. by exists l.
Qed.
Lemma inv_refused n r cb f res h given : inv n h given -> inv n (FinalizeRequest r f res (waits r cb h)) (given ++ option_list cb).
Proof.
  intros [Hg Hi Hp Hc Hm]. destruct (finalize_calm r f res (waits r cb h)) as [[E Hs Ha Em Hacc] Hno]. split; rewrite ?E; [done|done| | |].
  - intros k [l Hk]. rewrite Ha. apply Hp. exists l. assert (k <> r) as Hne by congruence.
    pose proof (lookup_weaken _ _ _ _ Hk Hs) as Hw. cbn in Hw. by rewrite lookup_insert_ne in Hw.
  - by apply Hacc, waits_accounts.
  - rewrite Em. intros Hb k. rewrite Ha. by apply Hm.
Qed.
Lemma inv_anon n r cb h given : inv n h given -> isMasterNode h = false -> inv n (rl_calls (calls h ++ [LookupAnon r]) (waits r cb h)) (given ++ option_list cb).
Proof.
  intros [Hg Hi Hp Hc Hm] Hno. split; cbn; [done|done| | |congruence].
  - intros k [l Hk]. rewrite elem_of_app, list_elem_of_singleton. apply lookup_insert_Some in Hk as [[<- _]|[_ Hk]]; [by left; right|].
    destruct (Hp k); [by exists l|by left; left|by right].
  - apply (waits_accounts r cb) in Hc. unfold accounts in *. cbn in *. rewrite called_app. cbn. by rewrite app_nil_r.
Qed.
Lemma get_inv n le r cb force h given : inv n h given -> Now (env le) <= n -> ids (_dht h) + 1 < 2 ^ 64 ->
  exists h', GetRC le r cb force h = Done h' /\ inv n h' (given ++ option_list cb) /\ ids (_dht h) <= ids (_dht h') <= ids (_dht h) + 1.
Proof.
  intros Hv Hn Hw. unfold GetRC. destruct (if force then None else Get r (nodedb (_dht h))) as [c|].
  { eexists. split; [done|]. pose proof (inv_call_back n cb r (Some c) Success h given Hv) as Hv1.
    destruct (finalize_calm r (Some c) Success (call_back cb r (Some c) Success h)) as [Hc _]. split; [by eapply inv_calmer|].
    rewrite (calm_dht _ _ Hc). destruct cb; cbn; lia. }
  unfold HavePendingLookup. destruct (pendingCallbacks h !! r) as [l|] eqn:Er; cbn [negb].
  { eexists. split; [done|]. split; [|cbn; lia]. apply inv_waits; [done|]. apply (inv_pending n h given Hv). by exists l. }
  change (isMasterNode (waits r cb h)) with (isMasterNode h). destruct (negb (isMasterNode h) && existsb (fun ep => ep r) (endpoints le)) eqn:Ee.
  { apply andb_true_iff in Ee as [Em%negb_true_iff _]. eexists. split; [done|]. split; [exact (inv_anon n r cb h given Hv Em)|cbn; lia]. }
  destruct (lookup_kept (n + 15000) (dht_env le (waits r cb h)) r (LookupResult r) (_dht h)) as (ok&c&E&Hg&Hi&Hj&Hr); [apply Hv|done|cbn; lia|].
  change (_dht (waits r cb h)) with (_dht h). rewrite E. cbn [obind]. eexists. split; [done|].
  assert (inv n (rl_dht c h) given) as Hv' by (apply inv_dht; [done|done|lia|done]). destruct ok; cbn [negb].
  - split; [|cbn; lia]. destruct (inv_waits n r cb (rl_dht c h) given Hv') as [A B C D F]; [right; by apply Hr|]. by split.
  - pose proof (inv_refused n r cb None RouterNotFound (rl_dht c h) given Hv') as Hf. split; [exact Hf|].
    change (rl_dht c (waits r cb h)) with (waits r cb (rl_dht c h)). rewrite (calm_dht _ _ (proj1 (finalize_calm _ _ _ _))). cbn. lia.
Qed.
Lemma get_all_inv n le l : forall h given, inv n h given -> Now (env le) <= n -> ids (_dht h) + Z.of_nat (length l) < 2 ^ 64 ->
  exists h', get_all le l h = Done h' /\ inv n h' given.
Proof.
  induction l as [|r l IH]; intros h given Hv Hn Hw; cbn [get_all length] in *; [by exists h|].
  destruct (get_inv n le r None true h given Hv Hn) as (h1&E&Hv1&Hi); [lia|]. rewrite E. cbn [obind].
  cbn [option_list] in Hv1. rewrite app_nil_r in Hv1. apply IH; [done|done|lia].
Qed.

Lemma visited_size h before l : forall s : gset Key,
  (size (fold_left (fun a (x : Key * Entry) => if (insertedAt x.2 <? before)%Z then if HavePendingLookup (pubkey (rc x.2)) h then a else {[pubkey (rc x.2)]} ∪ a else a) l s)
   <= size s + length l)%nat.
Proof.
  induction l as [|x l IH]; intros s; cbn [fold_left length]; [lia|]. etransitivity; [apply IH|].
  repeat case_match; try lia. rewrite size_union_alt, size_singleton. pose proof (subseteq_size (s ∖ {[pubkey (rc x.2)]}) s ltac:(set_solver)). lia.
Qed.
Lemma periodic_inv n le now h given : inv n h given -> Now (env le) <= n -> ids (_dht h) + Z.of_nat (NumLoaded (nodedb (_dht h))) < 2 ^ 64 ->
  exists h', PeriodicUpdate le now h = Done h' /\ inv n h' given.
Proof.
  intros Hv Hn Hw. unfold PeriodicUpdate. set (s := VisitInsertedBefore _ _ _ _).
  assert (length (elements s) <= NumLoaded (nodedb (_dht h)))%nat as Hs.
  { pose proof (visited_size h (now - UpdateInterval) (m_Entries (nodedb (_dht h))) ∅) as Hl. rewrite size_empty in Hl. exact Hl. }
  destruct (get_all_inv n le (elements s) h given Hv Hn) as (h1&E&Hv1); [lia|]. rewrite E. cbn [obind]. eexists. split; [done|].
  apply inv_store; [done|done|done|]. apply nodedb_ids_ok, (inv_good n h1 given Hv1).
Qed.
Lemma via_inv n le l h given : inv n h given -> ids (_dht h) + Z.of_nat (length l) < 2 ^ 64 ->
  exists c, explore_via le l h = Done (rl_dht c h) /\ inv n (rl_dht c h) given /\ ids c = ids (_dht h) + Z.of_nat (length l).
Proof.
  intros Hv Hw. unfold explore_via. pose proof (good_ids _ _ (inv_good n h given Hv)) as Hok.
  destruct (explore_all_explored (dht_env le h) l (_dht h) Hok Hw) as (c&E&Hi&Ep&En). rewrite E. exists c. split_and!; [done| |done].
  pose proof Hv as [[Hh _ Hb] _ _ _ _]. apply inv_dht; [done|by split; rewrite ?Ep|lia|]. intros r. unfold job_pending. by rewrite Ep.
Qed.
Lemma due_times le l : forall acc h, exists v, (lookup_due le l acc h).2 = rl_routerLookupTimes v h.
Proof.
  induction l as [|r l IH]; intros acc h; cbn [lookup_due]; [exists (_routerLookupTimes h); by destruct h|].
  destruct (_routerLookupTimes h !! r); [apply IH|]. edestruct IH as [v ->]. by exists v.
Qed.
Definition explore_cost (le : LEnv) (h : RCLookupHandler) : nat := length (_bootstrapRCList h) + length (peers le) + LookupPerTick.
Lemma explore_inv n le h given : inv n h given -> Now (env le) <= n -> ids (_dht h) + Z.of_nat (explore_cost le h) < 2 ^ 64 ->
  exists h', ExploreNetwork le h = Done h' /\ inv n h' given.
Proof.
  intros Hv Hn Hw. unfold ExploreNetwork, explore_cost in *.
  assert (exists h1, (if bool_decide (length (_bootstrapRCList h) = 0%nat) && bool_decide (NumLoaded (nodedb (_dht h)) = 0%nat) then Done h
    else if bool_decide (NumLoaded (nodedb (_dht h)) <= length (_bootstrapRCList h))%nat then explore_via le (map pubkey (_bootstrapRCList h)) h
    else Done h) = Done h1 /\ inv n h1 given /\ ids (_dht h1) <= ids (_dht h) + Z.of_nat (length (_bootstrapRCList h))) as (h1&E&Hv1&Hi).
  { case_match; [exists h; split_and!; [done..|lia]|]. case_match; [|exists h; split_and!; [done..|lia]].
    destruct (via_inv n le (map pubkey (_bootstrapRCList h)) h given Hv) as (c&E&Hc&Hi); [rewrite length_map; lia|].
    eexists. split; [exact E|]. split; [done|]. rewrite length_map in Hi. cbn. lia. }
  rewrite E. cbn [obind]. clear E. destruct (useWhitelist h1).
  - destruct (due_times le (elements (whitelistRouters h1)) [] h1) as [v E]. destruct (lookup_due _ _ _ _) as [l h2]. cbn in E. subst h2.
    apply (get_all_inv n); [destruct Hv1; by split|done|]. cbn. case_bool_decide as Hl; [rewrite length_take|]; unfold LookupPerTick in *; lia.
  - destruct (IsMasterNode (env le)); [by exists h1|]. set (l := base.filter _ _).
    pose proof (length_filter (fun s => s.1 = true /\ IsPublicRouter le s.2 = true /\ RemoteInBootstrap (pubkey s.2) h1 = false) (peers le)) as Hl. fold l in Hl.
    destruct (via_inv n le (map (fun s => pubkey s.2) l) h1 given Hv1) as (c&E&Hc&_); [rewrite length_map; lia|]. by eexists.
Qed.
Lemma renegotiate_inv n newrc oldrc h given : inv n h given -> inv n (CheckRenegotiateValid newrc oldrc h).2 given.
Proof.
  intros Hv. unfold CheckRenegotiateValid. case_match; [done|]. case_match; [done|]. cbn [snd].
  pose proof (inv_calmer n h _ given Hv (jobs_calm (jobs h ++ [JobCheckRC newrc]) h)) as Hv1. case_match; [|exact Hv1].
  apply inv_store; [done|done|done|]. apply nodes_ids_ok, (inv_good n _ given Hv1).
Qed.
Lemma job_inv n le j h given : inv n h given -> inv n (run_job le j h) given.
Proof.
  intros Hv. pose proof (good_ids _ _ (inv_good n h given Hv)) as Hok. destruct j; cbn [run_job]; try (apply inv_store; [done|done|done|]).
  - by apply nodedb_ids_ok.
  - by apply nodes_ids_ok.
  - by apply nodes_ids_ok.
  - eapply inv_calmer; [done|apply check_calm].
Qed.

(** *** Runs *)

(** The handler at work, from a DHT context just made, at times up to [n], while the
    counter of identifiers does not wrap around; the callbacks it was given. *)
Inductive works (n : Z) : RCLookupHandler -> list Z -> Prop :=
  | works_init us d id g strict boot wl mn : 0 <= id < 2 ^ 64 -> works n (Handler_Init (Init us d id g) strict boot wl mn) []
  | works_get h given le router cb force h' : works n h given -> Now (env le) <= n -> ids (_dht h) + 1 < 2 ^ 64 ->
      GetRC le router cb force h = Done h' -> works n h' (given ++ option_list cb)
  | works_receive h given le msg h' : works n h given -> Now (env le) <= n -> ids (_dht h) + Z.of_nat (demand msg (_dht h)) < 2 ^ 64 ->
      receive le msg h = Done h' -> works n h' given
  | works_timer h given le h' : works n h given -> Now (env le) <= n -> timer le h = Done h' -> works n h' given
  | works_periodic h given le now h' : works n h given -> Now (env le) <= n -> ids (_dht h) + Z.of_nat (NumLoaded (nodedb (_dht h))) < 2 ^ 64 ->
      PeriodicUpdate le now h = Done h' -> works n h' given
  | works_explore h given le h' : works n h given -> Now (env le) <= n -> ids (_dht h) + Z.of_nat (explore_cost le h) < 2 ^ 64 ->
      ExploreNetwork le h = Done h' -> works n h' given
  | works_anon h given le router found : works n h given -> works n (HandleDHTLookupResult le router found h) given
  | works_job h given le j : works n h given -> j ∈ jobs h -> works n (run_job le j h) given
  | works_renegotiate h given newrc oldrc : works n h given -> works n (CheckRenegotiateValid newrc oldrc h).2 given
  | works_lists h given white grey green : works n h given -> works n (SetRouterWhitelist white grey green h) given
  | works_add h given router : works n h given -> works n (AddValidRouter router h) given
  | works_remove h given router : works n h given -> works n (RemoveValidRouter router h) given.

Lemma receive_inv n le msg h given : inv n h given -> Now (env le) <= n -> ids (_dht h) + Z.of_nat (demand msg (_dht h)) < 2 ^ 64 ->
  exists h', receive le msg h = Done h' /\ inv n h' given.
Proof.
  intros Hv Hn Hw. unfold receive. pose proof (inv_good n h given Hv) as Hg.
  destruct (messages_handled (dht_env le h) msg (_dht h) (good_ids _ _ Hg) Hw) as (ok&replies&c&E&_&Hi). rewrite E. eexists. split; [done|].
  apply inv_after; [done| |lia]. eapply message_follows; [done| |done|exact E]. cbn. lia.
Qed.
Lemma timer_inv n le h given : inv n h given -> exists h', timer le h = Done h' /\ inv n h' given
  /\ (n + 15000 <= Now (env le) -> forall r, is_Some (pendingCallbacks h' !! r) -> LookupAnon r ∈ calls h').
Proof.
  intros Hv. unfold timer. pose proof (inv_good n h given Hv) as Hg.
  destruct (timer_handled (dht_env le h) (_dht h) (good_ids _ _ Hg) (inv_ids n h given Hv)) as (c&E&Hok&Hi). rewrite E. eexists. split; [done|].
  destruct (timer_follows (n + 15000) (dht_env le h) (_dht h) c Hg E Hok) as [Hf Hlate].
  pose proof (inv_ids n h given Hv). assert (inv n (after le c h) given) as Hv' by (apply inv_after; [done|done|lia]). split; [done|].
  intros Hle r Hr. destruct (inv_pending _ _ _ Hv' r Hr) as [|Hj]; [done|]. exfalso. apply (Hlate Hle r).
  unfold after in Hj. by rewrite (calm_dht _ _ (proj1 (events_calm _ _ _))) in Hj.
Qed.
Lemma init_inv n us d id g strict boot wl mn : 0 <= id < 2 ^ 64 -> inv n (Handler_Init (Init us d id g) strict boot wl mn) [].
Proof.
  intros Hid. split; cbn; [|lia|intros r [l Hl]; by rewrite lookup_empty in Hl| |intros _ r Hr; by apply elem_of_nil in Hr].
  - split; [exact (run_holder _ _ _ _ _ (run_invariant (fun (_ : RouterTX) _ => true) 0 0 _ _ _ (run_init _ 0 0)))|apply init_ids_ok; lia|].
    intros k t Ht. cbn in Ht. by rewrite lookup_empty in Ht.
  - unfold accounts, waiting_callbacks. cbn. by rewrite map_to_list_empty.
Qed.
Lemma works_inv n h given : works n h given -> inv n h given.
Proof.
  induction 1 as [us d id g strict boot wl mn Hid|h given le r cb force h' _ IH Hn Hw E|h given le msg h' _ IH Hn Hw E|h given le h' _ IH Hn E
    |h given le now h' _ IH Hn Hw E|h given le h' _ IH Hn Hw E|h given le r found _ IH|h given le j _ IH Hj|h given nrc orc _ IH|h given w gr gn _ IH|h given r _ IH|h given r _ IH].
  - by apply init_inv.
  - destruct (get_inv n le r cb force h given IH Hn Hw) as (h1&E1&Hv&_). congruence.
  - destruct (receive_inv n le msg h given IH Hn Hw) as (h1&E1&Hv). congruence.
  - destruct (timer_inv n le h given IH) as (h1&E1&Hv&_). congruence.
  - destruct (periodic_inv n le now h given IH Hn Hw) as (h1&E1&Hv). congruence.
  - destruct (explore_inv n le h given IH Hn Hw) as (h1&E1&Hv). congruence.
  - eapply inv_calmer; [done|apply result_calm].
  - by apply job_inv.
  - by apply renegotiate_inv.
  - unfold SetRouterWhitelist. case_match; [done|]. destruct IH; by split.
  - destruct IH; by split.
  - destruct IH; by split.
Qed.
End Lookup.


(** ** Limits *)

(** The contact a request succeeds with need not be of the router asked for: that it
    is valid and of a router that is allowed is all that is tested. *)
Lemma request_answered_by_other `{Sodium} le router c rest h cbs : pendingCallbacks h !! router = Some cbs -> SessionIsAllowed router h = true ->
  SessionIsAllowed (pubkey c) h = true -> rc_Verify (env le) c = true ->
  calls (HandleDHTLookupResult le router (c :: rest) h) = calls h ++ map (fun cb => Callback cb router (Some c) Success) cbs.
Proof.
  intros Hp Hr Hs Hv. unfold HandleDHTLookupResult, CheckRC. rewrite Hr, Hs, Hv. cbn [negb].
  destruct (IsPublicRouter le c); unfold FinalizeRequest; cbn [pendingCallbacks PutRCNodeAsync rl_jobs]; by rewrite Hp.
Qed.
(** The time of the last lookup of a router that was never looked up is the origin of
    the monotonic clock, so in the first ten minutes of that clock none is due. *)
Lemma none_due_early `{Sodium} le l : forall acc h, steady_now le <= RerequestInterval -> (forall r, default 0 (_routerLookupTimes h !! r) >= 0) ->
  (lookup_due le l acc h).1 = acc.
Proof.
  induction l as [|r l IH]; intros acc h Hn Ht; cbn [lookup_due]; [done|].
  assert (forall h', (forall k, default 0 (_routerLookupTimes h' !! k) >= 0) -> (lookup_due le l (if (default 0 (_routerLookupTimes h' !! r) + RerequestInterval <? steady_now le)
    && negb (Has r (nodedb (_dht h'))) then acc ++ [r] else acc) h').1 = acc) as Hstep.
  { intros h' Ht'. rewrite (proj2 (Z.ltb_ge _ _)) by (specialize (Ht' r); lia). cbn [andb]. by apply IH. }
  destruct (_routerLookupTimes h !! r) as [v|] eqn:E; [by apply Hstep|]. apply Hstep. intros k. cbn.
  destruct (decide (k = r)) as [->|Hne]; [rewrite lookup_insert_eq; cbn; lia|by rewrite lookup_insert_ne].
Qed.

(** A master node hears of a contact, is asked twice for a router it does not know,
    and its timer runs 15 seconds later. *)
Definition demo_lenv (now : Z) : LEnv :=
  mkLEnv (mkEnv now (fun _ => true) (fun _ => false) (fun _ => true) (fun _ => true) (demo_contact 1 1) (fun _ => true) (fun _ => false)
    (fun _ _ => true) (fun _ _ => true) (fun _ => true) (fun _ _ => true) false true) (fun _ => true) [] now (fun l => l) [].
#[local] Instance demo_sodium : Sodium := toy_sodium.
Definition result_of {A} (m : outcome A) (a : A) : A := match m with Done x => x | _ => a end.
Definition is_done {A} (m : outcome A) : bool := match m with Done _ => true | _ => false end.
Lemma done_result {A} (m : outcome A) a : is_done m = true -> m = Done (result_of m a).
Proof. by destruct m. Qed.
Definition demo_h0 : RCLookupHandler := Handler_Init (Init (demo_key 12) (NodeDB_new 0) 100 0) ∅ [] false true.
Definition demo_h1 : RCLookupHandler :=
  result_of (receive (demo_lenv 10) (GotRouterMessage (demo_key 3) PATHID0 [demo_contact 5 1] [] None 9 false) demo_h0) demo_h0.
Definition demo_h2 : RCLookupHandler := run_job (demo_lenv 11) (JobPutNode (demo_contact 5 1)) demo_h1.
Definition demo_h3 : RCLookupHandler := result_of (GetRC (demo_lenv 12) (demo_key 4) (Some 70) false demo_h2) demo_h2.
Definition demo_h4 : RCLookupHandler := result_of (GetRC (demo_lenv 13) (demo_key 4) (Some 71) true demo_h3) demo_h3.
Lemma demo_works : works 13 demo_h4 [70; 71].
Proof.
  assert (works 13 demo_h0 []) as H0 by (apply works_init; lia).
  assert (works 13 demo_h1 []) as H1.
  { eapply (works_receive 13 demo_h0 [] (demo_lenv 10)); [exact H0|cbn; lia| |apply done_result; vm_compute; reflexivity]. vm_compute. reflexivity. }
  assert (works 13 demo_h2 []) as H2 by (apply works_job; [exact H1|apply (bool_decide_unpack _); vm_compute; exact I]).
  assert (works 13 demo_h3 ([] ++ option_list (Some 70))) as H3.
  { eapply (works_get 13 demo_h2 [] (demo_lenv 12)); [exact H2|cbn; lia| |apply done_result; vm_compute; reflexivity]. vm_compute. reflexivity. }
  change [70; 71] with (([] ++ option_list (Some 70)) ++ option_list (Some 71)).
  eapply (works_get 13 demo_h3 _ (demo_lenv 13)); [exact H3|cbn; lia| |apply done_result; vm_compute; reflexivity]. vm_compute. reflexivity.
Qed.
