(* ===== verification/Outbound.v ===== *)
(** * Queues of outbound messages

    [llarp/router/outbound_message_handler.cpp]: a link message for a router with a
    session goes to a shared bounded queue, from there to the queue of its path, and
    a pump sends the paths' messages in turn; a message for a router without one
    waits for the session.  The shared queue is the specification that the lock-free
    queue refines ([Queue.spec_op]).  Messages are those of [LinkMessages].  Callbacks
    are numbers and their calls are recorded, as are the messages handed to the link
    layer, whose reports are an operation here. *)

From S2P Require Import Prelude Buffer Bencode Crypto Queue Decaying Path LinkMessages.
Open Scope Z_scope.

Module SendStatus.
Inductive t := Success | Timeout | NoLink | InvalidRouter | RouterNotFound | Congestion.
#[global] Instance t_eq_dec : EqDecision t.
Proof. solve_decision. Defined.
End SendStatus.
Module SessionResult.
Inductive t := Establish | Timeout | RouterNotFound | InvalidRouter | NoLink | EstablishFail.
End SessionResult.

Definition MAX_PATH_QUEUE_SIZE : nat := 100.
Definition MAX_OUTBOUND_QUEUE_SIZE : Z := 1000.
Definition MAX_OUTBOUND_MESSAGES_PER_TICK : nat := 500.
Definition MAX_LINK_MSG_SIZE : nat := Z.to_nat 8192.
Definition zeroID : list Z := replicate PATHIDSIZE 0.

Record MessageQueueEntry := mkEntry {
  priority : Z;
  message : list Z;
  inform : option Z;
  pathid : list Z;
  router : list Z }.
#[export] Instance MessageQueueEntry_eq_dec : EqDecision MessageQueueEntry.
Proof. solve_decision. Defined.
Notation MessageQueue := (list MessageQueueEntry).

(** [std::priority_queue] with [std::greater]: [top] and [pop] take a least element;
    which of several is not fixed. *)
Class PriorityQueue := pq_take : MessageQueue -> option (MessageQueueEntry * MessageQueue).
Class PriorityQueueSpec `{PriorityQueue} : Prop := {
  pq_take_nil : pq_take [] = None;
  pq_take_cons e q : exists x r, pq_take (e :: q) = Some (x, r) /\ e :: q ≡ₚ x :: r /\ Forall (fun y => priority x <= priority y) (e :: q) }.

Record MessageQueueStats := mkStats {
  queued : Z;
  dropped : Z;
  sent : Z;
  queueWatermark : Z;
  perTickMax : Z;
  numTicks : Z }.
Definition st_queued (x : MessageQueueStats) : MessageQueueStats := mkStats (u64 (queued x + 1)) (dropped x) (sent x) (queueWatermark x) (perTickMax x) (numTicks x).
Definition st_dropped (x : MessageQueueStats) : MessageQueueStats := mkStats (queued x) (u64 (dropped x + 1)) (sent x) (queueWatermark x) (perTickMax x) (numTicks x).
Definition st_sent (x : MessageQueueStats) : MessageQueueStats := mkStats (queued x) (dropped x) (u64 (sent x + 1)) (queueWatermark x) (perTickMax x) (numTicks x).
Definition st_queueWatermark (v : Z) (x : MessageQueueStats) : MessageQueueStats := mkStats (queued x) (dropped x) (sent x) v (perTickMax x) (numTicks x).
Definition st_perTickMax (v : Z) (x : MessageQueueStats) : MessageQueueStats := mkStats (queued x) (dropped x) (sent x) (queueWatermark x) v (numTicks x).
Definition st_numTicks (x : MessageQueueStats) : MessageQueueStats := mkStats (queued x) (dropped x) (sent x) (queueWatermark x) (perTickMax x) (u32 (numTicks x + 1)).

(** What the rest of the router answers: the clock, the link manager's sessions and
    the lists of allowed routers. *)
Record OEnv := mkOEnv {
  now : Z;
  stopping : bool;
  linked : list Z -> bool;
  SessionIsClient : list Z -> option bool;
  SessionIsAllowed : list Z -> bool }.
Definition HasSessionTo (e : OEnv) (remote : list Z) : bool := negb (stopping e) && linked e remote.

Record OutboundMessageHandler := mkOutbound {
  outboundQueue : bool * list MessageQueueEntry;
  recentlyRemovedPaths : DecayingHashSet.t (list Z);
  removedSomePaths : bool;
  pendingSessionMessageQueues : gmap (list Z) MessageQueue;
  outboundMessageQueues : gmap (list Z) MessageQueue;
  roundRobinOrder : list (list Z);
  m_queueStats : MessageQueueStats;
  (** sessions asked for, calls of callbacks, messages with the link layer *)
  asked : list (list Z);
  informed : list (Z * SendStatus.t);
  with_link : list MessageQueueEntry;
  triggered : nat }.
Definition oh_outboundQueue (v : bool * list MessageQueueEntry) (x : OutboundMessageHandler) : OutboundMessageHandler :=
  mkOutbound v (recentlyRemovedPaths x) (removedSomePaths x) (pendingSessionMessageQueues x) (outboundMessageQueues x) (roundRobinOrder x) (m_queueStats x) (asked x) (informed x) (with_link x) (triggered x).
Definition oh_recentlyRemovedPaths (v : DecayingHashSet.t (list Z)) (x : OutboundMessageHandler) : OutboundMessageHandler :=
  mkOutbound (outboundQueue x) v (removedSomePaths x) (pendingSessionMessageQueues x) (outboundMessageQueues x) (roundRobinOrder x) (m_queueStats x) (asked x) (informed x) (with_link x) (triggered x).
Definition oh_removedSomePaths (v : bool) (x : OutboundMessageHandler) : OutboundMessageHandler :=
  mkOutbound (outboundQueue x) (recentlyRemovedPaths x) v (pendingSessionMessageQueues x) (outboundMessageQueues x) (roundRobinOrder x) (m_queueStats x) (asked x) (informed x) (with_link x) (triggered x).
Definition oh_pending (v : gmap (list Z) MessageQueue) (x : OutboundMessageHandler) : OutboundMessageHandler :=
  mkOutbound (outboundQueue x) (recentlyRemovedPaths x) (removedSomePaths x) v (outboundMessageQueues x) (roundRobinOrder x) (m_queueStats x) (asked x) (informed x) (with_link x) (triggered x).
Definition oh_queues (v : gmap (list Z) MessageQueue) (x : OutboundMessageHandler) : OutboundMessageHandler :=
  mkOutbound (outboundQueue x) (recentlyRemovedPaths x) (removedSomePaths x) (pendingSessionMessageQueues x) v (roundRobinOrder x) (m_queueStats x) (asked x) (informed x) (with_link x) (triggered x).
Definition oh_order (v : list (list Z)) (x : OutboundMessageHandler) : OutboundMessageHandler :=
  mkOutbound (outboundQueue x) (recentlyRemovedPaths x) (removedSomePaths x) (pendingSessionMessageQueues x) (outboundMessageQueues x) v (m_queueStats x) (asked x) (informed x) (with_link x) (triggered x).
Definition oh_stats (f : MessageQueueStats -> MessageQueueStats) (x : OutboundMessageHandler) : OutboundMessageHandler :=
  mkOutbound (outboundQueue x) (recentlyRemovedPaths x) (removedSomePaths x) (pendingSessionMessageQueues x) (outboundMessageQueues x) (roundRobinOrder x) (f (m_queueStats x)) (asked x) (informed x) (with_link x) (triggered x).
Definition oh_asked (v : list (list Z)) (x : OutboundMessageHandler) : OutboundMessageHandler :=
  mkOutbound (outboundQueue x) (recentlyRemovedPaths x) (removedSomePaths x) (pendingSessionMessageQueues x) (outboundMessageQueues x) (roundRobinOrder x) (m_queueStats x) v (informed x) (with_link x) (triggered x).
Definition oh_informed (v : list (Z * SendStatus.t)) (x : OutboundMessageHandler) : OutboundMessageHandler :=
  mkOutbound (outboundQueue x) (recentlyRemovedPaths x) (removedSomePaths x) (pendingSessionMessageQueues x) (outboundMessageQueues x) (roundRobinOrder x) (m_queueStats x) (asked x) v (with_link x) (triggered x).
Definition oh_with_link (v : list MessageQueueEntry) (x : OutboundMessageHandler) : OutboundMessageHandler :=
  mkOutbound (outboundQueue x) (recentlyRemovedPaths x) (removedSomePaths x) (pendingSessionMessageQueues x) (outboundMessageQueues x) (roundRobinOrder x) (m_queueStats x) (asked x) (informed x) v (triggered x).
Definition TriggerPump (x : OutboundMessageHandler) : OutboundMessageHandler :=
  mkOutbound (outboundQueue x) (recentlyRemovedPaths x) (removedSomePaths x) (pendingSessionMessageQueues x) (outboundMessageQueues x) (roundRobinOrder x) (m_queueStats x) (asked x) (informed x) (with_link x) (S (triggered x)).

(** All that is in the lists of a map *)
Definition messages {A} (m : gmap (list Z) (list A)) : list A := concat (map_to_list m).*2.

Section Outbound.
Context `{DHTMessages} `{ContactCodec} `{PriorityQueue}.

(** ** Messages *)

(** [ILinkMessage::pathid] and [Priority] of the messages *)
Definition msg_pathid (m : LinkMessage) : list Z :=
  base_pathid match m with
  | MsgIntro m => li_base m
  | MsgDownstream m | MsgUpstream m => rl_base m
  | MsgDHT m => dh_base m
  | MsgCommit m => cm_base m
  | MsgStatus m => sm_base m
  | MsgDiscard m => m
  end.
Definition Priority (m : LinkMessage) : Z :=
  match m with
  | MsgIntro _ => 65535
  | MsgDownstream _ | MsgUpstream _ => 0
  | MsgDHT _ | MsgDiscard _ => 1
  | MsgCommit _ => 5
  | MsgStatus _ => 6
  end.
(** [EncodeBuffer] into the local array, and the bytes of the message *)
Definition EncodeBuffer (m : LinkMessage) : option (list Z) :=
  let '(ok, buf) := LinkMessage_BEncode m (Buf (replicate MAX_LINK_MSG_SIZE 0) 0) in
  if ok then Some (take (cur buf) (base buf)) else None.

(** ** Operations *)

(** [maxQueueSize] is [MAX_OUTBOUND_QUEUE_SIZE], the default. *)
Definition Handler_new : OutboundMessageHandler :=
  mkOutbound (true, []) (DecayingHashSet.new 5000) false ∅ ∅ [] (mkStats 0 0 0 0 0 0) [] [] [] 0.
Definition Outbound_Init (h : OutboundMessageHandler) : OutboundMessageHandler :=
  oh_queues (<[zeroID := default [] (outboundMessageQueues h !! zeroID)]> (outboundMessageQueues h)) h.

Definition DoCallback (callback : option Z) (status : SendStatus.t) (h : OutboundMessageHandler) : OutboundMessageHandler :=
  match callback with Some f => oh_informed (informed h ++ [(f, status)]) h | None => h end.
(** [LinkManager::SendTo] with the completion handler of [Send] *)
Definition SendTo (e : OEnv) (ent : MessageQueueEntry) (h : OutboundMessageHandler) : OutboundMessageHandler :=
  if stopping e then h
  else if negb (linked e (router ent)) then DoCallback (inform ent) SendStatus.Congestion h
  else oh_with_link (with_link h ++ [ent]) h.
(** The result of [SendTo] is not used by the callers. *)
Definition Send (e : OEnv) (ent : MessageQueueEntry) (h : OutboundMessageHandler) : OutboundMessageHandler :=
  SendTo e ent (oh_stats st_sent h).
Definition SendIfSession (e : OEnv) (ent : MessageQueueEntry) (h : OutboundMessageHandler) : OutboundMessageHandler :=
  if HasSessionTo e (router ent) then Send e ent h else h.
(** The link layer reports the [n]th message it has. *)
Definition Delivered (n : nat) (success : bool) (h : OutboundMessageHandler) : OutboundMessageHandler :=
  match with_link h !! n with
  | Some ent =>
      DoCallback (inform ent) (if success then SendStatus.Success else SendStatus.Congestion) (oh_with_link (delete n (with_link h)) h)
  | None => h
  end.

Definition QueueOutboundMessage (entry : MessageQueueEntry) (h : OutboundMessageHandler) : OutboundMessageHandler :=
  let callback := inform entry in
  let '(r, q) := spec_op MAX_OUTBOUND_QUEUE_SIZE (OpPush entry) (outboundQueue h) in
  match r with
  | RPush Queue.Success =>
      let h := oh_stats st_queued (oh_outboundQueue q h) in
      let queueSize := u32 (Z.of_nat (length (outboundQueue h).2)) in
      oh_stats (st_queueWatermark (Z.max queueSize (queueWatermark (m_queueStats h)))) h
  | _ => DoCallback callback SendStatus.Congestion (oh_stats st_dropped h)
  end.
Definition QueueSessionCreation (remote : list Z) (h : OutboundMessageHandler) : OutboundMessageHandler := oh_asked (asked h ++ [remote]) h.
Definition QueueMessage (e : OEnv) (remote : list Z) (msg : LinkMessage) (callback : option Z) (h : OutboundMessageHandler)
    : bool * OutboundMessageHandler :=
  if bool_decide (SessionIsClient e remote = None) && negb (SessionIsAllowed e remote) then
    (true, DoCallback callback SendStatus.InvalidRouter h)
  else
    match EncodeBuffer msg with
    | None => (false, h)
    | Some bytes =>
        let ent := mkEntry (Priority msg) bytes callback (msg_pathid msg) remote in
        if HasSessionTo e remote then (true, QueueOutboundMessage ent h)
        else
          let is_new := bool_decide (pendingSessionMessageQueues h !! remote = None) in
          let h := oh_pending (<[remote := default [] (pendingSessionMessageQueues h !! remote) ++ [ent]]> (pendingSessionMessageQueues h)) h in
          (true, if is_new then QueueSessionCreation remote h else h)
    end.

Definition RemovePath (e : OEnv) (p : list Z) (h : OutboundMessageHandler) : OutboundMessageHandler :=
  let h := oh_recentlyRemovedPaths (DecayingHashSet.Insert (now e) p 0 (recentlyRemovedPaths h)).2 h in
  oh_removedSomePaths true (oh_queues (delete p (outboundMessageQueues h)) h).

(** ** The shared queue *)

(** What one turn of the loop does with the message it took *)
Definition process_entry (entry : MessageQueueEntry) (h : OutboundMessageHandler) : OutboundMessageHandler :=
  if DecayingHashSet.Contains (pathid entry) (recentlyRemovedPaths h) then h
  else
    let is_new := bool_decide (outboundMessageQueues h !! pathid entry = None) in
    let path_queue := default [] (outboundMessageQueues h !! pathid entry) in
    let h := oh_queues (<[pathid entry := path_queue]> (outboundMessageQueues h)) h in
    let h := if is_new && negb (IsZero (pathid entry)) then oh_order (roundRobinOrder h ++ [pathid entry]) h else h in
    if bool_decide (length path_queue < MAX_PATH_QUEUE_SIZE)%nat || IsZero (pathid entry) then
      oh_queues (<[pathid entry := path_queue ++ [entry]]> (outboundMessageQueues h)) h
    else oh_stats st_dropped (DoCallback (inform entry) SendStatus.Congestion h).
Fixpoint process_loop (fuel : nat) (h : OutboundMessageHandler) : outcome OutboundMessageHandler :=
  match fuel with
  | O => Timeout
  | S fuel =>
      match spec_op MAX_OUTBOUND_QUEUE_SIZE OpPop (outboundQueue h) with
      | (RPop (Some entry), q) => process_loop fuel (process_entry entry (oh_outboundQueue q h))
      | _ => Done h
      end
  end.
Definition ProcessOutboundQueue (h : OutboundMessageHandler) : outcome OutboundMessageHandler :=
  process_loop (S (length (outboundQueue h).2)) h.

(** ** Sending in turn *)

(** [top] and [pop] of a queue that is not empty *)
Definition take_top (q : MessageQueue) : outcome (MessageQueueEntry * MessageQueue) :=
  match pq_take q with Some r => Done r | None => Fault end.
(** Sends everything in a queue *)
Fixpoint send_all (f : MessageQueueEntry -> OutboundMessageHandler -> OutboundMessageHandler) (fuel : nat) (q : MessageQueue) (h : OutboundMessageHandler)
    : outcome OutboundMessageHandler :=
  match fuel with
  | O => Timeout
  | S fuel =>
      if bool_decide (q = []) then Done h
      else
        let! (ent, q) := take_top q in
        send_all f fuel q (f ent h)
  end.
Fixpoint purge (n : nat) (h : OutboundMessageHandler) : outcome OutboundMessageHandler :=
  match n with
  | O => Done h
  | S n =>
      match roundRobinOrder h with
      | [] => Fault
      | p :: order => purge n (oh_order (if bool_decide (is_Some (outboundMessageQueues h !! p)) then order ++ [p] else order) h)
      end
  end.
(** The loop over the paths.  [sent_count] is not changed in it. *)
Fixpoint rounds (e : OEnv) (num_queues : nat) (fuel : nat) (sent_count consecutive_empty : nat) (h : OutboundMessageHandler)
    : outcome (nat * OutboundMessageHandler) :=
  match fuel with
  | O => Timeout
  | S fuel =>
      if negb (bool_decide (sent_count < MAX_OUTBOUND_MESSAGES_PER_TICK)%nat) then Done (consecutive_empty, h)
      else
        match roundRobinOrder h with
        | [] => Fault
        | p :: order =>
            let message_queue := default [] (outboundMessageQueues h !! p) in
            let h := oh_queues (<[p := message_queue]> (outboundMessageQueues h)) (oh_order order h) in
            let! (consecutive_empty, h) :=
              if bool_decide (0 < length message_queue)%nat then
                let! (ent, q) := take_top message_queue in
                let h := Send e ent h in
                Done (1%nat, oh_queues (<[p := q]> (outboundMessageQueues h)) h)
              else Done (S consecutive_empty, h) in
            let h := oh_order (roundRobinOrder h ++ [p]) h in
            if bool_decide (consecutive_empty = num_queues) then Done (consecutive_empty, h)
            else rounds e num_queues fuel sent_count consecutive_empty h
        end
  end.

(** Enough turns for the loop: each message sent starts at most one round more. *)
Definition round_fuel (h : OutboundMessageHandler) : nat :=
  S (S (length (messages (outboundMessageQueues h))) * length (roundRobinOrder h)).

Definition SendRoundRobin (e : OEnv) (h : OutboundMessageHandler) : outcome (bool * OutboundMessageHandler) :=
  let h := oh_stats st_numTicks h in
  let routing_mq := default [] (outboundMessageQueues h !! zeroID) in
  let! h := send_all (Send e) (S (length routing_mq)) routing_mq h in
  let h := oh_queues (<[zeroID := []]> (outboundMessageQueues h)) h in
  let! h := if removedSomePaths h then purge (length (roundRobinOrder h)) h else Done h in
  let h := oh_removedSomePaths false h in
  let num_queues := length (roundRobinOrder h) in
  if bool_decide (num_queues = 0%nat) then Done (false, h)
  else
    let! (consecutive_empty, h) := rounds e num_queues (round_fuel h) 0 0 h in
    let h := oh_stats (st_perTickMax (Z.max (u32 (Z.of_nat consecutive_empty)) (perTickMax (m_queueStats h)))) h in
    Done (negb (bool_decide (consecutive_empty = num_queues)), h).

Definition Pump (e : OEnv) (h : OutboundMessageHandler) : outcome OutboundMessageHandler :=
  let h := oh_recentlyRemovedPaths (DecayingHashSet.Decay (now e) 0 (recentlyRemovedPaths h)) h in
  let! h := ProcessOutboundQueue h in
  let! (more, h) := SendRoundRobin e h in
  Done (if more : bool then TriggerPump h else h).

(** ** Sessions *)

Definition ToSendStatus (result : SessionResult.t) : SendStatus.t :=
  match result with
  | SessionResult.Establish => SendStatus.Success
  | SessionResult.Timeout | SessionResult.EstablishFail => SendStatus.Timeout
  | SessionResult.RouterNotFound => SendStatus.RouterNotFound
  | SessionResult.InvalidRouter => SendStatus.InvalidRouter
  | SessionResult.NoLink => SendStatus.NoLink
  end.
Definition FinalizeSessionRequest (e : OEnv) (remote : list Z) (status : SendStatus.t) (h : OutboundMessageHandler) : outcome OutboundMessageHandler :=
  match pendingSessionMessageQueues h !! remote with
  | None => Done h
  | Some movedMessages =>
      let h := oh_pending (delete remote (pendingSessionMessageQueues h)) h in
      send_all (fun entry h => if bool_decide (status = SendStatus.Success) then Send e entry h else DoCallback (inform entry) status h)
        (S (length movedMessages)) movedMessages h
  end.
Definition OnSessionResult (e : OEnv) (remote : list Z) (result : SessionResult.t) (h : OutboundMessageHandler) : outcome OutboundMessageHandler :=
  FinalizeSessionRequest e remote (ToSendStatus result) h.

(** ** Runs *)

Inductive Op :=
| OpQueueMessage (remote : list Z) (msg : LinkMessage) (callback : option Z)
| OpPump
| OpRemovePath (p : list Z)
| OpSessionResult (remote : list Z) (result : SessionResult.t)
| OpDelivered (n : nat) (success : bool).
Definition run_op (e : OEnv) (o : Op) (h : OutboundMessageHandler) : outcome OutboundMessageHandler :=
  match o with
  | OpQueueMessage remote msg callback => Done (QueueMessage e remote msg callback h).2
  | OpPump => Pump e h
  | OpRemovePath p => Done (RemovePath e p h)
  | OpSessionResult remote result => OnSessionResult e remote result h
  | OpDelivered n success => Done (Delivered n success h)
  end.
Fixpoint run_ops (l : list (OEnv * Op)) (h : OutboundMessageHandler) : outcome OutboundMessageHandler :=
  match l with
  | [] => Done h
  | (e, o) :: l => let! h := run_op e o h in run_ops l h
  end.
Definition started : OutboundMessageHandler := Outbound_Init Handler_new.
End Outbound.
