(* ===== verification/OutboundProofs.v ===== *)
(** * Every callback of an outbound message is accounted for

    For each run of the handler of [Outbound]: a callback that was given with a
    message is called once, or its message is still in one of the queues or with the
    link layer, or it was on a path that was removed.  A pump sends from every path
    that has messages, so a bounded number of pumps empties the queues. *)

From S2P Require Import Prelude Buffer Bencode Crypto Queue Decaying Path PathBuild LinkMessages LinkMessageProofs Outbound.
Open Scope Z_scope.

(** ** Counting *)

(** How often [x] is the callback of a message of [l] *)
Definition tally (x : Z) (l : list MessageQueueEntry) : nat := count_occ Z.eq_dec (omap inform l) x.
Definition once (x : Z) (cb : option Z) : nat := if bool_decide (cb = Some x) then 1 else 0.
Definition called (x : Z) (h : OutboundMessageHandler) : nat := count_occ Z.eq_dec (informed h).*1 x.
(** The messages that wait for a pump, and those that wait for a session *)
Definition waiting (h : OutboundMessageHandler) : list MessageQueueEntry := (outboundQueue h).2 ++ messages (outboundMessageQueues h).
Definition sessionless (h : OutboundMessageHandler) : list MessageQueueEntry := messages (pendingSessionMessageQueues h).
Definition account (x : Z) (h : OutboundMessageHandler) : nat :=
  (called x h + tally x (waiting h) + tally x (sessionless h) + tally x (with_link h))%nat.

#[local] Arguments tally : simpl never.
#[local] Arguments once : simpl never.

Lemma tally_app x a b : tally x (a ++ b) = (tally x a + tally x b)%nat.
Proof. unfold tally. rewrite omap_app. apply count_occ_app. Qed.
Lemma tally_cons x e l : tally x (e :: l) = (once x (inform e) + tally x l)%nat.
Proof.
  unfold tally, once. cbn [omap list_omap]. destruct (inform e) as [c|]; cbn [count_occ]; [|by case_bool_decide].
  destruct (Z.eq_dec c x) as [->|]; case_bool_decide; simplify_eq; reflexivity.
Qed.
Lemma tally_perm x a b : a ≡ₚ b -> tally x a = tally x b.
Proof. intros P. unfold tally. apply Permutation_count_occ. by rewrite P. Qed.
Lemma messages_split {A} (m : gmap (list Z) (list A)) k : messages m ≡ₚ default [] (m !! k) ++ messages (delete k m).
Proof.
  unfold messages. destruct (m !! k) as [q|] eqn:E; cbn [default]; [|by rewrite delete_id].
  rewrite <- (map_to_list_delete _ _ _ E). reflexivity.
Qed.
Lemma messages_insert {A} (m : gmap (list Z) (list A)) k q : messages (<[k := q]> m) ≡ₚ q ++ messages (delete k m).
Proof. rewrite (messages_split _ k), lookup_insert_eq, delete_insert_eq. reflexivity. Qed.
Lemma tally_insert x m k q :
  (tally x (messages (<[k := q]> m)) + tally x (default [] (m !! k)) = tally x q + tally x (messages m))%nat.
Proof. rewrite (tally_perm x _ _ (messages_insert m k q)), (tally_perm x _ _ (messages_split m k)), !tally_app. lia. Qed.
Lemma tally_delete x m k :
  (tally x (messages (delete k m)) + tally x (default [] (m !! k)) = tally x (messages m))%nat.
Proof. rewrite (tally_perm x _ _ (messages_split m k)), tally_app. lia. Qed.
Lemma length_insert_messages {A} (m : gmap (list Z) (list A)) k q :
  (length (messages (<[k := q]> m)) + length (default [] (m !! k)) = length q + length (messages m))%nat.
Proof. rewrite (Permutation_length (messages_insert m k q)), (Permutation_length (messages_split m k)), !length_app. lia. Qed.

(** ** Handing messages on *)

(** Nothing but the statistics, the calls and what is with the link layer changes. *)
Record passes (h h' : OutboundMessageHandler) : Prop := {
  ps_queue : outboundQueue h' = outboundQueue h;
  ps_removed : recentlyRemovedPaths h' = recentlyRemovedPaths h;
  ps_flag : removedSomePaths h' = removedSomePaths h;
  ps_pending : pendingSessionMessageQueues h' = pendingSessionMessageQueues h;
  ps_queues : outboundMessageQueues h' = outboundMessageQueues h;
  ps_order : roundRobinOrder h' = roundRobinOrder h;
  ps_asked : asked h' = asked h }.
Lemma passes_refl h : passes h h.
Proof. by split. Qed.
Lemma passes_trans a b c : passes a b -> passes b c -> passes a c.
Proof. intros [] []. split; congruence. Qed.
(** A function that does away with a message: it is called back or handed on. *)
Definition settles (f : MessageQueueEntry -> OutboundMessageHandler -> OutboundMessageHandler) : Prop :=
  forall ent h, passes h (f ent h) /\ forall x, account x (f ent h) = (once x (inform ent) + account x h)%nat.

Lemma DoCallback_settles s : settles (fun ent => DoCallback (inform ent) s).
Proof.
  intros ent h. unfold DoCallback. destruct (inform ent) as [c|]; (split; [by split|]); intros x.
  - unfold account, called, waiting, sessionless, once, oh_informed; cbn. rewrite fmap_app, count_occ_app. cbn.
    destruct (Z.eq_dec c x) as [->|]; case_bool_decide; simplify_eq; lia.
  - unfold once. by rewrite bool_decide_eq_false_2.
Qed.
Lemma Send_settles e : stopping e = false -> settles (Send e).
Proof.
  intros Hs ent h. unfold Send, SendTo. rewrite Hs. destruct (linked e (router ent)); cbn [negb].
  - split; [by split|]. intros x. unfold account, called, waiting, sessionless, oh_with_link, oh_stats; cbn. rewrite (tally_app x (with_link h)), tally_cons. change (tally x []) with 0%nat. lia.
  - destruct (DoCallback_settles SendStatus.Congestion ent (oh_stats st_sent h)) as [P A]. split; [|exact A].
    eapply passes_trans; [|exact P]. by split.
Qed.

Section Queues.
Context `{DHTMessages} `{ContactCodec} `{PQ : PriorityQueue} `{!PriorityQueueSpec}.

Lemma take_top_spec q : q <> [] -> exists ent r, take_top q = Done (ent, r) /\ q ≡ₚ ent :: r.
Proof.
  destruct q as [|e q]; [done|]. intros _. destruct (pq_take_cons e q) as (x & r & E & P & _).
  exists x, r. unfold take_top. by rewrite E.
Qed.
Lemma send_all_spec f q h : settles f ->
  exists h', send_all f (S (length q)) q h = Done h' /\ passes h h' /\ forall x, account x h' = (tally x q + account x h)%nat.
Proof.
  intros Hf. remember (S (length q)) as n eqn:En. assert (Hn : (length q < n)%nat) by lia. clear En.
  revert q h Hn. induction n as [|n IH]; intros q h Hn; [lia|]. cbn [send_all]. case_bool_decide as Eq.
  - subst q. exists h. repeat split; reflexivity.
  - destruct (take_top_spec q Eq) as (ent & r & -> & P). cbn [obind].
    destruct (IH r (f ent h)) as (h' & E & Ps & A); [apply Permutation_length in P; cbn in P; lia|].
    destruct (Hf ent h) as [Ps0 A0]. exists h'. split; [exact E|]. split; [by eapply passes_trans|].
    intros x. rewrite A, A0, (tally_perm x _ _ P), tally_cons. lia.
Qed.

(** ** The turns of a pump *)

Definition backlog (h : OutboundMessageHandler) (p : list Z) : nat := length (default [] (outboundMessageQueues h !! p)).
(** A change of the path queues and their order, at which no callback is lost *)
Record turns (h h' : OutboundMessageHandler) : Prop := {
  tn_queue : outboundQueue h' = outboundQueue h;
  tn_removed : recentlyRemovedPaths h' = recentlyRemovedPaths h;
  tn_flag : removedSomePaths h' = removedSomePaths h;
  tn_pending : pendingSessionMessageQueues h' = pendingSessionMessageQueues h;
  tn_asked : asked h' = asked h;
  tn_order : roundRobinOrder h' ≡ₚ roundRobinOrder h;
  tn_account x : account x h' = account x h;
  tn_queues p q' : outboundMessageQueues h' !! p = Some q' -> q' ⊆+ default [] (outboundMessageQueues h !! p);
  tn_keys p : is_Some (outboundMessageQueues h' !! p) -> is_Some (outboundMessageQueues h !! p) \/ p ∈ roundRobinOrder h }.
Lemma turns_backlog h h' p : turns h h' -> (backlog h' p <= backlog h p)%nat.
Proof.
  intros T. unfold backlog. destruct (outboundMessageQueues h' !! p) as [q|] eqn:E; cbn; [|lia].
  apply submseteq_length, (tn_queues _ _ T p q E).
Qed.
Lemma turns_trans a b c : turns a b -> turns b c -> turns a c.
Proof.
  intros A B. split.
  - rewrite (tn_queue _ _ B). apply A.
  - rewrite (tn_removed _ _ B). apply A.
  - rewrite (tn_flag _ _ B). apply A.
  - rewrite (tn_pending _ _ B). apply A.
  - rewrite (tn_asked _ _ B). apply A.
  - rewrite (tn_order _ _ B). apply A.
  - intros x. rewrite (tn_account _ _ B). apply A.
  - intros p q E. pose proof (tn_queues _ _ B p q E) as S. destruct (outboundMessageQueues b !! p) as [r|] eqn:F; cbn in S.
    + etrans; [exact S|]. by apply (tn_queues _ _ A).
    + apply submseteq_nil_r in S as ->. apply submseteq_nil_l.
  - intros p E. destruct (tn_keys _ _ B p E) as [K|K]; [by apply (tn_keys _ _ A)|]. right. by rewrite <- (tn_order _ _ A).
Qed.

(** One turn of the loop: the path at the front, the state after it and whether a
    message was sent. *)
Definition turn (e : OEnv) (p : list Z) (order : list (list Z)) (h : OutboundMessageHandler) : outcome (bool * OutboundMessageHandler) :=
  let message_queue := default [] (outboundMessageQueues h !! p) in
  let h := oh_queues (<[p := message_queue]> (outboundMessageQueues h)) (oh_order order h) in
  let! (sent, h) :=
    if bool_decide (0 < length message_queue)%nat then
      let! (ent, q) := take_top message_queue in
      let h := Send e ent h in
      Done (true, oh_queues (<[p := q]> (outboundMessageQueues h)) h)
    else Done (false, h) in
  Done (sent, oh_order (roundRobinOrder h ++ [p]) h).
Lemma rounds_turn e num fuel ce p order h : roundRobinOrder h = p :: order ->
  rounds e num (S fuel) 0 ce h =
  let! (sent, h) := turn e p order h in
  let ce := if sent : bool then 1%nat else S ce in
  if bool_decide (ce = num) then Done (ce, h) else rounds e num fuel 0 ce h.
Proof.
  intros E. cbn [rounds]. rewrite bool_decide_eq_true_2 by (unfold MAX_OUTBOUND_MESSAGES_PER_TICK; lia). cbn [negb]. rewrite E. unfold turn.
  destruct (bool_decide _); [|reflexivity]. destruct (take_top _) as [[ent q]| |]; reflexivity.
Qed.
Lemma account_queue x h p q :
  (account x (oh_queues (<[p := q]> (outboundMessageQueues h)) h) + tally x (default [] (outboundMessageQueues h !! p)) = tally x q + account x h)%nat.
Proof.
  unfold account, waiting, called, sessionless. rewrite !tally_app. cbn.
  pose proof (tally_insert x (outboundMessageQueues h) p q). lia.
Qed.
(** The path at the front goes to the back, and its queue shrinks. *)
Lemma turns_front h h1 p order r : roundRobinOrder h = p :: order -> passes h h1 -> r ⊆+ default [] (outboundMessageQueues h !! p) ->
  (forall x, account x h1 + tally x r = account x h + tally x (default [] (outboundMessageQueues h !! p)))%nat ->
  let h' := oh_order (order ++ [p]) (oh_queues (<[p := r]> (outboundMessageQueues h1)) h1) in
  turns h h' /\ (backlog h' p = length r)%nat.
Proof.
  intros E Ps R A. cbn zeta. pose proof (ps_queues _ _ Ps) as Q. split; [split|].
  - apply Ps.
  - apply Ps.
  - apply Ps.
  - apply Ps.
  - apply Ps.
  - cbn. rewrite E. symmetry. apply Permutation_cons_append.
  - intros x. specialize (A x). pose proof (account_queue x h1 p r) as T. rewrite <- Q in A.
    change (account x (oh_queues (<[p := r]> (outboundMessageQueues h1)) h1) = account x h). lia.
  - cbn. intros p' q'. rewrite Q. destruct (decide (p' = p)) as [->|Np].
    + rewrite lookup_insert_eq. by intros [= <-].
    + rewrite lookup_insert_ne by done. intros ->. reflexivity.
  - cbn. intros p'. rewrite Q. destruct (decide (p' = p)) as [->|Np]; [right; rewrite E; apply list_elem_of_here|rewrite lookup_insert_ne by done; by left].
  - unfold backlog; cbn. by rewrite lookup_insert_eq.
Qed.
Lemma Send_front e ent h p q r order :
  let h1 := Send e ent (oh_queues (<[p := q]> (outboundMessageQueues h)) (oh_order order h)) in
  oh_order (roundRobinOrder h1 ++ [p]) (oh_queues (<[p := r]> (outboundMessageQueues h1)) h1) =
  oh_order (order ++ [p]) (oh_queues (<[p := r]> (outboundMessageQueues (Send e ent h))) (Send e ent h)).
Proof.
  assert (I : <[p := r]> (<[p := q]> (outboundMessageQueues h)) = <[p := r]> (outboundMessageQueues h)) by apply insert_insert_eq.
  unfold Send, SendTo, DoCallback. destruct (stopping e), (linked e (router ent)), (inform ent); unfold oh_order, oh_queues; cbn; by rewrite I.
Qed.
Lemma turn_spec e p order h : stopping e = false -> roundRobinOrder h = p :: order ->
  exists sent h', turn e p order h = Done (sent, h') /\ turns h h' /\ roundRobinOrder h' = order ++ [p] /\
    (backlog h' p = backlog h p - 1)%nat /\ sent = bool_decide (0 < backlog h p)%nat /\
    (length (messages (outboundMessageQueues h')) + (if sent then 1 else 0) = length (messages (outboundMessageQueues h)))%nat.
Proof.
  intros Hs E. unfold turn. set (q := default [] (outboundMessageQueues h !! p)).
  pose proof (length_insert_messages (outboundMessageQueues h) p) as L. fold q in L.
  case_bool_decide as B; cbn [obind].
  - destruct (take_top_spec q) as (ent & r & -> & P); [intros ->; cbn in B; lia|]. cbn [obind].
    destruct (Send_settles e Hs ent h) as [Ps A]. eexists true, _. split; [reflexivity|].
    destruct (turns_front h (Send e ent h) p order r E Ps) as [T Lr].
    + fold q. rewrite P. by apply submseteq_cons.
    + intros x. fold q. rewrite A, (tally_perm x _ _ P), tally_cons. lia.
    + rewrite <- (Send_front e ent h p q r order) in T, Lr. split; [exact T|].
      assert (Lq : length q = S (length r)) by (apply Permutation_length in P; exact P).
      repeat split.
      * cbn. rewrite (ps_order _ _ (proj1 (Send_settles e Hs ent _))). reflexivity.
      * etrans; [exact Lr|]. unfold backlog. fold q. lia.
      * unfold backlog. fold q. by rewrite bool_decide_eq_true_2.
      * cbn. rewrite (ps_queues _ _ (proj1 (Send_settles e Hs ent _))). cbn. rewrite insert_insert_eq. specialize (L r). lia.
  - eexists false, _. split; [reflexivity|].
    destruct (turns_front h h p order q E (passes_refl h)) as [T Lr]; [reflexivity|reflexivity|].
    split; [exact T|]. split; [reflexivity|]. split; [etrans; [exact Lr|]; unfold backlog; fold q; lia|]. split; [unfold backlog; fold q; by rewrite bool_decide_eq_false_2|]. cbn. specialize (L q). lia.
Qed.

(** All paths of [l] but one have nothing to send. *)
Definition but_one (h : OutboundMessageHandler) (l : list (list Z)) : Prop := exists x, forall p, p ∈ l -> p = x \/ backlog h p = 0%nat.
Lemma but_one_turns h h' l : turns h h' -> but_one h l -> but_one h' l.
Proof. intros T [x B]. exists x. intros p Hp. destruct (B p Hp) as [->|Z]; [by left|right]. pose proof (turns_backlog _ _ p T). lia. Qed.

Lemma elem_of_prefix_take {A} n m (l : list A) x : (n <= m)%nat -> x ∈ take n l -> x ∈ take m l.
Proof. intros L Hx. replace n with (n `min` m)%nat in Hx by lia. rewrite <- take_take in Hx. apply list_elem_of_lookup in Hx as [i Hi].
  apply lookup_take_Some in Hi as [Hi _]. by apply list_elem_of_lookup_2 in Hi. Qed.
(** The loop ends; it has sent from each of the paths it had not found empty, and
    leaves messages in the queue of one path at most. *)
Lemma rounds_spec e num fuel ce h : stopping e = false -> length (roundRobinOrder h) = num -> (ce < num)%nat ->
  (length (messages (outboundMessageQueues h)) * num + (num - ce) <= fuel)%nat -> but_one h (drop (num - ce) (roundRobinOrder h)) ->
  exists h', rounds e num fuel 0 ce h = Done (num, h') /\ turns h h' /\ but_one h' (roundRobinOrder h') /\
    forall p, p ∈ take (num - ce) (roundRobinOrder h) -> (backlog h' p <= backlog h p - 1)%nat.
Proof.
  intros Hs. revert ce h. induction fuel as [|fuel IH]; intros ce h Ln Hc Hf Hb; [lia|].
  destruct (roundRobinOrder h) as [|p order] eqn:E; [cbn in Ln; lia|]. rewrite (rounds_turn _ _ _ _ p order h E).
  destruct (turn_spec e p order h Hs E) as (sent & h1 & -> & T & O1 & B1 & -> & L1). cbn [obind]. cbn in Ln.
  set (ce1 := if bool_decide (0 < backlog h p)%nat then 1%nat else S ce).
  assert (C1 : ce1 = 1%nat /\ (0 < backlog h p)%nat /\ (length (messages (outboundMessageQueues h1)) + 1 = length (messages (outboundMessageQueues h)))%nat \/
               ce1 = S ce /\ backlog h p = 0%nat /\ length (messages (outboundMessageQueues h1)) = length (messages (outboundMessageQueues h))).
  { subst ce1. case_bool_decide; [left|right]; lia. }
  clearbody ce1. clear L1. cbn zeta.
  assert (Hb1 : but_one h1 (drop (num - ce1) (roundRobinOrder h1))).
  { rewrite O1. destruct C1 as [(-> & _)|(-> & Bp & _)].
    - exists p. rewrite drop_app_ge by lia. replace (num - 1 - length order)%nat with 0%nat by lia. intros p' Hp. left. by apply list_elem_of_singleton in Hp.
    - destruct (but_one_turns _ _ _ T Hb) as [x Hx]. exists x. intros p' Hp. rewrite drop_app_le in Hp by lia.
      apply elem_of_app in Hp as [Hp|Hp].
      + apply Hx. replace (num - ce)%nat with (S (num - S ce)) by lia. exact Hp.
      + apply list_elem_of_singleton in Hp as ->. right. lia. }
  assert (Lo : length (roundRobinOrder h1) = num) by (rewrite O1, length_app; cbn; lia).
  assert (V1 : forall p', p' ∈ take (num - ce) (p :: order) -> p' = p \/ p' ∈ take (num - ce1) (roundRobinOrder h1)).
  { intros p' Hp. replace (num - ce)%nat with (S (num - S ce)) in Hp by lia. cbn in Hp. apply elem_of_cons in Hp as [->|Hp]; [by left|right].
    rewrite O1, take_app_le by lia. revert Hp. apply elem_of_prefix_take. lia. }
  case_bool_decide as Ec.
  - exists h1. subst ce1. rewrite Nat.sub_diag in Hb1, V1. repeat (split; [done|]).
    intros p' Hp. destruct (V1 p' Hp) as [->|V]; [lia|]. by apply not_elem_of_nil in V.
  - destruct (IH ce1 h1 Lo) as (h2 & E2 & T2 & B2 & V2); [lia|nia|exact Hb1|].
    exists h2. split; [exact E2|]. split; [by eapply turns_trans|]. split; [exact B2|].
    intros p' Hp. destruct (V1 p' Hp) as [->|V].
    + pose proof (turns_backlog _ _ p T2). lia.
    + pose proof (turns_backlog _ _ p' T). specialize (V2 p' V). lia.
Qed.

(** The names left in the order are those of the queues there are. *)
Lemma purge_spec a b h : roundRobinOrder h = a ++ b ->
  purge (length a) h = Done (oh_order (b ++ filter (fun p => is_Some (outboundMessageQueues h !! p)) a) h).
Proof.
  revert b h. induction a as [|p a IH]; intros b h E; cbn [length purge].
  - rewrite filter_nil, app_nil_r, <- (app_nil_l b), <- E. by destruct h.
  - rewrite E. cbn [app]. rewrite (IH (b ++ (if bool_decide (is_Some (outboundMessageQueues h !! p)) then [p] else []))).
    + change (oh_order ?o (oh_order _ ?x)) with (oh_order o x). cbn [outboundMessageQueues oh_order]. rewrite filter_cons.
      do 2 f_equal. rewrite <- app_assoc. f_equal.
      destruct (decide (is_Some (outboundMessageQueues h !! p))) as [D|D]; [by rewrite bool_decide_eq_true_2|by rewrite bool_decide_eq_false_2].
    + cbn. case_bool_decide; by rewrite <- ?app_assoc, ?app_nil_r.
Qed.

(** What sending in turn does *)
Record swept (h h' : OutboundMessageHandler) : Prop := {
  sw_queue : outboundQueue h' = outboundQueue h;
  sw_removed : recentlyRemovedPaths h' = recentlyRemovedPaths h;
  sw_pending : pendingSessionMessageQueues h' = pendingSessionMessageQueues h;
  sw_asked : asked h' = asked h;
  sw_account x : account x h' = account x h;
  sw_queues p q' : outboundMessageQueues h' !! p = Some q' -> q' ⊆+ default [] (outboundMessageQueues h !! p);
  sw_keys p : is_Some (outboundMessageQueues h' !! p) -> is_Some (outboundMessageQueues h !! p) \/ p ∈ roundRobinOrder h' \/ p = zeroID;
  sw_order p : p ∈ roundRobinOrder h' -> p ∈ roundRobinOrder h;
  sw_kept p : p ∈ roundRobinOrder h -> is_Some (outboundMessageQueues h !! p) -> p ∈ roundRobinOrder h';
  sw_routing : backlog h' zeroID = 0%nat;
  sw_sent p : p ∈ roundRobinOrder h' -> (backlog h' p <= backlog h p - 1)%nat;
  sw_left : but_one h' (roundRobinOrder h') }.

(** The routing messages go first, then the names of removed paths are dropped. *)
Definition before_rounds (e : OEnv) (h : OutboundMessageHandler) : outcome OutboundMessageHandler :=
  let h := oh_stats st_numTicks h in
  let routing_mq := default [] (outboundMessageQueues h !! zeroID) in
  let! h := send_all (Send e) (S (length routing_mq)) routing_mq h in
  let h := oh_queues (<[zeroID := []]> (outboundMessageQueues h)) h in
  let! h := if removedSomePaths h then purge (length (roundRobinOrder h)) h else Done h in
  Done (oh_removedSomePaths false h).
Lemma SendRoundRobin_split e h :
  SendRoundRobin e h =
  let! h := before_rounds e h in
  let num_queues := length (roundRobinOrder h) in
  if bool_decide (num_queues = 0%nat) then Done (false, h)
  else
    let! (consecutive_empty, h) := rounds e num_queues (round_fuel h) 0 0 h in
    let h := oh_stats (st_perTickMax (Z.max (u32 (Z.of_nat consecutive_empty)) (perTickMax (m_queueStats h)))) h in
    Done (negb (bool_decide (consecutive_empty = num_queues)), h).
Proof. unfold SendRoundRobin, before_rounds. destruct (send_all _ _ _ _) as [h1| |]; [|done|done]. cbn [obind]. by destruct (if removedSomePaths _ then _ else _). Qed.
Lemma before_rounds_spec e h : stopping e = false ->
  exists h', before_rounds e h = Done h' /\ outboundQueue h' = outboundQueue h /\ recentlyRemovedPaths h' = recentlyRemovedPaths h /\
    pendingSessionMessageQueues h' = pendingSessionMessageQueues h /\ asked h' = asked h /\ (forall x, account x h' = account x h) /\
    outboundMessageQueues h' = <[zeroID := []]> (outboundMessageQueues h) /\
    (forall p, p ∈ roundRobinOrder h' -> p ∈ roundRobinOrder h) /\
    (forall p, p ∈ roundRobinOrder h -> is_Some (outboundMessageQueues h !! p) -> p ∈ roundRobinOrder h').
Proof.
  intros Hs. unfold before_rounds.
  destruct (send_all_spec (Send e) (default [] (outboundMessageQueues h !! zeroID)) (oh_stats st_numTicks h) (Send_settles e Hs)) as (h1 & E & Ps & A).
  cbn [outboundMessageQueues oh_stats]. rewrite E. cbn [obind].
  set (h2 := oh_queues (<[zeroID := []]> (outboundMessageQueues h1)) h1).
  assert (A2 : forall x, account x h2 = account x h).
  { intros x. pose proof (account_queue x h1 zeroID []) as T. specialize (A x). change (outboundMessageQueues h) with (outboundMessageQueues (oh_stats st_numTicks h)) in A.
    rewrite <- (ps_queues _ _ Ps) in A. change (account x (oh_stats st_numTicks h)) with (account x h) in A. change (tally x []) with 0%nat in T. unfold h2. lia. }
  assert (Q2 : outboundMessageQueues h2 = <[zeroID := []]> (outboundMessageQueues h)) by (cbn; by rewrite (ps_queues _ _ Ps)).
  pose proof (ps_order _ _ Ps) as O2. cbn in O2.
  assert (exists o, (if removedSomePaths h2 then purge (length (roundRobinOrder h2)) h2 else Done h2) = Done (oh_order o h2) /\
    (forall p, p ∈ o -> p ∈ roundRobinOrder h) /\ (forall p, p ∈ roundRobinOrder h -> is_Some (outboundMessageQueues h !! p) -> p ∈ o)) as (o & -> & O & K).
  { destruct (removedSomePaths h2).
    - rewrite (purge_spec _ []) by (by rewrite app_nil_r). eexists. split; [reflexivity|]. cbn [app]. change (roundRobinOrder h2) with (roundRobinOrder h1). rewrite O2.
      split; intros p; rewrite list_elem_of_filter; [tauto|]. intros Hp Hq. split; [|done]. rewrite Q2. apply lookup_insert_is_Some'. by right.
    - exists (roundRobinOrder h). split; [|done]. rewrite <- O2. by destruct h1. }
  cbn [obind]. eexists. split; [reflexivity|]. repeat split; try done; apply Ps.
Qed.
Lemma SendRoundRobin_spec e h : stopping e = false -> exists h', SendRoundRobin e h = Done (false, h') /\ swept h h'.
Proof.
  intros Hs. rewrite SendRoundRobin_split. destruct (before_rounds_spec e h Hs) as (h1 & -> & Q & R & P & Ask & A & M & O & K). cbn [obind].
  assert (Z1 : backlog h1 zeroID = 0%nat) by (unfold backlog; by rewrite M, lookup_insert_eq).
  assert (S1 : forall p q', outboundMessageQueues h1 !! p = Some q' -> q' ⊆+ default [] (outboundMessageQueues h !! p)).
  { intros p q'. rewrite M. destruct (decide (p = zeroID)) as [->|N]; [rewrite lookup_insert_eq; intros [= <-]; apply submseteq_nil_l|].
    rewrite lookup_insert_ne by done. by intros ->. }
  assert (K1 : forall p, is_Some (outboundMessageQueues h1 !! p) -> is_Some (outboundMessageQueues h !! p) \/ p = zeroID).
  { intros p. rewrite M, lookup_insert_is_Some'. intuition. }
  case_bool_decide as En.
  - exists h1. split; [reflexivity|]. apply nil_length_inv in En. rewrite En in *. split; rewrite ?En; auto.
    + intros p Hp. destruct (K1 p Hp); auto.
    + intros p Hp. by apply not_elem_of_nil in Hp.
    + exists []. intros p Hp. by apply not_elem_of_nil in Hp.
  - destruct (rounds_spec e (length (roundRobinOrder h1)) (round_fuel h1) 0 h1 Hs) as (h2 & E & T & B & V); [done|lia|unfold round_fuel; lia| |].
    { rewrite drop_ge by lia. exists []. intros p Hp. by apply not_elem_of_nil in Hp. }
    rewrite E. cbn [obind]. rewrite bool_decide_eq_true_2 by done. eexists. split; [reflexivity|].
    assert (B1 : forall p, (backlog h1 p <= backlog h p)%nat).
    { intros p. unfold backlog. destruct (outboundMessageQueues h1 !! p) as [q'|] eqn:Eq; cbn; [|lia]. by apply submseteq_length, S1. }
    destruct T as [Tq Tr Tf Tp Tx To Ta Tm Tk] eqn:ET. split; cbn; auto.
    + by rewrite Tq.
    + by rewrite Tr.
    + by rewrite Tp.
    + by rewrite Tx.
    + intros x. rewrite <- A, <- Ta. reflexivity.
    + intros p q' Hq. pose proof (Tm p q' Hq) as Sq. destruct (outboundMessageQueues h1 !! p) as [r|] eqn:F; cbn in Sq; [etrans; [exact Sq|by apply S1]|].
      apply submseteq_nil_r in Sq as ->. apply submseteq_nil_l.
    + intros p Hp. rewrite To. destruct (Tk p Hp) as [Hk|Hk]; [destruct (K1 p Hk)|]; auto.
    + intros p. rewrite To. apply O.
    + intros p. rewrite To. apply K.
    + change (backlog h2 zeroID = 0%nat). pose proof (turns_backlog _ _ zeroID T). lia.
    + intros p Hp. change (backlog h2 p <= backlog h p - 1)%nat. rewrite To in Hp. specialize (B1 p).
      specialize (V p). rewrite take_ge in V by lia. specialize (V Hp). lia.
Qed.

(** ** The invariant *)

(** Messages are in the queue of their path; a path with a queue is in the order, and
    its queue is bounded; [R] has the paths that were removed. *)
Record sound (R : list (list Z)) (h : OutboundMessageHandler) : Prop := {
  sd_queue : Forall (fun ent => length (pathid ent) = PATHIDSIZE) (outboundQueue h).2;
  sd_paths p q : outboundMessageQueues h !! p = Some q ->
    Forall (fun ent => pathid ent = p) q /\ length p = PATHIDSIZE /\ (p = zeroID \/ p ∈ roundRobinOrder h /\ (length q <= MAX_PATH_QUEUE_SIZE)%nat);
  sd_order p : p ∈ roundRobinOrder h -> length p = PATHIDSIZE;
  sd_removed p : is_Some (DecayingHashSet.m_Values (recentlyRemovedPaths h) !! p) -> p ∈ R }.
Definition lost_of (R : list (list Z)) (lost : list MessageQueueEntry) : Prop := Forall (fun ent => pathid ent ∈ R) lost.
(** The callbacks [new] join; those of [lost] are the only ones that go. *)
Definition settled (R : list (list Z)) (new : option Z) (h h' : OutboundMessageHandler) : Prop :=
  exists lost, lost_of R lost /\ forall x, (account x h' + tally x lost = once x new + account x h)%nat.
Lemma settled_exact R new h h' : (forall x, account x h' = once x new + account x h)%nat -> settled R new h h'.
Proof. intros A. exists []. split; [constructor|]. intros x. rewrite A. change (tally x []) with 0%nat. lia. Qed.
Lemma settled_trans R new h1 h2 h3 : settled R None h1 h2 -> settled R new h2 h3 -> settled R new h1 h3.
Proof.
  intros (l1 & F1 & A1) (l2 & F2 & A2). exists (l1 ++ l2). split; [by apply Forall_app|]. intros x. rewrite tally_app.
  specialize (A1 x). specialize (A2 x). unfold once at 1 in A1. rewrite bool_decide_eq_false_2 in A1 by done. lia.
Qed.
Lemma sound_passes R h h' : sound R h -> passes h h' -> sound R h'.
Proof. intros [A B C D] []. split; [congruence| | |]; intros p; [rewrite ps_queues0, ps_order0|rewrite ps_order0|rewrite ps_removed0]; auto. Qed.
Lemma IsZero_zeroID p : length p = PATHIDSIZE -> IsZero p = true -> p = zeroID.
Proof.
  intros L Z. unfold zeroID. rewrite <- L. clear L. unfold IsZero in Z. induction p as [|b p IH]; [reflexivity|].
  cbn [forallb length replicate] in *. apply andb_true_iff in Z as [Zb Zp]. apply Z.eqb_eq in Zb as <-. by rewrite <- IH.
Qed.

Lemma sound_path R h p r o : sound R h -> length p = PATHIDSIZE -> Forall (fun ent => pathid ent = p) r ->
  roundRobinOrder h ⊆ o -> (forall x, x ∈ o -> x ∈ roundRobinOrder h \/ x = p) -> (p = zeroID \/ p ∈ o /\ (length r <= MAX_PATH_QUEUE_SIZE)%nat) ->
  sound R (oh_order o (oh_queues (<[p := r]> (outboundMessageQueues h)) h)).
Proof.
  intros [A B C D] L F I O Z. split; cbn; auto.
  - intros p' q. destruct (decide (p' = p)) as [->|N]; [rewrite lookup_insert_eq; intros [= <-]; auto|].
    rewrite lookup_insert_ne by done. intros E. destruct (B p' q E) as (? & ? & [?|[? ?]]); auto 6.
  - intros x Hx. destruct (O x Hx) as [Hx'| ->]; auto.
Qed.
(** A message is put in the queue of its path, or there is no room for it. *)
Lemma process_entry_cases ent h : DecayingHashSet.Contains (pathid ent) (recentlyRemovedPaths h) = false ->
  exists o, (o = roundRobinOrder h /\ (is_Some (outboundMessageQueues h !! pathid ent) \/ IsZero (pathid ent) = true) \/
             o = roundRobinOrder h ++ [pathid ent] /\ outboundMessageQueues h !! pathid ent = None) /\
  let q := default [] (outboundMessageQueues h !! pathid ent) in
  (((length q < MAX_PATH_QUEUE_SIZE)%nat \/ IsZero (pathid ent) = true) /\
     process_entry ent h = oh_order o (oh_queues (<[pathid ent := q ++ [ent]]> (outboundMessageQueues h)) h) \/
   (MAX_PATH_QUEUE_SIZE <= length q)%nat /\
     process_entry ent h = oh_stats st_dropped (DoCallback (inform ent) SendStatus.Congestion (oh_order o (oh_queues (<[pathid ent := q]> (outboundMessageQueues h)) h)))).
Proof.
  intros E. unfold process_entry. rewrite E. set (p := pathid ent). set (q := default [] (outboundMessageQueues h !! p)).
  set (new := bool_decide (outboundMessageQueues h !! p = None) && negb (IsZero p)).
  exists (if new then roundRobinOrder h ++ [p] else roundRobinOrder h). split.
  { subst new. case_bool_decide as N; cbn [andb]; [|left; by rewrite <- not_eq_None_Some; auto].
    destruct (IsZero p); cbn [negb]; [left|right]; auto. }
  cbn zeta. destruct (decide (length q < MAX_PATH_QUEUE_SIZE \/ IsZero p = true)%nat) as [D|D]; [left|right].
  - split; [exact D|]. replace (bool_decide _ || IsZero p) with true by (symmetry; apply orb_true_iff; rewrite bool_decide_eq_true; exact D).
    destruct new; unfold oh_order, oh_queues; cbn; by rewrite insert_insert_eq.
  - split; [lia|]. replace (bool_decide _ || IsZero p) with false; [by destruct new|]. symmetry. apply orb_false_iff. rewrite bool_decide_eq_false.
    split; [intros ?; apply D; by left|apply not_true_is_false; intros ?; apply D; by right].
Qed.
Lemma process_entry_spec R ent h : sound R h -> length (pathid ent) = PATHIDSIZE ->
  let h' := process_entry ent h in
  sound R h' /\ outboundQueue h' = outboundQueue h /\ settled R (inform ent) h h'.
Proof.
  intros Sd L. cbn zeta. destruct (DecayingHashSet.Contains (pathid ent) (recentlyRemovedPaths h)) eqn:Ec.
  { unfold process_entry. rewrite Ec. split; [done|]. split; [done|]. exists [ent]. split.
    - constructor; [|constructor]. apply (sd_removed _ _ Sd). by apply bool_decide_eq_true in Ec.
    - intros x. rewrite tally_cons. change (tally x []) with 0%nat. lia. }
  destruct (process_entry_cases ent h Ec) as (o & O & C). set (p := pathid ent) in *. set (q := default [] (outboundMessageQueues h !! p)) in *.
  assert (Q : Forall (fun ent => pathid ent = p) q /\ (p = zeroID \/ p ∈ o /\ (length q <= MAX_PATH_QUEUE_SIZE)%nat)).
  { subst q. destruct (outboundMessageQueues h !! p) as [q|] eqn:E; cbn.
    - destruct (sd_paths _ _ Sd p q E) as (F & _ & [Z|[I B]]); (split; [done|]); [by left|right]. split; [|done].
      destruct O as [[-> _]|[-> _]]; set_solver.
    - split; [constructor|]. destruct O as [[-> [[? [=]]|Z]]|[-> _]]; [left; by apply IsZero_zeroID|right; split; [set_solver|lia]]. }
  assert (Om : roundRobinOrder h ⊆ o /\ forall x, x ∈ o -> x ∈ roundRobinOrder h \/ x = p) by (destruct O as [[-> _]|[-> _]]; set_solver).
  destruct Q as [F Z], Om as [O1 O2]. destruct C as [[B ->]|[B ->]].
  - split; [apply sound_path; try done|].
    + apply Forall_app. split; [done|]. by constructor.
    + destruct Z as [Z|[Z _]]; [by left|]. destruct B as [B|B]; [right; split; [done|rewrite length_app; cbn; lia]|left; by apply IsZero_zeroID].
    + split; [done|]. apply settled_exact. intros x. pose proof (account_queue x h p (q ++ [ent])) as T. fold q in T. rewrite tally_app, tally_cons in T.
      change (tally x []) with 0%nat in T. change (account x (oh_order o ?y)) with (account x y). lia.
  - set (h1 := oh_order o (oh_queues (<[p := q]> (outboundMessageQueues h)) h)).
    destruct (DoCallback_settles SendStatus.Congestion ent h1) as [Ps A]. split; [|split].
    + eapply (sound_passes R h1); [by apply sound_path|]. destruct Ps. by split.
    + apply (ps_queue _ _ Ps).
    + apply settled_exact. intros x. specialize (A x). pose proof (account_queue x h p q) as T. fold q in T.
      change (account x h1) with (account x (oh_queues (<[p := q]> (outboundMessageQueues h)) h)) in A.
      change (account x (oh_stats _ ?y)) with (account x y). lia.
Qed.
Lemma account_pop x h en ent l : outboundQueue h = (en, ent :: l) ->
  (once x (inform ent) + account x (oh_outboundQueue (en, l) h) = account x h)%nat.
Proof. intros E. unfold account, waiting. rewrite E, !tally_app. cbn. rewrite tally_cons. unfold called, sessionless. cbn. lia. Qed.
Lemma process_spec R h : sound R h ->
  exists h', ProcessOutboundQueue h = Done h' /\ sound R h' /\ (outboundQueue h').2 = [] /\ settled R None h h'.
Proof.
  unfold ProcessOutboundQueue. remember (S (length (outboundQueue h).2)) as n eqn:En. assert (Hn : (length (outboundQueue h).2 < n)%nat) by lia. clear En.
  revert h Hn. induction n as [|n IH]; intros h Hn Sd; [lia|]. cbn [process_loop]. destruct (outboundQueue h) as [en [|ent l]] eqn:Eq; cbn [spec_op head tail].
  - exists h. split; [reflexivity|]. split; [done|]. split; [by rewrite Eq|]. apply settled_exact. intros x. unfold once. by rewrite bool_decide_eq_false_2.
  - pose proof (sd_queue _ _ Sd) as F. rewrite Eq in F. apply Forall_cons in F as [Fe Fl].
    assert (Sd1 : sound R (oh_outboundQueue (en, l) h)) by (destruct Sd; by split).
    destruct (process_entry_spec R ent _ Sd1 Fe) as (Sd2 & Q2 & A2). cbn in Q2.
    destruct (IH (process_entry ent (oh_outboundQueue (en, l) h))) as (h' & E & Sd' & Q' & A'); [rewrite Q2; cbn in *; lia|done|].
    exists h'. split; [exact E|]. split; [done|]. split; [done|]. eapply settled_trans; [|exact A'].
    destruct A2 as (lost & Fl2 & A2). exists lost. split; [done|]. intros x. specialize (A2 x). pose proof (account_pop x h en ent l Eq).
    unfold once at 1. rewrite bool_decide_eq_false_2 by done. lia.
Qed.

(** ** Operations *)

Lemma sound_swept R h h' : sound R h -> swept h h' -> sound R h'.
Proof.
  intros Sd W. split.
  - rewrite (sw_queue _ _ W). apply Sd.
  - intros p q' E. pose proof (sw_queues _ _ W p q' E) as S. pose proof (submseteq_length _ _ S) as L.
    assert (K : (exists q, outboundMessageQueues h !! p = Some q) \/ outboundMessageQueues h !! p = None) by (destruct (outboundMessageQueues h !! p); eauto).
    destruct K as [[q Eq]|Eq]; rewrite Eq in S, L; cbn in S, L.
    + destruct (sd_paths _ _ Sd p q Eq) as (F & Lp & C). split; [apply Forall_forall; intros y Hy; eapply (proj1 (Forall_forall _ _) F), elem_of_submseteq; done|]. split; [done|].
      destruct C as [->|[I B]]; [by left|right]. split; [|lia]. apply (sw_kept _ _ W); [done|by rewrite Eq].
    + apply submseteq_nil_r in S as ->. split; [constructor|].
      destruct (sw_keys _ _ W p) as [[? K]|[K| ->]]; [by rewrite E|congruence| |split; [reflexivity|by left]].
      split; [apply (sd_order _ _ Sd), (sw_order _ _ W), K|]. right. split; [done|cbn; lia].
  - intros p Hp. apply (sd_order _ _ Sd), (sw_order _ _ W), Hp.
  - rewrite (sw_removed _ _ W). apply Sd.
Qed.
(** A pump ends, empties the shared queue and the routing messages' queue, and takes
    a message from the queue of each path, if there is one. *)
Lemma Pump_spec R e h : stopping e = false -> sound R h ->
  exists h1 h', Pump e h = Done h' /\ sound R h1 /\ sound R h' /\ settled R None h h' /\ swept h1 h' /\ (outboundQueue h1).2 = [] /\
    ((outboundQueue h).2 = [] -> outboundMessageQueues h1 = outboundMessageQueues h).
Proof.
  intros Hs Sd. unfold Pump. set (h0 := oh_recentlyRemovedPaths _ h).
  assert (Sd0 : sound R h0).
  { destruct Sd as [A B C D]. split; try done. intros p [t Hp]. apply D. cbn in Hp. apply map_lookup_filter_Some in Hp as [Hp _]. by rewrite Hp. }
  destruct (process_spec R h0 Sd0) as (h1 & E1 & Sd1 & Q1 & A1). destruct (SendRoundRobin_spec e h1 Hs) as (h' & E2 & W).
  exists h1, h'. rewrite E1. cbn [obind]. rewrite E2. split; [reflexivity|]. split; [done|]. split; [by eapply sound_swept|]. split; [|split; [done|split; [done|]]].
  - eapply (settled_trans R None h h1); [exact A1|]. apply settled_exact. intros x. rewrite (sw_account _ _ W). unfold once. by rewrite bool_decide_eq_false_2.
  - intros Q0. unfold ProcessOutboundQueue in E1. cbn [outboundQueue oh_recentlyRemovedPaths h0] in E1. subst h0.
    cbn [oh_recentlyRemovedPaths outboundQueue] in E1. destruct (outboundQueue h) as [en l] eqn:Eq. cbn in Q0. subst l. cbn [snd length process_loop outboundQueue oh_recentlyRemovedPaths] in E1.
    rewrite Eq in E1. cbn in E1. by injection E1 as <-.
Qed.

Definition op_ok (e : OEnv) (o : Op) : Prop :=
  stopping e = false /\ match o with OpQueueMessage _ msg _ => length (msg_pathid msg) = PATHIDSIZE | _ => True end.
Definition removed_by (o : Op) : list (list Z) := match o with OpRemovePath p => [p] | _ => [] end.
(** The callback the handler takes over: that of a message it does not refuse to encode *)
Definition given (e : OEnv) (o : Op) (h : OutboundMessageHandler) : option Z :=
  match o with
  | OpQueueMessage remote msg callback => if (QueueMessage e remote msg callback h).1 then callback else None
  | _ => None
  end.
Lemma once_None x : once x None = 0%nat.
Proof. unfold once. by rewrite bool_decide_eq_false_2. Qed.
Lemma QueueOutboundMessage_spec R ent h : sound R h -> length (pathid ent) = PATHIDSIZE ->
  sound R (QueueOutboundMessage ent h) /\ settled R (inform ent) h (QueueOutboundMessage ent h).
Proof.
  intros Sd L. unfold QueueOutboundMessage. destruct (outboundQueue h) as [en l] eqn:Eq. cbn [spec_op].
  assert (D : sound R (DoCallback (inform ent) SendStatus.Congestion (oh_stats st_dropped h)) /\
    settled R (inform ent) h (DoCallback (inform ent) SendStatus.Congestion (oh_stats st_dropped h))).
  { destruct (DoCallback_settles SendStatus.Congestion ent (oh_stats st_dropped h)) as [Ps A].
    split; [eapply (sound_passes R h); [done|]; destruct Ps; by split|by apply settled_exact]. }
  destruct en; cbn [negb]; [|exact D]. destruct (_ <? _); [|exact D]. clear D. split.
  - destruct Sd as [A B C E]. split; try done. cbn. rewrite Eq in A. apply Forall_app. split; [done|]. by constructor.
  - apply settled_exact. intros x. unfold account, waiting, called, sessionless. cbn. rewrite Eq, !tally_app, tally_cons. change (tally x []) with 0%nat. cbn. lia.
Qed.
Lemma QueueMessage_spec R e remote msg callback h : sound R h -> length (msg_pathid msg) = PATHIDSIZE ->
  let r := QueueMessage e remote msg callback h in
  sound R r.2 /\ settled R (if r.1 then callback else None) h r.2.
Proof.
  intros Sd L. cbn zeta. unfold QueueMessage. destruct (bool_decide _ && _); cbn [fst snd].
  - destruct (DoCallback_settles SendStatus.InvalidRouter (mkEntry 0 [] callback [] []) h) as [Ps A].
    split; [by eapply sound_passes|by apply settled_exact].
  - destruct (EncodeBuffer msg) as [bytes|]; cbn [fst snd]; [|split; [done|]; apply settled_exact; intros x; by rewrite once_None].
    set (ent := mkEntry (Priority msg) bytes callback (msg_pathid msg) remote).
    destruct (HasSessionTo e remote); cbn [fst snd]; [by apply (QueueOutboundMessage_spec R ent)|].
    set (h1 := oh_pending _ h). assert (S1 : sound R h1 /\ settled R callback h h1).
    { split; [destruct Sd; by split|]. apply settled_exact. intros x. unfold account, waiting, called, sessionless. cbn.
      pose proof (tally_insert x (pendingSessionMessageQueues h) remote (default [] (pendingSessionMessageQueues h !! remote) ++ [ent])) as T.
      rewrite tally_app, tally_cons in T. change (tally x []) with 0%nat in T. cbn in T. lia. }
    destruct S1 as [S1 A1]. case_bool_decide; [|done]. split; [destruct S1; by split|exact A1].
Qed.
Lemma RemovePath_spec R e p h : sound R h -> sound (R ++ [p]) (RemovePath e p h) /\ settled (R ++ [p]) None h (RemovePath e p h).
Proof.
  intros [A B C D]. split.
  - split; cbn; auto.
    + intros p' q E. apply lookup_delete_Some in E as [_ E]. by apply B.
    + intros p' Hp. rewrite elem_of_app, list_elem_of_singleton. unfold DecayingHashSet.Insert in Hp.
      destruct (DecayingHashSet.m_Values (recentlyRemovedPaths h) !! p) eqn:Ep; cbn in Hp; [left; by apply D|].
      apply lookup_insert_is_Some' in Hp as [->|Hp]; [by right|left; by apply D].
  - exists (default [] (outboundMessageQueues h !! p)). split.
    + destruct (outboundMessageQueues h !! p) as [q|] eqn:E; cbn; [|constructor]. destruct (B p q E) as [F _].
      eapply Forall_impl; [exact F|]. cbn. intros ent ->. set_solver.
    + intros x. pose proof (tally_delete x (outboundMessageQueues h) p). rewrite once_None.
      unfold account, waiting, called, sessionless. rewrite !tally_app. cbn. lia.
Qed.
Lemma OnSessionResult_spec R e remote result h : stopping e = false -> sound R h ->
  exists h', OnSessionResult e remote result h = Done h' /\ sound R h' /\ settled R None h h'.
Proof.
  intros Hs Sd. unfold OnSessionResult, FinalizeSessionRequest. destruct (pendingSessionMessageQueues h !! remote) as [q|] eqn:E.
  - set (f := fun entry h => if bool_decide _ then Send e entry h else DoCallback (inform entry) _ h).
    assert (Hf : settles f) by (unfold f; case_bool_decide; [by apply Send_settles|apply DoCallback_settles]).
    destruct (send_all_spec f q (oh_pending (delete remote (pendingSessionMessageQueues h)) h) Hf) as (h' & E' & Ps & A).
    exists h'. split; [exact E'|]. split; [eapply sound_passes; [|exact Ps]; destruct Sd; by split|].
    apply settled_exact. intros x. rewrite A, once_None. pose proof (tally_delete x (pendingSessionMessageQueues h) remote) as T. rewrite E in T. cbn in T.
    unfold account, waiting, called, sessionless. cbn. lia.
  - exists h. split; [reflexivity|]. split; [done|]. apply settled_exact. intros x. by rewrite once_None.
Qed.
Lemma Delivered_spec R n success h : sound R h -> sound R (Delivered n success h) /\ settled R None h (Delivered n success h).
Proof.
  intros Sd. unfold Delivered. destruct (with_link h !! n) as [ent|] eqn:E; [|split; [done|]; apply settled_exact; intros x; by rewrite once_None].
  destruct (DoCallback_settles (if success then SendStatus.Success else SendStatus.Congestion) ent (oh_with_link (delete n (with_link h)) h)) as [Ps A].
  split; [eapply sound_passes; [|exact Ps]; destruct Sd; by split|]. apply settled_exact. intros x. rewrite A, once_None.
  pose proof (tally_perm x _ _ (delete_Permutation _ _ _ E)) as T. rewrite tally_cons in T.
  unfold account, waiting, called, sessionless. cbn. lia.
Qed.
Lemma run_op_spec R e o h : sound R h -> op_ok e o ->
  exists h', run_op e o h = Done h' /\ sound (R ++ removed_by o) h' /\ settled (R ++ removed_by o) (given e o h) h h'.
Proof.
  intros Sd [Hs Ho]. destruct o as [remote msg cb| |p|remote result|n success]; cbn [run_op removed_by given]; rewrite ?app_nil_r.
  - eexists. split; [reflexivity|]. by apply QueueMessage_spec.
  - destruct (Pump_spec R e h Hs Sd) as (h1 & h' & E & _ & Sd' & A & _). eauto.
  - eexists. split; [reflexivity|]. by apply RemovePath_spec.
  - by apply OnSessionResult_spec.
  - eexists. split; [reflexivity|]. by apply Delivered_spec.
Qed.

(** ** Runs *)

(** The callbacks taken over in a run, and the paths removed in it *)
Fixpoint accepted (l : list (OEnv * Op)) (h : OutboundMessageHandler) : list Z :=
  match l with
  | [] => []
  | (e, o) :: l => option_list (given e o h) ++ match run_op e o h with Done h => accepted l h | _ => [] end
  end.
Definition removed_in (l : list (OEnv * Op)) : list (list Z) := l ≫= (fun eo => removed_by eo.2).
Definition ops_ok (l : list (OEnv * Op)) : Prop := Forall (fun eo => op_ok eo.1 eo.2) l.
Lemma once_list x cb : count_occ Z.eq_dec (option_list cb) x = once x cb.
Proof. destruct cb as [c|]; cbn; [|by rewrite once_None]. unfold once. destruct (Z.eq_dec c x) as [->|]; case_bool_decide; simplify_eq; done. Qed.
Lemma run_ops_spec R l h : sound R h -> ops_ok l ->
  exists h' lost, run_ops l h = Done h' /\ sound (R ++ removed_in l) h' /\ lost_of (R ++ removed_in l) lost /\
    forall x, (account x h' + tally x lost = count_occ Z.eq_dec (accepted l h) x + account x h)%nat.
Proof.
  revert R h. induction l as [|[e o] l IH]; intros R h Sd Ok; cbn [run_ops accepted].
  - exists h, []. unfold removed_in. cbn. rewrite app_nil_r. split; [reflexivity|]. split; [done|]. split; [constructor|]. intros x. change (tally x []) with 0%nat. lia.
  - apply Forall_cons in Ok as [Ho Ok]. destruct (run_op_spec R e o h Sd Ho) as (h1 & -> & Sd1 & lost1 & F1 & A1). cbn [obind].
    destruct (IH _ h1 Sd1 Ok) as (h' & lost & E & Sd' & F & A). exists h', (lost1 ++ lost). unfold removed_in in *. cbn. rewrite (app_assoc R).
    split; [exact E|]. split; [exact Sd'|]. split.
    + apply Forall_app. split; [|exact F]. eapply Forall_impl; [exact F1|]. cbn. intros ent I. apply elem_of_app. by left.
    + intros x. specialize (A x). specialize (A1 x). rewrite tally_app, count_occ_app, once_list. lia.
Qed.
Lemma sound_started : sound [] started.
Proof.
  split; cbn.
  - constructor.
  - intros p q E. apply lookup_insert_Some in E as [[<- <-]|[_ E]]; [|by rewrite lookup_empty in E]. split; [constructor|]. split; [reflexivity|by left].
  - intros p Hp. by apply not_elem_of_nil in Hp.
  - intros p [? Hp]. by rewrite lookup_empty in Hp.
Qed.
Lemma account_started x : account x started = 0%nat.
Proof. reflexivity. Qed.
Lemma accounts_perm h lost (given : list Z) : (forall x, (account x h + tally x lost = count_occ Z.eq_dec given x)%nat) ->
  (informed h).*1 ++ omap inform (waiting h ++ sessionless h ++ with_link h ++ lost) ≡ₚ given.
Proof.
  intros A. apply (Permutation_count_occ Z.eq_dec). intros x. specialize (A x). rewrite count_occ_app.
  change (count_occ Z.eq_dec (omap inform ?l) x) with (tally x l). rewrite !tally_app. unfold account, called in A. rewrite <- A.
  unfold waiting. rewrite tally_app. lia.
Qed.


(** ** Pumps *)

Lemma backlog_swept R h h' p : sound R h -> swept h h' ->
  (backlog h' p <= backlog h p - 1)%nat /\ (backlog h' p <= MAX_PATH_QUEUE_SIZE - 1)%nat.
Proof.
  intros Sd W. destruct (decide (p = zeroID)) as [->|N]; [rewrite (sw_routing _ _ W); lia|].
  assert (L : backlog h' p = 0%nat \/ is_Some (outboundMessageQueues h !! p)).
  { unfold backlog at 1. destruct (outboundMessageQueues h' !! p) as [q'|] eqn:E; [|by left]. pose proof (sw_queues _ _ W p q' E) as S.
    destruct (outboundMessageQueues h !! p) as [q|] eqn:F; [right; eauto|left]. cbn in S. apply submseteq_nil_r in S as ->. reflexivity. }
  destruct L as [L|[q Eq]]; [lia|]. destruct (sd_paths _ _ Sd p q Eq) as (_ & _ & [C|[I B]]); [done|].
  pose proof (sw_sent _ _ W p) as V. specialize (V (sw_kept _ _ W p I (ex_intro _ q Eq))).
  assert (Bq : backlog h p = length q) by (unfold backlog; by rewrite Eq). lia.
Qed.
Lemma run_ops_app a b h : run_ops (a ++ b) h = let! h := run_ops a h in run_ops b h.
Proof. revert h. induction a as [|[e o] a IH]; intros h; [reflexivity|]. cbn. destruct (run_op e o h); cbn; auto. Qed.
Definition pumps (es : list OEnv) : list (OEnv * Op) := (fun e => (e, OpPump)) <$> es.
(** Each pump takes one more message from the longest queue. *)
Lemma pumps_spec R es e h : Forall (fun e => stopping e = false) (e :: es) -> sound R h ->
  exists h', run_ops (pumps (e :: es)) h = Done h' /\ sound R h' /\ settled R None h h' /\ (outboundQueue h').2 = [] /\ but_one h' (roundRobinOrder h') /\
    forall p, (backlog h' p <= MAX_PATH_QUEUE_SIZE - S (length es))%nat.
Proof.
  intros Hs. revert h. induction es as [|e' es IH] using rev_ind; intros h Sd.
  - apply Forall_cons in Hs as [Hs _]. destruct (Pump_spec R e h Hs Sd) as (h1 & h' & E & Sd1 & Sd' & A & W & Q & _).
    exists h'. cbn. rewrite E. split; [reflexivity|]. split; [done|]. split; [done|]. split; [by rewrite (sw_queue _ _ W)|]. split; [apply W|].
    intros p. destruct (backlog_swept R h1 h' p Sd1 W). unfold MAX_PATH_QUEUE_SIZE in *. lia.
  - rewrite app_comm_cons in Hs. apply Forall_app in Hs as [Hs He]. apply Forall_cons in He as [He _].
    destruct (IH Hs h Sd) as (h1 & E1 & Sd1 & A1 & Q1 & _ & B1). destruct (Pump_spec R e' h1 He Sd1) as (h2 & h' & E & Sd2 & Sd' & A & W & Q & M).
    exists h'. rewrite app_comm_cons. unfold pumps in *. rewrite fmap_app, run_ops_app, E1. cbn. rewrite E. cbn.
    split; [reflexivity|]. split; [done|]. split; [by eapply settled_trans|]. split; [by rewrite (sw_queue _ _ W)|]. split; [apply W|].
    intros p. destruct (backlog_swept R h2 h' p Sd2 W) as [B2 _]. specialize (B1 p). unfold backlog in B2 at 2. rewrite (M Q1) in B2. fold (backlog h1 p) in B2.
    rewrite length_app. cbn. unfold MAX_PATH_QUEUE_SIZE in *. lia.
Qed.
Lemma messages_nil h : (forall p, backlog h p = 0%nat) -> messages (outboundMessageQueues h) = [].
Proof.
  intros B. apply elem_of_nil_inv. intros ent Hin. unfold messages in Hin. apply list_elem_of_In, in_concat in Hin as (q & I & Hq).
  apply list_elem_of_In in I, Hq. apply list_elem_of_fmap in I as ([p q'] & -> & I). apply elem_of_map_to_list in I. specialize (B p). unfold backlog in B. rewrite I in B.
  apply nil_length_inv in B. cbn in *. subst. by apply not_elem_of_nil in Hq.
Qed.

(** C20: After any run, [MAX_PATH_QUEUE_SIZE] pumps empty the shared queue and the
    queues of all paths: every callback taken over has been called, or its message is
    with the link layer, or waits for a session, or was of a path that was removed. *)
Theorem pumps_deliver l es : ops_ok l -> Forall (fun e => stopping e = false) es -> (MAX_PATH_QUEUE_SIZE <= length es)%nat ->
  exists h lost, run_ops (l ++ pumps es) started = Done h /\ waiting h = [] /\ Forall (fun ent => pathid ent ∈ removed_in l) lost /\
    (informed h).*1 ++ omap inform (sessionless h ++ with_link h ++ lost) ≡ₚ accepted l started.
Proof.
  intros Ok Hs Hn. destruct (run_ops_spec [] l started sound_started Ok) as (h1 & lost1 & E & Sd & F1 & A1).
  destruct es as [|e es]; [unfold MAX_PATH_QUEUE_SIZE in Hn; cbn in Hn; lia|].
  destruct (pumps_spec (removed_in l) es e h1 Hs Sd) as (h & E2 & _ & (lost2 & F2 & A2) & Q & _ & B).
  exists h, (lost1 ++ lost2). rewrite run_ops_app, E. cbn [obind]. split; [exact E2|].
  assert (W : waiting h = []).
  { unfold waiting. rewrite Q, messages_nil; [done|]. intros p. specialize (B p). cbn in Hn. lia. }
  split; [done|]. split; [by apply Forall_app|].
  rewrite <- (accounts_perm h (lost1 ++ lost2) (accepted l started)), W; [done|].
  intros x. specialize (A1 x). specialize (A2 x). rewrite once_None in A2. rewrite account_started in A1. rewrite tally_app. lia.
Qed.

(** ** The order of messages *)

(** A queue is handed to the link in the order of rising [Priority]: what
    [link_message.hpp] calls more important goes last. *)
Lemma lowest_priority_first e q h : stopping e = false -> (forall k, linked e k = true) ->
  exists h' l, send_all (Send e) (S (length q)) q h = Done h' /\ with_link h' = with_link h ++ l /\ l ≡ₚ q /\
    StronglySorted (fun a b => priority a <= priority b) l.
Proof.
  intros Hs Hl. remember (S (length q)) as n eqn:En. assert (Hn : (length q < n)%nat) by lia. clear En.
  revert q h Hn. induction n as [|n IH]; intros q h Hn; [lia|]. cbn [send_all]. case_bool_decide as Eq.
  - subst q. exists h, []. rewrite app_nil_r. repeat split; constructor.
  - destruct q as [|e0 q]; [done|]. destruct (pq_take_cons e0 q) as (x & r & E & P & F). unfold take_top. rewrite E. cbn [obind].
    destruct (IH r (Send e x h)) as (h' & l & E' & W & Pl & S); [apply Permutation_length in P; cbn in *; lia|].
    exists h', (x :: l). split; [exact E'|]. rewrite W. unfold Send, SendTo. rewrite Hs, Hl. cbn. rewrite <- app_assoc. split; [done|].
    split; [by rewrite Pl, P|]. constructor; [done|]. rewrite P in F. apply Forall_cons in F as [_ F]. by rewrite Pl.
Qed.
End Queues.

(** ** Examples *)

Fixpoint least (m : MessageQueueEntry) (l : MessageQueue) : MessageQueueEntry * MessageQueue :=
  match l with
  | [] => (m, [])
  | e :: l => if priority e <? priority m then let '(x, r) := least e l in (x, m :: r) else let '(x, r) := least m l in (x, e :: r)
  end.
Definition demo_pq : PriorityQueue := fun q => match q with [] => None | e :: q => Some (least e q) end.
Lemma least_spec m l : m :: l ≡ₚ (least m l).1 :: (least m l).2 /\ Forall (fun y => priority (least m l).1 <= priority y) (m :: l).
Proof.
  revert m. induction l as [|e l IH]; intros m; cbn [least]; [split; [done|constructor; [cbn; lia|constructor]]|].
  destruct (Z.ltb_spec (priority e) (priority m)) as [L|L].
  - specialize (IH e). destruct (least e l) as [x r]. cbn [fst snd] in *. destruct IH as [P F]. split; [by rewrite P, Permutation_swap|].
    constructor; [|done]. apply Forall_cons in F as [Fe _]. lia.
  - specialize (IH m). destruct (least m l) as [x r]. cbn [fst snd] in *. destruct IH as [P F]. apply Forall_cons in F as [Fm Fl].
    split; [by rewrite (Permutation_swap e m), P, Permutation_swap|]. constructor; [done|]. constructor; [lia|done].
Qed.
Lemma demo_pq_spec : @PriorityQueueSpec demo_pq.
Proof. split; [reflexivity|]. intros e q. destruct (least_spec e q) as [P F]. exists (least e q).1, (least e q).2. split; [cbn; by destruct (least e q)|done]. Qed.

Definition demo_path : list Z := replicate PATHIDSIZE 5.
Definition demo_env (links : list Z -> bool) : OEnv := mkOEnv 1000 false links (fun _ => None) (fun _ => true).
Definition demo_link : OEnv := demo_env (fun _ => true).
Definition demo_msg : @LinkMessage demo_dht := MsgDiscard (mkBase None 0 demo_path).
(** A message for a router without a session, whose attempt fails, and one that is sent *)
Definition demo_ops : list (OEnv * @Op demo_dht) :=
  [(demo_env (fun _ => false), OpQueueMessage [1] demo_msg (Some 7)); (demo_link, OpQueueMessage [2] demo_msg (Some 8)); (demo_link, OpPump);
   (demo_link, OpSessionResult [1] SessionResult.EstablishFail); (demo_link, OpDelivered 0 true)].
Definition result {A B} (f : A -> B) (o : outcome A) : option B := match o with Done a => Some (f a) | _ => None end.
Lemma demo_ops_ok : @ops_ok demo_dht demo_ops.
Proof. repeat constructor. Qed.
Lemma demo_accepted : accepted (H := demo_dht) (H0 := demo_contacts) (PQ := demo_pq) demo_ops started = [7; 8].
Proof. vm_compute. reflexivity. Qed.

Lemma demo_statuses :
  result informed (@run_ops demo_dht demo_contacts demo_pq demo_ops started) = Some [(7, SendStatus.Timeout); (8, SendStatus.Success)].
Proof. vm_compute. reflexivity. Qed.

(** Three messages of one path, then pumps: one goes with each. *)
Definition demo_queued : list (OEnv * @Op demo_dht) :=
  (fun c => (demo_link, OpQueueMessage [2] demo_msg (Some c))) <$> [1; 2; 3].
Lemma pumps_deliver_witness : exists h lost,
  @run_ops demo_dht demo_contacts demo_pq (demo_queued ++ pumps (replicate 100 demo_link)) started = Done h /\ waiting h = [] /\ lost = [] /\
  (informed h).*1 ++ omap inform (sessionless h ++ with_link h ++ lost) ≡ₚ [1; 2; 3].
Proof.
  destruct (@pumps_deliver demo_dht demo_contacts demo_pq demo_pq_spec demo_queued (replicate 100 demo_link)) as (h & lost & E & W & F & P).
  - repeat constructor.
  - apply Forall_replicate. reflexivity.
  - rewrite length_replicate. apply Nat.le_refl.
  - exists h, lost. split; [exact E|]. split; [exact W|]. split; [|exact P].
    destruct lost as [|x lost]; [reflexivity|]. apply Forall_cons in F as [F _]. apply not_elem_of_nil in F. destruct F.
Defined.
(** With one path a pump sends one message, says that there are no more and asks for
    no other pump. *)
Lemma one_message_a_pump :
  result (fun h => (inform <$> with_link h, inform <$> waiting h, triggered h))
    (@run_ops demo_dht demo_contacts demo_pq (demo_queued ++ pumps [demo_link]) started) = Some ([Some 1], [Some 2; Some 3], 0%nat).
Proof. vm_compute. reflexivity. Qed.
(** The messages of a removed path are dropped and their callbacks not called. *)
Lemma removed_path_forgotten :
  result (fun h => (with_link h, waiting h, informed h))
    (@run_ops demo_dht demo_contacts demo_pq (demo_queued ++ [(demo_link, OpRemovePath demo_path); (demo_link, OpPump)]) started) = Some ([], [], []).
Proof. vm_compute. reflexivity. Qed.
(** A router with a session that is not a client's passes the first test without
    being allowed. *)
Lemma session_not_client_queued :
  let e := mkOEnv 1000 false (fun _ => true) (fun _ => Some false) (fun _ => false) in
  result (fun h => (inform <$> waiting h, informed h)) (@run_ops demo_dht demo_contacts demo_pq [(e, OpQueueMessage [2] demo_msg (Some 1))] started)
  = Some ([Some 1], []).
Proof. vm_compute. reflexivity. Qed.
