(* ===== verification/Profiling.v ===== *)
(** * Profiles of routers ([llarp/profiling.cpp])

    Counts of the successes and failures of connections and paths for each router,
    and the tests that keep failing routers out of new sessions and paths.  Counts are
    64-bit integers.  A path is the list of its hops' keys.  The file the profiles are
    kept in is not modelled. *)

From S2P Require Import Prelude.
Open Scope Z_scope.

Record RouterProfile := mkProfile {
  connectTimeoutCount : Z;
  connectGoodCount : Z;
  pathSuccessCount : Z;
  pathFailCount : Z;
  pathTimeoutCount : Z;
  lastUpdated : Z;
  lastDecay : Z }.
Definition profile_new : RouterProfile := mkProfile 0 0 0 0 0 0 0.

Definition Decay (now : Z) (p : RouterProfile) : RouterProfile :=
  mkProfile (connectTimeoutCount p / 2) (connectGoodCount p / 2) (pathSuccessCount p / 2) (pathFailCount p / 2) (pathTimeoutCount p / 2) (lastUpdated p) now.
Definition updateInterval : Z := 30000.
Definition profile_Tick (now : Z) (p : RouterProfile) : RouterProfile :=
  if (lastDecay p <? now) && (updateInterval <? now - lastDecay p) then Decay now p else p.
Definition IsGood (chances : Z) (p : RouterProfile) : bool :=
  if chances <? connectTimeoutCount p then
    (connectTimeoutCount p <? connectGoodCount p) && (pathFailCount p <? u64 (pathSuccessCount p * chances))
  else pathFailCount p <? u64 (pathSuccessCount p * chances).
Definition checkIsGood (fails success chances : Z) : bool :=
  if (0 <? fails) && (chances <=? u64 (fails + success)) then 1 <? success / fails
  else if success =? 0 then fails <? chances
  else true.
Definition IsGoodForConnect (chances : Z) (p : RouterProfile) : bool := checkIsGood (connectTimeoutCount p) (connectGoodCount p) chances.
Definition IsGoodForPath (chances : Z) (p : RouterProfile) : bool :=
  if chances <? pathTimeoutCount p then false else checkIsGood (pathFailCount p) (pathSuccessCount p) chances.

Record Profiling := mkProfiling { m_Profiles : gmap (list Z) RouterProfile; m_LastSave : Z; m_DisableProfiling : bool }.
Definition Profiling_new : Profiling := mkProfiling ∅ 0 false.
Definition with_profiles (f : gmap (list Z) RouterProfile -> gmap (list Z) RouterProfile) (s : Profiling) : Profiling :=
  mkProfiling (f (m_Profiles s)) (m_LastSave s) (m_DisableProfiling s).
Definition profiling_chances : Z := 4.
Definition Disable (s : Profiling) : Profiling := mkProfiling (m_Profiles s) (m_LastSave s) true.
Definition Enable (s : Profiling) : Profiling := mkProfiling (m_Profiles s) (m_LastSave s) false.
(** The tests: a router without a profile is good. *)
Definition judged (good : Z -> RouterProfile -> bool) (r : list Z) (chances : Z) (s : Profiling) : bool :=
  if m_DisableProfiling s then false
  else match m_Profiles s !! r with None => false | Some p => negb (good chances p) end.
Definition IsBadForConnect : list Z -> Z -> Profiling -> bool := judged IsGoodForConnect.
Definition IsBadForPath : list Z -> Z -> Profiling -> bool := judged IsGoodForPath.
Definition IsBad : list Z -> Z -> Profiling -> bool := judged IsGood.
Definition Profiling_Tick (now : Z) (s : Profiling) : Profiling := with_profiles (fmap (profile_Tick now)) s.
(** [m_Profiles[r]] *)
Definition change (r : list Z) (f : RouterProfile -> RouterProfile) (s : Profiling) : Profiling :=
  with_profiles (fun m => <[r := f (default profile_new (m !! r))]> m) s.
Definition MarkConnectTimeout (now : Z) (r : list Z) : Profiling -> Profiling :=
  change r (fun p => mkProfile (u64 (connectTimeoutCount p + 1)) (connectGoodCount p) (pathSuccessCount p) (pathFailCount p) (pathTimeoutCount p) now (lastDecay p)).
Definition MarkConnectSuccess (now : Z) (r : list Z) : Profiling -> Profiling :=
  change r (fun p => mkProfile (connectTimeoutCount p) (u64 (connectGoodCount p + 1)) (pathSuccessCount p) (pathFailCount p) (pathTimeoutCount p) now (lastDecay p)).
Definition ClearProfile (r : list Z) : Profiling -> Profiling := with_profiles (delete r).
Definition MarkHopFail (now : Z) (r : list Z) : Profiling -> Profiling :=
  change r (fun p => mkProfile (connectTimeoutCount p) (connectGoodCount p) (pathSuccessCount p) (u64 (pathFailCount p + 1)) (pathTimeoutCount p) now (lastDecay p)).
(** The first hop is not marked. *)
Definition MarkPathFail (now : Z) (hops : list (list Z)) (s : Profiling) : Profiling := foldl (fun s r => MarkHopFail now r s) s (tail hops).
Definition MarkPathTimeout (now : Z) (hops : list (list Z)) (s : Profiling) : Profiling :=
  foldl (fun s r => change r (fun p =>
    mkProfile (connectTimeoutCount p) (connectGoodCount p) (pathSuccessCount p) (pathFailCount p) (u64 (pathTimeoutCount p + 1)) now (lastDecay p)) s) s hops.
Definition MarkPathSuccess (now : Z) (hops : list (list Z)) (s : Profiling) : Profiling :=
  foldl (fun s r => change r (fun p =>
    mkProfile (connectTimeoutCount p) (connectGoodCount p) (u64 (pathSuccessCount p + Z.of_nat (length hops))) (pathFailCount p / 2) 0 now (lastDecay p)) s) s hops.
Definition ShouldSave (now : Z) (s : Profiling) : bool := 60000 <? now - m_LastSave s.

(** ** Bad routers are forgiven *)

Definition counts (p : RouterProfile) : list Z := [connectTimeoutCount p; connectGoodCount p; pathSuccessCount p; pathFailCount p; pathTimeoutCount p].
Definition profile_ok (p : RouterProfile) : Prop := Forall (in_width 64) (counts p).
Definition profiles_ok (s : Profiling) : Prop := map_Forall (fun _ => profile_ok) (m_Profiles s).

Lemma counts_new : profile_ok profile_new.
Proof. repeat constructor; done. Qed.
Lemma change_ok r f s : profiles_ok s -> (forall p, profile_ok p -> profile_ok (f p)) -> profiles_ok (change r f s).
Proof.
  intros Ok Hf. apply map_Forall_insert_2; [|exact Ok]. apply Hf. destruct (m_Profiles s !! r) as [p|] eqn:E; cbn; [exact (Ok _ _ E)|apply counts_new].
Qed.
Lemma wrap_ok z : in_width 64 (u64 z).
Proof. by apply wrap_range. Qed.
Lemma half_ok z : in_width 64 z -> in_width 64 (z / 2).
Proof. intros [? ?]. split; [apply Z.div_pos; lia|apply Z.div_lt_upper_bound; lia]. Qed.
Ltac counts_solve := unfold profile_ok, counts in *; rewrite ?Forall_cons in *; cbn; intuition auto using wrap_ok, half_ok; done.
Inductive Mark := ConnectTimeout (r : list Z) | ConnectSuccess (r : list Z) | HopFail (r : list Z) | PathFail (hops : list (list Z))
  | PathTimeout (hops : list (list Z)) | PathSuccess (hops : list (list Z)) | Ticked | Cleared (r : list Z).
Definition mark (m : Z * Mark) (s : Profiling) : Profiling :=
  let '(now, m) := m in
  match m with
  | ConnectTimeout r => MarkConnectTimeout now r s
  | ConnectSuccess r => MarkConnectSuccess now r s
  | HopFail r => MarkHopFail now r s
  | PathFail hops => MarkPathFail now hops s
  | PathTimeout hops => MarkPathTimeout now hops s
  | PathSuccess hops => MarkPathSuccess now hops s
  | Ticked => Profiling_Tick now s
  | Cleared r => ClearProfile r s
  end.
Lemma foldl_ok (f : Profiling -> list Z -> Profiling) l s : (forall s r, profiles_ok s -> profiles_ok (f s r)) -> profiles_ok s -> profiles_ok (foldl f s l).
Proof. intros Hf. revert s. induction l as [|r l IH]; intros s Ok; cbn; auto. Qed.
Lemma mark_ok m s : profiles_ok s -> profiles_ok (mark m s).
Proof.
  destruct m as [now m]. intros Ok. destruct m; cbn [mark].
  1-3: apply change_ok; [done|intros p Hp; counts_solve].
  1-3: apply foldl_ok; [|done]; intros; apply change_ok; [done|intros p Hp; counts_solve].
  - intros r p E. cbn in E. apply lookup_fmap_Some in E as (q & <- & E). specialize (Ok r q E). cbn in Ok. unfold profile_Tick. destruct (_ && _); [counts_solve|done].
  - by apply map_Forall_delete.
Qed.

(** Times of ticks, each more than [updateInterval] after the one before *)
Fixpoint spaced (last : Z) (ts : list Z) : Prop :=
  match ts with
  | [] => True
  | t :: ts => last + updateInterval < t /\ spaced t ts
  end.
Definition ticks (ts : list Z) (s : Profiling) : Profiling := foldl (fun s t => Profiling_Tick t s) s ts.
Lemma profile_Tick_spaced t p : lastDecay p + updateInterval < t -> profile_Tick t p = Decay t p.
Proof. intros L. unfold profile_Tick. rewrite (proj2 (Z.ltb_lt _ _)), (proj2 (Z.ltb_lt _ _)); unfold updateInterval in *; [done|lia|lia]. Qed.
Lemma ticks_lookup ts s r p : m_Profiles s !! r = Some p -> spaced (lastDecay p) ts ->
  exists p', m_Profiles (ticks ts s) !! r = Some p' /\ counts p' = (fun z => z / 2 ^ Z.of_nat (length ts)) <$> counts p.
Proof.
  revert s p. induction ts as [|t ts IH]; intros s p E Sp.
  - exists p. split; [exact E|]. cbn. by rewrite !Z.div_1_r.
  - destruct Sp as [L Sp]. destruct (IH (Profiling_Tick t s) (Decay t p)) as (p' & E' & C); [|exact Sp|].
    { cbn. rewrite lookup_fmap, E. cbn. by rewrite profile_Tick_spaced. }
    exists p'. split; [exact E'|]. rewrite C. cbn [counts Decay connectTimeoutCount connectGoodCount pathSuccessCount pathFailCount pathTimeoutCount fmap list_fmap].
    rewrite !Z.div_div by lia. replace (2 * 2 ^ Z.of_nat (length ts)) with (2 ^ Z.of_nat (length (t :: ts))); [done|].
    rewrite length_cons, Nat2Z.inj_succ, Z.pow_succ_r; lia.
Qed.
Lemma count_gone z n : in_width 64 z -> (64 <= n)%nat -> z / 2 ^ Z.of_nat n = 0.
Proof.
  intros [L H] Hn. apply Z.div_small. split; [done|]. eapply Z.lt_le_trans; [exact H|]. apply Z.pow_le_mono_r; lia.
Qed.
Lemma ticks_unknown ts s r : m_Profiles s !! r = None -> m_Profiles (ticks ts s) !! r = None.
Proof. revert s. induction ts as [|t ts IH]; intros s E; [exact E|]. apply IH. cbn. by rewrite lookup_fmap, E. Qed.
Definition marked (l : list (Z * Mark)) : Profiling := foldl (fun s m => mark m s) Profiling_new l.
Lemma marked_ok l : profiles_ok (marked l).
Proof.
  unfold marked. assert (Ok : profiles_ok Profiling_new) by apply map_Forall_empty. revert Ok. generalize Profiling_new.
  induction l as [|m l IH]; intros s Ok; cbn; [done|]. by apply IH, mark_ok.
Qed.

(** However a router was marked, 64 ticks more than half a minute apart and with
    no marks between them make it good again, for connections and for paths. *)
Theorem bad_routers_forgiven l ts r chances : (forall p, m_Profiles (marked l) !! r = Some p -> spaced (lastDecay p) ts) ->
  (64 <= length ts)%nat -> 0 < chances ->
  IsBadForConnect r chances (ticks ts (marked l)) = false /\ IsBadForPath r chances (ticks ts (marked l)) = false.
Proof.
  intros Sp Hn Hc. unfold IsBadForConnect, IsBadForPath, judged. destruct (m_DisableProfiling _); [done|].
  destruct (m_Profiles (marked l) !! r) as [p|] eqn:E; [|by rewrite ticks_unknown].
  destruct (ticks_lookup ts (marked l) r p E (Sp p eq_refl)) as (p' & -> & C).
  pose proof (marked_ok l r p E) as Ok. cbn in Ok. unfold profile_ok, counts in Ok. rewrite !Forall_cons in Ok. destruct Ok as (O1 & O2 & O3 & O4 & O5 & _).
  unfold counts in C. cbn [fmap list_fmap] in C. injection C as C1 C2 C3 C4 C5.
  rewrite count_gone in C1, C2, C3, C4, C5 by done. unfold IsGoodForConnect, IsGoodForPath, checkIsGood. rewrite C1, C2, C3, C4, C5. cbn.
  rewrite (proj2 (Z.ltb_lt 0 chances)), (proj2 (Z.ltb_ge chances 0)) by lia. done.
Qed.
Lemma bad_routers_forgiven_witness :
  let l := (fun t => (t, ConnectTimeout [1])) <$> seqZ 1 9 in
  let ts := (fun n => (n + 1) * 40000) <$> seqZ 0 64 in
  IsBadForConnect [1] 4 (marked l) = true /\ IsBadForConnect [1] 4 (ticks ts (marked l)) = false.
Proof.
  split; [vm_compute; reflexivity|]. refine (proj1 (bad_routers_forgiven _ _ _ _ _ _ _)).
  - intros p E. vm_compute in E. injection E as <-. vm_compute. repeat split.
  - vm_compute. lia.
  - reflexivity.
Defined.

(** One more success can make a good router bad: the test looks at the quotient only
    when there were [chances] attempts. *)
Lemma success_makes_bad : exists l, IsBadForConnect [1] 4 (marked l) = false /\ IsBadForConnect [1] 4 (mark (1, ConnectSuccess [1]) (marked l)) = true.
Proof. exists [(1, ConnectTimeout [1]); (1, ConnectTimeout [1]); (1, ConnectSuccess [1])]. split; vm_compute; reflexivity. Qed.
(** A router that was reached once and never tried in a path is bad for [IsBad]. *)
Lemma reached_is_bad : IsBad [1] 4 (marked [(1, ConnectSuccess [1])]) = true.
Proof. vm_compute. reflexivity. Qed.
