(* ===== verification/SessionMaker.v ===== *)
(** * Making sessions with routers

    [llarp/router/outbound_session_maker.cpp]: a request for a session with a router
    looks up the router's contact, tries to establish a session on a link that suits
    it, checks the contact of the session that came about, and calls everyone who
    waits for the result.  What goes on elsewhere for a request (the lookup, work put
    on the event loop, the link's handshake, the check on a worker) is in
    [outstanding]; its end is an operation.  Profiles are those of [Profiling]. *)

From S2P Require Import Prelude Buffer Bencode Crypto Dht DhtTx DhtContext DhtProofs RcLookup Outbound Profiling.
Open Scope Z_scope.

(** What other parts of the router answer.  [in_loop]: the caller runs on the event
    loop, where [call] runs its argument at once. *)
Record MEnv := mkMEnv {
  me_now : Z;
  in_loop : bool;
  HasOutboundSessionTo : Key -> bool;
  me_HasSessionTo : Key -> bool;
  me_SessionIsAllowed : Key -> bool;
  me_CheckRC : RouterContact -> bool;
  GetCompatibleLink : RouterContact -> option Z;
  TryEstablishTo : Z -> RouterContact -> bool;
  me_IsMasterNode : bool;
  NumberOfConnectedRouters : nat;
  (** the entries of the node database in the order each [GetRandom] sees them *)
  known : nat -> list RouterContact }.

Record PendingSession := mkPending { ps_rc : RouterContact; ps_link : Z }.
Inductive Driver := DLookup (router : Key) | DEstablish (router : Key) | DConnect (rc : RouterContact) | DVerify (rc : RouterContact).
#[export] Instance Driver_eq_dec : EqDecision Driver.
Proof. solve_decision. Defined.
(** The router a driver is for *)
Definition driver_of (d : Driver) : Key := match d with DLookup r | DEstablish r => r | DConnect rc | DVerify rc => pubkey rc end.

Record OutboundSessionMaker := mkMaker {
  pendingSessions : gmap Key (option PendingSession);
  mk_pendingCallbacks : gmap Key (list Z);
  us : Key;
  _profiler : Profiling;
  outstanding : list Driver;
  (** callbacks called, and the attempts, which the peer database counts if there
      is one *)
  mk_calls : list (Z * (Key * SessionResult.t));
  attempts : list Key }.
Definition sm_pendingSessions (v : gmap Key (option PendingSession)) (x : OutboundSessionMaker) : OutboundSessionMaker :=
  mkMaker v (mk_pendingCallbacks x) (us x) (_profiler x) (outstanding x) (mk_calls x) (attempts x).
Definition sm_pendingCallbacks (v : gmap Key (list Z)) (x : OutboundSessionMaker) : OutboundSessionMaker :=
  mkMaker (pendingSessions x) v (us x) (_profiler x) (outstanding x) (mk_calls x) (attempts x).
Definition sm_us (v : Key) (x : OutboundSessionMaker) : OutboundSessionMaker :=
  mkMaker (pendingSessions x) (mk_pendingCallbacks x) v (_profiler x) (outstanding x) (mk_calls x) (attempts x).
Definition sm_profiler (v : Profiling) (x : OutboundSessionMaker) : OutboundSessionMaker :=
  mkMaker (pendingSessions x) (mk_pendingCallbacks x) (us x) v (outstanding x) (mk_calls x) (attempts x).
Definition sm_outstanding (v : list Driver) (x : OutboundSessionMaker) : OutboundSessionMaker :=
  mkMaker (pendingSessions x) (mk_pendingCallbacks x) (us x) (_profiler x) v (mk_calls x) (attempts x).
Definition sm_calls (v : list (Z * (Key * SessionResult.t))) (x : OutboundSessionMaker) : OutboundSessionMaker :=
  mkMaker (pendingSessions x) (mk_pendingCallbacks x) (us x) (_profiler x) (outstanding x) v (attempts x).
Definition sm_attempts (v : list Key) (x : OutboundSessionMaker) : OutboundSessionMaker :=
  mkMaker (pendingSessions x) (mk_pendingCallbacks x) (us x) (_profiler x) (outstanding x) (mk_calls x) v.

Definition maxConnectedRouters : nat := 6.
Definition Maker_new : OutboundSessionMaker := mkMaker ∅ ∅ key_zero Profiling_new [] [] [].
Definition SetOurRouter (r : Key) (m : OutboundSessionMaker) : OutboundSessionMaker := sm_us r m.
Definition start (d : Driver) (m : OutboundSessionMaker) : OutboundSessionMaker := sm_outstanding (outstanding m ++ [d]) m.

(** ** The end of a request *)

(** The three blocks of [FinalizeRequest]: the callbacks are taken, called, and the
    pending session goes. *)
Definition finalize_take (e : MEnv) (router : Key) (type : SessionResult.t) (m : OutboundSessionMaker) : list Z * OutboundSessionMaker :=
  let m := sm_profiler (match type with SessionResult.Establish => MarkConnectSuccess (me_now e) router | _ => MarkConnectTimeout (me_now e) router end (_profiler m)) m in
  (default [] (mk_pendingCallbacks m !! router), sm_pendingCallbacks (delete router (mk_pendingCallbacks m)) m).
Definition finalize_call (router : Key) (type : SessionResult.t) (callbacks : list Z) (m : OutboundSessionMaker) : OutboundSessionMaker :=
  sm_calls (mk_calls m ++ ((fun cb => (cb, (router, type))) <$> callbacks)) m.
Definition finalize_erase (router : Key) (m : OutboundSessionMaker) : OutboundSessionMaker := sm_pendingSessions (delete router (pendingSessions m)) m.
Definition FinalizeRequest (e : MEnv) (router : Key) (type : SessionResult.t) (m : OutboundSessionMaker) : OutboundSessionMaker :=
  let '(callbacks, m) := finalize_take e router type m in
  finalize_erase router (finalize_call router type callbacks m).

(** ** The way of a request *)

Definition HavePendingSessionTo (router : Key) (m : OutboundSessionMaker) : bool := bool_decide (is_Some (pendingSessions m !! router)).
Definition CreatePendingSession (router : Key) (m : OutboundSessionMaker) : OutboundSessionMaker :=
  let m := sm_pendingSessions (match pendingSessions m !! router with Some _ => pendingSessions m | None => <[router := None]> (pendingSessions m) end) m in
  sm_attempts (attempts m ++ [router]) m.
Definition ShouldConnectTo (e : MEnv) (router : Key) (m : OutboundSessionMaker) : bool :=
  if bool_decide (router = us m) || negb (me_SessionIsAllowed e router) then false
  else if HasOutboundSessionTo e router then false
  else if me_IsMasterNode e then true
  else
    let numPending := if bool_decide (pendingSessions m !! router = None) then size (pendingSessions m) else 0%nat in
    bool_decide (NumberOfConnectedRouters e + numPending < maxConnectedRouters)%nat.
Definition DoEstablish (e : MEnv) (router : Key) (m : OutboundSessionMaker) : outcome OutboundSessionMaker :=
  match pendingSessions m !! router with
  | None => Done m
  | Some None => Fault
  | Some (Some job) =>
      if negb (TryEstablishTo e (ps_link job) (ps_rc job)) then Done (FinalizeRequest e router SessionResult.EstablishFail m)
      else Done (start (DConnect (ps_rc job)) m)
  end.
Definition GotRouterContact (e : MEnv) (router : Key) (rc : RouterContact) (m : OutboundSessionMaker) : outcome OutboundSessionMaker :=
  match pendingSessions m !! router with
  | None => Done m
  | Some _ =>
      match GetCompatibleLink e rc with
      | None => Done (FinalizeRequest e router SessionResult.NoLink m)
      | Some link =>
          let m := sm_pendingSessions (<[router := Some (mkPending rc link)]> (pendingSessions m)) m in
          if ShouldConnectTo e router m then
            if in_loop e then DoEstablish e router m else Done (start (DEstablish router) m)
          else Done (FinalizeRequest e router SessionResult.NoLink m)
      end
  end.
Definition OnRouterContactResult (e : MEnv) (router : Key) (rc : option RouterContact) (result : RCRequestResult) (m : OutboundSessionMaker)
    : outcome OutboundSessionMaker :=
  if negb (HavePendingSessionTo router m) then Done m
  else
    match result with
    | RcLookup.Success =>
        match rc with
        | Some rc => GotRouterContact e router rc m
        | None => Done (FinalizeRequest e router SessionResult.InvalidRouter m)
        end
    | RcLookup.InvalidRouter => Done (FinalizeRequest e router SessionResult.InvalidRouter m)
    | RcLookup.RouterNotFound | BadRC => Done (FinalizeRequest e router SessionResult.RouterNotFound m)
    end.
Definition add_callback (router : Key) (on_result : option Z) (m : OutboundSessionMaker) : OutboundSessionMaker :=
  match on_result with
  | Some cb => sm_pendingCallbacks (<[router := default [] (mk_pendingCallbacks m !! router) ++ [cb]]> (mk_pendingCallbacks m)) m
  | None => m
  end.
Definition CreateSessionTo (e : MEnv) (router : Key) (on_result : option Z) (m : OutboundSessionMaker) : OutboundSessionMaker :=
  let m := add_callback router on_result m in
  if HavePendingSessionTo router m then m
  else
    let m := CreatePendingSession router m in
    if HasOutboundSessionTo e router then FinalizeRequest e router SessionResult.Establish m
    else start (DLookup router) m.
Definition CreateSessionTo_rc (e : MEnv) (rc : RouterContact) (on_result : option Z) (m : OutboundSessionMaker) : outcome OutboundSessionMaker :=
  let router := pubkey rc in
  let m := add_callback router on_result m in
  let m := if negb (HavePendingSessionTo router m) then CreatePendingSession router m else m in
  if HasOutboundSessionTo e router then Done (FinalizeRequest e router SessionResult.Establish m)
  else GotRouterContact e router rc m.

(** ** Reports of the links *)

Definition VerifyRC (e : MEnv) (rc : RouterContact) (m : OutboundSessionMaker) : OutboundSessionMaker :=
  if negb (me_CheckRC e rc) then FinalizeRequest e (pubkey rc) SessionResult.InvalidRouter m
  else FinalizeRequest e (pubkey rc) SessionResult.Establish m.
Definition OnSessionEstablished (e : MEnv) (rc : RouterContact) (isOutbound : bool) (m : OutboundSessionMaker) : bool * OutboundSessionMaker :=
  let router := pubkey rc in
  if negb (me_SessionIsAllowed e router) then (false, FinalizeRequest e router SessionResult.InvalidRouter m)
  else if isOutbound then (true, start (DVerify rc) m)
  else (me_CheckRC e rc, m).
Definition OnConnectTimeout (e : MEnv) (rc : RouterContact) (m : OutboundSessionMaker) : OutboundSessionMaker :=
  FinalizeRequest e (pubkey rc) SessionResult.Timeout m.

(** The first entry that is not excluded *)
Definition GetRandom (exclude : list Key) (entries : list RouterContact) : option RouterContact :=
  head (filter (fun rc => pubkey rc ∉ exclude) entries).
Fixpoint random_loop (e : MEnv) (fuel : nat) (exclude : list Key) (remainingDesired : Z) (m : OutboundSessionMaker) : outcome OutboundSessionMaker :=
  match fuel with
  | O => Timeout
  | S fuel =>
      match GetRandom exclude (known e (length exclude)) with
      | None => Done m
      | Some other =>
          let exclude := pubkey other :: exclude in
          if negb (me_SessionIsAllowed e (pubkey other)) then
            if 0 <? remainingDesired then random_loop e fuel exclude remainingDesired m else Done m
          else if negb (me_HasSessionTo e (pubkey other) || HavePendingSessionTo (pubkey other) m) then
            let! m := CreateSessionTo_rc e other None m in
            let remainingDesired := remainingDesired - 1 in
            if 0 <? remainingDesired then random_loop e fuel exclude remainingDesired m else Done m
          else if 0 <? remainingDesired then random_loop e fuel exclude remainingDesired m else Done m
      end
  end.
Definition ConnectToRandomRouters (e : MEnv) (numDesired : Z) (m : OutboundSessionMaker) : outcome OutboundSessionMaker :=
  random_loop e (S (length (known e 0))) [] numDesired m.

(** ** Runs *)

Inductive MOp :=
| OpCreate (router : Key) (on_result : option Z)
| OpCreateRC (rc : RouterContact) (on_result : option Z)
| OpRandom (numDesired : Z)
| OpLookedUp (router : Key) (rc : option RouterContact) (result : RCRequestResult)
| OpRunEstablish (router : Key)
| OpEstablished (rc : RouterContact)
| OpAccepted (rc : RouterContact)
| OpTimedOut (rc : RouterContact)
| OpVerify (rc : RouterContact).
(** The driver whose end the operation is *)
Definition ends (o : MOp) : option Driver :=
  match o with
  | OpLookedUp router _ _ => Some (DLookup router)
  | OpRunEstablish router => Some (DEstablish router)
  | OpEstablished rc | OpTimedOut rc => Some (DConnect rc)
  | OpVerify rc => Some (DVerify rc)
  | _ => None
  end.
Definition mstep (e : MEnv) (o : MOp) (m : OutboundSessionMaker) : outcome OutboundSessionMaker :=
  match o with
  | OpCreate router on_result => Done (CreateSessionTo e router on_result m)
  | OpCreateRC rc on_result => CreateSessionTo_rc e rc on_result m
  | OpRandom n => ConnectToRandomRouters e n m
  | OpLookedUp router rc result => OnRouterContactResult e router rc result m
  | OpRunEstablish router => DoEstablish e router m
  | OpEstablished rc => Done (OnSessionEstablished e rc true m).2
  | OpAccepted rc => Done (OnSessionEstablished e rc false m).2
  | OpTimedOut rc => Done (OnConnectTimeout e rc m)
  | OpVerify rc => Done (VerifyRC e rc m)
  end.
(** An end of something that is not outstanding does not happen. *)
Definition run_mop (e : MEnv) (o : MOp) (m : OutboundSessionMaker) : outcome OutboundSessionMaker :=
  match ends o with
  | None => mstep e o m
  | Some d =>
      match list_find (fun d' => d' = d) (outstanding m) with
      | Some (i, _) => mstep e o (sm_outstanding (delete i (outstanding m)) m)
      | None => Done m
      end
  end.
Fixpoint run_mops (l : list (MEnv * MOp)) (m : OutboundSessionMaker) : outcome OutboundSessionMaker :=
  match l with
  | [] => Done m
  | (e, o) :: l => let! m := run_mop e o m in run_mops l m
  end.
