(* ===== verification/SessionMakerProofs.v ===== *)
(** * Requests for sessions are answered

    For each run of the session maker on the event loop: every callback is called once
    or waits; whoever waits has a pending session, for which something is outstanding;
    each end of something outstanding brings the requests nearer to their end. *)

From S2P Require Import Prelude Buffer Bencode Crypto Dht DhtTx DhtContext DhtProofs RcLookup Outbound OutboundProofs Profiling SessionMaker.
Open Scope Z_scope.

(** ** The invariant *)

Definition count (x : Z) (l : list Z) : nat := count_occ Z.eq_dec l x.
#[local] Arguments count : simpl never.
(** How often a callback was called or waits *)
Definition macc (x : Z) (m : OutboundSessionMaker) : nat := (count x (mk_calls m).*1 + count x (messages (mk_pendingCallbacks m)))%nat.
Definition rank1 (d : Driver) : nat := match d with DLookup _ => 3 | DEstablish _ => 2 | DConnect _ => 2 | DVerify _ => 1 end.
Definition rank (l : list Driver) : nat := sum_list (rank1 <$> l).
Definition in_the_loop (d : Driver) : Prop := match d with DEstablish _ => False | _ => True end.
Record served (m : OutboundSessionMaker) : Prop := {
  sv_waits r : is_Some (mk_pendingCallbacks m !! r) -> is_Some (pendingSessions m !! r);
  sv_driven r : is_Some (pendingSessions m !! r) -> exists d, d ∈ outstanding m /\ driver_of d = r;
  sv_loop : Forall in_the_loop (outstanding m) }.

Lemma rank_app a b : rank (a ++ b) = (rank a + rank b)%nat.
Proof. unfold rank. rewrite fmap_app. apply sum_list_with_app with (f := id). Qed.
Lemma count_app x a b : count x (a ++ b) = (count x a + count x b)%nat.
Proof. apply count_occ_app. Qed.
Lemma count_perm x a b : a ≡ₚ b -> count x a = count x b.
Proof. intros P. by apply Permutation_count_occ. Qed.

(** ** What an operation for a router does *)

(** Only the router's entries change; [new] is the callback that joins.  When the
    router still has a pending session something new is outstanding for it, unless the
    operation is not the end of anything ([idle]). *)
Record moves (idle : bool) (r : Key) (new : option Z) (k : nat) (m m' : OutboundSessionMaker) : Prop := {
  mv_sessions r' : r' <> r -> pendingSessions m' !! r' = pendingSessions m !! r';
  mv_callbacks r' : r' <> r -> mk_pendingCallbacks m' !! r' = mk_pendingCallbacks m !! r';
  mv_waits : is_Some (mk_pendingCallbacks m' !! r) -> is_Some (pendingSessions m' !! r);
  mv_added : exists added, outstanding m' = outstanding m ++ added /\ Forall (fun d => driver_of d = r /\ in_the_loop d) added /\ (rank added <= k)%nat /\
    (is_Some (pendingSessions m' !! r) -> added <> [] \/ idle = true /\ is_Some (pendingSessions m !! r));
  mv_account x : macc x m' = (once x new + macc x m)%nat }.
Lemma moves_served idle r new k m m' : served m -> moves idle r new k m m' -> served m'.
Proof.
  intros [W D L] [S C Wr (added & E & F & _ & A) _]. split.
  - intros r' Hr. destruct (decide (r' = r)) as [->|N]; [auto|]. rewrite S, C in * by done. auto.
  - intros r' Hr. rewrite E. destruct (decide (r' = r)) as [->|N].
    + destruct (A Hr) as [Na|[_ Hp]]; [|destruct (D r Hp) as (d & Hd & Ed); exists d; set_solver].
      destruct added as [|d added]; [done|]. exists d. apply Forall_cons in F as [[Fd _] _]. set_solver.
    + rewrite S in Hr by done. destruct (D r' Hr) as (d & Hd & Ed). exists d. set_solver.
  - rewrite E. apply Forall_app. split; [done|]. eapply Forall_impl; [exact F|]. by intros d [_ Hd].
Qed.
Lemma finalize_moves e r type m idle k : moves idle r None k m (FinalizeRequest e r type m).
Proof.
  split; cbn.
  - intros r' N. by rewrite lookup_delete_ne.
  - intros r' N. by rewrite lookup_delete_ne.
  - rewrite lookup_delete_eq. by intros [? [=]].
  - exists []. rewrite app_nil_r. split; [done|]. split; [constructor|]. split; [cbn; lia|]. rewrite lookup_delete_eq. by intros [? [=]].
  - intros x. unfold macc. cbn. rewrite fmap_app, <- list_fmap_compose, count_app, (count_perm x _ _ (messages_split (mk_pendingCallbacks m) r)), count_app, once_None.
    rewrite list_fmap_id. lia.
Qed.

(** ** Operations *)

(** With a pending session, looking into the contact ends in a session or in an end of
    the request. *)
Lemma DoEstablish_moves e r job m k : pendingSessions m !! r = Some (Some job) -> pubkey (ps_rc job) = r -> (2 <= k)%nat ->
  exists m', DoEstablish e r m = Done m' /\ moves false r None k m m'.
Proof.
  intros E Er Hk. unfold DoEstablish. rewrite E. destruct (TryEstablishTo e (ps_link job) (ps_rc job)); cbn [negb].
  - eexists. split; [reflexivity|]. split; try done.
    exists [DConnect (ps_rc job)]. split; [done|]. split; [by repeat constructor|]. split; [cbn; lia|]. by left.
  - eexists. split; [reflexivity|]. apply finalize_moves.
Qed.
Lemma moves_after_set r p m m' k : moves false r None k (sm_pendingSessions (<[r := p]> (pendingSessions m)) m) m' -> moves false r None k m m'.
Proof.
  intros [S C W (added & E & F & R & A) T]. split; [| |done| |exact T].
  - intros r' N. rewrite (S r' N). cbn. by rewrite lookup_insert_ne.
  - exact C.
  - exists added. repeat split; try done. intros Hr. destruct (A Hr) as [?|[[=] _]]. by left.
Qed.
Lemma GotRouterContact_moves e r rc m : in_loop e = true -> pubkey rc = r -> is_Some (pendingSessions m !! r) ->
  exists m', GotRouterContact e r rc m = Done m' /\ moves false r None 2 m m'.
Proof.
  intros Hl Hr [o Ho]. unfold GotRouterContact. rewrite Ho. destruct (GetCompatibleLink e rc) as [link|]; [|eexists; split; [reflexivity|]; apply finalize_moves].
  set (m1 := sm_pendingSessions _ m). assert (E1 : pendingSessions m1 !! r = Some (Some (mkPending rc link))) by (cbn; by rewrite lookup_insert_eq).
  destruct (ShouldConnectTo e r m1).
  - rewrite Hl. destruct (DoEstablish_moves e r (mkPending rc link) m1 2 E1 Hr (le_n 2)) as (m' & E & Mv). exists m'. split; [exact E|]. by eapply moves_after_set.
  - eexists. split; [reflexivity|]. eapply moves_after_set, finalize_moves.
Qed.
Lemma OnRouterContactResult_moves e r rc result m : in_loop e = true -> (is_Some (mk_pendingCallbacks m !! r) -> is_Some (pendingSessions m !! r)) ->
  (forall c, rc = Some c -> pubkey c = r) ->
  exists m', OnRouterContactResult e r rc result m = Done m' /\ moves false r None 2 m m'.
Proof.
  intros Hl Hs Hrc. unfold OnRouterContactResult, HavePendingSessionTo. case_bool_decide as Hp; cbn [negb].
  - destruct result; try (eexists; split; [reflexivity|]; apply finalize_moves). destruct rc as [c|]; [|eexists; split; [reflexivity|]; apply finalize_moves].
    apply GotRouterContact_moves; auto.
  - exists m. split; [done|]. split; try done.
    exists []. rewrite app_nil_r. split; [done|]. split; [constructor|]. split; [cbn; lia|done].
Qed.
Lemma add_callback_account x r cb m : macc x (add_callback r cb m) = (once x cb + macc x m)%nat.
Proof.
  destruct cb as [c|]; cbn [add_callback]; [|by rewrite once_None]. unfold macc. cbn.
  rewrite (count_perm x _ _ (messages_insert (mk_pendingCallbacks m) r _)), (count_perm x _ _ (messages_split (mk_pendingCallbacks m) r)), !count_app.
  rewrite <- (once_list x (Some c)). unfold count. cbn. lia.
Qed.
(** The callback joins and a pending session is there. *)
Definition requested (r : Key) (cb : option Z) (m : OutboundSessionMaker) : OutboundSessionMaker :=
  let m := add_callback r cb m in if HavePendingSessionTo r m then m else CreatePendingSession r m.
Lemma requested_spec r cb m : is_Some (pendingSessions (requested r cb m) !! r) /\ outstanding (requested r cb m) = outstanding m /\
  (forall r', r' <> r -> pendingSessions (requested r cb m) !! r' = pendingSessions m !! r') /\
  (forall r', r' <> r -> mk_pendingCallbacks (requested r cb m) !! r' = mk_pendingCallbacks m !! r') /\
  forall x, macc x (requested r cb m) = (once x cb + macc x m)%nat.
Proof.
  assert (P : pendingSessions (add_callback r cb m) = pendingSessions m) by (by destruct cb).
  assert (O : outstanding (add_callback r cb m) = outstanding m) by (by destruct cb).
  assert (C : forall r', r' <> r -> mk_pendingCallbacks (add_callback r cb m) !! r' = mk_pendingCallbacks m !! r').
  { intros r' N. destruct cb; cbn; [by rewrite lookup_insert_ne|done]. }
  unfold requested, HavePendingSessionTo. case_bool_decide as Hp.
  - rewrite P in *. split; [done|]. split; [done|]. split; [done|]. split; [exact C|]. intros x. apply add_callback_account.
  - assert (N : pendingSessions (add_callback r cb m) !! r = None) by (by apply eq_None_not_Some). unfold CreatePendingSession. rewrite N.
    split; [cbn; by rewrite lookup_insert_eq|]. split; [exact O|]. split; [intros r' Hn; cbn; by rewrite lookup_insert_ne, P|]. split; [exact C|].
    intros x. apply (add_callback_account x r cb m).
Qed.
Lemma moves_requested idle r cb m m' k : moves false r None k (requested r cb m) m' -> moves idle r cb k m m'.
Proof.
  destruct (requested_spec r cb m) as (P & O & S0 & C0 & A0). intros [S C W (added & E & F & R & A) T]. split.
  - intros r' N. by rewrite S, S0.
  - intros r' N. by rewrite C, C0.
  - done.
  - exists added. rewrite E, O. repeat split; try done. intros Hr. destruct (A Hr) as [?|[[=] _]]. by left.
  - intros x. rewrite T, A0, once_None. done.
Qed.
Lemma CreateSessionTo_rc_moves e rc cb m : in_loop e = true ->
  exists m', CreateSessionTo_rc e rc cb m = Done m' /\ moves true (pubkey rc) cb 2 m m'.
Proof.
  intros Hl. destruct (requested_spec (pubkey rc) cb m) as (P & _).
  assert (E : CreateSessionTo_rc e rc cb m = if HasOutboundSessionTo e (pubkey rc) then Done (FinalizeRequest e (pubkey rc) SessionResult.Establish (requested (pubkey rc) cb m))
    else GotRouterContact e (pubkey rc) rc (requested (pubkey rc) cb m)).
  { unfold CreateSessionTo_rc, requested. by destruct (HavePendingSessionTo _ _). }
  rewrite E. destruct (HasOutboundSessionTo e (pubkey rc)).
  - eexists. split; [reflexivity|]. eapply moves_requested, finalize_moves.
  - destruct (GotRouterContact_moves e (pubkey rc) rc _ Hl eq_refl P) as (m' & -> & Mv). exists m'. split; [done|]. by eapply moves_requested.
Qed.
Lemma CreateSessionTo_moves e r cb m : moves true r cb 3 m (CreateSessionTo e r cb m).
Proof.
  destruct (requested_spec r cb m) as (P & O & S & C & A). unfold CreateSessionTo. unfold requested in *.
  destruct (HavePendingSessionTo r (add_callback r cb m)) eqn:Hp.
  - split; try done. exists []. rewrite app_nil_r. split; [done|]. split; [constructor|]. split; [cbn; lia|]. intros _. right. split; [done|].
    by destruct cb.
  - destruct (HasOutboundSessionTo e r).
    + eapply (moves_requested true). unfold requested. rewrite Hp. apply finalize_moves.
    + split; try done. exists [DLookup r]. split; [cbn; by rewrite <- O|]. split; [by repeat constructor|]. split; [cbn; lia|]. by left.
Qed.

Lemma filter_shrinks {A} (P Q : A -> Prop) `{!forall x, Decision (P x), !forall x, Decision (Q x)} (l : list A) x :
  x ∈ l -> Q x -> ~ P x -> (forall y, P y -> Q y) -> (length (filter P l) < length (filter Q l))%nat.
Proof.
  intros Hx Hq Hp Himp. induction l as [|y l IH]; [by apply not_elem_of_nil in Hx|]. rewrite !filter_cons.
  assert (Le : (length (filter P l) <= length (filter Q l))%nat).
  { clear -Himp. induction l as [|z l IH]; [done|]. rewrite !filter_cons. repeat case_decide; cbn; try lia. exfalso; auto. }
  apply elem_of_cons in Hx as [->|Hx]; repeat case_decide; cbn; try lia; try (exfalso; by auto); specialize (IH Hx); lia.
Qed.
(** The end of something outstanding *)
Lemma moves_end i d k m m' : served m -> outstanding m !! i = Some d ->
  moves false (driver_of d) None k (sm_outstanding (delete i (outstanding m)) m) m' -> (k < rank1 d)%nat ->
  served m' /\ (forall x, macc x m' = macc x m) /\ (rank (outstanding m') < rank (outstanding m))%nat.
Proof.
  intros Sv Ei [S C W (added & E & F & R & A) T] Hk. cbn in E, S, C. pose proof (delete_Permutation _ _ _ Ei) as P. split; [split|split].
  - intros r Hr. destruct (decide (r = driver_of d)) as [->|N]; [auto|]. rewrite S, C in * by done. by apply Sv.
  - intros r Hr. rewrite E. destruct (decide (r = driver_of d)) as [->|N].
    + destruct (A Hr) as [Na|[[=] _]]. destruct added as [|d' added]; [done|]. exists d'. apply Forall_cons in F as [[Fd _] _]. set_solver.
    + rewrite S in Hr by done. destruct (sv_driven _ Sv r Hr) as (d' & Hd & Ed). exists d'. rewrite P in Hd. apply elem_of_cons in Hd as [->|Hd]; [done|]. set_solver.
  - rewrite E. apply Forall_app. split; [|eapply Forall_impl; [exact F|]; by intros d' [_ Hd]].
    pose proof (sv_loop _ Sv) as L. rewrite P in L. by apply Forall_cons in L as [_ L].
  - intros x. rewrite T, once_None. reflexivity.
  - rewrite E, rank_app. assert (Rp : rank (outstanding m) = (rank1 d + rank (delete i (outstanding m)))%nat); [|lia].
    unfold rank. rewrite P at 1. reflexivity.
Qed.

Lemma random_spec e fuel ex n m : in_loop e = true -> (forall n, known e n ≡ₚ known e 0) ->
  (length (filter (fun rc => pubkey rc ∉ ex) (known e 0)) < fuel)%nat -> served m ->
  exists m', random_loop e fuel ex n m = Done m' /\ served m' /\ forall x, macc x m' = macc x m.
Proof.
  intros Hl Hk. revert ex n m. induction fuel as [|fuel IH]; intros ex n m Hf Sv; [lia|]. cbn [random_loop]. unfold GetRandom.
  destruct (filter (fun rc => pubkey rc ∉ ex) (known e (length ex))) as [|rc l] eqn:E; cbn [head]; [by exists m|].
  assert (Hrc : rc ∈ known e 0 /\ pubkey rc ∉ ex).
  { assert (I : rc ∈ filter (fun rc => pubkey rc ∉ ex) (known e (length ex))) by (rewrite E; apply list_elem_of_here).
    apply list_elem_of_filter in I as [I1 I2]. by rewrite Hk in I2. }
  assert (Hf' : (length (filter (fun rc0 => pubkey rc0 ∉ pubkey rc :: ex) (known e 0)) < fuel)%nat).
  { destruct Hrc as [I1 I2]. enough (length (filter (fun rc0 => pubkey rc0 ∉ pubkey rc :: ex) (known e 0)) < length (filter (fun rc => pubkey rc ∉ ex) (known e 0)))%nat by lia.
    apply filter_shrinks with (x := rc); [done|done|set_solver|set_solver]. }
  assert (Next : forall n m1, served m1 -> (forall x, macc x m1 = macc x m) ->
    exists m', (if 0 <? n then random_loop e fuel (pubkey rc :: ex) n m1 else Done m1) = Done m' /\ served m' /\ forall x, macc x m' = macc x m).
  { intros n1 m1 Sv1 A1. destruct (0 <? n1); [|by exists m1]. destruct (IH _ n1 m1 Hf' Sv1) as (m' & E' & Sv' & A'). exists m'. split; [done|]. split; [done|].
    intros x. by rewrite A'. }
  destruct (me_SessionIsAllowed e (pubkey rc)); cbn [negb]; [|by apply Next]. destruct (_ || _); cbn [negb]; [by apply Next|].
  destruct (CreateSessionTo_rc_moves e rc None m Hl) as (m1 & -> & Mv). cbn [obind]. apply Next; [by eapply moves_served|].
  intros x. by rewrite (mv_account _ _ _ _ _ _ Mv), once_None.
Qed.

(** ** Runs *)

(** On the event loop, the node database not changing while it is asked, and lookups
    answered with the contact that was asked for *)
Definition mop_ok (e : MEnv) (o : MOp) : Prop :=
  in_loop e = true /\ (forall n, known e n ≡ₚ known e 0) /\ match o with OpLookedUp r (Some c) _ => pubkey c = r | _ => True end.
Definition mgiven (o : MOp) : option Z := match o with OpCreate _ cb | OpCreateRC _ cb => cb | _ => None end.
Lemma mstep_end e o d i m : mop_ok e o -> ends o = Some d -> served m -> outstanding m !! i = Some d ->
  exists m' k, mstep e o (sm_outstanding (delete i (outstanding m)) m) = Done m' /\ (k < rank1 d)%nat /\
    moves false (driver_of d) None k (sm_outstanding (delete i (outstanding m)) m) m'.
Proof.
  intros (Hl & _ & Ho) Ed Sv Ei. destruct o; cbn in Ed; simplify_eq; cbn [mstep driver_of rank1].
  - destruct (OnRouterContactResult_moves e router rc result (sm_outstanding (delete i (outstanding m)) m) Hl) as (m' & E & Mv); [apply (sv_waits _ Sv)|intros c ->; exact Ho|].
    exists m', 2%nat. split; [exact E|]. split; [lia|exact Mv].
  - pose proof (sv_loop _ Sv) as L. by apply (Forall_lookup_1 _ _ _ _ L) in Ei.
  - unfold OnSessionEstablished. destruct (me_SessionIsAllowed e (pubkey rc)); cbn [negb snd].
    + eexists _, 1%nat. split; [reflexivity|]. split; [lia|]. split; try done; [apply (sv_waits _ Sv)|].
      exists [DVerify rc]. split; [done|]. split; [by repeat constructor|]. split; [cbn; lia|by left].
    + eexists _, 0%nat. split; [reflexivity|]. split; [lia|]. apply finalize_moves.
  - eexists _, 0%nat. split; [reflexivity|]. split; [lia|]. apply finalize_moves.
  - eexists _, 0%nat. split; [reflexivity|]. split; [lia|]. unfold VerifyRC. destruct (me_CheckRC e rc); apply finalize_moves.
Qed.
Lemma run_mop_spec e o m : mop_ok e o -> served m ->
  exists m', run_mop e o m = Done m' /\ served m' /\ (forall x, macc x m' = once x (mgiven o) + macc x m)%nat /\
    forall d, ends o = Some d -> d ∈ outstanding m -> (rank (outstanding m') < rank (outstanding m))%nat.
Proof.
  intros Ok Sv. unfold run_mop. destruct (ends o) as [d|] eqn:Ed.
  - assert (G : mgiven o = None) by (by destruct o). rewrite G. destruct (list_find _ _) as [[i d']|] eqn:Ef.
    + apply list_find_Some in Ef as (Ei & -> & _). destruct (mstep_end e o d i m Ok Ed Sv Ei) as (m' & k & E & Hk & Mv).
      destruct (moves_end i d k m m' Sv Ei Mv Hk) as (Sv' & A & R). exists m'. split; [exact E|]. split; [done|].
      split; [intros x; by rewrite A, once_None|done].
    + exists m. split; [done|]. split; [done|]. split; [intros x; by rewrite once_None|]. intros d' [= <-] Hd. apply list_find_None in Ef.
      by apply (proj1 (Forall_forall _ _) Ef d) in Hd.
  - destruct Ok as (Hl & Hk & _). destruct o; cbn in Ed; simplify_eq; cbn [mstep mgiven].
    + eexists. split; [reflexivity|]. pose proof (CreateSessionTo_moves e router on_result m) as Mv. split; [by eapply moves_served|]. split; [apply Mv|done].
    + destruct (CreateSessionTo_rc_moves e rc on_result m Hl) as (m' & E & Mv). exists m'. split; [exact E|]. split; [by eapply moves_served|]. split; [apply Mv|done].
    + destruct (random_spec e (S (length (known e 0))) [] numDesired m Hl Hk) as (m' & E & Sv' & A); [|done|].
      { pose proof (length_filter (fun rc => pubkey rc ∉ []) (known e 0)). lia. }
      exists m'. split; [exact E|]. split; [done|]. split; [intros x; by rewrite A, once_None|done].
    + eexists. split; [reflexivity|]. unfold OnSessionEstablished. destruct (me_SessionIsAllowed e (pubkey rc)); cbn [negb snd].
      * split; [done|]. split; [intros x; by rewrite once_None|done].
      * pose proof (finalize_moves e (pubkey rc) SessionResult.InvalidRouter m true 0) as Mv. split; [by eapply moves_served|]. split; [apply Mv|done].
Qed.
Definition mops_ok (l : list (MEnv * MOp)) : Prop := Forall (fun eo => mop_ok eo.1 eo.2) l.
Definition requests (l : list (MEnv * MOp)) : list Z := omap (fun eo => mgiven eo.2) l.
Definition waits_for_session (m : OutboundSessionMaker) : list Z := messages (mk_pendingCallbacks m).
Lemma run_mops_spec l m : mops_ok l -> served m ->
  exists m', run_mops l m = Done m' /\ served m' /\ forall x, (macc x m' = count x (requests l) + macc x m)%nat.
Proof.
  revert m. induction l as [|[e o] l IH]; intros m Ok Sv; [by exists m|]. apply Forall_cons in Ok as [Ho Ok].
  destruct (run_mop_spec e o m Ho Sv) as (m1 & E1 & Sv1 & A1 & _). destruct (IH m1 Ok Sv1) as (m' & E & Sv' & A).
  exists m'. cbn [run_mops]. rewrite E1. split; [exact E|]. split; [done|]. intros x. rewrite A, A1.
  assert (R : count x (requests ((e, o) :: l)) = (once x (mgiven o) + count x (requests l))%nat); [|lia].
  unfold requests. cbn [omap list_omap snd]. rewrite <- once_list. destruct (mgiven o); [|done]. apply (count_app x [z]).
Qed.
Lemma served_new : served Maker_new.
Proof. split; [intros r [? [=]]|intros r [? [=]]|constructor]. Qed.
Lemma served_idle m : served m -> outstanding m = [] -> pendingSessions m = ∅ /\ waits_for_session m = [].
Proof.
  intros Sv O. assert (P : forall r, pendingSessions m !! r = None).
  { intros r. apply eq_None_not_Some. intros Hr. destruct (sv_driven _ Sv r Hr) as (d & Hd & _). rewrite O in Hd. by apply not_elem_of_nil in Hd. }
  split; [by apply map_empty|]. unfold waits_for_session. replace (mk_pendingCallbacks m) with (∅ : gmap Key (list Z)); [reflexivity|].
  symmetry. apply map_empty. intros r. apply eq_None_not_Some. intros Hr. apply (sv_waits _ Sv) in Hr. rewrite P in Hr. by destruct Hr.
Qed.


(** ** Who is called *)

Definition waiting_for (r : Key) (m : OutboundSessionMaker) : list Z := default [] (mk_pendingCallbacks m !! r).
(** Whoever waited for a router still does, or was called with a result for it. *)
Definition calls_on (m m' : OutboundSessionMaker) : Prop :=
  exists cs, mk_calls m' = mk_calls m ++ cs /\ forall r cb, cb ∈ waiting_for r m -> cb ∈ waiting_for r m' \/ exists t, (cb, (r, t)) ∈ cs.
Lemma calls_on_same m m' : mk_calls m' = mk_calls m -> mk_pendingCallbacks m' = mk_pendingCallbacks m -> calls_on m m'.
Proof. intros C P. exists []. rewrite C, app_nil_r. split; [done|]. intros r cb I. left. unfold waiting_for in *. by rewrite P. Qed.
Lemma calls_on_trans a b c : calls_on a b -> calls_on b c -> calls_on a c.
Proof.
  intros (c1 & E1 & W1) (c2 & E2 & W2). exists (c1 ++ c2). rewrite E2, E1, app_assoc. split; [done|]. intros r cb I.
  destruct (W1 r cb I) as [I'|[t I']]; [|right; exists t; set_solver]. destruct (W2 r cb I') as [?|[t ?]]; [by left|right; exists t; set_solver].
Qed.
Lemma finalize_calls_on e r t m : calls_on m (FinalizeRequest e r t m).
Proof.
  exists ((fun cb => (cb, (r, t))) <$> waiting_for r m). split; [done|]. intros r' cb I. unfold waiting_for in *. cbn.
  destruct (decide (r' = r)) as [->|N]; [right; exists t; apply list_elem_of_fmap; by exists cb|left; by rewrite lookup_delete_ne].
Qed.
Lemma add_callback_calls_on r cb m : calls_on m (add_callback r cb m).
Proof.
  destruct cb as [c|]; [|by apply calls_on_same]. exists []. rewrite app_nil_r. split; [done|]. intros r' cb I. left. unfold waiting_for in *. cbn.
  destruct (decide (r' = r)) as [->|N]; [rewrite lookup_insert_eq; cbn; set_solver|by rewrite lookup_insert_ne].
Qed.
Create HintDb calls discriminated.
#[local] Hint Resolve finalize_calls_on add_callback_calls_on : calls.
Lemma GotRouterContact_calls_on e r rc m m' : GotRouterContact e r rc m = Done m' -> calls_on m m'.
Proof.
  unfold GotRouterContact. destruct (pendingSessions m !! r) as [o|]; [|intros [= <-]; by apply calls_on_same].
  destruct (GetCompatibleLink e rc) as [link|]; [|intros [= <-]; eauto with calls].
  set (m1 := sm_pendingSessions _ m). intros E. apply (calls_on_trans m m1); [by apply calls_on_same|]. destruct (ShouldConnectTo e r m1); [|simplify_eq; eauto with calls].
  destruct (in_loop e); [|simplify_eq; by apply calls_on_same]. unfold DoEstablish in E.
  destruct (pendingSessions m1 !! r) as [[job|]|]; [|done|simplify_eq; by apply calls_on_same].
  destruct (negb _); simplify_eq; [eauto with calls|by apply calls_on_same].
Qed.
Lemma CreateSessionTo_rc_calls_on e rc cb m m' : CreateSessionTo_rc e rc cb m = Done m' -> calls_on m m'.
Proof.
  unfold CreateSessionTo_rc. intros E. apply (calls_on_trans _ (add_callback (pubkey rc) cb m)); [eauto with calls|].
  set (m1 := if negb _ then _ else _) in E. apply (calls_on_trans _ m1); [unfold m1; destruct (negb _); by apply calls_on_same|].
  destruct (HasOutboundSessionTo e (pubkey rc)); [simplify_eq; eauto with calls|by eapply GotRouterContact_calls_on].
Qed.
Lemma CreateSessionTo_calls_on e r cb m : calls_on m (CreateSessionTo e r cb m).
Proof.
  unfold CreateSessionTo. apply (calls_on_trans _ (add_callback r cb m)); [eauto with calls|]. set (m1 := add_callback r cb m).
  destruct (HavePendingSessionTo r m1); [by apply calls_on_same|]. apply (calls_on_trans _ (CreatePendingSession r m1)); [by apply calls_on_same|].
  destruct (HasOutboundSessionTo e r); [eauto with calls|by apply calls_on_same].
Qed.
(** A new request is answered or waits. *)
Lemma CreateSessionTo_calls e r cb m : exists cs, mk_calls (CreateSessionTo e r (Some cb) m) = mk_calls m ++ cs /\
  (cb ∈ waiting_for r (CreateSessionTo e r (Some cb) m) \/ exists t, (cb, (r, t)) ∈ cs).
Proof.
  assert (I : cb ∈ waiting_for r (add_callback r (Some cb) m)) by (unfold waiting_for; cbn; rewrite lookup_insert_eq; cbn; set_solver).
  unfold CreateSessionTo. set (m1 := add_callback r (Some cb) m) in *. destruct (HavePendingSessionTo r m1); [exists []; rewrite app_nil_r; auto|].
  destruct (HasOutboundSessionTo e r); [|exists []; rewrite app_nil_r; auto].
  destruct (finalize_calls_on e r SessionResult.Establish (CreatePendingSession r m1)) as (cs & E & W). exists cs. split; [exact E|]. by apply W.
Qed.
Lemma random_calls_on e fuel ex n m m' : random_loop e fuel ex n m = Done m' -> calls_on m m'.
Proof.
  revert ex n m. induction fuel as [|fuel IH]; intros ex n m E; [done|]. cbn [random_loop] in E. destruct (GetRandom _ _) as [rc|]; [|simplify_eq; by apply calls_on_same].
  assert (Next : forall n m1, (if 0 <? n then random_loop e fuel (pubkey rc :: ex) n m1 else Done m1) = Done m' -> calls_on m1 m').
  { intros n1 m1 E1. destruct (0 <? n1); [by eapply IH|simplify_eq; by apply calls_on_same]. }
  destruct (negb _); [by eapply Next|]. destruct (negb _); [|by eapply Next].
  destruct (CreateSessionTo_rc e rc None m) as [m1| |] eqn:E1; [|done|done]. cbn [obind] in E. eapply calls_on_trans; [by eapply CreateSessionTo_rc_calls_on|by eapply Next].
Qed.
Lemma run_mop_calls_on e o m m' : run_mop e o m = Done m' -> calls_on m m'.
Proof.
  assert (S : forall m1, mstep e o m1 = Done m' -> calls_on m1 m').
  { intros m1 E. destruct o; cbn [mstep] in E.
    - simplify_eq. apply CreateSessionTo_calls_on.
    - by eapply CreateSessionTo_rc_calls_on.
    - by eapply random_calls_on.
    - unfold OnRouterContactResult in E. destruct (negb _); [simplify_eq; by apply calls_on_same|].
      destruct result; simplify_eq; eauto with calls. destruct rc; simplify_eq; [by eapply GotRouterContact_calls_on|eauto with calls].
    - unfold DoEstablish in E. destruct (pendingSessions m1 !! router) as [[job|]|]; [|done|simplify_eq; by apply calls_on_same].
      destruct (negb _); simplify_eq; [eauto with calls|by apply calls_on_same].
    - unfold OnSessionEstablished in E. destruct (negb _); simplify_eq; [eauto with calls|by apply calls_on_same].
    - unfold OnSessionEstablished in E. destruct (negb _); simplify_eq; [eauto with calls|by apply calls_on_same].
    - simplify_eq. unfold OnConnectTimeout. eauto with calls.
    - simplify_eq. unfold VerifyRC. destruct (negb _); eauto with calls. }
  unfold run_mop. destruct (ends o) as [d|]; [|by apply S]. destruct (list_find _ _) as [[i ?]|]; [|intros [= <-]; by apply calls_on_same].
  intros E. eapply calls_on_trans; [|by apply S]. by apply calls_on_same.
Qed.

(** ** Examples *)

Definition demo_contact (k : Z) : RouterContact := mkContact [k] 0 [].
Definition demo_menv (loop : bool) (nodes : list RouterContact) : MEnv :=
  mkMEnv 1000 loop (fun _ => false) (fun _ => false) (fun _ => true) (fun _ => true) (fun _ => Some 0) (fun _ _ => true) false 0 (fun _ => nodes).
Definition demo_loop : MEnv := demo_menv true [].
Definition demo_mops : list (MEnv * MOp) :=
  [(demo_loop, OpCreate [5] (Some 1)); (demo_loop, OpLookedUp [5] (Some (demo_contact 5)) RcLookup.Success); (demo_loop, OpCreate [5] (Some 2));
   (demo_loop, OpEstablished (demo_contact 5)); (demo_loop, OpVerify (demo_contact 5))].
Definition done_with {A B} (f : A -> B) (o : outcome A) : option B := match o with Done a => Some (f a) | _ => None end.
Lemma demo_mops_result : done_with (fun m => (mk_calls m, outstanding m)) (run_mops demo_mops Maker_new)
  = Some ([(1, ([5], SessionResult.Establish)); (2, ([5], SessionResult.Establish))], []).
Proof. vm_compute. reflexivity. Qed.

(** A callback that asks for another session with its router, while the results of
    the first request are given, is left waiting: the request finds the pending session
    that is about to go, and nothing is started for it. *)
Lemma request_from_callback_stranded e e' r t cb m : is_Some (pendingSessions m !! r) ->
  let '(cbs, m1) := finalize_take e r t m in
  let m' := finalize_erase r (CreateSessionTo e' r (Some cb) (finalize_call r t cbs m1)) in
  waiting_for r m' = [cb] /\ pendingSessions m' !! r = None /\ outstanding m' = outstanding m.
Proof.
  intros P. cbn. unfold CreateSessionTo. set (m2 := finalize_call _ _ _ _).
  assert (E : HavePendingSessionTo r (add_callback r (Some cb) m2) = true) by (by apply bool_decide_eq_true).
  rewrite E. unfold waiting_for. cbn. by rewrite lookup_insert_eq, lookup_delete_eq, lookup_delete_eq.
Qed.
(** A contact of another router, given as the answer of a lookup, leaves the request
    pending for ever: the session's reports are for the other router. *)
Lemma wrong_contact_stuck :
  done_with (fun m => (mk_calls m, outstanding m, waiting_for [5] m, HavePendingSessionTo [5] m))
    (run_mops [(demo_loop, OpCreate [5] (Some 1)); (demo_loop, OpLookedUp [5] (Some (demo_contact 6)) RcLookup.Success);
               (demo_loop, OpEstablished (demo_contact 6)); (demo_loop, OpVerify (demo_contact 6))] Maker_new)
  = Some ([], [], [1], true).
Proof. vm_compute. reflexivity. Qed.
(** Off the event loop the work of [DoEstablish] can meet the entry of a newer request,
    which has no contact yet. *)
Lemma newer_request_dereferenced :
  let off := demo_menv false [] in
  run_mops [(off, OpCreate [5] None); (off, OpLookedUp [5] (Some (demo_contact 5)) RcLookup.Success); (demo_loop, OpCreateRC (demo_contact 5) None);
            (demo_loop, OpTimedOut (demo_contact 5)); (demo_loop, OpCreate [5] None); (demo_loop, OpRunEstablish [5])] Maker_new = Fault.
Proof. vm_compute. reflexivity. Qed.
(** The limit on connected routers does not count the attempts that are under way. *)
Lemma more_than_max :
  done_with (fun m => (length (outstanding m), size (pendingSessions m))) (run_mops [(demo_menv true (demo_contact <$> seqZ 1 10), OpRandom 10)] Maker_new)
  = Some (10, 10)%nat /\ (maxConnectedRouters < 10)%nat.
Proof. split; [vm_compute; reflexivity|unfold maxConnectedRouters; lia]. Qed.
