(* ===== verification/Sending.v ===== *)
(** * Sending messages to routers with and without sessions

    The outbound message handler of [Outbound] and the session maker of
    [SessionMaker] run together as in the router: a message for a router without a
    session makes the handler ask the maker for one, and the maker's callback is the
    handler's [OnSessionResult].  Other requests for sessions have callbacks of their
    own, with numbers other than the handler's. *)

From S2P Require Import Prelude Buffer Bencode Crypto Dht DhtTx DhtContext DhtProofs RcLookup.
From S2P Require Import Queue Decaying Path PathBuild LinkMessages LinkMessageProofs Outbound OutboundProofs Profiling SessionMaker SessionMakerProofs.
Open Scope Z_scope.

(** ** The two components together *)

Record World := mkWorld { w_out : OutboundMessageHandler; w_maker : OutboundSessionMaker }.
(** The number of the handler's callback *)
Definition handler_cb : Z := 0.

Section Sending.
Context `{DHTMessages} `{ContactCodec} `{PQ : PriorityQueue} {PS : PriorityQueueSpec}.

(** [QueueSessionCreation] *)
Definition create (me : MEnv) (new : list Key) (m : OutboundSessionMaker) : OutboundSessionMaker :=
  foldl (fun m r => CreateSessionTo me r (Some handler_cb) m) m new.
(** The maker's calls of the handler's callback *)
Fixpoint report (e : OEnv) (cs : list (Z * (Key * SessionResult.t))) (h : OutboundMessageHandler) : outcome OutboundMessageHandler :=
  match cs with
  | [] => Done h
  | (cb, (r, result)) :: cs => let! h := if cb =? handler_cb then OnSessionResult e r result h else Done h in report e cs h
  end.
Inductive WOp := WMessages (o : Op) | WSessions (o : MOp).
Definition run_wop (e : OEnv) (me : MEnv) (o : WOp) (w : World) : outcome World :=
  match o with
  | WMessages o =>
      let! h := run_op e o (w_out w) in
      let m := create me (drop (length (asked (w_out w))) (asked h)) (w_maker w) in
      let! h := report e (drop (length (mk_calls (w_maker w))) (mk_calls m)) h in
      Done (mkWorld h m)
  | WSessions o =>
      let! m := run_mop me o (w_maker w) in
      let! h := report e (drop (length (mk_calls (w_maker w))) (mk_calls m)) (w_out w) in
      Done (mkWorld h m)
  end.
Fixpoint run_world (l : list (OEnv * MEnv * WOp)) (w : World) : outcome World :=
  match l with
  | [] => Done w
  | (e, me, o) :: l => let! w := run_wop e me o w in run_world l w
  end.
Definition world_start : World := mkWorld started Maker_new.

(** ** What the handler does to the requests it has made *)

Definition keeps (h h' : OutboundMessageHandler) : Prop :=
  pendingSessionMessageQueues h' = pendingSessionMessageQueues h /\ asked h' = asked h.
Lemma process_loop_keeps fuel h h' : process_loop fuel h = Done h' -> keeps h h'.
Proof.
  revert h. induction fuel as [|fuel IH]; intros h E; [done|]. cbn [process_loop] in E. destruct (outboundQueue h) as [en [|ent l]]; cbn [spec_op head tail] in E.
  - by injection E as <-.
  - apply IH in E as [E1 E2]. unfold keeps. rewrite E1, E2. unfold process_entry. destruct (DecayingHashSet.Contains _ _); [done|].
    unfold DoCallback. destruct (bool_decide _ && _), (_ || _), (inform ent); done.
Qed.
Lemma Pump_keeps e h h' : stopping e = false -> Pump e h = Done h' -> keeps h h'.
Proof.
  intros Hs. unfold Pump. set (h0 := oh_recentlyRemovedPaths _ h). destruct (ProcessOutboundQueue h0) as [h1| |] eqn:E1; [|done|done]. cbn [obind].
  destruct (SendRoundRobin_spec e h1 Hs) as (h2 & -> & W). cbn. intros [= <-]. apply process_loop_keeps in E1 as [P A].
  split; [by rewrite (sw_pending _ _ W), P|by rewrite (sw_asked _ _ W), A].
Qed.
(** A queue that waits for a session is asked for when it is made. *)
Lemma run_op_asks e o h h' : stopping e = false -> (forall r t, o <> OpSessionResult r t) -> run_op e o h = Done h' ->
  exists new, asked h' = asked h ++ new /\ forall r, is_Some (pendingSessionMessageQueues h' !! r) -> is_Some (pendingSessionMessageQueues h !! r) \/ r ∈ new.
Proof.
  intros Hs Ho E. assert (K : keeps h h' -> exists new, asked h' = asked h ++ new /\
    forall r, is_Some (pendingSessionMessageQueues h' !! r) -> is_Some (pendingSessionMessageQueues h !! r) \/ r ∈ new).
  { intros [P A]. exists []. rewrite P, A, app_nil_r. auto. }
  destruct o as [remote msg cb| |p|remote result|n success]; cbn [run_op] in E; simplify_eq.
  - unfold QueueMessage in *. destruct (bool_decide _ && _); [apply K; by destruct cb|]. destruct (EncodeBuffer msg) as [bytes|]; [|by apply K].
    destruct (HasSessionTo e remote); cbn [snd] in *.
    + apply K. unfold QueueOutboundMessage. destruct (spec_op _ _ _) as [r q]. destruct r as [[]|  | |]; cbn; unfold DoCallback; by destruct cb.
    + case_bool_decide as N; cbn.
      * exists [remote]. split; [done|]. intros r Hr. apply lookup_insert_is_Some' in Hr as [->|Hr]; [right; set_solver|by left].
      * exists []. rewrite app_nil_r. split; [done|]. intros r Hr. apply lookup_insert_is_Some' in Hr as [->|Hr]; [left; by apply not_eq_None_Some|by left].
  - by apply K, (Pump_keeps e).
  - by apply K.
  - by destruct (Ho remote result).
  - apply K. unfold Delivered, DoCallback. destruct (with_link h !! n) as [ent|]; [|done]. by destruct (inform ent).
Qed.
Lemma OnSessionResult_pending e r t h h' : stopping e = false -> OnSessionResult e r t h = Done h' ->
  pendingSessionMessageQueues h' = delete r (pendingSessionMessageQueues h).
Proof.
  intros Hs E. unfold OnSessionResult, FinalizeSessionRequest in E. destruct (pendingSessionMessageQueues h !! r) as [q|] eqn:Eq; [|injection E as <-; by rewrite delete_id].
  set (f := fun entry h => if bool_decide _ then Send e entry h else DoCallback (inform entry) _ h) in E.
  assert (Hf : settles f) by (unfold f; case_bool_decide; [by apply Send_settles|apply DoCallback_settles]).
  destruct (send_all_spec f q (oh_pending (delete r (pendingSessionMessageQueues h)) h) Hf) as (h1 & E1 & Ps & _).
  rewrite E1 in E. injection E as <-. apply (ps_pending _ _ Ps).
Qed.
Lemma report_spec R e cs h : stopping e = false -> sound R h ->
  exists h', report e cs h = Done h' /\ sound R h' /\ settled R None h h' /\
    forall r, is_Some (pendingSessionMessageQueues h' !! r) -> is_Some (pendingSessionMessageQueues h !! r) /\ forall t, (handler_cb, (r, t)) ∉ cs.
Proof.
  intros Hs. revert h. induction cs as [|[cb [r t]] cs IH]; intros h Sd; cbn [report].
  - exists h. split; [done|]. split; [done|]. split; [apply settled_exact; intros x; by rewrite once_None|]. intros r Hr. split; [done|]. intros t. apply not_elem_of_nil.
  - destruct (Z.eqb_spec cb handler_cb) as [->|N].
    + destruct (OnSessionResult_spec R e r t h Hs Sd) as (h1 & E1 & Sd1 & A1). rewrite E1. cbn [obind].
      destruct (IH h1 Sd1) as (h' & E & Sd' & A & K). exists h'. split; [done|]. split; [done|]. split; [by eapply settled_trans|].
      intros r' Hr. destruct (K r' Hr) as [K1 K2].
      assert (P1 : pendingSessionMessageQueues h1 = delete r (pendingSessionMessageQueues h)) by (by eapply OnSessionResult_pending).
      rewrite P1 in K1. apply lookup_delete_is_Some in K1 as [N K1]. split; [done|]. intros t' I. apply elem_of_cons in I as [[= -> ->]|I]; [done|by apply (K2 t')].
    + cbn [obind]. destruct (IH h Sd) as (h' & E & Sd' & A & K). exists h'. split; [done|]. split; [done|]. split; [done|].
      intros r' Hr. destruct (K r' Hr) as [K1 K2]. split; [done|]. intros t' I. apply elem_of_cons in I as [[= <- _ _]|I]; [done|by apply (K2 t')].
Qed.

(** ** Runs *)

Definition wop_ok (e : OEnv) (me : MEnv) (o : WOp) : Prop :=
  stopping e = false /\
  match o with
  | WMessages o => op_ok e o /\ forall r t, o <> OpSessionResult r t
  | WSessions o => mop_ok me o
  end.
Definition w_removed (o : WOp) : list (list Z) := match o with WMessages o => removed_by o | WSessions _ => [] end.
Definition w_given (e : OEnv) (o : WOp) (w : World) : option Z := match o with WMessages o => given e o (w_out w) | WSessions _ => None end.
(** Whatever waits for a session has the handler's callback waiting at the maker. *)
Record paired (R : list (list Z)) (w : World) : Prop := {
  pr_sound : sound R (w_out w);
  pr_served : served (w_maker w);
  pr_waits r : is_Some (pendingSessionMessageQueues (w_out w) !! r) -> handler_cb ∈ waiting_for r (w_maker w) }.

Lemma create_spec me new m : served m -> served (create me new m) /\
  exists cs, mk_calls (create me new m) = mk_calls m ++ cs /\
    (forall r cb, cb ∈ waiting_for r m -> cb ∈ waiting_for r (create me new m) \/ exists t, (cb, (r, t)) ∈ cs) /\
    forall r, r ∈ new -> handler_cb ∈ waiting_for r (create me new m) \/ exists t, (handler_cb, (r, t)) ∈ cs.
Proof.
  unfold create. revert m. induction new as [|r new IH]; intros m Sv; cbn [foldl].
  - split; [done|]. exists []. rewrite app_nil_r. split; [done|]. split; [auto|]. intros r Hr. by apply not_elem_of_nil in Hr.
  - set (m1 := CreateSessionTo me r (Some handler_cb) m). destruct (IH m1) as (Sv' & cs & E & W & N); [eapply moves_served; [exact Sv|apply CreateSessionTo_moves]|].
    split; [exact Sv'|]. destruct (CreateSessionTo_calls_on me r (Some handler_cb) m) as (c1 & E1 & W1). destruct (CreateSessionTo_calls me r handler_cb m) as (c2 & E2 & W2).
    assert (c2 = c1) as -> by (apply (app_inv_head (mk_calls m)); congruence). fold m1 in E1, W1, W2.
    assert (Step : forall r' cb, (cb ∈ waiting_for r' m1 \/ exists t, (cb, (r', t)) ∈ c1) ->
      cb ∈ waiting_for r' (foldl (fun m r => CreateSessionTo me r (Some handler_cb) m) m1 new) \/ exists t, (cb, (r', t)) ∈ c1 ++ cs).
    { intros r' cb [I|[t I]]; [|right; exists t; set_solver]. destruct (W r' cb I) as [?|[t ?]]; [by left|right; exists t; set_solver]. }
    exists (c1 ++ cs). rewrite E, E1, app_assoc. split; [done|]. split; [intros r' cb I; by apply Step, W1|].
    intros r' I. apply elem_of_cons in I as [->|I]; [by apply Step|]. destruct (N r' I) as [?|[t ?]]; [by left|right; exists t; set_solver].
Qed.
(** The reports of what the maker has done keep the two in step. *)
Lemma report_paired R e h m m' cs : stopping e = false -> sound R h -> served m' -> mk_calls m' = mk_calls m ++ cs ->
  (forall r, is_Some (pendingSessionMessageQueues h !! r) -> handler_cb ∈ waiting_for r m' \/ exists t, (handler_cb, (r, t)) ∈ cs) ->
  exists h', report e (drop (length (mk_calls m)) (mk_calls m')) h = Done h' /\ paired R (mkWorld h' m') /\ settled R None h h'.
Proof.
  intros Hs Sd Sv E W. rewrite E, drop_app_length. destruct (report_spec R e cs h Hs Sd) as (h' & Eh & Sd' & A & K).
  exists h'. split; [exact Eh|]. split; [|exact A]. split; [done|done|]. intros r Hr. destruct (K r Hr) as [Hp Hn].
  destruct (W r Hp) as [?|[t I]]; [done|]. by destruct (Hn t).
Qed.
Lemma run_wop_spec R e me o w : paired R w -> wop_ok e me o ->
  exists w', run_wop e me o w = Done w' /\ paired (R ++ w_removed o) w' /\ settled (R ++ w_removed o) (w_given e o w) (w_out w) (w_out w').
Proof.
  intros [Sd Sv W] [Hs Ok]. destruct o as [o|o]; cbn [run_wop w_removed w_given].
  - destruct Ok as [Ok No]. destruct (run_op_spec R e o (w_out w) Sd Ok) as (h1 & E1 & Sd1 & A1). rewrite E1. cbn [obind].
    destruct (run_op_asks e o (w_out w) h1 Hs No E1) as (new & Ea & P1). rewrite Ea, drop_app_length.
    destruct (create_spec me new (w_maker w) Sv) as (Sv' & cs & Ec & Wc & Nc).
    destruct (report_paired (R ++ removed_by o) e h1 (w_maker w) _ cs Hs Sd1 Sv' Ec) as (h' & Eh & Pr & A).
    { intros r Hr. destruct (P1 r Hr) as [Hp|Hn]; [by apply Wc, W|by apply Nc]. }
    rewrite Eh. eexists. split; [reflexivity|]. split; [exact Pr|]. cbn [w_out].
    destruct A1 as (l1 & F1 & A1). destruct A as (l2 & F2 & A2). exists (l1 ++ l2). split; [by apply Forall_app|].
    intros x. rewrite tally_app. specialize (A1 x). specialize (A2 x). rewrite once_None in A2. lia.
  - rewrite app_nil_r. destruct (run_mop_spec me o (w_maker w) Ok Sv) as (m' & Em & Sv' & _). rewrite Em. cbn [obind].
    destruct (run_mop_calls_on me o _ _ Em) as (cs & Ec & Wc).
    destruct (report_paired R e (w_out w) (w_maker w) m' cs Hs Sd Sv' Ec) as (h' & Eh & Pr & A); [intros r Hr; by apply Wc, W|].
    rewrite Eh. eexists. split; [reflexivity|]. split; [exact Pr|exact A].
Qed.
(** The callbacks taken over in a run, and the paths removed in it *)
Fixpoint w_accepted (l : list (OEnv * MEnv * WOp)) (w : World) : list Z :=
  match l with
  | [] => []
  | (e, me, o) :: l => option_list (w_given e o w) ++ match run_wop e me o w with Done w => w_accepted l w | _ => [] end
  end.
Definition w_removed_in (l : list (OEnv * MEnv * WOp)) : list (list Z) := l ≫= (fun x => w_removed x.2).
Definition wops_ok (l : list (OEnv * MEnv * WOp)) : Prop := Forall (fun x => wop_ok x.1.1 x.1.2 x.2) l.
Lemma run_world_spec R l w : paired R w -> wops_ok l ->
  exists w' lost, run_world l w = Done w' /\ paired (R ++ w_removed_in l) w' /\ lost_of (R ++ w_removed_in l) lost /\
    forall x, (account x (w_out w') + tally x lost = count_occ Z.eq_dec (w_accepted l w) x + account x (w_out w))%nat.
Proof.
  revert R w. induction l as [|[[e me] o] l IH]; intros R w Pr Ok; cbn [run_world w_accepted].
  - exists w, []. unfold w_removed_in. cbn. rewrite app_nil_r. split; [done|]. split; [done|]. split; [constructor|]. intros x. change (tally x []) with 0%nat. lia.
  - apply Forall_cons in Ok as [Ho Ok]. destruct (run_wop_spec R e me o w Pr Ho) as (w1 & -> & Pr1 & lost1 & F1 & A1). cbn [obind].
    destruct (IH _ w1 Pr1 Ok) as (w' & lost & E & Pr' & F & A). exists w', (lost1 ++ lost). unfold w_removed_in in *. cbn. rewrite (app_assoc R).
    split; [exact E|]. split; [exact Pr'|]. split.
    + apply Forall_app. split; [|exact F]. eapply Forall_impl; [exact F1|]. cbn. intros ent I. apply elem_of_app. by left.
    + intros x. specialize (A x). specialize (A1 x). rewrite tally_app, count_occ_app, once_list. lia.
Qed.
Lemma run_world_app a b w : run_world (a ++ b) w = let! w := run_world a w in run_world b w.
Proof. revert w. induction a as [|[[e me] o] a IH]; intros w; [reflexivity|]. cbn. destruct (run_wop e me o w); cbn; auto. Qed.
(** Pumps do not concern the maker. *)
Definition w_pumps (es : list (OEnv * MEnv)) : list (OEnv * MEnv * WOp) := (fun x => (x, WMessages OpPump)) <$> es.
Lemma w_pumps_run R es h m : Forall (fun x => stopping x.1 = false) es -> sound R h ->
  run_world (w_pumps es) (mkWorld h m) = let! h := run_ops (pumps es.*1) h in Done (mkWorld h m).
Proof.
  revert h. induction es as [|[e me] es IH]; intros h Hs Sd; [reflexivity|]. apply Forall_cons in Hs as [He Hs].
  destruct (Pump_spec R e h He Sd) as (h1 & h' & E & _ & Sd' & _). pose proof (Pump_keeps e h h' He E) as [_ Ka].
  assert (D : drop (length (asked h)) (asked h') = []) by (rewrite Ka; apply drop_all).
  cbn. rewrite E. cbn. rewrite D. cbn. rewrite drop_all. cbn. by apply IH.
Qed.
Lemma pumps_keep es h h' : Forall (fun e => stopping e = false) es -> run_ops (pumps es) h = Done h' -> keeps h h'.
Proof.
  revert h. induction es as [|e es IH]; intros h Hs E; [by injection E as <-|]. apply Forall_cons in Hs as [He Hs]. cbn in E.
  destruct (Pump e h) as [h1| |] eqn:E1; [|done|done]. destruct (Pump_keeps e h h1 He E1) as [P1 A1]. destruct (IH h1 Hs E) as [P A].
  split; congruence.
Qed.
Lemma paired_start : paired [] world_start.
Proof. split; [apply sound_started|apply served_new|]. intros r [? Hr]. cbn in Hr. by rewrite lookup_empty in Hr. Qed.
Lemma paired_idle R w : paired R w -> outstanding (w_maker w) = [] -> sessionless (w_out w) = [].
Proof.
  intros [Sd Sv W] O. destruct (served_idle _ Sv O) as [P _]. unfold sessionless.
  replace (pendingSessionMessageQueues (w_out w)) with (∅ : gmap (list Z) MessageQueue); [reflexivity|]. symmetry. apply map_empty. intros r.
  apply eq_None_not_Some. intros Hr. specialize (W r Hr). unfold waiting_for in W. destruct (mk_pendingCallbacks (w_maker w) !! r) eqn:Ec; [|by apply not_elem_of_nil in W].
  destruct (sv_waits _ Sv r) as [? K]; [by rewrite Ec|]. by rewrite P, lookup_empty in K.
Qed.

End Sending.

(** ** Examples *)

(** Two messages for a router without a session and one for a router with one; the
    session comes about. *)
Definition demo_nolink : OEnv := demo_env (fun _ => false).
Definition demo_world_ops : list (OEnv * MEnv * @WOp demo_dht) :=
  [(demo_nolink, demo_loop, WMessages (OpQueueMessage [5] demo_msg (Some 11))); (demo_nolink, demo_loop, WMessages (OpQueueMessage [5] demo_msg (Some 12)));
   (demo_link, demo_loop, WMessages (OpQueueMessage [2] demo_msg (Some 13)));
   (demo_link, demo_loop, WSessions (OpLookedUp [5] (Some (demo_contact 5)) RcLookup.Success)); (demo_link, demo_loop, WSessions (OpEstablished (demo_contact 5)));
   (demo_link, demo_loop, WSessions (OpVerify (demo_contact 5)))].
Lemma demo_world_ok : @wops_ok demo_dht demo_world_ops.
Proof.
  unfold demo_world_ops. repeat (apply Forall_cons; split); try exact (Forall_nil_2 _); (split; [reflexivity|]).
  1-3: (split; [split; reflexivity|discriminate]).
  all: split; [reflexivity|split; [reflexivity|exact I || reflexivity]].
Qed.
Definition demo_pumps : list (OEnv * MEnv) := replicate 100 (demo_link, demo_loop).
Lemma demo_world_idle w : @run_world demo_dht demo_contacts demo_pq (demo_world_ops ++ w_pumps demo_pumps) world_start = Done w -> outstanding (w_maker w) = [].
Proof.
  intros E. assert (D : result (fun w => outstanding (w_maker w)) (@run_world demo_dht demo_contacts demo_pq (demo_world_ops ++ w_pumps demo_pumps) world_start) = Some [])
    by (vm_compute; reflexivity).
  rewrite E in D. by injection D.
Qed.
