(* ===== verification/Ini.v ===== *)
(** * Configuration files ([llarp/config/ini.cpp])

    The parser of the INI files and the overrides it saves.  The order in which an
    [std::unordered_map] is visited is a parameter, any order of its entries; an
    [std::unordered_multimap] is the list of its pairs.  Files are a map from paths to
    their bytes. *)

From S2P Require Import Prelude Text Bencode.
Open Scope Z_scope.

Definition ch_newline : Z := 10.
Definition ch_return : Z := 13.
Definition ch_equals : Z := 61.
Definition ch_semicolon : Z := 59.
Definition ch_hash : Z := 35.
Definition ch_open : Z := 91.
Definition ch_close : Z := 93.

Abbreviation SectionValues_t := (list (list Z * list Z)).
Abbreviation Config_impl_t := (gmap (list Z) SectionValues_t).
Abbreviation Files := (gmap (list Z) (list Z)).
Record ConfigParser := mkParser {
  m_Data : list Z;
  m_Config : Config_impl_t;
  m_Overrides : gmap (list Z) Config_impl_t;
  m_FileName : list Z }.
Definition ConfigParser_new : ConfigParser := mkParser [] ∅ ∅ [].

Class HashOrder := { in_order : forall {V}, gmap (list Z) V -> list (list Z * V); values_in_order : SectionValues_t -> SectionValues_t }.
Class HashOrderSpec `{HashOrder} : Prop := {
  in_order_spec {V} (m : gmap (list Z) V) : in_order m ≡ₚ map_to_list m;
  values_in_order_spec l : values_in_order l ≡ₚ l }.

Definition Clear (p : ConfigParser) : ConfigParser := mkParser [] ∅ ∅ (m_FileName p).
Definition Filename (f : list Z) (p : ConfigParser) : ConfigParser := mkParser (m_Data p) (m_Config p) (m_Overrides p) f.

(** ** Parsing *)

Definition is_newline (c : Z) : bool := (c =? ch_newline) || (c =? ch_return).
(** The characters up to a newline, and the rest from it on *)
Fixpoint line_end (d : list Z) : list Z * list Z :=
  match d with
  | [] => ([], [])
  | c :: r => if is_newline c then ([], d) else let '(l, r) := line_end r in (c :: l, r)
  end.
Fixpoint ini_lines (fuel : nat) (d : list Z) : list (list Z) :=
  match fuel, d with
  | O, _ | _, [] => []
  | S fuel, d =>
      let '(line, rest) := line_end d in
      line :: match rest with [] => [] | _ :: rest => ini_lines fuel rest end
  end.
Fixpoint strip_front (l : list Z) : list Z := match l with c :: r => if isspace c then strip_front r else l | [] => [] end.
Definition strip_back (l : list Z) : list Z := reverse (strip_front (reverse l)).
Definition add_value (s k v : list Z) (m : Config_impl_t) : Config_impl_t := <[s := default [] (m !! s) ++ [(k, v)]]> m.
(** The lines one by one: the section they are in and the values so far *)
Fixpoint parse_lines (lines : list (list Z)) (sectName : list Z) (config : Config_impl_t) : bool * Config_impl_t :=
  match lines with
  | [] => (true, config)
  | line :: lines =>
      let line := strip_back (strip_front line) in
      match line with
      | [] => parse_lines lines sectName config
      | front :: _ =>
          if (front =? ch_semicolon) || (front =? ch_hash) then parse_lines lines sectName config
          else if (front =? ch_open) && bool_decide (last line = Some ch_close) then parse_lines lines (removelast (drop 1 line)) config
          else
            match str_find line [ch_equals] with
            | Some kvDelim =>
                let k := strip_back (take kvDelim line) in
                let v := strip_front (drop (S kvDelim) line) in
                if bool_decide (k = []) then (false, config) else parse_lines lines sectName (add_value sectName k v config)
            | None => (false, config)
            end
      end
  end.
Definition Parse (p : ConfigParser) : bool * ConfigParser :=
  let '(ok, config) := parse_lines (ini_lines (S (length (m_Data p))) (m_Data p)) [] (m_Config p) in
  (ok, mkParser (m_Data p) config (m_Overrides p) (m_FileName p)).
Definition LoadFile (files : Files) (fname : list Z) (p : ConfigParser) : bool * ConfigParser :=
  match files !! fname with
  | None => (false, p)
  | Some data =>
      let p := mkParser data (m_Config p) (m_Overrides p) (m_FileName p) in
      if bool_decide (data = []) then (false, p) else Parse (Filename fname p)
  end.
Definition LoadFromStr (str : list Z) (p : ConfigParser) : bool * ConfigParser := Parse (mkParser str (m_Config p) (m_Overrides p) (m_FileName p)).

(** ** Visiting *)

(** A visitor changes a state and may throw. *)
Fixpoint visit_each {A B E} (f : B -> A -> E + A) (l : list B) (a : A) : E + A :=
  match l with
  | [] => inr a
  | x :: l => match f x a with inl e => inl e | inr a => visit_each f l a end
  end.
Definition IterAll `{HashOrder} {A E} (visit : list Z -> SectionValues_t -> A -> E + A) (p : ConfigParser) (a : A) : E + A :=
  visit_each (fun x => visit x.1 x.2) (in_order (m_Config p)) a.
Definition VisitSection (name : list Z) (visit : SectionValues_t -> bool) (p : ConfigParser) : bool :=
  match m_Config p !! name with None => false | Some sect => visit sect end.

(** ** Overrides *)

Definition AddOverride (fpath section key value : list Z) (p : ConfigParser) : ConfigParser :=
  let data := default ∅ (m_Overrides p !! fpath) in
  mkParser (m_Data p) (m_Config p) (<[fpath := add_value section key value data]> (m_Overrides p)) (m_FileName p).
Definition value_line (kv : list Z * list Z) : list Z := kv.1 ++ [ch_equals] ++ kv.2 ++ [ch_newline].
Definition section_text `{HashOrder} (s : list Z * SectionValues_t) : list Z :=
  [ch_newline; ch_open] ++ s.1 ++ [ch_close; ch_newline] ++ concat (value_line <$> values_in_order s.2).
Definition overrides_text `{HashOrder} (o : Config_impl_t) : list Z := concat (section_text <$> in_order o).
(** A file that cannot be opened stays as it is. *)
Definition Save `{HashOrder} (writable : list Z -> bool) (files : Files) (p : ConfigParser) : Files * ConfigParser :=
  (fold_left (fun files x => if writable x.1 then <[x.1 := overrides_text x.2]> files else files) (in_order (m_Overrides p)) files,
   mkParser (m_Data p) (m_Config p) ∅ (m_FileName p)).

(** ** Lines *)

Definition plain (l : list Z) : Prop := Forall (fun c => is_newline c = false) l.
Lemma line_end_app l r : plain l -> line_end (l ++ ch_newline :: r) = (l, ch_newline :: r).
Proof. induction 1 as [|c l Hc F IH]; [done|]. cbn. by rewrite Hc, IH. Qed.
Lemma line_end_all l : plain l -> line_end l = (l, []).
Proof. induction 1 as [|c l Hc F IH]; [done|]. cbn. by rewrite Hc, IH. Qed.
Lemma ini_lines_cons fuel l r : plain l -> ini_lines (S fuel) (l ++ ch_newline :: r) = l :: ini_lines fuel r.
Proof. intros P. cbn [ini_lines]. rewrite line_end_app by done. destruct l; done. Qed.
Lemma ini_lines_fuel fuel fuel' d : (length d < fuel)%nat -> (length d < fuel')%nat -> ini_lines fuel d = ini_lines fuel' d.
Proof.
  revert fuel' d. induction fuel as [|fuel IH]; intros fuel' d H1 H2; [lia|]. destruct fuel' as [|fuel']; [lia|]. destruct d as [|c d]; [done|]. cbn [ini_lines].
  assert (L : (length (line_end (c :: d)).2 <= length (c :: d))%nat).
  { generalize (c :: d). clear. induction l as [|c l IH]; cbn; [lia|]. destruct (is_newline c); cbn; [lia|]. destruct (line_end l) as [a b]. cbn in *. lia. }
  destruct (line_end (c :: d)) as [line rest]. cbn [snd] in L. f_equal. destruct rest as [|x rest]; [done|]. cbn in *. apply IH; lia.
Qed.
Definition lines_of (d : list Z) : list (list Z) := ini_lines (S (length d)) d.
Lemma lines_of_cons l r : plain l -> lines_of (l ++ ch_newline :: r) = l :: lines_of r.
Proof. intros P. unfold lines_of. rewrite ini_lines_cons by done. f_equal. apply ini_lines_fuel; rewrite ?length_app; cbn; lia. Qed.
Lemma lines_of_last l : plain l -> lines_of l = if bool_decide (l = []) then [] else [l].
Proof.
  intros P. unfold lines_of. destruct l as [|c l]; [done|]. rewrite bool_decide_eq_false_2 by done. cbn [ini_lines length]. by rewrite line_end_all.
Qed.
(** A text is the lines it is written from. *)
Definition unlines (ls : list (list Z)) : list Z := concat ((fun l => l ++ [ch_newline]) <$> ls).
Lemma lines_of_unlines ls r : Forall plain ls -> lines_of (unlines ls ++ r) = ls ++ lines_of r.
Proof.
  induction 1 as [|l ls Hl F IH]; [done|]. unfold unlines in *. cbn [fmap list_fmap concat]. rewrite <- !app_assoc. cbn [app]. rewrite lines_of_cons by done. by rewrite IH.
Qed.

(** ** What the lines say *)

Inductive item := Blank | Note (l : list Z) | Head (s : list Z) | Value (k v : list Z).
Definition item_line (i : item) : list Z :=
  match i with
  | Blank => []
  | Note l => ch_hash :: l
  | Head s => [ch_open] ++ s ++ [ch_close]
  | Value k v => k ++ ch_equals :: v
  end.
Definition no_space_around (l : list Z) : Prop :=
  (forall c, head l = Some c -> isspace c = false) /\ (forall c, last l = Some c -> isspace c = false).
Definition key_ok (k : list Z) : Prop :=
  plain k /\ no_space_around k /\ (ch_equals ∉ k) /\ exists c, head k = Some c /\ c ∉ [ch_semicolon; ch_hash; ch_open].
Definition value_ok (v : list Z) : Prop := plain v /\ no_space_around v.
Definition item_ok (i : item) : Prop :=
  match i with Blank => True | Note l => plain l | Head s => plain s | Value k v => key_ok k /\ value_ok v end.

Lemma strip_front_id l : (forall c, head l = Some c -> isspace c = false) -> strip_front l = l.
Proof. destruct l as [|c l]; [done|]. intros H. cbn. by rewrite H. Qed.
Lemma strip_back_id l : (forall c, last l = Some c -> isspace c = false) -> strip_back l = l.
Proof. intros H. unfold strip_back. rewrite strip_front_id; [apply reverse_involutive|]. intros c Hc. apply H. by rewrite <- head_reverse. Qed.
Lemma strip_front_snoc l c : isspace c = false -> exists l', strip_front (l ++ [c]) = l' ++ [c].
Proof.
  intros Hc. induction l as [|d l IH]; cbn [app strip_front]; [rewrite Hc; by exists []|]. destruct (isspace d); [exact IH|]. by exists (d :: l).
Qed.
Lemma strip_back_cons c l : isspace c = false -> exists l', strip_back (c :: l) = c :: l'.
Proof.
  intros Hc. unfold strip_back. rewrite reverse_cons. destruct (strip_front_snoc (reverse l) c Hc) as (l' & ->). exists (reverse l'). by rewrite reverse_app.
Qed.
Lemma parse_blank ls s m : parse_lines ([] :: ls) s m = parse_lines ls s m.
Proof. done. Qed.
Lemma parse_note l ls s m : parse_lines (item_line (Note l) :: ls) s m = parse_lines ls s m.
Proof. cbn [parse_lines item_line]. rewrite strip_front_id by (by intros c [= <-]). destruct (strip_back_cons ch_hash l eq_refl) as (l' & ->). done. Qed.
Lemma parse_head t ls s m : parse_lines (item_line (Head t) :: ls) s m = parse_lines ls t m.
Proof.
  cbn [parse_lines item_line app]. rewrite strip_front_id by (by intros c [= <-]). rewrite strip_back_id by (intros c; rewrite app_comm_cons, last_snoc; by intros [= <-]).
  cbn [Z.eqb orb andb]. change (ch_open =? ch_semicolon) with false. change (ch_open =? ch_hash) with false. change (ch_open =? ch_open) with true.
  rewrite app_comm_cons, last_snoc, bool_decide_eq_true_2 by done. cbn [orb andb app drop]. by rewrite drop_0, removelast_last.
Qed.
Lemma parse_value k v ls s m : key_ok k -> value_ok v -> parse_lines (item_line (Value k v) :: ls) s m = parse_lines ls s (add_value s k v m).
Proof.
  intros (Pk & [Sk1 Sk2] & Ne & c & Hc & Nc) (Pv & [Sv1 Sv2]). cbn [parse_lines item_line]. destruct k as [|c' k]; [done|]. cbn in Hc. injection Hc as ->.
  rewrite strip_front_id by (intros d [= <-]; by apply Sk1). rewrite strip_back_id.
  2:{ intros d. rewrite last_app_cons, last_cons. destruct (last v) eqn:E; [|by intros [= <-]]. intros [= <-]. by apply Sv2. }
  cbn [app]. assert (c <> ch_semicolon /\ c <> ch_hash /\ c <> ch_open) as (N1 & N2 & N3) by set_solver.
  rewrite (proj2 (Z.eqb_neq _ _) N1), (proj2 (Z.eqb_neq _ _) N2), (proj2 (Z.eqb_neq _ _) N3). cbn [orb andb].
  change (c :: k ++ ch_equals :: v) with ((c :: k) ++ ch_equals :: v). rewrite str_find_char by done. rewrite take_app_length, drop_app_ge by lia.
  replace (S (length (c :: k)) - length (c :: k))%nat with 1%nat by lia. cbn [drop]. rewrite drop_0, strip_back_id, strip_front_id by done. done.
Qed.
Fixpoint run (items : list item) (s : list Z) (m : Config_impl_t) : Config_impl_t :=
  match items with
  | [] => m
  | Head t :: items => run items t m
  | Value k v :: items => run items s (add_value s k v m)
  | _ :: items => run items s m
  end.
Lemma parse_items items s m : Forall item_ok items -> parse_lines (item_line <$> items) s m = (true, run items s m).
Proof.
  revert s m. induction items as [|i items IH]; intros s m F; [done|]. apply Forall_cons in F as [Fi F]. cbn [fmap list_fmap run]. destruct i as [|l|t|k v].
  - by rewrite parse_blank, IH.
  - by rewrite parse_note, IH.
  - by rewrite parse_head, IH.
  - destruct Fi. by rewrite parse_value, IH.
Qed.
Lemma item_line_plain i : item_ok i -> plain (item_line i).
Proof.
  destruct i as [|l|s|k v]; cbn.
  - by constructor.
  - intros P. by constructor.
  - intros P. constructor; [done|]. apply Forall_app. by repeat constructor.
  - intros [(P & _) [P' _]]. apply Forall_app. split; [done|]. by constructor.
Qed.
(** The values of a section, none when it is not there *)
Definition vals (m : Config_impl_t) (s : list Z) : SectionValues_t := default [] (m !! s).
Fixpoint entries (items : list item) (s t : list Z) : SectionValues_t :=
  match items with
  | [] => []
  | Head s' :: items => entries items s' t
  | Value k v :: items => if bool_decide (s = t) then (k, v) :: entries items s t else entries items s t
  | _ :: items => entries items s t
  end.
Lemma vals_add s k v m t : vals (add_value s k v m) t = if bool_decide (s = t) then vals m t ++ [(k, v)] else vals m t.
Proof. unfold vals, add_value. case_bool_decide as E; [subst; by rewrite lookup_insert_eq|by rewrite lookup_insert_ne]. Qed.
Lemma vals_run items s m t : vals (run items s m) t = vals m t ++ entries items s t.
Proof.
  revert s m. induction items as [|i items IH]; intros s m; cbn [run entries]; [by rewrite app_nil_r|]. destruct i as [|l|s'|k v]; [apply IH..|].
  rewrite IH, vals_add. case_bool_decide; [by rewrite <- app_assoc|done].
Qed.
Definition no_empty_sections (m : Config_impl_t) : Prop := forall s, m !! s <> Some [].
Lemma add_no_empty s k v m : no_empty_sections m -> no_empty_sections (add_value s k v m).
Proof.
  intros N t. unfold add_value. destruct (decide (s = t)) as [->|E]; [rewrite lookup_insert_eq|rewrite lookup_insert_ne by done; apply N].
  intros [= X]. by destruct (default [] (m !! t)).
Qed.
Lemma run_no_empty items s m : no_empty_sections m -> no_empty_sections (run items s m).
Proof. revert s m. induction items as [|i items IH]; intros s m N; [done|]. destruct i; cbn; apply IH; [done..|by apply add_no_empty]. Qed.
Lemma LoadFromStr_items items p rest : Forall item_ok items -> (rest = [] \/ exists i, rest = item_line i /\ item_ok i) ->
  exists items', LoadFromStr (unlines (item_line <$> items) ++ rest) p =
    (true, mkParser (unlines (item_line <$> items) ++ rest) (run items' [] (m_Config p)) (m_Overrides p) (m_FileName p)) /\
    (items' = items \/ exists i, items' = items ++ [i] /\ rest = item_line i).
Proof.
  intros F R. assert (Fp : Forall plain (item_line <$> items)) by (apply Forall_fmap; eapply Forall_impl; [exact F|apply item_line_plain]).
  unfold LoadFromStr, Parse. cbn [m_Data m_Config m_Overrides m_FileName]. fold (lines_of (unlines (item_line <$> items) ++ rest)). rewrite lines_of_unlines by done.
  destruct (decide (rest = [])) as [->|N]; [exists items; rewrite app_nil_r, parse_items by done; split; [done|by left]|].
  destruct R as [|(i & -> & Fi)]; [done|]. exists (items ++ [i]). rewrite lines_of_last by (by apply item_line_plain). rewrite bool_decide_eq_false_2 by done.
  replace ((item_line <$> items) ++ [item_line i]) with (item_line <$> (items ++ [i])) by (by rewrite fmap_app).
  rewrite parse_items by (apply Forall_app; split; [done|by constructor]). split; [done|]. right. by exists i.
Qed.

(** An empty line at the end says nothing. *)
Lemma entries_blank_last i items s t : [] = item_line i -> entries (items ++ [i]) s t = entries items s t.
Proof.
  intros Hi. destruct i as [| | |k v]; [|done|done|by destruct k]. clear. revert s. induction items as [|j l IH]; intros s; [done|]. destruct j; cbn; try case_bool_decide; by rewrite ?IH.
Qed.

(** ** Overrides are read back *)

Section Overrides.
Context `{HashOrderSpec}.

Definition section_items (x : list Z * SectionValues_t) : list item := Blank :: Head x.1 :: ((fun kv => Value kv.1 kv.2) <$> values_in_order x.2).
Lemma unlines_app l l' : unlines (l ++ l') = unlines l ++ unlines l'.
Proof. unfold unlines. by rewrite fmap_app, concat_app. Qed.
Lemma value_lines_unlines kvs : concat (value_line <$> kvs) = unlines (item_line <$> ((fun kv => Value kv.1 kv.2) <$> kvs)).
Proof.
  induction kvs as [|kv kvs IH]; [done|]. unfold unlines in *. cbn [fmap list_fmap concat]. rewrite IH. unfold value_line. cbn [item_line]. by rewrite <- !app_assoc.
Qed.
Lemma section_text_items x : section_text x = unlines (item_line <$> section_items x).
Proof.
  unfold section_text, section_items. cbn [fmap list_fmap]. rewrite value_lines_unlines. unfold unlines. cbn [fmap list_fmap concat item_line app]. by rewrite <- !app_assoc.
Qed.
Lemma sections_text_items l : concat (section_text <$> l) = unlines (item_line <$> concat (section_items <$> l)).
Proof. induction l as [|x l IH]; [done|]. cbn [fmap list_fmap concat]. by rewrite fmap_app, unlines_app, section_text_items, IH. Qed.
Lemma entries_values kvs items s t : entries (((fun kv => Value kv.1 kv.2) <$> kvs) ++ items) s t = (if bool_decide (s = t) then kvs else []) ++ entries items s t.
Proof. induction kvs as [|[k v] kvs IH]; cbn [fmap list_fmap app entries]; [by case_bool_decide|]. rewrite IH. by case_bool_decide. Qed.
Lemma entries_sections l s t : entries (concat (section_items <$> l)) s t = concat ((fun x => values_in_order x.2) <$> filter (fun x => x.1 = t) l).
Proof.
  revert s. induction l as [|x l IH]; intros s; [done|]. cbn [fmap list_fmap concat]. unfold section_items at 1. cbn [app entries]. rewrite entries_values, IH.
  case_bool_decide as E; [by rewrite filter_cons_True|by rewrite filter_cons_False].
Qed.
Lemma filter_key_nodup {V} (l : list (list Z * V)) t : NoDup l.*1 ->
  filter (fun x => x.1 = t) l = match (list_to_map l : gmap (list Z) V) !! t with Some v => [(t, v)] | None => [] end.
Proof.
  induction l as [|[s v] l IH]; cbn [fmap list_fmap fst]; intros ND; [done|]. apply NoDup_cons in ND as [Ni ND]. rewrite list_to_map_cons.
  destruct (decide (s = t)) as [->|E].
  - rewrite filter_cons_True, lookup_insert_eq, IH by done. by rewrite not_elem_of_list_to_map_1.
  - rewrite filter_cons_False, lookup_insert_ne by done. by apply IH.
Qed.
Lemma in_order_map {V} (m : gmap (list Z) V) : NoDup (in_order m).*1 /\ list_to_map (in_order m) = m.
Proof.
  pose proof (in_order_spec m) as P. split; [rewrite P; apply NoDup_fst_map_to_list|]. symmetry. apply list_to_map_flip. by symmetry.
Qed.
Lemma filter_in_order {V} (m : gmap (list Z) V) t : filter (fun x => x.1 = t) (in_order m) = match m !! t with Some v => [(t, v)] | None => [] end.
Proof. destruct (in_order_map m) as [ND E]. rewrite filter_key_nodup by done. by rewrite E. Qed.
Lemma in_order_nil {V} (m : gmap (list Z) V) : in_order m = [] -> m = ∅.
Proof. intros E. destruct (in_order_map m) as [_ <-]. by rewrite E. Qed.
Lemma entries_overrides o t s : entries (concat (section_items <$> in_order o)) s t ≡ₚ vals o t.
Proof.
  rewrite entries_sections, filter_in_order. unfold vals. destruct (o !! t) as [v|]; cbn; [|done]. rewrite app_nil_r. apply values_in_order_spec.
Qed.
Definition overrides_ok (o : Config_impl_t) : Prop := map_Forall (fun s kvs => plain s /\ Forall (fun kv => key_ok kv.1 /\ value_ok kv.2) kvs) o.
Lemma overrides_items_ok o : overrides_ok o -> Forall item_ok (concat (section_items <$> in_order o)).
Proof.
  intros Ho. apply Forall_concat, Forall_fmap, Forall_forall. intros [s kvs] Hx. rewrite in_order_spec, elem_of_map_to_list in Hx. destruct (Ho s kvs Hx) as [Ps F].
  constructor; [done|]. constructor; [done|]. apply Forall_fmap. cbn [snd]. rewrite (values_in_order_spec kvs). exact F.
Qed.
Lemma Save_file writable files p f o : m_Overrides p !! f = Some o -> writable f = true -> (Save writable files p).1 !! f = Some (overrides_text o).
Proof.
  intros E W. cbn [Save fst]. destruct (in_order_map (m_Overrides p)) as [ND M]. rewrite <- M in E. clear M. revert files ND E. generalize (in_order (m_Overrides p)) as l.
  assert (Other : forall (l : list (list Z * Config_impl_t)) (fs : Files), f ∉ l.*1 -> fold_left (fun files x => if writable x.1 then <[x.1 := overrides_text x.2]> files else files) l fs !! f = fs !! f).
  { induction l as [|x l IH]; intros fs N; [done|]. cbn [fmap list_fmap] in N. apply not_elem_of_cons in N as [N1 N2]. cbn [fold_left]. rewrite IH by done. destruct (writable x.1); [by rewrite lookup_insert_ne|done]. }
  induction l as [|x l IH]; intros files ND E; [done|]. cbn [fmap list_fmap] in ND. apply NoDup_cons in ND as [Ni ND]. destruct x as [g o']. rewrite list_to_map_cons in E. cbn [fold_left fst snd] in Ni |- *.
  destruct (decide (g = f)) as [->|Ng]; [rewrite lookup_insert_eq in E; injection E as ->; rewrite Other, W by done; by rewrite lookup_insert_eq|].
  rewrite lookup_insert_ne in E by done. by apply IH.
Qed.

(** Overrides are kept: what [AddOverride] collected for a file and [Save] wrote is
    read by a new parser, in each section the same values, in whatever order the maps
    are visited. *)
Theorem overrides_roundtrip writable files p f o : m_Overrides p !! f = Some o -> writable f = true -> o <> ∅ -> overrides_ok o ->
  exists q, LoadFile (Save writable files p).1 f ConfigParser_new = (true, q) /\
    (forall s, vals (m_Config q) s ≡ₚ vals o s) /\ no_empty_sections (m_Config q) /\ m_Overrides (Save writable files p).2 = ∅.
Proof.
  intros E W N Ho. unfold LoadFile. rewrite (Save_file _ _ _ _ _ E W). pose proof (sections_text_items (in_order o)) as T. fold (overrides_text o) in T.
  rewrite bool_decide_eq_false_2.
  2:{ intros X. apply N, in_order_nil. destruct (in_order o) as [|x l] eqn:El; [done|]. unfold overrides_text in X. rewrite El in X. done. }
  destruct (LoadFromStr_items (concat (section_items <$> in_order o)) (Filename f ConfigParser_new) [] (overrides_items_ok o Ho) (or_introl eq_refl)) as (items & El & Hi).
  rewrite app_nil_r in El. rewrite <- T in El. eexists. split; [exact El|]. cbn [m_Config Filename ConfigParser_new].
  assert (forall s t, entries items s t = entries (concat (section_items <$> in_order o)) s t) as Et by (intros s t; destruct Hi as [->|(i & -> & Hi)]; [done|by apply entries_blank_last]).
  split; [intros s; rewrite vals_run, Et; apply entries_overrides|]. split; [|done]. apply run_no_empty. intros s. by rewrite lookup_empty.
Qed.
End Overrides.

#[local] Instance demo_order : HashOrder := {| in_order V m := map_to_list m; values_in_order l := l |}.
#[local] Instance demo_order_spec : HashOrderSpec.
Proof. by split. Qed.
(** [[a] k=v] for the file [f] *)
Definition demo_parser : ConfigParser := AddOverride [102] [97] [107] [118] ConfigParser_new.
Lemma overrides_roundtrip_witness : exists q,
  LoadFile (Save (fun _ => true) ∅ demo_parser).1 [102] ConfigParser_new = (true, q) /\ vals (m_Config q) [97] ≡ₚ [([107], [118])].
Proof.
  destruct (overrides_roundtrip (fun _ => true) ∅ demo_parser [102] {[ [97] := [([107], [118])] ]}) as (q & E & V & _).
  - vm_compute. reflexivity.
  - reflexivity.
  - apply insert_non_empty.
  - apply map_Forall_singleton. split; [by repeat constructor|]. constructor; [|done].
    assert (forall c : Z, isspace c = false -> no_space_around [c]) as NS by (intros c Hc; split; by intros ? [= <-]).
    split; (split; [by repeat constructor|]); [split; [by apply NS|]|by apply NS]. cbn [fst]. split; [unfold ch_equals; set_solver|].
    exists 107. split; [done|]. unfold ch_semicolon, ch_hash, ch_open. set_solver.
  - exists q. split; [exact E|]. rewrite V. unfold vals. by rewrite lookup_singleton_eq.
Defined.

(** [Save] opens the file anew: what it held before, overrides of an earlier run among
    it, is gone. *)
Lemma earlier_overrides_lost `{HashOrderSpec} writable files files' p f o : m_Overrides p !! f = Some o -> writable f = true ->
  (Save writable files p).1 !! f = (Save writable files' p).1 !! f.
Proof. intros E W. by rewrite !(Save_file _ _ _ _ _ E W). Qed.
(** An empty file is refused. *)
Lemma empty_file_refused files f p : files !! f = Some [] -> (LoadFile files f p).1 = false.
Proof. intros E. unfold LoadFile. by rewrite E. Qed.
