(* ===== verification/ConfigDef.v ===== *)
(** * Configuration options ([llarp/config/definition.cpp], [definition.hpp], [config.cpp])

    The definitions of the options, the values that are read for them, the text that is
    generated from them, and how a configuration is loaded from its file and the
    overrides.  An exception is the left side of a sum, and what was done before it is
    given up with it.  Acceptors and handlers of undeclared values change a state of
    their own, of type [A]. *)

From S2P Require Import Prelude Text Bencode Ini.
Open Scope Z_scope.

Inductive error :=
  | UnrecognizedSection (s : list Z) | UnrecognizedOption (s n : list Z) | DuplicateValue (n : list Z) | InvalidValue (input : list Z)
  | RequiredMissing (s n : list Z) | AcceptRequired (s n : list Z) | AlreadyDefined (s n : list Z) | HandlerExists (s : list Z)
  | ArrayDefault | NoSection (s : list Z) | NoOption (s n : list Z) | CannotLoad (f : list Z) | Refused (why : list Z)
  | OutOfRange | EndDereferenced.
Definition sbind {E A B} (x : E + A) (f : A -> E + B) : E + B := match x with inl e => inl e | inr a => f a end.
Notation "'try' x := m 'in' k" := (sbind m (fun x => k)) (at level 200, x binder, m at level 100, k at level 200).

(** How values of a type are read and written ([std::istringstream] and fmt) *)
Class OptionType (T : Type) := { fromString : list Z -> option T; to_string : T -> list Z; is_path : bool }.
#[export] Instance string_option : OptionType (list Z) := {| fromString s := Some s; to_string s := s; is_path := false |}.
(** false, off, 0, no; true, on, 1, yes *)
Definition false_words : list (list Z) := [[102; 97; 108; 115; 101]; [111; 102; 102]; [48]; [110; 111]].
Definition true_words : list (list Z) := [[116; 114; 117; 101]; [111; 110]; [49]; [121; 101; 115]].
Definition bool_fromString (input : list Z) : option bool :=
  if bool_decide (input ∈ false_words) then Some false else if bool_decide (input ∈ true_words) then Some true else None.
#[export] Instance bool_option : OptionType bool :=
  {| fromString := bool_fromString; to_string b := if b then [116; 114; 117; 101] else [102; 97; 108; 115; 101]; is_path := false |}.

Section Definitions.
Context {A : Type}.

(** ** Options *)

Record OptionDefinition (T : Type) := mkOption {
  section : list Z;
  name : list Z;
  required : bool;
  multiValued : bool;
  deprecated : bool;
  hidden : bool;
  relayOnly : bool;
  clientOnly : bool;
  comments : list (list Z);
  defaultValues : list T;
  parsedValues : list T;
  acceptor : option (T -> A -> error + A) }.
#[global] Arguments mkOption {T}.
#[global] Arguments section {T}.
#[global] Arguments name {T}.
#[global] Arguments required {T}.
#[global] Arguments multiValued {T}.
#[global] Arguments deprecated {T}.
#[global] Arguments hidden {T}.
#[global] Arguments relayOnly {T}.
#[global] Arguments clientOnly {T}.
#[global] Arguments comments {T}.
#[global] Arguments defaultValues {T}.
#[global] Arguments parsedValues {T}.
#[global] Arguments acceptor {T}.
(** What the constructor is called with, in any order *)
Inductive option_arg (T : Type) :=
  | Required | Hidden | MultiValue | RelayOnly | ClientOnly | Deprecated
  | Default (v : T) | Defaults (l : list T) | Acceptor (f : T -> A -> error + A) | Comment (l : list (list Z)).
#[global] Arguments Required {T}.
#[global] Arguments Hidden {T}.
#[global] Arguments MultiValue {T}.
#[global] Arguments RelayOnly {T}.
#[global] Arguments ClientOnly {T}.
#[global] Arguments Deprecated {T}.
#[global] Arguments Default {T}.
#[global] Arguments Defaults {T}.
#[global] Arguments Acceptor {T}.
#[global] Arguments Comment {T}.
Definition set_parsed {T} (l : list T) (o : OptionDefinition T) : OptionDefinition T :=
  mkOption (section o) (name o) (required o) (multiValued o) (deprecated o) (hidden o) (relayOnly o) (clientOnly o) (comments o) (defaultValues o) l (acceptor o).
Definition extract {T} (multi : bool) (arg : option_arg T) (st : list T * option (T -> A -> error + A) * list (list Z)) :
    error + (list T * option (T -> A -> error + A) * list (list Z)) :=
  let '(d, f, c) := st in
  match arg with
  | Defaults l => if negb multi then inl ArrayDefault else inr (l, f, c)
  | Default v => inr ([v], f, c)
  | Acceptor f => inr (d, Some f, c)
  | Comment c => inr (d, f, c)
  | _ => inr st
  end.
Definition OptionDefinition_new {T} (section name : list Z) (opts : list (option_arg T)) : error + OptionDefinition T :=
  let has (p : option_arg T -> bool) := existsb p opts in
  let required := has (fun x => match x with Required => true | _ => false end) in
  let multiValued := has (fun x => match x with MultiValue => true | _ => false end) in
  let deprecated := has (fun x => match x with Deprecated => true | _ => false end) in
  let hidden := deprecated || has (fun x => match x with Hidden => true | _ => false end) in
  let relayOnly := has (fun x => match x with RelayOnly => true | _ => false end) in
  let clientOnly := has (fun x => match x with ClientOnly => true | _ => false end) in
  try st := visit_each (extract multiValued) opts ([], None, []) in
  let '(d, f, c) := st in
  inr (mkOption section name required multiValued deprecated hidden relayOnly clientOnly c d [] f).

Definition getValue {T} (o : OptionDefinition T) : option T :=
  match parsedValues o with
  | [] => if required o then None else head (defaultValues o)
  | v :: _ => Some v
  end.
Definition getNumberFound {T} (o : OptionDefinition T) : nat := length (parsedValues o).
Definition defaultValuesAsString `{OptionType T} (o : OptionDefinition T) : list (list Z) :=
  match defaultValues o with
  | [] => []
  | v :: _ => if is_path then [to_string v] else to_string <$> defaultValues o
  end.
Definition parseValue `{OptionType T} (input : list Z) (o : OptionDefinition T) : error + OptionDefinition T :=
  if negb (multiValued o) && bool_decide (0 < length (parsedValues o))%nat then inl (DuplicateValue (name o))
  else
    match fromString input with
    | None => inl (InvalidValue input)
    | Some v => inr (set_parsed (parsedValues o ++ [v]) o)
    end.
Definition valuesAsString `{OptionType T} (o : OptionDefinition T) : list (list Z) := to_string <$> parsedValues o.
Definition tryAccept {T} (o : OptionDefinition T) (a : A) : error + A :=
  if required o && bool_decide (parsedValues o = []) then inl (AcceptRequired (section o) (name o))
  else
    match acceptor o with
    | None => inr a
    | Some accept =>
        if multiValued o then
          try a := (if bool_decide (parsedValues o = []) && negb (bool_decide (defaultValues o = [])) then visit_each accept (defaultValues o) a else inr a) in
          visit_each accept (parsedValues o) a
        else match getValue o with Some v => accept v a | None => inr a end
    end.

(** A pointer to an option of any type *)
Record OptionDefinition_ptr := mkPtr { opt_T : Type; opt_type : OptionType opt_T; opt : OptionDefinition opt_T }.
#[local] Existing Instance opt_type.
Definition ptr_parseValue (input : list Z) (o : OptionDefinition_ptr) : error + OptionDefinition_ptr :=
  try x := parseValue input (opt o) in inr (mkPtr (opt_T o) (opt_type o) x).

(** ** Definitions *)

Abbreviation DefinitionMap := (gmap (list Z) OptionDefinition_ptr).
Abbreviation UndeclaredValueHandler := (list Z -> list Z -> list Z -> A -> error + A).
Record ConfigDefinition := mkConfig {
  relay : bool;
  m_definitions : gmap (list Z) DefinitionMap;
  m_undeclaredHandlers : gmap (list Z) UndeclaredValueHandler;
  m_sectionOrdering : list (list Z);
  m_definitionOrdering : gmap (list Z) (list (list Z));
  m_sectionComments : gmap (list Z) (list (list Z));
  m_definitionComments : gmap (list Z) (gmap (list Z) (list (list Z))) }.
Definition ConfigDefinition_new (relay : bool) : ConfigDefinition := mkConfig relay ∅ ∅ [] ∅ ∅ ∅.
Definition set_definitions (d : gmap (list Z) DefinitionMap) (c : ConfigDefinition) : ConfigDefinition :=
  mkConfig (relay c) d (m_undeclaredHandlers c) (m_sectionOrdering c) (m_definitionOrdering c) (m_sectionComments c) (m_definitionComments c).
Definition set_handlers (h : gmap (list Z) UndeclaredValueHandler) (c : ConfigDefinition) : ConfigDefinition :=
  mkConfig (relay c) (m_definitions c) h (m_sectionOrdering c) (m_definitionOrdering c) (m_sectionComments c) (m_definitionComments c).

Definition addSectionComments (section : list Z) (l : list (list Z)) (c : ConfigDefinition) : ConfigDefinition :=
  mkConfig (relay c) (m_definitions c) (m_undeclaredHandlers c) (m_sectionOrdering c) (m_definitionOrdering c)
    (<[section := default [] (m_sectionComments c !! section) ++ l]> (m_sectionComments c)) (m_definitionComments c).
Definition option_comments (c : ConfigDefinition) (section name : list Z) : list (list Z) :=
  default [] (default ∅ (m_definitionComments c !! section) !! name).
Definition addOptionComments (section name : list Z) (l : list (list Z)) (c : ConfigDefinition) : ConfigDefinition :=
  mkConfig (relay c) (m_definitions c) (m_undeclaredHandlers c) (m_sectionOrdering c) (m_definitionOrdering c) (m_sectionComments c)
    (<[section := <[name := option_comments c section name ++ l]> (default ∅ (m_definitionComments c !! section))]> (m_definitionComments c)).

(** The definition is taken as it is; its comments move into the configuration. *)
Definition define_taken (def : OptionDefinition_ptr) (c : ConfigDefinition) : error + ConfigDefinition :=
  let s := section (opt def) in
  let n := name (opt def) in
  let ordering := if bool_decide (is_Some (m_definitions c !! s)) then m_sectionOrdering c else m_sectionOrdering c ++ [s] in
  let defs := default ∅ (m_definitions c !! s) in
  match defs !! n with
  | Some _ => inl (AlreadyDefined s n)
  | None =>
      let c := mkConfig (relay c) (<[s := <[n := def]> defs]> (m_definitions c)) (m_undeclaredHandlers c) ordering
                 (<[s := default [] (m_definitionOrdering c !! s) ++ [n]]> (m_definitionOrdering c)) (m_sectionComments c) (m_definitionComments c) in
      inr (if bool_decide (comments (opt def) = []) then c else addOptionComments s n (comments (opt def)) c)
  end.
(** The option that stands for an ignored one, of strings: its acceptor writes a warning *)
Definition ignored_option (def : OptionDefinition_ptr) : OptionDefinition_ptr :=
  mkPtr (list Z) string_option (mkOption (section (opt def)) (name (opt def)) false true false true false false [] [] [] (Some (fun _ a => inr a))).
Definition defineOption (def : OptionDefinition_ptr) (c : ConfigDefinition) : error + ConfigDefinition :=
  if deprecated (opt def) || (if relay c then clientOnly (opt def) else relayOnly (opt def)) then define_taken (ignored_option def) c else define_taken def c.

Definition addConfigValue (section name value : list Z) (st : ConfigDefinition * A) : error + (ConfigDefinition * A) :=
  let '(c, a) := st in
  let handler := m_undeclaredHandlers c !! section in
  match m_definitions c !! section with
  | None => match handler with None => inl (UnrecognizedSection section) | Some h => try a := h section name value a in inr (c, a) end
  | Some sectionDefinitions =>
      match sectionDefinitions !! name with
      | Some definition =>
          try d := ptr_parseValue value definition in
          inr (set_definitions (<[section := <[name := d]> sectionDefinitions]> (m_definitions c)) c, a)
      | None => match handler with None => inl (UnrecognizedOption section name) | Some h => try a := h section name value a in inr (c, a) end
      end
  end.
Definition addUndeclaredHandler (section : list Z) (handler : UndeclaredValueHandler) (c : ConfigDefinition) : error + ConfigDefinition :=
  match m_undeclaredHandlers c !! section with
  | Some _ => inl (HandlerExists section)
  | None => inr (set_handlers (<[section := handler]> (m_undeclaredHandlers c)) c)
  end.
Definition removeUndeclaredHandler (section : list Z) (c : ConfigDefinition) : ConfigDefinition := set_handlers (delete section (m_undeclaredHandlers c)) c.
Definition lookupDefinitionOrThrow (section name : list Z) (c : ConfigDefinition) : error + OptionDefinition_ptr :=
  match m_definitions c !! section with
  | None => inl (NoSection section)
  | Some defs => match defs !! name with None => inl (NoOption section name) | Some d => inr d end
  end.

(** ** Visits *)

Definition visitSections {B} (visitor : list Z -> DefinitionMap -> B -> error + B) (c : ConfigDefinition) (b : B) : error + B :=
  visit_each (fun s b => match m_definitions c !! s with None => inl EndDereferenced | Some defs => visitor s defs b end) (m_sectionOrdering c) b.
Definition visitDefinitions {B} (section : list Z) (visitor : list Z -> OptionDefinition_ptr -> B -> error + B) (c : ConfigDefinition) (b : B) : error + B :=
  match m_definitions c !! section, m_definitionOrdering c !! section with
  | Some defs, Some ordering => visit_each (fun n b => match defs !! n with None => inl EndDereferenced | Some d => visitor n d b end) ordering b
  | _, _ => inl OutOfRange
  end.
Definition validateRequiredFields (c : ConfigDefinition) : error + unit :=
  visitSections (fun section _ u => visitDefinitions section (fun _ def u =>
    if required (opt def) && bool_decide (getNumberFound (opt def) < 1)%nat then inl (RequiredMissing section (name (opt def))) else inr u) c u) c tt.
Definition acceptAllOptions (c : ConfigDefinition) (a : A) : error + A :=
  visitSections (fun section _ a => visitDefinitions section (fun _ def a => tryAccept (opt def) a) c a) c a.
Definition process (c : ConfigDefinition) (a : A) : error + A := try _ := validateRequiredFields c in acceptAllOptions c a.

(** ** The text of a configuration *)

Definition comment_mark : list Z := [ch_newline; ch_hash; 32].
Definition option_text (useValues : bool) (c : ConfigDefinition) (section name : list Z) (def : OptionDefinition_ptr) : list Z :=
  let notes := option_comments c section name in
  concat ((fun l => comment_mark ++ l) <$> notes) ++
  (if useValues && bool_decide (0 < getNumberFound (opt def))%nat then
     concat ((fun v => [ch_newline] ++ name ++ [ch_equals] ++ v) <$> valuesAsString (opt def)) ++ [ch_newline]
   else if negb (hidden (opt def)) then
     (match defaultValuesAsString (opt def) with
      | [] => [ch_newline; ch_hash] ++ name ++ [ch_equals]
      | defaults => concat ((fun v => [ch_newline] ++ (if required (opt def) then [] else [ch_hash]) ++ name ++ [ch_equals] ++ v) <$> defaults)
      end) ++ [ch_newline]
   else if negb (bool_decide (notes = [])) then [ch_newline] else []).
Definition generateINIConfig (useValues : bool) (c : ConfigDefinition) : error + list Z :=
  try r := visitSections (fun section _ (st : list Z * nat) =>
    let '(ini, sectionsVisited) := st in
    try sect_str := visitDefinitions section (fun name def sect_str => inr (sect_str ++ option_text useValues c section name def)) c [] in
    if bool_decide (sect_str = []) then inr st
    else
      let ini := if bool_decide (0 < sectionsVisited)%nat then ini ++ [ch_newline; ch_newline] else ini in
      let ini := ini ++ [ch_open] ++ section ++ [ch_close; ch_newline] in
      let ini := ini ++ concat ((fun l => [ch_hash; 32] ++ l ++ [ch_newline]) <$> default [] (m_sectionComments c !! section)) in
      inr (ini ++ [ch_newline] ++ sect_str, S sectionsVisited)) c ([], 0%nat) in
  inr (fst r).

(** ** Loading *)

Definition add_values `{HashOrder} (p : ConfigParser) (st : ConfigDefinition * A) : error + (ConfigDefinition * A) :=
  IterAll (fun section values => visit_each (fun kv => addConfigValue section kv.1 kv.2) (values_in_order values)) p st.
Definition ini_extension : list Z := [46; 105; 110; 105].
(** [entries]: the files of the directory [conf.d], none when it does not exist *)
Definition LoadOverrides `{HashOrder} (files : Files) (entries : list (list Z)) (st : ConfigDefinition * A) : error + (ConfigDefinition * A) :=
  visit_each (fun overrideFile st =>
    if ends_with overrideFile ini_extension then
      let '(ok, parser) := LoadFile files overrideFile ConfigParser_new in
      if negb ok then inl (CannotLoad overrideFile) else add_values parser st
    else inr st) entries st.
Definition deprecated_string (section name : list Z) : OptionDefinition_ptr :=
  mkPtr (list Z) string_option (mkOption section name false false true true false false [] [] [] None).
(** system, netdb and metrics with their options *)
Definition old_options : list (list Z * list Z) :=
  [([115; 121; 115; 116; 101; 109], [117; 115; 101; 114]); ([115; 121; 115; 116; 101; 109], [103; 114; 111; 117; 112]);
   ([115; 121; 115; 116; 101; 109], [112; 105; 100; 102; 105; 108; 101]); ([110; 101; 116; 100; 98], [100; 105; 114]);
   ([109; 101; 116; 114; 105; 99; 115], [106; 115; 111; 110; 45; 109; 101; 116; 114; 105; 99; 115; 45; 112; 97; 116; 104])].
Definition addBackwardsCompatibleConfigOptions (c : ConfigDefinition) : error + ConfigDefinition :=
  visit_each (fun x => defineOption (deprecated_string x.1 x.2)) old_options c.
(** [initializeConfig] defines the options of every part of the program; [additional]
    are the values of [AddDefault]. *)
Definition LoadConfigData `{HashOrder} (initializeConfig : ConfigDefinition -> error + ConfigDefinition) (additional : list (list Z * list Z * list Z))
    (files : Files) (entries : list (list Z)) (ini : list Z) (filename : option (list Z)) (isRelay : bool) (m_Parser : ConfigParser) (a : A) :
    error + (bool * ConfigParser * A) :=
  try conf := addBackwardsCompatibleConfigOptions (ConfigDefinition_new isRelay) in
  try conf := initializeConfig conf in
  try st := visit_each (fun item => addConfigValue item.1.1 item.1.2 item.2) additional (conf, a) in
  let m_Parser := Filename (default [] filename) (Clear m_Parser) in
  let '(ok, m_Parser) := LoadFromStr ini m_Parser in
  if negb ok then inr (false, m_Parser, snd st)
  else
    try st := add_values m_Parser st in
    try st := LoadOverrides files entries st in
    try a := process (fst st) (snd st) in
    inr (true, m_Parser, a).
Definition Load `{HashOrder} (initializeConfig : ConfigDefinition -> error + ConfigDefinition) (additional : list (list Z * list Z * list Z))
    (files : Files) (entries : list (list Z)) (fname : option (list Z)) (isRelay : bool) (m_Parser : ConfigParser) (a : A) : error + (bool * ConfigParser * A) :=
  match fname with
  | None => LoadConfigData initializeConfig additional files entries [] None isRelay m_Parser a
  | Some f =>
      match files !! f with
      | None => inr (false, m_Parser, a)
      | Some ini => LoadConfigData initializeConfig additional files entries ini fname isRelay m_Parser a
      end
  end.
End Definitions.
