(* ===== verification/ConfigProofs.v ===== *)
(** * Generated configurations

    The tables of the options agree with the orders they are written in, whatever is
    defined and read; a generated text is read back as the values it was written from;
    required options are tested before any acceptor runs. *)

From S2P Require Import Prelude Text Bencode Ini ConfigDef.
Open Scope Z_scope.

Section Proofs.
Context {A : Type}.
Abbreviation Config := (ConfigDefinition (A := A)).
Abbreviation Ptr := (OptionDefinition_ptr (A := A)).
#[local] Existing Instance opt_type.
Implicit Types (c : Config) (o : Ptr).

(** ** The invariant *)

Definition lookup_option c (s n : list Z) : option Ptr := m_definitions c !! s ≫= (fun defs => defs !! n).
Definition with_parsed o (l : list (opt_T o)) : Ptr := mkPtr (opt_T o) (opt_type o) (set_parsed l (opt o)).
Record wf_config c : Prop := {
  wf_sections : NoDup (m_sectionOrdering c) /\ forall s, s ∈ m_sectionOrdering c <-> is_Some (m_definitions c !! s);
  wf_ordering s : match m_definitions c !! s with
    | None => m_definitionOrdering c !! s = None
    | Some defs => exists l, m_definitionOrdering c !! s = Some l /\ NoDup l /\ forall n, n ∈ l <-> is_Some (defs !! n)
    end;
  wf_option s n o : lookup_option c s n = Some o ->
    section (opt o) = s /\ name (opt o) = n /\ (multiValued (opt o) = false -> (length (parsedValues (opt o)) <= 1)%nat) }.
Lemma wf_new r : wf_config (ConfigDefinition_new r).
Proof. split; cbn; [split; [constructor|]; intros s; rewrite lookup_empty; split; [set_solver|by intros [? ?]]|intros s; by rewrite !lookup_empty|done]. Qed.
Lemma lookup_insert_option (ds : gmap (list Z) (gmap (list Z) Ptr)) s n d s' n' :
  (<[s := <[n := d]> (default ∅ (ds !! s))]> ds !! s') ≫= (fun defs => defs !! n') = if bool_decide (s = s' /\ n = n') then Some d else (ds !! s') ≫= (fun defs => defs !! n').
Proof.
  destruct (decide (s = s')) as [->|Ns]; [rewrite lookup_insert_eq|rewrite lookup_insert_ne, bool_decide_eq_false_2 by naive_solver; done]. cbn [mbind option_bind].
  destruct (decide (n = n')) as [->|Nn]; [rewrite lookup_insert_eq, bool_decide_eq_true_2 by done; done|]. rewrite lookup_insert_ne, bool_decide_eq_false_2 by naive_solver.
  by destruct (ds !! s').
Qed.
Lemma addOptionComments_wf s n l c : wf_config c -> wf_config (addOptionComments s n l c).
Proof. intros [W1 W2 W3]. by split. Qed.
Lemma define_taken_wf o c c' : wf_config c -> parsedValues (opt o) = [] -> define_taken o c = inr c' ->
  wf_config c' /\ forall s n, lookup_option c' s n = if bool_decide (section (opt o) = s /\ name (opt o) = n) then Some o else lookup_option c s n.
Proof.
  intros [[W1 W1'] W2 W3] P. unfold define_taken. set (s0 := section (opt o)). set (n0 := name (opt o)). destruct (default ∅ (m_definitions c !! s0) !! n0) eqn:En; [done|].
  set (c1 := mkConfig _ _ _ _ _ _ _).
  assert (L1 : forall s n, lookup_option c1 s n = if bool_decide (s0 = s /\ n0 = n) then Some o else lookup_option c s n) by (intros s n; apply lookup_insert_option).
  assert (Wc1 : wf_config c1).
  { split.
    - cbn [c1 m_sectionOrdering m_definitions]. case_bool_decide as Hs.
      + split; [done|]. intros s. rewrite W1'. destruct (decide (s0 = s)) as [<-|N]; [rewrite lookup_insert_eq; by split; intros _; [|]|by rewrite lookup_insert_ne].
      + split; [apply NoDup_app; split; [done|]; split; [intros x Hx; rewrite W1' in Hx; rewrite list_elem_of_singleton; by intros ->|apply NoDup_singleton]|].
        intros s. rewrite elem_of_app, list_elem_of_singleton, W1'. destruct (decide (s0 = s)) as [<-|N]; [rewrite lookup_insert_eq; naive_solver|rewrite lookup_insert_ne by done; naive_solver].
    - intros s. cbn [c1 m_definitions m_definitionOrdering]. destruct (decide (s0 = s)) as [<-|N]; [|rewrite !lookup_insert_ne by done; apply W2].
      rewrite !lookup_insert_eq. specialize (W2 s0). destruct (m_definitions c !! s0) as [defs|]; cbn [default from_option id] in *.
      + destruct W2 as (l & -> & ND & Hl). exists (l ++ [n0]). split; [done|]. split.
        * apply NoDup_app. split; [done|]. split; [|apply NoDup_singleton]. intros x Hx. rewrite list_elem_of_singleton. intros ->. apply Hl in Hx. rewrite En in Hx. by destruct Hx.
        * intros n. rewrite elem_of_app, list_elem_of_singleton, Hl. destruct (decide (n0 = n)) as [<-|N]; [rewrite lookup_insert_eq; naive_solver|rewrite lookup_insert_ne by done; naive_solver].
      + rewrite W2. exists [n0]. split; [done|]. split; [apply NoDup_singleton|]. intros n. rewrite list_elem_of_singleton.
        destruct (decide (n0 = n)) as [<-|N]; [rewrite lookup_insert_eq; naive_solver|rewrite lookup_insert_ne, lookup_empty by done]. split; [by intros ->|by intros [? ?]].
    - intros s n x. rewrite L1. case_bool_decide as E; [|apply W3]. intros [= <-]. destruct E as [<- <-]. split; [done|]. split; [done|]. intros _. rewrite P. cbn. lia. }
  intros [= <-]. case_bool_decide; split; [done|done|by apply addOptionComments_wf|done].
Qed.
(** What a configuration holds after a definition: the option itself, or the one that
    stands for an option that does not count here *)
Lemma defineOption_wf o c c' : wf_config c -> parsedValues (opt o) = [] -> defineOption o c = inr c' -> wf_config c'.
Proof. intros W P. unfold defineOption. destruct (_ || _); intros E; by eapply define_taken_wf in E as [? _]. Qed.

(** ** Values *)

Definition put_option (s n : list Z) o c : Config := set_definitions (<[s := <[n := o]> (default ∅ (m_definitions c !! s))]> (m_definitions c)) c.
Lemma lookup_put_option s n o c s' n' : lookup_option (put_option s n o c) s' n' = if bool_decide (s = s' /\ n = n') then Some o else lookup_option c s' n'.
Proof. apply lookup_insert_option. Qed.
Definition push o (vs : list (list Z)) : Ptr := with_parsed o (parsedValues (opt o) ++ omap fromString vs).
Lemma push_nil o : push o [] = o.
Proof. unfold push, with_parsed. rewrite app_nil_r. by destruct o as [T ty []]. Qed.
Lemma push_cons o v vs (x : opt_T o) : fromString v = Some x -> push (push o [v]) vs = push o (v :: vs).
Proof.
  intros E. unfold push, with_parsed. cbn [opt opt_T opt_type set_parsed parsedValues]. unfold set_parsed. cbn. cbn in E. rewrite E. cbn. by rewrite <- app_assoc.
Qed.
Lemma add_found s n v c a o (x : opt_T o) : lookup_option c s n = Some o -> fromString v = Some x -> (multiValued (opt o) = false -> parsedValues (opt o) = []) ->
  addConfigValue s n v (c, a) = inr (put_option s n (push o [v]) c, a).
Proof.
  intros L F M. unfold lookup_option in L. unfold addConfigValue, put_option. destruct (m_definitions c !! s) as [defs|]; [|done]. cbn in L. rewrite L. unfold ptr_parseValue, parseValue.
  replace (negb (multiValued (opt o)) && bool_decide (0 < length (parsedValues (opt o)))%nat) with false.
  2:{ destruct (multiValued (opt o)); [done|]. rewrite M by done. done. }
  rewrite F. cbn [sbind]. unfold push, with_parsed. cbn [omap list_omap]. rewrite F. done.
Qed.
Lemma put_option_wf s n o o' c : wf_config c -> lookup_option c s n = Some o -> section (opt o') = section (opt o) -> name (opt o') = name (opt o) ->
  (multiValued (opt o') = false -> (length (parsedValues (opt o')) <= 1)%nat) -> wf_config (put_option s n o' c).
Proof.
  intros [[W1 W1'] W2 W3] L E1 E2 M. assert (exists defs, m_definitions c !! s = Some defs /\ defs !! n = Some o) as (defs & D & Dn).
  { unfold lookup_option in L. destruct (m_definitions c !! s) as [defs|]; [|done]. by exists defs. }
  split.
  - split; [exact W1|]. intros t. change (m_sectionOrdering _) with (m_sectionOrdering c). rewrite W1'. cbn [put_option set_definitions m_definitions].
    destruct (decide (s = t)) as [->|N]; [rewrite lookup_insert_eq, D; by split|by rewrite lookup_insert_ne].
  - intros t. cbn [put_option set_definitions m_definitions m_definitionOrdering]. destruct (decide (s = t)) as [<-|N]; [|rewrite lookup_insert_ne by done; apply W2].
    rewrite lookup_insert_eq. specialize (W2 s). rewrite D in *. destruct W2 as (l & E & ND & Hl). exists l. split; [done|]. split; [done|]. intros m. rewrite Hl. cbn [default from_option id].
    destruct (decide (n = m)) as [->|N]; [rewrite lookup_insert_eq, Dn; by split|by rewrite lookup_insert_ne].
  - intros t m x. rewrite lookup_put_option. case_bool_decide as E; [|apply W3]. destruct E as [<- <-]. intros [= <-]. destruct (W3 _ _ _ L) as (? & ? & _). split; [congruence|]. split; [congruence|done].
Qed.
(** Whatever is read, the invariant stays. *)
Lemma addConfigValue_wf s n v c a c' a' : wf_config c -> addConfigValue s n v (c, a) = inr (c', a') -> wf_config c'.
Proof.
  intros W. unfold addConfigValue. destruct (m_definitions c !! s) as [defs|] eqn:D.
  2:{ destruct (m_undeclaredHandlers c !! s) as [h|]; [|done]. cbn. destruct (h s n v a); [done|]. by intros [= <- <-]. }
  destruct (defs !! n) as [o|] eqn:Dn.
  2:{ destruct (m_undeclaredHandlers c !! s) as [h|]; [|done]. cbn. destruct (h s n v a); [done|]. by intros [= <- <-]. }
  unfold ptr_parseValue, parseValue. destruct (negb (multiValued (opt o)) && bool_decide (0 < length (parsedValues (opt o)))%nat) eqn:M; [done|]. destruct (fromString v) as [x|]; [|done]. cbn [sbind].
  intros [= <- <-]. assert (L : lookup_option c s n = Some o) by (unfold lookup_option; by rewrite D).
  pose proof (put_option_wf s n o (mkPtr (opt_T o) (opt_type o) (set_parsed (parsedValues (opt o) ++ [x]) (opt o))) c W L eq_refl eq_refl) as P. unfold put_option in P. rewrite D in P. apply P.
  cbn. intros Hm. rewrite Hm in M. cbn in M. apply bool_decide_eq_false in M. rewrite length_app. cbn. lia.
Qed.
(** The values read for one option *)
Definition read_for (L : list (list Z * list Z * list Z)) (s n : list Z) : list (list Z) := snd <$> filter (fun x => x.1 = (s, n)) L.
Definition add_all (L : list (list Z * list Z * list Z)) (st : Config * A) : error + (Config * A) :=
  visit_each (fun x => addConfigValue x.1.1 x.1.2 x.2) L st.
Definition acceptable (L : list (list Z * list Z * list Z)) c : Prop :=
  forall s n, read_for L s n <> [] -> exists o, lookup_option c s n = Some o /\ Forall (fun v => is_Some (fromString (T := opt_T o) v)) (read_for L s n) /\
    (multiValued (opt o) = false -> (length (parsedValues (opt o)) + length (read_for L s n) <= 1)%nat).
Lemma read_for_cons s n v L s' n' : read_for ((s, n, v) :: L) s' n' = if bool_decide (s = s' /\ n = n') then v :: read_for L s' n' else read_for L s' n'.
Proof.
  unfold read_for. case_bool_decide as E; [destruct E as [-> ->]; by rewrite filter_cons_True|]. rewrite filter_cons_False; [done|]. cbn. intros [= -> ->]. by apply E.
Qed.
Lemma add_all_spec L c a : wf_config c -> acceptable L c ->
  exists d, let c' := set_definitions d c in add_all L (c, a) = inr (c', a) /\ wf_config c' /\ forall s n, lookup_option c' s n = (fun o => push o (read_for L s n)) <$> lookup_option c s n.
Proof.
  revert c. induction L as [|[[s n] v] L IH]; intros c W Ac.
  - exists (m_definitions c). cbn zeta. replace (set_definitions (m_definitions c) c) with c by (by destruct c). split; [done|]. split; [done|].
    intros s n. destruct (lookup_option c s n); cbn; [by rewrite push_nil|done].
  - destruct (Ac s n) as (o & Lo & F & M); [rewrite read_for_cons, bool_decide_eq_true_2 by done; done|]. rewrite read_for_cons, bool_decide_eq_true_2 in F, M by done.
    apply Forall_cons in F as [[x Fx] F]. cbn [length] in M. assert (M0 : multiValued (opt o) = false -> parsedValues (opt o) = []) by (intros Hm; specialize (M Hm); destruct (parsedValues (opt o)); [done|cbn in M; lia]).
    set (c1 := put_option s n (push o [v]) c). assert (W1 : wf_config c1).
    { apply (put_option_wf s n o); [done|done|done|done|]. intros Hm. cbn in Hm. cbn. rewrite (M0 Hm), Fx. cbn. lia. }
    destruct (IH c1 W1) as (d & E & Wd & Ld).
    { intros s' n' N. unfold c1. rewrite lookup_put_option. specialize (Ac s' n'). rewrite read_for_cons in Ac. case_bool_decide as Es; [|by apply Ac]. destruct Es as [<- <-].
      exists (push o [v]). split; [done|]. split; [exact F|]. intros Hm. cbn in Hm. specialize (M Hm). cbn. rewrite (M0 Hm), Fx. cbn. rewrite (M0 Hm) in M. cbn in M. destruct (read_for L s n); [done|]. cbn in M. lia. }
    exists d. cbn zeta in *. change (set_definitions d c1) with (set_definitions d c) in *. split; [cbn [add_all visit_each]; cbn [fst snd]; rewrite (add_found _ _ _ _ _ _ _ Lo Fx M0); exact E|]. split; [done|].
    intros s' n'. rewrite Ld. unfold c1. rewrite lookup_put_option, read_for_cons. case_bool_decide as Es; [|done]. destruct Es as [<- <-]. rewrite Lo. cbn. f_equal. by apply push_cons with x.
Qed.

(** ** The generated text as lines *)

Lemma nl_lines ls : concat ((fun l => ch_newline :: l) <$> ls) ++ [ch_newline] = unlines ([] :: ls).
Proof.
  induction ls as [|l ls IH]; [done|]. cbn [fmap list_fmap concat]. rewrite <- app_assoc, IH. unfold unlines. cbn [fmap list_fmap concat app]. by rewrite <- app_assoc.
Qed.
Lemma unlines_nil ls : unlines ls = [] -> ls = [].
Proof. destruct ls as [|l ls]; [done|]. unfold unlines. cbn. intros E. by destruct l. Qed.
Definition text_note (l : list Z) : item := Note (32 :: l).
Definition option_items (useValues : bool) c (s n : list Z) o : list item :=
  let notes := text_note <$> option_comments c s n in
  if useValues && bool_decide (0 < getNumberFound (opt o))%nat then Blank :: notes ++ (Value n <$> valuesAsString (opt o))
  else if negb (hidden (opt o)) then
    Blank :: notes ++ (match defaultValuesAsString (opt o) with
      | [] => [Note (n ++ [ch_equals])]
      | defaults => (fun v => if required (opt o) then Value n v else Note (n ++ ch_equals :: v)) <$> defaults
      end)
  else if negb (bool_decide (option_comments c s n = [])) then Blank :: notes else [].
Lemma fmap_lines {B C} (f : B -> list Z) (g : C -> B) (l : list C) : concat ((fun x => ch_newline :: f (g x)) <$> l) = concat ((fun l => ch_newline :: l) <$> (f <$> (g <$> l))).
Proof. induction l as [|x l IH]; [done|]. cbn [fmap list_fmap concat]. by rewrite IH. Qed.
Lemma option_text_items u c s n o : option_text u c s n o = unlines (item_line <$> option_items u c s n o).
Proof.
  unfold option_text, option_items.
  assert (Nt : concat ((fun l => comment_mark ++ l) <$> option_comments c s n) = concat ((fun l => ch_newline :: l) <$> (item_line <$> (text_note <$> option_comments c s n)))) by exact (fmap_lines item_line text_note _).
  destruct (u && _).
  - rewrite Nt. cbn [fmap list_fmap]. rewrite <- nl_lines, fmap_app, fmap_app, concat_app, <- app_assoc. f_equal. f_equal. apply (fmap_lines item_line (Value n)).
  - destruct (negb (hidden (opt o))).
    + rewrite Nt. cbn [fmap list_fmap]. rewrite <- nl_lines, fmap_app, fmap_app, concat_app, <- app_assoc. f_equal. f_equal. destruct (defaultValuesAsString (opt o)) as [|d ds]; [cbn; by rewrite app_nil_r|].
      etrans; [|exact (fmap_lines item_line (fun v => if required (opt o) then Value n v else Note (n ++ ch_equals :: v)) (d :: ds))]. by destruct (required (opt o)).
    + destruct (option_comments c s n) as [|l ls] eqn:E; [done|]. rewrite Nt. cbn [negb]. rewrite bool_decide_eq_false_2 by done. cbn [negb]. rewrite (nl_lines (item_line <$> (text_note <$> l :: ls))). done.
Qed.

(** What may stand in a text: names and values without newlines or spaces around them *)
Definition option_ok c (s n : list Z) o : Prop :=
  key_ok n /\ Forall (fun v => value_ok (to_string v)) (parsedValues (opt o)) /\ Forall (fun v => plain (to_string v)) (defaultValues (opt o)) /\
  (required (opt o) = true -> defaultValues (opt o) = []) /\ Forall plain (option_comments c s n).
Definition texts_ok c : Prop :=
  (forall s, is_Some (m_definitions c !! s) -> plain s /\ Forall plain (default [] (m_sectionComments c !! s))) /\
  (forall s n o, lookup_option c s n = Some o -> option_ok c s n o).
Lemma notes_ok ls : Forall plain ls -> Forall item_ok (text_note <$> ls).
Proof. intros F. apply Forall_fmap. eapply Forall_impl; [exact F|]. intros l P. by constructor. Qed.
Lemma option_items_ok u c s n o : option_ok c s n o -> Forall item_ok (option_items u c s n o).
Proof.
  intros (K & V & D & R & C). apply notes_ok in C. unfold option_items. destruct (u && _).
  - constructor; [done|]. apply Forall_app. split; [done|]. unfold valuesAsString. apply Forall_fmap, Forall_fmap. eapply Forall_impl; [exact V|]. by split.
  - destruct (negb (hidden (opt o))); [|destruct (negb _); [by constructor|constructor]]. constructor; [done|]. apply Forall_app. split; [done|]. unfold defaultValuesAsString.
    destruct K as (Pk & _). assert (Pe : forall v, plain v -> plain (n ++ ch_equals :: v)) by (intros v Pv; apply Forall_app; split; [done|by constructor]).
    destruct (defaultValues (opt o)) as [|d ds] eqn:Ed; [constructor; [apply Pe; by constructor|constructor]|].
    assert (Rf : required (opt o) = false) by (destruct (required (opt o)); [by specialize (R eq_refl)|done]). rewrite Rf.
    destruct is_path; cbn [fmap list_fmap]; [constructor; [apply Pe; by apply Forall_cons in D as [? _]|constructor]|].
    apply Forall_cons in D as [D1 D2]. constructor; [by apply Pe|]. apply Forall_fmap, Forall_fmap. eapply Forall_impl; [exact D2|]. intros v Pv. by apply Pe.
Qed.
Lemma entries_notes (f : list Z -> item) ls items s t : (forall l, exists l', f l = Note l') -> entries ((f <$> ls) ++ items) s t = entries items s t.
Proof. intros F. induction ls as [|l ls IH]; [done|]. cbn [fmap list_fmap app]. destruct (F l) as (l' & ->). exact IH. Qed.
Lemma entries_values_of n vs items s t : entries ((Value n <$> vs) ++ items) s t = (if bool_decide (s = t) then (fun v => (n, v)) <$> vs else []) ++ entries items s t.
Proof. induction vs as [|v vs IH]; cbn [fmap list_fmap app entries]; [by case_bool_decide|]. rewrite IH. by case_bool_decide. Qed.
Definition option_values (u : bool) (x : list Z * Ptr) : SectionValues_t := if u then (fun v => (x.1, v)) <$> valuesAsString (opt x.2) else [].
Lemma entries_option_items u c s n o items t : (required (opt o) = true -> defaultValues (opt o) = []) ->
  entries (option_items u c s n o ++ items) s t = (if bool_decide (s = t) then option_values u (n, o) else []) ++ entries items s t.
Proof.
  intros R. assert (Nn : forall l, exists l', text_note l = Note l') by (intros l; by eexists). unfold option_items, option_values. cbn [fst snd]. destruct (u && bool_decide (0 < getNumberFound (opt o))%nat) eqn:Eu.
  - apply andb_true_iff in Eu as [-> _]. cbn [app entries]. rewrite <- app_assoc, (entries_notes text_note) by done. apply entries_values_of.
  - assert ((if bool_decide (s = t) then if u then (fun v => (n, v)) <$> valuesAsString (opt o) else [] else []) = []) as ->.
    { destruct (bool_decide (s = t)); [|done]. destruct u; [|done]. cbn [andb] in Eu. apply bool_decide_eq_false in Eu. unfold getNumberFound in Eu. unfold valuesAsString. destruct (parsedValues (opt o)); [done|cbn in Eu; lia]. }
    destruct (negb (hidden (opt o))); [|destruct (negb _); [|done]; cbn [app entries]; by rewrite (entries_notes text_note)].
    cbn [app entries]. rewrite <- app_assoc, (entries_notes text_note) by done. unfold defaultValuesAsString. destruct (defaultValues (opt o)) as [|d ds] eqn:Ed; [done|].
    destruct (required (opt o)) eqn:Er; [by specialize (R eq_refl)|]. destruct is_path; [done|].
    exact (entries_notes (fun v => Note (n ++ ch_equals :: v)) (to_string d :: fmap (M:=list) to_string ds) items s t (fun l => ex_intro _ _ eq_refl)).
Qed.

(** ** Visits *)

Definition section_options c (s : list Z) : list (list Z * Ptr) := omap (fun n => (fun o => (n, o)) <$> lookup_option c s n) (default [] (m_definitionOrdering c !! s)).
Lemma visit_each_ext {B E X} (f g : X -> B -> E + B) l b : (forall x b, x ∈ l -> f x b = g x b) -> visit_each f l b = visit_each g l b.
Proof. revert b. induction l as [|x l IH]; intros b F; [done|]. cbn. rewrite F by set_solver. destruct (g x b); [done|]. apply IH. set_solver. Qed.
Lemma visitDefinitions_wf {B} s (f : list Z -> Ptr -> B -> error + B) c b : wf_config c -> is_Some (m_definitions c !! s) ->
  visitDefinitions s f c b = visit_each (fun x => f x.1 x.2) (section_options c s) b.
Proof.
  intros W [defs D]. pose proof (wf_ordering c W s) as Ho. rewrite D in Ho. destruct Ho as (l & El & _ & Hl). unfold visitDefinitions, section_options, lookup_option. rewrite D, El. cbn [default from_option id mbind option_bind].
  assert (F : Forall (fun n => is_Some (defs !! n)) l) by (apply Forall_forall; intros n Hn; by apply Hl). clear Hl El. revert b. induction F as [|n l [o En] F IH]; intros b; [done|].
  cbn [visit_each omap list_omap]. rewrite En. cbn. destruct (f n o b); [done|]. apply IH.
Qed.
Lemma visitSections_wf {B} (f : list Z -> gmap (list Z) Ptr -> B -> error + B) c b : wf_config c ->
  visitSections f c b = visit_each (fun s => f s (default ∅ (m_definitions c !! s))) (m_sectionOrdering c) b.
Proof. intros W. apply visit_each_ext. intros s b' Hs. apply (wf_sections c W) in Hs as [defs ->]. done. Qed.
Lemma section_options_elem c s n o : wf_config c -> (n, o) ∈ section_options c s <-> lookup_option c s n = Some o.
Proof.
  intros W. unfold section_options. rewrite list_elem_of_omap. split; [intros (m & _ & E); destruct (lookup_option c s m) eqn:L; [|done]; by injection E as -> ->|].
  intros L. exists n. rewrite L. split; [|done]. pose proof (wf_ordering c W s) as Ho. unfold lookup_option in L. destruct (m_definitions c !! s) as [defs|]; [|done]. destruct Ho as (l & -> & _ & Hl). by apply Hl.
Qed.
Lemma section_options_nodup c s : wf_config c -> NoDup (section_options c s).*1.
Proof.
  intros W. unfold section_options. pose proof (wf_ordering c W s) as Ho. destruct (m_definitions c !! s) as [defs|]; [|rewrite Ho; constructor]. destruct Ho as (l & -> & ND & _). cbn [default from_option id].
  induction ND as [|n l Hn ND IH]; [constructor|]. cbn [omap list_omap]. destruct (lookup_option c s n) as [o0|]; cbn; [|exact IH]. constructor; [|exact IH].
  intros Hi. apply Hn. apply list_elem_of_fmap in Hi as ([m o] & -> & Hi). apply list_elem_of_omap in Hi as (k & Hk & E). destruct (lookup_option c s k); [|done]. by injection E as <- _.
Qed.

(** ** Generation *)

Definition options_items (u : bool) c (s : list Z) : list item := concat ((fun x => option_items u c s x.1 x.2) <$> section_options c s).
Definition block (u : bool) c (s : list Z) : list item := Head s :: (text_note <$> default [] (m_sectionComments c !! s)) ++ Blank :: options_items u c s.
Fixpoint blocks (u : bool) c (k : nat) (ss : list (list Z)) : list item :=
  match ss with
  | [] => []
  | s :: ss => if bool_decide (unlines (item_line <$> options_items u c s) = []) then blocks u c k ss else (if bool_decide (0 < k)%nat then [Blank; Blank] else []) ++ block u c s ++ blocks u c (S k) ss
  end.
Lemma sect_str_items u c s l str : visit_each (fun x sect_str => @inr error _ (sect_str ++ option_text u c s x.1 x.2)) l str =
  inr (str ++ unlines (item_line <$> concat ((fun x => option_items u c s x.1 x.2) <$> l))).
Proof.
  revert str. induction l as [|x l IH]; intros str; cbn [visit_each fmap list_fmap concat]; [by rewrite app_nil_r|]. rewrite IH, option_text_items, fmap_app, unlines_app. by rewrite <- app_assoc.
Qed.
Lemma options_text_nil u c s : wf_config c -> texts_ok c -> unlines (item_line <$> options_items u c s) = [] -> forall x, x ∈ section_options c s -> option_values u x = [].
Proof.
  intros W Ht E [n o] Hx. apply unlines_nil in E. apply fmap_nil_inv in E. unfold options_items in E.
  assert (En : option_items u c s n o = []).
  { revert Hx E. generalize (section_options c s). induction l as [|y l IH]; [set_solver|]. intros Hx E. cbn [fmap list_fmap concat] in E. apply app_eq_nil in E as [E1 E2].
    apply elem_of_cons in Hx as [<-|Hx]; [exact E1|by apply IH]. }
  unfold option_items in En. unfold option_values. destruct u; [|done]. cbn [andb fst snd] in *. unfold getNumberFound in En. unfold valuesAsString. by destruct (parsedValues (opt o)).
Qed.
Lemma generate_blocks u c : wf_config c -> exists items, generateINIConfig u c = inr (unlines (item_line <$> items)) /\ items = blocks u c 0 (m_sectionOrdering c).
Proof.
  intros W. eexists. split; [|reflexivity]. unfold generateINIConfig. rewrite visitSections_wf by done.
  assert (F : Forall (fun s => is_Some (m_definitions c !! s)) (m_sectionOrdering c)) by (apply Forall_forall; intros s Hs; by apply (wf_sections c W)).
  match goal with |- sbind (visit_each ?f _ _) _ = _ => set (body := f) end.
  assert (G : forall ss ini k, Forall (fun s => is_Some (m_definitions c !! s)) ss -> exists k', visit_each body ss (ini, k) = inr (ini ++ unlines (item_line <$> blocks u c k ss), k')).
  { clear F. induction ss as [|s ss IH]; intros ini k F; [exists k; cbn; by rewrite app_nil_r|]. apply Forall_cons in F as [Fs F]. cbn [visit_each blocks]. unfold body at 1.
    rewrite visitDefinitions_wf by done. rewrite sect_str_items. cbn [sbind app]. fold (options_items u c s). destruct (bool_decide (unlines (item_line <$> options_items u c s) = [])) eqn:Eb; [by apply IH|].
    destruct (IH (ini ++ unlines (item_line <$> (if bool_decide (0 < k)%nat then [Blank; Blank] else []) ++ block u c s)) (S k) F) as (k' & E). exists k'.
    rewrite app_assoc, fmap_app, unlines_app, app_assoc. rewrite <- E. do 2 f_equal. rewrite !fmap_app, !unlines_app. unfold block. cbn [fmap list_fmap]. unfold unlines. cbn [fmap list_fmap concat item_line].
    rewrite fmap_app, fmap_app, concat_app. cbn [fmap list_fmap concat item_line app].
    assert (Nt : concat ((fun l => [ch_hash; 32] ++ l ++ [ch_newline]) <$> default [] (m_sectionComments c !! s)) = concat ((fun l => l ++ [ch_newline]) <$> (item_line <$> (text_note <$> default [] (m_sectionComments c !! s))))).
    { generalize (default [] (m_sectionComments c !! s)). induction l as [|l ls IHl]; [done|]. cbn [fmap list_fmap concat]. by rewrite IHl. }
    rewrite <- Nt. case_bool_decide; cbn [fmap list_fmap concat item_line app]; rewrite <- ?app_assoc; cbn [app]; rewrite <- ?app_assoc; done. }
  destruct (G (m_sectionOrdering c) [] 0%nat F) as (k' & ->). done.
Qed.

(** ** The values in the text *)

Definition section_values (u : bool) c (s : list Z) : SectionValues_t := concat (option_values u <$> section_options c s).
Lemma entries_options u c s t l items : (forall n o, (n, o) ∈ l -> required (opt o) = true -> defaultValues (opt o) = []) ->
  entries (concat ((fun x => option_items u c s x.1 x.2) <$> l) ++ items) s t = (if bool_decide (s = t) then concat (option_values u <$> l) else []) ++ entries items s t.
Proof.
  induction l as [|[n o] l IH]; intros R; [by case_bool_decide|]. cbn [fmap list_fmap concat fst snd]. rewrite <- app_assoc, entries_option_items by (apply (R n); set_solver).
  rewrite IH by (intros m x Hx; apply (R m); set_solver). case_bool_decide; [by rewrite <- app_assoc|done].
Qed.
Lemma entries_blocks u c k ss s t : wf_config c -> texts_ok c ->
  entries (blocks u c k ss) s t = concat ((fun s' => if bool_decide (s' = t) then section_values u c s' else []) <$> ss).
Proof.
  intros W [T1 T2]. revert k s. induction ss as [|s' ss IH]; intros k s; [done|]. cbn [blocks fmap list_fmap concat]. case_bool_decide as Eb.
  - rewrite IH. replace (section_values u c s') with (@nil (list Z * list Z)); [by case_bool_decide|]. unfold section_values. symmetry. apply concat_nil_Forall, Forall_fmap, Forall_forall.
    intros x Hx. by apply (options_text_nil u c s' W (conj T1 T2) Eb).
  - transitivity (entries (block u c s' ++ blocks u c (S k) ss) s t); [by case_bool_decide|]. unfold block. cbn [app entries]. rewrite <- app_assoc, (entries_notes text_note) by (intros l; by eexists).
    cbn [app entries]. unfold options_items. rewrite entries_options, IH; [done|]. intros n o Ho. apply section_options_elem in Ho; [|done]. by destruct (T2 _ _ _ Ho) as (_ & _ & _ & R & _).
Qed.
Lemma entries_generated u c t : wf_config c -> texts_ok c -> entries (blocks u c 0 (m_sectionOrdering c)) [] t = section_values u c t.
Proof.
  intros W T. rewrite entries_blocks by done. destruct (wf_sections c W) as [ND Hs].
  assert (G : forall ss, NoDup ss -> concat ((fun s' => if bool_decide (s' = t) then section_values u c s' else []) <$> ss) = if bool_decide (t ∈ ss) then section_values u c t else []).
  { clear ND Hs. induction 1 as [|s ss Hn ND IH]; [done|]. cbn [fmap list_fmap concat]. rewrite IH. destruct (decide (s = t)) as [->|E].
    - rewrite (bool_decide_eq_true_2 (t = t)), (bool_decide_eq_false_2 (t ∈ ss)), (bool_decide_eq_true_2 (t ∈ t :: ss)), app_nil_r by set_solver. done.
    - rewrite (bool_decide_eq_false_2 (s = t)) by done. cbn [app]. replace (bool_decide (t ∈ s :: ss)) with (bool_decide (t ∈ ss)); [done|]. apply bool_decide_ext. set_solver. }
  rewrite (G _ ND). case_bool_decide as E; [done|]. rewrite Hs in E. unfold section_values, section_options. pose proof (wf_ordering c W t) as Ho.
  destruct (m_definitions c !! t); [by destruct E|]. by rewrite Ho.
Qed.
Lemma blocks_ok u c k ss : wf_config c -> texts_ok c -> Forall (fun s => is_Some (m_definitions c !! s)) ss -> Forall item_ok (blocks u c k ss).
Proof.
  intros W [T1 T2]. revert k. induction ss as [|s ss IH]; intros k F; [constructor|]. apply Forall_cons in F as [Fs F]. cbn [blocks]. case_bool_decide; [by apply IH|].
  destruct (T1 s Fs) as [Ps Pc]. apply Forall_app. split; [case_bool_decide; by repeat constructor|]. apply Forall_app. split; [|by apply IH].
  constructor; [done|]. apply Forall_app. split; [by apply notes_ok|]. constructor; [done|]. apply Forall_concat, Forall_fmap, Forall_forall. intros [n o] Hx.
  apply section_options_elem in Hx; [|done]. apply option_items_ok. by apply T2.
Qed.
(** A generated text is read without an error, and each section has the values of its options. *)
Lemma generated_parsed u c : wf_config c -> texts_ok c ->
  exists text p, generateINIConfig u c = inr text /\ LoadFromStr text ConfigParser_new = (true, p) /\ no_empty_sections (m_Config p) /\ forall t, vals (m_Config p) t = section_values u c t.
Proof.
  intros W T. destruct (generate_blocks u c W) as (items & E & ->). set (items := blocks u c 0 (m_sectionOrdering c)) in *.
  assert (F : Forall item_ok items). { apply blocks_ok; [done|done|]. apply Forall_forall. intros s Hs. by apply (wf_sections c W). }
  destruct (LoadFromStr_items items ConfigParser_new [] F (or_introl eq_refl)) as (items' & L & Hi). rewrite app_nil_r in L.
  eexists _, _. split; [exact E|]. split; [exact L|]. cbn [m_Config]. split; [apply run_no_empty; intros s; cbn; by rewrite lookup_empty|].
  intros t. rewrite vals_run. transitivity (entries items [] t); [|by apply entries_generated]. destruct Hi as [->|(i & -> & Hi)]; [done|]. by rewrite (entries_blank_last i).
Qed.

(** ** Reading the values back *)

Section Order.
Context `{HashOrderSpec}.

Definition flat (m : Config_impl_t) : list (list Z * list Z * list Z) := concat ((fun x => (fun kv => (x.1, kv.1, kv.2)) <$> values_in_order x.2) <$> in_order m).
Lemma visit_each_app {B E X} (f : X -> B -> E + B) l l' b : visit_each f (l ++ l') b = sbind (visit_each f l b) (visit_each f l').
Proof. revert b. induction l as [|x l IH]; intros b; [done|]. cbn. destruct (f x b); [done|]. apply IH. Qed.
Lemma add_values_flat p (st : Config * A) : add_values p st = add_all (flat (m_Config p)) st.
Proof.
  unfold add_values, IterAll, add_all, flat. generalize (in_order (m_Config p)) as l. intros l. revert st. induction l as [|[s kvs] l IH]; intros st; [done|].
  cbn [visit_each fmap list_fmap concat fst snd]. rewrite visit_each_app.
  replace (visit_each (fun kv : list Z * list Z => addConfigValue s kv.1 kv.2) (values_in_order kvs) st) with
    (visit_each (fun x => addConfigValue x.1.1 x.1.2 x.2) ((fun kv : list Z * list Z => (s, kv.1, kv.2)) <$> values_in_order kvs) st).
  - destruct (visit_each _ _ st); [done|]. cbn [sbind]. apply IH.
  - generalize (values_in_order kvs) as vs. intros vs. revert st. induction vs as [|kv vs IHv]; intros st; [done|]. cbn [fmap list_fmap visit_each fst snd]. destruct (addConfigValue _ _ _ st); [done|]. apply IHv.
Qed.
Lemma read_for_app L L' s n : read_for (L ++ L') s n = read_for L s n ++ read_for L' s n.
Proof. unfold read_for. by rewrite filter_app, fmap_app. Qed.
Definition named (n : list Z) (kvs : SectionValues_t) : list (list Z) := snd <$> filter (fun kv => kv.1 = n) kvs.
Lemma read_for_section t kvs s n : read_for ((fun kv => (t, kv.1, kv.2)) <$> kvs) s n = if bool_decide (t = s) then named n kvs else [].
Proof.
  induction kvs as [|[k v] kvs IH]; [by case_bool_decide|]. cbn [fmap list_fmap fst snd]. rewrite read_for_cons, IH. unfold named.
  destruct (decide (t = s)) as [->|E]; [|rewrite !(bool_decide_eq_false_2) by naive_solver; done]. rewrite (bool_decide_eq_true_2 (s = s)) by done.
  destruct (decide (k = n)) as [->|E]; [rewrite bool_decide_eq_true_2, filter_cons_True by done; done|rewrite bool_decide_eq_false_2, filter_cons_False by naive_solver; done].
Qed.
Lemma read_for_flat m s n : read_for (flat m) s n ≡ₚ named n (vals m s).
Proof.
  assert (G : forall l : list (list Z * SectionValues_t), read_for (concat ((fun x => (fun kv => (x.1, kv.1, kv.2)) <$> values_in_order x.2) <$> l)) s n =
    concat ((fun x => named n (values_in_order x.2)) <$> filter (fun x => x.1 = s) l)).
  { induction l as [|[t kvs] l IH]; [done|]. cbn [fmap list_fmap concat]. rewrite read_for_app, read_for_section, IH. cbn [fst snd].
    destruct (decide (t = s)) as [E|E]; [rewrite bool_decide_eq_true_2, filter_cons_True by done; done|rewrite bool_decide_eq_false_2, filter_cons_False by done; done]. }
  unfold flat. rewrite G, filter_in_order. unfold vals. destruct (m !! s) as [kvs|]; [|done]. cbn [fmap list_fmap concat default from_option id]. rewrite app_nil_r. unfold named. cbn [snd].
  by rewrite (values_in_order_spec kvs).
Qed.
Lemma named_section_values c s n : wf_config c -> named n (section_values true c s) = match lookup_option c s n with Some o => valuesAsString (opt o) | None => [] end.
Proof.
  intros W. pose proof (section_options_nodup c s W) as ND. pose proof (fun m o => section_options_elem c s m o W) as Hel. unfold section_values. revert ND.
  assert (Hn : forall m o, named n (option_values true (m, o)) = if bool_decide (m = n) then valuesAsString (opt o) else []).
  { intros m o. unfold option_values, named. cbn [fst snd]. induction (valuesAsString (opt o)) as [|v vs IH]; [by case_bool_decide|]. cbn [fmap list_fmap]. case_bool_decide; [rewrite filter_cons_True|rewrite filter_cons_False]; cbn; [|done..|done]; by rewrite IH. }
  assert (G : forall l, NoDup l.*1 -> named n (concat (option_values true <$> l)) = match snd <$> list_find (fun x => x.1 = n) l with Some x => valuesAsString (opt x.2) | None => [] end).
  { induction l as [|[m o] l IH]; [done|]. cbn [fmap list_fmap concat fst]. intros ND. apply NoDup_cons in ND as [Ni ND]. assert (named_app : forall a b, named n (a ++ b) = named n a ++ named n b) by (intros; unfold named; by rewrite filter_app, fmap_app).
    rewrite named_app, Hn, IH by done. cbn [list_find fst]. destruct (decide (m = n)) as [->|E]; [rewrite bool_decide_eq_true_2 by done|rewrite bool_decide_eq_false_2 by done; cbn [app]; by destruct (list_find _ l) as [[? ?]|]].
    destruct (list_find (fun x => x.1 = n) l) as [[j [k o']]|] eqn:Ef; cbn; [|by rewrite app_nil_r]. apply list_find_Some in Ef as (Ej & Ek & _). cbn in Ek. subst k. exfalso. apply Ni.
    apply list_elem_of_fmap. exists (n, o'). split; [done|]. by eapply list_elem_of_lookup_2. }
  intros ND. rewrite (G _ ND). destruct (list_find (fun x => x.1 = n) (section_options c s)) as [[j [k o']]|] eqn:Ef; cbn.
  - apply list_find_Some in Ef as (Ej & Ek & _). cbn in Ek. subst k. apply list_elem_of_lookup_2 in Ej. apply Hel in Ej. by rewrite Ej.
  - apply list_find_None in Ef. destruct (lookup_option c s n) as [o|] eqn:L; [|done]. apply Hel in L. rewrite Forall_forall in Ef. by apply Ef in L.
Qed.

(** The same definitions before any value is read *)
Definition clear_values c : Config := set_definitions ((fun defs : gmap (list Z) Ptr => (fun o => with_parsed o []) <$> defs) <$> m_definitions c) c.
Lemma lookup_clear_values c s n : lookup_option (clear_values c) s n = (fun o => with_parsed o []) <$> lookup_option c s n.
Proof. unfold lookup_option, clear_values. cbn [set_definitions m_definitions]. rewrite lookup_fmap. destruct (m_definitions c !! s) as [defs|]; [|done]. cbn. by rewrite lookup_fmap. Qed.
Lemma clear_values_wf c : wf_config c -> wf_config (clear_values c).
Proof.
  intros [[W1 W1'] W2 W3]. split.
  - split; [exact W1|]. intros s. cbn [clear_values set_definitions m_sectionOrdering m_definitions]. rewrite W1', lookup_fmap. by rewrite fmap_is_Some.
  - intros s. cbn [clear_values set_definitions m_definitionOrdering m_definitions]. rewrite lookup_fmap. specialize (W2 s). destruct (m_definitions c !! s) as [defs|]; [|exact W2]. cbn.
    destruct W2 as (l & E & ND & Hl). exists l. split; [done|]. split; [done|]. intros n. by rewrite Hl, lookup_fmap, fmap_is_Some.
  - intros s n o. rewrite lookup_clear_values. destruct (lookup_option c s n) as [o'|] eqn:L; [|done]. intros [= <-]. destruct (W3 _ _ _ L) as (? & ? & _). split; [done|]. split; [done|]. intros _. cbn. lia.
Qed.
(** Values that are read as what was written *)
Definition values_ok c : Prop := forall s n o, lookup_option c s n = Some o -> Forall (fun v => fromString (to_string v) = Some v) (parsedValues (opt o)).
Lemma omap_read o l : Forall (fun v => fromString (to_string v) = Some v) l -> omap (fromString (T := opt_T o)) (to_string <$> l) = l.
Proof. induction 1 as [|v l Hv F IH]; [done|]. cbn. cbn in Hv. rewrite Hv. by rewrite IH. Qed.

End Order.

(** ** Required options *)

Lemma visit_each_unit {X} (f : X -> unit -> error + unit) l : visit_each f l tt = inr tt <-> Forall (fun x => f x tt = inr tt) l.
Proof.
  induction l as [|x l IH]; [split; [constructor|done]|]. rewrite Forall_cons, <- IH. cbn. destruct (f x tt) as [e|[]]; [|tauto]. split; [done|]. by intros [? _].
Qed.
(** The test of the required options passes exactly when each of them has a value. *)
Lemma required_checked c : wf_config c ->
  validateRequiredFields c = inr tt <-> forall s n o, lookup_option c s n = Some o -> required (opt o) = true -> parsedValues (opt o) <> [].
Proof.
  intros W. unfold validateRequiredFields. rewrite visitSections_wf, visit_each_unit, Forall_forall by done.
  assert (Hs : forall s, is_Some (m_definitions c !! s) -> visitDefinitions s (fun _ def u =>
    if required (opt def) && bool_decide (getNumberFound (opt def) < 1)%nat then inl (RequiredMissing s (name (opt def))) else inr u) c tt = inr tt <->
    forall n o, lookup_option c s n = Some o -> required (opt o) = true -> parsedValues (opt o) <> []).
  { intros s D. rewrite visitDefinitions_wf, visit_each_unit, Forall_forall by done. unfold getNumberFound. split.
    - intros F n o Lo R. specialize (F (n, o)). rewrite section_options_elem in F by done. specialize (F Lo). cbn in F. rewrite R in F. intros E. by rewrite E in F.
    - intros F [n o]. rewrite section_options_elem by done. intros Lo. cbn. destruct (required (opt o)) eqn:R; [|done]. specialize (F n o Lo R). by destruct (parsedValues (opt o)). }
  split.
  - intros F s n o Lo. assert (D : is_Some (m_definitions c !! s)) by (unfold lookup_option in Lo; by destruct (m_definitions c !! s)). apply (proj1 (Hs s D) (F s (proj2 (proj2 (wf_sections c W) s) D)) n o Lo).
  - intros F s Hin. apply Hs; [by apply (wf_sections c W)|]. intros n o. apply F.
Qed.
(** An option that has its one value refuses another: overrides and defaults cannot
    replace the value of the configuration file. *)
Lemma override_refused c a s n o v : lookup_option c s n = Some o -> multiValued (opt o) = false -> parsedValues (opt o) <> [] ->
  addConfigValue s n v (c, a) = inl (DuplicateValue (name (opt o))).
Proof.
  intros Lo M N. unfold lookup_option in Lo. unfold addConfigValue. destruct (m_definitions c !! s) as [defs|]; [|done]. cbn in Lo. rewrite Lo. unfold ptr_parseValue, parseValue. rewrite M.
  by destruct (parsedValues (opt o)).
Qed.
(** A required option without a value is written as a comment. *)
Lemma required_written_as_comment u c s n o : required (opt o) = true -> defaultValues (opt o) = [] -> parsedValues (opt o) = [] -> hidden (opt o) = false -> option_comments c s n = [] ->
  option_text u c s n o = [ch_newline; ch_hash] ++ n ++ [ch_equals; ch_newline].
Proof.
  intros R D P Hh C. unfold option_text, getNumberFound, defaultValuesAsString. rewrite R, D, P, Hh, C. cbn [length]. destruct u; cbn; by rewrite <- app_assoc.
Qed.
End Proofs.

#[local] Instance demo_hash_order : HashOrder := {| in_order V m := map_to_list m; values_in_order l := l |}.
#[local] Instance demo_hash_order_spec : HashOrderSpec.
Proof. by split. Qed.
(** [[s] k=v], an option of strings *)
Definition demo_option : OptionDefinition_ptr (A := unit) := mkPtr (list Z) string_option (mkOption [115] [107] false false false false false false [[33]] [[100]] [] None).
Definition demo_config : ConfigDefinition (A := unit) :=
  match sbind (defineOption demo_option (ConfigDefinition_new false)) (fun c => addConfigValue [115] [107] [118] (c, tt)) with inr (c, _) => c | inl _ => ConfigDefinition_new false end.
Lemma demo_lookup s n : lookup_option demo_config s n = if bool_decide ([115] = s /\ [107] = n) then Some (with_parsed demo_option [[118]]) else None.
Proof.
  assert (m_definitions demo_config = {[ [115] := {[ [107] := with_parsed demo_option [[118]] ]} ]}) as E by (vm_compute; reflexivity). unfold lookup_option. rewrite E.
  destruct (decide ([115] = s)) as [<-|N]; [rewrite lookup_singleton_eq|rewrite lookup_singleton_ne, bool_decide_eq_false_2 by naive_solver; done]. cbn [mbind option_bind].
  destruct (decide ([107] = n)) as [<-|N]; [rewrite lookup_singleton_eq, bool_decide_eq_true_2 by done; done|rewrite lookup_singleton_ne, bool_decide_eq_false_2 by naive_solver; done].
Qed.
Lemma demo_config_wf : wf_config demo_config.
Proof.
  destruct (defineOption demo_option (ConfigDefinition_new false)) as [e|c] eqn:E1; [by vm_compute in E1|]. destruct (addConfigValue [115] [107] [118] (c, tt)) as [e|[c' []]] eqn:E2.
  - exfalso. vm_compute in E1. injection E1 as <-. by vm_compute in E2.
  - unfold demo_config. rewrite E1. cbn [sbind]. rewrite E2. eapply addConfigValue_wf; [|exact E2]. eapply defineOption_wf; [apply wf_new| |exact E1]. done.
Qed.
