(* ===== verification/Reachability.v ===== *)
(** * Reachability tests ([llarp/consensus/reachability_testing.cpp])

    Which master nodes are tested next, and the tests the router makes of them
    ([router.cpp], in [Run]).  Times are nanoseconds of the steady clock; the random
    interval of a call, the shuffled list and the time are its arguments. *)

From S2P Require Import Prelude.
Open Scope Z_scope.

Abbreviation RouterID := (list Z).
Definition second : Z := 1000000000.
Definition TESTING_BACKOFF : Z := 10 * second.
Definition TESTING_BACKOFF_MAX : Z := 120 * second.
Definition MAX_RETESTS_PER_TICK : nat := 4.
Definition MAX_TIME_WITHOUT_PING : Z := 120 * second.
Definition WHINING_INTERVAL : Z := 120 * second.

Record FailingPK := mkFailing { f_pk : RouterID; retest_time : Z; f_failures : Z }.
(** [std::priority_queue] with [nth_greater] of the time: [top] and [pop] take an entry
    of the least time; which of several is not fixed. *)
Class RetestQueue := rq_take : list FailingPK -> option (FailingPK * list FailingPK).
Class RetestQueueSpec `{RetestQueue} : Prop := {
  rq_take_nil : rq_take [] = None;
  rq_take_cons e q : exists x r, rq_take (e :: q) = Some (x, r) /\ e :: q ≡ₚ x :: r /\ Forall (fun y => retest_time x <= retest_time y) (e :: q) }.

Record incoming_test_state := mkIncoming { last_test : Z; last_whine : Z; was_failing : bool }.
Record reachability_testing := mkReachability {
  testing_queue : list RouterID;
  next_general_test : Z;
  startup : Z;
  failing_queue : list FailingPK;
  failing : gset RouterID;
  last_ : incoming_test_state }.
Definition rt_testing_queue (v : list RouterID) (r : reachability_testing) : reachability_testing :=
  mkReachability v (next_general_test r) (startup r) (failing_queue r) (failing r) (last_ r).
Definition rt_next (v : Z) (r : reachability_testing) : reachability_testing :=
  mkReachability (testing_queue r) v (startup r) (failing_queue r) (failing r) (last_ r).
Definition rt_failing_queue (v : list FailingPK) (r : reachability_testing) : reachability_testing :=
  mkReachability (testing_queue r) (next_general_test r) (startup r) v (failing r) (last_ r).
Definition rt_failing (v : gset RouterID) (r : reachability_testing) : reachability_testing :=
  mkReachability (testing_queue r) (next_general_test r) (startup r) (failing_queue r) v (last_ r).
Definition rt_last (v : incoming_test_state) (r : reachability_testing) : reachability_testing :=
  mkReachability (testing_queue r) (next_general_test r) (startup r) (failing_queue r) (failing r) v.
Definition reachability_new (now : Z) : reachability_testing := mkReachability [] (- 2 ^ 63) now [] ∅ (mkIncoming 0 0 false).

(** Whether we were tested; [true] in place of the lines in the log *)
Definition check_incoming_tests (now : Z) (r : reachability_testing) : bool * reachability_testing :=
  let incoming := last_ r in
  let elapsed := now - Z.max (startup r) (last_test incoming) in
  let failing := MAX_TIME_WITHOUT_PING <? elapsed in
  let whine := negb (Bool.eqb failing (was_failing incoming)) || (failing && (WHINING_INTERVAL <? now - last_whine incoming)) in
  (whine, rt_last (mkIncoming (last_test incoming) (if whine then now else last_whine incoming) failing) r).
Definition incoming_ping (now : Z) (r : reachability_testing) : reachability_testing :=
  rt_last (mkIncoming now (last_whine (last_ r)) (was_failing (last_ r))) r.

(** The queue is taken from its back; [l] is the queue the other way round. *)
Fixpoint take_back (my_pk : RouterID) (failing : gset RouterID) (l : list RouterID) : option RouterID * list RouterID :=
  match l with
  | [] => (None, [])
  | pk :: l => if bool_decide (pk <> my_pk /\ pk ∉ failing) then (Some pk, l) else take_back my_pk failing l
  end.
(** What a tick is given: the time, our key, two random intervals in nanoseconds, the
    whitelist in the order of the shuffle, and the interval drawn for a router that fails
    at once *)
Record TestEnv := mkTestEnv { te_now : Z; te_pubkey : RouterID; te_interval : Z; te_interval_again : Z; te_shuffled : list RouterID; te_backoff : RouterID -> Z }.
Definition next_random_once (now interval : Z) (my_pk : RouterID) (r : reachability_testing) : option (option RouterID) * reachability_testing :=
  if now <? next_general_test r then (Some None, r)
  else
    let r := rt_next (now + interval) r in
    let '(sn, l) := take_back my_pk (failing r) (reverse (testing_queue r)) in
    let r := rt_testing_queue (reverse l) r in
    match sn with Some pk => (Some (Some pk), r) | None => (None, r) end.
Definition next_random (e : TestEnv) (r : reachability_testing) : option RouterID * reachability_testing :=
  let '(res, r) := next_random_once (te_now e) (te_interval e) (te_pubkey e) r in
  match res with
  | Some res => (res, r)
  | None =>
      let r := rt_testing_queue (te_shuffled e) r in
      let '(res, r) := next_random_once (te_now e) (te_interval_again e) (te_pubkey e) r in
      (default None res, r)
  end.

Section Tests.
Context `{RetestQueue}.

Fixpoint failing_loop (fuel : nat) (now : Z) (failing : gset RouterID) (q : list FailingPK) (result : list (RouterID * Z)) : outcome (list (RouterID * Z) * list FailingPK) :=
  match fuel with
  | O => Timeout
  | S fuel =>
      if bool_decide (length result < MAX_RETESTS_PER_TICK)%nat then
        match rq_take q with
        | None => Done (result, q)
        | Some (x, rest) =>
            if now <? retest_time x then Done (result, q)
            else failing_loop fuel now failing rest (if bool_decide (f_pk x ∈ failing) then result ++ [(f_pk x, f_failures x)] else result)
        end
      else Done (result, q)
  end.
Definition get_failing (now : Z) (r : reachability_testing) : outcome (list (RouterID * Z) * reachability_testing) :=
  let! (result, q) := failing_loop (S (length (failing_queue r))) now (failing r) (failing_queue r) [] in
  Done (result, rt_failing_queue q r).
(** [interval] is the random number of nanoseconds, [now] the steady clock. *)
Definition add_failing_node (now interval : Z) (pk : RouterID) (previous_failures : Z) (r : reachability_testing) : reachability_testing :=
  let previous_failures := if previous_failures <? 0 then 0 else previous_failures in
  let next_test_in := previous_failures * TESTING_BACKOFF + interval in
  let next_test_in := if TESTING_BACKOFF_MAX <? next_test_in then TESTING_BACKOFF_MAX else next_test_in in
  rt_failing_queue (failing_queue r ++ [mkFailing pk (now + next_test_in) (previous_failures + 1)]) (rt_failing ({[pk]} ∪ failing r) r).
Definition remove_node_from_failing (pk : RouterID) (r : reachability_testing) : reachability_testing := rt_failing (failing r ∖ {[pk]}) r.

(** ** The tests of the router *)

(** The tests whose session is still being made, with the failures before *)
Record Testing := mkTesting { tests : reachability_testing; outstanding : list (RouterID * Z) }.
Definition session_result (now interval : Z) (router : RouterID) (previous_fails : Z) (established : bool) (r : reachability_testing) : reachability_testing :=
  if negb established then add_failing_node now interval router previous_fails r else remove_node_from_failing router r.
(** A test: [at_once] is the result the session maker reports before it returns, if it does. *)
Fixpoint run_tests (now : Z) (interval : RouterID -> Z) (allowed : RouterID -> bool) (at_once : RouterID -> option bool) (l : list (RouterID * Z)) (t : Testing) : Testing :=
  match l with
  | [] => t
  | (router, fails) :: l =>
      let t :=
        if negb (allowed router) then mkTesting (remove_node_from_failing router (tests t)) (outstanding t)
        else
          match at_once router with
          | Some ok => mkTesting (session_result now (interval router) router fails ok (tests t)) (outstanding t)
          | None => mkTesting (tests t) (outstanding t ++ [(router, fails)])
          end in
      run_tests now interval allowed at_once l t
  end.
Definition testing_tick (e : TestEnv) (allowed : RouterID -> bool) (at_once : RouterID -> option bool) (t : Testing) : outcome Testing :=
  let! (l, r) := get_failing (te_now e) (tests t) in
  let '(maybe, r) := next_random e r in
  let l := match maybe with Some pk => l ++ [(pk, 0)] | None => l end in
  Done (run_tests (te_now e) (te_backoff e) allowed at_once l (mkTesting r (outstanding t))).
(** The result of the [n]th outstanding test *)
Definition test_finished (now interval : Z) (n : nat) (established : bool) (t : Testing) : Testing :=
  match outstanding t !! n with
  | None => t
  | Some (router, fails) => mkTesting (session_result now interval router fails established (tests t)) (delete n (outstanding t))
  end.
Inductive test_step : Testing -> Testing -> Prop :=
  | step_tick e allowed at_once t t' : testing_tick e allowed at_once t = Done t' -> test_step t t'
  | step_finished now interval n ok t : test_step t (test_finished now interval n ok t)
  | step_ping now t : test_step t (mkTesting (incoming_ping now (tests t)) (outstanding t))
  | step_check now t : test_step t (mkTesting (check_incoming_tests now (tests t)).2 (outstanding t)).
End Tests.

(** ** Failing routers are tested again *)

Section Retests.
Context `{RetestQueueSpec}.

Definition queued (pk : RouterID) (q : list FailingPK) : Prop := exists x, x ∈ q /\ f_pk x = pk.
Definition tested (pk : RouterID) (l : list (RouterID * Z)) : Prop := exists n, (pk, n) ∈ l.
(** A router that failed waits in the queue or is being tested. *)
Definition tracked (t : Testing) : Prop := forall pk, pk ∈ failing (tests t) -> queued pk (failing_queue (tests t)) \/ tested pk (outstanding t).
Lemma failing_loop_spec fuel now f q result : (length q < fuel)%nat ->
  exists popped q', failing_loop fuel now f q result = Done (result ++ ((fun x => (f_pk x, f_failures x)) <$> filter (fun x => f_pk x ∈ f) popped), q') /\
    q ≡ₚ popped ++ q' /\ ((length result + length popped < MAX_RETESTS_PER_TICK)%nat -> Forall (fun x => now < retest_time x) q').
Proof.
  revert q result. induction fuel as [|fuel IH]; intros q result L; [lia|]. cbn [failing_loop]. case_bool_decide as Hr.
  2:{ exists [], q. rewrite app_nil_r. split; [done|]. split; [done|]. cbn. lia. }
  destruct q as [|e q]; [rewrite rq_take_nil; exists [], []; rewrite app_nil_r; split; [done|]; split; [done|]; constructor|].
  destruct (rq_take_cons e q) as (x & r & -> & P & F). destruct (Z.ltb_spec now (retest_time x)) as [Hx|Hx].
  - exists [], (e :: q). rewrite app_nil_r. split; [done|]. split; [done|]. intros _. eapply Forall_impl; [exact F|]. cbn. lia.
  - assert (Lr : (length r < fuel)%nat) by (apply Permutation_length in P; cbn in *; lia).
    destruct (IH r (if bool_decide (f_pk x ∈ f) then result ++ [(f_pk x, f_failures x)] else result) Lr) as (popped & q' & E & Pq & D). exists (x :: popped), q'.
    split; [|split; [by rewrite P, Pq|]].
    + rewrite E. case_bool_decide as Hf; [rewrite filter_cons_True by done; cbn [fmap list_fmap]; by rewrite <- app_assoc|by rewrite filter_cons_False].
    + cbn [length]. intros Hl. apply D. case_bool_decide; rewrite ?length_app; cbn; lia.
Qed.
Lemma take_back_spec me f l : let '(sn, _) := take_back me f l in forall pk, sn = Some pk -> pk ∉ f.
Proof. induction l as [|pk l IH]; cbn; [done|]. case_bool_decide as E; [|exact IH]. intros ? [= <-]. apply E. Qed.
Lemma next_random_once_frame now iv me r : let '(res, r') := next_random_once now iv me r in
  failing r' = failing r /\ failing_queue r' = failing_queue r /\ forall pk, res = Some (Some pk) -> pk ∉ failing r.
Proof.
  unfold next_random_once. destruct (now <? next_general_test r); [done|]. pose proof (take_back_spec me (failing r) (reverse (testing_queue r))) as T. cbn [rt_next failing].
  cbn [rt_next testing_queue] in *. destruct (take_back _ _ _) as [[pk|] l]; (split; [done|]; split; [done|]); [|done]. intros ? [= <-]. by apply T.
Qed.
Lemma next_random_frame e r : let '(res, r') := next_random e r in failing r' = failing r /\ failing_queue r' = failing_queue r /\ forall pk, res = Some pk -> pk ∉ failing r.
Proof.
  unfold next_random. pose proof (next_random_once_frame (te_now e) (te_interval e) (te_pubkey e) r) as F. destruct (next_random_once _ _ _ r) as [[res|] r1].
  - destruct F as (F1 & F2 & F3). split; [done|]. split; [done|]. intros pk ->. by apply F3.
  - destruct F as (F1 & F2 & _). pose proof (next_random_once_frame (te_now e) (te_interval_again e) (te_pubkey e) (rt_testing_queue (te_shuffled e) r1)) as G.
    destruct (next_random_once _ _ _ (rt_testing_queue _ r1)) as [res r2]. destruct G as (G1 & G2 & G3). cbn [rt_testing_queue failing failing_queue] in *. split; [congruence|]. split; [congruence|].
    intros pk Hp. rewrite <- F1. apply G3. destruct res as [res|]; [|done]. by f_equal.
Qed.
Lemma run_tests_tracked now iv allowed at_once l t : (forall pk, pk ∈ failing (tests t) -> queued pk (failing_queue (tests t)) \/ tested pk (outstanding t) \/ tested pk l) ->
  tracked (run_tests now iv allowed at_once l t).
Proof.
  revert t. induction l as [|[pk n] l IH]; intros t T; cbn [run_tests].
  - intros pk Hp. destruct (T pk Hp) as [?|[?|[n Hn]]]; [by left|by right|set_solver].
  - apply IH. intros p. assert (G : p <> pk -> tested p ((pk, n) :: l) -> tested p l) by (intros N [k Hk]; apply elem_of_cons in Hk as [[= -> _]|Hk]; [done|by exists k]).
    destruct (negb (allowed pk)); [|destruct (at_once pk) as [[]|]]; cbn [tests outstanding session_result remove_node_from_failing add_failing_node rt_failing rt_failing_queue failing failing_queue negb].
    + rewrite elem_of_difference, elem_of_singleton. intros [Hp N]. destruct (T p Hp) as [?|[?|?]]; naive_solver.
    + rewrite elem_of_difference, elem_of_singleton. intros [Hp N]. destruct (T p Hp) as [?|[?|?]]; naive_solver.
    + rewrite elem_of_union, elem_of_singleton. destruct (decide (p = pk)) as [->|N]; [intros _; left; eexists; rewrite elem_of_app, list_elem_of_singleton; split; [by right|done]|].
      intros [->|Hp]; [done|]. destruct (T p Hp) as [(x & Hx & E)|[?|?]]; [left; exists x; set_solver|naive_solver..].
    + intros Hp. destruct (T p Hp) as [?|[[k Hk]|Ht]]; [by left|right; left; exists k; set_solver|]. destruct (decide (p = pk)) as [->|N]; [right; left; exists n; set_solver|right; right; by apply G].
Qed.
Lemma tick_spec e allowed at_once t : tracked t -> exists t', testing_tick e allowed at_once t = Done t' /\ tracked t'.
Proof.
  intros T. unfold testing_tick, get_failing. destruct (failing_loop_spec (S (length (failing_queue (tests t)))) (te_now e) (failing (tests t)) (failing_queue (tests t)) []) as (popped & q' & -> & P & _); [lia|]. cbn [obind app].
  pose proof (next_random_frame e (rt_failing_queue q' (tests t))) as F. destruct (next_random e _) as [maybe r]. destruct F as (F1 & F2 & F3). eexists. split; [reflexivity|]. apply run_tests_tracked. cbn [tests outstanding].
  rewrite F1, F2. cbn [rt_failing_queue failing failing_queue]. intros pk Hp. destruct (T pk Hp) as [(x & Hx & E)|Ho]; [|by right; left]. rewrite P in Hx. apply elem_of_app in Hx as [Hx|Hx]; [|left; by exists x].
  right. right. exists (f_failures x). assert (In : (pk, f_failures x) ∈ (fun x => (f_pk x, f_failures x)) <$> filter (fun x => f_pk x ∈ failing (tests t)) popped).
  { apply list_elem_of_fmap. exists x. split; [by rewrite E|]. apply list_elem_of_filter. split; [by rewrite E|done]. }
  destruct maybe; [apply elem_of_app; by left|exact In].
Qed.
Lemma step_tracked t t' : test_step t t' -> tracked t -> tracked t'.
Proof.
  intros S T. destruct S as [e allowed at_once t t' E|now iv n ok t|now t|now t]; [destruct (tick_spec e allowed at_once t T) as (t2 & E2 & T2); rewrite E in E2; by injection E2 as ->| |exact T|exact T].
  unfold test_finished. destruct (outstanding t !! n) as [[pk k]|] eqn:En; [|done]. intros p.
  assert (G : p <> pk -> tested p (outstanding t) -> tested p (delete n (outstanding t))).
  { intros N [j Hj]. exists j. apply list_elem_of_lookup in Hj as [i Hi]. assert (i <> n) by congruence. apply list_elem_of_lookup. destruct (decide (i < n)%nat); [exists i; by rewrite list_lookup_delete_lt|exists (i - 1)%nat].
    rewrite list_lookup_delete_ge by lia. by replace (S (i - 1)) with i by lia. }
  destruct ok; cbn [tests outstanding session_result remove_node_from_failing add_failing_node rt_failing rt_failing_queue failing failing_queue negb].
  - rewrite elem_of_difference, elem_of_singleton. intros [Hp N]. destruct (T p Hp); naive_solver.
  - rewrite elem_of_union, elem_of_singleton. destruct (decide (p = pk)) as [->|N]; [intros _; left; eexists; rewrite elem_of_app, list_elem_of_singleton; split; [by right|done]|].
    intros [->|Hp]; [done|]. destruct (T p Hp) as [(x & Hx & E)|?]; [left; exists x; set_solver|naive_solver].
Qed.
Lemma reachable_tracked now t : rtc test_step (mkTesting (reachability_new now) []) t -> tracked t.
Proof.
  intros R. assert (tracked (mkTesting (reachability_new now) [])) as T by (intros pk Hp; cbn in Hp; set_solver).
  induction R as [|x y z S R IH]; [done|]. apply IH. by eapply step_tracked.
Qed.
(** Ticks whose sessions are not made before they return *)
Fixpoint run_ticks (l : list (TestEnv * (RouterID -> bool))) (t : Testing) : outcome Testing :=
  match l with
  | [] => Done t
  | (e, allowed) :: l => let! t := testing_tick e allowed (fun _ => None) t in run_ticks l t
  end.
Lemma run_tests_queue now iv allowed l t : failing_queue (tests (run_tests now iv allowed (fun _ => None) l t)) = failing_queue (tests t).
Proof. revert t. induction l as [|[pk n] l IH]; intros t; [done|]. cbn [run_tests]. rewrite IH. by destruct (negb (allowed pk)). Qed.
Lemma tick_drains e allowed t t' : testing_tick e allowed (fun _ => None) t = Done t' -> Forall (fun x => retest_time x <= te_now e) (failing_queue (tests t)) ->
  exists popped, failing_queue (tests t) ≡ₚ popped ++ failing_queue (tests t') /\ (MAX_RETESTS_PER_TICK <= length popped \/ failing_queue (tests t') = [])%nat.
Proof.
  unfold testing_tick, get_failing. destruct (failing_loop_spec (S (length (failing_queue (tests t)))) (te_now e) (failing (tests t)) (failing_queue (tests t)) []) as (popped & q' & -> & P & D); [lia|]. cbn [obind app].
  pose proof (next_random_frame e (rt_failing_queue q' (tests t))) as F. destruct (next_random e _) as [maybe r]. destruct F as (_ & F2 & _). intros [= <-] Due. exists popped. rewrite run_tests_queue. cbn [tests]. rewrite F2. cbn [rt_failing_queue failing_queue].
  split; [done|]. cbn [length] in D. destruct (decide (MAX_RETESTS_PER_TICK <= length popped)%nat) as [|N]; [by left|right]. specialize (D ltac:(lia)). rewrite P in Due. apply Forall_app in Due as [_ Due].
  destruct q' as [|x q']; [done|]. apply Forall_cons in D as [D _], Due as [Due _]. cbn in Due. lia.
Qed.


(** With nothing left to test the queue is filled again, but the call that fills it
    returns no router: the time of the next test has just been set. *)
Lemma requeue_returns_nothing e r : next_general_test r <= te_now e -> 0 < te_interval e ->
  Forall (fun pk => pk = te_pubkey e \/ pk ∈ failing r) (testing_queue r) ->
  (next_random e r).1 = None /\ testing_queue (next_random e r).2 = te_shuffled e.
Proof.
  intros Hn Hi F. assert (next_random_once (te_now e) (te_interval e) (te_pubkey e) r = (None, rt_testing_queue [] (rt_next (te_now e + te_interval e) r))) as E.
  { unfold next_random_once. rewrite (proj2 (Z.ltb_ge _ _)) by lia. cbn [rt_next failing testing_queue]. replace (take_back _ _ _) with (@None RouterID, @nil RouterID); [done|]. symmetry.
    assert (F' : Forall (fun pk => pk = te_pubkey e \/ pk ∈ failing r) (reverse (testing_queue r))) by (by apply Forall_reverse). induction F' as [|pk l Hpk F' IH]; [done|]. cbn. rewrite bool_decide_eq_false_2 by naive_solver. exact IH. }
  unfold next_random. rewrite E. unfold next_random_once. cbn [rt_testing_queue rt_next next_general_test]. rewrite (proj2 (Z.ltb_lt _ _)) by lia. done.
Qed.
End Retests.

Fixpoint least_retest (e : FailingPK) (q : list FailingPK) : FailingPK * list FailingPK :=
  match q with
  | [] => (e, [])
  | x :: q => let '(m, r) := least_retest e q in if retest_time x <? retest_time m then (x, m :: r) else (m, x :: r)
  end.
#[local] Instance demo_retests : RetestQueue := fun q => match q with [] => None | e :: q => Some (least_retest e q) end.
#[local] Instance demo_retests_spec : RetestQueueSpec.
Proof.
  split; [done|]. intros e q. assert (L : forall q, e :: q ≡ₚ (least_retest e q).1 :: (least_retest e q).2 /\ Forall (fun y => retest_time (least_retest e q).1 <= retest_time y) (e :: q)).
  { clear q. induction q as [|x q [P F]]; cbn [least_retest]; [split; [done|]; constructor; [cbn; lia|constructor]|]. destruct (least_retest e q) as [m r]. cbn [fst snd] in *. apply Forall_cons in F as [F1 F2]. cbn beta in F1.
    destruct (Z.ltb_spec (retest_time x) (retest_time m)); cbn [fst snd]; (split; [|repeat (apply Forall_cons; split; [cbn beta; lia|]); (eapply Forall_impl; [exact F2|]); cbn beta; intros; lia]).
    - rewrite Permutation_swap, P. done.
    - rewrite Permutation_swap, P. apply Permutation_swap. }
  exists (least_retest e q).1, (least_retest e q).2. split; [unfold rq_take, demo_retests; by destruct (least_retest e q)|]. apply L.
Qed.
(** A router whose first test fails *)
Definition demo_env (now : Z) : TestEnv := mkTestEnv now [0] second second [[1]; [0]] (fun _ => second).
Definition demo_first : Testing := mkTesting (reachability_new 0) [].
Definition demo_failed : Testing :=
  let run t k := match testing_tick (demo_env k) (fun _ => true) (fun _ => None) t with Done t => t | _ => t end in
  test_finished (3 * second) second 0 false (run (run demo_first 0) (2 * second)).
