(* ===== verification/Gossip.v ===== *)
(** * Gossip of router contacts ([llarp/router/rc_gossiper.cpp])

    Which contacts a router passes on, to whom and how often.  Times are milliseconds.
    The sessions of the links are given as they are when the gossiper visits them, and
    [sample] is the choice of [std::sample] among the keys it is given. *)

From S2P Require Import Prelude Buffer Bencode Codec Iwp Decaying Path PathBuild LinkMessages Dht DhtTx DhtContext DhtMessages.
Open Scope Z_scope.

Definition minute : Z := 60000.
Definition RCGossipFilterDecayInterval : Z := 30 * minute.
Definition GossipOurRCInterval : Z := RCGossipFilterDecayInterval * 2 - 5 * minute.
Definition MaxGossipPeers : nat := 20.

Record PeerSession := mkPeer { ps_established : bool; ps_rc : RouterContact; ps_pubkey : Key }.
Record RCGossiper := mkGossiper { m_OurRouterID : Key; m_LastGossipedOurRC : Z; m_LinkManager : bool; m_Filter : DecayingHashSet.t Key }.
Definition RCGossiper_new : RCGossiper := mkGossiper [] 0 false (DecayingHashSet.new RCGossipFilterDecayInterval).
Definition gs_filter (f : DecayingHashSet.t Key) (g : RCGossiper) : RCGossiper := mkGossiper (m_OurRouterID g) (m_LastGossipedOurRC g) (m_LinkManager g) f.
Definition gs_last (t : Z) (g : RCGossiper) : RCGossiper := mkGossiper (m_OurRouterID g) t (m_LinkManager g) (m_Filter g).

Definition Init (ourID : Key) (g : RCGossiper) : RCGossiper := mkGossiper ourID (m_LastGossipedOurRC g) true (m_Filter g).
Definition ShouldGossipOurRC (now : Z) (g : RCGossiper) : bool := m_LastGossipedOurRC g + GossipOurRCInterval <=? now.
Definition IsOurRC (rc : RouterContact) (g : RCGossiper) : bool := bool_decide (pubkey rc = m_OurRouterID g).
Definition Decay (clock now : Z) (g : RCGossiper) : RCGossiper := gs_filter (DecayingHashSet.Decay clock now (m_Filter g)) g.
Definition Forget (pk : Key) (g : RCGossiper) : RCGossiper :=
  let g := gs_filter (DecayingHashSet.Remove pk (m_Filter g)) g in
  if bool_decide (m_OurRouterID g = pk) then gs_last 0 g else g.
Definition LastGossipAt (g : RCGossiper) : option Z := if m_LastGossipedOurRC g =? 0 then None else Some (m_LastGossipedOurRC g).
Definition NextGossipAt (now : Z) (g : RCGossiper) : Z := match LastGossipAt g with Some t => t + GossipOurRCInterval | None => now end.

Section Gossip.
Context `{BItem RouterContact} `{OxencDict}.
Context (IsPublicRouter : RouterContact -> bool).

Definition gossip_message (rc : RouterContact) : DHTImmediate (H := dht_messages) :=
  mkDHT (H := dht_messages) (mkBase None 0 PATHID0) [mkIMsg proto_version None (GRM key_zero 0 [rc] false)].
Definition encode_gossip (rc : RouterContact) : option (list Z) :=
  let '(ok, b) := DHT_BEncode (gossip_message rc) (Buf (replicate (Z.to_nat (MAX_LINK_MSG_SIZE / 2)) 0) 0) in
  if ok then Some (take (cur b) (base b)) else None.
Definition gossip_to (sessions : list PeerSession) : list Key :=
  pubkey ∘ ps_rc <$> filter (fun s => ps_established s = true /\ IsPublicRouter (ps_rc s) = true) sessions.
(** The messages that are sent, with the key of the session *)
Definition gossip_sent (sample : list Key -> list Key) (sessions : list PeerSession) (rc : RouterContact) : list (Key * list Z) :=
  let keys := sample (gossip_to sessions) in
  omap (fun s => if ps_established s && bool_decide (ps_pubkey s ∈ keys) then (fun m => (ps_pubkey s, m)) <$> encode_gossip rc else None) sessions.
Definition GossipRC (now : Z) (sample : list Key -> list Key) (sessions : list PeerSession) (rc : RouterContact) (g : RCGossiper) : bool * list (Key * list Z) * RCGossiper :=
  if negb (IsPublicRouter rc) then (false, [], g)
  else if negb (m_LinkManager g) then (false, [], g)
  else if DecayingHashSet.Contains (pubkey rc) (m_Filter g) then (false, [], g)
  else
    let g := gs_filter (DecayingHashSet.Insert now (pubkey rc) 0 (m_Filter g)).2 g in
    if IsOurRC rc g then
      if negb (ShouldGossipOurRC now g) then (false, [], g) else (true, gossip_sent sample sessions rc, gs_last now g)
    else (true, gossip_sent sample sessions rc, g).

(** ** The router's part *)

Record GossipEnv := mkGossipEnv {
  ge_now : Z;
  ge_disabled : bool;
  ge_master : bool;
  ge_uptime : Z;
  ge_start_delay : Z;
  ge_sample : list Key -> list Key;
  ge_sessions : list PeerSession }.
Definition GossipRCIfNeeded (e : GossipEnv) (rc : RouterContact) (g : RCGossiper) : bool * list (Key * list Z) * RCGossiper :=
  if ge_disabled e then (false, [], g)
  else if negb (ge_master e) then (false, [], g)
  else if ge_uptime e <? ge_start_delay e then (false, [], g)
  else GossipRC (ge_now e) (ge_sample e) (ge_sessions e) rc g.
(** The gossip of a tick: [renewed] when our contact was signed anew *)
Definition gossip_tick (e : GossipEnv) (renewed : bool) (shouldGossip : bool) (rc : RouterContact) (g : RCGossiper) : bool * list (Key * list Z) * RCGossiper :=
  let g := Decay (ge_now e) (ge_now e) g in
  let g := if renewed then Forget (pubkey rc) g else g in
  if renewed || shouldGossip then GossipRCIfNeeded e rc g else (false, [], g).

(** ** How often our contact goes out *)

(** Ticks that want our contact out, and contacts of others *)
Inductive gossip_event := OwnTick (e : GossipEnv) (rc : RouterContact) | OtherContact (e : GossipEnv) (rc : RouterContact).
Definition event_time (x : gossip_event) : Z := match x with OwnTick e _ | OtherContact e _ => ge_now e end.
(** The times our contact was gossiped *)
Fixpoint own_gossips (l : list gossip_event) (g : RCGossiper) : list Z :=
  match l with
  | [] => []
  | OwnTick e rc :: l => let '(ok, _, g) := gossip_tick e false true rc g in if ok then ge_now e :: own_gossips l g else own_gossips l g
  | OtherContact e rc :: l => let '(_, _, g) := GossipRCIfNeeded e rc g in own_gossips l g
  end.
Context (us : Key).
(** What the events are in a run of a master node after its start *)
Definition event_ok (x : gossip_event) : Prop :=
  match x with
  | OwnTick e rc => ge_disabled e = false /\ ge_master e = true /\ ge_start_delay e <= ge_uptime e /\ 0 < ge_now e /\ IsPublicRouter rc = true /\ pubkey rc = us
  | OtherContact e rc => 0 < ge_now e /\ pubkey rc <> us
  end.
(** Our entry of the filter and the time of the last gossip *)
Definition own_state (f t : Z) (g : RCGossiper) : Prop :=
  m_OurRouterID g = us /\ m_LinkManager g = true /\ m_LastGossipedOurRC g = t /\ DecayingHashSet.m_CacheInterval (m_Filter g) = RCGossipFilterDecayInterval /\
  DecayingHashSet.m_Values (m_Filter g) !! us = Some f.
Lemma other_keeps f t e rc g : pubkey rc <> us -> own_state f t g -> own_state f t (GossipRCIfNeeded e rc g).2.
Proof.
  intros N (O1 & O2 & O3 & O4 & O5). unfold GossipRCIfNeeded, GossipRC. destruct (ge_disabled e); [done|]. destruct (negb (ge_master e)); [done|]. destruct (_ <? _); [done|].
  destruct (negb (IsPublicRouter rc)); [done|]. destruct (negb (m_LinkManager g)); [done|]. destruct (DecayingHashSet.Contains _ _); [done|].
  unfold IsOurRC. cbn [gs_filter m_OurRouterID]. rewrite bool_decide_eq_false_2 by congruence. cbn [snd]. unfold DecayingHashSet.Insert. destruct (DecayingHashSet.m_Values (m_Filter g) !! pubkey rc); cbn; [done|].
  split; [done|]. split; [done|]. split; [done|]. split; [done|]. cbn. by rewrite lookup_insert_ne.
Qed.
Lemma decay_entry now g : now <> 0 -> DecayingHashSet.m_Values (m_Filter (Decay now now g)) !! us =
  match DecayingHashSet.m_Values (m_Filter g) !! us with Some f => if DecayingHashSet.m_CacheInterval (m_Filter g) + f <=? now then None else Some f | None => None end.
Proof.
  intros Hn. cbn [Decay gs_filter m_Filter]. unfold DecayingHashSet.Decay, DecayingHashSet.EraseIf, DecayingHashSet.or_clock. rewrite (proj2 (Z.eqb_neq _ _) Hn). cbn [DecayingHashSet.m_Values].
  destruct (DecayingHashSet.m_Values (m_Filter g) !! us) as [f|] eqn:E; [|by apply map_lookup_filter_None_2; left]. destruct (_ <=? _) eqn:El.
  - apply map_lookup_filter_None_2. right. intros x [= <-]%(eq_trans (eq_sym E)). cbn. congruence.
  - apply map_lookup_filter_Some_2; [done|]. done.
Qed.
(** A tick before the entry decays, one that renews the entry without a gossip, and one that gossips *)
Lemma own_tick f t e rc g : event_ok (OwnTick e rc) -> own_state f t g ->
  let '(ok, _, g') := gossip_tick e false true rc g in
  if ge_now e <? f + RCGossipFilterDecayInterval then ok = false /\ own_state f t g'
  else if ge_now e <? t + GossipOurRCInterval then ok = false /\ own_state (ge_now e) t g'
  else ok = true /\ own_state (ge_now e) (ge_now e) g'.
Proof.
  intros (D & M & U & Hn & P & K) (O1 & O2 & O3 & O4 & O5). unfold gossip_tick, GossipRCIfNeeded, GossipRC. cbn [orb]. rewrite D, M, P. cbn [negb]. rewrite (proj2 (Z.ltb_ge _ _)) by lia.
  pose proof (decay_entry (ge_now e) g ltac:(lia)) as E. rewrite O4, O5 in E. cbn [Decay gs_filter m_LinkManager]. rewrite O2. cbn [negb]. unfold DecayingHashSet.Contains. cbn [m_Filter gs_filter Decay] in E |- *. rewrite K, E.
  destruct (Z.ltb_spec (ge_now e) (f + RCGossipFilterDecayInterval)) as [Hf|Hf].
  - rewrite (proj2 (Z.leb_gt _ _)) by lia. rewrite bool_decide_eq_true_2 by (by eexists). split; [done|]. split; [done|]. split; [done|]. split; [done|]. split; [done|].
    cbn [Decay gs_filter m_Filter]. rewrite E. by rewrite (proj2 (Z.leb_gt _ _)) by lia.
  - rewrite (proj2 (Z.leb_le _ _)) in E |- * by lia. rewrite bool_decide_eq_false_2 by (by intros [? ?]). unfold IsOurRC. cbn [Decay gs_filter m_OurRouterID]. rewrite O1, bool_decide_eq_true_2 by done.
    unfold ShouldGossipOurRC. cbn [Decay gs_filter m_LastGossipedOurRC m_Filter]. rewrite O3. unfold DecayingHashSet.Insert. rewrite E. cbn [snd].
    destruct (Z.ltb_spec (ge_now e) (t + GossipOurRCInterval)) as [Ht|Ht]; [rewrite (proj2 (Z.leb_gt _ _)) by lia|rewrite (proj2 (Z.leb_le _ _)) by lia]; cbn [negb];
      (split; [done|]; repeat (split; [done|]); cbn; by rewrite lookup_insert_eq).
Qed.
(** Times go on, and a tick comes at least every [d] milliseconds: [p] is the last one. *)
Fixpoint ticking (d p : Z) (l : list gossip_event) : Prop :=
  match l with
  | [] => True
  | OwnTick e _ :: l => p <= ge_now e <= p + d /\ ticking d (ge_now e) l
  | OtherContact e _ :: l => ge_now e <= p + d /\ ticking d p l
  end.
Definition reaches (t : Z) (l : list gossip_event) : Prop := exists e rc, OwnTick e rc ∈ l /\ t <= ge_now e.
(** Up to the first tick at or after [f + RCGossipFilterDecayInterval] nothing changes. *)
Lemma until_decay d p l f t g : Forall event_ok l -> ticking d p l -> own_state f t g -> p < f + RCGossipFilterDecayInterval -> reaches (f + RCGossipFilterDecayInterval) l ->
  exists e rc l' g', own_gossips l g = own_gossips (OwnTick e rc :: l') g' /\ own_state f t g' /\ event_ok (OwnTick e rc) /\ Forall event_ok l' /\ ticking d (ge_now e) l' /\
    f + RCGossipFilterDecayInterval <= ge_now e < f + RCGossipFilterDecayInterval + d /\ forall T, ge_now e < T -> reaches T l -> reaches T l'.
Proof.
  revert p g. induction l as [|x l IH]; intros p g F C O Hp R; [destruct R as (e & rc & Hin & _); set_solver|]. apply Forall_cons in F as [Fx F]. destruct x as [e rc|e rc]; cbn [ticking] in C; destruct C as [C1 C2].
  - destruct (Z.ltb_spec (ge_now e) (f + RCGossipFilterDecayInterval)) as [Ht|Ht].
    + assert (R' : forall T, ge_now e < T -> reaches T (OwnTick e rc :: l) -> reaches T l).
      { intros T HT (e' & rc' & Hin & He). apply elem_of_cons in Hin as [[= <- <-]|Hin]; [lia|]. by exists e', rc'. }
      pose proof (own_tick f t e rc g Fx O) as S. destruct (gossip_tick e false true rc g) as [[ok out] g1] eqn:Eg. rewrite (proj2 (Z.ltb_lt _ _) Ht) in S. destruct S as [-> O1].
      destruct (IH (ge_now e) g1 F C2 O1 Ht (R' _ Ht R)) as (e' & rc' & l' & g' & E & O' & Fe & F' & C' & Te & R2). exists e', rc', l', g'. split; [cbn [own_gossips]; rewrite Eg; exact E|].
      repeat (split; [done|]). intros T HT RT. apply R2; [done|]. apply R'; [lia|done].
    + exists e, rc, l, g. split; [done|]. split; [done|]. split; [done|]. split; [done|]. split; [done|]. split; [lia|]. intros T HT (e' & rc' & Hin & He). apply elem_of_cons in Hin as [[= <- <-]|Hin]; [lia|]. by exists e', rc'.
  - assert (R' : forall T, reaches T (OtherContact e rc :: l) -> reaches T l) by (intros T (e' & rc' & Hin & He); exists e', rc'; set_solver).
    pose proof (other_keeps f t e rc g (proj2 Fx) O) as O1. destruct (GossipRCIfNeeded e rc g) as [[ok out] g1] eqn:Eg. cbn [snd] in O1.
    destruct (IH p g1 F C2 O1 Hp (R' _ R)) as (e' & rc' & l' & g' & E & O' & Fe & F' & C' & Te & R2). exists e', rc', l', g'. split; [cbn [own_gossips]; rewrite Eg; exact E|].
    repeat (split; [done|]). intros T HT RT. apply R2; [done|]. by apply R'.
Qed.


(** A contact counts as gossiped also when no peer is there to take it. *)
Lemma gossiped_to_nobody now sample rc g : IsPublicRouter rc = true -> m_LinkManager g = true -> DecayingHashSet.Contains (pubkey rc) (m_Filter g) = false ->
  IsOurRC rc g = true -> ShouldGossipOurRC now g = true -> exists g', GossipRC now sample [] rc g = (true, [], g') /\ m_LastGossipedOurRC g' = now.
Proof.
  intros P L C O S. unfold GossipRC. rewrite P, L, C. cbn [negb]. unfold IsOurRC in *. cbn [gs_filter m_OurRouterID]. rewrite O. unfold ShouldGossipOurRC in *. cbn [gs_filter m_LastGossipedOurRC]. rewrite S. cbn [negb].
  eexists. by split.
Qed.
End Gossip.

Definition demo_own : Key := replicate 32 1.
Definition demo_rc : RouterContact := mkContact demo_own 0 [].
Definition demo_gossip_env (now : Z) : GossipEnv := mkGossipEnv now false true 100 10 (fun l => take MaxGossipPeers l) [].
(** Ticks ten minutes apart for two hours, after a gossip at minute 10 *)
Definition demo_ticks : list gossip_event := (fun k => OwnTick (demo_gossip_env (Z.of_nat (20 + 10 * k) * minute)) demo_rc) <$> seq 0 12.
Definition demo_gossiper : RCGossiper :=
  mkGossiper demo_own (10 * minute) true (DecayingHashSet.mk RCGossipFilterDecayInterval {[ demo_own := 10 * minute ]}).
#[local] Instance demo_rc_item : BItem RouterContact := {| BEncode c b := write b (rc_rest c); BDecode b := Done (None, b) |}.
#[local] Instance demo_dict : OxencDict := {| bt_serialize_dict l := [] |}.
