(* ===== verification/Service.v ===== *)
(** * Messages of hidden services ([llarp/service/])

    Introductions ([intro.cpp]), service identities ([info.cpp], [identity.cpp]), the
    inner messages and the outer frames of a conversation ([protocol.cpp]), with their
    signatures.  Objects are decoded in place, and an object whose decoding failed keeps
    what was read.  The key encapsulation of [libntrup] is an interface. *)

From S2P Require Import Prelude Buffer Bencode Codec Crypto Path PathBuild LinkMessages.
Open Scope Z_scope.

(** ** Reading and writing fields *)

(** [if (not BEncodeMaybeRead...(field, read, key, buf)) return false;] *)
Definition field {M T} (m : M) (r : outcome (bool * T * bool * llarp_buffer_t)) (set : T -> M -> M)
    (k : M -> bool -> llarp_buffer_t -> outcome (bool * llarp_buffer_t * M)) : outcome (bool * llarp_buffer_t * M) :=
  let! (ok, x, read, b) := r in if negb ok then Done (false, b, set x m) else k (set x m) read b.
(** [BEncodeMaybeReadDictInt] of a duration, whose count is signed *)
Definition BEncodeMaybeReadDictTime (k : list Z) (i : Z) (read : bool) (key b : llarp_buffer_t) : outcome (bool * Z * bool * llarp_buffer_t) :=
  if startswith key k then
    let! (r, b) := bencode_read_integer b in
    match r with
    | None => Done (false, i, read, b)
    | Some read_i => Done (true, s64 read_i, true, b)
    end
  else Done (true, i, read, b).
Definition when (c : bool) (w : llarp_buffer_t -> bool * llarp_buffer_t) (b : llarp_buffer_t) : bool * llarp_buffer_t := if c then w b else (true, b).
(** What a [BEncode] writes to an array of [n] bytes on the stack *)
Definition encode (n : nat) (w : llarp_buffer_t -> bool * llarp_buffer_t) : option (list Z) :=
  let '(ok, b) := w (Buf (replicate n 0) 0) in if ok then Some (take (cur b) (base b)) else None.
(** [AlignedBuffer::IsZero] *)
Definition IsZero (x : list Z) : bool := forallb (Z.eqb 0) x.
Definition zero (n : nat) : list Z := replicate n 0.
Definition SIGSIZE : nat := 64.
Definition PQ_CIPHERTEXTSIZE : nat := 1047.
Definition PQCipherBlock_SIZE : nat := S PQ_CIPHERTEXTSIZE.
Definition CONVOTAG : nat := 16.
Definition VANITY : nat := 16.

(** ** Introductions *)

Record Introduction := mkIntroduction {
  router : list Z;
  pathID : list Z;
  latency : Z;
  expiresAt : Z;
  in_version : Z }.
Definition Introduction_new : Introduction := mkIntroduction (zero 32) (zero PATHIDSIZE) 0 0 proto_version.
Definition set_router (v : list Z) (x : Introduction) : Introduction := mkIntroduction v (pathID x) (latency x) (expiresAt x) (in_version x).
Definition set_pathID (v : list Z) (x : Introduction) : Introduction := mkIntroduction (router x) v (latency x) (expiresAt x) (in_version x).
Definition set_latency (v : Z) (x : Introduction) : Introduction := mkIntroduction (router x) (pathID x) v (expiresAt x) (in_version x).
Definition set_expiresAt (v : Z) (x : Introduction) : Introduction := mkIntroduction (router x) (pathID x) (latency x) v (in_version x).
Definition set_in_version (v : Z) (x : Introduction) : Introduction := mkIntroduction (router x) (pathID x) (latency x) (expiresAt x) v.

Definition IsExpired (now : Z) (i : Introduction) : bool := expiresAt i <=? now.
Definition ExpiresSoon (now dlt : Z) (i : Introduction) : bool := IsExpired (now + dlt) i.
(** [operator==] *)
Definition Introduction_eqb (i j : Introduction) : bool := bool_decide (pathID i = pathID j) && bool_decide (router i = router j).
Definition Introduction_Clear (i : Introduction) : Introduction := mkIntroduction (zero 32) (zero PATHIDSIZE) 0 0 (in_version i).
Definition Introduction_BEncode (i : Introduction) (b : llarp_buffer_t) : bool * llarp_buffer_t :=
  and_then (bencode_start_dict b) (fun b =>
  and_then (@BEncodeWriteDictEntry _ (aligned 32) [107] (router i) b) (fun b =>
  and_then (when (0 <? latency i) (BEncodeWriteDictInt [108] (u64 (latency i))) b) (fun b =>
  and_then (@BEncodeWriteDictEntry _ (aligned PATHIDSIZE) [112] (pathID i) b) (fun b =>
  and_then (BEncodeWriteDictInt [118] (in_version i) b) (fun b =>
  and_then (BEncodeWriteDictInt [120] (u64 (expiresAt i)) b) bencode_end))))).
Definition Introduction_DecodeKey (i : Introduction) (key b : llarp_buffer_t) : outcome (bool * llarp_buffer_t * Introduction) :=
  field i (@BEncodeMaybeReadDictEntry _ (aligned 32) [107] (router i) false key b) set_router (fun i read b =>
  field i (BEncodeMaybeReadDictTime [108] (latency i) read key b) set_latency (fun i read b =>
  field i (@BEncodeMaybeReadDictEntry _ (aligned PATHIDSIZE) [112] (pathID i) read key b) set_pathID (fun i read b =>
  field i (BEncodeMaybeReadDictInt 64 [118] (in_version i) read key b) set_in_version (fun i read b =>
  field i (BEncodeMaybeReadDictTime [120] (expiresAt i) read key b) set_expiresAt (fun i read b => Done (read, b, i)))))).
Definition Introduction_BDecode (i : Introduction) (b : llarp_buffer_t) : outcome (bool * Introduction * llarp_buffer_t) :=
  let! (ok, b, i) := bencode_decode_dict (S (S (sz b))) Introduction_DecodeKey i b in Done (ok, i, b).

(** ** Service identities *)

Record ServiceInfo := mkServiceInfo {
  enckey : list Z;
  signkey : list Z;
  m_CachedAddr : list Z;
  vanity : list Z;
  si_version : Z }.
Definition ServiceInfo_new : ServiceInfo := mkServiceInfo (zero 32) (zero 32) (zero 32) (zero VANITY) proto_version.
Definition set_enckey (v : list Z) (x : ServiceInfo) : ServiceInfo := mkServiceInfo v (signkey x) (m_CachedAddr x) (vanity x) (si_version x).
Definition set_signkey (v : list Z) (x : ServiceInfo) : ServiceInfo := mkServiceInfo (enckey x) v (m_CachedAddr x) (vanity x) (si_version x).
Definition set_CachedAddr (v : list Z) (x : ServiceInfo) : ServiceInfo := mkServiceInfo (enckey x) (signkey x) v (vanity x) (si_version x).
Definition set_vanity (v : list Z) (x : ServiceInfo) : ServiceInfo := mkServiceInfo (enckey x) (signkey x) (m_CachedAddr x) v (si_version x).
Definition set_si_version (v : Z) (x : ServiceInfo) : ServiceInfo := mkServiceInfo (enckey x) (signkey x) (m_CachedAddr x) (vanity x) v.

Definition CalculateAddress (s : ServiceInfo) : list Z := signkey s.
Definition UpdateAddr (s : ServiceInfo) : ServiceInfo := if IsZero (m_CachedAddr s) then set_CachedAddr (CalculateAddress s) s else s.
(** The address; the cache is filled by the way, which only later calls can see. *)
Definition Addr (s : ServiceInfo) : list Z := m_CachedAddr (UpdateAddr s).
Definition Update (sign enc : list Z) (nonce : option (list Z)) (s : ServiceInfo) : ServiceInfo :=
  let s := set_enckey enc (set_signkey sign s) in
  UpdateAddr (match nonce with Some n => set_vanity n s | None => s end).
Definition ServiceInfo_BEncode (s : ServiceInfo) (b : llarp_buffer_t) : bool * llarp_buffer_t :=
  and_then (bencode_start_dict b) (fun b =>
  and_then (@BEncodeWriteDictEntry _ (aligned 32) [101] (enckey s) b) (fun b =>
  and_then (@BEncodeWriteDictEntry _ (aligned 32) [115] (signkey s) b) (fun b =>
  and_then (BEncodeWriteDictInt [118] proto_version b) (fun b =>
  and_then (when (negb (IsZero (vanity s))) (@BEncodeWriteDictEntry _ (aligned VANITY) [120] (vanity s)) b) bencode_end)))).
Definition ServiceInfo_DecodeKey (s : ServiceInfo) (key b : llarp_buffer_t) : outcome (bool * llarp_buffer_t * ServiceInfo) :=
  field s (@BEncodeMaybeReadDictEntry _ (aligned 32) [101] (enckey s) false key b) set_enckey (fun s read b =>
  field s (@BEncodeMaybeReadDictEntry _ (aligned 32) [115] (signkey s) read key b) set_signkey (fun s read b =>
  field s (BEncodeMaybeReadDictInt 64 [118] (si_version s) read key b) set_si_version (fun s read b =>
  field s (@BEncodeMaybeReadDictEntry _ (aligned VANITY) [120] (vanity s) read key b) set_vanity (fun s read b => Done (read, b, s))))).
Definition ServiceInfo_BDecode (s : ServiceInfo) (b : llarp_buffer_t) : outcome (bool * ServiceInfo * llarp_buffer_t) :=
  let! (ok, b, s) := bencode_decode_dict (S (S (sz b))) ServiceInfo_DecodeKey s b in
  if negb ok then Done (false, s, b) else Done (true, UpdateAddr s, b).

(** The keys of a service; the derived signing key signs introduction sets only. *)
Record Identity := mkIdentity {
  id_enckey : list Z;
  id_signkey : list Z;
  id_pq : list Z;
  pub : ServiceInfo }.

(** ** Inner messages *)

(** [ProtocolType] is an enumeration over 64 bits that is read without a test. *)
Definition Control : Z := 0.
Definition TrafficV4 : Z := 1.
Definition TrafficV6 : Z := 2.
Definition Exit : Z := 3.
Definition Auth : Z := 4.
Definition QUIC : Z := 5.

Record ProtocolMessage := mkProtocolMessage {
  proto : Z;
  payload : list Z;
  introReply : Introduction;
  sender : ServiceInfo;
  tag : list Z;
  seqno : Z;
  pm_version : Z }.
Definition ProtocolMessage_new (tag : list Z) : ProtocolMessage :=
  mkProtocolMessage TrafficV4 [] Introduction_new ServiceInfo_new tag 0 proto_version.
Definition set_proto (v : Z) (x : ProtocolMessage) : ProtocolMessage := mkProtocolMessage v (payload x) (introReply x) (sender x) (tag x) (seqno x) (pm_version x).
Definition PutBuffer (v : list Z) (x : ProtocolMessage) : ProtocolMessage := mkProtocolMessage (proto x) v (introReply x) (sender x) (tag x) (seqno x) (pm_version x).
Definition set_introReply (v : Introduction) (x : ProtocolMessage) : ProtocolMessage := mkProtocolMessage (proto x) (payload x) v (sender x) (tag x) (seqno x) (pm_version x).
Definition set_sender (v : ServiceInfo) (x : ProtocolMessage) : ProtocolMessage := mkProtocolMessage (proto x) (payload x) (introReply x) v (tag x) (seqno x) (pm_version x).
Definition set_tag (v : list Z) (x : ProtocolMessage) : ProtocolMessage := mkProtocolMessage (proto x) (payload x) (introReply x) (sender x) v (seqno x) (pm_version x).
Definition set_seqno (v : Z) (x : ProtocolMessage) : ProtocolMessage := mkProtocolMessage (proto x) (payload x) (introReply x) (sender x) (tag x) v (pm_version x).
Definition set_pm_version (v : Z) (x : ProtocolMessage) : ProtocolMessage := mkProtocolMessage (proto x) (payload x) (introReply x) (sender x) (tag x) (seqno x) v.

Definition ProtocolMessage_BEncode (m : ProtocolMessage) (b : llarp_buffer_t) : bool * llarp_buffer_t :=
  and_then (bencode_start_dict b) (fun b =>
  and_then (BEncodeWriteDictInt [97] (proto m) b) (fun b =>
  and_then (when (negb (bool_decide (payload m = []))) (fun b => and_then (bencode_write_bytestring b [100]) (fun b => bencode_write_bytestring b (payload m))) b) (fun b =>
  and_then (and_then (bencode_write_bytestring b [105]) (Introduction_BEncode (introReply m))) (fun b =>
  and_then (BEncodeWriteDictInt [110] (seqno m) b) (fun b =>
  and_then (and_then (bencode_write_bytestring b [115]) (ServiceInfo_BEncode (sender m))) (fun b =>
  and_then (when (negb (IsZero (tag m))) (@BEncodeWriteDictEntry _ (aligned CONVOTAG) [116] (tag m)) b) (fun b =>
  and_then (BEncodeWriteDictInt [118] (pm_version m) b) bencode_end))))))).
Definition ProtocolMessage_DecodeKey (m : ProtocolMessage) (key b : llarp_buffer_t) : outcome (bool * llarp_buffer_t * ProtocolMessage) :=
  field m (BEncodeMaybeReadDictInt 64 [97] (proto m) false key b) set_proto (fun m read b =>
  if startswith key [100] then
    let! (strbuf, b) := bencode_read_string b in
    match strbuf with Some s => Done (true, b, PutBuffer (base s) m) | None => Done (false, b, m) end
  else
  field m (MaybeReadInto Introduction_BDecode [105] (introReply m) read key b) set_introReply (fun m read b =>
  field m (BEncodeMaybeReadDictInt 64 [110] (seqno m) read key b) set_seqno (fun m read b =>
  field m (MaybeReadInto ServiceInfo_BDecode [115] (sender m) read key b) set_sender (fun m read b =>
  field m (@BEncodeMaybeReadDictEntry _ (aligned CONVOTAG) [116] (tag m) read key b) set_tag (fun m read b =>
  field m (BEncodeMaybeReadDictInt 64 [118] (pm_version m) read key b) set_pm_version (fun m read b => Done (read, b, m))))))).
(** The exception for a buffer of 1024 bytes that is too small is [None]. *)
Definition EncodeAuthInfo (m : ProtocolMessage) : option (list Z) :=
  encode 1024 (fun b =>
  and_then (bencode_start_dict b) (fun b =>
  and_then (BEncodeWriteDictInt [97] (proto m) b) (fun b =>
  and_then (and_then (bencode_write_bytestring b [105]) (Introduction_BEncode (introReply m))) (fun b =>
  and_then (and_then (bencode_write_bytestring b [115]) (ServiceInfo_BEncode (sender m))) (fun b =>
  and_then (@BEncodeWriteDictEntry _ (aligned CONVOTAG) [116] (tag m) b) (fun b =>
  and_then (BEncodeWriteDictInt [118] (pm_version m) b) bencode_end)))))).

(** ** Outer frames *)

Definition D_SIZE : nat := 2048.
Definition MAX_PROTOCOL_MESSAGE_SIZE : nat := 2048 * 2.
Record ProtocolFrame := mkFrame {
  f_C : list Z;
  f_D : Encrypted;
  f_R : Z;
  f_N : list Z;
  f_Z : list Z;
  f_F : list Z;
  f_T : list Z;
  f_S : Z;
  f_version : Z }.
Definition set_f_C (v : list Z) (x : ProtocolFrame) : ProtocolFrame := mkFrame v (f_D x) (f_R x) (f_N x) (f_Z x) (f_F x) (f_T x) (f_S x) (f_version x).
Definition set_f_D (v : Encrypted) (x : ProtocolFrame) : ProtocolFrame := mkFrame (f_C x) v (f_R x) (f_N x) (f_Z x) (f_F x) (f_T x) (f_S x) (f_version x).
Definition set_f_R (v : Z) (x : ProtocolFrame) : ProtocolFrame := mkFrame (f_C x) (f_D x) v (f_N x) (f_Z x) (f_F x) (f_T x) (f_S x) (f_version x).
Definition set_f_N (v : list Z) (x : ProtocolFrame) : ProtocolFrame := mkFrame (f_C x) (f_D x) (f_R x) v (f_Z x) (f_F x) (f_T x) (f_S x) (f_version x).
Definition set_f_Z (v : list Z) (x : ProtocolFrame) : ProtocolFrame := mkFrame (f_C x) (f_D x) (f_R x) (f_N x) v (f_F x) (f_T x) (f_S x) (f_version x).
Definition set_f_F (v : list Z) (x : ProtocolFrame) : ProtocolFrame := mkFrame (f_C x) (f_D x) (f_R x) (f_N x) (f_Z x) v (f_T x) (f_S x) (f_version x).
Definition set_f_T (v : list Z) (x : ProtocolFrame) : ProtocolFrame := mkFrame (f_C x) (f_D x) (f_R x) (f_N x) (f_Z x) (f_F x) v (f_S x) (f_version x).
Definition set_f_S (v : Z) (x : ProtocolFrame) : ProtocolFrame := mkFrame (f_C x) (f_D x) (f_R x) (f_N x) (f_Z x) (f_F x) (f_T x) v (f_version x).
Definition set_f_version (v : Z) (x : ProtocolFrame) : ProtocolFrame := mkFrame (f_C x) (f_D x) (f_R x) (f_N x) (f_Z x) (f_F x) (f_T x) (f_S x) v.

Definition Frame_Clear (f : ProtocolFrame) : ProtocolFrame :=
  mkFrame (zero PQCipherBlock_SIZE) (Encrypted_Clear (f_D f)) 0 (zero 32) (zero SIGSIZE) (zero PATHIDSIZE) (zero CONVOTAG) (f_S f) proto_version.
(** The constructor clears; the array of [D] is not initialised. *)
Definition Frame_new (rest : list Z) : ProtocolFrame := Frame_Clear (mkFrame [] (mkEncrypted rest 0) 0 [] [] [] [] 0 0).
(** [operator==] leaves [F] and [R] out. *)
Definition Frame_eqb (f g : ProtocolFrame) : bool :=
  bool_decide (f_C f = f_C g) && Encrypted_eqb (f_D f) (f_D g) && bool_decide (f_N f = f_N g) && bool_decide (f_Z f = f_Z g)
  && bool_decide (f_T f = f_T g) && (f_S f =? f_S g) && (f_version f =? f_version g).
Definition Frame_BEncode (f : ProtocolFrame) (b : llarp_buffer_t) : bool * llarp_buffer_t :=
  and_then (bencode_start_dict b) (fun b =>
  and_then (BEncodeWriteDictMsgType b [65] [72]) (fun b =>
  and_then (when (negb (IsZero (f_C f))) (@BEncodeWriteDictEntry _ (aligned PQCipherBlock_SIZE) [67] (f_C f)) b) (fun b =>
  and_then (when (bool_decide (0 < esz (f_D f))%nat) (fun b => and_then (bencode_write_bytestring b [68]) (Encrypted_BEncode (f_D f))) b) (fun b =>
  and_then (@BEncodeWriteDictEntry _ (aligned PATHIDSIZE) [70] (f_F f) b) (fun b =>
  and_then (when (negb (IsZero (f_N f))) (@BEncodeWriteDictEntry _ (aligned 32) [78] (f_N f)) b) (fun b =>
  and_then (when (negb (f_R f =? 0)) (BEncodeWriteDictInt [82] (f_R f)) b) (fun b =>
  and_then (when (negb (IsZero (f_T f))) (@BEncodeWriteDictEntry _ (aligned CONVOTAG) [84] (f_T f)) b) (fun b =>
  and_then (BEncodeWriteDictInt [86] (f_version f) b) (fun b =>
  and_then (@BEncodeWriteDictEntry _ (aligned SIGSIZE) [90] (f_Z f) b) bencode_end))))))))).
Definition Frame_DecodeKey (f : ProtocolFrame) (key b : llarp_buffer_t) : outcome (bool * llarp_buffer_t * ProtocolFrame) :=
  if startswith key [65] then let! (t, b) := read_type b in Done (is_type 72 t, b, f)
  else
  field f (MaybeReadInto (Encrypted_BDecode D_SIZE) [68] (f_D f) false key b) set_f_D (fun f read b =>
  field f (@BEncodeMaybeReadDictEntry _ (aligned PATHIDSIZE) [70] (f_F f) read key b) set_f_F (fun f read b =>
  field f (@BEncodeMaybeReadDictEntry _ (aligned PQCipherBlock_SIZE) [67] (f_C f) read key b) set_f_C (fun f read b =>
  field f (@BEncodeMaybeReadDictEntry _ (aligned 32) [78] (f_N f) read key b) set_f_N (fun f read b =>
  field f (BEncodeMaybeReadDictInt 64 [83] (f_S f) read key b) set_f_S (fun f read b =>
  field f (BEncodeMaybeReadDictInt 64 [82] (f_R f) read key b) set_f_R (fun f read b =>
  field f (@BEncodeMaybeReadDictEntry _ (aligned CONVOTAG) [84] (f_T f) read key b) set_f_T (fun f read b =>
  field f (BEncodeMaybeVerifyVersion [86] (f_version f) proto_version read key b) set_f_version (fun f read b =>
  field f (@BEncodeMaybeReadDictEntry _ (aligned SIGSIZE) [90] (f_Z f) read key b) set_f_Z (fun f read b => Done (read, b, f)))))))))).
Definition Frame_BDecode (f : ProtocolFrame) (b : llarp_buffer_t) : outcome (bool * ProtocolFrame * llarp_buffer_t) :=
  let! (ok, b, f) := bencode_decode_dict (S (S (sz b))) Frame_DecodeKey f b in Done (ok, f, b).

(** ** Signatures and encryption *)

(** [crypto_kem_enc] and [crypto_kem_dec] of [libntrup]; a random state is passed along. *)
Class Kem (rng : Type) := {
  kem_enc : list Z -> rng -> option (list Z * list Z) * rng;
  kem_dec : list Z -> list Z -> option (list Z) }.

(** Decapsulation gives the key of the encapsulation. *)
Class KemSpec (rng : Type) `{Kem rng} := {
  kem_pair : list Z -> list Z -> Prop;
  kem_correct pk sk g : kem_pair pk sk ->
    exists c k g', kem_enc pk g = (Some (c, k), g') /\ length c = PQ_CIPHERTEXTSIZE /\ length k = 32%nat /\ kem_dec c sk = Some k }.

Section Crypto.
Context `{Sodium}.

Definition Identity_Sign (i : Identity) (buf : list Z) : option (list Z) := sign (id_signkey i) buf.
Definition ServiceInfo_Verify (s : ServiceInfo) (buf sig : list Z) : bool := verify (signkey s) buf sig.
(** What is signed: the frame with a zero signature *)
Definition frame_text (f : ProtocolFrame) : option (list Z) := encode MAX_PROTOCOL_MESSAGE_SIZE (Frame_BEncode (set_f_Z (zero SIGSIZE) f)).
Definition Frame_Sign (localIdent : Identity) (f : ProtocolFrame) : bool * ProtocolFrame :=
  let f := set_f_Z (zero SIGSIZE) f in
  match frame_text f with
  | None => (false, f)
  | Some buf => match Identity_Sign localIdent buf with Some z => (true, set_f_Z z f) | None => (false, f) end
  end.
Definition Frame_Verify (svc : ServiceInfo) (f : ProtocolFrame) : bool :=
  match frame_text f with
  | None => false
  | Some buf => ServiceInfo_Verify svc buf (f_Z f)
  end.
(** The return code of [xchacha20] is not tested. *)
Definition crypt_buf (buf key n : list Z) : list Z := default buf (xchacha20 buf key n).
Definition EncryptAndSign (msg : ProtocolMessage) (sessionKey : list Z) (localIdent : Identity) (f : ProtocolFrame) : bool * ProtocolFrame :=
  match encode MAX_PROTOCOL_MESSAGE_SIZE (ProtocolMessage_BEncode msg) with
  | None => (false, f)
  | Some buf =>
      let f := set_f_Z (zero SIGSIZE) (set_f_D (Encrypted_assign D_SIZE (f_D f) (crypt_buf buf sessionKey (f_N f))) f) in
      match frame_text f with
      | None => (false, f)
      | Some buf2 => match Identity_Sign localIdent buf2 with Some z => (true, set_f_Z z f) | None => (false, f) end
      end
  end.
Definition DecryptPayloadInto (sharedkey : list Z) (msg : ProtocolMessage) (f : ProtocolFrame) : outcome (bool * ProtocolMessage) :=
  let buf := crypt_buf (contents (f_D f)) sharedkey (f_N f) in
  let! (ok, _, msg) := bencode_decode_dict (S (S (length buf))) ProtocolMessage_DecodeKey msg (Buf buf 0) in Done (ok, msg).
(** [PKE (A, B, N)]: the secret of a failed exchange stays zero. *)
Definition KeyExchange (dh : list Z -> list Z -> list Z -> option (list Z)) (other : ServiceInfo) (N : list Z) (i : Identity) : option (list Z) :=
  dh (enckey other) (id_enckey i) N.
(** [S = HS (K + PKE (A, B, N))] *)
Definition session_key (K shared : list Z) : list Z := default (zero 32) (shorthash (K ++ shared)).

Context `{!Kem rng}.
Definition pqe_encrypt (pubkey : list Z) (g : rng) : option (list Z * list Z) * rng := kem_enc pubkey g.
Definition pqe_decrypt (ciphertext secretkey : list Z) : option (list Z) := kem_dec (take PQ_CIPHERTEXTSIZE ciphertext) secretkey.
Definition PQ_SECRETKEYSIZE : nat := 1600.
Definition PQ_PUBKEYSIZE : nat := 1218.
Definition pq_keypair_to_secret (pq : list Z) : list Z := take PQ_SECRETKEYSIZE pq.
Definition pq_keypair_to_public (pq : list Z) : list Z := take PQ_PUBKEYSIZE (drop PQ_SECRETKEYSIZE pq).
End Crypto.
