(* ===== verification/ServiceProofs.v ===== *)
(** * Messages of hidden services are read back

    The texts of introductions, identities, inner messages and frames, what decoding
    them leaves in an object, and that a frame that was encrypted and signed is verified
    and decrypted to its message. *)

From S2P Require Import Prelude Buffer Bencode Codec Crypto Path PathBuild LinkMessages LinkMessageProofs Service.
Open Scope Z_scope.

(** ** Fields *)

Lemma miss_time c k x read b : (k =? c) = false -> BEncodeMaybeReadDictTime [c] x read (Buf [k] 0) b = Done (true, x, read, b).
Proof. intros E. unfold BEncodeMaybeReadDictTime. by rewrite startswith_one, E. Qed.
Lemma hit_time c v old read b rest : 0 <= v < 2 ^ 63 -> rem b = enc_int v ++ rest ->
  BEncodeMaybeReadDictTime [c] old read (Buf [c] 0) b = Done (true, v, true, advance (length (enc_int v)) b).
Proof.
  intros Hv E. unfold BEncodeMaybeReadDictTime. rewrite startswith_one, Z.eqb_refl, (bencode_read_integer_spec _ _ _ E) by (unfold in_width; lia). cbn [obind].
  unfold s64. rewrite Z.mod_small by lia. by rewrite Z.add_simpl_r.
Qed.
Lemma miss_into {T} (dec : T -> llarp_buffer_t -> outcome (bool * T * llarp_buffer_t)) c k x read b : (k =? c) = false ->
  MaybeReadInto dec [c] x read (Buf [k] 0) b = Done (true, x, read, b).
Proof. intros E. unfold MaybeReadInto. by rewrite startswith_one, E. Qed.
Lemma hit_into {T} (dec : T -> llarp_buffer_t -> outcome (bool * T * llarp_buffer_t)) c x old read b b' : dec old b = Done (true, x, b') ->
  MaybeReadInto dec [c] old read (Buf [c] 0) b = Done (true, x, true, b').
Proof. intros E. unfold MaybeReadInto. by rewrite startswith_one, Z.eqb_refl, E. Qed.
Lemma u64_time v : 0 <= v < 2 ^ 63 -> u64 v = v.
Proof. intros. unfold u64, wrap. apply Z.mod_small. lia. Qed.
Lemma time_width v : 0 <= v < 2 ^ 63 -> in_width 64 v.
Proof. unfold in_width. lia. Qed.

(** Computes the fields of the object. *)
Ltac fields :=
  cbn [obind negb set_router set_pathID set_latency set_expiresAt set_in_version set_enckey set_signkey set_CachedAddr set_vanity set_si_version set_proto PutBuffer set_introReply set_sender
       set_tag set_seqno set_pm_version set_f_C set_f_D set_f_R set_f_N set_f_Z set_f_F set_f_T set_f_S set_f_version
       router pathID latency expiresAt in_version enckey signkey m_CachedAddr vanity si_version proto payload introReply sender tag seqno pm_version f_C f_D f_R f_N f_Z f_F f_T f_S f_version].
(** Passes the fields of other keys; the object is a record that is spelled out. *)
Ltac pass_fields :=
  repeat first [rewrite miss_entry by done | rewrite miss_int by done | rewrite miss_time by done | rewrite miss_into by done
               | rewrite miss_version by done | rewrite miss_list by done | rewrite startswith_one; cbn [Z.eqb Pos.eqb] | progress fields].
(** Reads the field of the key at hand. *)
Ltac hit := idtac;
  lazymatch goal with
  | E : rem ?b = enc_str ?x ++ ?rest |- _ => rewrite (hit_entry _ _ x _ _ b rest) by (done || assumption || lia)
  | E : rem ?b = enc_int ?v ++ ?rest |- _ =>
      first [rewrite (hit_int _ v _ _ b rest) by (done || assumption) | rewrite (hit_time _ v _ _ b rest) by (done || assumption) | rewrite (hit_version _ v _ _ b rest) by (done || assumption)]
  end.
(** One entry of a dictionary: [dec] unfolds the decoder, [tac] reads the field. *)
Ltac entry_with dec tac :=
  eexists; split; [unfold reads_one; split; [done|]; intros b rest E; dec; one_key; unfold field; pass_fields; tac; pass_fields; reflexivity|]; fields.

Lemma IsZero_zero n : IsZero (zero n) = true.
Proof. unfold IsZero, zero. induction n; [done|exact IHn]. Qed.
Lemma IsZero_eq n x : length x = n -> IsZero x = true -> x = zero n.
Proof.
  intros <-. unfold IsZero, zero. induction x as [|c x IH]; [done|]. cbn [forallb length replicate]. intros [Hc Hx]%andb_prop. apply Z.eqb_eq in Hc as <-. f_equal. by apply IH.
Qed.
(** Optional entries *)
Definition opt (c : bool) (x : list Z * list Z) : list (list Z * list Z) := if c then [x] else [].
Lemma writes_opt (c : bool) w k t : writes w (enc_str k ++ t) -> writes (when c w) (flat_map pair_text (opt c (k, t))).
Proof. intros Hw. unfold when. destruct c; [|apply writes_nil]. cbn [opt flat_map]. rewrite app_nil_r. exact Hw. Qed.
Lemma encode_writes n w t : writes w t -> (length t < n)%nat -> encode n w = Some t.
Proof.
  intros Hw Hn. unfold encode. destruct (Hw (Buf (replicate n 0) 0)) as (b' & -> & _ & _ & -> & _); [unfold wf, sz; cbn; lia| |done].
  rewrite size_left_wf by (unfold wf, sz; cbn; lia). unfold sz. cbn [base cur]. rewrite length_replicate. lia.
Qed.

(** Decoding a dictionary in place *)
Definition key_sink {M} (dec : M -> llarp_buffer_t -> llarp_buffer_t -> outcome (bool * llarp_buffer_t * M)) : dict_sink M :=
  fun s b key => match key with None => Done (true, b, s) | Some key => dec s key b end.
Lemma dict_decodes {M} dec pairs (old m : M) b rest : reads_all (key_sink dec) pairs old m -> rem b = dict_text pairs ++ rest ->
  bencode_decode_dict (S (S (sz b))) dec old b = Done (true, advance (length (dict_text pairs)) b, m).
Proof.
  intros Hr E. unfold bencode_decode_dict. fold (key_sink dec).
  rewrite (read_dict_chain (key_sink dec) pairs _ old m b rest Hr (dict_fuel _ _ _ E) (dict_text_cons _ _ _ E)). by rewrite dict_text_length.
Qed.
Lemma dict_text_app l1 l2 : dict_text (l1 ++ l2) = ch_d :: flat_map pair_text l1 ++ flat_map pair_text l2 ++ [ch_e].
Proof. unfold dict_text. by rewrite flat_map_app, <- app_assoc. Qed.
(** Writes a dictionary entry by entry. *)
Ltac write_entries tac :=
  eapply writes_eq;
    [repeat first [apply writes_byte | apply writes_type | by apply writes_aligned | by apply writes_int | tac
                  | apply writes_opt; first [by apply writes_aligned | by apply writes_int | tac]
                  | eapply writes_then]
    |unfold dict_text; repeat first [rewrite flat_map_app | progress cbn [flat_map app]]; unfold pair_text; cbn [flat_map app fst snd];
     rewrite <- ?app_assoc; cbn [app]; rewrite <- ?app_assoc; reflexivity].

(** ** Introductions *)

Definition introduction_ok (i : Introduction) : Prop :=
  length (router i) = 32%nat /\ length (pathID i) = PATHIDSIZE /\ 0 <= latency i < 2 ^ 63 /\ 0 <= expiresAt i < 2 ^ 63 /\ in_width 64 (in_version i).
Definition introduction_pairs (i : Introduction) : list (list Z * list Z) :=
  [([107], enc_str (router i))] ++ opt (0 <? latency i) ([108], enc_int (latency i))
  ++ [([112], enc_str (pathID i)); ([118], enc_int (in_version i)); ([120], enc_int (expiresAt i))].
Ltac introduction_entry := entry_with ltac:(unfold key_sink, Introduction_DecodeKey) ltac:(hit).
Lemma introduction_reads i old : introduction_ok i -> latency old = 0 -> reads_all (key_sink Introduction_DecodeKey) (introduction_pairs i) old i.
Proof.
  intros (Hr & Hp & Hl & Hx & Hv) H0. destruct old as [r p l x v], i as [r' p' l' x' v']. cbn [router pathID latency expiresAt in_version] in *. subst l.
  unfold introduction_pairs, opt. cbn [router pathID latency expiresAt in_version app].
  destruct (Z.ltb_spec 0 l') as [Hl'|Hl']; cbn [app reads_all].
  - introduction_entry. introduction_entry. introduction_entry. introduction_entry. introduction_entry. reflexivity.
  - introduction_entry. introduction_entry. introduction_entry. introduction_entry. assert (l' = 0) as -> by lia. reflexivity.
Qed.
Lemma introduction_decodes i old b rest : introduction_ok i -> latency old = 0 -> rem b = dict_text (introduction_pairs i) ++ rest ->
  Introduction_BDecode old b = Done (true, i, advance (length (dict_text (introduction_pairs i))) b).
Proof. intros Hi Ho E. unfold Introduction_BDecode. by rewrite (dict_decodes _ _ old i b rest (introduction_reads i old Hi Ho) E). Qed.
Lemma introduction_writes i : introduction_ok i -> writes (Introduction_BEncode i) (dict_text (introduction_pairs i)).
Proof.
  intros (Hr & Hp & Hl & Hx & Hv). unfold Introduction_BEncode, introduction_pairs. rewrite !u64_time by done. pose proof (time_width _ Hl). pose proof (time_width _ Hx).
  write_entries fail.
Qed.

(** ** Identities *)

Definition info_ok (s : ServiceInfo) : Prop :=
  length (enckey s) = 32%nat /\ length (signkey s) = 32%nat /\ length (vanity s) = VANITY /\ si_version s = proto_version.
Definition info_pairs (s : ServiceInfo) : list (list Z * list Z) :=
  [([101], enc_str (enckey s)); ([115], enc_str (signkey s)); ([118], enc_int proto_version)] ++ opt (negb (IsZero (vanity s))) ([120], enc_str (vanity s)).
(** What decoding the text of [s] leaves in an object with the cached address [a] *)
Definition info_into (a : list Z) (s : ServiceInfo) : ServiceInfo := UpdateAddr (set_CachedAddr a s).
Ltac info_entry := entry_with ltac:(unfold key_sink, ServiceInfo_DecodeKey) ltac:(hit).
Lemma info_reads s old : info_ok s -> vanity old = zero VANITY -> reads_all (key_sink ServiceInfo_DecodeKey) (info_pairs s) old (set_CachedAddr (m_CachedAddr old) s).
Proof.
  intros (He & Hs & Hv & Hp) H0. destruct old as [e g a n v], s as [e' g' a' n' v']. cbn [enckey signkey m_CachedAddr vanity si_version set_CachedAddr] in *. subst n v'.
  unfold info_pairs, opt. fields. assert (in_width 64 proto_version) by done. destruct (IsZero n') eqn:En; cbn [app negb reads_all].
  - info_entry. info_entry. info_entry. by rewrite (IsZero_eq VANITY n').
  - info_entry. info_entry. info_entry. info_entry. reflexivity.
Qed.
Lemma info_decodes s old b rest : info_ok s -> vanity old = zero VANITY -> rem b = dict_text (info_pairs s) ++ rest ->
  ServiceInfo_BDecode old b = Done (true, info_into (m_CachedAddr old) s, advance (length (dict_text (info_pairs s))) b).
Proof. intros Hs Ho E. unfold ServiceInfo_BDecode. by rewrite (dict_decodes _ _ old _ b rest (info_reads s old Hs Ho) E). Qed.
Lemma info_writes s : info_ok s -> writes (ServiceInfo_BEncode s) (dict_text (info_pairs s)).
Proof. intros (He & Hs & Hv & Hp). assert (in_width 64 proto_version) by done. unfold ServiceInfo_BEncode, info_pairs. write_entries fail. Qed.
(** An identity whose address was computed from its key *)
Definition addr_ok (s : ServiceInfo) : Prop := m_CachedAddr s = signkey s.
Lemma info_into_fresh s : info_ok s -> addr_ok s -> info_into (zero 32) s = s.
Proof. intros Hs Ha. destruct s as [e g a n v]. unfold info_into, UpdateAddr, addr_ok in *. fields. cbn in Ha. by rewrite IsZero_zero, Ha. Qed.

(** ** Inner messages *)

Definition pm_ok (m : ProtocolMessage) : Prop :=
  in_width 64 (proto m) /\ Z.of_nat (length (payload m)) < 10 ^ 9 /\ introduction_ok (introReply m) /\ info_ok (sender m)
  /\ length (tag m) = CONVOTAG /\ in_width 64 (seqno m) /\ in_width 64 (pm_version m).
Definition pm_pairs (m : ProtocolMessage) : list (list Z * list Z) :=
  [([97], enc_int (proto m))] ++ opt (negb (bool_decide (payload m = []))) ([100], enc_str (payload m))
  ++ [([105], dict_text (introduction_pairs (introReply m))); ([110], enc_int (seqno m)); ([115], dict_text (info_pairs (sender m)))]
  ++ opt (negb (IsZero (tag m))) ([116], enc_str (tag m)) ++ [([118], enc_int (pm_version m))].
(** An object in which what may be missing is empty *)
Definition pm_fresh (m : ProtocolMessage) : Prop :=
  payload m = [] /\ latency (introReply m) = 0 /\ vanity (sender m) = zero VANITY /\ tag m = zero CONVOTAG.
Ltac pm_hit := idtac;
  lazymatch goal with
  | E : rem ?b = dict_text (introduction_pairs ?i) ++ ?rest |- context [MaybeReadInto _ _ ?old _ _ _] => rewrite (hit_into _ _ _ _ _ _ _ (introduction_decodes i old b rest ltac:(done) ltac:(done) E))
  | E : rem ?b = dict_text (info_pairs ?s) ++ ?rest |- context [MaybeReadInto _ _ ?old _ _ _] => rewrite (hit_into _ _ _ _ _ _ _ (info_decodes s old b rest ltac:(done) ltac:(done) E))
  | _ => hit
  end.
Ltac pm_data := idtac; match goal with E : rem _ = enc_str _ ++ _ |- _ => rewrite (bencode_read_string_spec _ _ _ E) by done; cbn [obind base] end.
Ltac pm_entry tac := entry_with ltac:(unfold key_sink, ProtocolMessage_DecodeKey) tac.
Lemma pm_reads m old : pm_ok m -> pm_fresh old ->
  reads_all (key_sink ProtocolMessage_DecodeKey) (pm_pairs m) old (set_sender (info_into (m_CachedAddr (sender old)) (sender m)) m).
Proof.
  intros (Ha & Hd & Hi & Hs & Ht & Hn & Hv) (O1 & O2 & O3 & O4). destruct old as [a d i s t n v], m as [a' d' i' s' t' n' v']. fields. cbn [proto payload introReply sender tag seqno pm_version] in *. subst d t.
  unfold pm_pairs. fields. eapply reads_all_app; [|eapply reads_all_app; [|eapply reads_all_app]].
  - cbn [reads_all]. pm_entry ltac:(pm_hit). reflexivity.
  - unfold opt. fields. instantiate (1 := mkProtocolMessage a' d' i s (zero CONVOTAG) n v). case_bool_decide as Ed; cbn [negb reads_all]; [by rewrite Ed|]. pm_entry ltac:(pm_data). reflexivity.
  - cbn [reads_all]. pm_entry ltac:(pm_hit). pm_entry ltac:(pm_hit). pm_entry ltac:(pm_hit). reflexivity.
  - unfold opt. destruct (IsZero t') eqn:Et; cbn [negb app reads_all].
    + rewrite <- (IsZero_eq CONVOTAG t') by done. pm_entry ltac:(pm_hit). reflexivity.
    + pm_entry ltac:(pm_hit). pm_entry ltac:(pm_hit). reflexivity.
Qed.
Lemma pm_decodes m old b rest : pm_ok m -> pm_fresh old -> rem b = dict_text (pm_pairs m) ++ rest ->
  bencode_decode_dict (S (S (sz b))) ProtocolMessage_DecodeKey old b
  = Done (true, advance (length (dict_text (pm_pairs m))) b, set_sender (info_into (m_CachedAddr (sender old)) (sender m)) m).
Proof. intros Hm Ho E. by rewrite (dict_decodes _ _ old _ b rest (pm_reads m old Hm Ho) E). Qed.
Lemma pm_writes m : pm_ok m -> writes (ProtocolMessage_BEncode m) (dict_text (pm_pairs m)).
Proof.
  intros (Ha & Hd & Hi & Hs & Ht & Hn & Hv). unfold ProtocolMessage_BEncode, pm_pairs.
  write_entries ltac:(idtac; first [apply writes_char | by apply introduction_writes | by apply info_writes | apply writes_bytestring; lia
                             | (eapply (writes_then (fun b => bencode_write_bytestring b [100])); [apply writes_char|apply writes_bytestring; lia])]).
Qed.

(** ** Frames *)

Definition frame_ok (f : ProtocolFrame) : Prop :=
  length (f_C f) = PQCipherBlock_SIZE /\ blob_ok D_SIZE (f_D f) /\ in_width 64 (f_R f) /\ length (f_N f) = 32%nat /\ length (f_Z f) = SIGSIZE
  /\ length (f_F f) = PATHIDSIZE /\ length (f_T f) = CONVOTAG /\ f_version f = proto_version.
Definition frame_pairs (f : ProtocolFrame) : list (list Z * list Z) :=
  [([65], enc_str [72])] ++ opt (negb (IsZero (f_C f))) ([67], enc_str (f_C f)) ++ opt (bool_decide (0 < esz (f_D f))%nat) ([68], blob_text (f_D f))
  ++ [([70], enc_str (f_F f))] ++ opt (negb (IsZero (f_N f))) ([78], enc_str (f_N f)) ++ opt (negb (f_R f =? 0)) ([82], enc_int (f_R f))
  ++ opt (negb (IsZero (f_T f))) ([84], enc_str (f_T f)) ++ [([86], enc_int (f_version f)); ([90], enc_str (f_Z f))].
(** A frame that was cleared *)
Definition frame_fresh (f : ProtocolFrame) : Prop :=
  f_C f = zero PQCipherBlock_SIZE /\ blob_ok D_SIZE (f_D f) /\ esz (f_D f) = 0%nat /\ f_R f = 0 /\ f_N f = zero 32 /\ f_T f = zero CONVOTAG.
Definition data_into (old d : Encrypted) : Encrypted := if bool_decide (0 < esz d)%nat then blob_into old d else old.
Definition frame_into (old f : ProtocolFrame) : ProtocolFrame := set_f_S (f_S old) (set_f_D (data_into (f_D old) (f_D f)) f).

Lemma D_small : Z.of_nat D_SIZE < 10 ^ 9.
Proof. done. Qed.
Lemma PQ_small : Z.of_nat PQCipherBlock_SIZE < 10 ^ 9.
Proof. done. Qed.
#[local] Opaque D_SIZE PQCipherBlock_SIZE zero.
Ltac frame_hit := idtac;
  lazymatch goal with
  | E : rem ?b = blob_text ?d ++ ?rest |- _ => match goal with |- context [MaybeReadInto _ _ ?old _ _ _] => rewrite (hit_into _ _ _ _ _ _ _ (blob_reads D_SIZE old d b rest ltac:(done) ltac:(done) D_small E)) end
  | _ => hit
  end.
Ltac frame_type := idtac; match goal with E : rem _ = enc_str _ ++ _ |- _ => unfold read_type; rewrite (bencode_read_string_spec _ _ _ E) by done; cbn end.
Ltac frame_entry tac := entry_with ltac:(unfold key_sink, Frame_DecodeKey) tac.
Section FrameFields.
Context (c : list Z) (d : Encrypted) (r : Z) (n z p t : list Z) (s v : Z).
Local Abbreviation rd := (reads_all (key_sink Frame_DecodeKey)).
Lemma frame_field_A : rd [([65], enc_str [72])] (mkFrame c d r n z p t s v) (mkFrame c d r n z p t s v).
Proof. cbn [reads_all]. frame_entry ltac:(frame_type). reflexivity. Qed.
Lemma frame_field_C x : length x = PQCipherBlock_SIZE ->
  rd (opt (negb (IsZero x)) ([67], enc_str x)) (mkFrame (zero PQCipherBlock_SIZE) d r n z p t s v) (mkFrame x d r n z p t s v).
Proof.
  intros Hx. pose proof PQ_small. unfold opt. destruct (IsZero x) eqn:Ex; cbn [negb reads_all]; [by rewrite <- (IsZero_eq PQCipherBlock_SIZE x)|].
  frame_entry ltac:(frame_hit). reflexivity.
Qed.
Lemma frame_field_D x : blob_ok D_SIZE d -> blob_ok D_SIZE x ->
  rd (opt (bool_decide (0 < esz x)%nat) ([68], blob_text x)) (mkFrame c d r n z p t s v) (mkFrame c (data_into d x) r n z p t s v).
Proof. intros Hd Hx. unfold opt, data_into. destruct (bool_decide _); cbn [reads_all]; [|done]. frame_entry ltac:(frame_hit). reflexivity. Qed.
Lemma frame_field_F x : length x = PATHIDSIZE -> rd [([70], enc_str x)] (mkFrame c d r n z p t s v) (mkFrame c d r n z x t s v).
Proof. intros Hx. cbn [reads_all]. frame_entry ltac:(frame_hit). reflexivity. Qed.
Lemma frame_field_N x : length x = 32%nat -> rd (opt (negb (IsZero x)) ([78], enc_str x)) (mkFrame c d r (zero 32) z p t s v) (mkFrame c d r x z p t s v).
Proof. intros Hx. unfold opt. destruct (IsZero x) eqn:Ex; cbn [negb reads_all]; [by rewrite <- (IsZero_eq 32 x)|]. frame_entry ltac:(frame_hit). reflexivity. Qed.
Lemma frame_field_R x : in_width 64 x -> rd (opt (negb (x =? 0)) ([82], enc_int x)) (mkFrame c d 0 n z p t s v) (mkFrame c d x n z p t s v).
Proof. intros Hx. unfold opt. destruct (Z.eqb_spec x 0) as [->|]; cbn [negb reads_all]; [done|]. frame_entry ltac:(frame_hit). reflexivity. Qed.
Lemma frame_field_T x : length x = CONVOTAG -> rd (opt (negb (IsZero x)) ([84], enc_str x)) (mkFrame c d r n z p (zero CONVOTAG) s v) (mkFrame c d r n z p x s v).
Proof. intros Hx. unfold opt. destruct (IsZero x) eqn:Ex; cbn [negb reads_all]; [by rewrite <- (IsZero_eq CONVOTAG x)|]. frame_entry ltac:(frame_hit). reflexivity. Qed.
Lemma frame_field_VZ x : length x = SIGSIZE -> rd [([86], enc_int proto_version); ([90], enc_str x)] (mkFrame c d r n z p t s v) (mkFrame c d r n x p t s proto_version).
Proof. intros Hx. assert (in_width 64 proto_version) by done. cbn [reads_all]. frame_entry ltac:(frame_hit). frame_entry ltac:(frame_hit). reflexivity. Qed.
End FrameFields.
Lemma frame_reads f old : frame_ok f -> frame_fresh old -> reads_all (key_sink Frame_DecodeKey) (frame_pairs f) old (frame_into old f).
Proof.
  intros (HC & HD & HR & HN & HZ & HF & HT & HV) (O1 & O2 & O3 & O4 & O5 & O6). destruct old as [c d r n z p t s v], f as [c' d' r' n' z' p' t' s' v'].
  cbn [f_C f_D f_R f_N f_Z f_F f_T f_S f_version] in *. subst c r n t v'. unfold frame_pairs, frame_into. fields.
  eapply reads_all_app; [apply frame_field_A|]. eapply reads_all_app; [by apply frame_field_C|]. eapply reads_all_app; [by apply frame_field_D|].
  eapply reads_all_app; [by apply frame_field_F|]. eapply reads_all_app; [by apply frame_field_N|]. eapply reads_all_app; [by apply frame_field_R|].
  eapply reads_all_app; [by apply frame_field_T|]. by apply frame_field_VZ.
Qed.
Lemma frame_decodes f old b rest : frame_ok f -> frame_fresh old -> rem b = dict_text (frame_pairs f) ++ rest ->
  Frame_BDecode old b = Done (true, frame_into old f, advance (length (dict_text (frame_pairs f))) b).
Proof. intros Hf Ho E. unfold Frame_BDecode. by rewrite (dict_decodes _ _ old _ b rest (frame_reads f old Hf Ho) E). Qed.
Lemma frame_writes f : frame_ok f -> writes (Frame_BEncode f) (dict_text (frame_pairs f)).
Proof.
  intros (HC & HD & HR & HN & HZ & HF & HT & HV). assert (in_width 64 (f_version f)) by (by rewrite HV). pose proof PQ_small. pose proof D_small. unfold Frame_BEncode, frame_pairs.
  write_entries ltac:(idtac; first [apply writes_char | by apply (writes_blob D_SIZE)
                             | eapply (writes_then (fun b => bencode_write_bytestring b [68])); [apply writes_char|by apply (writes_blob D_SIZE)]]).
Qed.

(** ** Encrypting and signing *)

Lemma enc_str_bound s : Z.of_nat (length s) < 10 ^ 4 -> (length (enc_str s) <= 5 + length s)%nat.
Proof.
  intros Hs. unfold enc_str. rewrite length_app. cbn [length]. pose proof (length_dec (Z.of_nat (length s)) 3). change (Z.of_nat 4) with 4 in *. lia.
Qed.
Lemma enc_int_bound v : in_width 64 v -> (length (enc_int v) <= 22)%nat.
Proof.
  intros Hv. unfold enc_int. cbn [length]. rewrite length_app. cbn [length]. pose proof (length_dec v 19) as Hl. unfold in_width in Hv.
  assert (2 ^ 64 < 10 ^ Z.of_nat 20) by done. lia.
Qed.
Lemma opt_bound (c : bool) k t n : length k = 1%nat -> (length t <= n)%nat -> (length (flat_map pair_text (opt c (k, t))) <= 3 + n)%nat.
Proof.
  intros Hk Hn. destruct c; cbn [opt flat_map length]; [|lia]. rewrite app_nil_r. unfold pair_text. cbn [fst snd]. rewrite length_app.
  destruct k as [|x [|]]; try done. change (length (enc_str [x])) with 3%nat. lia.
Qed.
#[local] Transparent D_SIZE PQCipherBlock_SIZE zero.
Lemma frame_length f : frame_ok f -> (length (dict_text (frame_pairs f)) < MAX_PROTOCOL_MESSAGE_SIZE)%nat.
Proof.
  intros (HC & HD & HR & HN & HZ & HF & HT & HV). unfold frame_pairs. rewrite dict_text_length, !flat_map_app, !length_app.
  assert (B : forall s n, length s = n -> Z.of_nat n < 10 ^ 4 -> (length (enc_str s) <= 5 + n)%nat) by (intros ? ? <- ?; by apply enc_str_bound).
  pose proof (opt_bound (negb (IsZero (f_C f))) [67] (enc_str (f_C f)) _ eq_refl (B _ _ HC ltac:(unfold PQCipherBlock_SIZE, PQ_CIPHERTEXTSIZE; lia))).
  assert (length (contents (f_D f)) <= 2048)%nat as HL by (rewrite (length_contents _ _ HD); apply HD).
  pose proof (opt_bound (bool_decide (0 < esz (f_D f))%nat) [68] (blob_text (f_D f)) (5 + 2048) eq_refl ltac:(unfold blob_text; etransitivity; [apply enc_str_bound; lia|lia])).
  pose proof (opt_bound true [70] (enc_str (f_F f)) _ eq_refl (B _ _ HF ltac:(unfold PATHIDSIZE; lia))).
  pose proof (opt_bound (negb (IsZero (f_N f))) [78] (enc_str (f_N f)) _ eq_refl (B _ _ HN ltac:(lia))).
  pose proof (opt_bound (negb (f_R f =? 0)) [82] (enc_int (f_R f)) _ eq_refl (enc_int_bound _ HR)).
  pose proof (opt_bound (negb (IsZero (f_T f))) [84] (enc_str (f_T f)) _ eq_refl (B _ _ HT ltac:(unfold CONVOTAG; lia))).
  pose proof (opt_bound true [90] (enc_str (f_Z f)) _ eq_refl (B _ _ HZ ltac:(unfold SIGSIZE; lia))).
  unfold PQCipherBlock_SIZE, PQ_CIPHERTEXTSIZE, PATHIDSIZE, CONVOTAG, SIGSIZE, MAX_PROTOCOL_MESSAGE_SIZE in *.
  change (length (flat_map pair_text [([65], enc_str [72])])) with 6%nat. cbn [opt] in *. rewrite HV.
  change (length (flat_map pair_text [([86], enc_int proto_version); ([90], enc_str (f_Z f))])) with (6 + length (flat_map pair_text [([90%Z], enc_str (f_Z f))]))%nat. lia.
Qed.

(** The text of a frame depends on the contents of its data only. *)
Lemma frame_text_ext f g : f_C f = f_C g -> esz (f_D f) = esz (f_D g) -> contents (f_D f) = contents (f_D g) -> f_R f = f_R g -> f_N f = f_N g -> f_F f = f_F g ->
  f_T f = f_T g -> f_version f = f_version g -> frame_text f = frame_text g.
Proof.
  intros E1 E2 E3 E4 E5 E6 E7 E8. unfold frame_text, encode, Frame_BEncode, Encrypted_BEncode. fields. fold (contents (f_D f)). fold (contents (f_D g)).
  by rewrite E1, E2, E3, E4, E5, E6, E7, E8.
Qed.
Lemma data_into_contents old d : blob_ok D_SIZE d -> esz old = 0%nat -> esz (data_into old d) = esz d /\ contents (data_into old d) = contents d.
Proof.
  intros Hd Ho. unfold data_into. case_bool_decide as Hs; [split; [done|by apply (blob_into_contents D_SIZE)]|].
  assert (esz d = 0%nat) as E by lia. split; [congruence|]. unfold contents. by rewrite Ho, E, !take_0.
Qed.
Lemma frame_into_text old f : blob_ok D_SIZE (f_D f) -> esz (f_D old) = 0%nat -> frame_text (frame_into old f) = frame_text f.
Proof. intros Hd Ho. destruct (data_into_contents (f_D old) (f_D f) Hd Ho). by apply frame_text_ext. Qed.

Section Crypto.
Context `{SodiumSpec} `{!SodiumSign}.

Lemma crypt_twice t k n : length k = 32%nat -> length n = 32%nat -> crypt_buf (crypt_buf t k n) k n = t.
Proof.
  intros Hk Hn. unfold crypt_buf, xchacha20. destruct (stream_xor_total t (take 24 n) k) as [c Ec]; [rewrite length_take; lia|done|].
  rewrite Ec. cbn [default from_option id]. by rewrite (stream_xor_inv _ _ _ _ Ec).
Qed.
Lemma crypt_buf_length t k n : length (crypt_buf t k n) = length t.
Proof. unfold crypt_buf, xchacha20. destruct (stream_xor t (take 24 n) k) eqn:E; cbn [default from_option id]; [by apply stream_xor_length in E|done]. Qed.

Definition identity_ok (i : Identity) : Prop :=
  length (id_signkey i) = 64%nat /\ encryption_key (id_enckey i) /\ info_ok (pub i) /\ addr_ok (pub i)
  /\ signkey (pub i) = toPublic (id_signkey i) /\ enckey (pub i) = toPublic (id_enckey i).
(** A frame before its data is put in *)
Definition frame_ready (f : ProtocolFrame) : Prop :=
  length (f_C f) = PQCipherBlock_SIZE /\ length (ebuf (f_D f)) = D_SIZE /\ in_width 64 (f_R f) /\ length (f_N f) = 32%nat
  /\ length (f_F f) = PATHIDSIZE /\ length (f_T f) = CONVOTAG /\ f_version f = proto_version.
Lemma assign_blob e t : length (ebuf e) = D_SIZE -> (length t <= D_SIZE)%nat ->
  blob_ok D_SIZE (Encrypted_assign D_SIZE e t) /\ contents (Encrypted_assign D_SIZE e t) = t.
Proof.
  intros He Ht. unfold Encrypted_assign. rewrite bool_decide_eq_true_2 by done. unfold blob_ok, contents. cbn [ebuf esz]. split.
  - split; [rewrite length_store; lia|done].
  - unfold store. rewrite take_0. cbn [app]. by apply take_app_length'.
Qed.
(** What [EncryptAndSign] makes of a message *)
Definition sealed (m : ProtocolMessage) (key : list Z) (f f' : ProtocolFrame) : Prop :=
  frame_ok f' /\ contents (f_D f') = crypt_buf (dict_text (pm_pairs m)) key (f_N f)
  /\ f_C f' = f_C f /\ f_R f' = f_R f /\ f_N f' = f_N f /\ f_F f' = f_F f /\ f_T f' = f_T f /\ f_S f' = f_S f.
Definition fits (m : ProtocolMessage) : Prop := (length (dict_text (pm_pairs m)) <= D_SIZE)%nat.
Lemma EncryptAndSign_spec m key i f : identity_ok i -> pm_ok m -> fits m -> frame_ready f ->
  exists f', EncryptAndSign m key i f = (true, f') /\ sealed m key f f' /\ Frame_Verify (pub i) f' = true.
Proof.
  intros (Hs & _ & _ & _ & Hp & _) Hm Hf (HC & HD & HR & HN & HF & HT & HV). unfold EncryptAndSign.
  rewrite (encode_writes _ _ _ (pm_writes m Hm)) by (unfold fits, D_SIZE in Hf; unfold MAX_PROTOCOL_MESSAGE_SIZE; lia).
  set (c := crypt_buf _ key (f_N f)). assert (length c <= D_SIZE)%nat as Hc by (unfold c; by rewrite crypt_buf_length).
  destruct (assign_blob (f_D f) c HD Hc) as [Bo Bc]. set (d := Encrypted_assign D_SIZE (f_D f) c) in *.
  set (f1 := set_f_Z (zero SIGSIZE) (set_f_D d f)). assert (frame_ok f1) as Ok by (by unfold frame_ok; split_and!).
  unfold frame_text at 1. change (set_f_Z (zero SIGSIZE) f1) with f1. rewrite (encode_writes _ _ _ (frame_writes f1 Ok) (frame_length f1 Ok)).
  unfold Identity_Sign, sign. destruct (sign_total (dict_text (frame_pairs f1)) (id_signkey i) Hs) as [z Ez]. rewrite Ez. exists (set_f_Z z f1). split; [done|].
  destruct (sign_verifies _ _ _ Hs Ez) as [Lz Vz]. split.
  - split; [|done]. destruct Ok as (O1 & O2 & O3 & O4 & O5 & O6 & O7 & O8). by unfold frame_ok; split_and!.
  - unfold Frame_Verify, frame_text. change (set_f_Z (zero SIGSIZE) (set_f_Z z f1)) with f1. rewrite (encode_writes _ _ _ (frame_writes f1 Ok) (frame_length f1 Ok)).
    unfold ServiceInfo_Verify, verify. rewrite Hp. exact Vz.
Qed.
Lemma sealed_decrypts m key f f' old : length key = 32%nat -> length (f_N f) = 32%nat -> pm_ok m -> addr_ok (sender m) -> sealed m key f f' -> esz (f_D old) = 0%nat ->
  forall t, t = zero CONVOTAG -> DecryptPayloadInto key (ProtocolMessage_new t) (frame_into old f') = Done (true, m).
Proof.
  intros Hk HN Hm Ha (Ok & Ec & _ & _ & EN & _) Ho t ->. destruct (data_into_contents (f_D old) (f_D f')) as [_ E]; [apply Ok|done|].
  unfold DecryptPayloadInto, frame_into. fields. rewrite E, Ec, EN, crypt_twice by done.
  assert (rem (Buf (dict_text (pm_pairs m)) 0) = dict_text (pm_pairs m) ++ []) as Er by (by rewrite app_nil_r).
  pose proof (pm_decodes m (ProtocolMessage_new (zero CONVOTAG)) _ [] Hm ltac:(done) Er) as Hd. unfold sz in Hd. cbn [base] in Hd. rewrite Hd. cbn [obind ProtocolMessage_new sender ServiceInfo_new m_CachedAddr].
  rewrite info_into_fresh; [by destruct m|apply Hm|done].
Qed.
Lemma received_verifies svc old f : blob_ok D_SIZE (f_D f) -> esz (f_D old) = 0%nat -> Frame_Verify svc (frame_into old f) = Frame_Verify svc f.
Proof. intros Hd Ho. unfold Frame_Verify. by rewrite frame_into_text. Qed.
End Crypto.

(** ** What is not tested *)

(** A text that names two senders, the second one the signer: the address that was cached
    for the first sender stays. *)
Definition spoofed_pairs (v : ServiceInfo) (m : ProtocolMessage) : list (list Z * list Z) := [([115], dict_text (info_pairs v))] ++ pm_pairs m.
Lemma sender_address_spoofed v m : pm_ok m -> info_ok v -> addr_ok v -> vanity v = zero VANITY -> IsZero (signkey v) = false ->
  exists m' b, bencode_decode_dict (S (S (length (dict_text (spoofed_pairs v m))))) ProtocolMessage_DecodeKey (ProtocolMessage_new (zero CONVOTAG)) (Buf (dict_text (spoofed_pairs v m)) 0) = Done (true, b, m')
    /\ signkey (sender m') = signkey (sender m) /\ enckey (sender m') = enckey (sender m) /\ payload m' = payload m /\ tag m' = tag m /\ Addr (sender m') = signkey v.
Proof.
  intros Hm Hv Ha Hn Hz. set (m1 := set_sender v (ProtocolMessage_new (zero CONVOTAG))).
  assert (R : reads_all (key_sink ProtocolMessage_DecodeKey) (spoofed_pairs v m) (ProtocolMessage_new (zero CONVOTAG)) (set_sender (info_into (m_CachedAddr v) (sender m)) m)).
  { unfold spoofed_pairs. apply (reads_all_app _ _ _ _ m1); [|apply (pm_reads m m1 Hm); by split_and!]. cbn [reads_all]. unfold ProtocolMessage_new, m1 in *. pm_entry ltac:(pm_hit). cbn [ServiceInfo_new m_CachedAddr]. by rewrite info_into_fresh. }
  eexists _, _. split; [apply (dict_decodes _ _ _ _ (Buf (dict_text (spoofed_pairs v m)) 0) [] R); by rewrite app_nil_r|].
  unfold Addr, info_into, UpdateAddr. fields. unfold addr_ok in Ha. rewrite Ha, Hz. fields. cbn [sender set_sender]. rewrite Hz. by fields.
Qed.

Section Oversized.
Context `{SodiumSpec} `{!SodiumSign}.
(** A message longer than the data of a frame is dropped, and the frame is signed without it. *)
Lemma oversized_message_dropped m key i array : identity_ok i -> pm_ok m -> length array = D_SIZE ->
  (D_SIZE < length (dict_text (pm_pairs m)) < MAX_PROTOCOL_MESSAGE_SIZE)%nat ->
  exists f, EncryptAndSign m key i (Frame_new array) = (true, f) /\ contents (f_D f) = [].
Proof.
  intros (Hs & _) Hm Harr Hl. unfold EncryptAndSign. rewrite (encode_writes _ _ _ (pm_writes m Hm)) by lia. unfold Encrypted_assign. rewrite bool_decide_eq_false_2 by (rewrite crypt_buf_length; lia).
  set (f1 := set_f_Z _ _). assert (frame_ok f1) as Ok. { unfold frame_ok, f1, Frame_new, Frame_Clear. fields. split_and!; try done. split; cbn; [done|lia]. }
  unfold frame_text. change (set_f_Z (zero SIGSIZE) f1) with f1. rewrite (encode_writes _ _ _ (frame_writes f1 Ok) (frame_length f1 Ok)).
  unfold Identity_Sign, sign. destruct (sign_total (dict_text (frame_pairs f1)) (id_signkey i) Hs) as [z ->]. by eexists.
Qed.
End Oversized.
