(* ===== verification/Convo.v ===== *)
(** * Conversations of hidden services

    The sessions of an endpoint ([service/endpoint.cpp], [session.cpp]), the handling of
    frames ([protocol.cpp]), key exchange ([async_key_exchange.cpp]) and sending
    ([sendcontext.cpp], [outbound_context.cpp]).  Work for the thread pool and calls for
    the event loop are lists in the endpoint; running one of them is an operation.  A path
    is seen through its introduction, its last router and whether it is ready.  The queues
    are the bounded ones the lock-free queue implements.  Triggering the pump of the
    router is left out. *)

From S2P Require Import Prelude Buffer Bencode Codec Crypto Path PathBuild LinkMessages Service.
Open Scope Z_scope.

Abbreviation ConvoTag := (list Z).
Abbreviation Address := (list Z).
Definition QueueSize : nat := 512.
Definition tryPushBack {A} (q : list A) (x : A) : list A := if bool_decide (length q < QueueSize)%nat then q ++ [x] else q.

(** [path::Path] *)
Record PathView := mkPathView { p_intro : Introduction; p_endpoint : list Z; p_ready : bool }.
(** [PathSet::GetPathByRouter]: the last of the fastest ready paths *)
Definition better (chosen : option PathView) (p : PathView) : option PathView :=
  match chosen with
  | None => Some p
  | Some c => if negb (latency (p_intro c) =? 0) && (latency (p_intro p) <? latency (p_intro c)) then Some p else chosen
  end.
Definition GetPathByRouter (id : list Z) (paths : list PathView) : option PathView :=
  fold_left (fun chosen p => if p_ready p && bool_decide (p_endpoint p = id) then better chosen p else chosen) paths None.

(** ** Sessions *)

Record Session := mkSession {
  replyIntro : Introduction;
  sharedKey : list Z;
  remote : ServiceInfo;
  ss_intro : Introduction;
  ss_seqno : Z;
  messagesSend : Z;
  messagesRecv : Z;
  inbound : bool;
  forever : bool;
  lastSend : Z;
  lastRecv : Z }.
Definition Session_new : Session := mkSession Introduction_new (zero 32) ServiceInfo_new Introduction_new 0 0 0 false false 0 0.
Definition set_replyIntro (v : Introduction) (s : Session) : Session := mkSession v (sharedKey s) (remote s) (ss_intro s) (ss_seqno s) (messagesSend s) (messagesRecv s) (inbound s) (forever s) (lastSend s) (lastRecv s).
Definition set_sharedKey (v : list Z) (s : Session) : Session := mkSession (replyIntro s) v (remote s) (ss_intro s) (ss_seqno s) (messagesSend s) (messagesRecv s) (inbound s) (forever s) (lastSend s) (lastRecv s).
Definition set_ss_intro (v : Introduction) (s : Session) : Session := mkSession (replyIntro s) (sharedKey s) (remote s) v (ss_seqno s) (messagesSend s) (messagesRecv s) (inbound s) (forever s) (lastSend s) (lastRecv s).
Definition set_ss_seqno (v : Z) (s : Session) : Session := mkSession (replyIntro s) (sharedKey s) (remote s) (ss_intro s) v (messagesSend s) (messagesRecv s) (inbound s) (forever s) (lastSend s) (lastRecv s).
(** A session that was just made for [info] *)
Definition session_for (info : ServiceInfo) (inb : bool) : Session := mkSession Introduction_new (zero 32) info Introduction_new 0 0 0 inb false 0 0.
Definition Session_TX (now : Z) (s : Session) : Session := mkSession (replyIntro s) (sharedKey s) (remote s) (ss_intro s) (ss_seqno s) (u64 (messagesSend s + 1)) (messagesRecv s) (inbound s) (forever s) now (lastRecv s).
Definition Session_RX (now : Z) (s : Session) : Session := mkSession (replyIntro s) (sharedKey s) (remote s) (ss_intro s) (ss_seqno s) (messagesSend s) (u64 (messagesRecv s + 1)) (inbound s) (forever s) (lastSend s) now.
Definition SessionLifetime : Z := 2 * 1200000.
Definition Session_IsExpired (now lifetime : Z) (s : Session) : bool :=
  if forever s then false
  else
    let lastUsed := Z.max (lastSend s) (lastRecv s) in
    if lastUsed =? 0 then IsExpired now (ss_intro s) else (lastUsed <=? now) && (lifetime <? now - lastUsed).

(** ** The endpoint *)

(** [routing::PathTransferMessage] without its nonce, and the path it goes out on *)
Record Transfer := mkTransfer { t_P : list Z; t_T : ProtocolFrame; t_path : PathView }.
Record RecvDataEvent := mkRecv { fromPath : PathView; pathid : list Z; ev_msg : ProtocolMessage }.
Inductive AuthResultCode := eAuthAccepted | eAuthRejected | eAuthFailed | eAuthRateLimit | eAuthPaymentRequired.
(** A key exchange of the outbound context [kx_ctx] *)
Record KeyExchangeJob := mkKx {
  kx_ctx : nat;
  kx_remote : ServiceInfo;
  kx_introPubKey : list Z;
  kx_remoteIntro : Introduction;
  kx_tag : ConvoTag;
  kx_msg : ProtocolMessage;
  kx_path : PathView }.
(** Work for the thread pool *)
Inductive Work :=
  | DecryptIntro (path : PathView) (frame : ProtocolFrame)
  | DecryptData (path : PathView) (frame : ProtocolFrame) (si : ServiceInfo) (shared : list Z)
  | Exchange (kx : KeyExchangeJob) (frame : ProtocolFrame)
  | SealReply (P : list Z) (frame : ProtocolFrame) (path : PathView) (m : ProtocolMessage) (K : list Z)
  | SealSend (ctx : nat) (frame : ProtocolFrame) (m : ProtocolMessage) (shared : list Z) (path : PathView).
(** A message that waits for the result of its authentication *)
Record AuthJob := mkAuth { au_path : PathView; au_msg : ProtocolMessage; au_from : list Z; au_key : list Z }.
(** Calls for the event loop *)
Inductive Call :=
  | ResetTag (tag : ConvoTag) (path : PathView) (from : list Z)
  | Authenticated (job : AuthJob)
  | ExchangeDone (kx : KeyExchangeJob) (key : list Z) (frame : ProtocolFrame).
(** [SendContext] and [OutboundContext], as far as they send *)
Record Context := mkContext {
  remoteIdent : ServiceInfo;
  sntrupKey : list Z;
  addressKeys : ServiceInfo;
  remoteIntro : Introduction;
  currentConvoTag : ConvoTag;
  sequenceNo : Z;
  estimatedRTT : Z;
  markedBad : bool;
  generatedIntro : bool;
  sentIntro : bool;
  cx_paths : list PathView;
  cx_SendQueue : list Transfer }.
Definition set_sequenceNo (v : Z) (c : Context) : Context := mkContext (remoteIdent c) (sntrupKey c) (addressKeys c) (remoteIntro c) (currentConvoTag c) v (estimatedRTT c) (markedBad c) (generatedIntro c) (sentIntro c) (cx_paths c) (cx_SendQueue c).
Definition set_generatedIntro (v : bool) (c : Context) : Context := mkContext (remoteIdent c) (sntrupKey c) (addressKeys c) (remoteIntro c) (currentConvoTag c) (sequenceNo c) (estimatedRTT c) (markedBad c) v (sentIntro c) (cx_paths c) (cx_SendQueue c).
Definition set_sentIntro (v : bool) (c : Context) : Context := mkContext (remoteIdent c) (sntrupKey c) (addressKeys c) (remoteIntro c) (currentConvoTag c) (sequenceNo c) (estimatedRTT c) (markedBad c) (generatedIntro c) v (cx_paths c) (cx_SendQueue c).
Definition set_cx_SendQueue (v : list Transfer) (c : Context) : Context := mkContext (remoteIdent c) (sntrupKey c) (addressKeys c) (remoteIntro c) (currentConvoTag c) (sequenceNo c) (estimatedRTT c) (markedBad c) (generatedIntro c) (sentIntro c) (cx_paths c) v.

Section Endpoint.
Context `{Sodium} `{!Kem rng}.

Record Endpoint := mkEndpoint {
  m_Identity : Identity;
  m_Sessions : gmap ConvoTag Session;
  m_OutboundSessions : gset Address;
  m_ExitEnabled : bool;
  m_quic : bool;
  m_AuthPolicy : bool;
  ep_paths : list PathView;
  m_InboundTrafficQueue : list ProtocolMessage;
  m_SendQueue : list Transfer;
  m_RecvQueue : list RecvDataEvent;
  contexts : list Context;
  works : list Work;
  calls : list Call;
  auths : list AuthJob;
  rnd : rng;
  m_PendingTraffic : gmap Address (list (list Z * Z));
  (* addresses [EnsurePathToService] was asked for *)
  ensured : list Address }.
Definition set_Sessions (v : gmap ConvoTag Session) (e : Endpoint) : Endpoint := mkEndpoint (m_Identity e) v (m_OutboundSessions e) (m_ExitEnabled e) (m_quic e) (m_AuthPolicy e) (ep_paths e) (m_InboundTrafficQueue e) (m_SendQueue e) (m_RecvQueue e) (contexts e) (works e) (calls e) (auths e) (rnd e) (m_PendingTraffic e) (ensured e).
Definition set_OutboundSessions (v : gset Address) (e : Endpoint) : Endpoint := mkEndpoint (m_Identity e) (m_Sessions e) v (m_ExitEnabled e) (m_quic e) (m_AuthPolicy e) (ep_paths e) (m_InboundTrafficQueue e) (m_SendQueue e) (m_RecvQueue e) (contexts e) (works e) (calls e) (auths e) (rnd e) (m_PendingTraffic e) (ensured e).
Definition set_InboundTrafficQueue (v : list ProtocolMessage) (e : Endpoint) : Endpoint := mkEndpoint (m_Identity e) (m_Sessions e) (m_OutboundSessions e) (m_ExitEnabled e) (m_quic e) (m_AuthPolicy e) (ep_paths e) v (m_SendQueue e) (m_RecvQueue e) (contexts e) (works e) (calls e) (auths e) (rnd e) (m_PendingTraffic e) (ensured e).
Definition set_SendQueue (v : list Transfer) (e : Endpoint) : Endpoint := mkEndpoint (m_Identity e) (m_Sessions e) (m_OutboundSessions e) (m_ExitEnabled e) (m_quic e) (m_AuthPolicy e) (ep_paths e) (m_InboundTrafficQueue e) v (m_RecvQueue e) (contexts e) (works e) (calls e) (auths e) (rnd e) (m_PendingTraffic e) (ensured e).
Definition set_RecvQueue (v : list RecvDataEvent) (e : Endpoint) : Endpoint := mkEndpoint (m_Identity e) (m_Sessions e) (m_OutboundSessions e) (m_ExitEnabled e) (m_quic e) (m_AuthPolicy e) (ep_paths e) (m_InboundTrafficQueue e) (m_SendQueue e) v (contexts e) (works e) (calls e) (auths e) (rnd e) (m_PendingTraffic e) (ensured e).
Definition set_contexts (v : list Context) (e : Endpoint) : Endpoint := mkEndpoint (m_Identity e) (m_Sessions e) (m_OutboundSessions e) (m_ExitEnabled e) (m_quic e) (m_AuthPolicy e) (ep_paths e) (m_InboundTrafficQueue e) (m_SendQueue e) (m_RecvQueue e) v (works e) (calls e) (auths e) (rnd e) (m_PendingTraffic e) (ensured e).
Definition set_works (v : list Work) (e : Endpoint) : Endpoint := mkEndpoint (m_Identity e) (m_Sessions e) (m_OutboundSessions e) (m_ExitEnabled e) (m_quic e) (m_AuthPolicy e) (ep_paths e) (m_InboundTrafficQueue e) (m_SendQueue e) (m_RecvQueue e) (contexts e) v (calls e) (auths e) (rnd e) (m_PendingTraffic e) (ensured e).
Definition set_calls (v : list Call) (e : Endpoint) : Endpoint := mkEndpoint (m_Identity e) (m_Sessions e) (m_OutboundSessions e) (m_ExitEnabled e) (m_quic e) (m_AuthPolicy e) (ep_paths e) (m_InboundTrafficQueue e) (m_SendQueue e) (m_RecvQueue e) (contexts e) (works e) v (auths e) (rnd e) (m_PendingTraffic e) (ensured e).
Definition set_auths (v : list AuthJob) (e : Endpoint) : Endpoint := mkEndpoint (m_Identity e) (m_Sessions e) (m_OutboundSessions e) (m_ExitEnabled e) (m_quic e) (m_AuthPolicy e) (ep_paths e) (m_InboundTrafficQueue e) (m_SendQueue e) (m_RecvQueue e) (contexts e) (works e) (calls e) v (rnd e) (m_PendingTraffic e) (ensured e).
Definition set_rnd (v : rng) (e : Endpoint) : Endpoint := mkEndpoint (m_Identity e) (m_Sessions e) (m_OutboundSessions e) (m_ExitEnabled e) (m_quic e) (m_AuthPolicy e) (ep_paths e) (m_InboundTrafficQueue e) (m_SendQueue e) (m_RecvQueue e) (contexts e) (works e) (calls e) (auths e) v (m_PendingTraffic e) (ensured e).
Definition set_PendingTraffic (v : gmap Address (list (list Z * Z))) (e : Endpoint) : Endpoint := mkEndpoint (m_Identity e) (m_Sessions e) (m_OutboundSessions e) (m_ExitEnabled e) (m_quic e) (m_AuthPolicy e) (ep_paths e) (m_InboundTrafficQueue e) (m_SendQueue e) (m_RecvQueue e) (contexts e) (works e) (calls e) (auths e) (rnd e) v (ensured e).
Definition set_ensured (v : list Address) (e : Endpoint) : Endpoint := mkEndpoint (m_Identity e) (m_Sessions e) (m_OutboundSessions e) (m_ExitEnabled e) (m_quic e) (m_AuthPolicy e) (ep_paths e) (m_InboundTrafficQueue e) (m_SendQueue e) (m_RecvQueue e) (contexts e) (works e) (calls e) (auths e) (rnd e) (m_PendingTraffic e) v.

Definition upd_session (tag : ConvoTag) (f : Session -> Session) (e : Endpoint) : Endpoint := set_Sessions (alter f tag (m_Sessions e)) e.
Definition QueueWork (w : Work) (e : Endpoint) : Endpoint := set_works (works e ++ [w]) e.
Definition loop_call (c : Call) (e : Endpoint) : Endpoint := set_calls (calls e ++ [c]) e.
Definition Randomize (n : nat) (e : Endpoint) : list Z * Endpoint := let '(x, g) := randombytes n (rnd e) in (x, set_rnd g e).

(** *** Bookkeeping *)

Definition WantsOutboundSession (addr : Address) (e : Endpoint) : bool := bool_decide (addr ∈ m_OutboundSessions e).
Definition MarkAddressOutbound (addr : Address) (e : Endpoint) : Endpoint := set_OutboundSessions ({[addr]} ∪ m_OutboundSessions e) e.
Definition convo_with (P : bool -> bool) (addr : Address) (e : Endpoint) : bool :=
  existsb (fun s => bool_decide (Addr (remote s.2) = addr) && P (inbound s.2)) (map_to_list (m_Sessions e)).
Definition HasInboundConvo : Address -> Endpoint -> bool := convo_with (fun b => b).
Definition HasOutboundConvo : Address -> Endpoint -> bool := convo_with negb.
Definition HasConvoTag (t : ConvoTag) (e : Endpoint) : bool := bool_decide (is_Some (m_Sessions e !! t)).
(** The address of [info] is cached before it is copied. *)
Definition PutSenderFor (tag : ConvoTag) (info : ServiceInfo) (inb : bool) (e : Endpoint) : Endpoint :=
  if IsZero (Addr info) then e
  else
    match m_Sessions e !! tag with
    | Some _ => e
    | None =>
        if WantsOutboundSession (Addr info) e && inb then e
        else set_Sessions (<[tag := session_for (UpdateAddr info) inb]> (m_Sessions e)) e
    end.
Definition RemoveAllConvoTagsFor (addr : Address) (e : Endpoint) : nat * Endpoint :=
  let keep := base.filter (fun s => Addr (remote s.2) <> addr) (m_Sessions e) in
  ((size (m_Sessions e) - size keep)%nat, set_Sessions keep e).
Definition GetSenderFor (tag : ConvoTag) (e : Endpoint) : option ServiceInfo := (fun s => UpdateAddr (remote s)) <$> m_Sessions e !! tag.
Definition PutIntroFor (tag : ConvoTag) (intro : Introduction) (e : Endpoint) : Endpoint :=
  set_Sessions (<[tag := set_ss_intro intro (default Session_new (m_Sessions e !! tag))]> (m_Sessions e)) e.
Definition GetIntroFor (tag : ConvoTag) (e : Endpoint) : option Introduction := ss_intro <$> m_Sessions e !! tag.
Definition PutReplyIntroFor (tag : ConvoTag) (intro : Introduction) (e : Endpoint) : Endpoint := upd_session tag (set_replyIntro intro) e.
Definition GetReplyIntroFor (tag : ConvoTag) (e : Endpoint) : option Introduction := replyIntro <$> m_Sessions e !! tag.
Definition GetCachedSessionKeyFor (tag : ConvoTag) (e : Endpoint) : option (list Z) := sharedKey <$> m_Sessions e !! tag.
Definition PutCachedSessionKeyFor (tag : ConvoTag) (k : list Z) (e : Endpoint) : Endpoint :=
  set_Sessions (<[tag := set_sharedKey k (default Session_new (m_Sessions e !! tag))]> (m_Sessions e)) e.
Definition ConvoTagTX (now : Z) (tag : ConvoTag) (e : Endpoint) : Endpoint := upd_session tag (Session_TX now) e.
Definition ConvoTagRX (now : Z) (tag : ConvoTag) (e : Endpoint) : Endpoint := upd_session tag (Session_RX now) e.
Definition RemoveConvoTag (t : ConvoTag) (e : Endpoint) : Endpoint := set_Sessions (delete t (m_Sessions e)) e.
Definition GetSeqNoForConvo (tag : ConvoTag) (e : Endpoint) : option Z * Endpoint :=
  match m_Sessions e !! tag with
  | None => (None, e)
  | Some s => (Some (ss_seqno s), upd_session tag (fun s => set_ss_seqno (u64 (ss_seqno s + 1)) s) e)
  end.
Definition ExpireConvoSessions (now : Z) (e : Endpoint) : Endpoint :=
  set_Sessions (base.filter (fun s => Session_IsExpired now SessionLifetime s.2 = false) (m_Sessions e)) e.

(** *** Messages that were received *)

Context (ExitMap_ContainsValue : Address -> bool).
Definition ProcessDataMessage (msg : ProtocolMessage) (e : Endpoint) : bool * Endpoint :=
  if ((proto msg =? Exit) && (m_ExitEnabled e || ExitMap_ContainsValue (Addr (sender msg)))) || (proto msg =? TrafficV4) || (proto msg =? TrafficV6)
     || ((proto msg =? QUIC) && m_quic e)
  then (true, set_InboundTrafficQueue (tryPushBack (m_InboundTrafficQueue e) msg) e)
  else if proto msg =? Control then (true, e) else (false, e).
Definition HandleDataMessage (now : Z) (p : PathView) (from : list Z) (msg : ProtocolMessage) (e : Endpoint) : bool * Endpoint :=
  let e := PutSenderFor (tag msg) (sender msg) true e in
  let intro := if HasInboundConvo (Addr (sender msg)) e then set_router (p_endpoint p) (set_pathID from (introReply msg)) else introReply msg in
  let e := PutReplyIntroFor (tag msg) intro e in
  let e := ConvoTagRX now (tag msg) e in
  ProcessDataMessage msg e.
Definition FlushRecvData (now : Z) (e : Endpoint) : Endpoint :=
  fold_left (fun e ev => (HandleDataMessage now (fromPath ev) (pathid ev) (ev_msg ev) e).2) (m_RecvQueue e) (set_RecvQueue [] e).

(** *** Frames *)

(** [array] is what the data array of a new frame holds. *)
Definition ResetConvoTag (array : list Z) (tag : ConvoTag) (p : PathView) (from : list Z) (e : Endpoint) : Endpoint :=
  let f := set_f_F (pathID (p_intro p)) (set_f_T tag (set_f_R 1 (Frame_new array))) in
  let f := (Frame_Sign (m_Identity e) f).2 in
  let e := RemoveConvoTag tag e in
  set_SendQueue (tryPushBack (m_SendQueue e) (mkTransfer from f p)) e.
Definition AsyncDecryptAndVerify (p : PathView) (f : ProtocolFrame) (e : Endpoint) : bool * Endpoint :=
  if IsZero (f_T f) then (true, QueueWork (DecryptIntro p f) e)
  else
    match GetCachedSessionKeyFor (f_T f) e with
    | None => (false, e)
    | Some shared =>
        if IsZero shared then (false, e)
        else
          match GetSenderFor (f_T f) e with
          | None => (false, e)
          | Some si => if IsZero (Addr si) then (false, e) else (true, QueueWork (DecryptData p f si shared) e)
          end
    end.
Definition HandleHiddenServiceFrame (array : list Z) (p : PathView) (f : ProtocolFrame) (e : Endpoint) : bool * Endpoint :=
  if negb (f_R f =? 0) then
    match GetSenderFor (f_T f) e with
    | None => (false, e)
    | Some si => if negb (Frame_Verify si f) then (false, e) else (true, RemoveConvoTag (f_T f) e)
    end
  else
    let '(ok, e) := AsyncDecryptAndVerify p f e in
    (true, if ok then e else ResetConvoTag array (f_T f) p (f_F f) e).

(** [AsyncProcessAuthMessage]: one attempt at a time for a tag *)
Definition AsyncProcessAuthMessage (job : AuthJob) (e : Endpoint) : Endpoint :=
  if m_AuthPolicy e then
    if existsb (fun j => bool_decide (tag (au_msg j) = tag (au_msg job))) (auths e) then e else set_auths (auths e ++ [job]) e
  else loop_call (Authenticated job) e.
(** [AsyncFrameDecrypt::Work] *)
Definition DecryptIntro_Work (path : PathView) (frame : ProtocolFrame) (e : Endpoint) : outcome Endpoint :=
  match pqe_decrypt (f_C frame) (pq_keypair_to_secret (id_pq (m_Identity e))) with
  | None => Done e
  | Some K =>
      let! (ok, msg) := DecryptPayloadInto K (ProtocolMessage_new (zero CONVOTAG)) frame in
      if negb ok then Done e
      else if negb (Frame_Verify (sender msg) frame) then Done e
      else if HasConvoTag (tag msg) e then Done e
      else
        match KeyExchange dh_server (sender msg) (f_N frame) (m_Identity e) with
        | None => Done e
        | Some shared => Done (AsyncProcessAuthMessage (mkAuth path msg (f_F frame) (session_key K shared)) e)
        end
  end.
Definition DecryptData_Work (path : PathView) (frame : ProtocolFrame) (si : ServiceInfo) (shared : list Z) (e : Endpoint) : outcome Endpoint :=
  if negb (Frame_Verify si frame) then Done (loop_call (ResetTag (f_T frame) path (f_F frame)) e)
  else
    let! (ok, msg) := DecryptPayloadInto shared (ProtocolMessage_new (zero CONVOTAG)) frame in
    if negb ok then Done (loop_call (ResetTag (f_T frame) path (f_F frame)) e)
    else Done (set_RecvQueue (tryPushBack (m_RecvQueue e) (mkRecv path (f_F frame) msg)) e).
(** [AuthResultCodeAsInt] *)
Definition AuthResultCodeAsInt (c : AuthResultCode) : Z :=
  match c with eAuthAccepted => 0 | eAuthRejected => 1 | eAuthFailed => 2 | eAuthRateLimit => 3 | eAuthPaymentRequired => 4 end.
Definition SendAuthResult (array : list Z) (path : PathView) (replyPath tag : list Z) (code : AuthResultCode) (reason : list Z) (e : Endpoint) : Endpoint :=
  if negb (m_ExitEnabled e) || negb (m_AuthPolicy e) then e
  else
    let f := set_f_F (pathID (p_intro path)) (set_f_T tag (set_f_R (AuthResultCodeAsInt code) (Frame_new array))) in
    let '(n, e) := Randomize 32 e in
    let f := set_f_N n f in
    let send f := set_SendQueue (tryPushBack (m_SendQueue e) (mkTransfer replyPath f path)) e in
    match code with
    | eAuthAccepted =>
        let msg := set_proto Auth (PutBuffer reason (ProtocolMessage_new (zero CONVOTAG))) in
        match GetReplyIntroFor tag e, GetCachedSessionKeyFor tag e with
        | Some intro, Some key =>
            let '(ok, f) := EncryptAndSign (set_sender (pub (m_Identity e)) (set_introReply intro msg)) key (m_Identity e) f in
            if ok then send f else e
        | _, _ => e
        end
    | _ => let '(ok, f) := Frame_Sign (m_Identity e) f in if ok then send f else e
    end.

(** *** Sending *)

Definition upd_context (n : nat) (f : Context -> Context) (e : Endpoint) : Endpoint := set_contexts (alter f n (contexts e)) e.
(** [SendContext::Send] *)
Definition Send (n : nat) (f : ProtocolFrame) (path : PathView) (e : Endpoint) : bool * Endpoint :=
  match contexts e !! n with
  | None => (false, e)
  | Some c =>
      if p_ready path && bool_decide (length (cx_SendQueue c) < QueueSize)%nat
      then (true, upd_context n (set_cx_SendQueue (cx_SendQueue c ++ [mkTransfer (pathID (remoteIntro c)) f path])) e)
      else (false, e)
  end.
(** [AsyncKeyExchange::Encrypt]: the results of the two exchanges are not tested. *)
Definition Exchange_Work (kx : KeyExchangeJob) (frame : ProtocolFrame) (e : Endpoint) : Endpoint :=
  let '(r, g) := pqe_encrypt (kx_introPubKey kx) (rnd e) in
  let e := set_rnd g e in
  let '(c, K) := default (take PQ_CIPHERTEXTSIZE (f_C frame), zero 32) r in
  let frame := set_f_C (c ++ drop PQ_CIPHERTEXTSIZE (f_C frame)) frame in
  let '(n, e) := Randomize 32 e in
  let frame := set_f_N n frame in
  let sharedSecret := default (zero 32) (KeyExchange dh_client (kx_remote kx) n (m_Identity e)) in
  let key := session_key K sharedSecret in
  let msg := set_pm_version proto_version (set_sender (pub (m_Identity e)) (set_tag (kx_tag kx) (kx_msg kx))) in
  let '(ok, frame) := EncryptAndSign msg K (m_Identity e) frame in
  if ok then loop_call (ExchangeDone (mkKx (kx_ctx kx) (kx_remote kx) (kx_introPubKey kx) (kx_remoteIntro kx) (kx_tag kx) msg (kx_path kx)) key frame) e else e.
(** [AsyncKeyExchange::Result] and the hook of [AsyncGenIntro]; that the introduction
    counts as sent when its latency has passed is a later step. *)
Definition Exchange_Result (kx : KeyExchangeJob) (key : list Z) (frame : ProtocolFrame) (e : Endpoint) : Endpoint :=
  let t := tag (kx_msg kx) in
  let e := PutSenderFor t (kx_remote kx) false e in
  let e := PutCachedSessionKeyFor t key e in
  let e := PutIntroFor t (kx_remoteIntro kx) e in
  let e := PutReplyIntroFor t (introReply (kx_msg kx)) e in
  (Send (kx_ctx kx) frame (kx_path kx) e).2.
Definition intro_timer (n : nat) (e : Endpoint) : Endpoint := upd_context n (set_sentIntro true) e.
Definition AsyncGenIntro (array : list Z) (payload : list Z) (t : Z) (n : nat) (e : Endpoint) : Endpoint :=
  match contexts e !! n with
  | None => e
  | Some c =>
      if generatedIntro c then e
      else if IsZero (router (remoteIntro c)) then e
      else
        match GetPathByRouter (router (remoteIntro c)) (cx_paths c) with
        | None => e
        | Some path =>
            let msg := set_introReply (p_intro path) (PutBuffer payload (set_proto t (ProtocolMessage_new (zero CONVOTAG)))) in
            let frame := set_f_R 0 (set_f_F (pathID (introReply msg)) (Frame_new array)) in
            let e := upd_context n (set_generatedIntro true) e in
            let e := PutSenderFor (currentConvoTag c) (addressKeys c) false e in
            QueueWork (Exchange (mkKx n (remoteIdent c) (sntrupKey c) (remoteIntro c) (currentConvoTag c) msg path) frame) e
        end
  end.
(** On an established tag; that another introduction is chosen without a path is left out. *)
Definition EncryptAndSendTo (array payload : list Z) (t : Z) (n : nat) (e : Endpoint) : Endpoint :=
  match contexts e !! n with
  | None => e
  | Some c =>
      let '(nonce, e) := Randomize 32 e in
      let T := currentConvoTag c in
      let S := u64 (sequenceNo c + 1) in
      let f := set_f_S S (set_f_T T (set_f_N nonce (set_f_R 0 (Frame_new array)))) in
      let e := upd_context n (set_sequenceNo S) e in
      match GetPathByRouter (router (remoteIntro c)) (cx_paths c) with
      | None => e
      | Some path =>
          match GetCachedSessionKeyFor T e with
          | None => e
          | Some shared =>
              let e := PutReplyIntroFor T (p_intro path) (PutIntroFor T (remoteIntro c) e) in
              match GetSeqNoForConvo T e with
              | (None, e) => e
              | (Some no, e) =>
                  let m := mkProtocolMessage t payload (p_intro path) (pub (m_Identity e)) T no proto_version in
                  QueueWork (SealSend n (set_f_F (pathID (p_intro path)) f) m shared path) e
              end
          end
      end
  end.
(** [auth] is the token for the remote endpoint, if there is one. *)
Definition AsyncEncryptAndSendTo (array : list Z) (auth : option (list Z)) (data : list Z) (protocol : Z) (n : nat) (e : Endpoint) : Endpoint :=
  match contexts e !! n with
  | None => e
  | Some c =>
      if sentIntro c then EncryptAndSendTo array data protocol n e
      else if generatedIntro c then e
      else match auth with Some token => AsyncGenIntro array token Auth n e | None => AsyncGenIntro array data protocol n e end
  end.
Definition ReadyToSend (c : Context) : bool :=
  if markedBad c then false else if IsZero (router (remoteIntro c)) then false
  else sentIntro c && bool_decide (is_Some (GetPathByRouter (router (remoteIntro c)) (cx_paths c))).
Definition contexts_to (addr : Address) (e : Endpoint) : list (nat * Context) :=
  base.filter (fun c => Addr (addressKeys c.2) = addr) (imap pair (contexts e)).

(** [GetBestConvoTagFor]; [order] is the order in which the map is visited. *)
Definition best_context (cs : list (nat * Context)) (t : ConvoTag) (best : option ConvoTag * Z) : option ConvoTag * Z :=
  fold_left (fun best c => if ReadyToSend c.2 && (0 <? estimatedRTT c.2) && (estimatedRTT c.2 <? best.2) then (Some t, estimatedRTT c.2) else best) cs best.
Fixpoint best_tag (order : list ConvoTag) (addr : Address) (e : Endpoint) (best : option ConvoTag * Z) : option ConvoTag :=
  match order with
  | [] => best.1
  | t :: order =>
      match m_Sessions e !! t with
      | None => best_tag order addr e best
      | Some s =>
          if IsZero t || negb (bool_decide (Addr (remote s) = addr)) then best_tag order addr e best
          else if bool_decide (addr = Addr (pub (m_Identity e))) then Some t
          else if inbound s then
            match GetPathByRouter (router (replyIntro s)) (ep_paths e) with
            | None => best_tag order addr e (Some t, best.2)
            | Some path =>
                let rttEstimate := (latency (replyIntro s) + latency (p_intro path)) * 2 in
                best_tag order addr e (if rttEstimate <? best.2 then (Some t, rttEstimate) else best)
            end
          else best_tag order addr e (best_context (contexts_to addr e) t best)
      end
  end.
Definition GetBestConvoTagFor (order : list ConvoTag) (addr : Address) (e : Endpoint) : option ConvoTag := best_tag order addr e (None, 30000).
(** A reply on a conversation of the other side: the result, or [None] when there is no
    conversation to use *)
Definition SendInbound (array : list Z) (order : list ConvoTag) (addr : Address) (data : list Z) (t : Z) (e : Endpoint) : option bool * Endpoint :=
  match GetBestConvoTagFor order addr e with
  | None => (None, e)
  | Some T =>
      match GetCachedSessionKeyFor T e, GetReplyIntroFor T e with
      | Some K, Some intro =>
          match GetPathByRouter (router intro) (ep_paths e) with
          | None => (Some false, e)
          | Some p =>
              let '(nonce, e) := Randomize 32 e in
              match GetSeqNoForConvo T e with
              | (None, e) => (Some false, e)
              | (Some no, e) =>
                  let m := mkProtocolMessage t data (p_intro p) (pub (m_Identity e)) T no proto_version in
                  let f := set_f_F (pathID (p_intro p)) (set_f_S no (set_f_N nonce (set_f_T T (Frame_new array)))) in
                  (Some true, QueueWork (SealReply (pathID intro) f p m K) e)
              end
          end
      | _, _ => (Some false, e)
      end
  end.
(** [EnsurePathToService], whose hook is [path_ensured] *)
Definition EnsurePathToService (addr : Address) (e : Endpoint) : Endpoint := set_ensured (ensured e ++ [addr]) e.
Definition SendToOrQueue (array : list Z) (order : list ConvoTag) (auth : option (list Z)) (addr : Address) (data : list Z) (t : Z) (e : Endpoint) : bool * Endpoint :=
  if bool_decide (data = []) then (false, e)
  else
    let '(r, e) := if HasInboundConvo addr e then SendInbound array order addr data t e else (None, e) in
    match r with
    | Some r => (r, e)
    | None =>
        if negb (WantsOutboundSession addr e) then (false, e)
        else
          match head (base.filter (fun c => ReadyToSend c.2 = true) (contexts_to addr e)) with
          | Some (n, _) => (true, AsyncEncryptAndSendTo array auth data t n e)
          | None => (true, EnsurePathToService addr (set_PendingTraffic (<[addr := default [] (m_PendingTraffic e !! addr) ++ [(data, t)]]> (m_PendingTraffic e)) e))
          end
    end.
(** The hook of [SendToOrQueue], with the context that was made for [addr] *)
Definition path_ensured (array : list Z) (auth : option (list Z)) (addr : Address) (ctx : option nat) (e : Endpoint) : Endpoint :=
  let e := match ctx with
           | Some n => fold_left (fun e pending => AsyncEncryptAndSendTo array auth pending.1 pending.2 n e) (default [] (m_PendingTraffic e !! addr)) e
           | None => e
           end in
  set_PendingTraffic (delete addr (m_PendingTraffic e)) e.

(** *** The thread pool and the event loop *)

Definition run_work (w : Work) (e : Endpoint) : outcome Endpoint :=
  match w with
  | DecryptIntro path frame => DecryptIntro_Work path frame e
  | DecryptData path frame si shared => DecryptData_Work path frame si shared e
  | Exchange kx frame => Done (Exchange_Work kx frame e)
  | SealReply P frame path m K =>
      let '(ok, f) := EncryptAndSign m K (m_Identity e) frame in
      Done (if ok then set_SendQueue (tryPushBack (m_SendQueue e) (mkTransfer P f path)) e else e)
  | SealSend n frame m shared path =>
      let '(ok, f) := EncryptAndSign m shared (m_Identity e) frame in Done (if ok then (Send n f path e).2 else e)
  end.
(** A worker takes the [k]th piece of work. *)
Definition work_step (k : nat) (e : Endpoint) : outcome Endpoint :=
  match works e !! k with None => Done e | Some w => run_work w (set_works (delete k (works e)) e) end.
(** The rest of [AsyncFrameDecrypt::Work], when the message was accepted *)
Definition auth_accepted (now : Z) (array reason : list Z) (job : AuthJob) (e : Endpoint) : Endpoint :=
  let msg := au_msg job in
  let e := PutSenderFor (tag msg) (sender msg) (negb (WantsOutboundSession (Addr (sender msg)) e)) e in
  let e := PutReplyIntroFor (tag msg) (introReply msg) e in
  let e := PutCachedSessionKeyFor (tag msg) (au_key job) e in
  let e := SendAuthResult array (au_path job) (au_from job) (tag msg) eAuthAccepted reason e in
  (HandleDataMessage now (au_path job) (au_from job) msg e).2.
Definition run_call (now : Z) (array : list Z) (c : Call) (e : Endpoint) : Endpoint :=
  match c with
  | ResetTag t path from => ResetConvoTag array t path from e
  | Authenticated job => auth_accepted now array [79; 75] job e
  | ExchangeDone kx key frame => Exchange_Result kx key frame e
  end.
Definition call_step (now : Z) (array : list Z) (e : Endpoint) : Endpoint :=
  match calls e with [] => e | c :: l => run_call now array c (set_calls l e) end.
(** The policy answers for the [k]th message; only an accepted one goes on. *)
Definition auth_step (now : Z) (array : list Z) (k : nat) (code : AuthResultCode) (reason : list Z) (e : Endpoint) : Endpoint :=
  match auths e !! k with
  | None => e
  | Some job => let e := set_auths (delete k (auths e)) e in match code with eAuthAccepted => auth_accepted now array reason job e | _ => e end
  end.
End Endpoint.
