(* ===== verification/ConvoProofs.v ===== *)
(** * Conversations come about and carry messages

    A client's first frame gives both endpoints the same key for its tag and delivers its
    payload; frames sent afterwards in either direction are decrypted to their message.
    The last part shows what the tests on a message do not cover. *)

From S2P Require Import Prelude Buffer Bencode Codec Crypto Path PathBuild LinkMessages LinkMessageProofs Service ServiceProofs Convo.
Open Scope Z_scope.

(** ** Sizes *)

Lemma introduction_bound i : introduction_ok i -> (length (dict_text (introduction_pairs i)) <= 145)%nat.
Proof.
  intros (Hr & Hp & Hl & Hx & Hv). unfold introduction_pairs. rewrite dict_text_length, !flat_map_app, !length_app.
  pose proof (opt_bound true [107] (enc_str (router i)) 37 eq_refl ltac:(pose proof (enc_str_bound (router i)); lia)).
  pose proof (opt_bound (0 <? latency i) [108] (enc_int (latency i)) _ eq_refl (enc_int_bound _ (time_width _ Hl))).
  pose proof (opt_bound true [112] (enc_str (pathID i)) 21 eq_refl ltac:(pose proof (enc_str_bound (pathID i)); unfold PATHIDSIZE in *; lia)).
  pose proof (opt_bound true [118] (enc_int (in_version i)) _ eq_refl (enc_int_bound _ Hv)).
  pose proof (opt_bound true [120] (enc_int (expiresAt i)) _ eq_refl (enc_int_bound _ (time_width _ Hx))). cbn [opt] in *.
  change [([112], ?x); ([118], ?y); ([120], ?z)] with ([([112], x)] ++ [([118], y)] ++ [([120], z)]). rewrite !flat_map_app, !length_app. lia.
Qed.
Lemma info_bound s : info_ok s -> (length (dict_text (info_pairs s)) <= 135)%nat.
Proof.
  intros (He & Hs & Hv & Hp). unfold info_pairs. rewrite dict_text_length, !flat_map_app, !length_app.
  pose proof (opt_bound true [101] (enc_str (enckey s)) 37 eq_refl ltac:(pose proof (enc_str_bound (enckey s)); lia)).
  pose proof (opt_bound true [115] (enc_str (signkey s)) 37 eq_refl ltac:(pose proof (enc_str_bound (signkey s)); lia)).
  pose proof (opt_bound true [118] (enc_int proto_version) _ eq_refl (enc_int_bound proto_version ltac:(done))).
  pose proof (opt_bound (negb (IsZero (vanity s))) [120] (enc_str (vanity s)) 21 eq_refl ltac:(pose proof (enc_str_bound (vanity s)); unfold VANITY in *; lia)). cbn [opt] in *.
  change [([101], ?x); ([115], ?y); ([118], ?z)] with ([([101], x)] ++ [([115], y)] ++ [([118], z)]). rewrite !flat_map_app, !length_app. lia.
Qed.
(** Every packet of 1500 bytes fits. *)
Lemma pm_fits m : pm_ok m -> (length (payload m) <= 1500)%nat -> fits m.
Proof.
  intros (Ha & _ & Hi & Hs & Ht & Hn & Hv) Hp. unfold fits, pm_pairs. rewrite dict_text_length, !flat_map_app, !length_app.
  pose proof (opt_bound true [97] (enc_int (proto m)) _ eq_refl (enc_int_bound _ Ha)).
  pose proof (opt_bound (negb (bool_decide (payload m = []))) [100] (enc_str (payload m)) 1505 eq_refl ltac:(pose proof (enc_str_bound (payload m)); lia)).
  pose proof (opt_bound true [105] _ _ eq_refl (introduction_bound _ Hi)). pose proof (opt_bound true [110] _ _ eq_refl (enc_int_bound _ Hn)).
  pose proof (opt_bound true [115] _ _ eq_refl (info_bound _ Hs)).
  pose proof (opt_bound (negb (IsZero (tag m))) [116] (enc_str (tag m)) 21 eq_refl ltac:(pose proof (enc_str_bound (tag m)); unfold CONVOTAG in *; lia)).
  pose proof (opt_bound true [118] _ _ eq_refl (enc_int_bound _ Hv)). cbn [opt] in *.
  change [([105], ?x); ([110], ?y); ([115], ?z)] with ([([105], x)] ++ [([110], y)] ++ [([115], z)]). rewrite !flat_map_app, !length_app. unfold D_SIZE. lia.
Qed.

(** ** Paths *)

Lemma path_by_router_ready id ps p : GetPathByRouter id ps = Some p -> p_ready p = true /\ p_endpoint p = id.
Proof.
  unfold GetPathByRouter. assert (G : forall c, (forall q, c = Some q -> p_ready q = true /\ p_endpoint q = id) ->
    fold_left (fun chosen p => if p_ready p && bool_decide (p_endpoint p = id) then better chosen p else chosen) ps c = Some p -> p_ready p = true /\ p_endpoint p = id).
  { induction ps as [|q ps IH]; intros c Hc E; [by apply Hc|]. cbn [fold_left] in E. apply IH in E; [done|].
    destruct (p_ready q) eqn:Eq; cbn [andb]; [|done]. case_bool_decide as Eb; [|done]. intros q' Hq. unfold better in Hq. destruct c as [c|]; [|by injection Hq as <-].
    destruct (negb _ && _); [by injection Hq as <-|by apply Hc]. }
  by apply G.
Qed.

Section Conversations.
Context `{SodiumSpec} `{!SodiumSign} `{!SodiumHonest} `{!Kem rng} `{!KemSpec rng}.
Context (ExitMap_ContainsValue : Address -> bool).

(** ** Receiving *)

(** A frame of [m] that the identity [i] sealed under [K] *)
Definition sealed_by (i : Identity) (K : list Z) (m : ProtocolMessage) (f : ProtocolFrame) : Prop :=
  exists f0, frame_ready f0 /\ sealed m K f0 f /\ Frame_Verify (pub i) f = true.
Definition message_ok (m : ProtocolMessage) : Prop := pm_ok m /\ addr_ok (sender m).
Lemma sealed_by_opens i K m f old : length K = 32%nat -> message_ok m -> sealed_by i K m f -> frame_fresh old ->
  DecryptPayloadInto K (ProtocolMessage_new (zero CONVOTAG)) (frame_into old f) = Done (true, m) /\ Frame_Verify (pub i) (frame_into old f) = true.
Proof.
  intros HK [Hm Ha] (f0 & (_ & _ & _ & HN & _) & Hs & V) (_ & _ & Ho & _). split; [by eapply sealed_decrypts|]. rewrite received_verifies; [done| |done]. apply Hs.
Qed.
(** A frame on the wire is read as it was sent. *)
Lemma sealed_by_wire i K m f : sealed_by i K m f ->
  exists txt, encode MAX_PROTOCOL_MESSAGE_SIZE (Frame_BEncode f) = Some txt /\
    forall old, frame_fresh old -> exists b, Frame_BDecode old (Buf txt 0) = Done (true, frame_into old f, b).
Proof.
  intros (f0 & _ & (Ok & _) & _). exists (dict_text (frame_pairs f)). split; [by apply encode_writes; [apply frame_writes|apply frame_length]|]. intros old Ho.
  eexists. apply (frame_decodes f old (Buf (dict_text (frame_pairs f)) 0) [] Ok Ho). by rewrite app_nil_r.
Qed.

Lemma work_single w e : works e = [] -> work_step 0 (QueueWork w e) = run_work w e.
Proof. destruct e. cbn. intros ->. reflexivity. Qed.
Lemma call_single now array c e : calls e = [] -> call_step ExitMap_ContainsValue now array (loop_call c e) = run_call ExitMap_ContainsValue now array c e.
Proof. destruct e. cbn. intros ->. reflexivity. Qed.

(** The session of [tag] with the service [i] under [K] *)
Definition has_session (t : ConvoTag) (i : Identity) (K : list Z) (e : Endpoint) : Prop :=
  exists s, m_Sessions e !! t = Some s /\ sharedKey s = K /\ remote s = pub i.
Lemma UpdateAddr_ok s : addr_ok s -> UpdateAddr s = s.
Proof. intros Ha. unfold UpdateAddr. destruct (IsZero (m_CachedAddr s)); [|done]. unfold CalculateAddress. rewrite <- Ha. by destruct s. Qed.
Lemma Addr_ok s : addr_ok s -> Addr s = signkey s.
Proof. intros Ha. unfold Addr. by rewrite UpdateAddr_ok. Qed.
Lemma session_frame_received i K m f e old array p t : identity_ok i -> IsZero (signkey (pub i)) = false -> length K = 32%nat -> IsZero K = false -> message_ok m ->
  sealed_by i K m f -> f_T f = t -> IsZero t = false -> f_R f = 0 -> has_session t i K e -> works e = [] -> frame_fresh old ->
  work_step 0 (HandleHiddenServiceFrame array p (frame_into old f) e).2 = Done (set_RecvQueue (tryPushBack (m_RecvQueue e) (mkRecv p (f_F f) m)) e).
Proof.
  intros Hi Hz HK HZ Hm Hs <- Ht HR (s & Es & <- & Er) Hw Ho. destruct (sealed_by_opens _ _ _ _ old HK Hm Hs Ho) as [D V]. destruct Hi as (_ & _ & _ & Ha & _).
  unfold HandleHiddenServiceFrame, AsyncDecryptAndVerify, GetCachedSessionKeyFor, GetSenderFor, frame_into in *. fields. rewrite HR, Ht, Es. cbn [Z.eqb negb fmap option_fmap option_map].
  rewrite HZ, Er, (UpdateAddr_ok _ Ha), (Addr_ok _ Ha), Hz. cbn [snd]. rewrite work_single by done. cbn [run_work].
  unfold DecryptData_Work. rewrite V. cbn [negb]. rewrite D. reflexivity.
Qed.

(** ** Sending on a conversation *)

Lemma seal_ok m K i f : identity_ok i -> message_ok m -> (length (payload m) <= 1500)%nat -> frame_ready f ->
  exists f', EncryptAndSign m K i f = (true, f') /\ sealed_by i K m f' /\ f_T f' = f_T f /\ f_R f' = f_R f /\ f_F f' = f_F f.
Proof.
  intros Hi [Hm Ha] Hp Hf. destruct (EncryptAndSign_spec m K i f Hi Hm (pm_fits m Hm Hp) Hf) as (f' & E & S & V).
  exists f'. split; [done|]. split; [by exists f|]. destruct S as (_ & _ & _ & ? & _ & ? & ? & _). done.
Qed.
Lemma frame_new_ready array : length array = D_SIZE -> frame_ready (Frame_new array).
Proof. intros Ha. unfold frame_ready, Frame_new, Frame_Clear. fields. split_and!; done. Qed.
Lemma sent_message_ok t data intro i T no : in_width 64 t -> (length data <= 1500)%nat -> introduction_ok intro -> identity_ok i -> length T = CONVOTAG -> in_width 64 no ->
  message_ok (mkProtocolMessage t data intro (pub i) T no proto_version).
Proof. intros Ht Hd Hi (_ & _ & Hs & Ha & _) HT Hn. split; [|done]. unfold pm_ok. fields. split_and!; try done; [lia|by apply Hs..]. Qed.
Lemma best_tag_spec order addr e best T : best_tag order addr e best = Some T ->
  best.1 = Some T \/ exists s, m_Sessions e !! T = Some s /\ Addr (remote s) = addr.
Proof.
  revert best. induction order as [|t order IH]; intros best E; [by left|]. cbn [best_tag] in E. destruct (m_Sessions e !! t) as [s|] eqn:Es; [|by apply IH].
  destruct (IsZero t); cbn [orb] in E; [by apply IH|]. case_bool_decide as Ea; cbn [negb] in E; [|by apply IH]. assert (G : forall b : option ConvoTag * Z, b.1 = Some T -> b.1 = best.1 \/ b.1 = Some t ->
    best.1 = Some T \/ exists s, m_Sessions e !! T = Some s /\ Addr (remote s) = addr) by (intros b Hb [Hx|Hx]; [left; congruence|right; exists s; split; congruence]).
  case_bool_decide; [injection E as <-; right; by exists s|]. destruct (inbound s).
  - destruct (GetPathByRouter _ _) as [p|]; apply IH in E as [E|E]; try (by right); [|by apply (G (Some t, best.2)); [|right]].
    destruct (_ <? _) in E; [by apply (G (Some t, 0)); [|right]|by left].
  - apply IH in E as [E|E]; [|by right]. apply (G _ E). unfold best_context. generalize (contexts_to addr e). intros cs.
    assert (B : forall b : option ConvoTag * Z, b.1 = best.1 \/ b.1 = Some t -> (fold_left (fun best c => if ReadyToSend c.2 && (0 <? estimatedRTT c.2) && (estimatedRTT c.2 <? best.2) then (Some t, estimatedRTT c.2) else best) cs b).1 = best.1 \/
      (fold_left (fun best c => if ReadyToSend c.2 && (0 <? estimatedRTT c.2) && (estimatedRTT c.2 <? best.2) then (Some t, estimatedRTT c.2) else best) cs b).1 = Some t).
    { induction cs as [|c cs IHc]; intros b Hb; [done|]. cbn [fold_left]. apply IHc. destruct (_ && _); [by right|done]. }
    apply B. by left.
Qed.

(** What the two ends of the conversations with [addr] agree on: [es] sends, [er] is there. *)
Definition convos_agree (addr : Address) (es er : Endpoint) : Prop :=
  forall T s, m_Sessions es !! T = Some s -> Addr (remote s) = addr ->
    length T = CONVOTAG /\ IsZero T = false /\ in_width 64 (ss_seqno s) /\ length (sharedKey s) = 32%nat /\ IsZero (sharedKey s) = false
    /\ has_session T (m_Identity es) (sharedKey s) er.
(** Paths are sound, queues have room, and the contexts of [addr] have their session. *)
Definition sender_ok (addr : Address) (e : Endpoint) : Prop :=
  identity_ok (m_Identity e) /\ IsZero (signkey (pub (m_Identity e))) = false /\ works e = [] /\ (length (m_SendQueue e) < QueueSize)%nat
  /\ Forall (fun p => introduction_ok (p_intro p)) (ep_paths e)
  /\ forall n c, contexts e !! n = Some c -> Addr (addressKeys c) = addr ->
       Forall (fun p => introduction_ok (p_intro p)) (cx_paths c) /\ (length (cx_SendQueue c) < QueueSize)%nat
       /\ exists s, m_Sessions e !! currentConvoTag c = Some s /\ Addr (remote s) = addr.
Definition queued (x : Transfer) (e : Endpoint) : Prop := x ∈ m_SendQueue e \/ exists n c, contexts e !! n = Some c /\ x ∈ cx_SendQueue c.
Lemma path_by_router_elem id ps p : GetPathByRouter id ps = Some p -> p ∈ ps.
Proof.
  unfold GetPathByRouter. assert (G : forall c, fold_left (fun chosen p => if p_ready p && bool_decide (p_endpoint p = id) then better chosen p else chosen) ps c = Some p -> c = Some p \/ p ∈ ps).
  { induction ps as [|q ps IH]; intros c E; [by left|]. cbn [fold_left] in E. apply IH in E as [E|E]; [|right; by apply list_elem_of_further].
    destruct (p_ready q && _); [|by left]. unfold better in E. destruct c as [c|]; [destruct (negb _ && _)|]; try (by left); injection E as <-; right; apply list_elem_of_here. }
  intros E. by destruct (G None E).
Qed.
Lemma path_intro_ok id ps p : Forall (fun p => introduction_ok (p_intro p)) ps -> GetPathByRouter id ps = Some p -> introduction_ok (p_intro p).
Proof. intros F E. by apply (proj1 (Forall_forall _ _) F p), (path_by_router_elem _ _ _ E). Qed.

(** The work a send leaves: a transfer with a sealed frame of the data on tag [T] *)
Definition sends (data : list Z) (t : Z) (T : ConvoTag) (K : list Z) (e1 : Endpoint) (i : Identity) : Prop :=
  exists e2 x m, work_step 0 e1 = Done e2 /\ queued x e2 /\ sealed_by i K m (t_T x) /\ message_ok m /\ f_T (t_T x) = T /\ f_R (t_T x) = 0
    /\ proto m = t /\ payload m = data /\ tag m = T /\ sender m = pub i.
Lemma queued_push x q e : (length q < QueueSize)%nat -> queued x (set_SendQueue (tryPushBack q x) e).
Proof. intros Hq. left. unfold tryPushBack. rewrite bool_decide_eq_true_2 by done. cbn. apply elem_of_app. right. by apply list_elem_of_singleton. Qed.
Lemma send_inbound array order addr data t e e1 : length array = D_SIZE -> in_width 64 t -> (length data <= 1500)%nat -> sender_ok addr e ->
  (forall T s, m_Sessions e !! T = Some s -> Addr (remote s) = addr -> length T = CONVOTAG /\ in_width 64 (ss_seqno s)) ->
  SendInbound array order addr data t e = (Some true, e1) ->
  exists T s, m_Sessions e !! T = Some s /\ Addr (remote s) = addr /\ sends data t T (sharedKey s) e1 (m_Identity e).
Proof.
  intros Harr Ht Hd (Hi & _ & Hw & Hq & Hp & _) HT E. unfold SendInbound in E. destruct (GetBestConvoTagFor order addr e) as [T|] eqn:Eb; [|done].
  apply best_tag_spec in Eb as [?|(s & Es & Ea)]; [done|]. unfold GetCachedSessionKeyFor, GetReplyIntroFor in E. rewrite Es in E. cbn [fmap option_fmap option_map] in E.
  destruct (GetPathByRouter (router (replyIntro s)) (ep_paths e)) as [p|] eqn:Ep; [|done]. pose proof (path_intro_ok _ _ _ Hp Ep) as Hpi.
  unfold Randomize in E. destruct (randombytes 32 (rnd e)) as [nonce g] eqn:Er. pose proof (randombytes_length 32 (rnd e)) as Hn. rewrite Er in Hn. cbn [fst] in Hn.
  unfold GetSeqNoForConvo in E. cbn [m_Sessions set_rnd] in E. rewrite Es in E. injection E as <-. exists T, s. split; [done|]. split; [done|]. destruct (HT T s Es Ea) as [LT Lq].
  destruct (seal_ok (mkProtocolMessage t data (p_intro p) (pub (m_Identity e)) T (ss_seqno s) proto_version) (sharedKey s) (m_Identity e)
    (set_f_F (pathID (p_intro p)) (set_f_S (ss_seqno s) (set_f_N nonce (set_f_T T (Frame_new array)))))) as (f & Ef & Hs & F1 & F2 & F3); [done|by apply sent_message_ok|done| |].
  { pose proof (frame_new_ready array Harr) as (R1 & R2 & R3 & R4 & R5 & R6 & R7). unfold frame_ready. fields. split_and!; try done. apply Hpi. }
  eexists _, (mkTransfer (pathID (replyIntro s)) f p), _. split.
  { rewrite work_single by exact Hw. cbn [run_work]. cbn [m_Identity upd_session set_Sessions set_rnd] in *. rewrite Ef. reflexivity. }
  split; [by apply queued_push|]. split; [exact Hs|]. split; [by apply sent_message_ok|]. done.
Qed.
Lemma send_context array data t n c addr e : length array = D_SIZE -> in_width 64 t -> (length data <= 1500)%nat -> sender_ok addr e ->
  (forall T s, m_Sessions e !! T = Some s -> Addr (remote s) = addr -> length T = CONVOTAG /\ in_width 64 (ss_seqno s)) ->
  contexts e !! n = Some c -> Addr (addressKeys c) = addr -> is_Some (GetPathByRouter (router (remoteIntro c)) (cx_paths c)) ->
  exists T s, m_Sessions e !! T = Some s /\ Addr (remote s) = addr /\ sends data t T (sharedKey s) (EncryptAndSendTo array data t n e) (m_Identity e).
Proof.
  intros Harr Ht Hd (Hi & _ & Hw & Hq & _ & Hc) HT Ec Ea [p Ep]. destruct (Hc n c Ec Ea) as (Hp & Hcq & s & Es & Er). exists (currentConvoTag c), s. split; [done|]. split; [done|].
  pose proof (path_intro_ok _ _ _ Hp Ep) as Hpi. destruct (path_by_router_ready _ _ _ Ep) as [Hrdy _]. destruct (HT _ _ Es Er) as [LT Lq]. set (T := currentConvoTag c) in *.
  unfold EncryptAndSendTo. rewrite Ec. unfold Randomize. destruct (randombytes 32 (rnd e)) as [nonce g] eqn:Eg. pose proof (randombytes_length 32 (rnd e)) as Hn. rewrite Eg in Hn. cbn [fst] in Hn.
  rewrite Ep. unfold GetCachedSessionKeyFor. cbn [m_Sessions upd_context set_contexts set_rnd]. fold T. rewrite Es. cbn [fmap option_fmap option_map].
  unfold GetSeqNoForConvo, PutReplyIntroFor, upd_session. cbn [m_Sessions set_Sessions PutIntroFor upd_context set_contexts set_rnd]. rewrite lookup_alter_eq, lookup_insert_eq, Es. cbn [fmap option_fmap option_map default from_option].
  set (S := u64 (sequenceNo c + 1)). destruct (seal_ok (mkProtocolMessage t data (p_intro p) (pub (m_Identity e)) T (ss_seqno s) proto_version) (sharedKey s) (m_Identity e)
    (set_f_F (pathID (p_intro p)) (set_f_S S (set_f_T T (set_f_N nonce (set_f_R 0 (Frame_new array))))))) as (f & Ef & Hs & F1 & F2 & F3); [done|by apply sent_message_ok|done| |].
  { pose proof (frame_new_ready array Harr) as (R1 & R2 & R3 & R4 & R5 & R6 & R7). unfold frame_ready. fields. split_and!; try done. apply Hpi. }
  eexists _, (mkTransfer (pathID (remoteIntro c)) f p), _. split.
  { rewrite work_single by exact Hw. cbn [run_work]. match goal with |- context [EncryptAndSign ?a ?b ?c ?d] => replace (EncryptAndSign a b c d) with (true, f) by (symmetry; exact Ef) end. reflexivity. }
  split; [|split; [exact Hs|]; split; [by apply sent_message_ok|done]].
  right. unfold Send. cbn [contexts set_Sessions PutIntroFor upd_context set_contexts set_rnd]. rewrite list_lookup_alter_eq, Ec. cbn [fmap option_fmap option_map cx_SendQueue set_sequenceNo]. rewrite Hrdy, bool_decide_eq_true_2 by done. cbn [andb snd].
  exists n. unfold upd_context. cbn [contexts set_contexts set_Sessions PutIntroFor set_rnd]. rewrite !list_lookup_alter_eq, Ec. cbn [fmap option_fmap option_map]. eexists. split; [reflexivity|]. cbn. apply elem_of_app. right. by apply list_elem_of_singleton.
Qed.
Lemma contexts_to_spec addr e n c : (n, c) ∈ contexts_to addr e -> contexts e !! n = Some c /\ Addr (addressKeys c) = addr.
Proof.
  intros [Ha Hin]%list_elem_of_filter. split; [|done]. apply list_elem_of_lookup in Hin as [i Hi]. rewrite list_lookup_imap in Hi. destruct (contexts e !! i) as [c'|] eqn:E; [|done]. by injection Hi as <- <-.
Qed.
Lemma ready_context_sends array auth data t n c addr e : length array = D_SIZE -> in_width 64 t -> (length data <= 1500)%nat -> sender_ok addr e ->
  (forall T s, m_Sessions e !! T = Some s -> Addr (remote s) = addr -> length T = CONVOTAG /\ in_width 64 (ss_seqno s)) ->
  head (base.filter (fun c => ReadyToSend c.2 = true) (contexts_to addr e)) = Some (n, c) ->
  exists T s, m_Sessions e !! T = Some s /\ Addr (remote s) = addr /\ sends data t T (sharedKey s) (AsyncEncryptAndSendTo array auth data t n e) (m_Identity e).
Proof.
  intros Harr Ht Hd Hs HT Eh. apply head_Some_elem_of, list_elem_of_filter in Eh as [Er Hc]. apply contexts_to_spec in Hc as [Hc Hca].
  cbn [snd] in Er. unfold ReadyToSend in Er. destruct (markedBad c), (IsZero (router (remoteIntro c))); try done. apply andb_prop in Er as [Es Ep]. apply bool_decide_eq_true in Ep.
  unfold AsyncEncryptAndSendTo. rewrite Hc, Es. by eapply send_context.
Qed.
(** Traffic that was received is queued for the tunnel. *)
Lemma data_message_queued now p from m e : proto m = TrafficV4 \/ proto m = TrafficV6 ->
  m_InboundTrafficQueue (HandleDataMessage ExitMap_ContainsValue now p from m e).2 = tryPushBack (m_InboundTrafficQueue e) m.
Proof.
  intros Hp. unfold HandleDataMessage, ProcessDataMessage. assert (Q : forall i b, m_InboundTrafficQueue (PutSenderFor (tag m) i b e) = m_InboundTrafficQueue e).
  { intros i b. unfold PutSenderFor. destruct (IsZero _); [done|]. destruct (_ !! _); [done|]. by destruct (_ && _). }
  destruct Hp as [-> | ->]; cbn [Z.eqb Pos.eqb andb orb TrafficV4 TrafficV6 Exit QUIC]; rewrite ?orb_true_r; cbn [snd set_InboundTrafficQueue m_InboundTrafficQueue ConvoTagRX PutReplyIntroFor upd_session set_Sessions]; by rewrite Q.
Qed.
Lemma flush_delivers now ev e : proto (ev_msg ev) = TrafficV4 \/ proto (ev_msg ev) = TrafficV6 -> m_RecvQueue e = [] ->
  m_InboundTrafficQueue (FlushRecvData ExitMap_ContainsValue now (set_RecvQueue (tryPushBack (m_RecvQueue e) ev) e)) = tryPushBack (m_InboundTrafficQueue e) (ev_msg ev).
Proof.
  intros Hp Hr. rewrite Hr. unfold FlushRecvData. cbn [m_RecvQueue set_RecvQueue]. change (tryPushBack [] ev) with [ev]. cbn [fold_left]. by rewrite data_message_queued.
Qed.


(** ** The first frame *)

Lemma KeyExchange_agree ia ib n : identity_ok ia -> identity_ok ib ->
  exists shared, KeyExchange dh_client (pub ib) n ia = Some shared /\ KeyExchange dh_server (pub ia) n ib = Some shared.
Proof.
  intros (_ & Ka & _ & _ & _ & Ea) (_ & Kb & _ & _ & _ & Eb). unfold KeyExchange. rewrite Ea, Eb, <- dh_agree by done.
  destruct (dh_client_total (toPublic (id_enckey ib)) (id_enckey ia) n) as (s & Es & _); [|by exists s].
  rewrite (proj1 (toPublic_key _ Kb)). apply scalarmult_honest; rewrite length_take; [destruct Ka|destruct Kb]; lia.
Qed.
(** The message a key exchange sends *)
Definition kx_message (kx : KeyExchangeJob) (i : Identity) : ProtocolMessage := set_pm_version proto_version (set_sender (pub i) (set_tag (kx_tag kx) (kx_msg kx))).
(** [f] opens under the encapsulated key, and [key] is the key of both sides. *)
Definition opens (f : ProtocolFrame) (ia ib : Identity) (m : ProtocolMessage) (key : list Z) : Prop :=
  exists K shared, pqe_decrypt (f_C f) (pq_keypair_to_secret (id_pq ib)) = Some K /\ length K = 32%nat /\ sealed_by ia K m f
    /\ KeyExchange dh_server (pub ia) (f_N f) ib = Some shared /\ key = session_key K shared.
Lemma exchange_sealed kx frame e ib : identity_ok (m_Identity e) -> identity_ok ib -> kx_remote kx = pub ib ->
  kem_pair (kx_introPubKey kx) (pq_keypair_to_secret (id_pq ib)) -> frame_ready frame -> message_ok (kx_message kx (m_Identity e)) -> (length (payload (kx_msg kx)) <= 1500)%nat ->
  exists g key f, Exchange_Work kx frame e = loop_call (ExchangeDone (mkKx (kx_ctx kx) (kx_remote kx) (kx_introPubKey kx) (kx_remoteIntro kx) (kx_tag kx) (kx_message kx (m_Identity e)) (kx_path kx)) key f) (set_rnd g e)
    /\ opens f (m_Identity e) ib (kx_message kx (m_Identity e)) key /\ f_T f = f_T frame /\ f_R f = f_R frame /\ f_F f = f_F frame.
Proof.
  intros Hi Hb Hr Hk (R1 & R2 & R3 & R4 & R5 & R6 & R7) Hm Hp. unfold Exchange_Work, pqe_encrypt. destruct (kem_correct _ _ (rnd e) Hk) as (c & K & g & Ek & Lc & LK & Ed). rewrite Ek. cbn [default from_option id].
  unfold Randomize. cbn [rnd set_rnd]. destruct (randombytes 32 g) as [n g2] eqn:Eg. pose proof (randombytes_length 32 g) as Ln. rewrite Eg in Ln. cbn [fst] in Ln. cbn [m_Identity set_rnd].
  destruct (KeyExchange_agree _ _ n Hi Hb) as (shared & E1 & E2). rewrite Hr, E1. cbn [default from_option id].
  set (f0 := set_f_N n (set_f_C (c ++ drop PQ_CIPHERTEXTSIZE (f_C frame)) frame)).
  assert (frame_ready f0) as Rf. { unfold frame_ready, f0. fields. split_and!; try done. rewrite length_app, length_drop, R1, Lc. unfold PQCipherBlock_SIZE. lia. }
  fold (kx_message kx (m_Identity e)). destruct (EncryptAndSign_spec (kx_message kx (m_Identity e)) K (m_Identity e) f0 Hi (proj1 Hm) (pm_fits _ (proj1 Hm) Hp) Rf) as (f & Ef & S & V).
  rewrite Ef. exists g2, (session_key K shared), f. split; [reflexivity|]. destruct S as (S1 & S2 & S3 & S4 & S5 & S6 & S7 & S8). split; [|done]. exists K, shared. split; [|split; [done|]].
  - unfold pqe_decrypt. rewrite S3. unfold f0. fields. by rewrite take_app_length'.
  - split; [exists f0; by split; [|split]|]. rewrite S5. by split.
Qed.
Lemma intro_frame_received f ia ib m key e old array p : identity_ok ia -> m_Identity e = ib -> opens f ia ib m key -> message_ok m -> sender m = pub ia -> IsZero (f_T f) = true -> f_R f = 0 ->
  m_Sessions e !! tag m = None -> m_AuthPolicy e = false -> works e = [] -> frame_fresh old ->
  work_step 0 (HandleHiddenServiceFrame array p (frame_into old f) e).2 = Done (loop_call (Authenticated (mkAuth p m (f_F f) key)) e).
Proof.
  intros Hi Hib (K & shared & Ek & LK & Hs & Ex & ->) Hm Em HT HR Hses Hpol Hw Ho. destruct (sealed_by_opens _ _ _ _ old LK Hm Hs Ho) as [D V].
  unfold HandleHiddenServiceFrame, AsyncDecryptAndVerify. unfold frame_into in *. fields. rewrite HR, HT. cbn [Z.eqb negb snd]. rewrite work_single by done. cbn [run_work]. unfold DecryptIntro_Work. fields.
  rewrite Hib, Ek, D. cbn [obind negb]. rewrite Em, V. cbn [negb]. unfold HasConvoTag. rewrite Hses, bool_decide_eq_false_2 by (by intros [? ?]). fields. rewrite Ex. unfold AsyncProcessAuthMessage. by rewrite Hpol.
Qed.
Lemma has_session_alter t t' i K f e : (forall s, sharedKey (f s) = sharedKey s /\ remote (f s) = remote s) -> has_session t i K e -> has_session t i K (upd_session t' f e).
Proof.
  intros Hf (s & Es & Ek & Er). destruct (decide (t = t')) as [<-|Hn].
  - exists (f s). cbn. rewrite lookup_alter_eq, Es. destruct (Hf s) as [-> ->]. done.
  - exists s. cbn. by rewrite lookup_alter_ne.
Qed.
Lemma PutSenderFor_there t info b e s : m_Sessions e !! t = Some s -> PutSenderFor t info b e = e.
Proof. intros E. unfold PutSenderFor. destruct (IsZero _); [done|]. by rewrite E. Qed.
Lemma PutSenderFor_new t i b e : addr_ok (pub i) -> IsZero (signkey (pub i)) = false -> m_Sessions e !! t = None -> WantsOutboundSession (signkey (pub i)) e && b = false ->
  PutSenderFor t (pub i) b e = set_Sessions (<[t := session_for (pub i) b]> (m_Sessions e)) e.
Proof. intros Ha Hz E Hb. unfold PutSenderFor. by rewrite Addr_ok, Hz, E, Hb, UpdateAddr_ok. Qed.
Lemma PutCached_session t i K e s : m_Sessions e !! t = Some s -> remote s = pub i -> has_session t i K (PutCachedSessionKeyFor t K e).
Proof. intros E Er. exists (set_sharedKey K s). unfold PutCachedSessionKeyFor. rewrite E. cbn. by rewrite lookup_insert_eq. Qed.
Lemma PutIntro_session t i K intro e : has_session t i K e -> has_session t i K (PutIntroFor t intro e).
Proof. intros (s & E & Ek & Er). exists (set_ss_intro intro s). unfold PutIntroFor. rewrite E. cbn. by rewrite lookup_insert_eq. Qed.
Lemma HandleDataMessage_session now p from m e t i K : has_session (tag m) i K e -> t = tag m -> has_session t i K (HandleDataMessage ExitMap_ContainsValue now p from m e).2.
Proof.
  intros Hs ->. unfold HandleDataMessage. destruct Hs as (s & Es & Ek & Er). rewrite (PutSenderFor_there _ _ _ _ _ Es).
  assert (G : forall intro, has_session (tag m) i K (ConvoTagRX now (tag m) (PutReplyIntroFor (tag m) intro e))).
  { intros intro. apply has_session_alter; [done|]. apply has_session_alter; [done|]. by exists s. }
  match goal with |- context [PutReplyIntroFor _ ?x _] => specialize (G x) end. unfold ProcessDataMessage. destruct (_ || _); [exact G|]. by destruct (_ =? _).
Qed.
(** The server's side of the event loop *)
Lemma accepted_session now array reason p m from key i e : identity_ok i -> IsZero (signkey (pub i)) = false -> m_Sessions e !! tag m = None -> m_AuthPolicy e = false -> sender m = pub i ->
  let e' := auth_accepted ExitMap_ContainsValue now array reason (mkAuth p m from key) e in
  has_session (tag m) i key e' /\ (proto m = TrafficV4 \/ proto m = TrafficV6 -> m_InboundTrafficQueue e' = tryPushBack (m_InboundTrafficQueue e) m).
Proof.
  intros (_ & _ & _ & Ha & _) Hz Hn Hp Em e'. unfold e', auth_accepted. cbn [au_msg au_path au_from au_key]. rewrite Em, (Addr_ok _ Ha), PutSenderFor_new; [|done..|by destruct (WantsOutboundSession _ _)].
  set (e1 := PutReplyIntroFor _ _ _). assert (exists s, m_Sessions e1 !! tag m = Some s /\ remote s = pub i) as (s & Es & Er).
  { unfold e1. cbn. rewrite lookup_alter_eq, lookup_insert_eq. eexists. split; [reflexivity|done]. }
  assert (SendAuthResult array p from (tag m) eAuthAccepted reason (PutCachedSessionKeyFor (tag m) key e1) = PutCachedSessionKeyFor (tag m) key e1) as ->.
  { unfold SendAuthResult. cbn [m_AuthPolicy PutCachedSessionKeyFor set_Sessions]. unfold e1. cbn [m_AuthPolicy PutReplyIntroFor upd_session set_Sessions]. rewrite Hp. cbn [negb]. by rewrite orb_true_r. }
  split; [apply HandleDataMessage_session; [by eapply PutCached_session|done]|]. intros Ht. by rewrite data_message_queued.
Qed.
(** The client's side of the event loop *)
Lemma exchange_result kx key f e ib c : m_Sessions e !! tag (kx_msg kx) = Some c -> remote c = pub ib -> has_session (tag (kx_msg kx)) ib key (Exchange_Result kx key f e).
Proof.
  intros Ec Er. unfold Exchange_Result. rewrite (PutSenderFor_there _ _ _ _ _ Ec). assert (G : forall e1 n fr pa, has_session (tag (kx_msg kx)) ib key e1 -> has_session (tag (kx_msg kx)) ib key (Send n fr pa e1).2).
  { intros e1 n fr pa Hs. unfold Send. destruct (contexts e1 !! n); [|done]. by destruct (_ && _). }
  apply G. apply has_session_alter; [done|]. apply PutIntro_session. by eapply PutCached_session.
Qed.
Lemma exchange_queued kx key f e c : contexts e !! kx_ctx kx = Some c -> p_ready (kx_path kx) = true -> (length (cx_SendQueue c) < QueueSize)%nat ->
  queued (mkTransfer (pathID (remoteIntro c)) f (kx_path kx)) (Exchange_Result kx key f e).
Proof.
  intros Ec Hr Hq. unfold Exchange_Result. set (e1 := PutReplyIntroFor _ _ _). assert (contexts e1 = contexts e) as E1.
  { transitivity (contexts (PutSenderFor (tag (kx_msg kx)) (kx_remote kx) false e)); [done|]. unfold PutSenderFor. destruct (IsZero _); [done|]. destruct (m_Sessions e !! _); [done|]. by destruct (_ && _). }
  unfold Send. rewrite E1, Ec, Hr, bool_decide_eq_true_2 by done. cbn [andb snd]. right. exists (kx_ctx kx). unfold upd_context. cbn [contexts set_contexts]. rewrite list_lookup_alter_eq, E1, Ec. eexists. split; [reflexivity|]. cbn.
  apply elem_of_app. right. by apply list_elem_of_singleton.
Qed.

(** The client [ea] has the context [c] for the service of [eb], and no frame was sent. *)
Definition client_ok (ea eb : Endpoint) (n : nat) (c : Context) (path : PathView) : Prop :=
  contexts ea !! n = Some c /\ remoteIdent c = pub (m_Identity eb) /\ addressKeys c = pub (m_Identity eb)
  /\ kem_pair (sntrupKey c) (pq_keypair_to_secret (id_pq (m_Identity eb))) /\ generatedIntro c = false /\ IsZero (router (remoteIntro c)) = false
  /\ GetPathByRouter (router (remoteIntro c)) (cx_paths c) = Some path /\ introduction_ok (p_intro path) /\ (length (cx_SendQueue c) < QueueSize)%nat
  /\ length (currentConvoTag c) = CONVOTAG /\ m_Sessions ea !! currentConvoTag c = None /\ works ea = [] /\ calls ea = [].
Definition server_ok (eb : Endpoint) (t : ConvoTag) : Prop := m_Sessions eb !! t = None /\ m_AuthPolicy eb = false /\ works eb = [] /\ calls eb = [].

(** ** What is not tested *)

(** A peer with a session may name any other service and a fresh tag in its message: the
    endpoint makes a session of that tag for the other service and passes the data on. *)
Lemma inner_sender_not_checked i K m f er old array p T now : identity_ok i -> IsZero (signkey (pub i)) = false -> length K = 32%nat -> IsZero K = false -> message_ok m ->
  sealed_by i K m f -> f_T f = T -> IsZero T = false -> f_R f = 0 -> has_session T i K er -> works er = [] -> frame_fresh old ->
  m_Sessions er !! tag m = None -> IsZero (signkey (sender m)) = false -> WantsOutboundSession (signkey (sender m)) er = false -> proto m = TrafficV4 -> m_RecvQueue er = [] ->
  exists er', work_step 0 (HandleHiddenServiceFrame array p (frame_into old f) er).2 = Done er' /\ let e2 := FlushRecvData ExitMap_ContainsValue now er' in
    (exists s, m_Sessions e2 !! tag m = Some s /\ remote s = sender m) /\ m_InboundTrafficQueue e2 = tryPushBack (m_InboundTrafficQueue er) m.
Proof.
  intros Hi Hz HK HZ Hm Hs HT Tz HR Hses Hw Ho Hn Hv Hwant Hp Hr. eexists. split; [by eapply session_frame_received|]. cbv zeta. split; [|apply (flush_delivers now (mkRecv p (f_F f) m)); [by left|done]].
  rewrite Hr. unfold FlushRecvData. cbn [m_RecvQueue set_RecvQueue]. change (tryPushBack [] ?x) with [x]. cbn [fold_left fromPath pathid ev_msg]. unfold HandleDataMessage, ProcessDataMessage.
  rewrite Hp. cbn [Z.eqb Pos.eqb TrafficV4 TrafficV6 Exit QUIC andb orb]. cbn [snd set_InboundTrafficQueue m_Sessions ConvoTagRX PutReplyIntroFor upd_session set_Sessions].
  destruct Hm as [_ Ha]. unfold PutSenderFor. rewrite (Addr_ok _ Ha), Hv. cbn [m_Sessions set_RecvQueue]. rewrite Hn. unfold WantsOutboundSession in *. cbn [m_OutboundSessions set_RecvQueue]. rewrite Hwant. cbn [andb m_Sessions set_Sessions].
  rewrite !lookup_alter_eq, lookup_insert_eq. eexists. split; [reflexivity|]. cbn. by apply UpdateAddr_ok.
Qed.
(** Of the traffic that waited for the first path to a service the first packet goes out
    with the introduction; the others are dropped. *)
Lemma waiting_traffic_dropped array addr n c path d t rest e : contexts e !! n = Some c -> sentIntro c = false -> generatedIntro c = false -> IsZero (router (remoteIntro c)) = false ->
  GetPathByRouter (router (remoteIntro c)) (cx_paths c) = Some path -> m_PendingTraffic e !! addr = Some ((d, t) :: rest) ->
  let e1 := AsyncGenIntro array d t n e in path_ensured array None addr (Some n) e = set_PendingTraffic (delete addr (m_PendingTraffic e1)) e1.
Proof.
  intros Ec Hs Hg Hz Hp Hw e1. unfold path_ensured. rewrite Hw. cbn [default fold_left fst snd id].
  assert (AsyncEncryptAndSendTo array None d t n e = e1) as -> by (unfold AsyncEncryptAndSendTo; by rewrite Ec, Hs, Hg).
  assert (contexts e1 !! n = Some (set_generatedIntro true c)) as E1.
  { unfold e1, AsyncGenIntro. rewrite Ec, Hg, Hz, Hp. unfold PutSenderFor. destruct (IsZero (Addr _)); [|destruct (m_Sessions _ !! _); [|destruct (_ && _)]]; cbn [contexts QueueWork set_works set_Sessions upd_context set_contexts]; by rewrite list_lookup_alter_eq, Ec. }
  assert (forall x, AsyncEncryptAndSendTo array None x.1 x.2 n e1 = e1) as Hn by (intros x; unfold AsyncEncryptAndSendTo; rewrite E1; cbn; by rewrite Hs).
  assert (forall l, fold_left (fun e p => AsyncEncryptAndSendTo array None p.1 p.2 n e) l e1 = e1) as Hf; [|by rewrite Hf]. intros l. induction l as [|x l IH]; [done|]. cbn [fold_left]. by rewrite Hn.
Qed.
End Conversations.

(** ** A conversation in numbers *)

#[local] Existing Instance toy_sodium.
#[local] Existing Instance toy_sodium_spec.
#[local] Existing Instance toy_sign.
#[local] Existing Instance toy_honest.
#[local] Instance toy_kem : Kem Z := {| kem_enc pk g := (Some (replicate PQ_CIPHERTEXTSIZE 7, take 32 pk), g + 1); kem_dec _ sk := Some (take 32 sk) |}.
#[local, refine] Instance toy_kem_spec : KemSpec Z := {| kem_pair pk sk := take 32 pk = take 32 sk /\ length (take 32 sk) = 32%nat |}.
Proof. intros pk sk g [E L]. exists (replicate PQ_CIPHERTEXTSIZE 7), (take 32 pk), (g + 1). split; [done|]. split; [apply length_replicate|]. split; [by rewrite E|]. cbn [kem_dec toy_kem]. by rewrite E. Defined.
Definition demo_identity (x : Z) : Identity :=
  let enc := (encryption_keygen (H := toy_sodium) x).1 in
  mkIdentity enc (replicate 32 x ++ replicate 32 (x + 100)) (replicate 2818 x) (Update (replicate 32 (x + 100)) (toPublic enc) None ServiceInfo_new).
Definition demo_intro (x : Z) : Introduction := mkIntroduction (replicate 32 9) (replicate PATHIDSIZE x) 5 600000 0.
Definition demo_view (x : Z) : PathView := mkPathView (demo_intro x) (replicate 32 9) true.
Definition demo_tag : ConvoTag := replicate CONVOTAG 3.
Definition demo_ep (x : Z) (ss : gmap ConvoTag Session) (cs : list Context) : Endpoint (H := toy_sodium) :=
  mkEndpoint (H := toy_sodium) (demo_identity x) ss ∅ false false false [demo_view x] [] [] [] cs [] [] [] x ∅ [].
Definition demo_ctx : Context :=
  mkContext (pub (demo_identity 2)) (replicate 1218 2) (pub (demo_identity 2)) (demo_intro 4) demo_tag 0 0 false false false [demo_view 1] [].
Definition demo_session (x : Z) (inb : bool) : Session :=
  mkSession (demo_intro (x + 10)) (replicate 32 8) (pub (demo_identity x)) Introduction_new 0 0 0 inb false 0 0.
Definition demo_array : list Z := replicate D_SIZE 0.
Definition demo_data : list Z := [69; 0; 0; 20].
Lemma demo_identity_ok x : identity_ok (demo_identity x).
Proof.
  unfold identity_ok, demo_identity. cbn [id_signkey id_enckey pub]. split; [by rewrite length_app, !length_replicate|]. split; [apply encryption_keygen_key|].
  pose proof (encryption_keygen_key x) as K. destruct (toPublic_key _ K) as [_ L]. unfold Update, UpdateAddr, info_ok, addr_ok, CalculateAddress. fields. cbn [ServiceInfo_new set_signkey set_enckey].
  change (IsZero (m_CachedAddr _)) with true. cbn iota. fields. split_and!; done.
Qed.
Lemma demo_introduction_ok x : introduction_ok (demo_intro x).
Proof. unfold introduction_ok, demo_intro. cbn [router pathID latency expiresAt in_version]. rewrite !length_replicate. split_and!; done. Qed.
